(* ===== verification/_CoqProject ===== *)
-Q . S2P
Prelude.v
Bits.v
Bytes.v
Replay.v
Ratelimiter.v
AllowedIPs.v
GoStrings.v
GoNetip.v
MagicHeader.v
ObfChain.v
Messages.v
Wire.v
Tai64n.v
Noise.v
ToyCrypto.v
Sessions.v
Handshake.v
Cookie.v
Transport.v
Runtime.v
Engine.v
Uapi.v
Machine.v
EngineSteps.v
EngineInv.v
EngineProps.v
EngineSend.v
EngineLoad.v
EngineTimers.v
UapiProps.v
TlsFragment.v
Masque.v
QuicInitial.v
AwgOptions.v
MasqueProps.v
QuicProps.v
QuicPacket.v
Masquerade.v
WgEndpoint.v
AwgProps.v
EndpointProps.v
EndpointPeers.v
Rules.v
RulesProps.v
DnsRouter.v
DnsClient.v
DnsCache.v
Ja3.v
Sniff.v
SniffProps.v
Router.v
SniffDecoys.v
RouterProps.v
RouterQuic.v
PreMatch.v
PreMatchProps.v
