(* ===== verification/Prelude.v ===== *)
(** * sing-box-vpnctl: verification development

    The repository is the sing-box proxy platform with an AmneziaWG 3.1 fork of
    wireguard-go (src/submodules/wireguard-go).  This development models the
    WireGuard device of that fork, the part that holds the keys, decides which
    packets are authentic and which peer they belong to, and parses what the
    network sends; the endpoint of sing-box that turns its options into the
    configuration of a device, with the decoy packets it generates; the
    fragmentation of TLS records; the sniffers that tell what a connection speaks;
    and the router with its rules for connections, flows and DNS queries.
    Definitions keep the names of the Go source; Go integers are [Z] with their
    wrap-around written out ([u8] to [u64], [i32], [i64]), byte slices are [list Z],
    maps are stdpp's [gmap], pointers to peers and key pairs are keys of heaps of
    objects, a panic is [None].

    ** The parts of the device and their files

    - Prelude.v, Bits.v, Bytes.v, GoStrings.v, GoNetip.v: machine integers, bit
      fields, byte order and slices, the number parsing and printing of strconv,
      the addresses and prefixes of net/netip.
    - Replay.v models replay/replay.go: the sliding window of a key pair that
      rejects packet counters seen before.
    - Ratelimiter.v models ratelimiter/ratelimiter.go: the token buckets that limit
      handshakes per address, with the clean-up goroutine as a [tick].
    - AllowedIPs.v models device/allowedips.go: two compressed tries from prefixes
      to peers, the list of entries of each peer, and the compiled CIDR test.
    - MagicHeader.v models device/magic-header.go and the ranges of noise-types.go.
    - ObfChain.v models device/obf.go and obf_*.go: the parser of decoy packet
      descriptions and the generators.
    - Messages.v models the message structures of device/noise-protocol.go with
      marshal and unmarshal.
    - Wire.v models the framing of packets: send.go ([awgPacketSize],
      [frameHandshake]) and receive.go ([prepareReceivedPacket],
      [determinePacketTypeAndPadding]).
    - Tai64n.v models tai64n/tai64n.go.
    - Noise.v models device/noise-protocol.go, noise-helpers.go, indextable.go,
      keypair.go: the IKpsk2 handshake, the index table and the rotation of key
      pairs, and what [removePeerLocked] and [SetPrivateKey] of device.go do to them.
      [ConsumeMessageInitiation] is its two halves, [verifyInitiation] under the read
      lock of the handshake and [acceptInitiation] under its write lock.  Sessions.v
      takes these operations as the steps of a state machine, in [live] runs with the
      two halves apart; Handshake.v runs two devices against each other.
    - Cookie.v models device/cookie.go: the MACs of handshake messages and the
      cookies that prove a sender's address.
    - Transport.v models the data path: [encryptTransport], the receiver's lookup,
      decryption, replay check and source check, and runs in which handshakes and
      received packets mix ([traffic_run]).
    - Runtime.v models what a peer holds besides its keys: the timers of timers.go,
      the session state and endpoint of peer.go, the staging queue of send.go.
    - Engine.v models the whole device at work: every handler of send.go,
      receive.go, timers.go, tun.go, the life cycle in peer.go and device.go, as
      computations on one state.
    - Uapi.v models device/uapi.go: the text protocol that configures a device and
      shows its configuration, line by line, with its errors.
    - Machine.v: [step], the operations the outside world can cause (a batch of
      datagrams, packets read, a timer, a worker's turn, peers added and removed,
      up, down, close, a new private key, a configuration text), and their runs.
    - EngineSteps.v breaks every handler down into a few kinds of small steps;
      EngineInv.v proves invariants from those ([StepInvariant], and
      [ConfigInvariant] for the configuration); EngineProps.v, EngineSend.v,
      EngineLoad.v, EngineTimers.v and UapiProps.v hold the theorems about runs.
    - ToyCrypto.v is a concrete, insecure instance of the cryptographic parameters,
      with which the examples and witnesses are evaluated.

    ** The endpoint, fragmentation, sniffers and router

    - AwgOptions.v models option/wireguard_awg.go and
      transport/wireguard/device_awg.go: the check of the AmneziaWG options and the
      lines written for the device; AwgProps.v has lemmas about these lines.
    - Masque.v models masque_awg.go, pseudo_gen_awg.go, sip_invite_awg.go and
      stun_request_awg.go of transport/wireguard: pseudo words, DNS queries, SIP
      dialogs and STUN requests that stand before a handshake.  QuicInitial.v models
      quic_initial_awg.go, quic_crypto_awg.go and quic_clienthello_awg.go: QUIC Initial packets with a ClientHello, their key
      schedule and protection.  Random draws are an oracle behind the monad [G],
      whose results are values, errors, panics or draws without end.
      MasqueProps.v and QuicProps.v follow the draws ([yields]), QuicPacket.v opens
      a packet again, Masquerade.v joins the protocols.
    - WgEndpoint.v models transport/wireguard/endpoint.go: [NewEndpoint], the lines
      of a peer, [Start] with the choice of the bind and the resolver, and what
      follows it.  EndpointProps.v and EndpointPeers.v carry the device and the
      peer lines through Uapi.v.
    - TlsFragment.v models common/tlsfragment: the search for the server name in a
      ClientHello and the connection that cuts the first packet.
    - Rules.v models the matching of route/rule: items, groups, default and logical
      rules, rule sets, and the two passes of DNS rules; RulesProps.v has the
      documented logic as a function ([documented]), and the logic with the reset of
      the flags of a rule set item below a logical rule ([sem]).  DnsRouter.v models the legacy mode
      of dns/router.go, DnsClient.v the client of dns/client.go with its cache, and
      DnsCache.v says where its answers come from.
    - Ja3.v models common/ja3: the parser of ClientHellos behind the fingerprints.
      Sniff.v models common/sniff: the sniffers of packets and streams, among them
      QUIC with its key schedule, header protection, frames and fragments, and the
      loops that try sniffers; SniffProps.v has lemmas and theorems about them.
      SniffDecoys.v lets the sniffers read the decoys of Masquerade.v.
    - Router.v models route/route.go with the actions of route/rule/rule_action.go:
      preparing the metadata, the loop over the rules, sniffing, resolving, options,
      and the connection that an outbound gets; RouterProps.v follows the bytes and
      packets that were read, RouterQuic.v a ClientHello in several QUIC packets.
    - PreMatch.v models the other pass over the rules, in which a TUN device asks
      about a flow with its first packet ([PreMatch] of route/route.go, [JudgeFlow] of
      adapter/router.go); PreMatchProps.v compares it with the router.

    [WgEndpoint.Start] writes its text with AwgOptions.v, whose decoys come from
    Masque.v and QuicInitial.v, and hands it to [Uapi.IpcSet] of a new device;
    [DnsRouter.exchangeLegacy] asks Rules.v before and after each response.
    [Router.match_loop] and [PreMatch.pre_loop] ask Rules.v for each rule and hand
    what has arrived to Sniff.v, which reads a ClientHello with Ja3.v.

    A handler of the Go code calls down through these files the way the source
    does: [Engine.RoutineHandshake] checks MACs with Cookie.v, limits the rate
    with Ratelimiter.v, consumes a message with Noise.v, answers through Wire.v;
    [Engine.processInboundContainer] uses Transport.v, Replay.v and AllowedIPs.v.

    ** What the theorems show

    - Keys and sessions: two honest devices that complete a handshake share their
      session keys; an initiation that was accepted passes no later check for that
      peer, whatever removals of peers and changes of the private key come between; a
      responder's key is used to send only after a packet that opens under it has
      arrived; the index table lists exactly the live
      handshakes and key pairs; index 0 can be handed out and is then lost.
    - Data: a sealed packet comes out at the peer as it went in; no packet is
      delivered twice or from a source the peer does not own; no nonce is used
      twice in any run of the device.
    - Routing and filters: the tries implement longest prefix match, the replay
      window the set of accepted counters, the rate limiter its bound; clean-up
      is transparent.
    - Parsing and printing: received packets are classified without panic;
      handshake messages, frames, decoy descriptions and header ranges round trip.
    - Life cycle and timers: sending staged packets ends with them gone or a
      handshake started; stopped peers are idle, with nothing queued in either
      direction, and the packet counters exact; handshakes under load are shed without
      effect; retransmission gives up in every run in which nothing else happens to
      the peer's handshake.
    - Configuration: whatever text is sent, the configuration of a device stays
      valid; a rejected text leaves the framing of packets alone; the lines a
      device shows restore its settings on another; the flag for an immediate
      keepalive leaks from a peer to the next.
    - Endpoint: options that [NewEndpoint] accepts give a text that a new device
      accepts, after which the device has exactly the keys, ports, obfuscation
      settings and peers of the options.  The decoys of a masquerade are packets of
      the protocol it names, for every draw.
    - Fragmentation: the first packet goes out whole and in order; the server name
      of a ClientHello is found, with the entries that follow it in its list; where a
      name is cut, and an extension whose length
      wraps around, do not work as meant.
    - Rules: matching computes the documented logic where no logical rule is below a
      rule set item with flags, and leaves the metadata alone;
      the first pass over DNS rules loses no rule, except rules that mix names with
      addresses; a DNS query ends as the documented logic says.
    - Sniffers: the fingerprint of a well-formed ClientHello has its fields; the
      sniffers without keys answer on every packet; the decoys of an endpoint are
      taken for what they pretend to be; one QUIC packet can hang or crash the
      sniffer.
    - Router: with one sniff rule a stream is handed over as it was sent and no
      packet is lost, though packets come in reverse; a ClientHello in several QUIC
      packets is recognised; with two sniff rules that read, parts of a stream change
      places and packets are doubled.  The verdict on a flow is that of the rule and
      outbound that the router selects, as long as no rule overrides the address
      after one that resolves the name and no answer depends on the mark that the
      judgement sets in the metadata.
    - DNS client: an answer was given by the server that was asked, for the same
      question and client subnet and within its TTL; the check of a response does
      not see answers from the cache.

    ** Parameters, bounds and fuel

    The cryptographic primitives (BLAKE2s, HMAC, X25519, ChaCha20-Poly1305,
    XChaCha20-Poly1305, ChaCha20) are parameters; the theorems that need a law of
    theirs (opening undoes sealing, the exchange commutes, output lengths) have it
    as a hypothesis, and ToyCrypto.v satisfies all of them.  The results of the
    operating system and random numbers are oracles indexed by the number of the
    call.  [Engine.send_staged] has fuel for two turns per staged container and
    four more; [EngineSend.staged_packets_leave] shows it never runs out. Recursion
    over tries has the depth of an address as fuel, with lemmas that it is enough.
    HKDF, AES-GCM and its header mask, HMAC-SHA1 and the ClientHello of a browser
    are parameters of the decoys in the same way.  The loop that draws cuts until
    enough of them differ has fuel; [QuicProps.varied] says that the draws vary
    enough for it, and then it ends.  [DnsRouter.exchangeLegacy] ends with as much
    fuel as there are rules and one.  [Ja3.Compute] has the length of its input as
    fuel, and [Ja3.ends_segment] shows that it ends; the rounds in which the QUIC
    sniffer puts fragments together are an argument, enough when they are more than
    the fragments, and no number is enough in [SniffProps.quic_sniffer_crash].
    What a connection does is a list of events, on which the loops that read are
    structural.  Matchers of names, address sets, regular expressions and the
    library's tests of addresses are arguments of Rules.v; the client is an argument
    of DnsRouter.v, and DnsCache.v runs the two together. The functions of the sing
    library on addresses, the services that the router asks and the sniffers that
    read with a library are arguments of Router.v.

    ** Not modelled

    Concurrency inside the device: a handler is one step at one instant, so races
    between handlers do not show, but for the check and the update of
    [ConsumeMessageInitiation], which the source does under two separate locks and
    Sessions.v takes apart.  Goroutine scheduling is the order of steps; channels are lists, and
    a send that would block does not.  Buffer pools, logging and the operating
    system (UDP binds, TUN devices, IPC listeners) are left out, as are the
    callbacks that create peers on demand.  In Rules.v items that ask the network
    manager are their answers, and the construction of rules from options is left
    out; of DNS, the mode with evaluated responses, the persistent cache, waiting
    for queries under way and the transports.  The sniffers of TLS and HTTP streams
    are calls of the Go library.  The router's logging, its trackers and the
    copying of connections are left out, and a packet buffer is its content: that a
    buffer in a list twice is released twice does not show.  Of the rest of the
    repository the rule set codec and the XHTTP metadata can be modelled in the same
    way and are not; transports, protocols, services and the command line are
    network I/O and glue around libraries. *)

From Stdlib Require Export ZArith Lia.
From stdpp Require Export base list gmap strings numbers.

(** ** Machine integers *)

Definition u8 (x : Z) : Z := (x mod 2 ^ 8)%Z.
Definition u16 (x : Z) : Z := (x mod 2 ^ 16)%Z.
Definition u32 (x : Z) : Z := (x mod 2 ^ 32)%Z.
Definition u64 (x : Z) : Z := (x mod 2 ^ 64)%Z.

(** The range predicates of the unsigned types. *)
Definition is_u (w : Z) (x : Z) : Prop := (0 <= x < 2 ^ w)%Z.
Abbreviation is_u8 := (is_u 8).
Abbreviation is_u16 := (is_u 16).
Abbreviation is_u32 := (is_u 32).
Abbreviation is_u64 := (is_u 64).

(** [int64] (and [int] on the 64-bit targets): two's complement wrap-around. *)
Definition i64 (x : Z) : Z := ((x + 2 ^ 63) mod 2 ^ 64 - 2 ^ 63)%Z.
Definition is_i64 (x : Z) : Prop := (- 2 ^ 63 <= x < 2 ^ 63)%Z.

(** [int32] *)
Definition i32 (x : Z) : Z := ((x + 2 ^ 31) mod 2 ^ 32 - 2 ^ 31)%Z.
Definition is_i32 (x : Z) : Prop := (- 2 ^ 31 <= x < 2 ^ 31)%Z.

#[export] Instance is_u_dec (w x : Z) : Decision (is_u w x).
Proof. unfold is_u. apply _. Defined.

(** Closes a decidable closed goal by evaluation. *)
Ltac red_bind := cbn [mbind option_bind fmap option_fmap option_map] in *.

(** Case analysis on the first effect of a computation. *)
Ltac bind_case :=
  match goal with
  | |- context [?o ≫= _] => destruct o eqn:?; red_bind
  | |- context [if ?b then _ else _] => destruct b eqn:?
  end.

Ltac by_eval := apply (bool_decide_unpack _); vm_compute; exact I.

(** ** Arithmetic shared by the components *)

Lemma u_small (w x : Z) : (is_u w x -> x mod 2 ^ w = x)%Z.
Proof. intros H. apply Z.mod_small, H. Qed.

Lemma u8_small (x : Z) : is_u8 x -> u8 x = x.
Proof. apply (u_small 8). Qed.

Lemma u16_small (x : Z) : is_u16 x -> u16 x = x.
Proof. apply (u_small 16). Qed.

Lemma u32_small (x : Z) : is_u32 x -> u32 x = x.
Proof. apply (u_small 32). Qed.

Lemma u64_small (x : Z) : is_u64 x -> u64 x = x.
Proof. apply (u_small 64). Qed.

Lemma i64_small (x : Z) : is_i64 x -> i64 x = x.
Proof. unfold is_i64, i64. intros H. rewrite Z.mod_small by lia. lia. Qed.

Lemma i32_small (x : Z) : is_i32 x -> i32 x = x.
Proof. unfold is_i32, i32. intros H. rewrite Z.mod_small by lia. lia. Qed.

(** Sums of wrapped numbers wrap once. *)
Lemma i32_add (x y : Z) : i32 (i32 x + y) = i32 (x + y).
Proof.
  unfold i32. replace ((x + 2 ^ 31) mod 2 ^ 32 - 2 ^ 31 + y + 2 ^ 31)%Z with ((x + 2 ^ 31) mod 2 ^ 32 + y)%Z by lia.
  rewrite Zplus_mod_idemp_l. f_equal. f_equal. lia.
Qed.

Lemma u8_is_u8 (x : Z) : is_u8 (u8 x).
Proof. apply Z.mod_pos_bound. lia. Qed.

Lemma u32_is_u32 (x : Z) : is_u32 (u32 x).
Proof. apply Z.mod_pos_bound. lia. Qed.

Lemma u64_is_u64 (x : Z) : is_u64 (u64 x).
Proof. apply Z.mod_pos_bound. lia. Qed.

(** A mask of the form [2^k - 1] is reduction modulo [2^k], a right shift is
    division by a power of two. *)
Lemma land_mask (k x : Z) : (0 <= k -> Z.land x (2 ^ k - 1) = x mod 2 ^ k)%Z.
Proof. intros H. rewrite <- Z.land_ones, Z.ones_equiv by lia. f_equal; lia. Qed.

(** Setting a bit leaves a word unchanged exactly when the bit was set. *)
Lemma lor_bit_eqb (x n : Z) :
  (0 <= n -> (x =? Z.lor x (Z.shiftl 1 n)) = Z.testbit x n)%Z.
Proof.
  intros Hn. destruct (Z.testbit x n) eqn:Hb.
  - apply Z.eqb_eq, Z.bits_inj'. intros m Hm.
    rewrite Z.lor_spec, Z.shiftl_1_l, Z.pow2_bits_eqb by lia.
    destruct (Z.eqb_spec n m) as [<-|]; [now rewrite Hb | now rewrite orb_false_r].
  - apply Z.eqb_neq. intros Heq.
    rewrite Heq, Z.lor_spec, Z.shiftl_1_l, Z.pow2_bits_true, orb_true_r in Hb by lia.
    discriminate.
Qed.

Lemma lor_bit_testbit (x n m : Z) :
  (0 <= n -> 0 <= m ->
   Z.testbit (Z.lor x (Z.shiftl 1 n)) m = orb (Z.testbit x m) (n =? m))%Z.
Proof. intros Hn Hm. now rewrite Z.lor_spec, Z.shiftl_1_l, Z.pow2_bits_eqb by lia. Qed.

Lemma shiftr_land_1 (x i : Z) : (0 <= i -> (Z.land (Z.shiftr x i) 1 =? 1) = Z.testbit x i)%Z.
Proof.
  intros Hi. pose proof (Z.land_ones (Z.shiftr x i) 1) as Hl.
  change (Z.ones 1) with 1%Z in Hl. rewrite Hl by lia. change (2 ^ 1)%Z with 2%Z.
  rewrite <- (Z.add_0_l i) at 2. rewrite <- Z.shiftr_spec, Z.bit0_odd by lia.
  rewrite Zmod_odd. by destruct (Z.odd _).
Qed.

(** Bit operations stay inside the width. *)
Lemma is_u_bits (w x : Z) :
  (0 <= w -> 0 <= x -> (forall i, w <= i -> Z.testbit x i = false) -> is_u w x)%Z.
Proof.
  intros Hw Hx Hb. split; [done|].
  enough (x mod 2 ^ w = x)%Z as <-.
  { apply Z.mod_pos_bound. lia. }
  apply Z.bits_inj'. intros n Hn. destruct (Z.lt_ge_cases n w).
  - now rewrite Z.mod_pow2_bits_low.
  - rewrite Z.mod_pow2_bits_high by lia. symmetry. auto.
Qed.

Lemma is_u_testbit_high (w x i : Z) :
  (is_u w x -> 0 <= w <= i -> Z.testbit x i = false)%Z.
Proof.
  intros Hx [Hw Hi]. rewrite <- (u_small w x Hx).
  apply Z.mod_pow2_bits_high. lia.
Qed.

Lemma is_u_lor (w x y : Z) : (0 <= w -> is_u w x -> is_u w y -> is_u w (Z.lor x y))%Z.
Proof.
  intros Hw Hx Hy. apply is_u_bits; [done | apply Z.lor_nonneg; split; [apply Hx | apply Hy] |].
  intros i Hi. rewrite Z.lor_spec, !(is_u_testbit_high w) by auto. done.
Qed.

(** ** Time

    A [time.Time] is a number of nanoseconds.  [Time.Sub] saturates at the
    extreme durations instead of wrapping. *)
Definition maxDuration : Z := 2 ^ 63 - 1.
Definition minDuration : Z := - 2 ^ 63.
Definition time_sub (t u : Z) : Z := Z.max minDuration (Z.min maxDuration (t - u)).
Definition Second : Z := 1000000000.

Lemma time_sub_small (t u : Z) : is_i64 (t - u) -> time_sub t u = (t - u)%Z.
Proof. unfold is_i64, time_sub, minDuration, maxDuration. lia. Qed.
