(* ===== verification/Bits.v ===== *)
(** * Bit strings of byte strings

    [encoding/binary] big-endian reads, [math/bits] leading-zero counts and
    [net.CIDRMask], each with its meaning on the sequence of bits of the bytes,
    most significant bit first. *)

From S2P Require Import Prelude.

Local Open Scope Z_scope.

(** ** Big-endian integers *)

Fixpoint be_uint (l : list Z) : Z :=
  match l with
  | [] => 0
  | b :: l' => b * 2 ^ (8 * Z.of_nat (length l')) + be_uint l'
  end.

(** [binary.BigEndian.Uint32] and [Uint64]: they read a prefix and panic on a
    short slice. *)
Definition be_Uint32 (b : list Z) : option Z :=
  if decide (length b < 4)%nat then None else Some (be_uint (take 4 b)).

Definition be_Uint64 (b : list Z) : option Z :=
  if decide (length b < 8)%nat then None else Some (be_uint (take 8 b)).

(** [binary.BigEndian.PutUint32] and the like: the [n] low bytes of [x]. *)
Fixpoint be_bytes (n : nat) (x : Z) : list Z :=
  match n with
  | O => []
  | S n => be_bytes n (Z.shiftr x 8) ++ [Z.land x 255]
  end.

(** [bits.Len], [bits.LeadingZeros32], [bits.LeadingZeros64]. *)
Definition bits_len (x : Z) : Z := if x =? 0 then 0 else Z.log2 x + 1.
Definition LeadingZeros32 (x : Z) : Z := 32 - bits_len x.
Definition LeadingZeros64 (x : Z) : Z := 64 - bits_len x.

(** [net.CIDRMask] for [0 <= ones <= 8 * n]. *)
Fixpoint CIDRMask (ones : Z) (n : nat) : list Z :=
  match n with
  | O => []
  | S n' =>
      if ones >=? 8 then 255 :: CIDRMask (ones - 8) n'
      else Z.lxor 255 (Z.shiftr 255 ones) :: CIDRMask 0 n'
  end.

(** ** The bits of a byte string *)

Definition byte_bits (b : Z) : list bool :=
  [Z.testbit b 7; Z.testbit b 6; Z.testbit b 5; Z.testbit b 4;
   Z.testbit b 3; Z.testbit b 2; Z.testbit b 1; Z.testbit b 0].

Fixpoint bits_of (l : list Z) : list bool :=
  match l with
  | [] => []
  | b :: l' => byte_bits b ++ bits_of l'
  end.

(** Value of a bit string. *)
Fixpoint bval (bs : list bool) : Z :=
  match bs with
  | [] => 0
  | b :: bs' => Z.b2z b * 2 ^ Z.of_nat (length bs') + bval bs'
  end.

(** Length of the longest common prefix. *)
Fixpoint lcp (x y : list bool) : nat :=
  match x, y with
  | a :: x', b :: y' => if Bool.eqb a b then S (lcp x' y') else O
  | _, _ => O
  end.

Lemma bits_of_length l : length (bits_of l) = (8 * length l)%nat.
Proof. induction l as [|b l IH]; [done|]. cbn [bits_of]. rewrite length_app, IH. cbn [length byte_bits]. lia. Qed.

Lemma bits_of_app l1 l2 : bits_of (l1 ++ l2) = bits_of l1 ++ bits_of l2.
Proof. induction l1 as [|b l IH]; [done|]. cbn [bits_of app]. by rewrite IH, <- app_assoc. Qed.

Lemma bval_range bs : 0 <= bval bs < 2 ^ Z.of_nat (length bs).
Proof.
  induction bs as [|b bs IH]; [done|]. cbn [bval length].
  rewrite Nat2Z.inj_succ, Z.pow_succ_r by lia. destruct b; cbn [Z.b2z]; lia.
Qed.

Lemma bval_app x y : bval (x ++ y) = bval x * 2 ^ Z.of_nat (length y) + bval y.
Proof.
  induction x as [|b x IH]; [done|]. cbn [bval app]. rewrite IH, length_app, Nat2Z.inj_add.
  rewrite Z.pow_add_r by lia. ring.
Qed.

(** A property of all bytes that evaluation decides. *)
Lemma byte_cases (P : Z -> bool) :
  forallb P (seqZ 0 256) = true -> forall b, is_u8 b -> P b = true.
Proof.
  intros Hall b Hb. rewrite forallb_forall in Hall. apply Hall.
  apply list_elem_of_In, elem_of_seqZ. unfold is_u in Hb. lia.
Qed.

Lemma byte_bval b : is_u8 b -> bval (byte_bits b) = b.
Proof.
  intros Hb. apply Z.eqb_eq. revert b Hb. apply byte_cases. vm_compute. reflexivity.
Qed.

Lemma be_uint_bval l : Forall is_u8 l -> be_uint l = bval (bits_of l).
Proof.
  induction l as [|b l IH]; intros Hl; [done|]. apply Forall_cons_iff in Hl as [Hb Hl].
  cbn [be_uint bits_of]. rewrite bval_app, byte_bval, IH, bits_of_length by done.
  repeat f_equal. lia.
Qed.

Lemma bits_of_inj l1 l2 :
  Forall is_u8 l1 -> Forall is_u8 l2 -> bits_of l1 = bits_of l2 -> l1 = l2.
Proof.
  revert l2. induction l1 as [|a l1 IH]; intros [|b l2] H1 H2 Heq;
    [done | done | done |].
  apply Forall_cons_iff in H1 as [Ha H1], H2 as [Hb H2].
  cbn [bits_of] in Heq. apply app_inj_1 in Heq as [Hab Heq]; [|done].
  f_equal; [|by apply IH]. by rewrite <- (byte_bval a), <- (byte_bval b), Hab.
Qed.

(** ** Leading zeros of a difference *)

Lemma bval_testbit_high bs i : Z.of_nat (length bs) <= i -> Z.testbit (bval bs) i = false.
Proof. intros Hi. apply (is_u_testbit_high (Z.of_nat (length bs))); [apply bval_range | lia]. Qed.

Lemma bval_cons_testbit b bs i :
  0 <= i -> Z.testbit (bval (b :: bs)) i =
  if i =? Z.of_nat (length bs) then b else Z.testbit (bval bs) i.
Proof.
  intros Hi. cbn [bval]. pose proof (bval_range bs) as Hr.
  rewrite <- Z.shiftl_mul_pow2 by lia.
  assert (Z.land (Z.shiftl (Z.b2z b) (Z.of_nat (length bs))) (bval bs) = 0) as Hdisj.
  { apply Z.bits_inj'. intros n Hn. rewrite Z.land_spec, Z.shiftl_spec, Z.testbit_0_l by lia.
    destruct (Z.lt_ge_cases n (Z.of_nat (length bs))).
    - by rewrite Z.testbit_neg_r by lia.
    - by rewrite bval_testbit_high, andb_false_r by lia. }
  assert (Z.shiftl (Z.b2z b) (Z.of_nat (length bs)) + bval bs =
          Z.lor (Z.shiftl (Z.b2z b) (Z.of_nat (length bs))) (bval bs)) as ->.
  { rewrite <- Z.lxor_lor; [apply Z.add_nocarry_lxor|]; exact Hdisj. }
  rewrite Z.lor_spec, Z.shiftl_spec by lia.
  destruct (Z.eqb_spec i (Z.of_nat (length bs))) as [->|Hne].
  - rewrite Z.sub_diag, Z.b2z_bit0, bval_testbit_high, orb_false_r by lia. done.
  - destruct (Z.lt_ge_cases i (Z.of_nat (length bs))).
    + by rewrite Z.testbit_neg_r by lia.
    + rewrite bval_testbit_high, orb_false_r by lia.
      apply (is_u_testbit_high 1); [unfold is_u; destruct b; cbn; lia | lia].
Qed.

Lemma bits_len_xor x y :
  length x = length y ->
  bits_len (Z.lxor (bval x) (bval y)) = Z.of_nat (length x) - Z.of_nat (lcp x y).
Proof.
  revert y. induction x as [|a x IH]; intros [|b y] Hlen; try done.
  injection Hlen as Hlen. specialize (IH y Hlen). cbn [lcp].
  destruct (Bool.eqb_spec a b) as [<-|Hne].
  - assert (Z.lxor (bval (a :: x)) (bval (a :: y)) = Z.lxor (bval x) (bval y)) as ->.
    { apply Z.bits_inj'. intros i Hi. rewrite !Z.lxor_spec, !bval_cons_testbit, Hlen by lia.
      destruct (Z.eqb_spec i (Z.of_nat (length y))) as [->|]; [|done].
      rewrite xorb_nilpotent, !bval_testbit_high by lia. done. }
    rewrite IH. cbn [length]. lia.
  - set (d := Z.lxor _ _).
    assert (Z.testbit d (Z.of_nat (length x)) = true) as Hbit.
    { subst d. rewrite Z.lxor_spec, !bval_cons_testbit by lia. rewrite Hlen, !Z.eqb_refl.
      destruct a, b; congruence || done. }
    assert (is_u (Z.of_nat (length x) + 1) d) as Hd.
    { apply is_u_bits; [lia | apply Z.lxor_nonneg; split; intros; apply bval_range |].
      intros i Hi. subst d. rewrite Z.lxor_spec, !bval_testbit_high by (cbn [length]; lia). done. }
    unfold bits_len. destruct (Z.eqb_spec d 0) as [Hz|Hz].
    { rewrite Hz, Z.testbit_0_l in Hbit. done. }
    enough (Z.log2 d = Z.of_nat (length x)) as -> by (cbn [length]; lia).
    apply Z.log2_unique; [lia|]. unfold is_u in Hd. rewrite <- Z.add_1_r. split; [|lia].
    destruct (Z.lt_ge_cases d (2 ^ Z.of_nat (length x))) as [Hlt|]; [|lia].
    rewrite (is_u_testbit_high (Z.of_nat (length x))) in Hbit by (unfold is_u; lia). done.
Qed.

Lemma LeadingZeros32_lcp a b :
  Forall is_u8 a -> Forall is_u8 b -> length a = 4%nat -> length b = 4%nat ->
  LeadingZeros32 (Z.lxor (be_uint a) (be_uint b)) = Z.of_nat (lcp (bits_of a) (bits_of b)).
Proof.
  intros Ha Hb La Lb. unfold LeadingZeros32.
  rewrite !be_uint_bval, bits_len_xor, bits_of_length, La by (rewrite ?bits_of_length; congruence).
  lia.
Qed.

Lemma LeadingZeros64_lcp a b :
  Forall is_u8 a -> Forall is_u8 b -> length a = 8%nat -> length b = 8%nat ->
  LeadingZeros64 (Z.lxor (be_uint a) (be_uint b)) = Z.of_nat (lcp (bits_of a) (bits_of b)).
Proof.
  intros Ha Hb La Lb. unfold LeadingZeros64.
  rewrite !be_uint_bval, bits_len_xor, bits_of_length, La by (rewrite ?bits_of_length; congruence).
  lia.
Qed.

(** ** Common prefixes *)

Lemma lcp_le_l x y : (lcp x y <= length x)%nat.
Proof. revert y. induction x as [|a x IH]; intros [|b y]; simpl; try lia. destruct (Bool.eqb a b); [specialize (IH y)|]; lia. Qed.

Lemma lcp_comm x y : lcp x y = lcp y x.
Proof.
  revert y. induction x as [|a x IH]; intros [|b y]; simpl; try done.
  destruct a, b; simpl; try done; by rewrite IH.
Qed.

Lemma lcp_refl x : lcp x x = length x.
Proof. induction x as [|a x IH]; simpl; [done|]. rewrite Bool.eqb_reflx. by rewrite IH. Qed.

(** The common prefix reaches [n] exactly when the first [n] bits of one string
    are a prefix of the other. *)
Lemma lcp_ge n x y :
  (n <= length x)%nat -> (n <= lcp x y)%nat <-> take n x `prefix_of` y.
Proof.
  revert x y. induction n as [|n IH]; intros x y Hn.
  { split; [intros _; apply prefix_nil | lia]. }
  destruct x as [|a x]; [simpl in Hn; lia|]. destruct y as [|b y]; simpl.
  { split; [lia|]. by intros ?%prefix_nil_not. }
  destruct (Bool.eqb_spec a b) as [<-|Hne].
  - rewrite <- Nat.succ_le_mono, IH by (simpl in Hn; lia). split.
    + apply prefix_cons.
    + by intros ?%prefix_cons_inv_2.
  - split; [lia|]. intros Hp. by apply prefix_cons_inv_1 in Hp.
Qed.

Lemma lcp_next x y :
  (lcp x y < length x)%nat -> (lcp x y < length y)%nat ->
  exists a b, x !! lcp x y = Some a /\ y !! lcp x y = Some b /\ a = negb b.
Proof.
  revert y. induction x as [|a x IH]; intros [|b y]; simpl; try lia.
  destruct (Bool.eqb_spec a b) as [<-|Hne]; intros H1 H2.
  - apply IH; lia.
  - exists a, b. repeat split; try done. destruct a, b; congruence || done.
Qed.

Lemma lcp_take x y : take (lcp x y) x = take (lcp x y) y.
Proof.
  revert y. induction x as [|a x IH]; intros [|b y]; simpl; try done.
  destruct (Bool.eqb_spec a b) as [<-|Hne]; simpl; [by rewrite IH | done].
Qed.

Lemma lcp_app x1 x2 y1 y2 :
  length x1 = length y1 ->
  lcp (x1 ++ x2) (y1 ++ y2) =
  if decide (x1 = y1) then (length x1 + lcp x2 y2)%nat else lcp x1 y1.
Proof.
  revert y1. induction x1 as [|a x1 IH]; intros [|b y1] Hlen; try done.
  injection Hlen as Hlen. simpl. destruct (Bool.eqb_spec a b) as [<-|Hne].
  - rewrite IH by done. do 2 case_decide; try done; congruence.
  - case_decide; [congruence | done].
Qed.

(** ** Single bits and masks *)

(** The bit the trie code reads: byte [i / 8], shifted right by [7 - i % 8]. *)
Lemma bits_of_lookup l i b :
  0 <= i -> l !! Z.to_nat (i / 8) = Some b ->
  bits_of l !! Z.to_nat i = Some (Z.testbit b (7 - i mod 8)).
Proof.
  revert i. induction l as [|a l IH]; intros i Hi Hl; [done|]. cbn [bits_of].
  pose proof (Z.div_mod i 8). pose proof (Z.mod_pos_bound i 8).
  destruct (decide (i < 8)) as [Hlt|Hge].
  - rewrite Z.div_small in Hl by lia. injection Hl as ->.
    rewrite lookup_app_l by (simpl; lia). rewrite Z.mod_small by lia.
    assert (i = 0 \/ i = 1 \/ i = 2 \/ i = 3 \/ i = 4 \/ i = 5 \/ i = 6 \/ i = 7) as Hc by lia.
    repeat destruct Hc as [->|Hc]; [done..|]. by rewrite Hc.
  - rewrite lookup_app_r by (simpl; lia). cbn [length byte_bits].
    assert ((i - 8) / 8 = i / 8 - 1 /\ (i - 8) mod 8 = i mod 8) as [Hdiv Hmod].
    { replace (i - 8) with (i + (-1) * 8) by lia. rewrite Z.div_add, Z.mod_add by lia. lia. }
    replace (Z.to_nat (i / 8)) with (S (Z.to_nat ((i - 8) / 8))) in Hl by lia.
    simpl in Hl. replace (Z.to_nat i - 8)%nat with (Z.to_nat (i - 8)) by lia.
    rewrite (IH (i - 8)) by (done || lia).
    by rewrite Hmod.
Qed.

Definition mask_bytes (l m : list Z) : list Z := zip_with Z.land l m.

Lemma mask_byte_bits n b :
  0 <= n <= 8 -> is_u8 b ->
  byte_bits (Z.land b (Z.lxor 255 (Z.shiftr 255 n))) =
  take (Z.to_nat n) (byte_bits b) ++ repeat false (8 - Z.to_nat n).
Proof.
  intros Hn Hb.
  assert (forall c, is_u8 c ->
    forallb (fun k => bool_decide (byte_bits (Z.land c (Z.lxor 255 (Z.shiftr 255 k))) =
      take (Z.to_nat k) (byte_bits c) ++ repeat false (8 - Z.to_nat k))) (seqZ 0 9) = true) as Hall.
  { apply byte_cases. vm_compute. reflexivity. }
  specialize (Hall b Hb). rewrite forallb_forall in Hall.
  apply (bool_decide_unpack _). rewrite Is_true_true. apply Hall.
  apply list_elem_of_In, elem_of_seqZ. lia.
Qed.

Lemma mask_bits_zero l n :
  (length l = n)%nat -> Forall is_u8 l ->
  bits_of (mask_bytes l (CIDRMask 0 n)) = repeat false (8 * n).
Proof.
  revert n. induction l as [|b l IH]; intros n Hn Hl; subst n; [done|].
  apply Forall_cons_iff in Hl as [Hb Hl]. cbn [length CIDRMask mask_bytes zip_with].
  change (0 >=? 8) with false. cbn [bits_of].
  change (zip_with Z.land l (CIDRMask 0 (length l))) with (mask_bytes l (CIDRMask 0 (length l))).
  rewrite IH by done. rewrite mask_byte_bits by (try lia; done).
  replace (8 * S (length l))%nat with (8 + 8 * length l)%nat by lia.
  by rewrite repeat_app.
Qed.

(** Masking keeps the first [ones] bits and clears the rest. *)
Lemma mask_bits l ones :
  0 <= ones <= 8 * Z.of_nat (length l) -> Forall is_u8 l ->
  bits_of (mask_bytes l (CIDRMask ones (length l))) =
  take (Z.to_nat ones) (bits_of l) ++ repeat false (8 * length l - Z.to_nat ones).
Proof.
  revert ones. induction l as [|b l IH]; intros ones Ho Hl.
  { simpl in *. by destruct (Z.to_nat ones). }
  apply Forall_cons_iff in Hl as [Hb Hl]. cbn [length] in Ho. cbn [length CIDRMask mask_bytes zip_with].
  rewrite Z.geb_leb. destruct (Z.leb_spec 8 ones) as [Hge|Hlt]; cbn [bits_of].
  - change (zip_with Z.land l (CIDRMask (ones - 8) (length l))) with (mask_bytes l (CIDRMask (ones - 8) (length l))).
    rewrite IH by (try lia; done).
    pose proof (mask_byte_bits 8 b ltac:(lia) Hb) as H8. change (Z.lxor 255 (Z.shiftr 255 8)) with 255 in H8.
    rewrite H8. change (take (Z.to_nat 8) (byte_bits b)) with (byte_bits b).
    change (repeat false (8 - Z.to_nat 8)) with (@nil bool). rewrite app_nil_r.
    rewrite take_app_ge by (simpl; lia). change (length (byte_bits b)) with 8%nat.
    rewrite <- app_assoc. do 2 f_equal; [f_equal; lia | f_equal; lia].
  - change (zip_with Z.land l (CIDRMask 0 (length l))) with (mask_bytes l (CIDRMask 0 (length l))).
    rewrite mask_bits_zero, mask_byte_bits by (try lia; done).
    rewrite take_app_le by (simpl; lia). rewrite <- app_assoc, <- repeat_app. do 2 f_equal. lia.
Qed.

Lemma mask_bytes_length l ones :
  length (mask_bytes l (CIDRMask ones (length l))) = length l.
Proof.
  revert ones. induction l as [|b l IH]; intros ones; [done|].
  cbn [length CIDRMask mask_bytes zip_with]. destruct (ones >=? 8); cbn [zip_with length]; by rewrite IH.
Qed.

Lemma is_u_land (w x y : Z) : 0 <= w -> is_u w x -> 0 <= y -> is_u w (Z.land x y).
Proof.
  intros Hw Hx Hy. apply is_u_bits; [done | apply Z.land_nonneg; by right |].
  intros i Hi. rewrite Z.land_spec, (is_u_testbit_high w) by auto. done.
Qed.

Lemma CIDRMask_nonneg ones n : 0 <= ones -> Forall (fun m => 0 <= m) (CIDRMask ones n).
Proof.
  revert ones. induction n as [|n IH]; intros ones Ho; cbn [CIDRMask]; [constructor|].
  rewrite Z.geb_leb. destruct (Z.leb_spec 8 ones); constructor; try lia; try (apply IH; lia).
  apply Z.lxor_nonneg. pose proof (Z.shiftr_nonneg 255 ones). intuition lia.
Qed.

Lemma mask_bytes_u8 l m : Forall is_u8 l -> Forall (fun x => 0 <= x) m -> Forall is_u8 (mask_bytes l m).
Proof.
  revert m. induction l as [|b l IH]; intros [|x m] Hl Hm; cbn; try constructor.
  - apply Forall_cons_iff in Hl as [Hb _], Hm as [Hx _]. apply is_u_land; [lia | done | done].
  - apply Forall_cons_iff in Hl as [_ Hl], Hm as [_ Hm]. by apply IH.
Qed.

(** ** Fixed-width encodings *)

Lemma be_bytes_length n x : length (be_bytes n x) = n.
Proof. revert x. induction n as [|n IH]; intros x; [done|]. cbn [be_bytes]. rewrite length_app, IH. cbn. lia. Qed.

Lemma land_255_u8 x : is_u8 (Z.land x 255).
Proof.
  pose proof (Z.land_ones x 8 ltac:(lia)) as Hl. change (Z.ones 8) with 255 in Hl. rewrite Hl.
  apply Z.mod_pos_bound. lia.
Qed.

Lemma be_bytes_u8 n x : Forall is_u8 (be_bytes n x).
Proof.
  revert x. induction n as [|n IH]; intros x; cbn [be_bytes]; [constructor|].
  apply Forall_app. split; [apply IH|]. repeat constructor; apply land_255_u8.
Qed.

Lemma be_uint_app a b : be_uint (a ++ b) = be_uint a * 2 ^ (8 * Z.of_nat (length b)) + be_uint b.
Proof.
  induction a as [|x a IH]; [done|]. cbn [be_uint app]. rewrite IH, length_app, Nat2Z.inj_add.
  rewrite Z.mul_add_distr_l, Z.pow_add_r by lia. ring.
Qed.

Lemma be_uint_bytes n x : be_uint (be_bytes n x) = x mod 2 ^ (8 * Z.of_nat n).
Proof.
  revert x. induction n as [|n IH]; intros x; [cbn; by rewrite Z.mod_1_r|].
  cbn [be_bytes]. rewrite be_uint_app, IH. cbn [be_uint length].
  pose proof (Z.land_ones x 8 ltac:(lia)) as Hl. change (Z.ones 8) with 255 in Hl. rewrite Hl.
  rewrite Z.shiftr_div_pow2 by lia. change (8 * Z.of_nat 1) with 8. change (8 * Z.of_nat 0) with 0.
  replace (8 * Z.of_nat (S n)) with (8 + 8 * Z.of_nat n) by lia.
  rewrite Z.pow_add_r, Z.rem_mul_r by lia. ring.
Qed.

(** [binary.LittleEndian]: reading and writing are the big-endian forms of the
    reversed bytes. *)
Definition le_uint (l : list Z) : Z := be_uint (reverse l).
Definition le_bytes (n : nat) (x : Z) : list Z := reverse (be_bytes n x).

Definition le_Uint32 (b : list Z) : option Z :=
  if decide (length b < 4)%nat then None else Some (le_uint (take 4 b)).

Definition le_Uint64 (b : list Z) : option Z :=
  if decide (length b < 8)%nat then None else Some (le_uint (take 8 b)).

Lemma le_bytes_length n x : length (le_bytes n x) = n.
Proof. unfold le_bytes. by rewrite length_reverse, be_bytes_length. Qed.

Lemma le_bytes_u8 n x : Forall is_u8 (le_bytes n x).
Proof. unfold le_bytes. apply Forall_reverse, be_bytes_u8. Qed.

Lemma le_uint_bytes n x : le_uint (le_bytes n x) = x mod 2 ^ (8 * Z.of_nat n).
Proof. unfold le_uint, le_bytes. by rewrite reverse_involutive, be_uint_bytes. Qed.

Lemma be_uint_range l : Forall is_u8 l -> 0 <= be_uint l < 2 ^ (8 * Z.of_nat (length l)).
Proof.
  intros Hl. rewrite be_uint_bval by done. pose proof (bval_range (bits_of l)) as Hr.
  rewrite bits_of_length in Hr. by replace (8 * Z.of_nat (length l)) with (Z.of_nat (8 * length l)) by lia.
Qed.

Lemma le_uint_range l : Forall is_u8 l -> 0 <= le_uint l < 2 ^ (8 * Z.of_nat (length l)).
Proof.
  intros Hl. unfold le_uint. rewrite <- (length_reverse l). apply be_uint_range. by apply Forall_reverse.
Qed.

Lemma bval_inj x y : length x = length y -> bval x = bval y -> x = y.
Proof.
  revert y. induction x as [|a x IH]; intros [|b y] Hl Hv; try done. injection Hl as Hl.
  cbn [bval] in Hv. rewrite <- Hl in Hv.
  pose proof (bval_range x). pose proof (bval_range y). rewrite <- Hl in *.
  assert (a = b) as -> by (destruct a, b; cbn [Z.b2z] in Hv; lia || done).
  f_equal. apply IH; [done | lia].
Qed.

Lemma be_uint_inj l1 l2 :
  Forall is_u8 l1 -> Forall is_u8 l2 -> length l1 = length l2 -> be_uint l1 = be_uint l2 -> l1 = l2.
Proof.
  intros H1 H2 Hl He. rewrite !be_uint_bval in He by done. apply bits_of_inj; [done..|].
  apply bval_inj; [rewrite !bits_of_length; lia | done].
Qed.

Lemma be_bytes_uint l : Forall is_u8 l -> be_bytes (length l) (be_uint l) = l.
Proof.
  intros Hl. apply be_uint_inj; [apply be_bytes_u8 | done | apply be_bytes_length |].
  rewrite be_uint_bytes. apply Z.mod_small, be_uint_range, Hl.
Qed.

Lemma le_bytes_uint l : Forall is_u8 l -> le_bytes (length l) (le_uint l) = l.
Proof.
  intros Hl. unfold le_bytes, le_uint. rewrite <- (length_reverse l), be_bytes_uint by (by apply Forall_reverse).
  apply reverse_involutive.
Qed.

(** Byte-wise exclusive or, and its value. *)
Definition xor_bytes (a b : list Z) : list Z := zip_with Z.lxor a b.

Lemma lxor_shift_add a b c d n :
  0 <= n -> 0 <= b < 2 ^ n -> 0 <= d < 2 ^ n ->
  Z.lxor (a * 2 ^ n + b) (c * 2 ^ n + d) = Z.lxor a c * 2 ^ n + Z.lxor b d.
Proof.
  intros Hn Hb Hd.
  assert (Hsplit : forall x y, 0 <= y < 2 ^ n -> x * 2 ^ n + y = Z.lxor (Z.shiftl x n) y).
  { intros x y Hy. rewrite <- Z.shiftl_mul_pow2 by done. apply Z.add_nocarry_lxor.
    apply Z.bits_inj'. intros i Hi. rewrite Z.land_spec, Z.bits_0.
    destruct (Z.lt_ge_cases i n) as [Hlt|Hge].
    - by rewrite Z.shiftl_spec_low.
    - rewrite (is_u_testbit_high n y), andb_false_r; [done | done | lia]. }
  assert (Hx : 0 <= Z.lxor b d < 2 ^ n).
  { apply is_u_bits; [done | apply Z.lxor_nonneg; lia |]. intros i Hi.
    by rewrite Z.lxor_spec, !(is_u_testbit_high n) by (done || lia). }
  rewrite !Hsplit by done. rewrite Z.shiftl_lxor.
  apply Z.bits_inj'. intros i Hi. rewrite !Z.lxor_spec. by do 4 destruct (Z.testbit _ _).
Qed.

Lemma be_uint_xor a b :
  length a = length b -> Forall is_u8 a -> Forall is_u8 b ->
  be_uint (xor_bytes a b) = Z.lxor (be_uint a) (be_uint b).
Proof.
  revert b. induction a as [|x a IH]; intros [|y b] Hl Ha Hb; try done. injection Hl as Hl.
  apply Forall_cons_iff in Ha as [Hx Ha], Hb as [Hy Hb]. unfold xor_bytes in *. cbn [zip_with be_uint].
  rewrite length_zip_with_l_eq, <- Hl, IH by done. symmetry. apply lxor_shift_add; [lia | by apply be_uint_range |].
  rewrite Hl. by apply be_uint_range.
Qed.

Lemma xor_bytes_reverse a b :
  length a = length b -> reverse (xor_bytes a b) = xor_bytes (reverse a) (reverse b).
Proof.
  revert b. induction a as [|x a IH]; intros [|y b] Hl; try done. injection Hl as Hl.
  unfold xor_bytes in *. cbn [zip_with]. rewrite !reverse_cons, IH by done.
  by rewrite zip_with_app by (rewrite !length_reverse; lia).
Qed.

Lemma le_uint_xor a b :
  length a = length b -> Forall is_u8 a -> Forall is_u8 b ->
  le_uint (xor_bytes a b) = Z.lxor (le_uint a) (le_uint b).
Proof.
  intros Hl Ha Hb. unfold le_uint. rewrite <- be_uint_xor by (rewrite ?length_reverse; try done; by apply Forall_reverse).
  f_equal. by apply xor_bytes_reverse.
Qed.

Lemma xor_bytes_u8 a b : Forall is_u8 a -> Forall is_u8 b -> Forall is_u8 (xor_bytes a b).
Proof.
  revert b. induction a as [|x a IH]; intros [|y b] Ha Hb; try constructor.
  - apply Forall_cons_iff in Ha as [Hx _], Hb as [Hy _]. apply is_u_bits; [lia | apply Z.lxor_nonneg; unfold is_u in *; lia |].
    intros i Hi. by rewrite Z.lxor_spec, !(is_u_testbit_high 8) by (done || lia).
  - apply Forall_cons_iff in Ha as [_ Ha], Hb as [_ Hb]. by apply IH.
Qed.

Lemma xor_bytes_involutive a b : length a = length b -> xor_bytes (xor_bytes a b) b = a.
Proof.
  revert b. induction a as [|x a IH]; intros [|y b] Hl; try done. injection Hl as Hl.
  unfold xor_bytes in *. cbn [zip_with]. rewrite IH by done. f_equal.
  by rewrite Z.lxor_assoc, Z.lxor_nilpotent, Z.lxor_0_r.
Qed.

Lemma xor_bytes_take n a b : take n (xor_bytes a b) = xor_bytes (take n a) (take n b).
Proof.
  revert a b. induction n as [|n IH]; intros [|x a] [|y b]; try done. unfold xor_bytes in *. cbn [take zip_with].
  by rewrite IH.
Qed.

Lemma xor_bytes_drop n a b : drop n (xor_bytes a b) = xor_bytes (drop n a) (drop n b).
Proof.
  revert a b. induction n as [|n IH]; intros [|x a] [|y b]; try done; unfold xor_bytes in *; cbn [drop zip_with].
  - by destruct (drop n a).
  - apply IH.
Qed.

Lemma xor_bytes_length a b : length a = length b -> length (xor_bytes a b) = length a.
Proof. intros Hl. unfold xor_bytes. by apply length_zip_with_l_eq. Qed.

Lemma xor_bytes_zeros_r n a : length a = n -> xor_bytes a (repeat 0 n) = a.
Proof.
  intros <-. unfold xor_bytes. induction a as [|x a IH]; [done|]. cbn [length repeat zip_with]. by rewrite IH, Z.lxor_0_r.
Qed.

Lemma xor_bytes_zeros n b : length b = n -> xor_bytes (repeat 0 n) b = b.
Proof. intros <-. unfold xor_bytes. induction b as [|x b IH]; [done|]. cbn [length repeat zip_with]. by rewrite IH. Qed.
