(* ===== verification/Bytes.v ===== *)
(** * Byte slices: slicing, [copy] and fields at fixed offsets

    Slicing outside the slice is a panic ([None]).  [copy] overwrites the front
    of the destination and keeps its length. *)

From S2P Require Import Prelude Bits.

Local Open Scope Z_scope.

(** [l[lo:hi]] *)
Definition slice (l : list Z) (lo hi : Z) : option (list Z) :=
  if (0 <=? lo) && (lo <=? hi) && (hi <=? Z.of_nat (length l))
  then Some (take (Z.to_nat (hi - lo)) (drop (Z.to_nat lo) l))
  else None.

(** [l[lo:]] *)
Definition slice_from (l : list Z) (lo : Z) : option (list Z) := slice l lo (Z.of_nat (length l)).

Definition copy (dst src : list Z) : list Z := take (length dst) src ++ drop (length src) dst.

(** [copy(b[off:], src)] *)
Definition copy_at (b : list Z) (off : nat) (src : list Z) : option (list Z) :=
  if decide (length b < off)%nat then None else Some (take off b ++ copy (drop off b) src).

(** [binary.LittleEndian.PutUint32(b[off:], v)] and the 64-bit form. *)
Definition put_le (b : list Z) (off n : nat) (v : Z) : option (list Z) :=
  if decide (length b < off + n)%nat then None else Some (take off b ++ le_bytes n v ++ drop (off + n) b).

(** [n] bytes at [off], as [copy] fills a fixed-size array from [b[off:]]. *)
Definition field (b : list Z) (off n : nat) : list Z := take n (drop off b).

(** [binary.BigEndian.PutUint16] of a 16-bit [v]. *)
Definition be16 (v : Z) : list Z := [u8 (Z.shiftr v 8); u8 (Z.land v 255)].

(** [uint16(b[i])<<8 | uint16(b[i+1])] *)
Definition uint16_at (b : list Z) (i : nat) : option Z := x ← b !! i; y ← b !! S i; Some (Z.lor (Z.shiftl x 8) y).

(** ** Lemmas *)

Lemma copy_length dst src : length (copy dst src) = length dst.
Proof. unfold copy. rewrite length_app, length_take, length_drop. lia. Qed.

Lemma copy_exact dst src : length dst = length src -> copy dst src = src.
Proof. intros Hl. unfold copy. rewrite take_ge, drop_ge by lia. apply app_nil_r. Qed.

Lemma copy_app dst1 dst2 src : length dst1 = length src -> copy (dst1 ++ dst2) src = src ++ dst2.
Proof.
  intros Hl. unfold copy. rewrite take_ge by (rewrite length_app; lia).
  by rewrite <- Hl, drop_app_length.
Qed.

(** Consecutive writes: after [pre], the next [length src] bytes are overwritten. *)
Lemma copy_at_app pre mid post src :
  length mid = length src -> copy_at (pre ++ mid ++ post) (length pre) src = Some (pre ++ src ++ post).
Proof.
  intros Hl. unfold copy_at. rewrite decide_False by (rewrite !length_app; lia).
  by rewrite take_app_length, drop_app_length, copy_app.
Qed.

Lemma put_le_app pre mid post n v :
  length mid = n -> put_le (pre ++ mid ++ post) (length pre) n v = Some (pre ++ le_bytes n v ++ post).
Proof.
  intros Hl. unfold put_le. rewrite decide_False by (rewrite !length_app; lia).
  rewrite take_app_length, drop_app_add. by rewrite <- Hl, drop_app_length.
Qed.

Lemma field_app pre mid post n : length mid = n -> field (pre ++ mid ++ post) (length pre) n = mid.
Proof. intros <-. unfold field. by rewrite drop_app_length, take_app_length. Qed.

Lemma field_length b off n : (off + n <= length b)%nat -> length (field b off n) = n.
Proof. intros Hl. unfold field. rewrite length_take, length_drop. lia. Qed.

Lemma field_u8 b off n : Forall is_u8 b -> Forall is_u8 (field b off n).
Proof. intros Hb. unfold field. by apply Forall_take, Forall_drop. Qed.

Lemma slice_some l lo hi :
  0 <= lo <= hi -> hi <= Z.of_nat (length l) ->
  slice l lo hi = Some (take (Z.to_nat (hi - lo)) (drop (Z.to_nat lo) l)).
Proof.
  intros Hlo Hhi. unfold slice. rewrite (proj2 (Z.leb_le 0 lo)), (proj2 (Z.leb_le lo hi)), (proj2 (Z.leb_le hi _)) by lia.
  done.
Qed.

Lemma slice_inv l lo hi r :
  slice l lo hi = Some r ->
  0 <= lo <= hi /\ hi <= Z.of_nat (length l) /\ r = take (Z.to_nat (hi - lo)) (drop (Z.to_nat lo) l).
Proof.
  unfold slice. destruct (Z.leb_spec 0 lo), (Z.leb_spec lo hi), (Z.leb_spec hi (Z.of_nat (length l))); try done.
  intros [= <-]. split_and!; (lia || done).
Qed.

Lemma slice_prefix l lo hi hi' a b : slice l lo hi = Some (a ++ b) -> hi' = lo + Z.of_nat (length a) -> slice l lo hi' = Some a.
Proof.
  intros (Hlo & Hhi & E)%slice_inv ->. assert (length (a ++ b) = Z.to_nat (hi - lo)) as Hn by (rewrite E, length_take, length_drop; lia).
  rewrite length_app in Hn. rewrite slice_some by lia. f_equal. apply (f_equal (take (length a))) in E.
  rewrite take_app_length, take_take in E. etransitivity; [|symmetry; exact E]. f_equal. lia.
Qed.

Lemma slice_length l lo hi r : slice l lo hi = Some r -> Z.of_nat (length r) = hi - lo.
Proof. intros (? & ? & ->)%slice_inv. rewrite length_take, length_drop. lia. Qed.

Lemma slice_u8 l lo hi r : Forall is_u8 l -> slice l lo hi = Some r -> Forall is_u8 r.
Proof. intros Hl (_ & _ & ->)%slice_inv. by apply Forall_take, Forall_drop. Qed.

Lemma slice_from_some l lo :
  0 <= lo <= Z.of_nat (length l) -> slice_from l lo = Some (drop (Z.to_nat lo) l).
Proof.
  intros Hlo. unfold slice_from. rewrite slice_some by lia. f_equal. apply take_ge. rewrite length_drop. lia.
Qed.

(** The slice of a concatenation at its seams. *)
Lemma slice_app pre mid post :
  slice (pre ++ mid ++ post) (Z.of_nat (length pre)) (Z.of_nat (length pre + length mid)) = Some mid.
Proof.
  rewrite slice_some by (rewrite ?length_app; lia). rewrite Nat2Z.id, drop_app_length.
  replace (Z.to_nat _) with (length mid) by lia. by rewrite take_app_length.
Qed.

Lemma slice_seam l pre mid post lo hi :
  l = pre ++ mid ++ post -> lo = Z.of_nat (length pre) -> hi = lo + Z.of_nat (length mid) -> slice l lo hi = Some mid.
Proof. intros -> -> ->. rewrite <- Nat2Z.inj_add. apply slice_app. Qed.

Lemma slice_from_seam l pre post lo : l = pre ++ post -> lo = Z.of_nat (length pre) -> slice_from l lo = Some post.
Proof.
  intros -> ->. apply (slice_seam _ pre post []); [by rewrite app_nil_r | done | rewrite length_app; lia].
Qed.

Lemma field_skip a r off n : (length a <= off)%nat -> field (a ++ r) off n = field r (off - length a) n.
Proof. intros Hl. unfold field. by rewrite drop_app_ge. Qed.

Lemma field_here f r off n : off = 0%nat -> n = length f -> field (f ++ r) off n = f.
Proof. intros -> ->. apply (field_app [] f r). done. Qed.

Lemma field_last f off n : off = 0%nat -> n = length f -> field f off n = f.
Proof. intros -> ->. unfold field. by rewrite drop_0, take_ge. Qed.

(** A buffer is its first [n] bytes and the rest. *)
Lemma field_split b off n : field b off n ++ drop (off + n) b = drop off b.
Proof. unfold field. by rewrite <- drop_drop, take_drop. Qed.

Lemma le_Uint32_bytes v r : is_u32 v -> le_Uint32 (le_bytes 4 v ++ r) = Some v.
Proof.
  intros Hv. unfold le_Uint32. rewrite decide_False by (rewrite length_app, le_bytes_length; lia).
  rewrite take_app_length' by (by rewrite le_bytes_length). rewrite le_uint_bytes. f_equal. by apply u32_small.
Qed.

Lemma le_Uint64_bytes v r : is_u64 v -> le_Uint64 (le_bytes 8 v ++ r) = Some v.
Proof.
  intros Hv. unfold le_Uint64. rewrite decide_False by (rewrite length_app, le_bytes_length; lia).
  rewrite take_app_length' by (by rewrite le_bytes_length). rewrite le_uint_bytes. f_equal. by apply u64_small.
Qed.

Lemma le_Uint32_field b off :
  (off + 4 <= length b)%nat -> le_Uint32 (drop off b) = Some (le_uint (field b off 4)).
Proof. intros Hl. unfold le_Uint32, field. by rewrite decide_False by (rewrite length_drop; lia). Qed.

Lemma le_field_bytes b off n : Forall is_u8 b -> (off + n <= length b)%nat ->
  le_bytes n (le_uint (field b off n)) = field b off n.
Proof.
  intros Hb Hl. rewrite <- (field_length b off n Hl) at 1. by apply le_bytes_uint, field_u8.
Qed.

Lemma le_field_range b off n : Forall is_u8 b -> (off + n <= length b)%nat ->
  0 <= le_uint (field b off n) < 2 ^ (8 * Z.of_nat n).
Proof.
  intros Hb Hl. rewrite <- (field_length b off n Hl) at 3. by apply le_uint_range, field_u8.
Qed.

Lemma be16_value v : 0 <= v < 65536 -> 256 * u8 (Z.shiftr v 8) + u8 (Z.land v 255) = v.
Proof.
  intros Hv. change 255 with (2 ^ 8 - 1). rewrite land_mask by lia. rewrite Z.shiftr_div_pow2 by lia. unfold u8. change (2 ^ 8) with 256.
  Z.to_euclidean_division_equations. lia.
Qed.

Lemma lor_shift8 x y : is_u8 y -> Z.lor (Z.shiftl x 8) y = 256 * x + y.
Proof.
  intros Hy.
  assert (Z.land (Z.shiftl x 8) y = 0) as Hd.
  { apply Z.bits_inj'. intros n Hn. rewrite Z.land_spec, Z.bits_0. destruct (Z.lt_ge_cases n 8).
    - by rewrite Z.shiftl_spec_low.
    - rewrite (is_u_testbit_high 8 y n) by (done || lia). apply andb_false_r. }
  rewrite <- Z.lxor_lor, <- Z.add_nocarry_lxor by done. rewrite Z.shiftl_mul_pow2 by lia. lia.
Qed.

(** Two bytes read as a 16-bit integer. *)
Lemma uint16_at_some b i : Forall is_u8 b -> (S i < length b)%nat ->
  exists v, uint16_at b i = Some v /\ is_u16 v.
Proof.
  intros Hb Hi. unfold uint16_at. destruct (lookup_lt_is_Some_2 b i) as [x Hx]; [lia|].
  destruct (lookup_lt_is_Some_2 b (S i)) as [y Hy]; [lia|]. rewrite Hx, Hy. cbn. eexists. split; [done|].
  pose proof (list.Forall_lookup_1 _ _ _ _ Hb Hx). pose proof (list.Forall_lookup_1 _ _ _ _ Hb Hy).
  rewrite lor_shift8 by done. unfold is_u in *. lia.
Qed.

(** A 16-bit integer written and read. *)
Lemma uint16_at_be16 pre v post i : is_u16 v -> i = length pre -> uint16_at (pre ++ be16 v ++ post) i = Some v.
Proof.
  intros Hv ->. unfold uint16_at.
  assert ((pre ++ be16 v ++ post) !! length pre = Some (u8 (Z.shiftr v 8))) as -> by (by rewrite lookup_app_r, Nat.sub_diag).
  assert ((pre ++ be16 v ++ post) !! S (length pre) = Some (u8 (Z.land v 255))) as Hy.
  { rewrite lookup_app_r by lia. by replace (S (length pre) - length pre)%nat with 1%nat by lia. }
  cbn [mbind option_bind]. rewrite Hy. cbn. rewrite lor_shift8 by apply u8_is_u8. f_equal.
  apply be16_value. unfold is_u in Hv. lia.
Qed.

Lemma uint16_at_head v post : is_u16 v -> uint16_at (be16 v ++ post) 0 = Some v.
Proof. intros Hv. by apply (uint16_at_be16 []). Qed.

Lemma uint16_at_seam b pre v post i : b = pre ++ be16 v ++ post -> i = length pre -> is_u16 v -> uint16_at b i = Some v.
Proof. intros -> Hi Hv. by apply uint16_at_be16. Qed.

Lemma lookup_seam (b pre post : list Z) x i : b = pre ++ x :: post -> i = length pre -> b !! i = Some x.
Proof. intros -> ->. by apply list_lookup_middle. Qed.
