(* ===== verification/Replay.v ===== *)
(** * The anti-replay filter (submodules/wireguard-go/replay/replay.go) *)

From S2P Require Import Prelude.

Module Replay.

Local Open Scope Z_scope.

Definition blockBitLog : Z := 6.
Definition blockBits : Z := 2 ^ blockBitLog.
Definition ringBlocks : Z := 2 ^ 7.
Definition windowSize : Z := (ringBlocks - 1) * blockBits.
Definition blockMask : Z := ringBlocks - 1.
Definition bitMask : Z := blockBits - 1.

Record Filter := mkFilter { last : Z; ring : list Z }.

Definition ring_get (r : list Z) (i : Z) : Z := nth (Z.to_nat i) r 0.
Definition ring_set (r : list Z) (i v : Z) : list Z := <[Z.to_nat i := v]> r.

Definition zeroFilter : Filter := mkFilter 0 (repeat 0 (Z.to_nat ringBlocks)).

Definition Reset (f : Filter) : Filter := mkFilter 0 (ring_set (ring f) 0 0).

Fixpoint clear_loop (fuel : nat) (i bound : Z) (r : list Z) : list Z :=
  match fuel with
  | O => r
  | S fuel' =>
      if i <=? bound
      then clear_loop fuel' (u64 (i + 1)) bound (ring_set r (Z.land i blockMask) 0)
      else r
  end.

(** The branch that moves the window forward to a counter beyond [last]. *)
Definition moveForward (f : Filter) (counter : Z) : Filter :=
  let indexBlock := Z.shiftr counter blockBitLog in
  let current := Z.shiftr (last f) blockBitLog in
  let diff0 := u64 (indexBlock - current) in
  let diff := if diff0 >? ringBlocks then ringBlocks else diff0 in
  mkFilter counter
    (clear_loop (S (Z.to_nat ringBlocks)) (current + 1) (current + diff) (ring f)).

(** The tail of the function: set the counter's bit, report whether it changed. *)
Definition markCounter (f : Filter) (counter : Z) : bool * Filter :=
  let indexBlock := Z.land (Z.shiftr counter blockBitLog) blockMask in
  let indexBit := Z.land counter bitMask in
  let old := ring_get (ring f) indexBlock in
  let new := Z.lor old (Z.shiftl 1 indexBit) in
  (negb (old =? new), mkFilter (last f) (ring_set (ring f) indexBlock new)).

Definition ValidateCounter (f : Filter) (counter limit : Z) : bool * Filter :=
  if counter >=? limit then (false, f)
  else if counter >? last f then markCounter (moveForward f counter) counter
  else if u64 (last f - counter) >? windowSize then (false, f)
  else markCounter f counter.

(** ** The abstract contract

    The filter promises a set: the history of accepted counters.  A counter is
    accepted when it is below the limit, not yet in the history and not more
    than [windowSize] behind the newest accepted counter. *)

Definition newest (h : list Z) : Z := foldr Z.max 0 h.

Definition spec_validate (h : list Z) (counter limit : Z) : bool * list Z :=
  if counter >=? limit then (false, h)
  else if counter + windowSize <? newest h then (false, h)
  else if bool_decide (counter ∈ h) then (false, h)
  else (true, counter :: h).

(** A filter tracks a history when every ring word of a block inside the window
    is the characteristic bit vector of the history on that block. *)
Record tracks (f : Filter) (h : list Z) : Prop := {
  tr_len : length (ring f) = Z.to_nat ringBlocks;
  tr_words : Forall is_u64 (ring f);
  tr_last : is_u64 (last f);
  tr_newest : newest h = last f;
  tr_pos : forall c, c ∈ h -> 0 <= c;
  tr_bits : forall c, 0 <= c -> last f / 64 - 127 <= c / 64 <= last f / 64 ->
      Z.testbit (ring_get (ring f) ((c / 64) mod 128)) (c mod 64) = bool_decide (c ∈ h)
}.

(** ** Lemmas *)

Lemma ring_get_set_eq r i v :
  0 <= i < 128 -> length r = Z.to_nat ringBlocks -> ring_get (ring_set r i v) i = v.
Proof.
  intros Hi Hr. unfold ring_get, ring_set.
  apply nth_lookup_Some, list_lookup_insert_eq. rewrite Hr. unfold ringBlocks. lia.
Qed.

Lemma ring_get_set_ne r i j v :
  0 <= i -> 0 <= j -> i <> j -> ring_get (ring_set r i v) j = ring_get r j.
Proof.
  intros Hi Hj Hne. unfold ring_get, ring_set. rewrite !nth_lookup.
  rewrite list_lookup_insert_ne by lia. done.
Qed.

Lemma ring_set_length r i v : length (ring_set r i v) = length r.
Proof. apply length_insert. Qed.

Lemma ring_set_words r i v : Forall is_u64 r -> is_u64 v -> Forall is_u64 (ring_set r i v).
Proof. intros Hr Hv. unfold ring_set. by apply Forall_insert. Qed.

Lemma ring_get_word r i : Forall is_u64 r -> is_u64 (ring_get r i).
Proof.
  intros Hr. unfold ring_get. destruct (nth_in_or_default (Z.to_nat i) r 0) as [Hin| ->].
  - exact (proj1 (Forall_forall _ _) Hr _ Hin).
  - unfold is_u. lia.
Qed.

Lemma newest_ge h c : c ∈ h -> c <= newest h.
Proof.
  induction h as [|x h IH]; [by intros ?%elem_of_nil|].
  intros [->|Hin]%elem_of_cons; simpl; [lia|]. specialize (IH Hin). lia.
Qed.

Lemma newest_cons c h : newest (c :: h) = Z.max c (newest h).
Proof. done. Qed.

Section ClearLoop.

Implicit Types (r : list Z) (i bound : Z).

Lemma clear_loop_length n i bound r : length (clear_loop n i bound r) = length r.
Proof.
  revert i r. induction n as [|n IH]; intros i r; simpl; [done|].
  destruct (i <=? bound); [|done]. by rewrite IH, ring_set_length.
Qed.

Lemma clear_loop_words n i bound r :
  Forall is_u64 r -> Forall is_u64 (clear_loop n i bound r).
Proof.
  revert i r. induction n as [|n IH]; intros i r Hr; simpl; [done|].
  destruct (i <=? bound); [|done]. apply IH, ring_set_words; [done|]. unfold is_u. lia.
Qed.

Lemma clear_loop_step n i bound r :
  0 <= i < 2 ^ 64 - 1 -> i <= bound ->
  clear_loop (S n) i bound r = clear_loop n (i + 1) bound (ring_set r (i mod 128) 0).
Proof.
  intros Hi Hle. simpl. rewrite (proj2 (Z.leb_le _ _) Hle).
  rewrite u64_small by (unfold is_u; lia).
  unfold blockMask, ringBlocks. by rewrite land_mask by lia.
Qed.

Lemma clear_loop_zero n i bound r j :
  0 <= j -> ring_get r j = 0 -> ring_get (clear_loop n i bound r) j = 0.
Proof.
  intros Hj. revert i r. induction n as [|n IH]; intros i r Hr; simpl; [done|].
  destruct (i <=? bound); [|done]. apply IH.
  assert (0 <= Z.land i blockMask) as Hm by (apply Z.land_nonneg; right; done).
  destruct (decide (Z.land i blockMask = j)) as [->|]; [|by rewrite ring_get_set_ne].
  unfold ring_get, ring_set. rewrite nth_lookup.
  destruct (decide (Z.to_nat j < length r)%nat).
  - by rewrite list_lookup_insert_eq.
  - rewrite list_insert_ge by lia. by rewrite <- nth_lookup.
Qed.

(** With enough fuel the loop clears exactly the ring slots of the blocks
    [i .. bound]. *)
Lemma clear_loop_in n i bound r k :
  0 <= i -> bound < 2 ^ 64 - 1 -> bound - i < Z.of_nat n ->
  length r = Z.to_nat ringBlocks -> i <= k <= bound ->
  ring_get (clear_loop n i bound r) (k mod 128) = 0.
Proof.
  revert i r. induction n as [|n IH]; intros i r Hi Hb Hn Hr Hk; [lia|].
  rewrite clear_loop_step by lia.
  pose proof (Z.mod_pos_bound i 128).
  destruct (decide (k = i)) as [->|].
  - apply clear_loop_zero; [lia|]. apply ring_get_set_eq; [lia|done].
  - apply IH; [lia | lia | lia | by rewrite ring_set_length | lia].
Qed.

Lemma clear_loop_out n i bound r j :
  0 <= i -> bound < 2 ^ 64 - 1 -> 0 <= j < 128 ->
  (forall k, i <= k <= bound -> k mod 128 <> j) ->
  ring_get (clear_loop n i bound r) j = ring_get r j.
Proof.
  revert i r. induction n as [|n IH]; intros i r Hi Hb Hj Hall; [done|].
  destruct (Z.le_gt_cases i bound) as [Hle|Hgt].
  - rewrite clear_loop_step by lia. pose proof (Z.mod_pos_bound i 128).
    rewrite IH by (try lia; intros k Hk; apply Hall; lia).
    apply ring_get_set_ne; [lia | lia |]. apply Hall. lia.
  - simpl. by rewrite (proj2 (Z.leb_gt _ _) Hgt).
Qed.

End ClearLoop.

(** Moving the window to [c] keeps the bits of the blocks that stay inside it
    and zeroes the blocks that enter it. *)
Lemma moveForward_bits f h c d :
  tracks f h -> is_u64 c -> last f < c ->
  0 <= d -> c / 64 - 127 <= d / 64 <= c / 64 ->
  Z.testbit (ring_get (ring (moveForward f c)) ((d / 64) mod 128)) (d mod 64) = bool_decide (d ∈ h).
Proof.
  intros Ht Hc Hlt Hd Hwin. destruct Ht as [Hlen Hwords Hlast Hnew Hpos Hbits].
  unfold moveForward. cbn [ring]. unfold blockBitLog. rewrite !Z.shiftr_div_pow2 by lia.
  change (2 ^ 6) with 64. unfold is_u in *.
  assert (last f / 64 <= c / 64) as Hmono by (apply Z.div_le_mono; lia).
  pose proof (Z.div_pos (last f) 64). pose proof (Z.div_le_upper_bound c 64 (2 ^ 58)).
  rewrite u64_small by (unfold is_u; lia).
  set (diff := if _ >? ringBlocks then _ else _).
  assert (diff = Z.min (c / 64 - last f / 64) 128) as Hdiff.
  { subst diff. rewrite Z.gtb_ltb. unfold ringBlocks. destruct (Z.ltb_spec (2 ^ 7) (c / 64 - last f / 64)); lia. }
  pose proof (Z.mod_pos_bound (d / 64) 128) as Hm.
  destruct (Z.le_gt_cases (d / 64) (last f / 64)) as [Hold|Hnewb].
  - (* the block was already inside the window *)
    rewrite clear_loop_out; [apply Hbits; lia | lia | lia | lia |].
    intros k Hk Heq.
    assert ((k - d / 64) mod 128 = 0) as Hz by (rewrite Zminus_mod, Heq, Z.sub_diag; done).
    apply Z.mod_divide in Hz; [|lia]. destruct Hz as [q Hq]. lia.
  - (* the block enters the window *)
    rewrite bool_decide_eq_false_2.
    2: { intros Hin. apply newest_ge in Hin. rewrite Hnew in Hin.
         assert (d / 64 <= last f / 64) by (apply Z.div_le_mono; lia). lia. }
    assert (exists k, last f / 64 + 1 <= k <= last f / 64 + diff /\ k mod 128 = (d / 64) mod 128)
      as (k & Hk & <-).
    { destruct (Z.le_gt_cases (d / 64) (last f / 64 + diff)); [exists (d / 64); lia|]. 
      exists (last f / 64 + 1 + (d / 64 - (last f / 64 + 1)) mod 128).
      pose proof (Z.mod_pos_bound (d / 64 - (last f / 64 + 1)) 128). split; [lia|].
      rewrite Zplus_mod_idemp_r. f_equal. lia. }
    rewrite clear_loop_in; [apply Z.testbit_0_l | lia | lia | unfold ringBlocks; lia | done | lia].
Qed.

(** The state [markCounter] sees: the ring tracks [h] around a window whose top
    is [last f]. *)
Record window (f : Filter) (h : list Z) : Prop := {
  wi_len : length (ring f) = Z.to_nat ringBlocks;
  wi_words : Forall is_u64 (ring f);
  wi_last : is_u64 (last f);
  wi_le : newest h <= last f;
  wi_pos : forall c, c ∈ h -> 0 <= c;
  wi_bits : forall c, 0 <= c -> last f / 64 - 127 <= c / 64 <= last f / 64 ->
      Z.testbit (ring_get (ring f) ((c / 64) mod 128)) (c mod 64) = bool_decide (c ∈ h)
}.

Lemma tracks_window f h : tracks f h -> window f h.
Proof. intros [? ? ? ? ? ?]; constructor; auto; lia. Qed.

Lemma moveForward_window f h c :
  tracks f h -> is_u64 c -> last f < c -> window (moveForward f c) h.
Proof.
  intros Ht Hc Hlt. constructor; cbn [last].
  - unfold moveForward. cbn [ring]. rewrite clear_loop_length. apply Ht.
  - unfold moveForward. cbn [ring]. apply clear_loop_words, Ht.
  - done.
  - destruct Ht. cbn. lia.
  - apply Ht.
  - intros d Hd Hw. by apply moveForward_bits with (h := h).
Qed.

Lemma testbit_mark_other old b b' :
  0 <= b -> 0 <= b' -> b <> b' ->
  Z.testbit (Z.lor old (Z.shiftl 1 b)) b' = Z.testbit old b'.
Proof.
  intros Hb Hb' Hne. rewrite lor_bit_testbit by lia.
  destruct (Z.eqb_spec b b'); [lia|]. by rewrite orb_false_r.
Qed.

(** Marking a counter of the window changes its bit and no other bit of the window. *)
Lemma mark_bits f h c d :
  window f h -> 0 <= c -> 0 <= d -> last f / 64 - 127 <= c / 64 <= last f / 64 -> last f / 64 - 127 <= d / 64 <= last f / 64 ->
  Z.testbit (ring_get (ring_set (ring f) ((c / 64) mod 128) (Z.lor (ring_get (ring f) ((c / 64) mod 128)) (Z.shiftl 1 (c mod 64)))) ((d / 64) mod 128)) (d mod 64) =
  bool_decide (d = c \/ d ∈ h).
Proof.
  intros Hw Hc Hd Hcw Hdw. pose proof (wi_bits _ _ Hw d Hd Hdw) as Hbit.
  pose proof (Z.mod_pos_bound (c / 64) 128). pose proof (Z.mod_pos_bound c 64). pose proof (Z.div_mod c 64).
  pose proof (Z.mod_pos_bound (d / 64) 128). pose proof (Z.mod_pos_bound d 64). pose proof (Z.div_mod d 64).
  destruct (decide (d / 64 = c / 64)) as [Heq|Hne].
  - rewrite Heq, ring_get_set_eq by (try lia; apply Hw). rewrite Heq in Hbit.
    destruct (decide (d mod 64 = c mod 64)) as [Heq'|Hne'].
    + assert (d = c) as -> by lia. rewrite lor_bit_testbit, Z.eqb_refl, orb_true_r by lia.
      symmetry. apply bool_decide_eq_true_2. by left.
    + rewrite testbit_mark_other, Hbit by lia. apply bool_decide_ext. split; [by right | intros [->|]; [lia | done]].
  - rewrite ring_get_set_ne; [| lia | lia |].
    + rewrite Hbit. apply bool_decide_ext. split; [by right | intros [->|]; [lia | done]].
    + intros Hcong. apply Hne.
      assert ((d / 64 - c / 64) mod 128 = 0) as Hz by (rewrite Zminus_mod, Hcong, Z.sub_diag; done).
      apply Z.mod_divide in Hz; [|lia]. destruct Hz as [q Hq]. lia.
Qed.

Lemma markCounter_spec f h c :
  window f h -> 0 <= c <= last f -> last f - c <= windowSize -> (last f = c \/ newest h = last f) ->
  let '(ok, f') := markCounter f c in
  ok = negb (bool_decide (c ∈ h)) /\
  last f' = last f /\
  tracks f' (if ok then c :: h else h).
Proof.
  intros Hw Hc Hwin Htop. pose proof Hw as [Hlen Hwords Hlast Hle Hpos Hbits].
  unfold markCounter, blockMask, bitMask, ringBlocks, blockBits, blockBitLog, windowSize,
    ringBlocks, blockBits, blockBitLog in *.
  rewrite !land_mask, Z.shiftr_div_pow2 by lia.
  change (2 ^ 7) with 128 in *. change (2 ^ 6) with 64 in *.
  pose proof (Z.mod_pos_bound (c / 64) 128). pose proof (Z.mod_pos_bound c 64).
  pose proof (Z.div_mod c 64). pose proof (Z.div_mod (last f) 64).
  pose proof (Z.mod_pos_bound (last f) 64).
  assert (last f / 64 - 127 <= c / 64 <= last f / 64) as Hblk by lia.
  set (w := ring_get (ring f) ((c / 64) mod 128)) in *.
  assert (Z.testbit w (c mod 64) = bool_decide (c ∈ h)) as Hold by (apply Hbits; lia).
  rewrite lor_bit_eqb, Hold by lia.
  set (new := Z.lor w (Z.shiftl 1 (c mod 64))).
  split; [done|]. split; [done|].
  assert (is_u64 new) as Hnew.
  { apply is_u_lor; [lia | by apply ring_get_word |]. rewrite Z.shiftl_1_l. split; [lia|].
    apply Z.pow_lt_mono_r; lia. }
  assert (forall d, d ∈ (if negb (bool_decide (c ∈ h)) then c :: h else h) <-> d = c \/ d ∈ h) as Hmem.
  { intros d. case_bool_decide; cbn [negb]; [|apply elem_of_cons].
    split; [by right | by intros [->|]]. }
  constructor; cbn [last ring].
  - by rewrite ring_set_length.
  - by apply ring_set_words.
  - done.
  - destruct (decide (c ∈ h)) as [Hin|Hin].
    + rewrite (bool_decide_eq_true_2 _ Hin). apply newest_ge in Hin. simpl. lia.
    + rewrite (bool_decide_eq_false_2 _ Hin). change (newest (c :: h) = last f).
      rewrite newest_cons. lia.
  - intros d Hd. apply Hmem in Hd. destruct Hd as [->|]; [lia | by apply Hpos].
  - intros d Hd Hdw. rewrite (bool_decide_ext _ _ (Hmem d)). apply mark_bits; [done | lia ..].
Qed.

Lemma reset_tracks f :
  length (ring f) = Z.to_nat ringBlocks -> Forall is_u64 (ring f) -> tracks (Reset f) [].
Proof.
  intros Hlen Hw. constructor; cbn [last ring Reset].
  - by rewrite ring_set_length.
  - apply ring_set_words; [done|]. unfold is_u; lia.
  - unfold is_u; lia.
  - done.
  - by intros c ?%elem_of_nil.
  - intros c Hc Hblk. assert (0 <= c / 64) by (apply Z.div_pos; lia).
    change (0 / 64) with 0 in Hblk. assert (c / 64 = 0) as -> by lia.
    rewrite ring_get_set_eq by (try lia; done).
    rewrite Z.testbit_0_l, bool_decide_eq_false_2; [done | apply not_elem_of_nil].
Qed.

(** A counter that passes is new, and the only addition to the history. *)
Lemma spec_validate_passed h c limit ok h' :
  spec_validate h c limit = (ok, h') -> h' = (if ok then c :: h else h) /\ (ok = true -> c ∉ h).
Proof.
  unfold spec_validate. destruct (_ >=? _); [by intros [= <- <-]|]. destruct (_ <? _); [by intros [= <- <-]|].
  case_bool_decide; by intros [= <- <-].
Qed.

(** One step of the filter simulates one step of the contract. *)
Lemma validate_simulates f h c limit :
  tracks f h -> is_u64 c -> is_u64 limit ->
  let '(ok, f') := ValidateCounter f c limit in
  let '(ok', h') := spec_validate h c limit in
  ok = ok' /\ tracks f' h'.
Proof.
  intros Ht Hc Hl. unfold ValidateCounter, spec_validate.
  rewrite Z.geb_leb, Z.gtb_ltb. destruct (Z.leb_spec limit c); [done|].
  rewrite (tr_newest _ _ Ht). pose proof (tr_last _ _ Ht) as Hlast. unfold is_u in *.
  destruct (Z.ltb_spec (last f) c) as [Hlt|Hge].
  - assert (c ∉ h) as Hfresh.
    { intros ?%newest_ge. rewrite (tr_newest _ _ Ht) in *. lia. }
    destruct (Z.ltb_spec (c + windowSize) (last f)); [unfold windowSize, ringBlocks, blockBits, blockBitLog in *; lia|].
    rewrite bool_decide_eq_false_2 by done.
    pose proof (markCounter_spec (moveForward f c) h c) as Hm.
    destruct (markCounter _ _) as [ok f'].
    destruct Hm as (-> & _ & Htr); [by apply moveForward_window | cbn; lia | cbn; unfold windowSize, ringBlocks, blockBits, blockBitLog; lia | by left |].
    rewrite bool_decide_eq_false_2 in * by done. done.
  - rewrite Z.gtb_ltb, u64_small by (unfold is_u; lia).
    destruct (Z.ltb_spec windowSize (last f - c)), (Z.ltb_spec (c + windowSize) (last f)); try lia; [done|].
    pose proof (markCounter_spec f h c) as Hm. destruct (markCounter _ _) as [ok f'].
    destruct Hm as (-> & _ & Htr); [by apply tracks_window | lia | lia | right; apply Ht |].
    by case_bool_decide.
Qed.

(** Running the filter over a sequence of received counters. *)
Fixpoint run_filter (f : Filter) (limit : Z) (cs : list Z) : list bool * Filter :=
  match cs with
  | [] => ([], f)
  | c :: cs' =>
      let '(ok, f') := ValidateCounter f c limit in
      let '(oks, f'') := run_filter f' limit cs' in
      (ok :: oks, f'')
  end.

Fixpoint run_spec (h : list Z) (limit : Z) (cs : list Z) : list bool * list Z :=
  match cs with
  | [] => ([], h)
  | c :: cs' =>
      let '(ok, h') := spec_validate h c limit in
      let '(oks, h'') := run_spec h' limit cs' in
      (ok :: oks, h'')
  end.

Lemma run_simulates f h limit cs :
  tracks f h -> is_u64 limit -> Forall is_u64 cs ->
  fst (run_filter f limit cs) = fst (run_spec h limit cs) /\
  tracks (snd (run_filter f limit cs)) (snd (run_spec h limit cs)).
Proof.
  revert f h. induction cs as [|c cs IH]; intros f h Ht Hl Hcs; [done|].
  apply Forall_cons_iff in Hcs as [Hc Hcs]. simpl.
  pose proof (validate_simulates f h c limit Ht Hc Hl) as Hs.
  destruct (ValidateCounter f c limit) as [ok f'], (spec_validate h c limit) as [ok' h'].
  destruct Hs as [<- Ht']. specialize (IH f' h' Ht' Hl Hcs).
  destruct (run_filter f' limit cs), (run_spec h' limit cs). simpl in *.
  destruct IH as [-> ?]. done.
Qed.

(** The counters the filter let through. *)
Fixpoint passed (cs : list Z) (oks : list bool) : list Z :=
  match cs, oks with
  | c :: cs', ok :: oks' => if ok then c :: passed cs' oks' else passed cs' oks'
  | _, _ => []
  end.

Lemma spec_passed_nodup h limit cs :
  NoDup h ->
  NoDup (passed cs (fst (run_spec h limit cs))) /\
  Forall (fun c => c < limit /\ c ∉ h) (passed cs (fst (run_spec h limit cs))).
Proof.
  revert h. induction cs as [|c cs IH]; intros h Hh.
  { split; constructor. }
  assert (forall b, b = false -> forall h', NoDup h' ->
    NoDup (passed (c :: cs) (b :: fst (run_spec h' limit cs))) /\
    Forall (fun d => d < limit /\ d ∉ h') (passed (c :: cs) (b :: fst (run_spec h' limit cs)))) as Hskip.
  { intros b -> h' Hh'. exact (IH h' Hh'). }
  cbn [run_spec]. unfold spec_validate. rewrite Z.geb_leb.
  destruct (Z.leb_spec limit c) as [|Hlt];
    [|destruct (_ <? newest h); [|case_bool_decide as Hin]].
  1-3: specialize (Hskip false eq_refl h Hh); by destruct (run_spec h limit cs).
  destruct (IH (c :: h)) as [IH1 IH2]; [by constructor|].
  destruct (run_spec (c :: h) limit cs) as [oks h'']. cbn in *.
  rewrite Forall_forall in IH2. split.
  - constructor; [|done]. intros Hc. apply list_elem_of_In, IH2 in Hc as [_ Hc].
    apply Hc. by left.
  - apply Forall_cons_iff. split; [done|]. apply Forall_forall. intros d Hd.
    apply IH2 in Hd as [? Hd]. split; [done|]. intros ?. apply Hd. by right.
Qed.

(** ** Properties *)

(** C6. the ring-buffer filter implements its contract.  After [Reset] of any
    filter, on every sequence of received counters, [ValidateCounter] gives the
    same verdicts as the abstract filter that remembers every accepted counter:
    a counter passes iff it is below the limit, at most [windowSize] behind the
    newest accepted counter, and never accepted before. *)
Theorem filter_refines_history (f : Filter) (limit : Z) (cs : list Z) :
  length (ring f) = Z.to_nat ringBlocks -> Forall is_u64 (ring f) ->
  is_u64 limit -> Forall is_u64 cs ->
  fst (run_filter (Reset f) limit cs) = fst (run_spec [] limit cs).
Proof.
  intros Hlen Hw Hl Hcs. apply run_simulates; [by apply reset_tracks | done | done].
Qed.

Lemma filter_refines_history_witness :
  fst (run_filter (Reset zeroFilter) (2 ^ 64 - 2 ^ 13 - 1) [5; 5; 9000; 5; 8999; 9000]) =
  [true; false; true; false; true; false].
Proof.
  rewrite filter_refines_history; [vm_compute; reflexivity | by_eval ..].
Defined.

(** No counter passes the filter twice, and none at or above the limit,
    whatever the order in which the counters arrive. *)
Theorem no_counter_passes_twice (f : Filter) (limit : Z) (cs : list Z) :
  length (ring f) = Z.to_nat ringBlocks -> Forall is_u64 (ring f) ->
  is_u64 limit -> Forall is_u64 cs ->
  NoDup (passed cs (fst (run_filter (Reset f) limit cs))) /\
  Forall (fun c => c < limit) (passed cs (fst (run_filter (Reset f) limit cs))).
Proof.
  intros Hlen Hw Hl Hcs.
  destruct (run_simulates (Reset f) [] limit cs) as [-> _]; [by apply reset_tracks | done | done |].
  destruct (spec_passed_nodup [] limit cs) as [H1 H2]; [constructor|].
  split; [done|]. revert H2. apply Forall_impl. by intros c [].
Qed.

Lemma no_counter_passes_twice_witness :
  NoDup (passed [3; 3; 70000; 3]
           (fst (run_filter (Reset zeroFilter) 80000 [3; 3; 70000; 3]))) /\
  Forall (fun c => c < 80000)
    (passed [3; 3; 70000; 3] (fst (run_filter (Reset zeroFilter) 80000 [3; 3; 70000; 3]))).
Proof.
  apply (no_counter_passes_twice zeroFilter 80000 [3; 3; 70000; 3]); by_eval.
Defined.

End Replay.
