(* ===== verification/Ratelimiter.v ===== *)
(** * The handshake rate limiter (submodules/wireguard-go/ratelimiter/ratelimiter.go)

    A token bucket per source address, with a garbage collector that is only
    armed while the table is not empty. *)

From S2P Require Import Prelude.

Module Ratelimiter.

Local Open Scope Z_scope.

Section Limiter.

(** [netip.Addr], used as a map key. *)
Context {Addr : Type} `{Countable Addr}.

Definition packetsPerSecond : Z := 20.
Definition packetsBurstable : Z := 5.
Definition garbageCollectTime : Z := Second.
Definition packetCost : Z := 1000000000 / packetsPerSecond.
Definition maxTokens : Z := packetCost * packetsBurstable.

Record RatelimiterEntry := mkEntry { lastTime : Z; tokens : Z }.

(** The reset channel: sending or closing on a closed channel panics. *)
Inductive chan := ChanNil | ChanOpen | ChanClosed.

(** [ticker] is the state of the collector goroutine's ticker. *)
Record Ratelimiter := mkLimiter {
  stopReset : chan;
  ticker : bool;
  table : gmap Addr RatelimiterEntry
}.

Definition zeroLimiter : Ratelimiter := mkLimiter ChanNil false ∅.

Definition Close (r : Ratelimiter) : option Ratelimiter :=
  match stopReset r with
  | ChanNil => Some r
  | ChanOpen => Some (mkLimiter ChanClosed false (table r))
  | ChanClosed => None
  end.

Definition Init (r : Ratelimiter) : option Ratelimiter :=
  match stopReset r with
  | ChanClosed => None
  | _ => Some (mkLimiter ChanOpen false ∅)
  end.

Definition expired (now : Z) (e : RatelimiterEntry) : bool :=
  time_sub now (lastTime e) >? garbageCollectTime.

(** [cleanup], every entry seen at the same instant [now]. *)
Definition cleanup (r : Ratelimiter) (now : Z) : bool * Ratelimiter :=
  let t := filter (fun p => expired now (snd p) = false) (table r) in
  (bool_decide (t = ∅), mkLimiter (stopReset r) (ticker r) t).

(** One iteration of the collector: a tick can only arrive while the ticker
    runs; it is stopped when the table becomes empty. *)
Definition tick (r : Ratelimiter) (now : Z) : Ratelimiter :=
  match stopReset r, ticker r with
  | ChanOpen, true =>
      let '(empty, r') := cleanup r now in
      mkLimiter (stopReset r') (if empty then false else true) (table r')
  | _, _ => r
  end.

(** The part of [Allow] that works on an existing entry. *)
Definition spend (e : RatelimiterEntry) (now : Z) : bool * RatelimiterEntry :=
  let t0 := i64 (tokens e + time_sub now (lastTime e)) in
  let t1 := if t0 >? maxTokens then maxTokens else t0 in
  if t1 >? packetCost then (true, mkEntry now (t1 - packetCost))
  else (false, mkEntry now t1).

(** [Allow]; [None] is the panic of a send on a closed channel. *)
Definition Allow (r : Ratelimiter) (ip : Addr) (now : Z) : option (bool * Ratelimiter) :=
  match table r !! ip with
  | None =>
      let t := <[ip := mkEntry now (maxTokens - packetCost)]> (table r) in
      if decide (size t = 1%nat) then
        match stopReset r with
        | ChanOpen => Some (true, mkLimiter ChanOpen true t)
        | _ => None
        end
      else Some (true, mkLimiter (stopReset r) (ticker r) t)
  | Some e =>
      let '(ok, e') := spend e now in
      Some (ok, mkLimiter (stopReset r) (ticker r) (<[ip := e']> (table r)))
  end.

(** ** Runs: packets and collector ticks in any order *)

Inductive event := Packet (ip : Addr) (now : Z) | Tick (now : Z).

Definition ev_time (e : event) : Z := match e with Packet _ t => t | Tick t => t end.

Fixpoint run (r : Ratelimiter) (es : list event) : option (list (Addr * Z * bool) * Ratelimiter) :=
  match es with
  | [] => Some ([], r)
  | Tick t :: es' => run (tick r t) es'
  | Packet ip t :: es' =>
      match Allow r ip t with
      | None => None
      | Some (ok, r') =>
          match run r' es' with
          | None => None
          | Some (vs, r'') => Some ((ip, t, ok) :: vs, r'')
          end
      end
  end.

(** The same packets against a limiter that never collects. *)
Fixpoint packets (es : list event) : list event :=
  match es with
  | [] => []
  | Packet ip t :: es' => Packet ip t :: packets es'
  | Tick _ :: es' => packets es'
  end.

(** Number of packets of [ip] that were let through. *)
Fixpoint allowed (ip : Addr) (vs : list (Addr * Z * bool)) : Z :=
  match vs with
  | [] => 0
  | (ip', _, ok) :: vs' => (if decide (ip' = ip) then if ok then 1 else 0 else 0) + allowed ip vs'
  end.

(** Events carry non-decreasing instants inside a range where durations do not
    saturate (a 64-bit nanosecond clock). *)
Fixpoint timed (t0 : Z) (es : list event) : Prop :=
  match es with
  | [] => True
  | e :: es' => t0 <= ev_time e < 2 ^ 62 /\ timed (ev_time e) es'
  end.

(** ** Invariant *)

Record wf (t0 : Z) (r : Ratelimiter) : Prop := {
  wf_time : 0 <= t0;
  wf_open : stopReset r = ChanOpen;
  wf_armed : table r <> ∅ -> ticker r = true;
  wf_entries : forall ip e, table r !! ip = Some e ->
      0 <= lastTime e <= t0 /\ 0 <= tokens e <= maxTokens
}.

(** ** Lemmas *)

Ltac limits := unfold maxTokens, packetCost, packetsPerSecond, packetsBurstable in *;
  change (1000000000 / 20) with 50000000 in *.

Lemma wf_init r r' : Init r = Some r' -> wf 0 r'.
Proof.
  unfold Init. destruct (stopReset r); [injection 1 as <- .. | done];
    (constructor; cbn; [done | done | done | intros ip e; rewrite lookup_empty; done]).
Qed.

Lemma init_empty r r' : Init r = Some r' -> table r' = ∅.
Proof. unfold Init. destruct (stopReset r); [injection 1 as <- .. | done]; done. Qed.

Lemma spend_wf t0 e now :
  0 <= lastTime e <= t0 -> 0 <= tokens e <= maxTokens -> t0 <= now < 2 ^ 62 ->
  let '(ok, e') := spend e now in
  lastTime e' = now /\ 0 <= tokens e' <= maxTokens /\
  tokens e' + packetCost * (if ok then 1 else 0) = Z.min maxTokens (tokens e + (now - lastTime e)) /\
  (ok = true <-> packetCost < tokens e + (now - lastTime e)).
Proof.
  intros Hl Ht Hn. unfold spend. limits.
  rewrite time_sub_small by (unfold is_i64; lia). rewrite i64_small by (unfold is_i64; lia).
  rewrite !Z.gtb_ltb. destruct (Z.ltb_spec (50000000 * 5) (tokens e + (now - lastTime e))).
  - change (50000000 <? 50000000 * 5) with true. cbn [lastTime tokens].
    repeat split; intros; lia.
  - destruct (Z.ltb_spec 50000000 (tokens e + (now - lastTime e))); cbn [lastTime tokens];
      repeat split; intros; try done; lia.
Qed.

Lemma insert_wf t0 r ip now e' b :
  wf t0 r -> t0 <= now < 2 ^ 62 -> lastTime e' = now -> 0 <= tokens e' <= maxTokens ->
  (table r <> ∅ -> b = ticker r) -> (table r = ∅ -> b = true) ->
  wf now (mkLimiter ChanOpen b (<[ip := e']> (table r))).
Proof.
  intros [H0 Ho Ha He] Hn Hl Ht Hb1 Hb2. constructor; cbn; [lia | done | |].
  - intros _. destruct (decide (table r = ∅)) as [Hemp|Hne]; [auto|].
    rewrite Hb1 by done. by apply Ha.
  - intros ip' e''. destruct (decide (ip = ip')) as [<-|Hne].
    + rewrite lookup_insert_eq. intros [= <-]. lia.
    + rewrite lookup_insert_ne by done. intros Hl'. specialize (He _ _ Hl'). lia.
Qed.

(** [Allow] never panics on a well-formed limiter and keeps it well formed. *)
Lemma allow_wf t0 r ip now :
  wf t0 r -> t0 <= now < 2 ^ 62 ->
  exists ok r', Allow r ip now = Some (ok, r') /\ wf now r'.
Proof.
  intros Hwf Hn. pose proof Hwf as [H0 Ho Ha He]. unfold Allow.
  destruct (table r !! ip) as [e|] eqn:Hip.
  - destruct (He ip e Hip) as [Hl Ht]. pose proof (spend_wf t0 e now Hl Ht Hn) as Hs.
    destruct (spend e now) as [ok e']. exists ok; eexists; split; [done|]. rewrite Ho.
    eapply insert_wf; [done | done | lia | lia | done |].
    intros Hemp. by rewrite Hemp, lookup_empty in Hip.
  - rewrite map_size_insert_None by done. rewrite Ho.
    case_decide as Hsz; eexists _, _; (split; [done|]);
      (eapply insert_wf; [done | done | done | cbn; limits; lia | |]).
    + intros Hne. symmetry. by apply Ha.
    + done.
    + done.
    + intros Hemp. rewrite Hemp in Hsz. done.
Qed.

Lemma tick_wf t0 r now : wf t0 r -> t0 <= now -> wf now (tick r now).
Proof.
  intros [H0 Ho Ha He] Hn. unfold tick, cleanup. rewrite Ho. destruct (ticker r) eqn:Htk.
  - constructor; cbn; [lia | done | intros Hne; by rewrite bool_decide_eq_false_2 |].
    intros ip e [Hl _]%map_lookup_filter_Some. specialize (He _ _ Hl). lia.
  - constructor; [lia | done | intros Hne; discriminate (Ha Hne) |].
    intros ip e Hl. specialize (He _ _ Hl). lia.
Qed.

(** *** The collector is transparent *)

(** A limiter [r] and one that never forgot an entry, [u]: an entry missing from
    [r] has been idle for longer than the time that refills a bucket. *)
Definition same_buckets (t0 : Z) (r u : Ratelimiter) : Prop :=
  forall ip, table r !! ip = table u !! ip \/
    (table r !! ip = None /\
     exists e, table u !! ip = Some e /\ 0 <= tokens e /\ 0 <= lastTime e /\
               lastTime e + garbageCollectTime < t0).

Lemma same_buckets_insert t0 now r u ip e b1 b2 c1 c2 :
  same_buckets t0 r u -> t0 <= now ->
  same_buckets now (mkLimiter c1 b1 (<[ip := e]> (table r))) (mkLimiter c2 b2 (<[ip := e]> (table u))).
Proof.
  intros Hs Hn ip'. cbn. destruct (decide (ip = ip')) as [<-|Hne].
  - left. by rewrite !lookup_insert_eq.
  - rewrite !lookup_insert_ne by done.
    destruct (Hs ip') as [|[? (e' & ? & ? & ? & ?)]]; [by left|].
    right. split; [done|]. exists e'. repeat split; try done. lia.
Qed.

Lemma allow_same t0 r u ip now :
  wf t0 r -> wf t0 u -> same_buckets t0 r u -> t0 <= now < 2 ^ 62 ->
  exists ok r' u', Allow r ip now = Some (ok, r') /\ Allow u ip now = Some (ok, u') /\
    wf now r' /\ wf now u' /\ same_buckets now r' u'.
Proof.
  intros Hr Hu Hs Hn.
  destruct (allow_wf t0 r ip now Hr Hn) as (ok & r' & Har & Hr').
  destruct (allow_wf t0 u ip now Hu Hn) as (ok' & u' & Hau & Hu').
  enough (ok = ok' /\ same_buckets now r' u') as [-> ?] by (exists ok', r', u'; auto).
  unfold Allow in Har, Hau. rewrite (wf_open _ _ Hr) in Har. rewrite (wf_open _ _ Hu) in Hau.
  destruct (Hs ip) as [Heq|(Hn1 & e & Hue & Hte & Hl0 & Hle)].
  - rewrite Heq in Har. destruct (table u !! ip) as [e|].
    + destruct (spend e now). injection Har as <- <-. injection Hau as <- <-.
      split; [done|]. eapply same_buckets_insert; [exact Hs | lia].
    + do 2 case_decide; injection Har as <- <-; injection Hau as <- <-;
        (split; [done|]; eapply same_buckets_insert; [exact Hs | lia]).
  - rewrite Hn1 in Har. rewrite Hue in Hau.
    assert (spend e now = (true, mkEntry now (maxTokens - packetCost))) as Hfull.
    { unfold spend, garbageCollectTime, Second in *. limits.
      destruct (wf_entries _ _ Hu _ _ Hue) as [? ?]. limits.
      rewrite time_sub_small by (unfold is_i64; lia). rewrite i64_small by (unfold is_i64; lia).
      rewrite !Z.gtb_ltb.
      destruct (Z.ltb_spec (50000000 * 5) (tokens e + (now - lastTime e))); [done | lia]. }
    rewrite Hfull in Hau. injection Hau as <- <-.
    case_decide; injection Har as <- <-; (split; [done|]; eapply same_buckets_insert; [exact Hs | lia]).
Qed.

Lemma tick_same t0 r u now :
  wf t0 r -> wf t0 u -> same_buckets t0 r u -> t0 <= now < 2 ^ 62 ->
  same_buckets now (tick r now) u.
Proof.
  intros Hr Hu Hs Hn ip.
  assert (same_buckets now r u) as Hs'.
  { intros ip'. destruct (Hs ip') as [|[? (e' & ? & ? & ? & ?)]]; [by left|].
    right. split; [done|]. exists e'. repeat split; try done. lia. }
  unfold tick, cleanup. rewrite (wf_open _ _ Hr). destruct (ticker r); [|apply Hs'].
  cbn. rewrite map_lookup_filter.
  destruct (Hs' ip) as [Heq|[Hnone He]]; [|rewrite Hnone; by right].
  rewrite Heq. destruct (table u !! ip) as [e|] eqn:Hue; cbn; [|by left].
  destruct (expired now e) eqn:Hex; [right | by left]. split; [done|]. exists e.
  destruct (wf_entries _ _ Hu _ _ Hue) as [? ?].
  unfold expired in Hex. rewrite Z.gtb_ltb, time_sub_small in Hex by (unfold is_i64; lia).
  apply Z.ltb_lt in Hex. repeat split; try done; lia.
Qed.

Lemma run_same t0 r u es :
  wf t0 r -> wf t0 u -> same_buckets t0 r u -> timed t0 es ->
  exists vs r' u', run r es = Some (vs, r') /\ run u (packets es) = Some (vs, u') /\
    (table r' <> ∅ -> ticker r' = true).
Proof.
  revert t0 r u. induction es as [|[ip now|now] es IH]; intros t0 r u Hr Hu Hs Ht.
  - exists [], r, u. repeat split; [done..|]. apply Hr.
  - destruct Ht as [Hn Ht]. cbn in Hn, Ht. cbn [run packets].
    destruct (allow_same t0 r u ip now) as (ok & r1 & u1 & -> & -> & Hr1 & Hu1 & Hs1); try done.
    destruct (IH now r1 u1) as (vs & r' & u' & -> & -> & Ha); try done.
    by exists ((ip, now, ok) :: vs), r', u'.
  - destruct Ht as [Hn Ht]. cbn in Hn, Ht. cbn [run packets].
    apply (IH now); [eapply tick_wf; [done | lia] | | by eapply tick_same | done].
    destruct Hu as [? ? ? He]. constructor; [lia | done | done |].
    intros ip e Hl. specialize (He _ _ Hl). lia.
Qed.

(** *** The rate bound *)

(** Tokens a source could spend at instant [t] if it stayed idle until then. *)
Definition potential (t : Z) (r : Ratelimiter) (ip : Addr) : Z :=
  match table r !! ip with
  | None => maxTokens
  | Some e => tokens e + (t - lastTime e)
  end.

Lemma potential_insert_ne t r ip ip' e c b :
  ip <> ip' -> potential t (mkLimiter c b (<[ip := e]> (table r))) ip' = potential t r ip'.
Proof. intros Hne. unfold potential. cbn. by rewrite lookup_insert_ne. Qed.

Lemma allow_potential t0 r ip now ok r' ip' :
  wf t0 r -> t0 <= now < 2 ^ 62 -> Allow r ip now = Some (ok, r') ->
  potential now r' ip' + packetCost * (if decide (ip = ip') then if ok then 1 else 0 else 0)
    <= potential t0 r ip' + (now - t0).
Proof.
  intros Hwf Hn Hal. pose proof Hwf as [H0 Ho Ha He]. unfold Allow in Hal. rewrite Ho in Hal.
  assert (potential now r ip' <= potential t0 r ip' + (now - t0)) as Hmono.
  { unfold potential. destruct (table r !! ip'); lia. }
  destruct (table r !! ip) as [e|] eqn:Hip.
  - destruct (He ip e Hip) as [Hl Ht]. pose proof (spend_wf t0 e now Hl Ht Hn) as Hs.
    destruct (spend e now) as [ok0 e']. injection Hal as <- <-.
    case_decide as Hd; [subst ip' | rewrite potential_insert_ne by done; lia].
    unfold potential in *. cbn. rewrite lookup_insert_eq, Hip. lia.
  - destruct (decide (size _ = 1%nat)) in Hal; injection Hal as <- <-;
      (case_decide as Hd; [subst ip' | rewrite potential_insert_ne by done; lia]);
      unfold potential in *; cbn; rewrite lookup_insert_eq, Hip; cbn [tokens lastTime]; lia.
Qed.

Lemma tick_potential t0 r now ip :
  wf t0 r -> t0 <= now < 2 ^ 62 -> potential now (tick r now) ip <= potential t0 r ip + (now - t0).
Proof.
  intros [H0 Ho Ha He] Hn. unfold tick, cleanup. rewrite Ho.
  destruct (ticker r); unfold potential; [|destruct (table r !! ip); lia].
  cbn. rewrite map_lookup_filter. destruct (table r !! ip) as [e|] eqn:Hip; cbn; [|lia].
  destruct (He ip e Hip) as [? ?]. case_guard as Hex; cbn; [lia|].
  apply not_false_iff_true in Hex.
  unfold expired in Hex. rewrite Z.gtb_ltb, time_sub_small in Hex by (unfold is_i64; lia).
  apply Z.ltb_lt in Hex. unfold garbageCollectTime, Second in *. limits. lia.
Qed.

Lemma potential_nonneg t0 r ip : wf t0 r -> 0 <= potential t0 r ip.
Proof.
  intros [H0 Ho Ha He]. unfold potential.
  destruct (table r !! ip) as [e|] eqn:Hip; [specialize (He _ _ Hip); lia | limits; lia].
Qed.

Lemma run_bound t0 tend r es vs r' ip :
  wf t0 r -> timed t0 es -> t0 <= tend -> Forall (fun e => ev_time e <= tend) es ->
  run r es = Some (vs, r') ->
  packetCost * allowed ip vs <= potential t0 r ip + (tend - t0).
Proof.
  revert t0 r vs. induction es as [|[ip1 now|now] es IH]; intros t0 r vs Hwf Ht Hle Hall Hrun.
  - injection Hrun as <- <-. pose proof (potential_nonneg t0 r ip Hwf). cbn. lia.
  - apply Forall_cons_iff in Hall as [Hnow Hall]. destruct Ht as [Hn Ht]. cbn in Hn, Hnow, Ht.
    cbn [run] in Hrun. destruct (Allow r ip1 now) as [[ok r1]|] eqn:Hal; [|done].
    destruct (run r1 es) as [[vs1 r2]|] eqn:Hrun1; [|done]. injection Hrun as <- <-.
    destruct (allow_wf t0 r ip1 now Hwf Hn) as (ok' & r1' & Hal' & Hwf').
    rewrite Hal in Hal'. injection Hal' as <- <-.
    pose proof (allow_potential t0 r ip1 now ok r1 ip Hwf Hn Hal).
    specialize (IH now r1 vs1 Hwf' Ht Hnow Hall Hrun1). cbn [allowed]. lia.
  - apply Forall_cons_iff in Hall as [Hnow Hall]. destruct Ht as [Hn Ht]. cbn in Hn, Hnow, Ht.
    cbn [run] in Hrun. pose proof (tick_potential t0 r now ip Hwf Hn).
    assert (wf now (tick r now)) as Hwf' by (eapply tick_wf; [done | lia]).
    specialize (IH now _ vs Hwf' Ht Hnow Hall Hrun). lia.
Qed.

(** ** Properties *)

(** Garbage collection cannot be observed.  From a freshly initialised
    limiter, any interleaving of packets and collector ticks runs without a
    panic and gives every packet the verdict it would get from a limiter that
    never collects; and whenever entries remain, the collector is still armed,
    so no entry is leaked. *)
Theorem collection_is_transparent (r0 r : Ratelimiter) (es : list event) :
  Init r0 = Some r -> timed 0 es ->
  exists vs r' u', run r es = Some (vs, r') /\ run r (packets es) = Some (vs, u') /\
    (table r' <> ∅ -> ticker r' = true).
Proof.
  intros Hi Ht. apply wf_init in Hi. apply (run_same 0); try done. by intros ip; left.
Qed.

(** C34. the token bucket bounds the handshake rate.  In every run, whatever the
    collector does, a source gets at most [packetsBurstable] handshake messages
    plus one per [packetCost] nanoseconds (50 ms) between the first and the last
    instant of the run. *)
Theorem handshake_rate_bounded (r0 r r' : Ratelimiter) (es : list event)
    (vs : list (Addr * Z * bool)) (ip : Addr) (tstart tend : Z) :
  Init r0 = Some r -> 0 <= tstart <= tend -> timed tstart es ->
  Forall (fun e => ev_time e <= tend) es ->
  run r es = Some (vs, r') ->
  allowed ip vs <= packetsBurstable + (tend - tstart) / packetCost.
Proof.
  intros Hi Hts Ht Hall Hrun. pose proof (init_empty _ _ Hi) as Hemp. apply wf_init in Hi.
  assert (wf tstart r) as Hwf.
  { destruct Hi as [? ? ? He]. constructor; [lia | done | done |].
    intros ip' e Hl. specialize (He _ _ Hl). lia. }
  pose proof (run_bound tstart tend r es vs r' ip Hwf Ht (proj2 Hts) Hall Hrun) as Hb.
  assert (potential tstart r ip <= maxTokens) as Hp.
  { unfold potential. by rewrite Hemp, lookup_empty. }
  limits. assert (50000000 * (allowed ip vs - 5) <= tend - tstart) as Hq by lia.
  apply Z.div_le_lower_bound in Hq; lia.
Qed.

End Limiter.

Definition sample_limiter : Ratelimiter (Addr := Z) := mkLimiter ChanOpen false ∅.

Definition sample_events : list (event (Addr := Z)) :=
  [Packet 7 10; Packet 7 20; Packet 8 20; Tick 3000000000; Packet 7 3000000001].

Lemma collection_is_transparent_witness :
  exists vs r' u', run sample_limiter sample_events = Some (vs, r') /\
    run sample_limiter (packets sample_events) = Some (vs, u') /\
    (table r' <> ∅ -> ticker r' = true).
Proof.
  apply (collection_is_transparent zeroLimiter sample_limiter sample_events); [reflexivity | cbn; lia].
Defined.

Lemma handshake_rate_bounded_witness :
  exists vs r', run sample_limiter sample_events = Some (vs, r') /\
    allowed 7 vs = 3 /\ allowed 7 vs <= packetsBurstable + (4000000000 - 0) / packetCost.
Proof.
  eexists _, _. split; [vm_compute; reflexivity|]. split; [vm_compute; reflexivity|].
  eapply (handshake_rate_bounded zeroLimiter sample_limiter _ sample_events _ 7 0 4000000000);
    [reflexivity | lia | cbn; lia | repeat constructor; cbn; lia | vm_compute; reflexivity].
Defined.

End Ratelimiter.
