(* ===== verification/AllowedIPs.v ===== *)
(** * The allowed-IPs table (submodules/wireguard-go/device/allowedips.go)

    A path-compressed binary trie per address family maps prefixes to peers.
    Parent pointers are implied by the tree shape: a node is reached by the path
    of child bits from the root.  Each peer also keeps the ordered list of its
    trie entries ([Peer.trieEntries]); an element of that list refers to a node
    by its masked bits and its length, which identify it in the trie. *)

From S2P Require Import Prelude Bits.

Module AllowedIPs.

Local Open Scope Z_scope.

Section Table.

(** Peers, compared by identity. *)
Context {P : Type} `{Countable P}.

(** ** Data *)

Inductive trie :=
| Nil
| Node (peer : option P) (cidr : Z) (bits : list Z) (child0 child1 : trie).

Definition bitAtByte (cidr : Z) : Z := cidr / 8.
Definition bitAtShift (cidr : Z) : Z := 7 - cidr mod 8.

(** A reference to a trie entry: family, bits, length. *)
Definition entryRef : Type := bool * list Z * Z.

Record table := mkTable {
  ipv4 : trie;
  ipv6 : trie;
  trieEntries : gmap P (list entryRef)
}.

#[global] Instance trie_nil_dec (t : trie) : Decision (t = Nil).
Proof. destruct t; [left | right]; done. Defined.

(** [netip.Addr] without a zone; the zero address is of neither family. *)
Inductive addr := AddrInvalid | Addr4 (b : list Z) | Addr6 (b : list Z).

Record prefix := mkPrefix { pfxAddr : addr; pfxBits : Z }.

(** ** Operations on nodes *)

Definition commonBits (ip1 ip2 : list Z) : option Z :=
  if decide (length ip1 = 4%nat) then
    a ← be_Uint32 ip1; b ← be_Uint32 ip2;
    Some (u8 (LeadingZeros32 (Z.lxor a b)))
  else if decide (length ip1 = 16%nat) then
    a ← be_Uint64 ip1; b ← be_Uint64 ip2;
    let x := Z.lxor a b in
    if negb (x =? 0) then Some (u8 (LeadingZeros64 x))
    else
      a ← be_Uint64 (drop 8 ip1); b ← be_Uint64 (drop 8 ip2);
      Some (u8 (64 + u8 (LeadingZeros64 (Z.lxor a b))))
  else None.

Definition commonBits4 (ip1 ip2 : list Z) : option Z :=
  a ← be_Uint32 ip1; b ← be_Uint32 ip2;
  Some (u8 (LeadingZeros32 (Z.lxor a b))).

Definition commonBits6 (ip1 ip2 : list Z) : option Z :=
  a ← be_Uint64 ip1; b ← be_Uint64 ip2;
  let x := Z.lxor a b in
  if negb (x =? 0) then Some (u8 (LeadingZeros64 x))
  else
    a ← be_Uint64 (drop 8 ip1); b ← be_Uint64 (drop 8 ip2);
    Some (u8 (64 + u8 (LeadingZeros64 (Z.lxor a b)))).

(** [choose]: [None] is the index-out-of-range panic. *)
Definition choose (cidr : Z) (ip : list Z) : option bool :=
  b ← ip !! Z.to_nat (bitAtByte cidr);
  Some (Z.land (Z.shiftr b (bitAtShift cidr)) 1 =? 1).

Definition maskSelf (cidr : Z) (bits : list Z) : list Z :=
  mask_bytes bits (CIDRMask cidr (length bits)).

(** [nodePlacement]: the node it returns as the path to it ([None] for nil). *)
Fixpoint nodePlacement (t : trie) (ip : list Z) (cidr : Z) : option (option (list bool) * bool) :=
  match t with
  | Nil => Some (None, false)
  | Node _ ncidr nbits c0 c1 =>
      if ncidr <=? cidr then
        common ← commonBits nbits ip;
        if common >=? ncidr then
          if ncidr =? cidr then Some (Some [], true)
          else
            bit ← choose ncidr ip;
            '(place, exact) ← nodePlacement (if bit : bool then c1 else c0) ip cidr;
            Some (Some (match place with Some p => bit :: p | None => [] end), exact)
        else Some (None, false)
      else Some (None, false)
  end.

Fixpoint subtrie_at (t : trie) (p : list bool) {struct p} : option trie :=
  match p with
  | [] => Some t
  | b :: p' =>
      match t with
      | Nil => None
      | Node _ _ _ c0 c1 => subtrie_at (if b : bool then c1 else c0) p'
      end
  end.

Definition set_child (t : trie) (b : bool) (c : trie) : trie :=
  match t with
  | Nil => Nil
  | Node peer cidr bits c0 c1 =>
      if b then Node peer cidr bits c0 c else Node peer cidr bits c c1
  end.

Fixpoint set_at (t : trie) (p : list bool) (t' : trie) {struct p} : trie :=
  match p with
  | [] => t'
  | b :: p' =>
      match t with
      | Nil => Nil
      | Node _ _ _ c0 c1 => set_child t b (set_at (if b : bool then c1 else c0) p' t')
      end
  end.

(** Joining the new node and the node [down] that hangs where it belongs: the
    new node becomes the parent of [down], or both get a common parent. *)
Definition graft (down : trie) (ip : list Z) (cidr : Z) (peer : P) : option trie :=
  match down with
  | Nil => None
  | Node _ _ dbits _ _ =>
      let newNode := Node (Some peer) cidr ip Nil Nil in
      common ← commonBits dbits ip;
      let cidr' := if common <? cidr then common else cidr in
      if cidr =? cidr' then
        bit ← choose cidr dbits;
        Some (set_child newNode bit down)
      else
        let node := Node None cidr' (maskSelf cidr' ip) Nil Nil in
        bit ← choose cidr' dbits;
        let node := set_child node bit down in
        bit ← choose cidr' ip;
        Some (set_child node bit newNode)
  end.

Definition node_bits (t : trie) : list Z :=
  match t with Nil => [] | Node _ _ bits _ _ => bits end.

(** [parentIndirection.insert] on the trie; the second component is the peer the
    node belonged to when an existing node is taken over.  The new node's [bits]
    is the slice [ip] itself, so [maskSelf] also masks [ip]. *)
Definition insert_node (root : trie) (ip : list Z) (cidr : Z) (peer : P) : option (trie * option P) :=
  match root with
  | Nil => Some (Node (Some peer) cidr (maskSelf cidr ip) Nil Nil, None)
  | Node _ _ _ _ _ =>
      '(place, exact) ← nodePlacement root ip cidr;
      if exact : bool then
        p ← place;
        node ← subtrie_at root p;
        match node with
        | Nil => None
        | Node old ncidr nbits c0 c1 =>
            Some (set_at root p (Node (Some peer) ncidr nbits c0 c1), old)
        end
      else
        let ip := maskSelf cidr ip in
        match place with
        | None => t ← graft root ip cidr peer; Some (t, None)
        | Some p =>
            node ← subtrie_at root p;
            match node with
            | Nil => None
            | Node _ ncidr _ c0 c1 =>
                bit ← choose ncidr ip;
                match (if bit : bool then c1 else c0) with
                | Nil => Some (set_at root (p ++ [bit]) (Node (Some peer) cidr ip Nil Nil), None)
                | down =>
                    t ← graft down ip cidr peer;
                    bit ← choose ncidr (node_bits t);
                    Some (set_at root (p ++ [bit]) t, None)
                end
            end
        end
  end.

(** [remove]: unlink the node at a path. *)
Definition remove_node (root : trie) (path : list bool) : option trie :=
  node ← subtrie_at root path;
  match node with
  | Nil => None
  | Node _ cidr bits c0 c1 =>
      match c0, c1 with
      | Node _ _ _ _ _, Node _ _ _ _ _ => Some (set_at root path (Node None cidr bits c0 c1))
      | _, _ =>
          let child := match c0 with Nil => c1 | _ => c0 end in
          let root1 := set_at root path child in
          match child, reverse path with
          | Node _ _ _ _ _, _ => Some root1
          | Nil, [] => Some root1
          | Nil, bit :: rpath =>
              let ppath := reverse rpath in
              parent ← subtrie_at root1 ppath;
              match parent with
              | Nil => None
              | Node (Some _) _ _ _ _ => Some root1
              | Node None _ _ p0 p1 => Some (set_at root1 ppath (if bit : bool then p0 else p1))
              end
          end
      end
  end.

(** The lookups; [found] is the best peer seen so far. *)
Fixpoint lookup4 (t : trie) (ip : list Z) (found : option P) : option (option P) :=
  match t with
  | Nil => Some found
  | Node peer cidr bits c0 c1 =>
      common ← commonBits4 bits ip;
      if common >=? cidr then
        let found := match peer with Some _ => peer | None => found end in
        if bitAtByte cidr =? 4 then Some found
        else
          bit ← choose cidr ip;
          lookup4 (if bit : bool then c1 else c0) ip found
      else Some found
  end.

Fixpoint lookup6 (t : trie) (ip : list Z) (found : option P) : option (option P) :=
  match t with
  | Nil => Some found
  | Node peer cidr bits c0 c1 =>
      common ← commonBits6 bits ip;
      if common >=? cidr then
        let found := match peer with Some _ => peer | None => found end in
        if bitAtByte cidr =? 16 then Some found
        else
          bit ← choose cidr ip;
          lookup6 (if bit : bool then c1 else c0) ip found
      else Some found
  end.

Fixpoint lookup_ip (t : trie) (ip : list Z) (found : option P) : option (option P) :=
  match t with
  | Nil => Some found
  | Node peer cidr bits c0 c1 =>
      common ← commonBits bits ip;
      if common >=? cidr then
        let found := match peer with Some _ => peer | None => found end in
        if bitAtByte cidr =? u8 (Z.of_nat (length ip)) then Some found
        else
          bit ← choose cidr ip;
          lookup_ip (if bit : bool then c1 else c0) ip found
      else Some found
  end.

(** ** Operations on the table *)

(** [list.List]: [PushBack], and [Remove] of one element. *)
Definition entries_of (es : gmap P (list entryRef)) (p : P) : list entryRef :=
  default [] (es !! p).

Fixpoint remove_ref (r : entryRef) (l : list entryRef) : list entryRef :=
  match l with
  | [] => []
  | x :: l' => if decide (x = r) then l' else x :: remove_ref r l'
  end.

Definition addToPeerEntries (es : gmap P (list entryRef)) (p : P) (r : entryRef) : gmap P (list entryRef) :=
  <[p := entries_of es p ++ [r]]> es.

(** A node is in a peer's list exactly while it has a peer. *)
Definition removeFromPeerEntries (es : gmap P (list entryRef)) (peer : option P) (r : entryRef)
    : gmap P (list entryRef) :=
  match peer with
  | None => es
  | Some p => <[p := remove_ref r (entries_of es p)]> es
  end.

Definition family_trie (tb : table) (is6 : bool) : trie := if is6 then ipv6 tb else ipv4 tb.

Definition set_family (tb : table) (is6 : bool) (t : trie) (es : gmap P (list entryRef)) : table :=
  if is6 then mkTable (ipv4 tb) t es else mkTable t (ipv6 tb) es.

Definition insert_family (tb : table) (is6 : bool) (ip : list Z) (cidr : Z) (peer : P) : option table :=
  '(t, old) ← insert_node (family_trie tb is6) ip cidr peer;
  let ref := (is6, maskSelf cidr ip, cidr) in
  Some (set_family tb is6 t
          (addToPeerEntries (removeFromPeerEntries (trieEntries tb) old ref) peer ref)).

Definition insertLocked (tb : table) (pfx : prefix) (peer : P) : option table :=
  match pfxAddr pfx with
  | Addr6 ip => insert_family tb true ip (u8 (pfxBits pfx)) peer
  | Addr4 ip => insert_family tb false ip (u8 (pfxBits pfx)) peer
  | AddrInvalid => None
  end.

Definition Insert := insertLocked.

(** [remove] of the node at [path], list bookkeeping included. *)
Definition remove_family (tb : table) (is6 : bool) (path : list bool) : option table :=
  let root := family_trie tb is6 in
  node ← subtrie_at root path;
  match node with
  | Nil => None
  | Node peer cidr bits _ _ =>
      t ← remove_node root path;
      Some (set_family tb is6 t (removeFromPeerEntries (trieEntries tb) peer (is6, bits, cidr)))
  end.

Definition Remove_family (tb : table) (is6 : bool) (ip : list Z) (cidr : Z) (peer : P) : option table :=
  '(place, exact) ← nodePlacement (family_trie tb is6) ip cidr;
  match exact : bool, place with
  | true, Some path =>
      node ← subtrie_at (family_trie tb is6) path;
      match node with
      | Node (Some peer') _ _ _ _ =>
          if decide (peer = peer') then remove_family tb is6 path else Some tb
      | _ => Some tb
      end
  | _, _ => Some tb
  end.

Definition Remove (tb : table) (pfx : prefix) (peer : P) : option table :=
  match pfxAddr pfx with
  | Addr6 ip => Remove_family tb true ip (u8 (pfxBits pfx)) peer
  | Addr4 ip => Remove_family tb false ip (u8 (pfxBits pfx)) peer
  | AddrInvalid => None
  end.

(** The loop over a peer's list removes the node each element refers to; the
    path of that node is the one [nodePlacement] finds for its bits. *)
Fixpoint remove_refs (tb : table) (refs : list entryRef) : option table :=
  match refs with
  | [] => Some tb
  | (is6, bits, cidr) :: refs' =>
      '(place, exact) ← nodePlacement (family_trie tb is6) bits cidr;
      match exact : bool, place with
      | true, Some path => tb' ← remove_family tb is6 path; remove_refs tb' refs'
      | _, _ => None
      end
  end.

Definition removeByPeerLocked (tb : table) (peer : P) : option table :=
  remove_refs tb (entries_of (trieEntries tb) peer).

Definition RemoveByPeer := removeByPeerLocked.

Fixpoint insert_all (tb : table) (pfxs : list prefix) (peer : P) : option table :=
  match pfxs with
  | [] => Some tb
  | pfx :: pfxs' => tb' ← insertLocked tb pfx peer; insert_all tb' pfxs' peer
  end.

Definition setPeerPrefixes (tb : table) (peer : P) (pfxs : list prefix) : option table :=
  tb' ← removeByPeerLocked tb peer;
  insert_all tb' pfxs peer.

(** [EntriesForPeer] with a callback that collects every prefix. *)
Definition ref_prefix (r : entryRef) : prefix :=
  let '(is6, bits, cidr) := r in
  mkPrefix (if is6 : bool then Addr6 bits else Addr4 bits) cidr.

Definition EntriesForPeer (tb : table) (peer : P) : list prefix :=
  map ref_prefix (entries_of (trieEntries tb) peer).

(** [LookupFromPacket] without a registered callback; with one, the callback's
    key is resolved by the device and the trie is not consulted. *)
Definition lookup_addr (tb : table) (a : addr) : option (option P) :=
  match a with
  | Addr6 ip => lookup6 (ipv6 tb) ip None
  | Addr4 ip => lookup4 (ipv4 tb) ip None
  | AddrInvalid => None
  end.

Definition LookupFromPacket {K} (peerByIPPacketFunc : option (addr -> addr -> list Z -> option K))
    (LookupPeer : K -> option P) (tb : table) (src dst : addr) (ipPkt : list Z) : option (option P) :=
  match peerByIPPacketFunc with
  | Some f => Some (pubk ← f src dst ipPkt; LookupPeer pubk)
  | None => lookup_addr tb dst
  end.

Definition Lookup (tb : table) (ip : list Z) : option (option P) :=
  if decide (length ip = 16%nat) then lookup_ip (ipv6 tb) ip None
  else if decide (length ip = 4%nat) then lookup_ip (ipv4 tb) ip None
  else None.

Definition AllowedPeerSourceIP (testAllowedIP : option (addr -> bool)) (tb : table)
    (peer : P) (src : addr) : option bool :=
  match testAllowedIP with
  | Some f => Some (f src)
  | None =>
      match src with
      | Addr6 ip => r ← lookup6 (ipv6 tb) ip None; Some (bool_decide (r = Some peer))
      | Addr4 ip => r ← lookup4 (ipv4 tb) ip None; Some (bool_decide (r = Some peer))
      | AddrInvalid => Some false
      end
  end.

(** [netip.Prefix.Contains] on addresses without a zone: a valid prefix, the
    same family, equal leading bits. *)
Definition addr_bytes (a : addr) : list Z :=
  match a with AddrInvalid => [] | Addr4 b | Addr6 b => b end.

Definition addr_is6 (a : addr) : bool := match a with Addr6 _ => true | _ => false end.

Definition key (cidr : Z) (bits : list Z) : list bool := take (Z.to_nat cidr) (bits_of bits).

Definition Contains (pfx : prefix) (a : addr) : bool :=
  match pfxAddr pfx, a with
  | Addr4 b, Addr4 ip =>
      (0 <=? pfxBits pfx) && (pfxBits pfx <=? 32) && bool_decide (key (pfxBits pfx) b = key (pfxBits pfx) ip)
  | Addr6 b, Addr6 ip =>
      (0 <=? pfxBits pfx) && (pfxBits pfx <=? 128) && bool_decide (key (pfxBits pfx) b = key (pfxBits pfx) ip)
  | _, _ => false
  end.

(** ** The contract: a map from prefixes to peers with longest-prefix match *)

(** Prefixes of both families, as family and bits. *)
Abbreviation pmap := (gmap (bool * list bool) P).

(** The peer of the longest prefix of [bs] of length at most [n]. *)
Fixpoint lpm (m : pmap) (is6 : bool) (n : nat) (bs : list bool) : option P :=
  match m !! (is6, take n bs) with
  | Some p => Some p
  | None => match n with O => None | S n' => lpm m is6 n' bs end
  end.

(** Entries of a trie: the nodes that have a peer. *)
Fixpoint nodes (t : trie) : list (list bool * P) :=
  match t with
  | Nil => []
  | Node peer cidr bits c0 c1 =>
      match peer with Some p => [(key cidr bits, p)] | None => [] end ++ nodes c0 ++ nodes c1
  end.

(** Trie invariant for addresses of [n] bytes: bits are masked, a child's key
    extends its parent's key and branch bit, and a node without a peer has two
    children. *)
Definition ip_ok (n : nat) (ip : list Z) : Prop := length ip = n /\ Forall is_u8 ip.

Definition child (t : trie) (b : bool) : trie :=
  match t with Nil => Nil | Node _ _ _ c0 c1 => if b then c1 else c0 end.

Fixpoint wf (n : nat) (pre : list bool) (t : trie) : Prop :=
  match t with
  | Nil => True
  | Node peer cidr bits c0 c1 =>
      ip_ok n bits /\ 0 <= cidr <= 8 * Z.of_nat n /\ maskSelf cidr bits = bits /\
      pre `prefix_of` key cidr bits /\
      (peer = None -> c0 <> Nil /\ c1 <> Nil) /\
      wf n (key cidr bits ++ [false]) c0 /\ wf n (key cidr bits ++ [true]) c1
  end.

Definition fam_len (is6 : bool) : nat := if is6 then 16%nat else 4%nat.

(** What the API accepts: a valid address of either family and a length it allows. *)
Definition addr_ok (a : addr) : Prop :=
  match a with
  | AddrInvalid => False
  | Addr4 b => ip_ok 4 b
  | Addr6 b => ip_ok 16 b
  end.

Definition prefix_ok (pfx : prefix) : Prop :=
  addr_ok (pfxAddr pfx) /\ 0 <= pfxBits pfx <= 8 * Z.of_nat (fam_len (addr_is6 (pfxAddr pfx))).

Definition prefix_key (pfx : prefix) : bool * list bool :=
  (addr_is6 (pfxAddr pfx), key (pfxBits pfx) (addr_bytes (pfxAddr pfx))).

(** The operations of the table and what each promises of the prefix map. *)
Inductive op :=
| OpInsert (pfx : prefix) (peer : P)
| OpRemove (pfx : prefix) (peer : P)
| OpRemoveByPeer (peer : P)
| OpSetPeerPrefixes (peer : P) (pfxs : list prefix).

Definition apply_op (tb : table) (o : op) : option table :=
  match o with
  | OpInsert pfx peer => Insert tb pfx peer
  | OpRemove pfx peer => Remove tb pfx peer
  | OpRemoveByPeer peer => RemoveByPeer tb peer
  | OpSetPeerPrefixes peer pfxs => setPeerPrefixes tb peer pfxs
  end.

Definition op_ok (o : op) : Prop :=
  match o with
  | OpInsert pfx _ | OpRemove pfx _ => prefix_ok pfx
  | OpRemoveByPeer _ => True
  | OpSetPeerPrefixes _ pfxs => Forall prefix_ok pfxs
  end.

Definition spec_insert (m : pmap) (pfx : prefix) (peer : P) : pmap := <[prefix_key pfx := peer]> m.

Definition spec_purge (m : pmap) (peer : P) : pmap := filter (fun kp => kp.2 <> peer) m.

Definition spec_op (m : pmap) (o : op) : pmap :=
  match o with
  | OpInsert pfx peer => spec_insert m pfx peer
  | OpRemove pfx peer => if decide (m !! prefix_key pfx = Some peer) then delete (prefix_key pfx) m else m
  | OpRemoveByPeer peer => spec_purge m peer
  | OpSetPeerPrefixes peer pfxs => foldl (fun m pfx => spec_insert m pfx peer) (spec_purge m peer) pfxs
  end.

Fixpoint run (tb : table) (ops : list op) : option table :=
  match ops with
  | [] => Some tb
  | o :: ops' => tb' ← apply_op tb o; run tb' ops'
  end.

Definition empty_table : table := mkTable Nil Nil ∅.

Definition spec_lookup (m : pmap) (a : addr) : option P :=
  lpm m (addr_is6 a) (8 * fam_len (addr_is6 a)) (bits_of (addr_bytes a)).

(** Peer entry lists: every element is the reference of a node, in masked form. *)
Definition ref_ok (r : entryRef) : Prop :=
  let '(is6, bits, cidr) := r in
  ip_ok (fam_len is6) bits /\ 0 <= cidr <= 8 * Z.of_nat (fam_len is6) /\ maskSelf cidr bits = bits.

Definition ref_key (r : entryRef) : bool * list bool := let '(is6, bits, cidr) := r in (is6, key cidr bits).

Definition entries_inv (es : gmap P (list entryRef)) (m : pmap) : Prop :=
  forall p, NoDup (entries_of es p) /\
    forall r, r ∈ entries_of es p <-> ref_ok r /\ m !! ref_key r = Some p.

Definition tries_inv (tb : table) (m : pmap) : Prop :=
  forall is6, wf (fam_len is6) [] (family_trie tb is6) /\
    forall k p, (k, p) ∈ nodes (family_trie tb is6) <-> m !! (is6, k) = Some p.

Definition refines (tb : table) (m : pmap) : Prop :=
  tries_inv tb m /\ entries_inv (trieEntries tb) m.

(** ** Lemmas: reading bits *)

Definition family_len (n : nat) : Prop := n = 4%nat \/ n = 16%nat.

Lemma commonBits4_eq a b : length a = 4%nat -> commonBits a b = commonBits4 a b.
Proof. intros Ha. unfold commonBits. by rewrite decide_True. Qed.

Lemma commonBits6_eq a b : length a = 16%nat -> commonBits a b = commonBits6 a b.
Proof. intros Ha. unfold commonBits. by rewrite decide_False, decide_True by lia. Qed.

Lemma be_Uint64_total l : (8 <= length l)%nat -> be_Uint64 l = Some (be_uint (take 8 l)).
Proof. intros Hl. unfold be_Uint64. by rewrite decide_False by lia. Qed.

Lemma commonBits4_lcp a b :
  ip_ok 4 a -> ip_ok 4 b -> commonBits4 a b = Some (Z.of_nat (lcp (bits_of a) (bits_of b))).
Proof.
  intros [La Ha] [Lb Hb]. unfold commonBits4, be_Uint32. rewrite !decide_False by lia.
  rewrite !take_ge by lia. cbn [mbind option_bind]. rewrite LeadingZeros32_lcp by done.
  pose proof (lcp_le_l (bits_of a) (bits_of b)) as Hl. rewrite bits_of_length in Hl.
  by rewrite u8_small by (unfold is_u; lia).
Qed.

Lemma commonBits6_lcp a b :
  ip_ok 16 a -> ip_ok 16 b -> commonBits6 a b = Some (Z.of_nat (lcp (bits_of a) (bits_of b))).
Proof.
  intros [La Ha] [Lb Hb]. unfold commonBits6.
  rewrite !be_Uint64_total by (rewrite ?length_drop; lia). cbn [mbind option_bind].
  rewrite !(take_ge (drop 8 _)) by (rewrite length_drop; lia).
  rewrite <- (take_drop 8 a) in Ha. rewrite <- (take_drop 8 b) in Hb.
  apply Forall_app in Ha as [Ha1 Ha2], Hb as [Hb1 Hb2].
  assert (length (take 8 a) = 8%nat /\ length (take 8 b) = 8%nat /\
    length (drop 8 a) = 8%nat /\ length (drop 8 b) = 8%nat) as (L1 & L2 & L3 & L4)
    by (rewrite !length_take, !length_drop; lia).
  rewrite !LeadingZeros64_lcp by done.
  rewrite <- (take_drop 8 a) at 4. rewrite <- (take_drop 8 b) at 4.
  rewrite !bits_of_app, lcp_app by (rewrite !bits_of_length; lia).
  pose proof (lcp_le_l (bits_of (take 8 a)) (bits_of (take 8 b))) as Hl1.
  pose proof (lcp_le_l (bits_of (drop 8 a)) (bits_of (drop 8 b))) as Hl2.
  rewrite !bits_of_length in *.
  destruct (decide (bits_of (take 8 a) = bits_of (take 8 b))) as [He|Hne].
  - apply bits_of_inj in He; [|done..]. rewrite <- He, Z.lxor_nilpotent. cbn [Z.eqb negb].
    rewrite !u8_small by (rewrite ?u8_small; unfold is_u; lia).
    f_equal. lia.
  - destruct (Z.eqb_spec (Z.lxor (be_uint (take 8 a)) (be_uint (take 8 b))) 0) as [Hz|_]; cbn [negb].
    + exfalso. apply Hne. pose proof (LeadingZeros64_lcp _ _ Ha1 Hb1 L1 L2) as Hlz.
      rewrite Hz in Hlz. change (LeadingZeros64 0) with 64 in Hlz.
      pose proof (lcp_take (bits_of (take 8 a)) (bits_of (take 8 b))) as Ht.
      rewrite (take_ge (bits_of (take 8 a))), (take_ge (bits_of (take 8 b))) in Ht
        by (rewrite bits_of_length; lia). exact Ht.
    + by rewrite u8_small by (unfold is_u; lia).
Qed.

Lemma commonBits_lcp n a b :
  family_len n -> ip_ok n a -> ip_ok n b ->
  commonBits a b = Some (Z.of_nat (lcp (bits_of a) (bits_of b))).
Proof.
  intros [-> | ->] Ha Hb.
  - rewrite commonBits4_eq by apply Ha. by apply commonBits4_lcp.
  - rewrite commonBits6_eq by apply Ha. by apply commonBits6_lcp.
Qed.

Lemma choose_bits cidr ip : 0 <= cidr -> choose cidr ip = bits_of ip !! Z.to_nat cidr.
Proof.
  intros Hc. unfold choose, bitAtByte, bitAtShift.
  destruct (ip !! Z.to_nat (cidr / 8)) as [b|] eqn:Hb; cbn [mbind option_bind].
  - rewrite (bits_of_lookup _ _ _ Hc Hb). f_equal. apply shiftr_land_1.
    pose proof (Z.mod_pos_bound cidr 8). lia.
  - symmetry. apply lookup_ge_None_2. apply lookup_ge_None_1 in Hb.
    rewrite bits_of_length. pose proof (Z.mul_div_le cidr 8). lia.
Qed.

Section Family.
Context (n : nat) (Hn : family_len n).

Lemma key_length cidr ip :
  ip_ok n ip -> 0 <= cidr <= 8 * Z.of_nat n -> length (key cidr ip) = Z.to_nat cidr.
Proof. intros [Hl _] Hc. unfold key. rewrite length_take, bits_of_length. lia. Qed.

Lemma key_take c cidr ip : 0 <= c <= cidr -> key c ip = take (Z.to_nat c) (key cidr ip).
Proof. intros Hc. unfold key. rewrite take_take. f_equal. lia. Qed.

Lemma key_prefix c cidr ip : 0 <= c <= cidr -> key c ip `prefix_of` key cidr ip.
Proof. intros Hc. rewrite (key_take c cidr) by done. apply prefix_take. Qed.

(** A key that is a prefix of the address is the address's key of that length. *)
Lemma prefix_is_key k ip : k `prefix_of` bits_of ip <-> k = key (Z.of_nat (length k)) ip.
Proof.
  unfold key. rewrite Nat2Z.id. split.
  - intros [l ->]. by rewrite take_app_length.
  - intros ->. apply prefix_take.
Qed.

Lemma maskSelf_bits cidr ip :
  ip_ok n ip -> 0 <= cidr <= 8 * Z.of_nat n ->
  bits_of (maskSelf cidr ip) = key cidr ip ++ repeat false (8 * n - Z.to_nat cidr).
Proof. intros [Hl Hu] Hc. unfold maskSelf. rewrite mask_bits by (lia || done). by rewrite Hl. Qed.

Lemma maskSelf_ok cidr ip : ip_ok n ip -> 0 <= cidr -> ip_ok n (maskSelf cidr ip).
Proof.
  intros [Hl Hu] Hc. split; unfold maskSelf; [by rewrite mask_bytes_length|].
  by apply mask_bytes_u8, CIDRMask_nonneg.
Qed.

Lemma key_maskSelf c cidr ip :
  ip_ok n ip -> 0 <= c <= cidr -> cidr <= 8 * Z.of_nat n -> key c (maskSelf cidr ip) = key c ip.
Proof.
  intros Hip Hc Hb. unfold key at 1. rewrite maskSelf_bits by (done || lia).
  rewrite take_app_le by (rewrite key_length by (done || lia); lia). by rewrite <- key_take.
Qed.

(** Masked bits are determined by the key. *)
Lemma masked_inj cidr a b :
  ip_ok n a -> ip_ok n b -> 0 <= cidr <= 8 * Z.of_nat n ->
  key cidr a = key cidr b -> maskSelf cidr a = maskSelf cidr b.
Proof.
  intros Ha Hb Hc Hk. apply bits_of_inj; try (apply maskSelf_ok; [done | lia]).
  by rewrite !maskSelf_bits, Hk by done.
Qed.

Lemma maskSelf_idem cidr ip :
  ip_ok n ip -> 0 <= cidr <= 8 * Z.of_nat n -> maskSelf cidr (maskSelf cidr ip) = maskSelf cidr ip.
Proof.
  intros Hip Hc. apply masked_inj; [by apply maskSelf_ok; [|lia] | done | done |].
  by apply key_maskSelf; [|lia|lia].
Qed.

Lemma choose_next cidr ip :
  ip_ok n ip -> 0 <= cidr < 8 * Z.of_nat n ->
  exists b, choose cidr ip = Some b /\ key (cidr + 1) ip = key cidr ip ++ [b].
Proof.
  intros [Hl _] Hc. rewrite choose_bits by lia.
  destruct (lookup_lt_is_Some_2 (bits_of ip) (Z.to_nat cidr)) as [b Hb];
    [rewrite bits_of_length; lia|].
  exists b. split; [done|]. unfold key. rewrite Z2Nat.inj_add by lia.
  rewrite Nat.add_1_r. by apply take_S_r.
Qed.

(** The descent condition of every walk. *)
Lemma common_prefix cidr bits ip :
  ip_ok n bits -> ip_ok n ip -> 0 <= cidr <= 8 * Z.of_nat n ->
  exists common, commonBits bits ip = Some common /\
    (common >=? cidr) = bool_decide (key cidr bits `prefix_of` bits_of ip).
Proof.
  intros Hb Hip Hc. eexists. split; [by apply (commonBits_lcp n)|].
  apply eq_bool_prop_intro. rewrite bool_decide_spec, Is_true_true, Z.geb_le.
  destruct Hb as [Hl _]. unfold key. rewrite <- lcp_ge by (rewrite bits_of_length; lia). lia.
Qed.

(** ** Lemmas: the trie invariant *)

Lemma wf_child pre peer cidr bits c0 c1 (b : bool) :
  wf n pre (Node peer cidr bits c0 c1) -> wf n (key cidr bits ++ [b]) (if b then c1 else c0).
Proof. intros (_ & _ & _ & _ & _ & H0 & H1). by destruct b. Qed.

Lemma wf_weaken pre pre' t : wf n pre' t -> pre `prefix_of` pre' -> wf n pre t.
Proof.
  destruct t as [|peer cidr bits c0 c1]; [done|].
  intros (? & ? & ? & Hp & ?) Hpre. cbn [wf]. split_and!; try tauto. by etrans.
Qed.

Lemma nodes_in k p peer cidr bits c0 c1 :
  (k, p) ∈ nodes (Node peer cidr bits c0 c1) <->
  (peer = Some p /\ k = key cidr bits) \/ exists b : bool, (k, p) ∈ nodes (if b then c1 else c0).
Proof.
  cbn [nodes]. rewrite !elem_of_app. split.
  - intros [Hx|[Hx|Hx]]; [left | right; by exists false | right; by exists true].
    destruct peer as [q|]; [apply list_elem_of_singleton in Hx | by apply not_elem_of_nil in Hx].
    by simplify_eq/=.
  - intros [[-> ->]|[[|] Hx]]; [left | right; by right | right; by left].
    by apply list_elem_of_singleton.
Qed.

Lemma nodes_in_split k p peer cidr bits c0 c1 (b : bool) :
  (k, p) ∈ nodes (Node peer cidr bits c0 c1) <->
  (peer = Some p /\ k = key cidr bits) \/ (k, p) ∈ nodes (if b then c1 else c0) \/
  (k, p) ∈ nodes (if b then c0 else c1).
Proof.
  rewrite nodes_in. split; [intros [?|[b' Hin]] | intros [?|[?|?]]]; auto.
  - destruct b, b'; auto.
  - eauto.
  - right. exists (negb b). by rewrite if_negb.
Qed.

Lemma nodes_prefix pre t k p : wf n pre t -> (k, p) ∈ nodes t -> pre `prefix_of` k.
Proof.
  revert pre. induction t as [|peer cidr bits c0 IH0 c1 IH1]; intros pre Hwf Hin;
    [by apply not_elem_of_nil in Hin|].
  apply nodes_in in Hin as [[_ ->]|[b Hin]]; [apply Hwf|].
  etrans; [apply Hwf|]. etrans; [apply prefix_app_r; reflexivity|].
  pose proof (wf_child _ _ _ _ _ _ b Hwf). destruct b; eauto.
Qed.

Lemma nodes_child_key pre peer cidr bits c0 c1 (b : bool) p :
  wf n pre (Node peer cidr bits c0 c1) -> (key cidr bits, p) ∉ nodes (if b then c1 else c0).
Proof.
  intros Hwf Hin. apply (nodes_prefix (key cidr bits ++ [b])) in Hin; [|by eapply wf_child].
  apply prefix_length in Hin. rewrite length_app in Hin. cbn in Hin. lia.
Qed.

Lemma nodes_set_child k p q cidr bits c0 c1 (b : bool) x :
  (k, p) ∈ nodes (set_child (Node q cidr bits c0 c1) b x) <->
  (q = Some p /\ k = key cidr bits) \/ (k, p) ∈ nodes x \/ (k, p) ∈ nodes (if b then c0 else c1).
Proof.
  destruct b; cbn [set_child]; rewrite nodes_in; (split; [intros [?|[[|] ?]] | intros [?|[?|?]]]);
    try tauto; right; by (exists true + exists false).
Qed.

Lemma wf_set_child pre q cidr bits c0 c1 (b : bool) x :
  wf n pre (Node q cidr bits c0 c1) -> wf n (key cidr bits ++ [b]) x -> (q = None -> x <> Nil) ->
  wf n pre (set_child (Node q cidr bits c0 c1) b x).
Proof.
  intros (? & ? & ? & ? & Hq & ? & ?) Hx Hne.
  destruct b; cbn [set_child wf]; split_and!; try tauto; intros ->; destruct Hq; auto.
Qed.

Lemma wf_choose pre t c b :
  wf n pre t -> t <> Nil -> 0 <= c -> pre !! Z.to_nat c = Some b -> choose c (node_bits t) = Some b.
Proof.
  intros Hwf Ht Hc Hb. destruct t as [|peer cidr bits c0 c1]; [done|]. cbn [node_bits].
  rewrite choose_bits by done. eapply prefix_lookup_Some; [exact Hb|].
  etrans; [apply Hwf | apply prefix_take].
Qed.

Lemma choose_app_key c a b : ip_ok n a -> 0 <= c <= 8 * Z.of_nat n -> (key c a ++ [b]) !! Z.to_nat c = Some b.
Proof.
  intros Ha Hc. rewrite lookup_app_r by (rewrite key_length by done; lia).
  rewrite key_length by done. by rewrite Nat.sub_diag.
Qed.

Lemma wf_leaf pre peer cidr ip :
  ip_ok n ip -> 0 <= cidr <= 8 * Z.of_nat n -> maskSelf cidr ip = ip ->
  pre `prefix_of` key cidr ip -> wf n pre (Node (Some peer) cidr ip Nil Nil).
Proof. intros. cbn. split_and!; try tauto; discriminate. Qed.

Lemma wf_peer pre q peer cidr bits c0 c1 :
  wf n pre (Node q cidr bits c0 c1) -> wf n pre (Node (Some peer) cidr bits c0 c1).
Proof. intros (? & ? & ? & ? & ? & ? & ?). cbn. split_and!; try tauto. discriminate. Qed.

Lemma wf_reroot pre pre' peer cidr bits c0 c1 :
  wf n pre (Node peer cidr bits c0 c1) -> pre' `prefix_of` key cidr bits ->
  wf n pre' (Node peer cidr bits c0 c1).
Proof. intros (? & ? & ? & ? & ? & ? & ?) Hp. cbn. tauto. Qed.

(** ** Lemmas: insertion *)

Lemma key_common c a b : 0 <= c <= Z.of_nat (lcp (bits_of a) (bits_of b)) -> key c a = key c b.
Proof.
  intros Hc. unfold key. pose proof (lcp_take (bits_of a) (bits_of b)) as Ht.
  apply (f_equal (take (Z.to_nat c))) in Ht. rewrite !take_take in Ht.
  by rewrite Nat.min_l in Ht by lia.
Qed.

Lemma key_lcp pre a b :
  pre `prefix_of` bits_of a -> pre `prefix_of` bits_of b ->
  (length pre <= lcp (bits_of a) (bits_of b))%nat.
Proof.
  intros Ha Hb. apply lcp_ge; [by apply prefix_length|].
  apply prefix_is_key in Ha. unfold key in Ha. rewrite Nat2Z.id in Ha. by rewrite <- Ha.
Qed.

(** The postcondition of an insertion that adds a node. *)
Definition adds (pre : list bool) (t : trie) (k : list bool) (peer : P) (t' : trie) : Prop :=
  t' <> Nil /\ wf n pre t' /\
  forall k' p, (k', p) ∈ nodes t' <-> (k' = k /\ p = peer) \/ (k', p) ∈ nodes t.

Section Graft.
Context (pre : list bool) (dpeer : option P) (dc : Z) (db : list Z) (d0 d1 : trie).
Context (ip : list Z) (cidr : Z) (peer : P).
Let down := Node dpeer dc db d0 d1.
Context (Hwf : wf n pre down) (Hip : ip_ok n ip) (Hmask : maskSelf cidr ip = ip).
Context (Hc : 0 <= cidr <= 8 * Z.of_nat n) (Hpre : pre `prefix_of` key cidr ip).
Context (Hstop : ~ (dc <= cidr /\ key dc db `prefix_of` bits_of ip)).
Let common := Z.of_nat (lcp (bits_of db) (bits_of ip)).

Lemma down_beyond : Z.min cidr common < dc.
Proof.
  pose proof Hwf as (_ & Hdc & _). destruct (Z.lt_ge_cases (Z.min cidr common) dc); [done|].
  destruct Hstop. split; [lia|]. rewrite (key_common dc db ip) by (subst common; lia). apply prefix_take.
Qed.

Lemma fork_bits bd bi :
  common < cidr -> choose common db = Some bd -> choose common ip = Some bi -> bd = negb bi.
Proof.
  intros Hlt'. pose proof down_beyond as Hlt. pose proof Hwf as ([Hl _] & Hdc & _). destruct Hip as [Hli _].
  rewrite !choose_bits by (subst common; lia). subst common. rewrite Nat2Z.id.
  destruct (lcp_next (bits_of db) (bits_of ip)) as (a & b & -> & -> & ->);
    [rewrite bits_of_length; lia..|]. congruence.
Qed.

Lemma graft_above :
  cidr <= common -> exists t, graft down ip cidr peer = Some t /\ adds pre down (key cidr ip) peer t.
Proof.
  intros Hle. pose proof down_beyond as Hlt. pose proof Hwf as (Hdb & Hdc & _ & Hdp & _).
  unfold graft, down. fold down. rewrite (commonBits_lcp n) by done. cbn [mbind option_bind].
  fold common. rewrite (proj2 (Z.ltb_ge common cidr)), Z.eqb_refl by done.
  destruct (choose_next cidr db Hdb ltac:(lia)) as (bit & -> & Hbit). cbn [mbind option_bind].
  eexists. split; [done|]. split_and!.
  - by destruct bit.
  - apply wf_set_child; [by apply wf_leaf | | done]. eapply wf_reroot; [exact Hwf|].
    rewrite <- (key_common cidr db ip), <- Hbit by (subst common; lia). apply key_prefix. lia.
  - intros k p. rewrite nodes_set_child. destruct bit; cbn [nodes]; rewrite elem_of_nil; intuition congruence.
Qed.

Lemma graft_fork :
  common < cidr -> exists t, graft down ip cidr peer = Some t /\ adds pre down (key cidr ip) peer t.
Proof.
  intros Hlt'. pose proof down_beyond as Hlt. pose proof Hwf as (Hdb & Hdc & _ & Hdp & _).
  unfold graft, down. fold down. rewrite (commonBits_lcp n) by done. cbn [mbind option_bind].
  fold common. rewrite (proj2 (Z.ltb_lt common cidr)) by done.
  rewrite (proj2 (Z.eqb_neq cidr common)) by lia.
  destruct (choose_next common db Hdb ltac:(lia)) as (bd & Ed & Hbd).
  destruct (choose_next common ip Hip ltac:(lia)) as (bi & Ei & Hbi).
  rewrite Ed, Ei. cbn [mbind option_bind]. assert (bd = negb bi) as -> by (by apply fork_bits).
  set (m := maskSelf common ip).
  assert (Hm : ip_ok n m) by (apply maskSelf_ok; [done | lia]).
  assert (Hkm : key common m = key common ip) by (apply key_maskSelf; [done | lia | lia]).
  assert (Hmm : maskSelf common m = m) by (apply maskSelf_idem; [done | lia]).
  assert (Hpm : pre `prefix_of` key common m).
  { rewrite Hkm. assert (Hpi : pre `prefix_of` bits_of ip) by (etrans; [exact Hpre | apply prefix_take]).
    assert (Hpd : pre `prefix_of` bits_of db) by (etrans; [exact Hdp | apply prefix_take]).
    pose proof (key_lcp _ _ _ Hpd Hpi). apply prefix_is_key in Hpi. rewrite Hpi.
    apply key_prefix. subst common. lia. }
  assert (Hwd : wf n (key common m ++ [negb bi]) down).
  { eapply wf_reroot; [exact Hwf|]. rewrite Hkm, <- (key_common common db ip), <- Hbd by (subst common; lia).
    apply key_prefix. lia. }
  assert (Hwn : wf n (key common m ++ [bi]) (Node (Some peer) cidr ip Nil Nil)).
  { apply wf_leaf; [done..|]. rewrite Hkm, <- Hbi. apply key_prefix. lia. }
  eexists. split; [done|]. split_and!.
  - by destruct bi.
  - destruct bi; cbn [set_child negb] in *; (split; [exact Hm|]); split_and!; try done; lia.
  - intros k p. destruct bi; cbn [set_child negb nodes app]; 
      rewrite ?elem_of_app, ?elem_of_cons, ?elem_of_nil; intuition congruence.
Qed.

Lemma graft_spec : exists t, graft down ip cidr peer = Some t /\ adds pre down (key cidr ip) peer t.
Proof. destruct (Z.le_gt_cases cidr common); [by apply graft_above | by apply graft_fork]. Qed.

End Graft.

Lemma prefix_snoc_inj (x k : list bool) a b : x ++ [a] `prefix_of` k -> x ++ [b] `prefix_of` k -> a = b.
Proof. intros [l1 ->] [l2 Hb]. rewrite <- !app_assoc in Hb. apply app_inv_head in Hb. by injection Hb. Qed.

Lemma off_path pre q nc nb c0 c1 (b : bool) k p :
  wf n pre (Node q nc nb c0 c1) -> key nc nb ++ [b] `prefix_of` k ->
  k <> key nc nb /\ (k, p) ∉ nodes (if b then c0 else c1).
Proof.
  intros Hwf Hk. split.
  - intros ->. apply prefix_length in Hk. rewrite length_app in Hk. cbn in Hk. lia.
  - intros Hin. pose proof (wf_child _ _ _ _ _ _ (negb b) Hwf) as Hwb. rewrite if_negb in Hwb.
    pose proof (prefix_snoc_inj _ _ _ _ Hk (nodes_prefix _ _ _ _ Hwb Hin)). by destruct b.
Qed.

(** The walk of [nodePlacement] at one node. *)
Section Walk.
Context (pre : list bool) (q : option P) (nc : Z) (nb : list Z) (c0 c1 : trie).
Context (ip : list Z) (cidr : Z).
Let node := Node q nc nb c0 c1.
Context (Hwf : wf n pre node) (Hip : ip_ok n ip) (Hc : 0 <= cidr <= 8 * Z.of_nat n).

Lemma placement_stop :
  ~ (nc <= cidr /\ key nc nb `prefix_of` bits_of ip) -> nodePlacement node ip cidr = Some (None, false).
Proof.
  intros Hstop. pose proof Hwf as (Hnb & Hnc & _). subst node. cbn [nodePlacement].
  destruct (Z.leb_spec nc cidr) as [Hle|Hlt]; [|done].
  destruct (common_prefix nc nb ip Hnb Hip Hnc) as (common & -> & Hge). cbn [mbind option_bind].
  rewrite Hge. case_bool_decide; [tauto | done].
Qed.

Lemma placement_exact :
  nc = cidr -> key nc nb `prefix_of` bits_of ip -> nodePlacement node ip cidr = Some (Some [], true).
Proof.
  intros Heq Hp. pose proof Hwf as (Hnb & Hnc & _). subst node. cbn [nodePlacement].
  destruct (common_prefix nc nb ip Hnb Hip Hnc) as (common & -> & Hge). cbn [mbind option_bind].
  rewrite Hge, bool_decide_true by done. rewrite (proj2 (Z.leb_le nc cidr)), (proj2 (Z.eqb_eq nc cidr)) by lia.
  done.
Qed.

Lemma placement_descend b :
  nc < cidr -> key nc nb `prefix_of` bits_of ip -> choose nc ip = Some b ->
  nodePlacement node ip cidr =
    '(place, exact) ← nodePlacement (if b then c1 else c0) ip cidr;
    Some (Some (match place with Some p => b :: p | None => [] end), exact).
Proof.
  intros Hlt Hp Hb. pose proof Hwf as (Hnb & Hnc & _). subst node. cbn [nodePlacement].
  destruct (common_prefix nc nb ip Hnb Hip Hnc) as (common & -> & Hge). cbn [mbind option_bind].
  rewrite Hge, bool_decide_true by done. rewrite (proj2 (Z.leb_le nc cidr)), (proj2 (Z.eqb_neq nc cidr)) by lia.
  by rewrite Hb.
Qed.

Lemma placement_stopped e :
  nodePlacement node ip cidr = Some (None, e) -> ~ (nc <= cidr /\ key nc nb `prefix_of` bits_of ip).
Proof.
  intros Hpl [Hle Hp]. pose proof Hwf as (Hnb & Hnc & _). destruct (decide (nc = cidr)) as [He|Hne].
  - by rewrite placement_exact in Hpl.
  - destruct (choose_next nc ip Hip ltac:(lia)) as (b & Hb & _).
    rewrite (placement_descend b) in Hpl by (done || lia).
    by destruct (nodePlacement (if b then c1 else c0) ip cidr) as [[]|].
Qed.

(** Below this node, keys that extend it start with the chosen bit. *)
Lemma key_descend b :
  nc < cidr -> key nc nb `prefix_of` bits_of ip -> choose nc ip = Some b ->
  key nc nb ++ [b] `prefix_of` key cidr ip.
Proof.
  intros Hlt Hp Hb. pose proof Hwf as (Hnb & Hnc & _).
  destruct (choose_next nc ip Hip ltac:(lia)) as (b' & Hb' & Hk). rewrite Hb in Hb'. injection Hb' as <-.
  apply prefix_is_key in Hp. rewrite key_length, Z2Nat.id in Hp by (done || lia).
  rewrite Hp, <- Hk. apply key_prefix. lia.
Qed.

Lemma nodes_stop p :
  ~ (nc <= cidr /\ key nc nb `prefix_of` bits_of ip) -> (key cidr ip, p) ∉ nodes node.
Proof.
  intros Hstop Hin. pose proof Hwf as (Hnb & Hnc & _). apply Hstop.
  apply (nodes_prefix (key nc nb)) in Hin; [|by eapply wf_reroot].
  pose proof (prefix_length _ _ Hin) as Hl. rewrite !key_length in Hl by done.
  split; [lia | etrans; [exact Hin | apply prefix_take]].
Qed.

Lemma key_off_path b p :
  nc < cidr -> key nc nb `prefix_of` bits_of ip -> choose nc ip = Some b ->
  key cidr ip <> key nc nb /\ (key cidr ip, p) ∉ nodes (if b then c0 else c1).
Proof.
  intros Hlt Hp Hb. eapply off_path; [exact Hwf | by apply key_descend].
Qed.

Lemma nodes_descend b p :
  nc < cidr -> key nc nb `prefix_of` bits_of ip -> choose nc ip = Some b ->
  (key cidr ip, p) ∈ nodes node <-> (key cidr ip, p) ∈ nodes (if b then c1 else c0).
Proof.
  intros Hlt Hp Hb. destruct (key_off_path b p Hlt Hp Hb). subst node.
  rewrite (nodes_in_split _ _ _ _ _ _ _ b). tauto.
Qed.

End Walk.

Lemma placement_spec pre t ip cidr :
  wf n pre t -> ip_ok n ip -> 0 <= cidr <= 8 * Z.of_nat n ->
  exists place exact, nodePlacement t ip cidr = Some (place, exact) /\
    if exact : bool then
      exists path peer bits c0 c1, place = Some path /\
        subtrie_at t path = Some (Node peer cidr bits c0 c1) /\ key cidr bits = key cidr ip
    else forall p, (key cidr ip, p) ∉ nodes t.
Proof.
  intros Hwf Hip Hc. revert pre Hwf.
  induction t as [|q nc nb c0 IH0 c1 IH1]; intros pre Hwf.
  { exists None, false. split; [done|]. intros p. apply not_elem_of_nil. }
  pose proof Hwf as (Hnb & Hnc & _).
  destruct (decide (nc <= cidr /\ key nc nb `prefix_of` bits_of ip)) as [[Hle Hp]|Hstop].
  2: { rewrite (placement_stop pre) by done. do 2 eexists. split; [done|]. intros p. by eapply nodes_stop. }
  destruct (decide (nc = cidr)) as [->|Hne].
  { rewrite (placement_exact pre) by done. do 2 eexists. split; [done|]. cbn.
    apply prefix_is_key in Hp. rewrite key_length, Z2Nat.id in Hp by (done || lia). eauto 10. }
  destruct (choose_next nc ip Hip ltac:(lia)) as (b & Hb & Hk).
  rewrite (placement_descend pre _ _ _ _ _ _ _ Hwf Hip b) by (done || lia).
  pose proof (wf_child _ _ _ _ _ _ b Hwf) as Hwb.
  assert (exists place exact, nodePlacement (if b then c1 else c0) ip cidr = Some (place, exact) /\
    if exact : bool then exists path peer bits c0' c1', place = Some path /\
        subtrie_at (if b then c1 else c0) path = Some (Node peer cidr bits c0' c1') /\ key cidr bits = key cidr ip
    else forall p, (key cidr ip, p) ∉ nodes (if b then c1 else c0)) as (place & exact & -> & Hex)
    by (destruct b; eauto).
  cbn [mbind option_bind]. do 2 eexists. split; [done|]. destruct exact.
  - destruct Hex as (path & peer & bits & e0 & e1 & -> & Hs & Hkk).
    exists (b :: path), peer, bits, e0, e1. done.
  - intros p. rewrite nodes_descend by (done || lia). apply Hex.
Qed.

Lemma subtrie_at_cons q nc nb c0 c1 (b : bool) p :
  subtrie_at (Node q nc nb c0 c1) (b :: p) = subtrie_at (if b then c1 else c0) p.
Proof. done. Qed.

Lemma set_at_cons q nc nb c0 c1 (b : bool) p x :
  set_at (Node q nc nb c0 c1) (b :: p) x =
  set_child (Node q nc nb c0 c1) b (set_at (if b then c1 else c0) p x).
Proof. done. Qed.

Lemma choose_mask c cidr ip :
  ip_ok n ip -> 0 <= c < cidr -> cidr <= 8 * Z.of_nat n -> choose c (maskSelf cidr ip) = choose c ip.
Proof.
  intros Hip Hc Hb. rewrite !choose_bits, maskSelf_bits by (done || lia).
  rewrite lookup_app_l by (rewrite key_length by (done || lia); lia).
  unfold key. by rewrite lookup_take_lt by lia.
Qed.

Lemma placement_none t ip cidr exact : nodePlacement t ip cidr = Some (None, exact) -> exact = false.
Proof.
  destruct t as [|q nc nb c0 c1]; cbn [nodePlacement]; [by intros [=]|].
  destruct (nc <=? cidr); [|by intros [=]].
  destruct (commonBits nb ip); cbn [mbind option_bind]; [|done].
  destruct (_ >=? _); [|by intros [=]]. destruct (nc =? cidr); [done|].
  destruct (choose nc ip); cbn [mbind option_bind]; [|done].
  by destruct (nodePlacement _ ip cidr) as [[place e]|].
Qed.

Lemma mask_prefix c cidr a ip :
  ip_ok n a -> ip_ok n ip -> 0 <= c <= cidr -> cidr <= 8 * Z.of_nat n ->
  key c a `prefix_of` bits_of (maskSelf cidr ip) <-> key c a `prefix_of` bits_of ip.
Proof.
  intros Ha Hip Hc Hb. rewrite !prefix_is_key, key_length, Z2Nat.id by (done || lia).
  by rewrite key_maskSelf by done.
Qed.

(** Insertion masks the address before it joins the new node to [down]. *)
Lemma graft_masked pre dpeer dc db d0 d1 ip cidr peer :
  let down := Node dpeer dc db d0 d1 in
  wf n pre down -> ip_ok n ip -> 0 <= cidr <= 8 * Z.of_nat n -> pre `prefix_of` key cidr ip ->
  ~ (dc <= cidr /\ key dc db `prefix_of` bits_of ip) ->
  exists t, graft down (maskSelf cidr ip) cidr peer = Some t /\ adds pre down (key cidr ip) peer t.
Proof.
  intros down Hwf Hip Hc Hpre Hstop. pose proof Hwf as (Hdb & Hdc & _).
  rewrite <- (key_maskSelf cidr cidr ip) in * by (done || lia).
  apply graft_spec; try done; [by apply maskSelf_ok; [|lia] | by apply maskSelf_idem |].
  intros [Hle Hp]. apply Hstop. split; [done|]. apply (mask_prefix dc cidr db ip); done || lia.
Qed.

Lemma insert_node_step pre q nc nb c0 c1 ip cidr peer b :
  let t := Node q nc nb c0 c1 in
  wf n pre t -> ip_ok n ip -> 0 <= cidr <= 8 * Z.of_nat n ->
  nc < cidr -> key nc nb `prefix_of` bits_of ip -> choose nc ip = Some b ->
  insert_node t ip cidr peer =
    '(c, old) ← insert_node (if b then c1 else c0) ip cidr peer; Some (set_child t b c, old).
Proof.
  intros t Hwf Hip Hc Hlt Hp Hb. pose proof Hwf as (Hnb & Hnc & _).
  assert (Hbm : choose nc (maskSelf cidr ip) = Some b) by (by rewrite choose_mask by (done || lia)).
  unfold insert_node at 1. unfold t at 1. fold t.
  rewrite (placement_descend pre _ _ _ _ _ _ _ Hwf Hip b) by done.
  pose proof (wf_child _ _ _ _ _ _ b Hwf) as Hwb.
  destruct (if b then c1 else c0) as [|q' nc' nb' c0' c1'] eqn:Hch.
  { cbn [nodePlacement mbind option_bind insert_node]. subst t.
    cbn [subtrie_at mbind option_bind]. rewrite Hbm. cbn [mbind option_bind]. rewrite Hch. reflexivity. }
  unfold insert_node.
  destruct (nodePlacement (Node q' nc' nb' c0' c1') ip cidr) as [[place exact]|] eqn:Hpl; [|done].
  cbn [mbind option_bind]. destruct exact.
  - destruct place as [path|]; [|by apply placement_none in Hpl].
    cbn [mbind option_bind]. unfold t. rewrite subtrie_at_cons, Hch.
    destruct (subtrie_at _ path) as [[|]|]; cbn [mbind option_bind]; [done| |done].
    by rewrite set_at_cons, Hch.
  - destruct place as [path|].
    + cbn [mbind option_bind]. unfold t. rewrite subtrie_at_cons, Hch.
      destruct (subtrie_at _ path) as [[|q2 nc2 nb2 e0 e1]|]; cbn [mbind option_bind]; [done| |done].
      destruct (choose nc2 _) as [b2|]; cbn [mbind option_bind]; [|done].
      destruct (if b2 then e1 else e0) as [|q3 nc3 nb3 f0 f1].
      * cbn [app]. by rewrite set_at_cons, Hch.
      * destruct (graft _ _ _ _) as [g|]; cbn [mbind option_bind]; [|done].
        destruct (choose nc2 (node_bits g)) as [b3|]; cbn [mbind option_bind]; [|done].
        cbn [app]. by rewrite set_at_cons, Hch.
    + cbn [mbind option_bind subtrie_at]. unfold t at 1. rewrite Hbm. cbn [mbind option_bind]. rewrite Hch.
      destruct (graft_masked _ _ _ _ _ _ _ _ peer Hwb Hip Hc) as (g & -> & Hg & Hwg & _);
        [by apply (key_descend pre q _ _ c0 c1) | by eapply placement_stopped|].
      cbn [mbind option_bind]. rewrite (wf_choose _ _ _ b Hwg); [done | done | lia |].
      by apply choose_app_key.
Qed.

Lemma insert_node_spec pre t ip cidr peer :
  wf n pre t -> ip_ok n ip -> 0 <= cidr <= 8 * Z.of_nat n -> pre `prefix_of` key cidr ip ->
  exists t' old, insert_node t ip cidr peer = Some (t', old) /\ t' <> Nil /\ wf n pre t' /\
    (forall p, old = Some p <-> (key cidr ip, p) ∈ nodes t) /\
    forall k p, (k, p) ∈ nodes t' <->
      (k = key cidr ip /\ p = peer) \/ (k <> key cidr ip /\ (k, p) ∈ nodes t).
Proof.
  intros Hwf Hip Hc. revert pre Hwf.
  induction t as [|q nc nb c0 IH0 c1 IH1]; intros pre Hwf Hpre.
  { exists (Node (Some peer) cidr (maskSelf cidr ip) Nil Nil), None. split_and!; [done | done | | |].
    - apply wf_leaf; rewrite ?key_maskSelf by (done || lia); try done;
        [by apply maskSelf_ok; [|lia] | by apply maskSelf_idem].
    - intros p. by rewrite elem_of_nil.
    - intros k p. cbn [nodes app]. rewrite key_maskSelf, list_elem_of_singleton, elem_of_nil by (done || lia).
      intuition congruence. }
  pose proof Hwf as (Hnb & Hnc & _).
  destruct (decide (nc <= cidr /\ key nc nb `prefix_of` bits_of ip)) as [[Hle Hp]|Hstop].
  2: { destruct (graft_masked _ _ _ _ _ _ _ _ peer Hwf Hip Hc Hpre Hstop) as (g & Hg & Hne & Hwg & Hin).
    exists g, None. unfold insert_node. rewrite (placement_stop pre), Hg by done.
    pose proof (nodes_stop _ _ _ _ _ _ _ _ Hwf Hip Hc) as Hnot. split_and!; try done.
    - intros p. split; [done|]. intros Hx. by apply Hnot in Hx.
    - intros k p. rewrite Hin. destruct (decide (k = key cidr ip)) as [->|]; [|tauto].
      specialize (Hnot p). tauto. }
  destruct (decide (nc = cidr)) as [->|Hne].
  { exists (Node (Some peer) cidr nb c0 c1), q. unfold insert_node. rewrite (placement_exact pre) by done.
    apply prefix_is_key in Hp. rewrite key_length, Z2Nat.id in Hp by (done || lia).
    pose proof (fun b p => nodes_child_key _ _ _ _ _ _ b p Hwf) as Hnot. rewrite Hp in Hnot.
    split_and!; [done | done | by apply (wf_peer pre q) | |]; intros; rewrite ?nodes_in, Hp.
    - split; [tauto|]. intros [[-> _]|[b Hin]]; [done | by apply Hnot in Hin].
    - split; [|naive_solver]. intros [[[= ->] ->]|[b Hin]]; [by left|]. right.
      split; [|by eauto]. intros ->. by apply Hnot in Hin. }
  destruct (choose_next nc ip Hip ltac:(lia)) as (b & Hb & Hk).
  rewrite (insert_node_step pre _ _ _ _ _ _ _ _ b) by (done || lia).
  assert (Hlt : nc < cidr) by lia.
  pose proof (key_descend pre _ _ _ _ _ _ _ Hwf Hip Hc b Hlt Hp Hb) as Hkb.
  pose proof (wf_child _ _ _ _ _ _ b Hwf) as Hwb.
  assert (exists t' old, insert_node (if b then c1 else c0) ip cidr peer = Some (t', old) /\ t' <> Nil /\
    wf n (key nc nb ++ [b]) t' /\ (forall p, old = Some p <-> (key cidr ip, p) ∈ nodes (if b then c1 else c0)) /\
    forall k p, (k, p) ∈ nodes t' <-> (k = key cidr ip /\ p = peer) \/
      (k <> key cidr ip /\ (k, p) ∈ nodes (if b then c1 else c0))) as (c & old & -> & Hc' & Hwc & Hold & Hin)
    by (destruct b; eauto).
  cbn [mbind option_bind]. exists (set_child (Node q nc nb c0 c1) b c), old.
  split_and!; [done | by destruct b | by apply wf_set_child | |].
  - intros p. by rewrite Hold, (nodes_descend pre _ _ _ _ _ _ _ Hwf Hip Hc b) by done.
  - intros k p. rewrite nodes_set_child, nodes_in_split with (b := b), Hin.
    destruct (decide (k = key cidr ip)) as [->|]; [|tauto].
    pose proof (key_off_path pre _ _ _ _ _ _ _ Hwf Hip Hc b p Hlt Hp Hb). tauto.
Qed.

(** ** Lemmas: removal *)

Lemma subtrie_at_set_child q nc nb c0 c1 (b : bool) x p :
  subtrie_at (set_child (Node q nc nb c0 c1) b x) (b :: p) = subtrie_at x p.
Proof. by destruct b. Qed.

Lemma set_at_set_child q nc nb c0 c1 (b : bool) x p y :
  set_at (set_child (Node q nc nb c0 c1) b x) (b :: p) y = set_child (Node q nc nb c0 c1) b (set_at x p y).
Proof. by destruct b. Qed.

Lemma remove_node_step q nc nb c0 c1 (b : bool) p :
  p <> [] ->
  remove_node (Node q nc nb c0 c1) (b :: p) =
    c ← remove_node (if b then c1 else c0) p; Some (set_child (Node q nc nb c0 c1) b c).
Proof.
  intros Hp. unfold remove_node. rewrite subtrie_at_cons.
  destruct (subtrie_at (if b then c1 else c0) p) as [[|q' nc' nb' e0 e1]|]; cbn [mbind option_bind]; [done| |done].
  destruct p as [|x p _] using rev_ind; [done|]. rewrite !set_at_cons.
  destruct e0, e1; cbn [mbind option_bind]; rewrite ?set_at_cons; try done.
  rewrite reverse_cons, reverse_snoc. cbn [app]. rewrite reverse_snoc, reverse_involutive.
  rewrite subtrie_at_set_child.
  destruct (subtrie_at _ p) as [[|[|] ? ? ? ?]|]; cbn [mbind option_bind]; try done.
  by rewrite set_at_set_child.
Qed.

(** The postcondition of a removal. *)
Definition drops (pre : list bool) (t : trie) (k : list bool) (t' : trie) : Prop :=
  wf n pre t' /\ forall k' p, (k', p) ∈ nodes t' <-> k' <> k /\ (k', p) ∈ nodes t.

Lemma drops_child pre q nc nb c0 c1 (b : bool) k c :
  wf n pre (Node q nc nb c0 c1) -> key nc nb ++ [b] `prefix_of` k ->
  drops (key nc nb ++ [b]) (if b then c1 else c0) k c -> (q = None -> c <> Nil) ->
  drops pre (Node q nc nb c0 c1) k (set_child (Node q nc nb c0 c1) b c).
Proof.
  intros Hwf Hk [Hwc Hin] Hq. split; [by apply wf_set_child|].
  intros k' p. rewrite nodes_set_child, (nodes_in_split _ _ _ _ _ _ _ b), Hin.
  destruct (decide (k' = k)) as [->|]; [|tauto].
  destruct (off_path _ _ _ _ _ _ _ _ p Hwf Hk). tauto.
Qed.

Lemma remove_root q nc nb c0 c1 :
  remove_node (Node q nc nb c0 c1) [] =
  Some (match c0, c1 with Nil, _ => c1 | _, Nil => c0 | _, _ => Node None nc nb c0 c1 end).
Proof. by destruct c0, c1. Qed.

(** Removing a leaf below a node without a peer also splices that node out. *)
Lemma remove_below q nc nb c0 c1 (b : bool) c :
  (if b then c1 else c0) <> Nil -> remove_node (if b then c1 else c0) [] = Some c ->
  remove_node (Node q nc nb c0 c1) [b] =
  Some (match c, q with Nil, None => if b then c0 else c1 | _, _ => set_child (Node q nc nb c0 c1) b c end).
Proof.
  intros Hne Hc. unfold remove_node in *. rewrite subtrie_at_cons. cbn [subtrie_at mbind option_bind] in *.
  destruct (if b then c1 else c0) as [|q' nc' nb' d0 d1]; [done|].
  destruct d0, d1; injection Hc as <-; try (by destruct q).
  cbn [reverse rev_append subtrie_at mbind option_bind set_at set_child].
  destruct b, q; done.
Qed.

Lemma subtrie_prefix pre t path q nc nb c0 c1 :
  wf n pre t -> subtrie_at t path = Some (Node q nc nb c0 c1) -> pre `prefix_of` key nc nb.
Proof.
  revert pre t. induction path as [|b path IH]; intros pre t Hwf Hs.
  - injection Hs as ->. apply Hwf.
  - destruct t as [|q' nc' nb' d0 d1]; [done|].
    apply (IH (key nc' nb' ++ [b])) in Hs; [|by eapply wf_child].
    etrans; [apply Hwf|]. etrans; [|exact Hs]. by apply prefix_app_r.
Qed.

Lemma drops_splice pre nc nb c0 c1 (b : bool) k :
  wf n pre (Node None nc nb c0 c1) -> key nc nb ++ [b] `prefix_of` k ->
  drops (key nc nb ++ [b]) (if b then c1 else c0) k Nil ->
  drops pre (Node None nc nb c0 c1) k (if b then c0 else c1) /\ (if b then c0 else c1) <> Nil.
Proof.
  intros Hwf Hk [_ Hd]. split; [split|].
  - pose proof (wf_child _ _ _ _ _ _ (negb b) Hwf) as Hwb. rewrite if_negb in Hwb.
    eapply wf_weaken; [exact Hwb|]. apply prefix_app_r, Hwf.
  - intros k' p. rewrite (nodes_in_split _ _ _ _ _ _ _ b). specialize (Hd k' p). rewrite elem_of_nil in Hd.
    destruct (decide (k' = k)) as [->|]; [destruct (off_path _ _ _ _ _ _ _ _ p Hwf Hk)|];
      intuition congruence.
  - destruct Hwf as (_ & _ & _ & _ & Hq & _). destruct (Hq eq_refl). by destruct b.
Qed.

Lemma drops_root pre q nc nb c0 c1 :
  wf n pre (Node q nc nb c0 c1) ->
  exists t', remove_node (Node q nc nb c0 c1) [] = Some t' /\
    drops pre (Node q nc nb c0 c1) (key nc nb) t'.
Proof.
  intros Hwf. pose proof (fun b p => nodes_child_key _ _ _ _ _ _ b p Hwf) as Hnot.
  pose proof Hwf as (_ & _ & _ & Hp & _).
  assert (Hext : forall b : bool, wf n pre (if b then c1 else c0)).
  { intros b. eapply wf_weaken; [by eapply wf_child|]. by apply prefix_app_r. }
  assert (Hdrop : forall t', (forall k' p, (k', p) ∈ nodes t' <-> exists b : bool, (k', p) ∈ nodes (if b then c1 else c0)) ->
    forall k' p, (k', p) ∈ nodes t' <-> k' <> key nc nb /\ (k', p) ∈ nodes (Node q nc nb c0 c1)).
  { intros t' Ht' k' p. rewrite Ht', nodes_in. split; [intros [b Hin] | naive_solver].
    split; [|by eauto]. intros ->. by apply Hnot in Hin. }
  rewrite remove_root. eexists. split; [reflexivity|].
  destruct (decide (c0 = Nil)) as [->|H0]; [|destruct (decide (c1 = Nil)) as [->|H1]].
  - split; [exact (Hext true)|]. apply Hdrop. intros k' p. split; [by exists true|].
    intros [[|] Hin]; [done | by apply not_elem_of_nil in Hin].
  - replace (match c0 with Nil => Nil | _ => c0 end) with c0 by (by destruct c0).
    split; [exact (Hext false)|]. apply Hdrop. intros k' p. split; [by exists false|].
    intros [[|] Hin]; [by apply not_elem_of_nil in Hin | done].
  - replace (match c0 with Nil => c1 | _ => _ end) with (Node None nc nb c0 c1)
      by (destruct c0, c1; done).
    split; [|apply Hdrop; intros k' p; rewrite nodes_in; intuition congruence].
    destruct Hwf as (? & ? & ? & ? & _ & ? & ?). cbn. tauto.
Qed.

Lemma drops_at pre t path q nc nb c0 c1 :
  wf n pre t -> subtrie_at t path = Some (Node q nc nb c0 c1) ->
  exists t', remove_node t path = Some t' /\ drops pre t (key nc nb) t' /\ (path <> [] -> t' <> Nil).
Proof.
  revert pre t. induction path as [|b path IH]; intros pre t Hwf Hs.
  { injection Hs as ->. destruct (drops_root _ _ _ _ _ _ Hwf) as (t' & ? & ?). by exists t'. }
  destruct t as [|q' nc' nb' d0 d1]; [done|]. rewrite subtrie_at_cons in Hs.
  pose proof (wf_child _ _ _ _ _ _ b Hwf) as Hwb.
  destruct (IH _ _ Hwb Hs) as (c & Hrc & Hdc & Hne).
  assert (Hk : key nc' nb' ++ [b] `prefix_of` key nc nb) by (by eapply subtrie_prefix).
  destruct path as [|x path].
  - injection Hs as Hch. rewrite (remove_below _ _ _ _ _ _ c); [|by rewrite Hch|done].
    eexists. split; [reflexivity|].
    destruct (decide (c = Nil /\ q' = None)) as [[-> ->]|Hkeep].
    + destruct (drops_splice _ _ _ _ _ _ _ Hwf Hk Hdc). auto.
    + replace (match c with Nil => _ | _ => _ end) with (set_child (Node q' nc' nb' d0 d1) b c)
        by (destruct c, q'; naive_solver).
      split; [apply drops_child; naive_solver | by destruct b].
  - rewrite remove_node_step, Hrc by done. eexists. split_and!; [reflexivity | |by destruct b].
    apply drops_child; auto.
Qed.

(** ** Lemmas: lookup *)

(** [r] is the peer of the longest entry of [t] that matches, or [found]. *)
Definition best (t : trie) (bs : list bool) (found r : option P) : Prop :=
  (r = found /\ forall k p, (k, p) ∈ nodes t -> ~ k `prefix_of` bs) \/
  exists k p, r = Some p /\ (k, p) ∈ nodes t /\ k `prefix_of` bs /\
    forall k' p', (k', p') ∈ nodes t -> k' `prefix_of` bs -> (length k' <= length k)%nat.

Section Best.
Context (pre : list bool) (q : option P) (nc : Z) (nb : list Z) (c0 c1 : trie) (bs : list bool).
Let node := Node q nc nb c0 c1.
Context (Hwf : wf n pre node).

Lemma best_stop found : ~ key nc nb `prefix_of` bs -> best node bs found found.
Proof.
  intros Hno. left. split; [done|]. intros k p Hin Hk. apply Hno.
  etrans; [|exact Hk]. eapply (nodes_prefix (key nc nb)); [by eapply wf_reroot | exact Hin].
Qed.

(** When only one child can match, the walk goes on there with this node's peer. *)
Lemma best_child (b : bool) found r :
  key nc nb `prefix_of` bs ->
  (forall k p, (k, p) ∈ nodes (if b then c0 else c1) -> ~ k `prefix_of` bs) ->
  best (if b then c1 else c0) bs (match q with Some _ => q | None => found end) r ->
  best node bs found r.
Proof.
  intros Hroot Hoff Hbest.
  assert (Hcases : forall k p, (k, p) ∈ nodes node -> k `prefix_of` bs ->
    (q = Some p /\ k = key nc nb) \/ (k, p) ∈ nodes (if b then c1 else c0)).
  { intros k p Hin Hk. apply (nodes_in_split _ _ _ _ _ _ _ b) in Hin as [?|[?|Hin]]; auto.
    by apply Hoff in Hin. }
  assert (Hsub : forall k p, (k, p) ∈ nodes (if b then c1 else c0) -> (k, p) ∈ nodes node /\ (length (key nc nb) <= length k)%nat).
  { intros k p Hin. split; [apply (nodes_in_split _ _ _ _ _ _ _ b); auto|].
    apply prefix_length, (prefix_app_l _ _ [b]). eapply nodes_prefix; [|exact Hin]. by eapply wf_child. }
  destruct Hbest as [[-> Hnone]|(k & p & -> & Hin & Hk & Hmax)].
  - destruct q as [p|] eqn:Hq; [right | left].
    + exists (key nc nb), p. split_and!; [done | by apply nodes_in; left | done |].
      intros k' p' Hin' Hk'. destruct (Hcases _ _ Hin' Hk') as [[_ ->]|Hc]; [done|]. by apply Hnone in Hc.
    + split; [done|]. intros k p Hin Hk. destruct (Hcases _ _ Hin Hk) as [[? _]|Hc]; [done|]. by apply Hnone in Hc.
  - right. exists k, p. destruct (Hsub _ _ Hin). split_and!; try done.
    intros k' p' Hin' Hk'. destruct (Hcases _ _ Hin' Hk') as [[_ ->]|Hc]; eauto.
Qed.

End Best.

Lemma lookup_ip_best pre t ip found :
  wf n pre t -> ip_ok n ip -> exists r, lookup_ip t ip found = Some r /\ best t (bits_of ip) found r.
Proof.
  intros Hwf Hip. revert pre found Hwf.
  induction t as [|q nc nb c0 IH0 c1 IH1]; intros pre found Hwf; cbn [lookup_ip].
  { exists found. split; [done|]. left. split; [done|]. by intros k p ?%not_elem_of_nil. }
  pose proof Hwf as (Hnb & Hnc & _).
  destruct (common_prefix nc nb ip Hnb Hip Hnc) as (common & -> & Hge).
  cbn [mbind option_bind]. rewrite Hge. case_bool_decide as Hp; [|eexists; split; [done | by eapply best_stop]].
  replace (u8 (Z.of_nat (length ip))) with (Z.of_nat n)
    by (destruct Hip as [-> _]; destruct Hn as [-> | ->]; done).
  unfold bitAtByte. destruct (Z.eqb_spec (nc / 8) (Z.of_nat n)) as [He|Hne].
  - eexists. split; [done|].
    assert (Hlong : forall (b : bool) k p, (k, p) ∈ nodes (if b then c1 else c0) -> ~ k `prefix_of` bits_of ip).
    { intros b k p Hin Hk%prefix_length. apply (nodes_prefix (key nc nb ++ [b])) in Hin; [|by eapply wf_child].
      apply prefix_length in Hin. rewrite length_app, key_length in Hin by done. destruct Hip as [Hl _].
      rewrite bits_of_length in Hk. cbn in Hin. pose proof (Z.mul_div_le nc 8). lia. }
    apply (best_child pre _ _ _ _ _ _ Hwf true); [done | apply (Hlong false) |].
    left. split; [done | apply (Hlong true)].
  - assert (nc <> 8 * Z.of_nat n) by (intros ->; rewrite Z.mul_comm, Z.div_mul in Hne; lia).
    destruct (choose_next nc ip Hip ltac:(lia)) as (b & Hb & Hk).
    rewrite Hb. cbn [mbind option_bind].
    pose proof (wf_child _ _ _ _ _ _ b Hwf) as Hwb.
    assert (exists r, lookup_ip (if b then c1 else c0) ip (match q with Some _ => q | None => found end) = Some r /\
      best (if b then c1 else c0) (bits_of ip) (match q with Some _ => q | None => found end) r)
      as (r & Hr & Hbest) by (destruct b; eauto).
    exists r. split; [done|]. apply (best_child pre _ _ _ _ _ _ Hwf b); [done | | done].
    intros k p Hin Hk'.
    pose proof (key_descend pre q nc nb c0 c1 ip (nc + 1) Hwf Hip ltac:(lia) b ltac:(lia) Hp Hb) as Hkb.
    pose proof (wf_child _ _ _ _ _ _ (negb b) Hwf) as Hwo. rewrite if_negb in Hwo.
    pose proof (nodes_prefix _ _ _ _ Hwo Hin) as Hko.
    enough (b = negb b) by (by destruct b). eapply (prefix_snoc_inj _ (bits_of ip)).
    + etrans; [exact Hkb | apply prefix_take].
    + by etrans.
Qed.

Lemma subtrie_peer pre t path q nc nb c0 c1 p :
  wf n pre t -> subtrie_at t path = Some (Node q nc nb c0 c1) ->
  q = Some p <-> (key nc nb, p) ∈ nodes t.
Proof.
  revert pre t. induction path as [|b path IH]; intros pre t Hwf Hs.
  - injection Hs as ->. rewrite nodes_in. split; [by left|].
    intros [[? _]|[b Hin]]; [done|]. by apply nodes_child_key with (pre := pre) (peer := q) in Hin.
  - destruct t as [|q' nc' nb' d0 d1]; [done|]. rewrite subtrie_at_cons in Hs.
    pose proof (wf_child _ _ _ _ _ _ b Hwf) as Hwb.
    destruct (off_path _ _ _ _ _ _ b (key nc nb) p Hwf) as [Hr Ho]; [by eapply subtrie_prefix|].
    rewrite (IH _ _ Hwb Hs), (nodes_in_split _ _ _ _ _ _ _ b). tauto.
Qed.

Lemma subtrie_wf pre t path t' : wf n pre t -> subtrie_at t path = Some t' -> exists pre', wf n pre' t'.
Proof.
  revert pre t. induction path as [|b path IH]; intros pre t Hwf Hs.
  - injection Hs as ->. by exists pre.
  - destruct t as [|q nc nb c0 c1]; [done|]. eapply IH, Hs. by eapply wf_child.
Qed.

Lemma nodes_ref pre t k p :
  wf n pre t -> (k, p) ∈ nodes t ->
  exists cidr bits, k = key cidr bits /\ ip_ok n bits /\ 0 <= cidr <= 8 * Z.of_nat n /\ maskSelf cidr bits = bits.
Proof.
  revert pre. induction t as [|q nc nb c0 IH0 c1 IH1]; intros pre Hwf Hin; [by apply not_elem_of_nil in Hin|].
  apply nodes_in in Hin as [[_ ->]|[b Hin]].
  - exists nc, nb. destruct Hwf as (? & ? & ? & _). done.
  - pose proof (wf_child _ _ _ _ _ _ b Hwf). destruct b; eauto.
Qed.

End Family.

(** ** Lemmas: the table *)

Lemma fam_len_ok is6 : family_len (fam_len is6).
Proof. destruct is6; [by right | by left]. Qed.

Lemma ref_key_inj r1 r2 : ref_ok r1 -> ref_ok r2 -> ref_key r1 = ref_key r2 -> r1 = r2.
Proof.
  destruct r1 as [[f1 b1] c1], r2 as [[f2 b2] c2]. intros (H1 & Hc1 & Hm1) (H2 & Hc2 & Hm2) He.
  cbn in He. injection He as -> Hk.
  assert (c1 = c2) as ->.
  { apply (f_equal length) in Hk. rewrite !(key_length (fam_len f2)) in Hk by done. lia. }
  by rewrite <- Hm1, <- Hm2, (masked_inj (fam_len f2) c2 b1 b2).
Qed.

Lemma elem_remove_ref r x l : NoDup l -> x ∈ remove_ref r l <-> x <> r /\ x ∈ l.
Proof.
  induction 1 as [|y l Hy Hl IH]; cbn [remove_ref]; [rewrite elem_of_nil; tauto|].
  destruct (decide (y = r)) as [->|Hne]; rewrite ?elem_of_cons, ?IH; [|naive_solver].
  split; [|naive_solver]. intros Hx. split; [|by right]. by intros ->.
Qed.

Lemma nodup_remove_ref r l : NoDup l -> NoDup (remove_ref r l).
Proof.
  induction 1 as [|y l Hy Hl IH]; cbn [remove_ref]; [constructor|].
  destruct (decide (y = r)); [done|]. constructor; [|done]. rewrite elem_remove_ref by done. tauto.
Qed.

Lemma entries_remove es old r p :
  entries_of (removeFromPeerEntries es old r) p =
  if decide (old = Some p) then remove_ref r (entries_of es p) else entries_of es p.
Proof.
  unfold entries_of, removeFromPeerEntries. destruct old as [q|]; [|by rewrite decide_False].
  destruct (decide (q = p)) as [->|Hne].
  - by rewrite lookup_insert_eq, decide_True.
  - by rewrite lookup_insert_ne, decide_False by congruence.
Qed.

Lemma entries_add es q r p :
  entries_of (addToPeerEntries es q r) p =
  if decide (q = p) then entries_of es p ++ [r] else entries_of es p.
Proof.
  unfold addToPeerEntries. unfold entries_of at 1. destruct (decide (q = p)) as [->|Hne].
  - by rewrite lookup_insert_eq.
  - by rewrite lookup_insert_ne.
Qed.

Lemma entries_inv_delete es m old r :
  entries_inv es m -> ref_ok r -> (forall p, old = Some p <-> m !! ref_key r = Some p) ->
  entries_inv (removeFromPeerEntries es old r) (delete (ref_key r) m).
Proof.
  intros Hes Hr Hold p. destruct (Hes p) as [Hnd Hin]. rewrite entries_remove. specialize (Hold p).
  assert (Hd : forall x, ref_ok x -> x <> r -> ref_key r <> ref_key x).
  { intros x Hx Hne He. by apply Hne, ref_key_inj. }
  destruct (decide (old = Some p)) as [Ho|Ho].
  - split; [by apply nodup_remove_ref|]. intros x. rewrite elem_remove_ref, Hin by done.
    destruct (decide (x = r)) as [->|Hne]; [rewrite lookup_delete_eq; intuition congruence|].
    split; [intros (_ & Hx & Hl) | intros [Hx Hl]]; rewrite lookup_delete_ne in * by auto; auto.
  - split; [done|]. intros x. rewrite Hin. destruct (decide (x = r)) as [->|Hne].
    + rewrite lookup_delete_eq. intuition congruence.
    + split; intros [Hx Hl]; rewrite lookup_delete_ne in * by auto; auto.
Qed.

Lemma entries_inv_insert es m r peer :
  entries_inv es m -> ref_ok r -> m !! ref_key r = None ->
  entries_inv (addToPeerEntries es peer r) (<[ref_key r := peer]> m).
Proof.
  intros Hes Hr Hnone p. destruct (Hes p) as [Hnd Hin]. rewrite entries_add.
  assert (Hfresh : r ∉ entries_of es p) by (rewrite Hin; intuition congruence).
  assert (Hd : forall x, ref_ok x -> x <> r -> ref_key r <> ref_key x).
  { intros x Hx Hne He. by apply Hne, ref_key_inj. }
  assert (Hother : forall x, x <> r -> (ref_ok x /\ <[ref_key r := peer]> m !! ref_key x = Some p <-> x ∈ entries_of es p)).
  { intros x Hne. rewrite Hin. split; intros [Hx Hl]; rewrite lookup_insert_ne in * by auto; auto. }
  destruct (decide (peer = p)) as [->|Hne].
  - split; [apply list.NoDup_app; split_and!; [done | | apply NoDup_singleton]|].
    { intros x Hx ->%list_elem_of_singleton. done. }
    intros x. rewrite elem_of_app, list_elem_of_singleton.
    destruct (decide (x = r)) as [->|Hx]; [rewrite lookup_insert_eq; tauto | rewrite Hother by done; tauto].
  - split; [done|]. intros x. destruct (decide (x = r)) as [->|Hx]; [|by rewrite Hother].
    rewrite lookup_insert_eq. intuition congruence.
Qed.

Lemma tries_inv_set tb m is6 t es m' :
  tries_inv tb m -> wf (fam_len is6) [] t ->
  (forall k p, (k, p) ∈ nodes t <-> m' !! (is6, k) = Some p) ->
  (forall k, m' !! (negb is6, k) = m !! (negb is6, k)) ->
  tries_inv (set_family tb is6 t es) m'.
Proof.
  intros Htb Hwf Hnodes Hsame f. destruct (decide (f = is6)) as [->|Hne].
  - by destruct is6.
  - assert (f = negb is6) as -> by (by destruct f, is6).
    replace (family_trie (set_family tb is6 t es) (negb is6)) with (family_trie tb (negb is6)) by (by destruct is6).
    destruct (Htb (negb is6)) as [Hwo Hno]. split; [done|]. intros k p. by rewrite Hno, Hsame.
Qed.

Lemma insert_family_refines tb m is6 ip cidr peer :
  refines tb m -> ip_ok (fam_len is6) ip -> 0 <= cidr <= 8 * Z.of_nat (fam_len is6) ->
  exists tb', insert_family tb is6 ip cidr peer = Some tb' /\ refines tb' (<[(is6, key cidr ip) := peer]> m).
Proof.
  intros [Htb Hes] Hip Hc. destruct (Htb is6) as [Hwf Hnodes].
  destruct (insert_node_spec _ (fam_len_ok is6) [] _ ip cidr peer Hwf Hip Hc (prefix_nil _))
    as (t & old & Hins & _ & Hwt & Hold & Hin).
  unfold insert_family. rewrite Hins. cbn [mbind option_bind]. eexists. split; [reflexivity|].
  set (r := (is6, maskSelf cidr ip, cidr)).
  assert (Hr : ref_ok r).
  { split_and!; [apply (maskSelf_ok (fam_len is6)); [done | lia] | lia | lia | by apply (maskSelf_idem (fam_len is6))]. }
  assert (Hk : ref_key r = (is6, key cidr ip)).
  { cbn. by rewrite (key_maskSelf (fam_len is6)) by (done || lia). }
  split.
  - eapply tries_inv_set; [exact Htb | exact Hwt | |].
    + intros k p. rewrite Hin, Hnodes. destruct (decide (k = key cidr ip)) as [->|Hne].
      * rewrite lookup_insert_eq. intuition congruence.
      * rewrite lookup_insert_ne by congruence. tauto.
    + intros k. apply lookup_insert_ne. by destruct is6.
  - replace (trieEntries _) with (addToPeerEntries (removeFromPeerEntries (trieEntries tb) old r) peer r)
      by (by destruct is6).
    rewrite <- Hk, <- insert_delete_eq.
    apply entries_inv_insert; [|done|apply lookup_delete_eq].
    apply entries_inv_delete; [done..|]. intros p. by rewrite Hold, Hnodes, Hk.
Qed.

Lemma remove_family_refines tb m is6 path q cidr bits c0 c1 :
  refines tb m -> subtrie_at (family_trie tb is6) path = Some (Node q cidr bits c0 c1) ->
  exists tb', remove_family tb is6 path = Some tb' /\ refines tb' (delete (is6, key cidr bits) m).
Proof.
  intros [Htb Hes] Hs. destruct (Htb is6) as [Hwf Hnodes].
  destruct (drops_at _ _ _ _ _ _ _ _ _ Hwf Hs) as (t & Hrem & [Hwt Hin] & _).
  unfold remove_family. rewrite Hs. cbn [mbind option_bind]. rewrite Hrem. cbn [mbind option_bind].
  eexists. split; [reflexivity|]. split.
  - eapply tries_inv_set; [exact Htb | exact Hwt | |].
    + intros k p. rewrite Hin, Hnodes. destruct (decide (k = key cidr bits)) as [->|Hne].
      * rewrite lookup_delete_eq. intuition congruence.
      * rewrite lookup_delete_ne by congruence. tauto.
    + intros k. apply lookup_delete_ne. by destruct is6.
  - replace (trieEntries _) with (removeFromPeerEntries (trieEntries tb) q (is6, bits, cidr)) by (by destruct is6).
    destruct (subtrie_wf _ _ _ _ _ Hwf Hs) as (pre & Hb & Hc & Hm & _).
    apply (entries_inv_delete _ _ _ (is6, bits, cidr)); [done | done |].
    intros p. rewrite (subtrie_peer _ _ _ _ _ _ _ _ _ p Hwf Hs), Hnodes. done.
Qed.

Lemma prefix_u8 pfx : prefix_ok pfx -> u8 (pfxBits pfx) = pfxBits pfx.
Proof. intros [_ Hb]. apply u8_small. unfold is_u. destruct (addr_is6 _); cbn in Hb; lia. Qed.

Lemma insertLocked_refines tb m pfx peer :
  refines tb m -> prefix_ok pfx ->
  exists tb', insertLocked tb pfx peer = Some tb' /\ refines tb' (spec_insert m pfx peer).
Proof.
  intros Htb Hok. pose proof (prefix_u8 _ Hok) as Hu. destruct pfx as [[|b|b] c], Hok as [Ha Hc]; [done| |];
    unfold insertLocked; cbn [pfxAddr pfxBits] in *; rewrite Hu.
  - exact (insert_family_refines _ _ false b c peer Htb Ha Hc).
  - exact (insert_family_refines _ _ true b c peer Htb Ha Hc).
Qed.

Lemma Remove_family_refines tb m is6 ip cidr peer :
  refines tb m -> ip_ok (fam_len is6) ip -> 0 <= cidr <= 8 * Z.of_nat (fam_len is6) ->
  exists tb', Remove_family tb is6 ip cidr peer = Some tb' /\
    refines tb' (if decide (m !! (is6, key cidr ip) = Some peer) then delete (is6, key cidr ip) m else m).
Proof.
  intros Hr Hip Hc. pose proof Hr as [Htb _]. destruct (Htb is6) as [Hwf Hnodes].
  destruct (placement_spec _ (fam_len_ok is6) [] _ ip cidr Hwf Hip Hc) as (place & exact & Hpl & Hex).
  unfold Remove_family. rewrite Hpl. cbn [mbind option_bind]. destruct exact.
  - destruct Hex as (path & q & bits & c0 & c1 & -> & Hs & Hk). rewrite Hs. cbn [mbind option_bind].
    pose proof (fun p => subtrie_peer _ _ _ _ _ _ _ _ _ p Hwf Hs) as Hq.
    setoid_rewrite Hnodes in Hq. setoid_rewrite Hk in Hq.
    destruct q as [p|].
    + destruct (decide (peer = p)) as [->|Hne].
      * rewrite decide_True by (by apply Hq). rewrite <- Hk. by eapply remove_family_refines.
      * exists tb. rewrite decide_False; [done|]. rewrite <- Hq. congruence.
    + exists tb. rewrite decide_False; [done|]. rewrite <- Hq. done.
  - exists tb. rewrite decide_False; [done|]. rewrite <- Hnodes. apply Hex.
Qed.

Lemma Remove_refines tb m pfx peer :
  refines tb m -> prefix_ok pfx ->
  exists tb', Remove tb pfx peer = Some tb' /\ refines tb' (spec_op m (OpRemove pfx peer)).
Proof.
  intros Htb Hok. pose proof (prefix_u8 _ Hok) as Hu. destruct pfx as [[|b|b] c], Hok as [Ha Hc]; [done| |];
    unfold Remove; cbn [pfxAddr pfxBits] in *; rewrite Hu.
  - exact (Remove_family_refines _ _ false b c peer Htb Ha Hc).
  - exact (Remove_family_refines _ _ true b c peer Htb Ha Hc).
Qed.

(** The loop removes exactly the prefixes the references stand for. *)
Lemma remove_refs_refines tb m refs p :
  refines tb m -> NoDup refs -> Forall (fun r => ref_ok r /\ m !! ref_key r = Some p) refs ->
  exists tb', remove_refs tb refs = Some tb' /\ refines tb' (foldl (fun m r => delete (ref_key r) m) m refs).
Proof.
  intros Hr Hnd. revert tb m Hr. induction Hnd as [|r refs Hnew Hnd IH]; intros tb m Hr Hall; [by exists tb|].
  apply Forall_cons_iff in Hall as [[Hok Hm] Hall]. destruct r as [[is6 bits] cidr].
  pose proof Hr as [Htb _]. destruct (Htb is6) as [Hwf Hnodes]. pose proof Hok as (Hip & Hc & _).
  destruct (placement_spec _ (fam_len_ok is6) [] _ bits cidr Hwf Hip Hc) as (place & exact & Hpl & Hex).
  cbn [remove_refs foldl]. rewrite Hpl. cbn [mbind option_bind]. cbn [ref_key] in Hm. destruct exact.
  2: { exfalso. apply (Hex p), Hnodes, Hm. }
  destruct Hex as (path & q & bits' & c0 & c1 & -> & Hs & Hk).
  destruct (remove_family_refines _ _ _ _ _ _ _ _ _ Hr Hs) as (tb' & -> & Hr'). cbn [mbind option_bind].
  rewrite Hk in Hr'. apply IH; [done|]. rewrite list.Forall_forall in *. intros r Hin.
  destruct (Hall r Hin) as [Hrok Hrm]. split; [done|]. rewrite lookup_delete_ne; [done|].
  intros He. apply Hnew. by rewrite (ref_key_inj (is6, bits, cidr) r).
Qed.

Lemma foldl_delete_lookup (refs : list entryRef) (m : pmap) k p :
  foldl (fun m r => delete (ref_key r) m) m refs !! k = Some p <-> m !! k = Some p /\ k ∉ ref_key <$> refs.
Proof.
  revert m. induction refs as [|r refs IH]; intros m; cbn [foldl]; rewrite ?fmap_cons; [rewrite elem_of_nil; tauto|].
  rewrite IH, lookup_delete_Some, not_elem_of_cons. intuition congruence.
Qed.

Lemma purge_refs tb m p :
  refines tb m ->
  foldl (fun m r => delete (ref_key r) m) m (entries_of (trieEntries tb) p) = spec_purge m p.
Proof.
  intros [Htb Hes]. apply map_eq. intros [is6 k]. apply option_eq. intros q.
  rewrite foldl_delete_lookup. unfold spec_purge. rewrite map_lookup_filter_Some. cbn.
  destruct (Hes p) as [_ Hin]. split; intros [Hm Hx]; (split; [done|]).
  - intros ->. apply Hx. destruct (Htb is6) as [Hwf Hnodes].
    destruct (nodes_ref _ _ _ k p Hwf) as (cidr & bits & -> & Hok); [by apply Hnodes|].
    apply (list_elem_of_fmap_2 ref_key _ (is6, bits, cidr)), Hin. done.
  - intros Hk. apply list_elem_of_fmap_1 in Hk as (r & Hk & Hr). apply Hin in Hr as [_ Hr].
    rewrite <- Hk in Hr. congruence.
Qed.

Lemma RemoveByPeer_refines tb m p :
  refines tb m -> exists tb', RemoveByPeer tb p = Some tb' /\ refines tb' (spec_purge m p).
Proof.
  intros Hr. pose proof Hr as [_ Hes]. destruct (Hes p) as [Hnd Hin].
  rewrite <- (purge_refs tb) by done. apply (remove_refs_refines _ _ _ p Hr Hnd).
  apply list.Forall_forall. intros r. apply Hin.
Qed.

Lemma insert_all_refines tb m pfxs peer :
  refines tb m -> Forall prefix_ok pfxs ->
  exists tb', insert_all tb pfxs peer = Some tb' /\
    refines tb' (foldl (fun m pfx => spec_insert m pfx peer) m pfxs).
Proof.
  revert tb m. induction pfxs as [|pfx pfxs IH]; intros tb m Hr Hok; [by exists tb|].
  apply Forall_cons_iff in Hok as [Hp Hok]. cbn [insert_all foldl].
  destruct (insertLocked_refines _ _ _ peer Hr Hp) as (tb' & -> & Hr'). cbn [mbind option_bind]. by apply IH.
Qed.

Lemma op_refines tb m o :
  refines tb m -> op_ok o -> exists tb', apply_op tb o = Some tb' /\ refines tb' (spec_op m o).
Proof.
  intros Hr Ho. destruct o as [pfx peer|pfx peer|peer|peer pfxs]; cbn [apply_op spec_op op_ok] in *.
  - by apply insertLocked_refines.
  - by apply Remove_refines.
  - by apply RemoveByPeer_refines.
  - unfold setPeerPrefixes. destruct (RemoveByPeer_refines tb m peer Hr) as (tb' & Hrm & Hr').
    unfold RemoveByPeer in Hrm. rewrite Hrm. cbn [mbind option_bind]. by apply insert_all_refines.
Qed.

Lemma run_refines tb m ops :
  refines tb m -> Forall op_ok ops -> exists tb', run tb ops = Some tb' /\ refines tb' (foldl spec_op m ops).
Proof.
  revert tb m. induction ops as [|o ops IH]; intros tb m Hr Hok; [by exists tb|].
  apply Forall_cons_iff in Hok as [Ho Hok]. cbn [run foldl].
  destruct (op_refines _ _ _ Hr Ho) as (tb' & -> & Hr'). cbn [mbind option_bind]. by apply IH.
Qed.

Lemma empty_refines : refines empty_table ∅.
Proof.
  split.
  - intros is6. split; [by destruct is6|]. intros k p. rewrite lookup_empty.
    replace (family_trie empty_table is6) with Nil by (by destruct is6). cbn. by rewrite elem_of_nil.
  - intros p. cbn. unfold entries_of. rewrite lookup_empty. split; [constructor|].
    intros r. rewrite lookup_empty, elem_of_nil. intuition congruence.
Qed.

(** ** Lemmas: lookups against the prefix map *)

Lemma lookup4_ip pre t ip found : wf 4 pre t -> ip_ok 4 ip -> lookup4 t ip found = lookup_ip t ip found.
Proof.
  intros Hwf [Hl Hu]. revert pre found Hwf.
  induction t as [|q nc nb c0 IH0 c1 IH1]; intros pre found Hwf; [done|]. cbn [lookup4 lookup_ip].
  pose proof Hwf as ((Hnb & _) & _). rewrite commonBits4_eq, Hl by done. change (u8 (Z.of_nat 4)) with 4.
  destruct (commonBits4 nb ip); [|done]. cbn [mbind option_bind].
  destruct (_ >=? _); [|done]. destruct (_ =? 4); [done|].
  destruct (choose nc ip) as [b|]; [|done]. cbn [mbind option_bind].
  pose proof (wf_child _ _ _ _ _ _ _ b Hwf). destruct b; eauto.
Qed.

Lemma lookup6_ip pre t ip found : wf 16 pre t -> ip_ok 16 ip -> lookup6 t ip found = lookup_ip t ip found.
Proof.
  intros Hwf [Hl Hu]. revert pre found Hwf.
  induction t as [|q nc nb c0 IH0 c1 IH1]; intros pre found Hwf; [done|]. cbn [lookup6 lookup_ip].
  pose proof Hwf as ((Hnb & _) & _). rewrite commonBits6_eq, Hl by done. change (u8 (Z.of_nat 16)) with 16.
  destruct (commonBits6 nb ip); [|done]. cbn [mbind option_bind].
  destruct (_ >=? _); [|done]. destruct (_ =? 16); [done|].
  destruct (choose nc ip) as [b|]; [|done]. cbn [mbind option_bind].
  pose proof (wf_child _ _ _ _ _ _ _ b Hwf). destruct b; eauto.
Qed.

Lemma lpm_cases (m : pmap) is6 n bs :
  match lpm m is6 n bs with
  | Some p => exists j, (j <= n)%nat /\ m !! (is6, take j bs) = Some p /\
                forall i, (j < i <= n)%nat -> m !! (is6, take i bs) = None
  | None => forall j, (j <= n)%nat -> m !! (is6, take j bs) = None
  end.
Proof.
  induction n as [|n IH]; cbn [lpm]; destruct (m !! (is6, take _ bs)) as [p|] eqn:Hm.
  - exists 0%nat. split_and!; [done | done | lia].
  - intros j Hj. by replace j with 0%nat by lia.
  - exists (S n). split_and!; [lia | done | lia].
  - destruct (lpm m is6 n bs) as [p|].
    + destruct IH as (j & Hj & Hp & Hmax). exists j. split_and!; [lia | done |].
      intros i Hi. destruct (decide (i = S n)) as [->|]; [done | apply Hmax; lia].
    + intros j Hj. destruct (decide (j = S n)) as [->|]; [done | apply IH; lia].
Qed.

Lemma best_lpm (t : trie) (m : pmap) is6 bs r :
  (forall k p, (k, p) ∈ nodes t <-> m !! (is6, k) = Some p) ->
  best t bs None r -> r = lpm m is6 (length bs) bs.
Proof.
  intros Hnodes Hbest. pose proof (lpm_cases m is6 (length bs) bs) as Hl.
  assert (Htake : forall k, k `prefix_of` bs -> k = take (length k) bs /\ (length k <= length bs)%nat).
  { intros k [l ->]. rewrite take_app_length, length_app. split; [done | lia]. }
  destruct (lpm _ _ _ _) as [p|]; destruct Hbest as [[-> Hnone]|(k & q & -> & Hin & Hk & Hmax)].
  - destruct Hl as (j & _ & Hm & _). exfalso. eapply Hnone; [by apply Hnodes | apply prefix_take].
  - destruct Hl as (j & Hj & Hm & Hlong). apply Hnodes in Hin. apply Hnodes in Hm as Hp.
    destruct (Htake _ Hk) as [He Hle]. pose proof (Hmax _ _ Hp (prefix_take _ _)) as Hlen.
    rewrite length_take, Nat.min_l in Hlen by lia. rewrite He in Hin.
    destruct (decide (length k = j)) as [Hj'|Hne]; [rewrite Hj' in Hin; congruence|].
    rewrite Hlong in Hin by lia. done.
  - done.
  - destruct (Htake _ Hk) as [He Hle]. apply Hnodes in Hin. rewrite He, Hl in Hin by done. done.
Qed.

Lemma lookup_addr_lpm tb m a :
  tries_inv tb m -> addr_ok a -> lookup_addr tb a = Some (spec_lookup m a).
Proof.
  intros Htb Ha.
  assert (Hgen : forall is6 ip, ip_ok (fam_len is6) ip ->
    lookup_ip (family_trie tb is6) ip None = Some (lpm m is6 (8 * fam_len is6) (bits_of ip))).
  { intros is6 ip Hip. destruct (Htb is6) as [Hwf Hnodes].
    destruct (lookup_ip_best _ (fam_len_ok is6) [] _ ip None Hwf Hip) as (r & -> & Hbest).
    apply (best_lpm _ m is6) in Hbest; [|done]. rewrite Hbest, bits_of_length. by destruct Hip as [-> _]. }
  unfold lookup_addr, spec_lookup. destruct a as [|b|b]; [done| |]; cbn [addr_is6 addr_bytes addr_ok] in *.
  - rewrite (lookup4_ip []); [apply (Hgen false), Ha | apply (Htb false) | done].
  - rewrite (lookup6_ip []); [apply (Hgen true), Ha | apply (Htb true) | done].
Qed.

Lemma ref_prefix_spec pfx es m p :
  entries_inv es m ->
  pfx ∈ map ref_prefix (entries_of es p) <->
  (prefix_ok pfx /\ maskSelf (pfxBits pfx) (addr_bytes (pfxAddr pfx)) = addr_bytes (pfxAddr pfx)) /\
  m !! prefix_key pfx = Some p.
Proof.
  intros Hes. destruct (Hes p) as [_ Hin]. rewrite list_elem_of_fmap. split.
  - intros ([[is6 bits] cidr] & -> & Hr). apply Hin in Hr as [(Hip & Hc & Hm) Hk]. by destruct is6.
  - intros [[[Ha Hc] Hm] Hk]. exists (addr_is6 (pfxAddr pfx), addr_bytes (pfxAddr pfx), pfxBits pfx).
    destruct pfx as [[|b|b] c]; [done| |]; (split; [done|]; apply Hin; by split_and!).
Qed.

Lemma ref_prefix_inj r1 r2 : ref_prefix r1 = ref_prefix r2 -> r1 = r2.
Proof. destruct r1 as [[[|] b1] c1], r2 as [[[|] b2] c2]; cbn; congruence. Qed.

(** ** Properties *)

(** C5.  Whatever sequence of [Insert], [Remove], [RemoveByPeer] and
    [setPeerPrefixes] has been applied, on both families and with any
    overlapping prefixes, no operation panics, and routing a packet to its
    destination address gives the peer of the longest prefix that contains it
    in the plain prefix-to-peer map the operations describe; the source check
    of a received packet accepts exactly that peer. *)
Theorem allowed_ips_longest_prefix_match {K} (LookupPeer : K -> option P) ops :
  Forall op_ok ops ->
  exists tb, run empty_table ops = Some tb /\
    forall a, addr_ok a ->
      (forall src pkt, LookupFromPacket None LookupPeer tb src a pkt =
         Some (spec_lookup (foldl spec_op ∅ ops) a)) /\
      (forall peer, AllowedPeerSourceIP None tb peer a =
         Some (bool_decide (spec_lookup (foldl spec_op ∅ ops) a = Some peer))).
Proof.
  intros Hok. destruct (run_refines _ _ _ empty_refines Hok) as (tb & Hrun & [Htb _]).
  exists tb. split; [done|]. intros a Ha. pose proof (lookup_addr_lpm _ _ _ Htb Ha) as Hl. split.
  - intros src pkt. exact Hl.
  - intros peer. destruct a as [|b|b]; [done| |]; cbn [lookup_addr AllowedPeerSourceIP] in *; by rewrite Hl.
Qed.

(** After any such sequence the list the configuration protocol reports
    for a peer holds, without duplicates, exactly the prefixes the map assigns
    to that peer, in masked form: taking a prefix over from another peer,
    replacing a peer's prefixes and removing a peer never leave a stale or
    missing entry behind. *)
Theorem peer_entries_exact ops :
  Forall op_ok ops ->
  exists tb, run empty_table ops = Some tb /\
    forall peer, NoDup (EntriesForPeer tb peer) /\
      forall pfx, pfx ∈ EntriesForPeer tb peer <->
        (prefix_ok pfx /\ maskSelf (pfxBits pfx) (addr_bytes (pfxAddr pfx)) = addr_bytes (pfxAddr pfx)) /\
        foldl spec_op ∅ ops !! prefix_key pfx = Some peer.
Proof.
  intros Hok. destruct (run_refines _ _ _ empty_refines Hok) as (tb & Hrun & [_ Hes]).
  exists tb. split; [done|]. intros peer. split.
  - apply (NoDup_fmap_2_strong ref_prefix); [|apply Hes]. intros. by apply ref_prefix_inj.
  - intros pfx. by apply ref_prefix_spec.
Qed.

End Table.

(** ** Testing an address against a list of prefixes *)

(** [netip.Addr.As16]: an IPv4 address is mapped, the zero address is zero. *)
Definition As16 (a : addr) : list Z :=
  match a with
  | AddrInvalid => repeat 0 16
  | Addr4 b => repeat 0 10 ++ [255; 255] ++ b
  | Addr6 b => b
  end.

(** The returned function is a Rocq function; the placeholder peer is [tt]. *)
Definition mkIPInCIDRsTestFunc (cidrs : list prefix) : option (addr -> option bool) :=
  match cidrs with
  | [] => Some (fun _ => Some false)
  | [c] => Some (fun a => Some (Contains c a))
  | _ =>
      if decide (length cidrs <= 4)%nat then Some (fun a => Some (existsb (fun c => Contains c a) cidrs))
      else
        tb ← insert_all empty_table cidrs tt;
        Some (fun a =>
          r ← match a with
              | Addr4 b => lookup4 (ipv4 tb) b None
              | _ => lookup6 (ipv6 tb) (As16 a) None
              end;
          Some (bool_decide (r = Some tt)))
  end.

Lemma spec_insert_all_lookup (cidrs : list prefix) (m : gmap (bool * list bool) unit) k :
  foldl (fun m pfx => spec_insert m pfx tt) m cidrs !! k = Some tt <->
  k ∈ prefix_key <$> cidrs \/ m !! k = Some tt.
Proof.
  revert m. induction cidrs as [|c cidrs IH]; intros m; cbn [foldl]; [rewrite elem_of_nil; tauto|].
  rewrite IH, fmap_cons, elem_of_cons. unfold spec_insert. destruct (decide (k = prefix_key c)) as [->|Hne].
  - rewrite lookup_insert_eq. tauto.
  - rewrite lookup_insert_ne by done. tauto.
Qed.

Lemma Contains_key c a :
  prefix_ok c -> addr_ok a ->
  Contains c a = true <-> prefix_key c = (addr_is6 a, key (pfxBits c) (addr_bytes a)).
Proof.
  intros [Hc Hb] Ha. unfold Contains, prefix_key.
  destruct c as [[|b|b] n]; [done| |]; cbn [pfxAddr pfxBits addr_is6 addr_bytes fam_len] in *;
    rewrite (proj2 (Z.leb_le 0 n)), (proj2 (Z.leb_le n _)) by lia;
    (destruct a as [|ip|ip]; [done| |]); cbn [addr_is6 addr_bytes andb]; try (split; congruence);
    rewrite bool_decide_eq_true; split; [by intros -> | by intros [= Hk] | by intros -> | by intros [= Hk]].
Qed.

Lemma addr_ok_bytes a : addr_ok a -> ip_ok (fam_len (addr_is6 a)) (addr_bytes a).
Proof. by destruct a. Qed.

Lemma trie_test_spec cidrs a :
  Forall prefix_ok cidrs -> addr_ok a ->
  bool_decide (spec_lookup (foldl (fun m pfx => spec_insert m pfx tt) ∅ cidrs) a = Some tt) =
  existsb (fun c => Contains c a) cidrs.
Proof.
  intros Hok Ha. apply eq_bool_prop_intro. rewrite bool_decide_spec, Is_true_true, existsb_exists.
  unfold spec_lookup. set (m := foldl _ _ _). set (bs := bits_of _).
  pose proof (lpm_cases m (addr_is6 a) (8 * fam_len (addr_is6 a)) bs) as Hl. split.
  - intros He. rewrite He in Hl. destruct Hl as (j & _ & Hm & _).
    apply spec_insert_all_lookup in Hm as [Hm|?]; [|done].
    apply list_elem_of_fmap_1 in Hm as (c & Hk & Hc). exists c. rewrite <- list_elem_of_In. split; [done|].
    assert (Hcok : prefix_ok c) by (by eapply list.Forall_forall).
    apply Contains_key; [done | done |]. rewrite <- Hk. f_equal. unfold prefix_key in Hk. injection Hk as _ Hk.
    pose proof (prefix_take bs j) as Hp. apply prefix_is_key in Hp. rewrite Hp. f_equal.
    rewrite Hk, (key_length _ _ _ (addr_ok_bytes _ (proj1 Hcok)) (proj2 Hcok)).
    destruct Hcok. lia.
  - intros (c & Hc & Hk). rewrite <- list_elem_of_In in Hc.
    assert (Hcok : prefix_ok c) by (by eapply list.Forall_forall).
    apply Contains_key in Hk; [|done|done].
    destruct (lpm _ _ _ _) as [[]|]; [done|]. exfalso.
    assert (Hm : m !! prefix_key c = Some tt).
    { apply spec_insert_all_lookup. left. by apply list_elem_of_fmap_2. }
    rewrite Hk in Hm. unfold key in Hm. rewrite Hl in Hm; [done|].
    unfold prefix_key in Hk. injection Hk as <- _. destruct Hcok. lia.
Qed.

(** The function built for a list of prefixes accepts a valid address
    exactly when one of the prefixes contains it, whether it was built as a
    constant, a single test, a linear search or a trie. *)
Theorem mkIPInCIDRsTestFunc_correct cidrs :
  Forall prefix_ok cidrs ->
  exists f, mkIPInCIDRsTestFunc cidrs = Some f /\
    forall a, addr_ok a -> f a = Some (existsb (fun c => Contains c a) cidrs).
Proof.
  intros Hok. unfold mkIPInCIDRsTestFunc.
  destruct cidrs as [|c1 [|c2 cidrs]]; [by eexists | eexists; split; [done|]; intros; cbn; by rewrite orb_false_r |].
  destruct (decide _) as [_|_]; [by eexists|].
  destruct (insert_all_refines empty_table ∅ _ tt empty_refines Hok) as (tb & -> & [Htb _]).
  cbn [mbind option_bind]. eexists. split; [reflexivity|]. intros a Ha. rewrite <- trie_test_spec by done.
  pose proof (lookup_addr_lpm _ _ _ Htb Ha) as Hl. destruct a as [|b|b]; [done| |]; cbn [lookup_addr As16] in *;
    by rewrite Hl.
Qed.

(** ** Decidability, for evaluation *)

#[export] Instance addr_eq_dec : EqDecision addr.
Proof. solve_decision. Defined.

#[export] Instance prefix_eq_dec : EqDecision prefix.
Proof. solve_decision. Defined.

#[export] Instance ip_ok_dec n ip : Decision (ip_ok n ip).
Proof. unfold ip_ok. apply _. Defined.

#[export] Instance addr_ok_dec a : Decision (addr_ok a).
Proof. destruct a; cbn; apply _. Defined.

#[export] Instance prefix_ok_dec pfx : Decision (prefix_ok pfx).
Proof. unfold prefix_ok. apply _. Defined.

#[export] Instance op_ok_dec (o : op (P := nat)) : Decision (op_ok o).
Proof. destruct o; cbn; apply _. Defined.

(** ** Witnesses *)

Definition ex_pfx4 (a b c d n : Z) : prefix := mkPrefix (Addr4 [a; b; c; d]) n.
Definition ex_v6 (hi lo : Z) : list Z := [32; 1; 13; 184; hi] ++ repeat 0 10 ++ [lo].

Definition ex_ops : list (op (P := nat)) :=
  [OpInsert (ex_pfx4 10 0 0 0 8) 1%nat; OpInsert (ex_pfx4 10 1 2 3 16) 2%nat;
   OpInsert (ex_pfx4 10 1 128 0 17) 3%nat; OpInsert (ex_pfx4 0 0 0 0 0) 4%nat;
   OpInsert (mkPrefix (Addr6 (ex_v6 7 1)) 48) 5%nat; OpRemove (ex_pfx4 10 1 9 9 16) 2%nat;
   OpSetPeerPrefixes 3%nat [ex_pfx4 10 1 255 255 32]; OpRemoveByPeer 4%nat].

Lemma ex_ops_ok : Forall op_ok ex_ops.
Proof. by_eval. Qed.

Lemma allowed_ips_longest_prefix_match_witness :
  exists tb, run empty_table ex_ops = Some tb /\
    LookupFromPacket None (fun k : nat => Some k) tb AddrInvalid (Addr4 [10; 1; 2; 3]) [] = Some (Some 1%nat).
Proof.
  destruct (allowed_ips_longest_prefix_match (fun k : nat => Some k) ex_ops) as (tb & Hr & Hl).
  - exact ex_ops_ok.
  - exists tb. split; [exact Hr|].
    refine (eq_trans (proj1 (Hl (Addr4 [10; 1; 2; 3]) _) AddrInvalid []) _); [by_eval | by vm_compute].
Defined.

Lemma peer_entries_exact_witness :
  exists tb, run empty_table ex_ops = Some tb /\ ex_pfx4 10 1 255 255 32 ∈ EntriesForPeer tb 3%nat.
Proof.
  destruct (peer_entries_exact ex_ops) as (tb & Hr & Hl).
  - exact ex_ops_ok.
  - exists tb. split; [exact Hr|]. apply (proj2 (Hl 3%nat)). split; [split|]; by_eval.
Defined.

Definition ex_cidrs : list prefix :=
  [ex_pfx4 10 0 0 0 8; ex_pfx4 172 16 0 0 12; ex_pfx4 192 168 0 0 16; ex_pfx4 127 0 0 0 8;
   mkPrefix (Addr6 (ex_v6 0 0)) 32].

Lemma mkIPInCIDRsTestFunc_correct_witness :
  exists f, mkIPInCIDRsTestFunc ex_cidrs = Some f /\ f (Addr4 [172; 31; 9; 9]) = Some true.
Proof.
  destruct (mkIPInCIDRsTestFunc_correct ex_cidrs) as (f & Hf & Hl).
  - by_eval.
  - exists f. split; [exact Hf|]. refine (eq_trans (Hl (Addr4 [172; 31; 9; 9]) _) _); by_eval.
Defined.

End AllowedIPs.
