(* ===== verification/GoStrings.v ===== *)
(** * Go strings: the functions of [strings], [strconv] and [encoding/hex] in use

    A Go string is a sequence of bytes, here a list of [Z] like every byte slice
    of the development.  Single-byte separators are the only ones the sources
    use. *)

From S2P Require Import Prelude Bits.
From Stdlib Require Import Ascii.

Local Open Scope Z_scope.

(** A string literal. *)
Definition str (s : string) : list Z :=
  map (fun a => Z.of_N (N_of_ascii a)) (String.list_ascii_of_string s).

(** ** [strings] *)

Fixpoint IndexByte (s : list Z) (c : Z) : option nat :=
  match s with
  | [] => None
  | b :: s' => if b =? c then Some 0%nat else S <$> IndexByte s' c
  end.

(** [strings.Split] with a separator of one byte. *)
Fixpoint Split (s : list Z) (c : Z) : list (list Z) :=
  match s with
  | [] => [[]]
  | b :: s' =>
      if b =? c then [] :: Split s' c
      else match Split s' c with
           | p :: ps => (b :: p) :: ps
           | [] => [[b]]
           end
  end.

(** [strings.Cut] with a separator of one byte. *)
Definition Cut (s : list Z) (c : Z) : list Z * list Z * bool :=
  match IndexByte s c with
  | Some i => (take i s, drop (S i) s, true)
  | None => (s, [], false)
  end.

Definition HasPrefix (s p : list Z) : bool := bool_decide (take (length p) s = p).
Definition TrimPrefix (s p : list Z) : list Z := if HasPrefix s p then drop (length p) s else s.

Fixpoint Join (ps : list (list Z)) (sep : list Z) : list Z :=
  match ps with
  | [] => []
  | [p] => p
  | p :: ps' => p ++ sep ++ Join ps' sep
  end.

(** Length of the white space character ([unicode.IsSpace]) in UTF-8 at the head
    of the string, 0 when there is none there. *)
Definition space_len (s : list Z) : nat :=
  match s with
  | b :: s' =>
      if (b =? 32) || ((9 <=? b) && (b <=? 13)) then 1%nat
      else match s' with
      | c :: s'' =>
          if (b =? 194) && ((c =? 133) || (c =? 160)) then 2%nat
          else match s'' with
          | d :: _ =>
              if ((b =? 225) && (c =? 154) && (d =? 128))
                 || ((b =? 226) && (c =? 128) && (((128 <=? d) && (d <=? 138)) || (d =? 168) || (d =? 169) || (d =? 175)))
                 || ((b =? 226) && (c =? 129) && (d =? 159))
                 || ((b =? 227) && (c =? 128) && (d =? 128))
              then 3%nat else 0%nat
          | [] => 0%nat
          end
      | [] => 0%nat
      end
  | [] => 0%nat
  end.

(** [strings.Fields]: [skip] bytes of a space are left to pass, [cur] is the
    field being read. *)
Definition flush (cur : list Z) : list (list Z) := match cur with [] => [] | _ => [cur] end.

Fixpoint fields_loop (s : list Z) (skip : nat) (cur : list Z) : list (list Z) :=
  match s with
  | [] => flush cur
  | b :: s' =>
      match skip with
      | S k => fields_loop s' k cur
      | O =>
          match space_len s with
          | O => fields_loop s' 0 (cur ++ [b])
          | S k => flush cur ++ fields_loop s' k []
          end
      end
  end.

Definition Fields (s : list Z) : list (list Z) := fields_loop s 0 [].

(** [strings.TrimSpace]: white space is dropped from the front, then from the
    back, where the characters are read backwards. *)
Fixpoint trim_front (s : list Z) (skip : nat) : list Z :=
  match s with
  | [] => []
  | _ :: s' =>
      match skip with
      | S k => trim_front s' k
      | O => match space_len s with O => s | S k => trim_front s' k end
      end
  end.

Definition space_len_back (r : list Z) : nat :=
  match r with
  | b :: r' =>
      if (b =? 32) || ((9 <=? b) && (b <=? 13)) then 1%nat
      else if bool_decide (space_len (rev (take 2 r)) = 2%nat) then 2%nat
      else if bool_decide (space_len (rev (take 3 r)) = 3%nat) then 3%nat
      else 0%nat
  | [] => 0%nat
  end.

Fixpoint trim_back (r : list Z) (skip : nat) : list Z :=
  match r with
  | [] => []
  | _ :: r' =>
      match skip with
      | S k => trim_back r' k
      | O => match space_len_back r with O => r | S k => trim_back r' k end
      end
  end.

Definition TrimSpace (s : list Z) : list Z := rev (trim_back (rev (trim_front s 0)) 0).

Definition TrimSuffix (s suffix : list Z) : list Z :=
  if bool_decide (drop (length s - length suffix) s = suffix) then take (length s - length suffix) s else s.

(** [strings.ToLower], of which only ASCII results matter: besides the letters A to
    Z, U+0130 becomes i and U+212A becomes k; every other character keeps its bytes
    here, none of which is ASCII. *)
Fixpoint ToLower (s : list Z) : list Z :=
  match s with
  | [] => []
  | 196 :: 176 :: s' => 105 :: ToLower s'
  | 226 :: 132 :: 170 :: s' => 107 :: ToLower s'
  | b :: s' => (if (65 <=? b) && (b <=? 90) then b + 32 else b) :: ToLower s'
  end.

(** ** [strconv] *)

Definition is_digit (b : Z) : bool := (48 <=? b) && (b <=? 57).

Definition dec_step (acc b : Z) : Z := 10 * acc + (b - 48).

(** [ParseUint s 10 bits] *)
Definition ParseUint (s : list Z) (bits : Z) : option Z :=
  match s with
  | [] => None
  | _ =>
      if forallb is_digit s then
        let v := foldl dec_step 0 s in
        if v <? 2 ^ bits then Some v else None
      else None
  end.

(** [ParseInt s 10 bits], and [Atoi] on a 64-bit platform. *)
Definition ParseInt (s : list Z) (bits : Z) : option Z :=
  let '(neg, digits) :=
    match s with
    | b :: s' => if b =? 45 then (true, s') else if b =? 43 then (false, s') else (false, s)
    | [] => (false, s)
    end in
  u ← ParseUint digits 64;
  if neg : bool then (if u <=? 2 ^ (bits - 1) then Some (- u) else None)
  else (if u <? 2 ^ (bits - 1) then Some u else None).

Definition Atoi (s : list Z) : option Z := ParseInt s 64.

(** [FormatUint n 10], which [%d] also prints; [fuel] bounds the digits. *)
Fixpoint dec_digits (fuel : nat) (n : Z) : list Z :=
  match fuel with
  | O => []
  | S fuel => if n <? 10 then [48 + n] else dec_digits fuel (n / 10) ++ [48 + n mod 10]
  end.

Definition FormatUint (n : Z) : list Z := dec_digits (S (Z.to_nat (Z.log2 n))) n.

Definition FormatInt (n : Z) : list Z := if n <? 0 then 45 :: FormatUint (- n) else FormatUint n.

(** ** [encoding/hex] *)

Definition hex_val (b : Z) : option Z :=
  if (48 <=? b) && (b <=? 57) then Some (b - 48)
  else if (97 <=? b) && (b <=? 102) then Some (b - 97 + 10)
  else if (65 <=? b) && (b <=? 70) then Some (b - 65 + 10)
  else None.

Fixpoint hex_DecodeString (s : list Z) : option (list Z) :=
  match s with
  | [] => Some []
  | h :: l :: s' =>
      a ← hex_val h; b ← hex_val l; r ← hex_DecodeString s';
      Some (Z.lor (Z.shiftl a 4) b :: r)
  | [_] => None
  end.

Definition hex_digit (n : Z) : Z := if n <? 10 then 48 + n else 97 + (n - 10).

Definition hex_EncodeToString (s : list Z) : list Z :=
  flat_map (fun b => [hex_digit (Z.shiftr b 4); hex_digit (Z.land b 15)]) s.

(** ** [encoding/base64] *)

Definition b64_val (b : Z) : option Z :=
  if (65 <=? b) && (b <=? 90) then Some (b - 65)
  else if (97 <=? b) && (b <=? 122) then Some (b - 71)
  else if is_digit b then Some (b + 4)
  else if b =? 43 then Some 62
  else if b =? 47 then Some 63
  else None.

(** Groups of four characters; the last may be padded. *)
Fixpoint b64_quanta (s : list Z) : option (list Z) :=
  match s with
  | [] => Some []
  | a :: b :: c :: d :: s' =>
      x ← b64_val a;
      y ← b64_val b;
      let first := u8 (Z.lor (Z.shiftl x 2) (Z.shiftr y 4)) in
      if c =? 61 then (if (d =? 61) && bool_decide (s' = []) then Some [first] else None)
      else
        z ← b64_val c;
        let second := u8 (Z.lor (Z.shiftl y 4) (Z.shiftr z 2)) in
        if d =? 61 then (if bool_decide (s' = []) then Some [first; second] else None)
        else
          w ← b64_val d;
          rest ← b64_quanta s';
          Some (first :: second :: u8 (Z.lor (Z.shiftl z 6) w) :: rest)
  | _ => None
  end.

(** [base64.StdEncoding.DecodeString], which skips line breaks. *)
Definition base64_DecodeString (s : list Z) : option (list Z) :=
  b64_quanta (filter (fun b => negb ((b =? 10) || (b =? 13))) s).

(** ** Lemmas *)

Lemma IndexByte_Some s c i :
  IndexByte s c = Some i -> s = take i s ++ c :: drop (S i) s /\ c ∉ take i s.
Proof.
  revert i. induction s as [|b s IH]; intros i; [done|]. cbn [IndexByte].
  destruct (Z.eqb_spec b c) as [->|Hne]; [intros [= <-]; cbn; split; [done | apply not_elem_of_nil]|].
  destruct (IndexByte s c) as [j|]; [|done]. intros [= <-]. cbn [take drop app].
  destruct (IH j eq_refl) as [He Hn]. split; [by f_equal|]. rewrite not_elem_of_cons. by split.
Qed.

Lemma IndexByte_app s r c : c ∉ s -> IndexByte (s ++ c :: r) c = Some (length s).
Proof.
  induction s as [|b s IH]; cbn [app IndexByte length]; [by rewrite Z.eqb_refl|].
  rewrite not_elem_of_cons. intros [Hb Hs]. rewrite (proj2 (Z.eqb_neq b c)), IH by done. done.
Qed.

Lemma IndexByte_None s c : IndexByte s c = None <-> c ∉ s.
Proof.
  induction s as [|b s IH]; cbn [IndexByte]; [split; [intros _; apply not_elem_of_nil | done]|].
  rewrite not_elem_of_cons, <- IH. destruct (Z.eqb_spec b c); [naive_solver|].
  destruct (IndexByte s c); naive_solver.
Qed.

Lemma Cut_true s c key value : Cut s c = (key, value, true) -> s = key ++ c :: value.
Proof.
  unfold Cut. destruct (IndexByte s c) as [i|] eqn:H; [|done]. intros [= <- <-]. by apply IndexByte_Some in H as [E _].
Qed.

Lemma Cut_app key value c : c ∉ key -> Cut (key ++ c :: value) c = (key, value, true).
Proof.
  intros H. unfold Cut. rewrite IndexByte_app by done. rewrite take_app_length.
  by replace (S (length key)) with (length (key ++ [c])) by (rewrite length_app; cbn; lia);
    rewrite (cons_middle c key value), app_assoc, drop_app_length.
Qed.

Lemma Split_none s c : c ∉ s -> Split s c = [s].
Proof.
  induction s as [|b s IH]; [done|]. rewrite not_elem_of_cons. intros [Hb Hs]. cbn [Split].
  rewrite (proj2 (Z.eqb_neq b c)), IH by done. done.
Qed.

Lemma Split_app s1 s2 c : c ∉ s1 -> Split (s1 ++ c :: s2) c = s1 :: Split s2 c.
Proof.
  induction s1 as [|b s IH]; cbn [Split app]; [by rewrite Z.eqb_refl|].
  rewrite not_elem_of_cons. intros [Hb Hs]. rewrite (proj2 (Z.eqb_neq b c)), IH by done. done.
Qed.

Lemma Split_not_nil s c : Split s c <> [].
Proof. destruct s as [|b s]; [done|]. cbn [Split]. destruct (b =? c); [done|]. by destruct (Split s c). Qed.

(** No part contains the separator, and joining the parts gives the string back. *)
Lemma Split_Join s c : Join (Split s c) [c] = s /\ Forall (fun p => c ∉ p) (Split s c).
Proof.
  induction s as [|b s [IHj IHf]]; cbn [Split]; [split; [done | repeat constructor; apply not_elem_of_nil]|].
  pose proof (Split_not_nil s c) as Hne. destruct (Split s c) as [|p ps]; [done|].
  destruct (Z.eqb_spec b c) as [->|Hb].
  - split; [cbn [Join app]; f_equal; exact IHj | constructor; [apply not_elem_of_nil | done]].
  - apply Forall_cons_iff in IHf as [Hp Hps].
    split; [|constructor; [rewrite not_elem_of_cons; by split | done]].
    rewrite <- IHj. by destruct ps.
Qed.

Lemma dec_digits_digit fuel n : 0 <= n -> Forall (fun b => is_digit b = true) (dec_digits fuel n).
Proof.
  revert n. induction fuel as [|fuel IH]; intros n Hn; cbn [dec_digits]; [constructor|].
  pose proof (Z.mod_pos_bound n 10). pose proof (Z.div_pos n 10).
  destruct (Z.ltb_spec n 10); [|apply Forall_app; split; [apply IH; lia|]];
    repeat constructor; unfold is_digit; rewrite andb_true_iff, !Z.leb_le; lia.
Qed.

Lemma dec_digits_value fuel n :
  0 <= n -> n < 2 ^ Z.of_nat fuel -> foldl dec_step 0 (dec_digits fuel n) = n.
Proof.
  revert n. induction fuel as [|fuel IH]; intros n Hn Hf; cbn [dec_digits]; [cbn in *; lia|].
  rewrite Nat2Z.inj_succ, Z.pow_succ_r in Hf by lia.
  destruct (Z.ltb_spec n 10); [cbn; unfold dec_step; lia|].
  rewrite foldl_app. pose proof (Z.div_mod n 10). pose proof (Z.mod_pos_bound n 10).
  rewrite IH by (try (apply Z.div_pos); try (apply Z.div_lt_upper_bound); lia).
  cbn [foldl]. unfold dec_step. lia.
Qed.

Lemma FormatUint_digit n : 0 <= n -> Forall (fun b => is_digit b = true) (FormatUint n).
Proof. apply dec_digits_digit. Qed.

Lemma FormatUint_not_nil n : FormatUint n <> [].
Proof. unfold FormatUint. cbn [dec_digits]. destruct (n <? 10); [done|]. by destruct (dec_digits _ _). Qed.

Lemma FormatUint_no_byte n c : 0 <= n -> is_digit c = false -> c ∉ FormatUint n.
Proof.
  intros Hn Hc Hin. pose proof (FormatUint_digit n Hn) as Hf. rewrite list.Forall_forall in Hf.
  specialize (Hf c Hin). congruence.
Qed.

(** What [FormatUint] prints, [ParseUint] reads back. *)
Lemma ParseUint_Format n bits : is_u bits n -> 0 <= bits -> ParseUint (FormatUint n) bits = Some n.
Proof.
  intros [Hn Hb] _. unfold ParseUint. pose proof (FormatUint_not_nil n) as Hne.
  pose proof (FormatUint_digit n Hn) as Hd.
  assert (Hv : foldl dec_step 0 (FormatUint n) = n).
  { apply dec_digits_value; [done|]. rewrite Nat2Z.inj_succ, Z2Nat.id by apply Z.log2_nonneg.
    destruct (decide (n = 0)) as [->|]; [done|]. apply Z.log2_spec. lia. }
  destruct (FormatUint n) as [|b l] eqn:He; [done|]. rewrite <- He in *.
  rewrite (proj2 (forallb_forall _ _)), Hv, (proj2 (Z.ltb_lt _ _)) by (done || by apply Forall_forall).
  done.
Qed.

Lemma ParseUint_range s bits n : ParseUint s bits = Some n -> is_u bits n.
Proof.
  unfold ParseUint. destruct s as [|b s]; [done|]. destruct (forallb is_digit (b :: s)) eqn:Hd; [|done].
  destruct (Z.ltb_spec (foldl dec_step 0 (b :: s)) (2 ^ bits)) as [Hlt|]; [|done]. intros [= <-].
  split; [|done]. assert (Hpos : forall l acc, 0 <= acc -> forallb is_digit l = true -> 0 <= foldl dec_step acc l).
  { induction l as [|x l IH]; intros acc Ha Hl; [done|]. cbn [forallb] in Hl. apply andb_true_iff in Hl as [Hx Hl].
    cbn [foldl]. apply IH; [|done]. unfold is_digit in Hx. unfold dec_step. lia. }
  apply (Hpos (b :: s) 0); [lia | exact Hd].
Qed.

Lemma Atoi_range s n : Atoi s = Some n -> - 2 ^ 63 <= n < 2 ^ 63.
Proof.
  unfold Atoi, ParseInt. destruct (match s with _ :: _ => _ | [] => _ end) as [neg digits].
  destruct (ParseUint digits 64) as [u|] eqn:Hu; [|done]. apply ParseUint_range in Hu. unfold is_u in Hu. cbn [mbind option_bind].
  destruct neg; [destruct (Z.leb_spec u (2 ^ (64 - 1))) | destruct (Z.ltb_spec u (2 ^ (64 - 1)))]; intros [= <-]; lia.
Qed.

Lemma hex_byte b :
  is_u8 b -> hex_DecodeString [hex_digit (Z.shiftr b 4); hex_digit (Z.land b 15)] = Some [b].
Proof.
  intros Hb. apply (bool_decide_eq_true_1 _). revert b Hb.
  apply (byte_cases (fun b => bool_decide
    (hex_DecodeString [hex_digit (Z.shiftr b 4); hex_digit (Z.land b 15)] = Some [b]))).
  vm_compute. reflexivity.
Qed.

Lemma hex_roundtrip s : Forall is_u8 s -> hex_DecodeString (hex_EncodeToString s) = Some s.
Proof.
  induction s as [|b s IH]; intros Hs; [done|]. apply Forall_cons_iff in Hs as [Hb Hs].
  pose proof (hex_byte b Hb) as Hx. unfold hex_EncodeToString. cbn [flat_map app]. fold (hex_EncodeToString s).
  cbn [hex_DecodeString] in *.
  destruct (hex_val (hex_digit (Z.shiftr b 4))); [|done]. destruct (hex_val (hex_digit (Z.land b 15))); [|done].
  rewrite IH by done. cbn [mbind option_bind] in *. congruence.
Qed.

Lemma hex_val_range b v : hex_val b = Some v -> 0 <= v < 16.
Proof.
  unfold hex_val. repeat (match goal with |- context [if ?c then _ else _] => destruct c eqn:? end);
    rewrite ?andb_true_iff, ?Z.leb_le in *; intros [= <-]; lia.
Qed.

Lemma hex_pair_u8 a b : 0 <= a < 16 -> 0 <= b < 16 -> is_u8 (Z.lor (Z.shiftl a 4) b).
Proof.
  intros Ha Hb. apply is_u_lor; [lia| |unfold is_u; lia]. unfold is_u. rewrite Z.shiftl_mul_pow2 by lia. lia.
Qed.

Lemma hex_Decode_spec s r :
  hex_DecodeString s = Some r -> Forall is_u8 r /\ length s = (2 * length r)%nat.
Proof.
  revert s. induction r as [|x r IH]; intros [|h [|l s]]; cbn [hex_DecodeString]; try done;
    destruct (hex_val h) as [a|] eqn:Ha; try done; destruct (hex_val l) as [b|] eqn:Hb; try done; red_bind;
    destruct (hex_DecodeString s) as [r'|] eqn:Hr; try done; red_bind.
  intros [= <- <-]. destruct (IH _ Hr) as [Hu Hl]. split; [|cbn; lia].
  constructor; [|done]. apply hex_pair_u8; by eapply hex_val_range.
Qed.

Lemma hex_Encode_length s : length (hex_EncodeToString s) = (2 * length s)%nat.
Proof. induction s as [|b s IH]; [done|]. unfold hex_EncodeToString in *. cbn [flat_map app length]. rewrite IH. lia. Qed.

(** Printable ASCII other than the space. *)
Definition graphic (b : Z) : bool := (33 <=? b) && (b <=? 126).

Lemma space_len_graphic b s : graphic b = true -> space_len (b :: s) = 0%nat.
Proof.
  unfold graphic. rewrite andb_true_iff, !Z.leb_le. intros Hb. unfold space_len.
  rewrite (proj2 (Z.eqb_neq b 32)), (proj2 (Z.leb_gt b 13)), andb_false_r by lia. cbn [orb].
  rewrite (proj2 (Z.eqb_neq b 194)), (proj2 (Z.eqb_neq b 225)), (proj2 (Z.eqb_neq b 226)),
    (proj2 (Z.eqb_neq b 227)) by lia. cbn [andb orb]. by destruct s as [|c [|d s]].
Qed.

Lemma fields_graphic w rest cur :
  forallb graphic w = true -> fields_loop (w ++ rest) 0 cur = fields_loop rest 0 (cur ++ w).
Proof.
  revert cur. induction w as [|b w IH]; intros cur Hw; [by rewrite app_nil_r|].
  cbn [forallb] in Hw. apply andb_true_iff in Hw as [Hb Hw]. cbn [app fields_loop].
  rewrite space_len_graphic by done. rewrite IH by done. by rewrite <- app_assoc.
Qed.

Lemma Fields_one w : forallb graphic w = true -> w <> [] -> Fields w = [w].
Proof.
  intros Hw Hne. unfold Fields. rewrite <- (app_nil_r w) at 1. rewrite fields_graphic by done. by destruct w.
Qed.

Lemma Fields_two v w :
  forallb graphic v = true -> forallb graphic w = true -> v <> [] -> w <> [] -> Fields (v ++ 32 :: w) = [v; w].
Proof.
  intros Hv Hw Hv0 Hw0. unfold Fields. rewrite fields_graphic by done. cbn [app fields_loop].
  change (space_len (32 :: w)) with 1%nat. cbn [fields_loop].
  destruct v as [|b v]; [done|]. cbn [app flush]. f_equal. fold (Fields w). by apply Fields_one.
Qed.

Lemma digits_graphic s : Forall (fun b => is_digit b = true) s -> forallb graphic s = true.
Proof.
  intros Hs. apply forallb_forall. intros b Hb. rewrite Forall_forall in Hs. specialize (Hs b Hb).
  unfold is_digit in Hs. unfold graphic. rewrite andb_true_iff, !Z.leb_le in *. lia.
Qed.

Lemma hex_digit_range n : 0 <= n < 16 -> 48 <= hex_digit n <= 57 \/ 97 <= hex_digit n <= 102.
Proof. intros Hn. unfold hex_digit. destruct (Z.ltb_spec n 10); lia. Qed.

Lemma hex_Encode_range s :
  Forall is_u8 s -> Forall (fun b => 48 <= b <= 57 \/ 97 <= b <= 102) (hex_EncodeToString s).
Proof.
  induction s as [|b s IH]; intros Hs; [constructor|]. apply Forall_cons_iff in Hs as [Hb Hs].
  unfold hex_EncodeToString. cbn [flat_map app]. unfold is_u in Hb.
  apply Forall_cons_iff. split; [|apply Forall_cons_iff; split; [|by apply IH]]; apply hex_digit_range.
  - rewrite Z.shiftr_div_pow2 by lia. split; [apply Z.div_pos | apply Z.div_lt_upper_bound]; lia.
  - pose proof (Z.land_ones b 4 ltac:(lia)) as Hl. change (Z.ones 4) with 15 in Hl. rewrite Hl.
    apply Z.mod_pos_bound. lia.
Qed.

Lemma hex_Encode_graphic s : Forall is_u8 s -> forallb graphic (hex_EncodeToString s) = true.
Proof.
  intros Hs. apply hex_Encode_range in Hs. apply forallb_forall. intros b Hb. rewrite Forall_forall in Hs.
  specialize (Hs b Hb). unfold graphic. rewrite andb_true_iff, !Z.leb_le. lia.
Qed.

Lemma Atoi_Format n : 0 <= n < 2 ^ 63 -> Atoi (FormatUint n) = Some n.
Proof.
  intros Hn. unfold Atoi, ParseInt. pose proof (FormatUint_digit n ltac:(lia)) as Hd.
  pose proof (FormatUint_not_nil n) as Hne.
  destruct (FormatUint n) as [|b l] eqn:He; [done|]. apply Forall_cons_iff in Hd as [Hb _].
  unfold is_digit in Hb. rewrite andb_true_iff, !Z.leb_le in Hb.
  rewrite (proj2 (Z.eqb_neq b 45)), (proj2 (Z.eqb_neq b 43)) by lia. rewrite <- He.
  rewrite ParseUint_Format by (unfold is_u; lia). red_bind. by rewrite (proj2 (Z.ltb_lt _ _)) by lia.
Qed.

Lemma hex_Encode_no_byte s c : Forall is_u8 s -> ~ (48 <= c <= 57 \/ 97 <= c <= 102) -> c ∉ hex_EncodeToString s.
Proof.
  intros Hs Hc Hin. apply hex_Encode_range in Hs. rewrite list.Forall_forall in Hs. by apply Hc, Hs.
Qed.
