(* ===== verification/GoNetip.v ===== *)
(** * Addresses and prefixes as text

    What the configuration protocol uses of Go's net/netip: [ParseAddr],
    [ParsePrefix] and the text forms of addresses and prefixes. *)

From S2P Require Import Prelude Bits Bytes GoStrings AllowedIPs.

Module GoNetip.

Import AllowedIPs.

Local Open Scope Z_scope.

Definition dot : Z := 46.
Definition colon : Z := 58.
Definition percent : Z := 37.
Definition slash : Z := 47.

(** ** Parsing *)

(** [prev]: the character before, [fields]: the octets so far. *)
Fixpoint v4_loop (s : list Z) (prev : option Z) (val digLen : Z) (fields : list Z) : option (list Z) :=
  match s with
  | [] => if (length fields <? 3)%nat then None else Some (fields ++ [val])
  | c :: s' =>
      if is_digit c then
        if (digLen =? 1) && (val =? 0) then None
        else
          let val := val * 10 + (c - 48) in
          if val >? 255 then None else v4_loop s' (Some c) val (digLen + 1) fields
      else if c =? dot then
        if bool_decide (prev = None) || bool_decide (s' = []) || bool_decide (prev = Some dot) then None
        else if (length fields =? 3)%nat then None
        else v4_loop s' (Some c) 0 0 (fields ++ [val])
      else None
  end.

Definition parseIPv4Fields (s : list Z) : option (list Z) := v4_loop s None 0 0 [].

(** The hexadecimal number at the start: its value and number of digits. *)
Fixpoint hex_group (s : list Z) (acc : Z) (off : nat) : option (Z * nat) :=
  match s with
  | [] => Some (acc, off)
  | c :: s' =>
      match hex_val c with
      | None => Some (acc, off)
      | Some v =>
          let acc := acc * 16 + v in
          if (3 <? off)%nat then None
          else if acc >? 65535 then None
          else hex_group s' acc (S off)
      end
  end.

(** The loop of [parseIPv6]: what is left, the bytes so far, the position of the
    ellipsis. *)
Fixpoint v6_loop (fuel : nat) (s ip : list Z) (ellipsis : option nat) : option (list Z * list Z * option nat) :=
  match fuel with
  | O => None
  | S fuel' =>
      if (16 <=? length ip)%nat then Some (s, ip, ellipsis)
      else
        '(acc, off) ← hex_group s 0 0;
        if (off =? 0)%nat then None
        else if bool_decide (s !! off = Some dot) then
          if bool_decide (ellipsis = None) && negb (length ip =? 12)%nat then None
          else if (16 <? length ip + 4)%nat then None
          else fields ← parseIPv4Fields s; Some ([], ip ++ fields, ellipsis)
        else
          let ip := ip ++ [acc / 256; acc mod 256] in
          match drop off s with
          | [] => Some ([], ip, ellipsis)
          | c :: s1 =>
              if negb (c =? colon) then None
              else
                match s1 with
                | [] => None
                | c1 :: s2 =>
                    if c1 =? colon then
                      match ellipsis with
                      | Some _ => None
                      | None =>
                          match s2 with
                          | [] => Some ([], ip, Some (length ip))
                          | _ => v6_loop fuel' s2 ip (Some (length ip))
                          end
                      end
                    else v6_loop fuel' s1 ip ellipsis
                end
          end
  end.

Definition v6_finish (s ip : list Z) (ellipsis : option nat) : option (list Z) :=
  match s with
  | _ :: _ => None
  | [] =>
      if (length ip <? 16)%nat then
        e ← ellipsis;
        Some (take e ip ++ repeat 0 (16 - length ip) ++ drop e ip)
      else match ellipsis with Some _ => None | None => Some ip end
  end.

(** The address and its zone. *)
Definition parseIPv6 (input : list Z) : option (list Z * list Z) :=
  let '(s, zone, found) := Cut input percent in
  if (found : bool) && bool_decide (zone = []) then None
  else
    let '(s, ellipsis) :=
      match s with
      | c :: c1 :: s' => if (c =? colon) && (c1 =? colon) then (s', Some O) else (s, None)
      | _ => (s, None)
      end in
    match ellipsis, s with
    | Some _, [] => Some (repeat 0 16, zone)
    | _, _ =>
        '(s, ip, ellipsis) ← v6_loop 9 s [] ellipsis;
        ip ← v6_finish s ip ellipsis;
        Some (ip, zone)
    end.

(** The first separator decides the family. *)
Fixpoint family (s : list Z) : option Z :=
  match s with
  | [] => None
  | c :: s' => if (c =? dot) || (c =? colon) || (c =? percent) then Some c else family s'
  end.

Definition ParseAddr (s : list Z) : option (addr * list Z) :=
  match family s with
  | Some c =>
      if c =? dot then ip ← parseIPv4Fields s; Some (Addr4 ip, [])
      else if c =? colon then '(ip, zone) ← parseIPv6 s; Some (Addr6 ip, zone)
      else None
  | None => None
  end.

(** The text before and after the last slash. *)
Fixpoint cut_last (s : list Z) : option (list Z * list Z) :=
  match s with
  | [] => None
  | c :: s' =>
      match cut_last s' with
      | Some (a, b) => Some (c :: a, b)
      | None => if c =? slash then Some ([], s') else None
      end
  end.

Definition maxBits (a : addr) : Z := match a with AddrInvalid => 0 | Addr4 _ => 32 | Addr6 _ => 128 end.

Definition ParsePrefix (s : list Z) : option prefix :=
  '(ip, bitsStr) ← cut_last s;
  '(ip, zone) ← ParseAddr ip;
  if negb (bool_decide (zone = [])) then None
  else if (1 <? length bitsStr)%nat && negb (match bitsStr with b :: _ => (49 <=? b) && (b <=? 57) | [] => false end) then None
  else
    bits ← Atoi bitsStr;
    if (bits <? 0) || (bits >? maxBits ip) then None else Some (mkPrefix ip bits).

(** ** Printing *)

Definition string4 (ip : list Z) : list Z := Join (map FormatUint ip) [dot].

(** [appendHex]: no leading zeros. *)
Definition appendHex (x : Z) : list Z :=
  let d i := hex_digit (x / 16 ^ i mod 16) in
  if x >=? 4096 then [d 3; d 2; d 1; d 0]
  else if x >=? 256 then [d 2; d 1; d 0]
  else if x >=? 16 then [d 1; d 0]
  else [d 0].

Fixpoint groups (ip : list Z) : list Z :=
  match ip with
  | a :: b :: ip' => 256 * a + b :: groups ip'
  | _ => []
  end.

Fixpoint zeros_at (gs : list Z) : nat :=
  match gs with
  | g :: gs' => if g =? 0 then S (zeros_at gs') else O
  | [] => O
  end.

(** The first of the longest runs of at least two zero groups: start and length. *)
Fixpoint zero_run (gs : list Z) (i : nat) (best : nat * nat) : nat * nat :=
  match gs with
  | [] => best
  | _ :: gs' =>
      let l := zeros_at gs in
      zero_run gs' (S i) (if (2 <=? l)%nat && (snd best <? l)%nat then (i, l) else best)
  end.

Definition string_groups (gs : list Z) : list Z := Join (map appendHex gs) [colon].

Definition string6 (ip : list Z) : list Z :=
  let gs := groups ip in
  let '(i, l) := zero_run gs 0 (O, O) in
  if (l =? 0)%nat then string_groups gs
  else string_groups (take i gs) ++ [colon; colon] ++ string_groups (drop (i + l) gs).

Definition Is4In6 (ip : list Z) : bool := bool_decide (take 12 ip = repeat 0 10 ++ [255; 255]).

Definition addr_String (a : addr) : list Z :=
  match a with
  | AddrInvalid => str "invalid IP"
  | Addr4 ip => string4 ip
  | Addr6 ip => if Is4In6 ip then str "::ffff:" ++ string4 (drop 12 ip) else string6 ip
  end.

Definition prefix_String (p : prefix) : list Z :=
  match pfxAddr p with
  | AddrInvalid => str "invalid Prefix"
  | a => addr_String a ++ [slash] ++ FormatInt (pfxBits p)
  end.

(** ** The text of a prefix parses back *)

(** The digits of an octet. *)
Definition octet (a : Z) : list Z :=
  if a <? 10 then [48 + a]
  else if a <? 100 then [48 + a / 10; 48 + a mod 10]
  else [48 + a / 100; 48 + a / 10 mod 10; 48 + a mod 10].

Lemma octet_Format a : is_u8 a -> FormatUint a = octet a.
Proof.
  intros Ha. apply (bool_decide_eq_true_1 _). revert a Ha.
  apply (byte_cases (fun a => bool_decide (FormatUint a = octet a))). vm_compute. reflexivity.
Qed.

(** Arithmetic with division. *)
Local Ltac zlia := Z.to_euclidean_division_equations; lia.

Lemma is_digit_add d : 0 <= d < 10 -> is_digit (48 + d) = true.
Proof. intros H. unfold is_digit. rewrite (proj2 (Z.leb_le _ _)), (proj2 (Z.leb_le _ _)) by lia. done. Qed.

(** One digit read. *)
Lemma v4_digit d s prev val digLen fields :
  0 <= d < 10 -> (digLen =? 1) && (val =? 0) = false -> val * 10 + d <= 255 ->
  v4_loop (48 + d :: s) prev val digLen fields = v4_loop s (Some (48 + d)) (val * 10 + d) (digLen + 1) fields.
Proof.
  intros Hd Hz Hv. cbn [v4_loop]. rewrite is_digit_add, Hz by done. replace (48 + d - 48) with d by lia.
  cbv zeta. destruct (Z.gtb_spec (val * 10 + d) 255); [lia | done].
Qed.

Lemma v4_octet a s prev fields :
  is_u8 a -> exists c n, c <> dot /\ v4_loop (FormatUint a ++ s) prev 0 0 fields = v4_loop s (Some c) a n fields.
Proof.
  intros Ha. rewrite octet_Format by done. unfold is_u in Ha. unfold octet.
  destruct (Z.ltb_spec a 10); [|destruct (Z.ltb_spec a 100)].
  - exists (48 + a), 1. split; [unfold dot; zlia|]. cbn [app]. rewrite v4_digit by (cbn; zlia || done). done.
  - assert (0 <= a / 10 < 10) by zlia. pose proof (Z.mod_pos_bound a 10).
    exists (48 + a mod 10), 2. split; [unfold dot; zlia|]. cbn [app]. rewrite v4_digit by (cbn; zlia || done).
    rewrite v4_digit; [f_equal; zlia | zlia | | zlia]. rewrite andb_false_iff. right. apply Z.eqb_neq. zlia.
  - assert (0 <= a / 100 < 3) by zlia. pose proof (Z.mod_pos_bound a 10). pose proof (Z.mod_pos_bound (a / 10) 10).
    assert (a / 10 / 10 = a / 100) by (rewrite Z.div_div; lia || done).
    exists (48 + a mod 10), 3. split; [unfold dot; zlia|]. cbn [app]. rewrite v4_digit by (cbn; zlia || done).
    rewrite v4_digit; [| zlia | | lia]; [|rewrite andb_false_iff; right; apply Z.eqb_neq; zlia].
    rewrite v4_digit; [f_equal; zlia | zlia | done | zlia].
Qed.

Lemma v4_dot s c val n fields :
  c <> dot -> s <> [] -> (length fields < 3)%nat ->
  v4_loop (dot :: s) (Some c) val n fields = v4_loop s (Some dot) 0 0 (fields ++ [val]).
Proof.
  intros Hc Hs Hl. cbn [v4_loop]. change (is_digit dot) with false. cbn [orb]. rewrite Z.eqb_refl.
  rewrite !bool_decide_false by congruence. cbn [orb]. destruct (Nat.eqb_spec (length fields) 3); [lia | done].
Qed.

Lemma string4_parses a b c d :
  is_u8 a -> is_u8 b -> is_u8 c -> is_u8 d -> parseIPv4Fields (string4 [a; b; c; d]) = Some [a; b; c; d].
Proof.
  intros Ha Hb Hc Hd. unfold parseIPv4Fields, string4. cbn [map Join app].
  assert (Hne : forall x (s : list Z), FormatUint x ++ s <> []) by (intros x s [H _]%app_nil; by apply FormatUint_not_nil in H).
  destruct (v4_octet a (dot :: FormatUint b ++ dot :: FormatUint c ++ dot :: FormatUint d) None [] Ha) as (x & n & Hx & ->).
  rewrite v4_dot; [|done | apply Hne | cbn; lia].
  destruct (v4_octet b (dot :: FormatUint c ++ dot :: FormatUint d) (Some dot) ([] ++ [a]) Hb) as (y & m & Hy & ->).
  rewrite v4_dot; [|done | apply Hne | cbn; lia].
  destruct (v4_octet c (dot :: FormatUint d) (Some dot) (([] ++ [a]) ++ [b]) Hc) as (z & k & Hz & ->).
  rewrite v4_dot; [|done | apply FormatUint_not_nil | cbn; lia].
  destruct (v4_octet d [] (Some dot) ((([] ++ [a]) ++ [b]) ++ [c]) Hd) as (w & l & _ & Hw).
  rewrite app_nil_r in Hw. by rewrite Hw.
Qed.

Lemma hex_val_digit d : 0 <= d < 16 -> hex_val (hex_digit d) = Some d.
Proof.
  intros H. assert (Hd : is_u8 d) by (unfold is_u; lia). apply (bool_decide_eq_true_1 _). 
  assert (Hall : forall d, is_u8 d -> negb (d <? 16) || bool_decide (hex_val (hex_digit d) = Some d) = true).
  { apply byte_cases. vm_compute. reflexivity. }
  specialize (Hall d Hd). rewrite (proj2 (Z.ltb_lt _ _)) in Hall by lia. done.
Qed.

(** One hexadecimal digit read. *)
Lemma hex_step d s acc off :
  0 <= d < 16 -> (off <= 3)%nat -> acc * 16 + d <= 65535 -> hex_group (hex_digit d :: s) acc off = hex_group s (acc * 16 + d) (S off).
Proof.
  intros Hd Ho Ha. cbn [hex_group]. rewrite hex_val_digit by done. cbv zeta.
  destruct (Nat.ltb_spec 3 off); [lia|]. destruct (Z.gtb_spec (acc * 16 + d) 65535); [lia | done].
Qed.

(** What may follow a group. *)
Definition ends_group (s : list Z) : Prop := match s with [] => True | c :: _ => c = colon end.

Lemma hex_group_end s acc off : ends_group s -> hex_group s acc off = Some (acc, off).
Proof. destruct s as [|c s]; [done|]. by intros ->. Qed.

Lemma appendHex_parses g s :
  is_u16 g -> ends_group s -> hex_group (appendHex g ++ s) 0 0 = Some (g, length (appendHex g)) /\ appendHex g <> [].
Proof.
  intros Hg Hs. unfold is_u in Hg. unfold appendHex. cbv zeta. change (16 ^ 0) with 1. change (16 ^ 1) with 16.
  change (16 ^ 2) with 256. change (16 ^ 3) with 4096. rewrite Z.div_1_r.
  assert (Hmod : forall x, 0 <= x mod 16 < 16) by (intros x; apply Z.mod_pos_bound; lia).
  repeat match goal with |- context [?x >=? ?y] => destruct (Z.geb_spec x y) end; cbn [app length]; (split; [|done]).
  all: repeat (rewrite hex_step; [| apply Hmod | lia | zlia]); rewrite hex_group_end by done; do 2 f_equal; zlia.
Qed.

Definition group_bytes (gs : list Z) : list Z := flat_map (fun g => [g / 256; g mod 256]) gs.

Lemma group_bytes_length gs : length (group_bytes gs) = (2 * length gs)%nat.
Proof. unfold group_bytes. induction gs; cbn; [done | rewrite IHgs; lia]. Qed.

(** The part of a turn of the loop behind the group that was read. *)
Definition v6_next (fuel : nat) (rest ip : list Z) (ellipsis : option nat) : option (list Z * list Z * option nat) :=
  match rest with
  | [] => Some ([], ip, ellipsis)
  | _ :: [] => None
  | _ :: (c1 :: s2) as s1 =>
      if c1 =? colon then
        match ellipsis with
        | Some _ => None
        | None => match s2 with [] => Some ([], ip, Some (length ip)) | _ => v6_loop fuel s2 ip (Some (length ip)) end
        end
      else v6_loop fuel (c1 :: s2) ip ellipsis
  end.

Lemma v6_group fuel g rest ip ellipsis :
  is_u16 g -> ends_group rest -> (length ip < 16)%nat ->
  v6_loop (S fuel) (appendHex g ++ rest) ip ellipsis = v6_next fuel rest (ip ++ [g / 256; g mod 256]) ellipsis.
Proof.
  intros Hg Hr Hl. destruct (appendHex_parses g rest Hg Hr) as [Hh Hne]. cbn [v6_loop].
  destruct (Nat.leb_spec 16 (length ip)); [lia|]. rewrite Hh. red_bind.
  destruct (appendHex g) as [|h hs] eqn:E; [done|]. rewrite <- E in *. clear Hne.
  destruct (Nat.eqb_spec (length (appendHex g)) 0); [by rewrite E in *|].
  rewrite lookup_app_r, Nat.sub_diag by done. rewrite bool_decide_false by (destruct rest; [done | cbn; intros [= Hd]; by rewrite Hr in Hd]).
  rewrite drop_app_length. destruct rest as [|c [|c1 s2]]; [done | |]; cbn in Hr; subst c; rewrite Z.eqb_refl; done.
Qed.

Lemma appendHex_head g : is_u16 g -> exists h hs, appendHex g = h :: hs /\ h <> colon.
Proof.
  intros Hg. assert (Hd : forall x, hex_digit (x mod 16) <> colon).
  { intros x. pose proof (hex_digit_range (x mod 16) (Z.mod_pos_bound x 16 ltac:(lia))). unfold colon. lia. }
  unfold appendHex. cbv zeta. repeat case_match; eexists _, _; (split; [done | apply Hd]).
Qed.

Lemma string_groups_head gs : Forall is_u16 gs -> gs <> [] -> exists h hs, string_groups gs = h :: hs /\ h <> colon.
Proof.
  intros [|g gs' Hg _] Hne; [done|]. destruct (appendHex_head g Hg) as (h & hs & E & Hh). unfold string_groups. cbn [map Join].
  destruct gs'; rewrite E; cbn; eauto.
Qed.

(** The text of groups, without and with an ellipsis behind it. *)
Lemma v6_groups gs fuel ip ellipsis :
  Forall is_u16 gs -> gs <> [] -> (length ip + 2 * length gs <= 16)%nat -> (length gs <= fuel)%nat ->
  v6_loop fuel (string_groups gs) ip ellipsis = Some ([], ip ++ group_bytes gs, ellipsis).
Proof.
  unfold string_groups. revert fuel ip. induction gs as [|g gs IH]; intros fuel ip HF Hne Hl Hf; [done|]. clear Hne.
  inversion_clear HF as [|? ? Hg HF']. destruct fuel as [|fuel]; [cbn in Hf; lia|]. cbn in Hl, Hf.
  destruct gs as [|g2 gs].
  - cbn [map Join]. rewrite <- (app_nil_r (appendHex g)), v6_group by (done || lia). done.
  - change (Join (map appendHex (g :: g2 :: gs)) [colon]) with (appendHex g ++ colon :: Join (map appendHex (g2 :: gs)) [colon]).
    rewrite v6_group by (done || lia).
    destruct (string_groups_head (g2 :: gs) HF') as (h & hs & E & Hh); [done|]. unfold string_groups in E.
    unfold v6_next. rewrite E. rewrite (proj2 (Z.eqb_neq _ _)) by done. rewrite <- E.
    rewrite IH; [|done | done | rewrite length_app; cbn in *; lia | cbn in *; lia]. cbn [group_bytes flat_map]. by rewrite <- app_assoc.
Qed.

Lemma v6_groups_ellipsis gs fuel post ip :
  Forall is_u16 gs -> gs <> [] -> (length ip + 2 * length gs <= 16)%nat -> (length gs <= fuel)%nat ->
  v6_loop fuel (string_groups gs ++ colon :: colon :: post) ip None =
    let ip' := ip ++ group_bytes gs in
    match post with [] => Some ([], ip', Some (length ip')) | _ => v6_loop (fuel - length gs) post ip' (Some (length ip')) end.
Proof.
  unfold string_groups. revert fuel ip. induction gs as [|g gs IH]; intros fuel ip HF Hne Hl Hf; [done|]. clear Hne.
  inversion_clear HF as [|? ? Hg HF']. destruct fuel as [|fuel]; [cbn in Hf; lia|]. cbn in Hl, Hf.
  destruct gs as [|g2 gs].
  - cbn [map Join]. rewrite v6_group by (done || lia). unfold v6_next. rewrite Z.eqb_refl. cbn [group_bytes flat_map app length].
    cbn [Nat.sub]. rewrite Nat.sub_0_r. by destruct post.
  - change (Join (map appendHex (g :: g2 :: gs)) [colon]) with (appendHex g ++ colon :: Join (map appendHex (g2 :: gs)) [colon]).
    rewrite <- app_assoc. cbn [app]. rewrite v6_group by (done || lia).
    destruct (string_groups_head (g2 :: gs) HF') as (h & hs & E & Hh); [done|]. unfold string_groups in E.
    unfold v6_next. rewrite E. cbn [app]. rewrite (proj2 (Z.eqb_neq _ _)) by done.
    change (h :: hs ++ colon :: colon :: post) with ((h :: hs) ++ colon :: colon :: post). rewrite <- E.
    rewrite IH; [|done | done | rewrite length_app; cbn in *; lia | cbn in *; lia].
    cbn [group_bytes flat_map length Nat.sub]. cbv zeta. rewrite <- app_assoc. done.
Qed.

Lemma zeros_at_spec gs : take (zeros_at gs) gs = repeat 0 (zeros_at gs) /\ (zeros_at gs <= length gs)%nat.
Proof.
  induction gs as [|g gs [IH1 IH2]]; cbn; [done|]. destruct (Z.eqb_spec g 0) as [->|]; cbn; [|split; [done | lia]].
  split; [by rewrite IH1 | lia].
Qed.

Definition run_ok (gs : list Z) (best : nat * nat) : Prop :=
  (snd best = 0 \/ 2 <= snd best /\ fst best + snd best <= length gs)%nat /\
  take (snd best) (drop (fst best) gs) = repeat 0 (snd best).

Lemma zero_run_spec gs i best whole :
  drop i whole = gs -> run_ok whole best -> run_ok whole (zero_run gs i best).
Proof.
  revert i best. induction gs as [|g gs IH]; intros i best Hd Hb; [done|]. cbn [zero_run]. apply IH.
  { replace (S i) with (i + 1)%nat by lia. by rewrite <- drop_drop, Hd. }
  destruct (Nat.leb_spec 2 (zeros_at (g :: gs))); cbn [andb]; [|done]. destruct (Nat.ltb_spec (snd best) (zeros_at (g :: gs))); [|done].
  destruct (zeros_at_spec (g :: gs)) as [H1 H2]. split; cbn [fst snd].
  - right. split; [done|]. assert (Hl : length (g :: gs) = (length whole - i)%nat) by (rewrite <- Hd; apply length_drop). lia.
  - by rewrite Hd.
Qed.

Lemma groups_bytes ip n : length ip = (2 * n)%nat -> Forall is_u8 ip ->
  group_bytes (groups ip) = ip /\ length (groups ip) = n /\ Forall is_u16 (groups ip).
Proof.
  revert ip. induction n as [|n IH]; intros ip Hl HF; [by destruct ip|]. destruct ip as [|a [|b ip]]; [done | cbn in Hl; lia|].
  inversion_clear HF as [|? ? Ha HF']. inversion_clear HF' as [|? ? Hb HF'']. unfold is_u in Ha, Hb.
  destruct (IH ip) as (H1 & H2 & H3); [cbn in Hl; lia | done|]. cbn [groups group_bytes flat_map app length].
  unfold group_bytes in H1. rewrite H1, H2. split; [f_equal; [zlia | f_equal; zlia] | split; [done|]]. constructor; [unfold is_u; lia | done].
Qed.

Lemma group_bytes_app gs hs : group_bytes (gs ++ hs) = group_bytes gs ++ group_bytes hs.
Proof. unfold group_bytes. apply flat_map_app. Qed.

Lemma group_bytes_zeros n : group_bytes (repeat 0 n) = repeat 0 (2 * n).
Proof. unfold group_bytes. induction n; [done|]. cbn [repeat flat_map app]. rewrite IHn. replace (2 * S n)%nat with (S (S (2 * n))) by lia. done. Qed.

(** No zone in the text of groups. *)
Lemma appendHex_no_percent g : percent ∉ appendHex g.
Proof.
  assert (Hd : forall x, percent <> hex_digit (x mod 16)).
  { intros x. pose proof (hex_digit_range (x mod 16) (Z.mod_pos_bound x 16 ltac:(lia))). unfold percent. lia. }
  unfold appendHex. cbv zeta. repeat case_match; rewrite !not_elem_of_cons; repeat split; try apply Hd; apply not_elem_of_nil.
Qed.

Lemma Join_no_byte ps sep c : (forall p, p ∈ ps -> c ∉ p) -> c ∉ sep -> c ∉ Join ps sep.
Proof.
  intros Hp Hs. induction ps as [|p [|q ps] IH]; cbn [Join]; [apply not_elem_of_nil | apply Hp; by left |].
  rewrite !not_elem_of_app. split; [apply Hp; by left | split; [done|]]. apply IH. intros r Hr. apply Hp. by right.
Qed.

Lemma string_groups_no_percent gs : percent ∉ string_groups gs.
Proof.
  apply Join_no_byte; [|by intros ?%list_elem_of_singleton]. intros p (g & -> & _)%list_elem_of_fmap. apply appendHex_no_percent.
Qed.

Lemma Cut_none s c : c ∉ s -> Cut s c = (s, [], false).
Proof. intros H. unfold Cut. by rewrite (proj2 (IndexByte_None s c) H). Qed.

(** The loop and what follows it, from behind a leading ellipsis or without one. *)
Definition v6_rest (s : list Z) (ellipsis : option nat) : option (list Z) :=
  '(s, ip, ellipsis) ← v6_loop 9 s [] ellipsis; v6_finish s ip ellipsis.

Lemma parseIPv6_plain s h hs : percent ∉ s -> s = h :: hs -> h <> colon -> parseIPv6 s = (ip ← v6_rest s None; Some (ip, [])).
Proof.
  intros Hp -> Hh. unfold parseIPv6, v6_rest. rewrite Cut_none by done. cbn [andb]. destruct hs as [|h2 hs];
    [|rewrite (proj2 (Z.eqb_neq h colon)) by done; cbn [andb]]; destruct (v6_loop _ _ _ _) as [[[? ?] ?]|]; done.
Qed.

Lemma parseIPv6_leading s : percent ∉ s -> s <> [] ->
  parseIPv6 (colon :: colon :: s) = (ip ← v6_rest s (Some O); Some (ip, [])).
Proof.
  intros Hp Hs. unfold parseIPv6, v6_rest. rewrite Cut_none by (rewrite !not_elem_of_cons; done). cbn [andb]. rewrite Z.eqb_refl. cbn [andb].
  destruct s; [done|]. by destruct (v6_loop _ _ _ _) as [[[? ?] ?]|].
Qed.

Lemma group_bytes_split gs i l :
  (i + l <= length gs)%nat -> take l (drop i gs) = repeat 0 l ->
  group_bytes gs = group_bytes (take i gs) ++ repeat 0 (2 * l) ++ group_bytes (drop (i + l) gs).
Proof.
  intros Hl Hz. rewrite <- group_bytes_zeros, <- Hz, <- !group_bytes_app, <- drop_drop. by rewrite !take_drop.
Qed.

(** The bytes around the ellipsis. *)
Lemma v6_finish_ellipsis pre post n :
  (length pre + length post < 16)%nat -> (length pre + length post + n = 16)%nat ->
  v6_finish [] (pre ++ post) (Some (length pre)) = Some (pre ++ repeat 0 n ++ post).
Proof.
  intros H1 H2. unfold v6_finish. rewrite length_app. destruct (Nat.ltb_spec (length pre + length post) 16); [|lia]. red_bind.
  rewrite take_app_length, drop_app_length. by replace (16 - (length pre + length post))%nat with n by lia.
Qed.

Lemma string6_parses ip : length ip = 16%nat -> Forall is_u8 ip -> parseIPv6 (string6 ip) = Some (ip, []).
Proof.
  intros Hl HF. destruct (groups_bytes ip 8 Hl HF) as (Hb & Hn & Hu). unfold string6.
  pose proof (zero_run_spec (groups ip) 0 (O, O) (groups ip) eq_refl) as Hrun. destruct (zero_run (groups ip) 0 (O, O)) as [i l].
  destruct Hrun as [Hr Hz]; [split; [by left | done]|]. cbn [fst snd] in *. set (gs := groups ip) in *.
  destruct (Nat.eqb_spec l 0) as [->|Hl0].
  - destruct (string_groups_head gs Hu) as (h & hs & E & Hh); [by destruct gs|].
    rewrite (parseIPv6_plain _ h hs) by (apply string_groups_no_percent || done). unfold v6_rest.
    rewrite v6_groups by (done || (destruct gs; done) || (cbn; lia)). red_bind. rewrite Hb. cbn [app].
    unfold v6_finish. rewrite Hl. done.
  - destruct Hr as [?|[Hl2 Hle]]; [done|]. pose proof (group_bytes_split gs i l Hle Hz) as Hsplit. rewrite Hb in Hsplit.
    set (pre := take i gs) in *. set (post := drop (i + l) gs) in *.
    assert (Hpre : Forall is_u16 pre) by by apply Forall_take. assert (Hpost : Forall is_u16 post) by by apply Forall_drop.
    assert (Hlpre : length pre = i) by (unfold pre; rewrite length_take; lia).
    assert (Hlpost : (i + l + length post = 8)%nat) by (unfold post; rewrite length_drop; lia).
    assert (Hfin : v6_finish [] (group_bytes pre ++ group_bytes post) (Some (length (group_bytes pre))) = Some ip).
    { rewrite (v6_finish_ellipsis _ _ (2 * l)) by (rewrite !group_bytes_length; lia). by rewrite <- Hsplit. }
    destruct (decide (pre = [])) as [Hpn|Hpn].
    + rewrite Hpn in *. cbn [string_groups map Join app]. change (group_bytes []) with ([] : list Z) in *. cbn [app length] in *.
      destruct (decide (post = [])) as [Hqn|Hqn].
      * rewrite Hqn in *. cbn [string_groups map Join]. unfold v6_finish in Hfin. cbn in Hfin. injection Hfin as <-. by vm_compute.
      * destruct (string_groups_head post Hpost Hqn) as (h & hs & E & _).
        rewrite parseIPv6_leading by (apply string_groups_no_percent || by rewrite E). unfold v6_rest.
        rewrite v6_groups by (done || cbn; lia). red_bind. cbn [app]. by rewrite Hfin.
    + destruct (string_groups_head pre Hpre Hpn) as (h & hs & E & Hh). cbn [app].
      rewrite (parseIPv6_plain _ h (hs ++ colon :: colon :: string_groups post)); [| |by rewrite E | done].
      2: { rewrite not_elem_of_app, !not_elem_of_cons. repeat split; try apply string_groups_no_percent; done. }
      unfold v6_rest. rewrite v6_groups_ellipsis by (done || cbn; lia). cbn [app].
      destruct (decide (post = [])) as [Hqn|Hqn].
      * rewrite Hqn in *. cbn [string_groups map Join]. red_bind. rewrite app_nil_r in Hfin. by rewrite Hfin.
      * destruct (string_groups_head post Hpost Hqn) as (h2 & hs2 & E2 & _). cbv zeta.
        rewrite (v6_groups post (9 - length pre) (group_bytes pre)) by (done || (rewrite ?group_bytes_length; lia)).
        rewrite E2. red_bind. by rewrite Hfin.
Qed.

(** *** IPv4 in IPv6 *)

Lemma hex_digit_dec d : 0 <= d < 10 -> 48 + d = hex_digit d.
Proof. intros H. unfold hex_digit. by rewrite (proj2 (Z.ltb_lt _ _)) by lia. Qed.

Lemma hex_octet a s : is_u8 a -> exists x, hex_group (FormatUint a ++ dot :: s) 0 0 = Some (x, length (FormatUint a)).
Proof.
  intros Ha. rewrite octet_Format by done. unfold is_u in Ha. unfold octet.
  pose proof (Z.mod_pos_bound a 10 ltac:(lia)). pose proof (Z.mod_pos_bound (a / 10) 10 ltac:(lia)).
  repeat match goal with |- context [?x <? ?y] => destruct (Z.ltb_spec x y) end; eexists; cbn [app];
    rewrite !hex_digit_dec by zlia; repeat (rewrite hex_step; [|zlia | lia | zlia]); reflexivity.
Qed.

Lemma FormatUint_head a : is_u8 a -> exists h hs, FormatUint a = h :: hs /\ is_digit h = true.
Proof.
  intros Ha. pose proof (FormatUint_digit a) as HF. unfold is_u in Ha. destruct (FormatUint a) as [|h hs] eqn:E.
  - by apply FormatUint_not_nil in E.
  - specialize (HF ltac:(lia)). inversion_clear HF. eauto.
Qed.

Lemma string4_no_byte ip c : Forall is_u8 ip -> is_digit c = false -> c <> dot -> c ∉ string4 ip.
Proof.
  intros HF Hc Hd. apply Join_no_byte; [|by intros ?%list_elem_of_singleton]. intros p (a & -> & Ha)%list_elem_of_fmap.
  rewrite list.Forall_forall in HF. apply FormatUint_no_byte; [by apply HF | done].
Qed.

Lemma string4in6_parses a b c d :
  is_u8 a -> is_u8 b -> is_u8 c -> is_u8 d ->
  parseIPv6 (str "::ffff:" ++ string4 [a; b; c; d]) = Some (repeat 0 10 ++ [255; 255; a; b; c; d], []).
Proof.
  intros Ha Hb Hc Hd. change (str "::ffff:" ++ string4 [a; b; c; d]) with (colon :: colon :: (appendHex 65535 ++ colon :: string4 [a; b; c; d])).
  assert (Hp : percent ∉ string4 [a; b; c; d]) by (apply string4_no_byte; [by rewrite !list.Forall_cons | done | done]).
  rewrite parseIPv6_leading; [| |done].
  2: { rewrite not_elem_of_app, not_elem_of_cons. split; [apply appendHex_no_percent | done]. }
  unfold v6_rest. rewrite v6_group by (done || (unfold is_u; lia) || (cbn; lia)). destruct (FormatUint_head a Ha) as (h & hs & E & Hh).
  assert (Hne : h <> colon) by (intros ->; done).
  assert (Es : string4 [a; b; c; d] = h :: hs ++ dot :: FormatUint b ++ dot :: FormatUint c ++ dot :: FormatUint d)
    by (unfold string4; cbn [map Join app]; by rewrite E).
  unfold v6_next. rewrite Es at 1. rewrite (proj2 (Z.eqb_neq _ _)) by done. rewrite <- Es.
  destruct (hex_octet a (FormatUint b ++ dot :: FormatUint c ++ dot :: FormatUint d) Ha) as (x & Hx).
  change (FormatUint a ++ dot :: FormatUint b ++ dot :: FormatUint c ++ dot :: FormatUint d) with (string4 [a; b; c; d]) in Hx.
  cbn [v6_loop]. cbn [app length Nat.leb]. rewrite Hx. red_bind.
  destruct (Nat.eqb_spec (length (FormatUint a)) 0); [by rewrite E in *|].
  rewrite bool_decide_true by (unfold string4; cbn [map Join app]; by rewrite lookup_app_r, Nat.sub_diag).
  rewrite bool_decide_false by done. cbn [andb Nat.ltb Nat.leb Nat.add].
  rewrite string4_parses by done. reflexivity.
Qed.

(** *** Addresses and prefixes *)

Definition valid_addr (a : addr) : Prop :=
  match a with
  | AddrInvalid => False
  | Addr4 ip => length ip = 4%nat /\ Forall is_u8 ip
  | Addr6 ip => length ip = 16%nat /\ Forall is_u8 ip
  end.

Definition separator (c : Z) : bool := (c =? dot) || (c =? colon) || (c =? percent).

Lemma family_found p c s : Forall (fun b => separator b = false) p -> separator c = true -> family (p ++ c :: s) = Some c.
Proof.
  intros HF Hc. induction HF as [|b p Hb _ IH]; cbn [app family]; unfold separator in *; [by rewrite Hc | by rewrite Hb].
Qed.

Lemma string4_family a ip : is_u8 a -> ip <> [] -> family (string4 (a :: ip)) = Some dot.
Proof.
  intros Ha Hip. unfold string4. cbn [map Join]. destruct ip as [|b ip]; [done|]. cbn [map app]. apply family_found; [|done].
  eapply list.Forall_impl; [apply FormatUint_digit; unfold is_u in Ha; lia|]. cbn. intros c Hc. unfold separator, is_digit, dot, colon, percent in *.
  rewrite !orb_false_iff, !Z.eqb_neq. apply andb_true_iff in Hc as [?%Z.leb_le ?%Z.leb_le]. lia.
Qed.

Lemma appendHex_no_separator g : is_u16 g -> Forall (fun b => separator b = false) (appendHex g).
Proof.
  intros Hg. assert (Hd : forall x, separator (hex_digit (x mod 16)) = false).
  { intros x. pose proof (hex_digit_range (x mod 16) (Z.mod_pos_bound x 16 ltac:(lia))). unfold separator, dot, colon, percent.
    rewrite !orb_false_iff, !Z.eqb_neq. lia. }
  unfold appendHex. cbv zeta. repeat case_match; rewrite !list.Forall_cons; auto.
Qed.

Lemma groups_family g gs s :
  is_u16 g -> family (string_groups (g :: gs) ++ colon :: s) = Some colon /\ (gs <> [] -> family (string_groups (g :: gs)) = Some colon).
Proof.
  intros Hg. pose proof (appendHex_no_separator g Hg) as HF. unfold string_groups. cbn [map Join]. destruct gs as [|g2 gs]; cbn [map].
  - split; [by apply family_found | done].
  - cbn [app]. rewrite <- app_assoc. cbn [app]. split; [|intros _]; by apply family_found.
Qed.

Lemma string6_family ip : length ip = 16%nat -> Forall is_u8 ip -> family (string6 ip) = Some colon.
Proof.
  intros Hl HF. destruct (groups_bytes ip 8 Hl HF) as (_ & Hn & Hu). unfold string6. destruct (zero_run (groups ip) 0 (O, O)) as [i l].
  destruct (groups ip) as [|g gs]; [done|]. inversion_clear Hu as [|? ? Hg _]. destruct (Nat.eqb l 0).
  - apply (groups_family g gs []); [done|]. by intros ->.
  - destruct i as [|i]; [done|]. cbn [take]. by apply groups_family.
Qed.

Lemma ParseAddr_string a : valid_addr a -> ParseAddr (addr_String a) = Some (a, []).
Proof.
  destruct a as [|ip|ip]; cbn [valid_addr addr_String]; [done | |].
  - intros [Hl HF]. destruct ip as [|a [|b [|c [|d [|]]]]]; try done. inversion_clear HF as [|? ? Ha HF1].
    inversion_clear HF1 as [|? ? Hb HF2]. inversion_clear HF2 as [|? ? Hc HF3]. inversion_clear HF3 as [|? ? Hd _].
    unfold ParseAddr. rewrite string4_family by done. cbn [Z.eqb]. rewrite Z.eqb_refl, string4_parses by done. done.
  - intros [Hl HF]. unfold Is4In6. case_bool_decide as H4.
    + assert (Hl4 : length (drop 12 ip) = 4%nat) by (rewrite length_drop; lia).
      pose proof (Forall_drop _ 12 _ HF) as HF4. pose proof (take_drop 12 ip) as Hip. rewrite H4 in Hip.
      destruct (drop 12 ip) as [|a [|b [|c [|d [|]]]]]; try done. rewrite !list.Forall_cons in HF4. destruct HF4 as (Ha & Hb & Hc & Hd & _).
      unfold ParseAddr. change (family (str "::ffff:" ++ _)) with (Some colon). cbn [Z.eqb colon dot Pos.eqb].
      rewrite string4in6_parses by done. by rewrite <- Hip.
    + assert (family (string6 ip) = Some colon) as Hf by by apply string6_family.
      unfold ParseAddr. rewrite Hf. cbn [Z.eqb colon dot Pos.eqb]. by rewrite string6_parses.
Qed.

Lemma cut_last_app s t : slash ∉ t -> cut_last (s ++ slash :: t) = Some (s, t).
Proof.
  intros Ht. assert (Hnone : cut_last t = None).
  { induction t as [|c t IH]; [done|]. rewrite not_elem_of_cons in Ht. destruct Ht as [Hc Ht]. cbn. rewrite IH by done.
    by rewrite (proj2 (Z.eqb_neq c slash)) by done. }
  induction s as [|c s IH]; cbn; [by rewrite Hnone | by rewrite IH].
Qed.

Lemma bits_text bits : is_u8 bits ->
  (1 <? length (FormatUint bits))%nat && negb (match FormatUint bits with b :: _ => (49 <=? b) && (b <=? 57) | [] => false end) = false.
Proof.
  intros H. rewrite octet_Format by done. unfold is_u in H. unfold octet.
  repeat match goal with |- context [?x <? ?y] => destruct (Z.ltb_spec x y) end; cbn [length Nat.ltb Nat.leb andb]; [done| |];
    apply negb_false_iff, andb_true_iff; split; apply Z.leb_le; zlia.
Qed.

Lemma ParsePrefix_String p :
  valid_addr (pfxAddr p) -> 0 <= pfxBits p <= maxBits (pfxAddr p) -> ParsePrefix (prefix_String p) = Some p.
Proof.
  destruct p as [a bits]. cbn [pfxAddr pfxBits]. intros Ha Hb.
  assert (Hb8 : is_u8 bits) by (unfold is_u; destruct a; cbn in Hb; lia).
  assert (prefix_String (mkPrefix a bits) = addr_String a ++ slash :: FormatUint bits) as ->.
  { unfold prefix_String, FormatInt. cbn. rewrite (proj2 (Z.ltb_ge _ _)) by lia. by destruct a. }
  unfold ParsePrefix. rewrite cut_last_app by (apply FormatUint_no_byte; [lia | done]). red_bind.
  rewrite ParseAddr_string by done. red_bind. rewrite bool_decide_true by done. cbn [negb].
  rewrite bits_text, Atoi_Format by (done || unfold is_u in Hb8; lia). red_bind.
  destruct (Z.ltb_spec bits 0); [lia|]. destruct (Z.gtb_spec bits (maxBits a)); [lia | done].
Qed.

(** The characters of an address and a prefix: digits, letters, dots, colons and
    slashes. *)
Definition addr_char (b : Z) : Prop := 46 <= b <= 58 \/ 97 <= b <= 102.

Lemma Join_Forall (P : Z -> Prop) ps sep : Forall (Forall P) ps -> Forall P sep -> Forall P (Join ps sep).
Proof.
  intros Hp Hs. induction Hp as [|q ps Hq Hp IH]; [constructor|]. cbn [Join]. destruct ps; [done|]. by repeat (apply Forall_app; split).
Qed.

Lemma digits_addr n : 0 <= n -> Forall addr_char (FormatUint n).
Proof.
  intros Hn. eapply list.Forall_impl; [by apply FormatUint_digit|]. unfold is_digit, addr_char. cbn. intros b Hb. lia.
Qed.

Lemma string4_chars ip : Forall is_u8 ip -> Forall addr_char (string4 ip).
Proof.
  intros H. apply Join_Forall; [|repeat constructor; unfold addr_char, dot; lia]. apply list.Forall_fmap.
  eapply list.Forall_impl; [exact H|]. intros b Hb. apply digits_addr. unfold is_u in Hb. lia.
Qed.

Lemma string_groups_chars gs : Forall addr_char (string_groups gs).
Proof.
  apply Join_Forall; [|repeat constructor; unfold addr_char, colon; lia]. apply list.Forall_fmap, Forall_true. intros g. cbn.
  assert (Hd : forall x, addr_char (hex_digit (x mod 16))).
  { intros x. pose proof (hex_digit_range (x mod 16) (Z.mod_pos_bound x 16 ltac:(lia))). unfold addr_char. lia. }
  unfold appendHex. repeat case_match; repeat (apply list.Forall_cons; split; [apply Hd|]); constructor.
Qed.

Lemma addr_String_chars a : valid_addr a -> Forall addr_char (addr_String a).
Proof.
  destruct a as [|ip|ip]; cbn [valid_addr addr_String]; [done | intros [_ H]; by apply string4_chars|]. intros [_ H].
  destruct (Is4In6 ip).
  - apply Forall_app. split; [repeat constructor; unfold addr_char; cbn; lia|]. by apply string4_chars, Forall_drop.
  - unfold string6. destruct (zero_run _ _ _) as [i l]. case_match; [apply string_groups_chars|].
    repeat (apply Forall_app; split); try apply string_groups_chars. repeat constructor; unfold addr_char, colon; lia.
Qed.

Lemma prefix_String_chars p : valid_addr (pfxAddr p) -> 0 <= pfxBits p -> Forall addr_char (prefix_String p).
Proof.
  intros Ha Hb. assert (prefix_String p = addr_String (pfxAddr p) ++ [slash] ++ FormatUint (pfxBits p)) as ->.
  { unfold prefix_String, FormatInt. rewrite (proj2 (Z.ltb_ge _ _)) by lia. by destruct (pfxAddr p). }
  apply Forall_app. split; [by apply addr_String_chars|]. apply list.Forall_cons. split; [unfold addr_char, slash; lia | by apply digits_addr].
Qed.

End GoNetip.
