(* ===== verification/MagicHeader.v ===== *)
(** * Message-type headers and number ranges of AmneziaWG

    Models submodules/wireguard-go/device/magic-header.go and the [UintRange]
    type of noise-types.go: the text form of a range, membership, and drawing a
    value.  The random sources are parameters: [rand.Int], which panics on a
    bound that is not positive and otherwise returns a value below it, and the
    runtime's [fastrandn]. *)

From S2P Require Import Prelude Bits GoStrings.

Module MagicHeader.

Local Open Scope Z_scope.

(** ** magicHeader *)

Record magicHeader := mkHeader { start : Z; end_ : Z }.

Definition dash : Z := 45.

(** Both parsers split at '-' and read one or two 32-bit numbers in order. *)
Definition newMagicHeader (spec : list Z) : option magicHeader :=
  let parts := Split spec dash in
  if (length parts <? 1)%nat || (2 <? length parts)%nat then None
  else
    p0 ← parts !! 0%nat;
    start ← ParseUint p0 32;
    end_ ← (if (1 <? length parts)%nat then p1 ← parts !! 1%nat; ParseUint p1 32 else Some start);
    if end_ <? start then None
    else Some (mkHeader (u32 start) (u32 end_)).

Definition GenSpec (h : magicHeader) : list Z :=
  if start h =? end_ h then FormatUint (start h)
  else FormatUint (start h) ++ [dash] ++ FormatUint (end_ h).

Definition Validate (h : magicHeader) (val : Z) : bool := (start h <=? val) && (val <=? end_ h).

(** [rand_Int] is [rand.Int(rand.Reader, _)]; [None] is a panic. *)
Definition Generate (rand_Int : Z -> Z) (h : magicHeader) : option Z :=
  let high := i64 (u32 (u32 (end_ h - start h) + 1)) in
  if high <=? 0 then None
  else Some (u32 (start h + u32 (rand_Int high))).

(** ** UintRange: the high word is the upper bound, the low word the lower one *)

Definition FromUint32 (lo hi : Z) : Z := Z.lor (Z.shiftl hi 32) lo.
Definition Lo (r : Z) : Z := u32 r.
Definition Hi (r : Z) : Z := u32 (Z.shiftr r 32).

Definition FromString (spec : list Z) : option Z :=
  let parts := Split spec dash in
  if (length parts <? 1)%nat || (2 <? length parts)%nat then None
  else
    p0 ← parts !! 0%nat;
    lo ← ParseUint p0 32;
    hi ← (if (1 <? length parts)%nat then p1 ← parts !! 1%nat; ParseUint p1 32 else Some lo);
    if hi <? lo then None
    else Some (FromUint32 (u32 lo) (u32 hi)).

Definition Contains (r num : Z) : bool := (Lo r <=? num) && (num <=? Hi r).
Definition IsZero (r : Z) : bool := r =? 0.

Definition PickOne (fastrandn : Z -> Z) (r : Z) : Z :=
  if Hi r <=? Lo r then Lo r
  else u32 (Lo r + fastrandn (u32 (u32 (Hi r - Lo r) + 1))).

Definition ToString (r : Z) : list Z :=
  if Lo r =? Hi r then FormatUint (Lo r)
  else FormatUint (Lo r) ++ [dash] ++ FormatUint (Hi r).

(** ** Specification *)

Definition wf_header (h : magicHeader) : Prop := 0 <= start h /\ start h <= end_ h /\ end_ h < 2 ^ 32.

Definition full_width (h : magicHeader) : Prop := end_ h - start h + 1 = 2 ^ 32.

(** [rand.Int] and [fastrandn]: documented results for a positive bound; the
    runtime's reduction of a 32-bit draw gives 0 for the bound 0. *)
Definition rand_Int_ok (rand_Int : Z -> Z) : Prop := forall n, 0 < n -> 0 <= rand_Int n < n.
Definition fastrandn_ok (fastrandn : Z -> Z) : Prop :=
  fastrandn 0 = 0 /\ forall n, 0 < n < 2 ^ 32 -> 0 <= fastrandn n < n.

(** ** Lemmas *)

(** The common core of the two parsers, and of the two printers. *)
Definition parse_range (spec : list Z) : option (Z * Z) :=
  let parts := Split spec dash in
  if (length parts <? 1)%nat || (2 <? length parts)%nat then None
  else
    p0 ← parts !! 0%nat;
    lo ← ParseUint p0 32;
    hi ← (if (1 <? length parts)%nat then p1 ← parts !! 1%nat; ParseUint p1 32 else Some lo);
    if hi <? lo then None else Some (lo, hi).

Definition print_range (lo hi : Z) : list Z :=
  if lo =? hi then FormatUint lo else FormatUint lo ++ [dash] ++ FormatUint hi.

Lemma parse_print lo hi : 0 <= lo <= hi -> hi < 2 ^ 32 -> parse_range (print_range lo hi) = Some (lo, hi).
Proof.
  intros Hlo Hhi. unfold parse_range, print_range.
  assert (Hn : forall n, 0 <= n -> dash ∉ FormatUint n) by (intros; by apply FormatUint_no_byte).
  destruct (Z.eqb_spec lo hi) as [<-|Hne].
  - rewrite Split_none by (apply Hn; lia). cbn -[ParseUint FormatUint].
    rewrite ParseUint_Format by (unfold is_u; lia). cbn. by rewrite Z.ltb_irrefl.
  - cbn [app]. rewrite Split_app, Split_none by (apply Hn; lia). cbn -[ParseUint FormatUint].
    rewrite !ParseUint_Format by (unfold is_u; lia). cbn. by rewrite (proj2 (Z.ltb_ge hi lo)) by lia.
Qed.

Lemma parse_range_ok spec lo hi : parse_range spec = Some (lo, hi) -> 0 <= lo <= hi /\ hi < 2 ^ 32.
Proof.
  unfold parse_range. destruct (_ || _); [done|].
  destruct (Split spec dash !! 0%nat) as [p0|]; [|done]. cbn [mbind option_bind].
  destruct (ParseUint p0 32) as [a|] eqn:Ha; [|done]. cbn [mbind option_bind].
  apply ParseUint_range in Ha.
  destruct (if (1 <? length (Split spec dash))%nat then _ else _) as [b|] eqn:Hb; [|done]. cbn [mbind option_bind].
  assert (is_u32 b).
  { destruct (1 <? length (Split spec dash))%nat; [|congruence].
    destruct (Split spec dash !! 1%nat) as [p1|]; [|done]. by eapply ParseUint_range. }
  destruct (Z.ltb_spec b a); [done|]. intros [= <- <-]. unfold is_u in *. lia.
Qed.

Lemma newMagicHeader_range spec :
  newMagicHeader spec = '(lo, hi) ← parse_range spec; Some (mkHeader (u32 lo) (u32 hi)).
Proof. unfold newMagicHeader, parse_range. repeat (bind_case; simplify_eq; try done). Qed.

Lemma FromString_range spec :
  FromString spec = '(lo, hi) ← parse_range spec; Some (FromUint32 (u32 lo) (u32 hi)).
Proof. unfold FromString, parse_range. repeat (bind_case; simplify_eq; try done). Qed.

Lemma newMagicHeader_wf spec h : newMagicHeader spec = Some h -> wf_header h.
Proof.
  rewrite newMagicHeader_range. destruct (parse_range spec) as [[lo hi]|] eqn:Hp; [|done].
  intros [= <-]. apply parse_range_ok in Hp. unfold wf_header. cbn.
  rewrite !u32_small by (unfold is_u; lia). lia.
Qed.

Lemma spec_roundtrip h : wf_header h -> newMagicHeader (GenSpec h) = Some h.
Proof.
  intros Hh. destruct h as [lo hi]. unfold wf_header in Hh. cbn in Hh.
  rewrite newMagicHeader_range. change (GenSpec _) with (print_range lo hi).
  rewrite parse_print by lia. cbn. by rewrite !u32_small by (unfold is_u; lia).
Qed.

Lemma header_width h : wf_header h -> ~ full_width h ->
  u32 (u32 (end_ h - start h) + 1) = end_ h - start h + 1 /\ 0 < end_ h - start h + 1 < 2 ^ 32.
Proof.
  unfold wf_header, full_width. intros Hh Hf.
  rewrite (u32_small (end_ h - start h)), u32_small by (unfold is_u; lia). lia.
Qed.

Lemma Generate_valid rand_Int h :
  rand_Int_ok rand_Int -> wf_header h -> ~ full_width h ->
  exists v, Generate rand_Int h = Some v /\ Validate h v = true.
Proof.
  intros Hr Hh Hf. unfold Generate, Validate. destruct (header_width h Hh Hf) as [-> Hw].
  rewrite i64_small by (unfold is_i64; lia). rewrite (proj2 (Z.leb_gt _ 0)) by lia.
  eexists. split; [done|]. specialize (Hr (end_ h - start h + 1) ltac:(lia)). unfold wf_header in Hh.
  rewrite (u32_small (rand_Int _)), u32_small by (unfold is_u; lia).
  rewrite andb_true_iff, !Z.leb_le. lia.
Qed.

Lemma Generate_full_width rand_Int h : wf_header h -> full_width h -> Generate rand_Int h = None.
Proof.
  unfold wf_header, full_width. intros Hh Hf. unfold Generate.
  replace (end_ h) with (2 ^ 32 - 1) by lia. by replace (start h) with 0 by lia.
Qed.

Lemma FromUint32_words lo hi : is_u32 lo -> is_u32 hi -> Lo (FromUint32 lo hi) = lo /\ Hi (FromUint32 lo hi) = hi.
Proof.
  intros Hlo Hhi. unfold Lo, Hi, FromUint32, u32. split; apply Z.bits_inj'; intros i Hi.
  - destruct (Z.lt_ge_cases i 32) as [Hlt|Hge].
    + rewrite Z.mod_pow2_bits_low, Z.lor_spec, Z.shiftl_spec_low by lia. done.
    + rewrite Z.mod_pow2_bits_high by lia. symmetry. apply (is_u_testbit_high 32); [done | lia].
  - destruct (Z.lt_ge_cases i 32) as [Hlt|Hge].
    + rewrite Z.mod_pow2_bits_low, Z.shiftr_spec, Z.lor_spec, Z.shiftl_spec by lia.
      rewrite (is_u_testbit_high 32 lo), orb_false_r by (done || lia). f_equal. lia.
    + rewrite Z.mod_pow2_bits_high by lia. symmetry. apply (is_u_testbit_high 32); [done | lia].
Qed.

Lemma FromString_words spec r : FromString spec = Some r -> 0 <= Lo r <= Hi r /\ Hi r < 2 ^ 32 /\ r = FromUint32 (Lo r) (Hi r).
Proof.
  rewrite FromString_range. destruct (parse_range spec) as [[lo hi]|] eqn:Hp; [|done].
  intros [= <-]. apply parse_range_ok in Hp. rewrite (u32_small lo), (u32_small hi) by (unfold is_u; lia).
  destruct (FromUint32_words lo hi) as [-> ->]; [unfold is_u; lia..|]. split_and!; (lia || done).
Qed.

Lemma range_roundtrip lo hi : 0 <= lo <= hi -> hi < 2 ^ 32 ->
  FromString (ToString (FromUint32 lo hi)) = Some (FromUint32 lo hi).
Proof.
  intros Hlo Hhi. rewrite FromString_range. unfold ToString.
  destruct (FromUint32_words lo hi) as [-> ->]; [unfold is_u; lia..|].
  change (if lo =? hi then _ else _) with (print_range lo hi).
  rewrite parse_print by lia. cbn. by rewrite !u32_small by (unfold is_u; lia).
Qed.

Lemma PickOne_in fastrandn r :
  fastrandn_ok fastrandn -> 0 <= Lo r <= Hi r -> Hi r < 2 ^ 32 -> Contains r (PickOne fastrandn r) = true.
Proof.
  intros [Hz Hf] Hlo Hhi. unfold Contains, PickOne. rewrite andb_true_iff, !Z.leb_le.
  destruct (Z.leb_spec (Hi r) (Lo r)); [lia|]. rewrite (u32_small (Hi r - Lo r)) by (unfold is_u; lia).
  destruct (decide (Hi r - Lo r + 1 = 2 ^ 32)) as [He|Hne].
  - rewrite He. change (u32 (2 ^ 32)) with 0. rewrite Hz, (u32_small (Lo r + 0)) by (unfold is_u; lia). lia.
  - rewrite (u32_small (_ + 1)) by (unfold is_u; lia).
    specialize (Hf (Hi r - Lo r + 1) ltac:(lia)). rewrite (u32_small (Lo r + _)) by (unfold is_u; lia). lia.
Qed.

(** ** Properties *)

(** Every header range the parser accepts prints to a text that parses
    back to the same range, and a value drawn from it for an outgoing message
    is one the receiver's check accepts.  The one exception is the range that
    covers all 2^32 values: its width wraps to 0 and drawing from it panics. *)
Theorem header_spec_sound (rand_Int : Z -> Z) (spec : list Z) (h : magicHeader) :
  rand_Int_ok rand_Int -> newMagicHeader spec = Some h ->
  newMagicHeader (GenSpec h) = Some h /\
  (full_width h -> Generate rand_Int h = None) /\
  (~ full_width h -> exists v, Generate rand_Int h = Some v /\ Validate h v = true).
Proof.
  intros Hr Hs. apply newMagicHeader_wf in Hs. split_and!.
  - by apply spec_roundtrip.
  - by apply Generate_full_width.
  - by apply Generate_valid.
Qed.

Lemma header_spec_sound_witness :
  exists v, Generate (fun n => n - 1) (mkHeader 5 90) = Some v /\ Validate (mkHeader 5 90) v = true.
Proof.
  apply (header_spec_sound (fun n => n - 1) (str "5-90") (mkHeader 5 90)).
  - intros n Hn. lia.
  - vm_compute. reflexivity.
  - unfold full_width. cbn. lia.
Defined.

(** A [UintRange] read from text keeps both bounds in its two words, prints
    back to a text with the same value, and [PickOne] always returns a member,
    also for the range that covers all 2^32 values. *)
Theorem uint_range_sound (fastrandn : Z -> Z) (spec : list Z) (r : Z) :
  fastrandn_ok fastrandn -> FromString spec = Some r ->
  0 <= Lo r <= Hi r /\ Hi r < 2 ^ 32 /\ FromString (ToString r) = Some r /\
  Contains r (PickOne fastrandn r) = true.
Proof.
  intros Hf Hs. apply FromString_words in Hs as (Hlo & Hhi & He). split_and!; try lia.
  - rewrite He. by apply range_roundtrip.
  - by apply PickOne_in.
Qed.

Lemma uint_range_sound_witness :
  FromString (ToString (FromUint32 0 4294967295)) = Some (FromUint32 0 4294967295).
Proof.
  apply (uint_range_sound (fun _ => 0) (str "0-4294967295") (FromUint32 0 4294967295)).
  - split; [done|]. intros n Hn. lia.
  - vm_compute. reflexivity.
Defined.

End MagicHeader.
