(* ===== verification/ObfChain.v ===== *)
(** * Signature packets of AmneziaWG: the tag language and its packets

    Models submodules/wireguard-go/device/obf.go and the obf_*.go files: a spec
    such as "<b 0xc0ff><t><r 16>" is parsed into a chain of generators, and the
    chain fills one decoy packet that precedes a handshake.  Deobfuscation, which
    no code calls, is not modelled.  The clock and [rand.Read] are parameters. *)

From S2P Require Import Prelude Bits Bytes GoStrings.

Module ObfChain.

Local Open Scope Z_scope.

(** [min(MaxMessageSize, 65507)] with the default [MaxSegmentSize] 65535. *)
Definition MaxMessageSize : Z := 65535.
Definition awgMaxPacketSize : Z := Z.min MaxMessageSize 65507.

Inductive obf :=
| bytesObf (data : list Z)
| timestampObf
| randObf (length : Z)
| randCharObf (length : Z)
| randDigitObf (length : Z)
| dataObf
| dataStringObf
| dataSizeObf (length : Z).

Record obfChain := mkChain { Spec : list Z; obfs : list obf }.

(** ** Parsing *)

Definition parseCPSLength (val : list Z) : option Z :=
  length ← Atoi val;
  if (length <? 0) || (length >? awgMaxPacketSize) then None else Some length.

Definition newBytesObf (val : list Z) : option obf :=
  let val := TrimPrefix val (str "0x") in
  if (length val =? 0)%nat then None
  else if negb (length val mod 2 =? 0)%nat then None
  else if Z.of_nat (length val / 2) >? awgMaxPacketSize then None
  else bytes ← hex_DecodeString val; Some (bytesObf bytes).

Definition newTimestampObf (_ : list Z) : option obf := Some timestampObf.
Definition newRandObf (val : list Z) : option obf := n ← parseCPSLength val; Some (randObf n).
Definition newRandCharObf (val : list Z) : option obf := n ← parseCPSLength val; Some (randCharObf n).
Definition newRandDigitsObf (val : list Z) : option obf := n ← parseCPSLength val; Some (randDigitObf n).
Definition newDataObf (_ : list Z) : option obf := Some dataObf.
Definition newDataStringObf (_ : list Z) : option obf := Some dataStringObf.
Definition newDataSizeObf (val : list Z) : option obf := n ← parseCPSLength val; Some (dataSizeObf n).

Definition obfBuilders : list (list Z * (list Z -> option obf)) :=
  [(str "b", newBytesObf); (str "t", newTimestampObf); (str "r", newRandObf);
   (str "rc", newRandCharObf); (str "rd", newRandDigitsObf); (str "d", newDataObf);
   (str "ds", newDataStringObf); (str "dz", newDataSizeObf)].

Fixpoint find_builder (bs : list (list Z * (list Z -> option obf))) (key : list Z)
    : option (list Z -> option obf) :=
  match bs with
  | [] => None
  | (k, f) :: bs' => if decide (k = key) then Some f else find_builder bs' key
  end.

(** [base64.RawStdEncoding.EncodedLen] *)
Definition base64_EncodedLen (n : Z) : Z := n / 3 * 4 + (n mod 3 * 8 + 5) / 6.

Definition ObfuscatedLen1 (o : obf) (n : Z) : Z :=
  match o with
  | bytesObf data => Z.of_nat (length data)
  | timestampObf => 4
  | randObf len | randCharObf len | randDigitObf len | dataSizeObf len => len
  | dataObf => n
  | dataStringObf => base64_EncodedLen n
  end.

Definition langle : Z := 60.
Definition rangle : Z := 62.

(** The result of one tag: an error that is collected, or a generator. *)
Definition parse_tag (tag : list Z) : option obf :=
  match Fields tag with
  | [] => None
  | key :: rest =>
      builder ← find_builder obfBuilders key;
      builder (match rest with val :: _ => val | [] => [] end)
  end.

(** The loop of [newObfChain]; [failed] tells that [errs] is not empty.  A
    missing '>' and an oversized chain return at once. *)
Fixpoint chain_loop (fuel : nat) (remaining : list Z) (total : Z) (obfs : list obf) (failed : bool)
    : option (list obf) :=
  match fuel with
  | O => None
  | S fuel =>
      match IndexByte remaining langle with
      | None => if failed then None else Some obfs
      | Some start =>
          let from := drop start remaining in
          end_ ← IndexByte from rangle;
          let tag := drop 1 (take end_ from) in
          let remaining := drop (S end_) from in
          match parse_tag tag with
          | None => chain_loop fuel remaining total obfs true
          | Some o =>
              let length := ObfuscatedLen1 o 0 in
              if (length <? 0) || (length >? awgMaxPacketSize - total) then None
              else chain_loop fuel remaining (total + length) (obfs ++ [o]) failed
          end
      end
  end.

(** Each turn consumes at least two bytes of the spec. *)
Definition newObfChain (spec : list Z) : option obfChain :=
  obfs ← chain_loop (S (length spec)) spec 0 [] false;
  Some (mkChain spec obfs).

Definition chain_ObfuscatedLen (c : obfChain) (n : Z) : Z :=
  foldl (fun total o => total + ObfuscatedLen1 o n) 0 (obfs c).

(** ** Filling a packet *)

Definition chars52 : list Z := str "abcdefghijklmnopqrstuvwxyzABCDEFGHIJKLMNOPQRSTUVWXYZ".
Definition digits10 : list Z := str "0123456789".

(** The byte a random byte selects from an alphabet. *)
Definition pick (alphabet : list Z) (b : Z) : Z :=
  default 0 (alphabet !! Z.to_nat (b mod Z.of_nat (length alphabet))).

(** [base64.RawStdEncoding.Encode] *)
Definition base64_alphabet : list Z :=
  str "ABCDEFGHIJKLMNOPQRSTUVWXYZabcdefghijklmnopqrstuvwxyz0123456789+/".

Definition b64 (v : Z) : Z := pick base64_alphabet (Z.land v 63).

Fixpoint base64_encode (src : list Z) : list Z :=
  match src with
  | a :: b :: c :: src' =>
      let v := Z.lor (Z.lor (Z.shiftl a 16) (Z.shiftl b 8)) c in
      [b64 (Z.shiftr v 18); b64 (Z.shiftr v 12); b64 (Z.shiftr v 6); b64 v] ++ base64_encode src'
  | [a; b] =>
      let v := Z.lor (Z.shiftl a 16) (Z.shiftl b 8) in
      [b64 (Z.shiftr v 18); b64 (Z.shiftr v 12); b64 (Z.shiftr v 6)]
  | [a] =>
      let v := Z.shiftl a 16 in
      [b64 (Z.shiftr v 18); b64 (Z.shiftr v 12)]
  | [] => []
  end.

Section Fill.

(** [time.Now().Unix()], and the bytes call [i] of [rand.Read] gives a buffer. *)
Context (now : Z) (rand_Read : nat -> nat -> list Z).

(** [dst[:n]] replaced by [bytes], [None] when the slice is too short. *)
Definition overwrite (dst : list Z) (n : nat) (bytes : list Z) : option (list Z) :=
  if decide (length dst < n)%nat then None else Some (bytes ++ drop n dst).

(** The [Obfuscate] method of each generator. *)
Definition bytesObf_Obfuscate (data dst src : list Z) : option (list Z) := Some (copy dst data).

Definition timestampObf_Obfuscate (dst src : list Z) : option (list Z) :=
  overwrite dst 4 (be_bytes 4 (u32 now)).

Definition randObf_Obfuscate (i : nat) (len : Z) (dst src : list Z) : option (list Z) :=
  overwrite dst (Z.to_nat len) (rand_Read i (Z.to_nat len)).

Definition randCharObf_Obfuscate (i : nat) (len : Z) (dst src : list Z) : option (list Z) :=
  overwrite dst (Z.to_nat len) (map (pick chars52) (rand_Read i (Z.to_nat len))).

Definition randDigitObf_Obfuscate (i : nat) (len : Z) (dst src : list Z) : option (list Z) :=
  overwrite dst (Z.to_nat len) (map (pick digits10) (rand_Read i (Z.to_nat len))).

Definition dataObf_Obfuscate (dst src : list Z) : option (list Z) := Some (copy dst src).

Definition dataStringObf_Obfuscate (dst src : list Z) : option (list Z) :=
  overwrite dst (length (base64_encode src)) (base64_encode src).

(** The source's length, the last byte first. *)
Definition dataSizeObf_Obfuscate (len : Z) (dst src : list Z) : option (list Z) :=
  overwrite dst (Z.to_nat len) (be_bytes (Z.to_nat len) (Z.of_nat (length src))).

(** The call of [Obfuscate] through the interface [obf]; [i] numbers the
    calls of [rand.Read]. *)
Definition Obfuscate1 (i : nat) (o : obf) (dst src : list Z) : option (list Z) :=
  match o with
  | bytesObf data => bytesObf_Obfuscate data dst src
  | timestampObf => timestampObf_Obfuscate dst src
  | randObf len => randObf_Obfuscate i len dst src
  | randCharObf len => randCharObf_Obfuscate i len dst src
  | randDigitObf len => randDigitObf_Obfuscate i len dst src
  | dataObf => dataObf_Obfuscate dst src
  | dataStringObf => dataStringObf_Obfuscate dst src
  | dataSizeObf len => dataSizeObf_Obfuscate len dst src
  end.

(** [Obfuscate]: each generator gets its slice of [dst]. *)
Fixpoint Obfuscate_from (i : nat) (os : list obf) (dst src : list Z) (written : Z) : option (list Z) :=
  match os with
  | [] => Some dst
  | o :: os' =>
      let obfLen := ObfuscatedLen1 o (Z.of_nat (length src)) in
      if (obfLen <? 0) || (Z.of_nat (length dst) <? written + obfLen) then None
      else
        let w := Z.to_nat written in let e := Z.to_nat (written + obfLen) in
        seg ← Obfuscate1 i o (take (Z.to_nat obfLen) (drop w dst)) src;
        Obfuscate_from (S i) os' (take w dst ++ seg ++ drop e dst) src (written + obfLen)
  end.

Definition Obfuscate (c : obfChain) (dst src : list Z) : option (list Z) :=
  Obfuscate_from 0 (obfs c) dst src 0.

(** The decoy packet [SendHandshakeInitiation] makes of a chain. *)
Definition decoy_packet (c : obfChain) : option (list Z) :=
  Obfuscate c (repeat 0 (Z.to_nat (chain_ObfuscatedLen c 0))) [].

(** The bytes of each part of a decoy packet. *)
Definition part (i : nat) (o : obf) : list Z :=
  match o with
  | bytesObf data => data
  | timestampObf => be_bytes 4 (u32 now)
  | randObf len => rand_Read i (Z.to_nat len)
  | randCharObf len => map (pick chars52) (rand_Read i (Z.to_nat len))
  | randDigitObf len => map (pick digits10) (rand_Read i (Z.to_nat len))
  | dataObf | dataStringObf => []
  | dataSizeObf len => be_bytes (Z.to_nat len) 0
  end.

Fixpoint parts (i : nat) (os : list obf) : list Z :=
  match os with
  | [] => []
  | o :: os' => part i o ++ parts (S i) os'
  end.

(** [rand.Read] fills the buffer it is given with bytes. *)
Definition rand_Read_ok : Prop :=
  forall i n, length (rand_Read i n) = n /\ Forall is_u8 (rand_Read i n).

Definition total (os : list obf) : Z := foldl (fun t o => t + ObfuscatedLen1 o 0) 0 os.

(** What every builder guarantees of a generator. *)
Definition obf_ok (o : obf) : Prop :=
  match o with
  | bytesObf data => Forall is_u8 data /\ data <> [] /\ Z.of_nat (length data) <= awgMaxPacketSize
  | randObf len | randCharObf len | randDigitObf len | dataSizeObf len => 0 <= len <= awgMaxPacketSize
  | timestampObf | dataObf | dataStringObf => True
  end.

(** ** Lemmas: filling *)

Lemma part_length i o : rand_Read_ok -> obf_ok o -> Z.of_nat (length (part i o)) = ObfuscatedLen1 o 0.
Proof.
  intros Hr Ho. destruct o; cbn [part ObfuscatedLen1 obf_ok] in *;
    rewrite ?length_map, ?be_bytes_length, ?(proj1 (Hr _ _)), ?Z2Nat.id by lia; done.
Qed.

Lemma pick_u8 alphabet b :
  Forall is_u8 alphabet -> is_u8 (pick alphabet b).
Proof.
  intros Ha. unfold pick. destruct (alphabet !! _) as [x|] eqn:Hx; cbn; [|unfold is_u; lia].
  by eapply Forall_lookup_1.
Qed.

Lemma part_u8 i o : rand_Read_ok -> obf_ok o -> Forall is_u8 (part i o).
Proof.
  intros Hr Ho. destruct o; cbn [part obf_ok] in *;
    try apply Hr; try apply be_bytes_u8; try tauto; try constructor;
    apply Forall_map, Forall_forall; intros b _; apply pick_u8; by_eval.
Qed.

Lemma Obfuscate1_part i o dst :
  rand_Read_ok -> obf_ok o -> Z.of_nat (length dst) = ObfuscatedLen1 o 0 ->
  Obfuscate1 i o dst [] = Some (part i o).
Proof.
  intros Hr Ho Hl. pose proof (part_length i o Hr Ho) as Hp. rewrite <- Hl in Hp. apply Nat2Z.inj in Hp.
  assert (Hov : forall n, Z.of_nat n = ObfuscatedLen1 o 0 -> overwrite dst n (part i o) = Some (part i o)).
  { intros n Hn. unfold overwrite. rewrite decide_False by lia. by rewrite drop_ge, app_nil_r by lia. }
  destruct o as [data| |n|n|n| | |n]; cbn [part ObfuscatedLen1 obf_ok Obfuscate1] in *;
    try (apply Hov; lia).
  - unfold bytesObf_Obfuscate. rewrite copy_exact by lia. done.
  - by destruct dst.
  - apply (Hov 0%nat). done.
Qed.

Lemma total_shift os a n :
  foldl (fun t o => t + ObfuscatedLen1 o n) a os = a + foldl (fun t o => t + ObfuscatedLen1 o n) 0 os.
Proof.
  revert a. induction os as [|o os IH]; intros a; cbn [foldl]; [lia|].
  rewrite IH, (IH (0 + _)). lia.
Qed.

Lemma total_cons o os : total (o :: os) = ObfuscatedLen1 o 0 + total os.
Proof. unfold total. cbn [foldl]. rewrite total_shift. lia. Qed.

Lemma ObfuscatedLen1_nonneg o : obf_ok o -> 0 <= ObfuscatedLen1 o 0.
Proof. intros Ho. destruct o; cbn [ObfuscatedLen1 obf_ok] in *; try lia. done. Qed.

Lemma total_nonneg os : Forall obf_ok os -> 0 <= total os.
Proof.
  induction 1 as [|o os Ho _ IH]; [done|]. rewrite total_cons. apply ObfuscatedLen1_nonneg in Ho. lia.
Qed.

Lemma Obfuscate_from_parts i os pre dst :
  rand_Read_ok -> Forall obf_ok os -> Z.of_nat (length dst) = total os ->
  Obfuscate_from i os (pre ++ dst) [] (Z.of_nat (length pre)) = Some (pre ++ parts i os).
Proof.
  intros Hr Hos. revert i pre dst. induction Hos as [|o os Ho Hos IH]; intros i pre dst Hl.
  { destruct dst; [done | cbn in Hl; lia]. }
  rewrite total_cons in Hl. pose proof (ObfuscatedLen1_nonneg o Ho). pose proof (total_nonneg os Hos).
  cbn [Obfuscate_from parts length]. change (Z.of_nat 0) with 0. set (n := ObfuscatedLen1 o 0) in *.
  rewrite length_app, Nat2Z.inj_add. rewrite (proj2 (Z.ltb_ge n 0)), (proj2 (Z.ltb_ge _ _)) by lia. cbn [orb].
  rewrite Nat2Z.id, drop_app_length, take_app_length.
  rewrite (Obfuscate1_part i o) by (done || (rewrite length_take; lia)). red_bind.
  pose proof (part_length i o Hr Ho) as Hp. fold n in Hp.
  rewrite <- Hp, <- Nat2Z.inj_add, Nat2Z.id, drop_app_add, app_assoc, <- length_app.
  rewrite IH by (rewrite length_drop; lia). by rewrite <- app_assoc.
Qed.

Lemma parts_u8 i os : rand_Read_ok -> Forall obf_ok os -> Forall is_u8 (parts i os).
Proof.
  intros Hr Hos. revert i. induction Hos as [|o os Ho _ IH]; intros i; cbn [parts]; [constructor|].
  apply Forall_app. split; [by apply part_u8 | apply IH].
Qed.

Lemma parts_length i os : rand_Read_ok -> Forall obf_ok os -> Z.of_nat (length (parts i os)) = total os.
Proof.
  intros Hr Hos. revert i. induction Hos as [|o os Ho _ IH]; intros i; cbn [parts]; [done|].
  rewrite length_app, Nat2Z.inj_add, total_cons, IH, part_length by done. done.
Qed.

Lemma decoy_parts spec os : rand_Read_ok -> Forall obf_ok os -> decoy_packet (mkChain spec os) = Some (parts 0 os).
Proof.
  intros Hr Hok. unfold decoy_packet, Obfuscate, chain_ObfuscatedLen. cbn [obfs]. fold (total os). pose proof (total_nonneg os Hok).
  pose proof (Obfuscate_from_parts 0 os [] (repeat 0 (Z.to_nat (total os))) Hr Hok) as Hp.
  rewrite repeat_length, Z2Nat.id in Hp by done. by specialize (Hp eq_refl).
Qed.

End Fill.

(** ** Lemmas: parsing *)

Lemma parseCPSLength_range val n : parseCPSLength val = Some n -> 0 <= n <= awgMaxPacketSize.
Proof.
  unfold parseCPSLength. destruct (Atoi val) as [m|]; [|done]. red_bind.
  destruct (Z.ltb_spec m 0), (Z.gtb_spec m awgMaxPacketSize); try done. intros [= <-]. lia.
Qed.

Lemma newBytesObf_ok val o : newBytesObf val = Some o -> obf_ok o.
Proof.
  unfold newBytesObf. set (v := TrimPrefix val _). destruct (Nat.eqb_spec (length v) 0) as [|Hne]; [done|].
  destruct (negb _); [done|]. destruct (Z.gtb_spec (Z.of_nat (length v / 2)) awgMaxPacketSize); [done|].
  destruct (hex_DecodeString v) as [d|] eqn:Hd; [|done]. red_bind. intros [= <-].
  apply hex_Decode_spec in Hd as [Hu Hl]. rewrite Hl, Nat.mul_comm, Nat.div_mul in * by lia. cbn.
  split_and!; [done | | lia]. intros ->. cbn in *. lia.
Qed.

Lemma parse_tag_ok tag o : parse_tag tag = Some o -> obf_ok o.
Proof.
  unfold parse_tag. destruct (Fields tag) as [|key rest]; [done|].
  set (val := match rest with [] => [] | _ => _ end). cbn [find_builder obfBuilders].
  repeat destruct (decide _); red_bind; try done; try apply newBytesObf_ok;
    try (by intros [= <-]);
    unfold newRandObf, newRandCharObf, newRandDigitsObf, newDataSizeObf;
    (destruct (parseCPSLength val) as [len|] eqn:Hlen; [|done]); intros [= <-]; by eapply parseCPSLength_range.
Qed.

Lemma total_snoc os o : total (os ++ [o]) = total os + ObfuscatedLen1 o 0.
Proof. unfold total. by rewrite foldl_app. Qed.

Lemma chain_loop_ok fuel s acc failed os :
  Forall obf_ok acc -> total acc <= awgMaxPacketSize ->
  chain_loop fuel s (total acc) acc failed = Some os -> Forall obf_ok os /\ total os <= awgMaxPacketSize.
Proof.
  revert s acc failed. induction fuel as [|fuel IH]; intros s acc failed Hacc Ht; [done|]. cbn [chain_loop].
  destruct (IndexByte s langle) as [start|]; [|by destruct failed; intros [= <-]].
  destruct (IndexByte (drop start s) rangle) as [e|]; [|done]. red_bind.
  destruct (parse_tag _) as [o|] eqn:Ho; [|by apply IH].
  destruct (Z.ltb_spec (ObfuscatedLen1 o 0) 0), (Z.gtb_spec (ObfuscatedLen1 o 0) (awgMaxPacketSize - total acc)); try done.
  cbn [orb]. rewrite <- total_snoc. apply IH; [|rewrite total_snoc; lia].
  apply Forall_app. split; [done|]. repeat constructor. by eapply parse_tag_ok.
Qed.

(** The fuel is enough: more does not change the result. *)
Lemma chain_loop_fuel f s t acc failed :
  (length s < f)%nat -> chain_loop f s t acc failed = chain_loop (S (length s)) s t acc failed.
Proof.
  revert f t acc failed. induction s as [s IH] using (induction_ltof1 _ (@length Z)).
  intros [|f] t acc failed Hf; [lia|]. cbn [chain_loop].
  destruct (IndexByte s langle) as [start|] eqn:Hs; [|done].
  destruct (IndexByte (drop start s) rangle) as [e|]; [|done]. red_bind.
  set (r := drop (S e) (drop start s)).
  assert (Hr : (length r < length s)%nat).
  { subst r. rewrite !length_drop. apply IndexByte_Some in Hs as [He _].
    apply (f_equal length) in He. rewrite length_app in He. cbn in He. lia. }
  destruct (parse_tag _) as [o|].
  - destruct (_ || _); [done|]. rewrite (IH r Hr f), (IH r Hr (length s)) by lia. done.
  - rewrite (IH r Hr f), (IH r Hr (length s)) by lia. done.
Qed.

(** ** The canonical text of a chain *)

Definition print_arg (name arg : list Z) : list Z := [langle] ++ name ++ [32] ++ arg ++ [rangle].

Definition print_obf (o : obf) : list Z :=
  match o with
  | bytesObf data => print_arg (str "b") (str "0x" ++ hex_EncodeToString data)
  | timestampObf => str "<t>"
  | randObf n => print_arg (str "r") (FormatUint n)
  | randCharObf n => print_arg (str "rc") (FormatUint n)
  | randDigitObf n => print_arg (str "rd") (FormatUint n)
  | dataObf => str "<d>"
  | dataStringObf => str "<ds>"
  | dataSizeObf n => print_arg (str "dz") (FormatUint n)
  end.

Definition print_chain (os : list obf) : list Z := flat_map print_obf os.

(** The text between the brackets. *)
Definition obf_tag (o : obf) : list Z :=
  match o with
  | bytesObf data => str "b" ++ 32 :: str "0x" ++ hex_EncodeToString data
  | timestampObf => str "t"
  | randObf n => str "r" ++ 32 :: FormatUint n
  | randCharObf n => str "rc" ++ 32 :: FormatUint n
  | randDigitObf n => str "rd" ++ 32 :: FormatUint n
  | dataObf => str "d"
  | dataStringObf => str "ds"
  | dataSizeObf n => str "dz" ++ 32 :: FormatUint n
  end.

Lemma print_obf_tag o : print_obf o = langle :: obf_tag o ++ [rangle].
Proof.
  destruct o; cbn [print_obf obf_tag]; unfold print_arg; cbn [app]; rewrite <- ?app_assoc; reflexivity.
Qed.

Lemma number_tag (key : list Z) n build :
  forallb graphic key = true -> key <> [] -> 0 <= n <= awgMaxPacketSize ->
  find_builder obfBuilders key = Some (fun val => n ← parseCPSLength val; Some (build n)) ->
  parse_tag (key ++ 32 :: FormatUint n) = Some (build n).
Proof.
  intros Hk Hne Hn Hb. unfold parse_tag.
  rewrite Fields_two by (done || apply FormatUint_not_nil || (apply digits_graphic, FormatUint_digit; lia)).
  rewrite Hb. red_bind. unfold parseCPSLength. rewrite Atoi_Format by (unfold awgMaxPacketSize, MaxMessageSize in *; lia).
  red_bind. rewrite (proj2 (Z.ltb_ge n 0)), Z.gtb_ltb, (proj2 (Z.ltb_ge _ n)) by lia. done.
Qed.

Lemma parse_obf_tag o : obf_ok o -> parse_tag (obf_tag o) = Some o.
Proof.
  intros Ho. destruct o as [data| |n|n|n| | |n]; cbn [obf_tag obf_ok] in *; try reflexivity;
    try (apply (number_tag _ n); [reflexivity | done | done | reflexivity]).
  destruct Ho as (Hu & Hne & Hl). unfold parse_tag.
  rewrite Fields_two; [|done| |done|done].
  2: { rewrite forallb_app. rewrite hex_Encode_graphic by done. reflexivity. }
  cbn [find_builder obfBuilders]. rewrite decide_True by done. red_bind. unfold newBytesObf.
  replace (TrimPrefix (str "0x" ++ hex_EncodeToString data) (str "0x")) with (hex_EncodeToString data).
  2: { unfold TrimPrefix, HasPrefix. rewrite take_app_length, bool_decide_true by done. by rewrite drop_app_length. }
  rewrite hex_Encode_length, (Nat.mul_comm 2), Nat.Div0.mod_mul, Nat.div_mul by lia.
  rewrite (proj2 (Nat.eqb_neq _ 0)) by (destruct data; [done | cbn; lia]).
  cbn [negb Nat.eqb]. rewrite Z.gtb_ltb, (proj2 (Z.ltb_ge _ _)) by lia.
  by rewrite hex_roundtrip.
Qed.

Lemma arg_no_rangle key arg : rangle ∉ key -> rangle ∉ arg -> rangle ∉ key ++ 32 :: arg.
Proof. rewrite elem_of_app, elem_of_cons. intros Hk Ha [?|[?|?]]; [done | by unfold rangle in * | done]. Qed.

Lemma obf_tag_no_rangle o : obf_ok o -> rangle ∉ obf_tag o.
Proof.
  intros Ho. assert (Hn : forall n, 0 <= n <= awgMaxPacketSize -> rangle ∉ FormatUint n).
  { intros n Hn. by apply FormatUint_no_byte; [lia|]. }
  destruct o as [data| |n|n|n| | |n]; cbn [obf_tag obf_ok] in *;
    [ |by_eval| | | |by_eval|by_eval| ]; (apply arg_no_rangle; [by_eval|]); try by apply Hn.
  rewrite elem_of_app. intros [Hin|Hin]; revert Hin; [by_eval|].
  apply hex_Encode_no_byte; [tauto | unfold rangle; lia].
Qed.

Lemma chain_loop_print os acc fuel :
  Forall obf_ok os -> total acc + total os <= awgMaxPacketSize ->
  (length (print_chain os) < fuel)%nat ->
  chain_loop fuel (print_chain os) (total acc) acc false = Some (acc ++ os).
Proof.
  intros Hos. revert acc fuel. induction Hos as [|o os Ho Hos IH]; intros acc fuel Ht Hf.
  { destruct fuel; [lia|]. cbn. by rewrite app_nil_r. }
  rewrite total_cons in Ht. pose proof (ObfuscatedLen1_nonneg o Ho). pose proof (total_nonneg os Hos).
  destruct fuel as [|fuel]; [lia|]. unfold print_chain in *. cbn [flat_map] in *.
  rewrite print_obf_tag in *. rewrite <- app_comm_cons, <- app_assoc in *. cbn [app] in *.
  cbn [chain_loop IndexByte]. rewrite Z.eqb_refl. rewrite drop_0.
  assert (Hi : IndexByte (langle :: obf_tag o ++ rangle :: flat_map print_obf os) rangle = Some (S (length (obf_tag o)))).
  { apply (IndexByte_app (langle :: obf_tag o)). rewrite not_elem_of_cons. split; [done | by apply obf_tag_no_rangle]. }
  rewrite Hi. red_bind. cbn [take drop]. rewrite drop_0, take_app_length, parse_obf_tag by done.
  rewrite (proj2 (Z.ltb_ge _ 0)), Z.gtb_ltb, (proj2 (Z.ltb_ge _ _)) by lia. cbn [orb].
  rewrite <- total_snoc, cons_middle, app_assoc, drop_app_length'.
  - rewrite IH; [by rewrite <- app_assoc | rewrite total_snoc; lia |].
    cbn [length] in Hf. rewrite length_app in Hf. cbn [length] in Hf. lia.
  - rewrite length_app. cbn. lia.
Qed.

(** ** Properties *)

(** A chain the parser accepts always yields its decoy packet: filling
    never runs out of its buffer, the packet is the concatenation of the parts
    the tags describe, every element is a byte, and its length is the computed
    one and fits one UDP datagram (65507 bytes). *)
Theorem decoy_packet_complete now rand_Read spec c :
  rand_Read_ok rand_Read -> newObfChain spec = Some c ->
  exists pkt, decoy_packet now rand_Read c = Some pkt /\ pkt = parts now rand_Read 0 (obfs c) /\
    Forall is_u8 pkt /\ Z.of_nat (length pkt) = chain_ObfuscatedLen c 0 /\ chain_ObfuscatedLen c 0 <= 65507.
Proof.
  intros Hr. unfold newObfChain. destruct (chain_loop _ spec 0 [] false) as [os|] eqn:Hl; [|done].
  intros [= <-]. apply (chain_loop_ok _ _ []) in Hl as [Hok Ht]; [|constructor|done].
  rewrite decoy_parts by done. eexists. split_and!; [done | done | by apply parts_u8 | by apply parts_length |].
  unfold chain_ObfuscatedLen. cbn [obfs]. fold (total os). unfold awgMaxPacketSize in Ht. lia.
Qed.

Lemma decoy_packet_complete_witness :
  exists c pkt, newObfChain (str "<b 0xc0ff><t><rc 3>") = Some c /\
    decoy_packet 1700000000 (fun _ n => repeat 77 n) c = Some pkt /\ length pkt = 9%nat.
Proof.
  eexists. destruct (decoy_packet_complete 1700000000 (fun _ n => repeat 77 n) (str "<b 0xc0ff><t><rc 3>")
    (mkChain (str "<b 0xc0ff><t><rc 3>") [bytesObf [192; 255]; timestampObf; randCharObf 3]))
    as (pkt & Hp & -> & _).
  - intros i n. split; [apply repeat_length|]. apply list.Forall_forall.
    intros x Hx%list_elem_of_In%repeat_spec. subst. unfold is_u. lia.
  - vm_compute. reflexivity.
  - eexists. split; [vm_compute; reflexivity|]. split; [exact Hp | vm_compute; reflexivity].
Defined.

(** The tag language is unambiguous and complete for the generators: the
    text of any list of valid generators that fits a datagram parses back to
    exactly that list. *)
Theorem chain_print_parse os :
  Forall obf_ok os -> total os <= awgMaxPacketSize ->
  newObfChain (print_chain os) = Some (mkChain (print_chain os) os).
Proof.
  intros Hok Ht. unfold newObfChain.
  rewrite (chain_loop_print os []); [done | done | cbn; lia | lia].
Qed.

Lemma chain_print_parse_witness :
  newObfChain (str "<b 0x00ff><r 16><dz 2>") =
  Some (mkChain (str "<b 0x00ff><r 16><dz 2>") [bytesObf [0; 255]; randObf 16; dataSizeObf 2]).
Proof.
  apply (chain_print_parse [bytesObf [0; 255]; randObf 16; dataSizeObf 2]).
  - repeat constructor; unfold is_u, awgMaxPacketSize, MaxMessageSize; cbn; lia || done.
  - vm_compute. discriminate.
Defined.

End ObfChain.
