(* ===== verification/Messages.v ===== *)
(** * Handshake messages and their wire form

    Models the message types of submodules/wireguard-go/device/noise-protocol.go
    with [marshal] and [unmarshal], write by write at the offsets of the code.
    Integers are little-endian. *)

From S2P Require Import Prelude Bits Bytes.

Module Messages.

Local Open Scope Z_scope.

Definition MessageUnknownType : Z := 0.
Definition MessageInitiationType : Z := 1.
Definition MessageResponseType : Z := 2.
Definition MessageCookieReplyType : Z := 3.
Definition MessageTransportType : Z := 4.

Definition TagSize : nat := 16.
Definition NoisePublicKeySize : nat := 32.
Definition TimestampSize : nat := 12.
Definition Size128 : nat := 16.
Definition NonceSizeX : nat := 24.

Definition MessageInitiationSize : nat := 148.
Definition MessageResponseSize : nat := 92.
Definition MessageCookieReplySize : nat := 64.
Definition MessageTransportHeaderSize : nat := 16.
Definition MessageTransportSize : nat := MessageTransportHeaderSize + TagSize.

Record MessageInitiation := mkInitiation {
  init_Type : Z;
  init_Sender : Z;
  init_Ephemeral : list Z;
  init_Static : list Z;
  init_Timestamp : list Z;
  init_MAC1 : list Z;
  init_MAC2 : list Z
}.

Record MessageResponse := mkResponse {
  resp_Type : Z;
  resp_Sender : Z;
  resp_Receiver : Z;
  resp_Ephemeral : list Z;
  resp_Empty : list Z;
  resp_MAC1 : list Z;
  resp_MAC2 : list Z
}.

Record MessageCookieReply := mkCookieReply {
  cookie_Type : Z;
  cookie_Receiver : Z;
  cookie_Nonce : list Z;
  cookie_Cookie : list Z
}.

(** ** MessageInitiation *)

Definition init_unmarshal (b : list Z) : option MessageInitiation :=
  if negb (length b =? MessageInitiationSize)%nat then None
  else
    t ← le_Uint32 b;
    s ← le_Uint32 (drop 4 b);
    Some (mkInitiation t s
      (field b 8 NoisePublicKeySize)
      (field b (8 + NoisePublicKeySize) (NoisePublicKeySize + TagSize))
      (field b (8 + NoisePublicKeySize + (NoisePublicKeySize + TagSize)) (TimestampSize + TagSize))
      (field b (8 + NoisePublicKeySize + (NoisePublicKeySize + TagSize) + (TimestampSize + TagSize)) Size128)
      (field b (8 + NoisePublicKeySize + (NoisePublicKeySize + TagSize) + (TimestampSize + TagSize) + Size128) Size128)).

Definition init_marshal (msg : MessageInitiation) (b : list Z) : option (list Z) :=
  if negb (length b =? MessageInitiationSize)%nat then None
  else
    b ← put_le b 0 4 (init_Type msg);
    b ← put_le b 4 4 (init_Sender msg);
    b ← copy_at b 8 (init_Ephemeral msg);
    b ← copy_at b (8 + length (init_Ephemeral msg)) (init_Static msg);
    b ← copy_at b (8 + length (init_Ephemeral msg) + length (init_Static msg)) (init_Timestamp msg);
    b ← copy_at b (8 + length (init_Ephemeral msg) + length (init_Static msg) + length (init_Timestamp msg))
          (init_MAC1 msg);
    copy_at b (8 + length (init_Ephemeral msg) + length (init_Static msg) + length (init_Timestamp msg)
               + length (init_MAC1 msg)) (init_MAC2 msg).

(** ** MessageResponse *)

Definition resp_unmarshal (b : list Z) : option MessageResponse :=
  if negb (length b =? MessageResponseSize)%nat then None
  else
    t ← le_Uint32 b;
    s ← le_Uint32 (drop 4 b);
    r ← le_Uint32 (drop 8 b);
    Some (mkResponse t s r
      (field b 12 NoisePublicKeySize)
      (field b (12 + NoisePublicKeySize) TagSize)
      (field b (12 + NoisePublicKeySize + TagSize) Size128)
      (field b (12 + NoisePublicKeySize + TagSize + Size128) Size128)).

Definition resp_marshal (msg : MessageResponse) (b : list Z) : option (list Z) :=
  if negb (length b =? MessageResponseSize)%nat then None
  else
    b ← put_le b 0 4 (resp_Type msg);
    b ← put_le b 4 4 (resp_Sender msg);
    b ← put_le b 8 4 (resp_Receiver msg);
    b ← copy_at b 12 (resp_Ephemeral msg);
    b ← copy_at b (12 + length (resp_Ephemeral msg)) (resp_Empty msg);
    b ← copy_at b (12 + length (resp_Ephemeral msg) + length (resp_Empty msg)) (resp_MAC1 msg);
    copy_at b (12 + length (resp_Ephemeral msg) + length (resp_Empty msg) + length (resp_MAC1 msg)) (resp_MAC2 msg).

(** ** MessageCookieReply *)

Definition cookie_unmarshal (b : list Z) : option MessageCookieReply :=
  if negb (length b =? MessageCookieReplySize)%nat then None
  else
    t ← le_Uint32 b;
    r ← le_Uint32 (drop 4 b);
    Some (mkCookieReply t r (field b 8 NonceSizeX) (field b (8 + NonceSizeX) (Size128 + TagSize))).

Definition cookie_marshal (msg : MessageCookieReply) (b : list Z) : option (list Z) :=
  if negb (length b =? MessageCookieReplySize)%nat then None
  else
    b ← put_le b 0 4 (cookie_Type msg);
    b ← put_le b 4 4 (cookie_Receiver msg);
    b ← copy_at b 8 (cookie_Nonce msg);
    copy_at b (8 + length (cookie_Nonce msg)) (cookie_Cookie msg).

(** ** What the types of the fields promise *)

Definition bytes_of_len (n : nat) (l : list Z) : Prop := length l = n /\ Forall is_u8 l.

Definition init_ok (m : MessageInitiation) : Prop :=
  is_u32 (init_Type m) /\ is_u32 (init_Sender m) /\
  bytes_of_len 32 (init_Ephemeral m) /\ bytes_of_len 48 (init_Static m) /\ bytes_of_len 28 (init_Timestamp m) /\
  bytes_of_len 16 (init_MAC1 m) /\ bytes_of_len 16 (init_MAC2 m).

Definition resp_ok (m : MessageResponse) : Prop :=
  is_u32 (resp_Type m) /\ is_u32 (resp_Sender m) /\ is_u32 (resp_Receiver m) /\
  bytes_of_len 32 (resp_Ephemeral m) /\ bytes_of_len 16 (resp_Empty m) /\
  bytes_of_len 16 (resp_MAC1 m) /\ bytes_of_len 16 (resp_MAC2 m).

Definition cookie_ok (m : MessageCookieReply) : Prop :=
  is_u32 (cookie_Type m) /\ is_u32 (cookie_Receiver m) /\
  bytes_of_len 24 (cookie_Nonce m) /\ bytes_of_len 32 (cookie_Cookie m).

(** The bytes of each message. *)
Definition init_bytes (m : MessageInitiation) : list Z :=
  le_bytes 4 (init_Type m) ++ le_bytes 4 (init_Sender m) ++ init_Ephemeral m ++ init_Static m ++
  init_Timestamp m ++ init_MAC1 m ++ init_MAC2 m.

Definition resp_bytes (m : MessageResponse) : list Z :=
  le_bytes 4 (resp_Type m) ++ le_bytes 4 (resp_Sender m) ++ le_bytes 4 (resp_Receiver m) ++
  resp_Ephemeral m ++ resp_Empty m ++ resp_MAC1 m ++ resp_MAC2 m.

Definition cookie_bytes (m : MessageCookieReply) : list Z :=
  le_bytes 4 (cookie_Type m) ++ le_bytes 4 (cookie_Receiver m) ++ cookie_Nonce m ++ cookie_Cookie m.

(** ** Lemmas: layouts

    A layout is a list of fields; writing each field at the sum of the lengths
    before it produces their concatenation, whatever the buffer held. *)

Lemma split_at (b pre : list Z) n :
  (length pre + n <= length b)%nat -> take (length pre) b = pre ->
  exists mid post, b = pre ++ mid ++ post /\ length mid = n.
Proof.
  intros Hl Hp. exists (take n (drop (length pre) b)), (drop n (drop (length pre) b)).
  rewrite take_drop, <- Hp at 1. rewrite take_drop. split; [done|]. rewrite length_take, length_drop. lia.
Qed.

Lemma write_next b pre f off :
  off = length pre -> (length pre + length f <= length b)%nat -> take (length pre) b = pre ->
  exists b', copy_at b off f = Some b' /\ length b' = length b /\ take (length (pre ++ f)) b' = pre ++ f.
Proof.
  intros -> Hl Hp. destruct (split_at b pre (length f) Hl Hp) as (mid & post & -> & Hm).
  rewrite copy_at_app by done. eexists. split; [done|]. split; [rewrite !length_app; lia|].
  by rewrite app_assoc, take_app_length.
Qed.

Lemma put_next b pre n v off :
  off = length pre -> (length pre + n <= length b)%nat -> take (length pre) b = pre ->
  exists b', put_le b off n v = Some b' /\ length b' = length b /\
    take (length (pre ++ le_bytes n v)) b' = pre ++ le_bytes n v.
Proof.
  intros -> Hl Hp. destruct (split_at b pre n Hl Hp) as (mid & post & -> & Hm).
  rewrite put_le_app by done. eexists. split; [done|]. split; [rewrite !length_app, le_bytes_length; lia|].
  by rewrite app_assoc, take_app_length.
Qed.

Ltac len_tac := rewrite ?length_app, ?le_bytes_length; cbn [length]; lia.

(** One write of a marshaller, given the bytes written so far. *)
Ltac write_step :=
  match goal with
  | T : take (length ?pre) ?b = ?pre |- context [put_le ?b ?off ?n ?v] =>
      let b' := fresh "b" in let L := fresh "L" in let T' := fresh "T" in
      destruct (put_next b pre n v off) as (b' & -> & L & T'); [len_tac | len_tac | exact T |];
      clear T; red_bind
  | T : take (length ?pre) ?b = ?pre |- context [copy_at ?b ?off ?f] =>
      let b' := fresh "b" in let L := fresh "L" in let T' := fresh "T" in
      destruct (write_next b pre f off) as (b' & -> & L & T'); [len_tac | len_tac | exact T |];
      clear T; red_bind
  end.

(** The last write: everything has been written. *)
Ltac write_done :=
  match goal with
  | T : take (length ?w) ?b = ?w |- Some ?b = Some _ =>
      rewrite take_ge in T by len_tac; rewrite T; f_equal; rewrite <- ?app_assoc; done
  end.

Lemma init_marshal_bytes m b : init_ok m -> length b = 148%nat -> init_marshal m b = Some (init_bytes m).
Proof.
  intros (_ & _ & [L1 _] & [L2 _] & [L3 _] & [L4 _] & [L5 _]) Hb. unfold init_marshal, init_bytes.
  rewrite (proj2 (Nat.eqb_eq (length b) MessageInitiationSize) Hb). cbn [negb].
  assert (T : take (length (@nil Z)) b = []) by done. do 7 write_step. write_done.
Qed.

Lemma resp_marshal_bytes m b : resp_ok m -> length b = 92%nat -> resp_marshal m b = Some (resp_bytes m).
Proof.
  intros (_ & _ & _ & [L1 _] & [L2 _] & [L3 _] & [L4 _]) Hb. unfold resp_marshal, resp_bytes.
  rewrite (proj2 (Nat.eqb_eq (length b) MessageResponseSize) Hb). cbn [negb].
  assert (T : take (length (@nil Z)) b = []) by done. do 7 write_step. write_done.
Qed.

Lemma cookie_marshal_bytes m b : cookie_ok m -> length b = 64%nat -> cookie_marshal m b = Some (cookie_bytes m).
Proof.
  intros (_ & _ & [L1 _] & [L2 _]) Hb. unfold cookie_marshal, cookie_bytes.
  rewrite (proj2 (Nat.eqb_eq (length b) MessageCookieReplySize) Hb). cbn [negb].
  assert (T : take (length (@nil Z)) b = []) by done. do 4 write_step. write_done.
Qed.

(** Reading a field of a concatenation of fields of known lengths. *)
Ltac read_field :=
  rewrite ?field_skip by len_tac; first [apply field_here; len_tac | apply field_last; len_tac].

Ltac read_word := rewrite ?drop_app_ge by len_tac; rewrite ?le_bytes_length; cbn [Nat.sub]; rewrite ?drop_0, le_Uint32_bytes by done; red_bind.

Lemma init_unmarshal_bytes m : init_ok m -> init_unmarshal (init_bytes m) = Some m.
Proof.
  intros (U1 & U2 & [L1 _] & [L2 _] & [L3 _] & [L4 _] & [L5 _]). unfold init_unmarshal, init_bytes.
  rewrite (proj2 (Nat.eqb_eq _ MessageInitiationSize)) by (unfold MessageInitiationSize; len_tac). cbn [negb].
  do 2 read_word. destruct m. cbn -[field le_bytes app] in *.
  unfold NoisePublicKeySize, TagSize, TimestampSize, Size128. f_equal. f_equal; read_field.
Qed.

Lemma resp_unmarshal_bytes m : resp_ok m -> resp_unmarshal (resp_bytes m) = Some m.
Proof.
  intros (U1 & U2 & U3 & [L1 _] & [L2 _] & [L3 _] & [L4 _]). unfold resp_unmarshal, resp_bytes.
  rewrite (proj2 (Nat.eqb_eq _ MessageResponseSize)) by (unfold MessageResponseSize; len_tac). cbn [negb].
  do 3 read_word. destruct m. cbn -[field le_bytes app] in *.
  unfold NoisePublicKeySize, TagSize, Size128. f_equal. f_equal; read_field.
Qed.

Lemma cookie_unmarshal_bytes m : cookie_ok m -> cookie_unmarshal (cookie_bytes m) = Some m.
Proof.
  intros (U1 & U2 & [L1 _] & [L2 _]). unfold cookie_unmarshal, cookie_bytes.
  rewrite (proj2 (Nat.eqb_eq _ MessageCookieReplySize)) by (unfold MessageCookieReplySize; len_tac). cbn [negb].
  do 2 read_word. destruct m. cbn -[field le_bytes app] in *.
  unfold NonceSizeX, TagSize, Size128. f_equal. f_equal; read_field.
Qed.

(** Consecutive fields join back to the buffer. *)
Ltac join_fields b :=
  repeat match goal with
  | |- context [field b ?off ?n ++ drop ?k b] =>
      rewrite (field_split b off n : field b off n ++ drop k b = drop off b)
  end; apply drop_0.

Lemma field_bytes b off n : Forall is_u8 b -> (off + n <= length b)%nat -> bytes_of_len n (field b off n).
Proof. intros Hb Hl. split; [by apply field_length | by apply field_u8]. Qed.

Lemma field_tail b off n : (off + n = length b)%nat -> field b off n = drop off b.
Proof. intros Hl. unfold field. apply take_ge. rewrite length_drop. lia. Qed.

Lemma init_unmarshal_inv b m :
  Forall is_u8 b -> init_unmarshal b = Some m -> init_ok m /\ init_bytes m = b.
Proof.
  intros Hb. unfold init_unmarshal. destruct (Nat.eqb_spec (length b) MessageInitiationSize) as [Hl|]; [|done].
  unfold MessageInitiationSize in Hl. cbn [negb]. rewrite <- (drop_0 b) at 1.
  rewrite !le_Uint32_field by lia. red_bind. intros [= <-].
  unfold NoisePublicKeySize, TagSize, TimestampSize, Size128. cbn [Nat.add]. split.
  - split_and!; cbn; try (apply (le_field_range b _ 4 Hb); lia); apply field_bytes; done || lia.
  - unfold init_bytes. cbn [init_Type init_Sender init_Ephemeral init_Static init_Timestamp init_MAC1 init_MAC2].
    rewrite !le_field_bytes by (done || lia). rewrite (field_tail b 132 16) by lia. join_fields b.
Qed.

Lemma resp_unmarshal_inv b m :
  Forall is_u8 b -> resp_unmarshal b = Some m -> resp_ok m /\ resp_bytes m = b.
Proof.
  intros Hb. unfold resp_unmarshal. destruct (Nat.eqb_spec (length b) MessageResponseSize) as [Hl|]; [|done].
  unfold MessageResponseSize in Hl. cbn [negb]. rewrite <- (drop_0 b) at 1.
  rewrite !le_Uint32_field by lia. red_bind. intros [= <-].
  unfold NoisePublicKeySize, TagSize, Size128. cbn [Nat.add]. split.
  - split_and!; cbn; try (apply (le_field_range b _ 4 Hb); lia); apply field_bytes; done || lia.
  - unfold resp_bytes. cbn [resp_Type resp_Sender resp_Receiver resp_Ephemeral resp_Empty resp_MAC1 resp_MAC2].
    rewrite !le_field_bytes by (done || lia). rewrite (field_tail b 76 16) by lia. join_fields b.
Qed.

Lemma cookie_unmarshal_inv b m :
  Forall is_u8 b -> cookie_unmarshal b = Some m -> cookie_ok m /\ cookie_bytes m = b.
Proof.
  intros Hb. unfold cookie_unmarshal. destruct (Nat.eqb_spec (length b) MessageCookieReplySize) as [Hl|]; [|done].
  unfold MessageCookieReplySize in Hl. cbn [negb]. rewrite <- (drop_0 b) at 1.
  rewrite !le_Uint32_field by lia. red_bind. intros [= <-].
  unfold NonceSizeX, TagSize, Size128. cbn [Nat.add]. split.
  - split_and!; cbn; try (apply (le_field_range b _ 4 Hb); lia); apply field_bytes; done || lia.
  - unfold cookie_bytes. cbn [cookie_Type cookie_Receiver cookie_Nonce cookie_Cookie].
    rewrite !le_field_bytes by (done || lia). rewrite (field_tail b 32 32) by lia. join_fields b.
Qed.

(** ** Property *)

(** [marshal] and [unmarshal] are inverse: a message of each of the three
    handshake types survives the wire whatever the buffer held before, and every
    buffer of the right size is exactly the bytes of the message read from it.
    Buffers of any other size are rejected by both. *)
Theorem handshake_messages_roundtrip :
  (forall m b, init_ok m -> length b = 148%nat -> (init_marshal m b ≫= init_unmarshal) = Some m) /\
  (forall m b, resp_ok m -> length b = 92%nat -> (resp_marshal m b ≫= resp_unmarshal) = Some m) /\
  (forall m b, cookie_ok m -> length b = 64%nat -> (cookie_marshal m b ≫= cookie_unmarshal) = Some m) /\
  (forall b, Forall is_u8 b ->
    (length b = 148%nat -> exists m, init_unmarshal b = Some m /\ forall b0, length b0 = 148%nat -> init_marshal m b0 = Some b) /\
    (length b = 92%nat -> exists m, resp_unmarshal b = Some m /\ forall b0, length b0 = 92%nat -> resp_marshal m b0 = Some b) /\
    (length b = 64%nat -> exists m, cookie_unmarshal b = Some m /\ forall b0, length b0 = 64%nat -> cookie_marshal m b0 = Some b)) /\
  (forall b m, length b <> 148%nat -> init_unmarshal b = None /\ init_marshal m b = None) /\
  (forall b m, length b <> 92%nat -> resp_unmarshal b = None /\ resp_marshal m b = None) /\
  (forall b m, length b <> 64%nat -> cookie_unmarshal b = None /\ cookie_marshal m b = None).
Proof.
  split_and!.
  - intros m b Hm Hb. rewrite init_marshal_bytes by done. by apply init_unmarshal_bytes.
  - intros m b Hm Hb. rewrite resp_marshal_bytes by done. by apply resp_unmarshal_bytes.
  - intros m b Hm Hb. rewrite cookie_marshal_bytes by done. by apply cookie_unmarshal_bytes.
  - intros b Hb. split_and!; intros Hl.
    + destruct (init_unmarshal b) as [m|] eqn:Hm.
      * exists m. split; [done|]. intros b0 Hb0. apply init_unmarshal_inv in Hm as [Hok <-]; [|done].
        by apply init_marshal_bytes.
      * unfold init_unmarshal in Hm. rewrite (proj2 (Nat.eqb_eq _ MessageInitiationSize) Hl) in Hm.
        rewrite <- (drop_0 b), drop_drop, !le_Uint32_field in Hm by lia. done.
    + destruct (resp_unmarshal b) as [m|] eqn:Hm.
      * exists m. split; [done|]. intros b0 Hb0. apply resp_unmarshal_inv in Hm as [Hok <-]; [|done].
        by apply resp_marshal_bytes.
      * unfold resp_unmarshal in Hm. rewrite (proj2 (Nat.eqb_eq _ MessageResponseSize) Hl) in Hm.
        rewrite <- (drop_0 b), !drop_drop, !le_Uint32_field in Hm by lia. done.
    + destruct (cookie_unmarshal b) as [m|] eqn:Hm.
      * exists m. split; [done|]. intros b0 Hb0. apply cookie_unmarshal_inv in Hm as [Hok <-]; [|done].
        by apply cookie_marshal_bytes.
      * unfold cookie_unmarshal in Hm. rewrite (proj2 (Nat.eqb_eq _ MessageCookieReplySize) Hl) in Hm.
        rewrite <- (drop_0 b), drop_drop, !le_Uint32_field in Hm by lia. done.
  - intros b m Hl. unfold init_unmarshal, init_marshal. by rewrite (proj2 (Nat.eqb_neq _ MessageInitiationSize) Hl).
  - intros b m Hl. unfold resp_unmarshal, resp_marshal. by rewrite (proj2 (Nat.eqb_neq _ MessageResponseSize) Hl).
  - intros b m Hl. unfold cookie_unmarshal, cookie_marshal. by rewrite (proj2 (Nat.eqb_neq _ MessageCookieReplySize) Hl).
Qed.

Lemma handshake_messages_roundtrip_witness :
  (cookie_marshal (mkCookieReply 3 7 (repeat 1 24) (repeat 2 32)) (repeat 0 64) ≫= cookie_unmarshal) =
  Some (mkCookieReply 3 7 (repeat 1 24) (repeat 2 32)).
Proof.
  apply (proj1 (proj2 (proj2 handshake_messages_roundtrip))); [|reflexivity].
  split_and!; by_eval.
Defined.

End Messages.
