(* ===== verification/Wire.v ===== *)
(** * Framing of AmneziaWG handshakes and classification of received datagrams

    Models the wire layer of submodules/wireguard-go/device: [awgPacketSize],
    [handshakeWireConfig] and [frameHandshake] of send.go, and
    [prepareReceivedPacket] and [determinePacketTypeAndPadding] of receive.go.
    A handshake travels as a clear random prefix, the core with an optional
    ChaCha20 mask ("header protection", keyed by the first 12 bytes), and an
    optional random trailer.  ChaCha20 and the random sources are parameters. *)

From S2P Require Import Prelude Bits Bytes GoStrings MagicHeader ObfChain Messages.

Module Wire.

Import MagicHeader Messages.

Local Open Scope Z_scope.

Abbreviation awgMaxPacketSize := ObfChain.awgMaxPacketSize.

Definition HeaderCipherKeySize : nat := 32.
Definition HeaderCipherNonceSize : Z := 12.
Definition MinMessageSize : Z := Z.of_nat MessageTransportSize.

Definition awgPacketSize (prefix content overhead : Z) : option Z :=
  if (prefix <? 0) || (content <? 0) || (overhead <? 0) || (overhead >? awgMaxPacketSize)
     || (prefix >? awgMaxPacketSize - overhead) || (content >? awgMaxPacketSize - overhead - prefix)
  then None
  else Some (prefix + content + overhead).

(** The part of [Device] the lock [wireMu] protects, and [randomTrailers]. *)
Record wireState := mkWire {
  h_init : option magicHeader;
  h_response : option magicHeader;
  h_cookie : option magicHeader;
  h_transport : option magicHeader;
  p_init : Z;
  p_response : Z;
  p_cookie : Z;
  p_transport : Z;
  hp_key : option (list Z);
  randomTrailers : bool
}.

(** [HeaderCipherKey.IsZero] *)
Definition key_is_zero (key : list Z) : bool := forallb (fun b => b =? 0) key.

Section Wire.

(** The first [n] bytes of the ChaCha20 key stream of a key and a nonce. *)
Context (chacha20 : list Z -> list Z -> nat -> list Z).

(** [XORKeyStream] of a fresh cipher. *)
Definition xor_stream (cipher : list Z * list Z) (data : list Z) : list Z :=
  xor_bytes data (chacha20 (fst cipher) (snd cipher) (length data)).

(** [HeaderProtectionCipher]: a cipher is its key and nonce, [None] is nil. *)
Definition HeaderProtectionCipher (w : wireState) (salt : list Z) : option (list Z * list Z) :=
  match hp_key w with
  | None => None
  | Some key => if key_is_zero key then None else Some (key, salt)
  end.

(** ** Sending *)

Record handshakeWireConfig := mkConfig {
  header : Z;
  prefix : Z;
  size : Z;
  key : list Z;
  cfg_randomTrailers : bool
}.

Definition zero_key : list Z := repeat 0 HeaderCipherKeySize.

(** A nil header pointer and an empty draw are panics. *)
Definition snapshot (rand_Int : Z -> Z) (w : wireState) (msgType : Z) : option handshakeWireConfig :=
  '(h, p, s) ←
    (if msgType =? MessageInitiationType then
       mh ← h_init w; h ← Generate rand_Int mh; Some (h, p_init w, Z.of_nat MessageInitiationSize)
     else if msgType =? MessageResponseType then
       mh ← h_response w; h ← Generate rand_Int mh; Some (h, p_response w, Z.of_nat MessageResponseSize)
     else if msgType =? MessageCookieReplyType then
       mh ← h_cookie w; h ← Generate rand_Int mh; Some (h, p_cookie w, Z.of_nat MessageCookieReplySize)
     else Some (0, 0, 0));
  Some (mkConfig h p s (default zero_key (hp_key w)) (randomTrailers w)).

(** [frameHandshake]; [rand_prefix] and [rand_trailer] are the bytes the two
    calls of [rand.Read] give for a length ([crypto/rand] documents that
    [Read] never returns an error). *)
Definition frameHandshake (fastrandn : Z -> Z) (rand_prefix rand_trailer : nat -> list Z)
    (config : handshakeWireConfig) (core : list Z) (window : Z) : option (list Z) :=
  if size config =? 0 then None
  else
    base ← awgPacketSize (prefix config) (size config) 0;
    if negb (Z.of_nat (length core) =? size config) then None
    else
      let protected := negb (key_is_zero (key config)) in
      if protected && (prefix config <? HeaderCipherNonceSize) then None
      else
        let window := Z.min window awgMaxPacketSize in
        let trailer := if cfg_randomTrailers config && (window >? base)
                       then fastrandn (u32 (window - base)) else 0 in
        let clear := rand_prefix (Z.to_nat (prefix config)) in
        let sealed := if protected then xor_stream (key config, take (Z.to_nat HeaderCipherNonceSize) clear) core
                      else core in
        Some (clear ++ sealed ++ rand_trailer (Z.to_nat trailer)).

(** ** Receiving *)

(** [indexTable.Lookup(receiver).keypair != nil] *)
Context (live : Z -> bool).

Definition header_matches (h : option magicHeader) (val : Z) : bool :=
  match h with Some h => Validate h val | None => false end.

(** The key stream bytes the classifier undoes, zeros without protection. *)
Definition classifier_mask (w : wireState) (packet : list Z) (n : nat) : option (list Z) :=
  if (HeaderCipherNonceSize <=? Z.of_nat (length packet)) && bool_decide (hp_key w <> None) then
    salt ← slice packet 0 HeaderCipherNonceSize;
    match HeaderProtectionCipher w salt with
    | Some cip => Some (xor_stream cip (repeat 0 n))
    | None => Some (repeat 0 n)
    end
  else Some (repeat 0 n).

Inductive verdict := Return (msgType padding : Z) | Continue (transportMatched : option Z).

(** The transport fast path. *)
Definition transport_block (w : wireState) (packet : list Z) (expectedType : Z) : option verdict :=
  let size := Z.of_nat (length packet) in
  let padding := p_transport w in
  let mismatch := if expectedType =? MessageTransportType then Return MessageUnknownType 0 else Continue None in
  match awgPacketSize padding 0 (Z.of_nat MessageTransportSize) with
  | None => Some mismatch
  | Some expectedSize =>
      if size >=? expectedSize then
        data ← slice_from packet padding;
        val ← le_Uint32 data;
        h ← classifier_mask w packet 8;
        let val := Z.lxor val (le_uint (take 4 h)) in
        if header_matches (h_transport w) val then
          if expectedType =? MessageTransportType then Some (Return MessageTransportType padding)
          else
            r ← slice data 4 8;
            let receiver := Z.lxor (le_uint r) (le_uint (drop 4 h)) in
            if live receiver then Some (Return MessageTransportType padding)
            else Some (Continue (Some padding))
        else Some mismatch
      else Some mismatch
  end.

(** One of the three handshake blocks; [None] inside is "no match here". *)
Definition handshake_block (w : wireState) (packet : list Z) (expectedType msgType padding : Z)
    (header : option magicHeader) (coreSize : nat) (typeHash : Z) : option (option (Z * Z)) :=
  let size := Z.of_nat (length packet) in
  if (expectedType =? MessageUnknownType) || (expectedType =? msgType) then
    match awgPacketSize padding (Z.of_nat coreSize) 0 with
    | None => Some None
    | Some expectedSize =>
        if (size =? expectedSize) || (randomTrailers w && (size >? expectedSize)) then
          data ← slice_from packet padding;
          val ← le_Uint32 data;
          Some (if header_matches header (Z.lxor val typeHash) then Some (msgType, padding) else None)
        else Some None
    end
  else Some None.

Definition determinePacketTypeAndPadding (w : wireState) (packet : list Z) (expectedType : Z) : option (Z * Z) :=
  let size := Z.of_nat (length packet) in
  if (size <? MinMessageSize) || (size >? awgMaxPacketSize) then Some (MessageUnknownType, 0)
  else
    t ← (if (expectedType =? MessageUnknownType) || (expectedType =? MessageTransportType)
         then transport_block w packet expectedType else Some (Continue None));
    match t with
    | Return msgType padding => Some (msgType, padding)
    | Continue matched =>
        h ← classifier_mask w packet 4;
        let typeHash := le_uint h in
        r ← handshake_block w packet expectedType MessageInitiationType (p_init w) (h_init w) MessageInitiationSize typeHash;
        match r with Some r => Some r | None =>
        r ← handshake_block w packet expectedType MessageResponseType (p_response w) (h_response w) MessageResponseSize typeHash;
        match r with Some r => Some r | None =>
        r ← handshake_block w packet expectedType MessageCookieReplyType (p_cookie w) (h_cookie w) MessageCookieReplySize typeHash;
        match r with Some r => Some r | None =>
        match matched with
        | Some padding => Some (MessageTransportType, padding)
        | None => Some (MessageUnknownType, 0)
        end end end end
    end.

(** The core and the number of its bytes under header protection. *)
Definition core_sizes (packet : list Z) (msgType pfx : Z) : Z * Z :=
  if msgType =? MessageInitiationType then (Z.of_nat MessageInitiationSize, Z.of_nat MessageInitiationSize)
  else if msgType =? MessageResponseType then (Z.of_nat MessageResponseSize, Z.of_nat MessageResponseSize)
  else if msgType =? MessageCookieReplyType then (Z.of_nat MessageCookieReplySize, Z.of_nat MessageCookieReplySize)
  else (Z.of_nat (length packet) - pfx, Z.of_nat MessageTransportHeaderSize).

(** [prepareReceivedPacket]: the core is moved to the front of the buffer. *)
Definition prepareReceivedPacket (w : wireState) (packet : list Z) : option (list Z * Z * Z) :=
  '(msgType, pfx) ← determinePacketTypeAndPadding w packet MessageUnknownType;
  if msgType =? MessageUnknownType then Some ([], MessageUnknownType, 0)
  else
    let '(coreSize, protectedSize) := core_sizes packet msgType pfx in
    core ← slice packet pfx (pfx + coreSize);
    match hp_key w with
    | Some key =>
        if key_is_zero key then
          core' ← slice (copy packet core) 0 coreSize; Some (core', msgType, pfx)
        else if pfx <? HeaderCipherNonceSize then Some ([], MessageUnknownType, 0)
        else
          salt ← slice packet 0 HeaderCipherNonceSize;
          masked ← slice core 0 protectedSize;
          rest ← slice_from core protectedSize;
          let core := xor_stream (key, salt) masked ++ rest in
          core' ← slice (copy packet core) 0 coreSize; Some (core', msgType, pfx)
    | None =>
        core' ← slice (copy packet core) 0 coreSize; Some (core', msgType, pfx)
    end.

(** ** Specification *)

(** ChaCha20's key stream: bytes, and longer requests extend shorter ones. *)
Definition chacha20_ok : Prop :=
  forall k n len, length (chacha20 k n len) = len /\ Forall is_u8 (chacha20 k n len) /\
    forall m, (m <= len)%nat -> take m (chacha20 k n len) = chacha20 k n m.

Definition header_of (w : wireState) (t : Z) : option magicHeader :=
  if t =? MessageInitiationType then h_init w
  else if t =? MessageResponseType then h_response w
  else if t =? MessageCookieReplyType then h_cookie w
  else h_transport w.

Definition padding_of (w : wireState) (t : Z) : Z :=
  if t =? MessageInitiationType then p_init w
  else if t =? MessageResponseType then p_response w
  else if t =? MessageCookieReplyType then p_cookie w
  else p_transport w.

Definition size_of (t : Z) : nat :=
  if t =? MessageInitiationType then MessageInitiationSize
  else if t =? MessageResponseType then MessageResponseSize
  else if t =? MessageCookieReplyType then MessageCookieReplySize
  else MessageTransportSize.

Definition is_type (t : Z) : Prop := 1 <= t <= 4.

Definition protected (w : wireState) : bool :=
  match hp_key w with Some key => negb (key_is_zero key) | None => false end.

(** What the configuration protocol enforces before it installs a state. *)
Definition disjoint (a b : magicHeader) : Prop := end_ a < start b \/ end_ b < start a.

Definition paddings_ok (w : wireState) : Prop :=
  forall t, is_type t -> 0 <= padding_of w t /\ padding_of w t + Z.of_nat (size_of t) <= awgMaxPacketSize /\
    (protected w = true -> HeaderCipherNonceSize <= padding_of w t).

Definition headers_ok (w : wireState) : Prop :=
  (forall t, is_type t -> exists h, header_of w t = Some h /\ wf_header h /\ ~ full_width h) /\
  (forall t1 t2 a b, is_type t1 -> is_type t2 -> t1 <> t2 ->
     header_of w t1 = Some a -> header_of w t2 = Some b -> disjoint a b).

Definition wire_ok (w : wireState) : Prop := paddings_ok w /\ headers_ok w.

(** The message-type word a packet shows at an offset once the mask is undone. *)
Definition type_word (w : wireState) (packet : list Z) (off : Z) : option Z :=
  data ← slice_from packet off;
  val ← le_Uint32 data;
  h ← classifier_mask w packet 4;
  Some (Z.lxor val (le_uint h)).

(** No other message type reads its own header at its own offset. *)
Definition no_clash (w : wireState) (packet : list Z) (t : Z) : Prop :=
  forall t' v, is_type t' -> t' <> t -> type_word w packet (padding_of w t') = Some v ->
    header_matches (header_of w t') v = false.

(** ** Lemmas: sizes *)

Lemma awgPacketSize_some pfx content overhead :
  0 <= pfx -> 0 <= content -> 0 <= overhead -> pfx + content + overhead <= awgMaxPacketSize ->
  awgPacketSize pfx content overhead = Some (pfx + content + overhead).
Proof.
  intros Hp Hc Ho Ht. unfold awgPacketSize. rewrite !Z.gtb_ltb.
  rewrite (proj2 (Z.ltb_ge pfx 0)), (proj2 (Z.ltb_ge content 0)), (proj2 (Z.ltb_ge overhead 0)) by lia.
  rewrite (proj2 (Z.ltb_ge awgMaxPacketSize overhead)), (proj2 (Z.ltb_ge _ pfx)), (proj2 (Z.ltb_ge _ content)) by lia.
  done.
Qed.

Lemma awgPacketSize_inv pfx content overhead n :
  awgPacketSize pfx content overhead = Some n ->
  n = pfx + content + overhead /\ 0 <= pfx /\ 0 <= content /\ 0 <= overhead /\ n <= awgMaxPacketSize.
Proof.
  unfold awgPacketSize. rewrite !Z.gtb_ltb.
  destruct (Z.ltb_spec pfx 0), (Z.ltb_spec content 0), (Z.ltb_spec overhead 0); try done.
  destruct (Z.ltb_spec awgMaxPacketSize overhead), (Z.ltb_spec (awgMaxPacketSize - overhead) pfx),
    (Z.ltb_spec (awgMaxPacketSize - overhead - pfx) content); try done.
  intros [= <-]. lia.
Qed.

(** ** Lemmas: the classifier is total *)

Section Total.
Context (Hcc : chacha20_ok) (w : wireState) (packet : list Z).

Lemma classifier_mask_total n :
  exists h, classifier_mask w packet n = Some h /\ length h = n.
Proof.
  unfold classifier_mask. destruct (Z.leb_spec HeaderCipherNonceSize (Z.of_nat (length packet))) as [Hl|]; cbn [andb].
  2: { eexists. split; [done | apply repeat_length]. }
  case_bool_decide; [|eexists; split; [done | apply repeat_length]].
  rewrite slice_some by (unfold HeaderCipherNonceSize in *; lia). red_bind.
  destruct (HeaderProtectionCipher w _) as [cip|]; (eexists; split; [done|]); [|apply repeat_length].
  unfold xor_stream. by rewrite xor_bytes_length, ?repeat_length by (by rewrite (proj1 (Hcc _ _ _))).
Qed.

(** A transport verdict names the transport padding, which the packet covers. *)
Definition covers (pad : Z) (n : nat) : Prop := 0 <= pad /\ pad + Z.of_nat n <= Z.of_nat (length packet).

Lemma transport_block_total expected :
  exists v, transport_block w packet expected = Some v /\
    match v with
    | Return t pad => (t = 4 /\ pad = p_transport w /\ covers pad 32) \/ (t = 0 /\ pad = 0)
    | Continue (Some pad) => pad = p_transport w /\ covers pad 32
    | Continue None => True
    end.
Proof.
  unfold transport_block. change (Z.of_nat MessageTransportSize) with 32. set (mis := if expected =? _ then _ else _).
  assert (Hmis : match mis with Return t pad => t = 0 /\ pad = 0 | Continue m => m = None end)
    by (subst mis; by destruct (expected =? MessageTransportType)).
  assert (Hm : exists v, Some mis = Some v /\ match v with
    | Return t pad => (t = 4 /\ pad = p_transport w /\ covers pad 32) \/ (t = 0 /\ pad = 0)
    | Continue (Some pad) => pad = p_transport w /\ covers pad 32
    | Continue None => True end).
  { exists mis. split; [done|]. destruct mis as [t pad|m]; [by right | by rewrite Hmis]. }
  destruct (awgPacketSize (p_transport w) 0 _) as [n|] eqn:Hn; [|done].
  apply awgPacketSize_inv in Hn as (-> & Hp & _ & _ & _). rewrite Z.geb_leb.
  destruct (Z.leb_spec (p_transport w + 0 + 32) (Z.of_nat (length packet))) as [Hl|]; [|done].
  assert (Hcov : covers (p_transport w) 32) by (unfold covers; lia).
  rewrite slice_from_some by lia. red_bind. unfold le_Uint32.
  rewrite decide_False by (rewrite length_drop; lia). red_bind.
  destruct (classifier_mask_total 8) as (h & -> & _). red_bind.
  destruct (header_matches _ _); [|done]. destruct (expected =? MessageTransportType); [eexists; split; [done | by left]|].
  rewrite slice_some by (rewrite ?length_drop; lia). red_bind.
  destruct (live _); eexists; (split; [done|]); [by left | done].
Qed.

Lemma handshake_block_total expected t pad h n hash :
  (4 <= n)%nat ->
  exists r, handshake_block w packet expected t pad h n hash = Some r /\
    match r with Some (t', pad') => t' = t /\ pad' = pad /\ covers pad n | None => True end.
Proof.
  intros Hn. unfold handshake_block. destruct (_ || _); [|by eexists].
  destruct (awgPacketSize pad (Z.of_nat n) 0) as [m|] eqn:Hm; [|by eexists].
  apply awgPacketSize_inv in Hm as (-> & Hp & _ & _ & _).
  destruct ((_ =? _) || _) eqn:Hs; [|by eexists].
  assert (covers pad n).
  { unfold covers. apply orb_true_iff in Hs as [Hs|Hs]; [apply Z.eqb_eq in Hs; lia|].
    apply andb_true_iff in Hs as [_ Hs]. rewrite Z.gtb_lt in Hs. lia. }
  unfold covers in *. rewrite slice_from_some by lia. red_bind. unfold le_Uint32.
  rewrite decide_False by (rewrite length_drop; lia). red_bind.
  destruct (header_matches _ _); by eexists.
Qed.

(** Every verdict is a type whose core the packet holds after the padding. *)
Lemma determine_total expected :
  exists t pad, determinePacketTypeAndPadding w packet expected = Some (t, pad) /\
    ((t = 0 /\ pad = 0) \/ (is_type t /\ pad = padding_of w t /\ covers pad (size_of t))).
Proof.
  unfold determinePacketTypeAndPadding.
  destruct (_ || _); [by eexists _, _; split; [|left]|].
  assert (exists v, (if (expected =? MessageUnknownType) || (expected =? MessageTransportType)
    then transport_block w packet expected else Some (Continue None)) = Some v /\ match v with
    | Return t pad => (t = 4 /\ pad = p_transport w /\ covers pad 32) \/ (t = 0 /\ pad = 0)
    | Continue (Some pad) => pad = p_transport w /\ covers pad 32
    | Continue None => True end) as (v & -> & Hv)
    by (destruct (_ || _); [apply transport_block_total | by eexists]).
  red_bind. destruct v as [t pad|m].
  { exists t, pad. split; [done|]. destruct Hv as [(-> & -> & ?)|[-> ->]]; [right; split; [unfold is_type; lia|done] | by left]. }
  destruct (classifier_mask_total 4) as (h & -> & _). red_bind.
  destruct (handshake_block_total expected MessageInitiationType (p_init w) (h_init w) MessageInitiationSize (le_uint h)) as (r1 & -> & H1); [by_eval|].
  red_bind. destruct r1 as [[t pad]|]; [destruct H1 as (-> & -> & ?); by eexists _, _; split; [|right]|].
  destruct (handshake_block_total expected MessageResponseType (p_response w) (h_response w) MessageResponseSize (le_uint h)) as (r2 & -> & H2); [by_eval|].
  red_bind. destruct r2 as [[t pad]|]; [destruct H2 as (-> & -> & ?); by eexists _, _; split; [|right]|].
  destruct (handshake_block_total expected MessageCookieReplyType (p_cookie w) (h_cookie w) MessageCookieReplySize (le_uint h)) as (r3 & -> & H3); [by_eval|].
  red_bind. destruct r3 as [[t pad]|]; [destruct H3 as (-> & -> & ?); by eexists _, _; split; [|right]|].
  destruct m as [pad|]; [|by eexists _, _; split; [|left]].
  destruct Hv as [-> Hc]. eexists _, _. split; [done|]. by right.
Qed.

(** The core moved to the front of the buffer is the core. *)
Lemma move_front core n :
  Z.of_nat (length core) = n -> n <= Z.of_nat (length packet) -> slice (copy packet core) 0 n = Some core.
Proof.
  intros Hc Hn. rewrite slice_some by (rewrite ?copy_length; lia). rewrite drop_0, Z.sub_0_r.
  unfold copy. rewrite (take_ge core) by lia. rewrite <- Hc, Nat2Z.id. by rewrite take_app_length.
Qed.

Lemma core_sizes_of t pad :
  is_type t -> covers pad (size_of t) ->
  exists coreSize protectedSize, core_sizes packet t pad = (coreSize, protectedSize) /\
    0 <= protectedSize <= coreSize /\ pad + coreSize <= Z.of_nat (length packet) /\
    (t <> 4 -> coreSize = Z.of_nat (size_of t) /\ protectedSize = coreSize) /\
    (t = 4 -> coreSize = Z.of_nat (length packet) - pad /\ protectedSize = 16 /\ 32 <= coreSize).
Proof.
  unfold is_type, covers, core_sizes, size_of, MessageInitiationType, MessageResponseType, MessageCookieReplyType,
    MessageInitiationSize, MessageResponseSize, MessageCookieReplySize, MessageTransportSize, MessageTransportHeaderSize, TagSize.
  intros Ht Hc. destruct (Z.eqb_spec t 1), (Z.eqb_spec t 2), (Z.eqb_spec t 3); eexists _, _; (split; [done|]); lia.
Qed.

(** What [prepareReceivedPacket] gives the rest of the receiver. *)
Definition prepared (core : list Z) (t pad : Z) : Prop :=
  (core = [] /\ t = 0 /\ pad = 0) \/
  (is_type t /\ pad = padding_of w t /\
   (t <> 4 -> length core = size_of t) /\
   (t = 4 -> Z.of_nat (length core) = Z.of_nat (length packet) - pad /\ (32 <= length core)%nat)).

Lemma prepare_total :
  exists core t pad, prepareReceivedPacket w packet = Some (core, t, pad) /\ prepared core t pad.
Proof.
  unfold prepareReceivedPacket. destruct (determine_total MessageUnknownType) as (t & pad & -> & Hd). red_bind.
  assert (Hunknown : exists core t' pad', Some ([], MessageUnknownType, 0) = Some (core, t', pad') /\ prepared core t' pad')
    by (eexists [], 0, 0; split; [done | by left]).
  destruct Hd as [[-> ->]|(Ht & Hpad & Hc)]; [exact Hunknown|].
  rewrite (proj2 (Z.eqb_neq t MessageUnknownType)) by (unfold is_type, MessageUnknownType in *; lia).
  destruct (core_sizes_of t pad Ht Hc) as (cs & ps & -> & Hps & Hcs & Hh & Htr).
  assert (Hprep : forall core, Z.of_nat (length core) = cs -> prepared core t pad).
  { intros core Hl. right. unfold size_of in *. split_and!; [done | done | |]; intros Ht4.
    - destruct (Hh Ht4). lia.
    - destruct (Htr Ht4) as (? & _ & ?). lia. }
  unfold covers in Hc. rewrite (slice_some packet pad) by lia. red_bind.
  set (core := take _ (drop _ packet)).
  assert (Hcore : Z.of_nat (length core) = cs) by (subst core; rewrite length_take, length_drop; lia).
  assert (Hplain : exists core0 t' pad', (core' ← slice (copy packet core) 0 cs; Some (core', t, pad)) = Some (core0, t', pad') /\ prepared core0 t' pad').
  { rewrite move_front by lia. red_bind. eauto 8. }
  destruct (hp_key w) as [key|]; [|done]. destruct (key_is_zero key); [done|].
  destruct (Z.ltb_spec pad HeaderCipherNonceSize) as [|Hpn]; [exact Hunknown|]. unfold HeaderCipherNonceSize in *.
  rewrite (slice_some packet), (slice_some core), slice_from_some by lia. red_bind.
  rewrite move_front; [red_bind; eexists _, _, _; split; [done|]; apply Hprep | | lia];
    rewrite length_app; unfold xor_stream; rewrite xor_bytes_length, length_take, drop_0, !length_drop
      by (by rewrite (proj1 (Hcc _ _ _))); lia.
Qed.

End Total.

(** ** Lemmas: the type word *)

Section Word.
Context (Hcc : chacha20_ok) (w : wireState) (packet : list Z).

Lemma mask_extends h8 : classifier_mask w packet 8 = Some h8 -> classifier_mask w packet 4 = Some (take 4 h8).
Proof.
  unfold classifier_mask. destruct (_ && _); [|by intros [= <-]].
  destruct (slice packet 0 HeaderCipherNonceSize) as [salt|]; [|done]. red_bind.
  destruct (HeaderProtectionCipher w salt) as [[k n]|]; [|by intros [= <-]].
  intros [= <-]. unfold xor_stream. cbn [fst snd]. rewrite !repeat_length.
  cbn [length]. destruct (Hcc k n 8%nat) as (_ & _ & Hp). by rewrite xor_bytes_take, (Hp 4%nat) by lia.
Qed.

Lemma handshake_block_skip t pad h n m :
  classifier_mask w packet 4 = Some m ->
  (forall v, type_word w packet pad = Some v -> header_matches h v = false) -> (4 <= n)%nat ->
  handshake_block w packet MessageUnknownType t pad h n (le_uint m) = Some None.
Proof.
  intros Hm Hno Hn.
  destruct (handshake_block_total w packet MessageUnknownType t pad h n (le_uint m) Hn) as (r & Hr & _).
  rewrite Hr. destruct r as [r|]; [|done]. exfalso. revert Hr.
  unfold handshake_block. rewrite Z.eqb_refl. cbn [orb].
  destruct (awgPacketSize _ _ _); [|done]. destruct (_ || _); [|done].
  unfold type_word in Hno. destruct (slice_from packet pad) as [data|]; [|done]. red_bind.
  destruct (le_Uint32 data) as [v|]; [|done]. red_bind. rewrite Hm in Hno. red_bind.
  by rewrite (Hno _ eq_refl).
Qed.

Lemma handshake_block_hit t pad h n m v :
  classifier_mask w packet 4 = Some m -> type_word w packet pad = Some v -> header_matches h v = true ->
  0 <= pad -> pad + Z.of_nat n <= awgMaxPacketSize ->
  (Z.of_nat (length packet) = pad + Z.of_nat n \/
   (randomTrailers w = true /\ pad + Z.of_nat n < Z.of_nat (length packet))) ->
  handshake_block w packet MessageUnknownType t pad h n (le_uint m) = Some (Some (t, pad)).
Proof.
  intros Hm Hw Hh Hp Hmax Hs. unfold handshake_block. rewrite Z.eqb_refl. cbn [orb].
  rewrite awgPacketSize_some, Z.add_0_r by lia.
  assert ((Z.of_nat (length packet) =? pad + Z.of_nat n) || (randomTrailers w && (Z.of_nat (length packet) >? pad + Z.of_nat n)) = true) as ->.
  { apply orb_true_iff. rewrite andb_true_iff, Z.eqb_eq, Z.gtb_lt. tauto. }
  unfold type_word in Hw. destruct (slice_from packet pad) as [data|]; [|done]. red_bind.
  destruct (le_Uint32 data) as [v'|]; [|done]. red_bind. rewrite Hm in Hw. red_bind.
  injection Hw as Hw. by rewrite Hw, Hh.
Qed.

Lemma transport_block_skip :
  (forall v, type_word w packet (p_transport w) = Some v -> header_matches (h_transport w) v = false) ->
  transport_block w packet MessageUnknownType = Some (Continue None).
Proof.
  intros Hno. unfold transport_block. change (MessageUnknownType =? MessageTransportType) with false. cbn match.
  destruct (awgPacketSize _ _ _) as [n|] eqn:Hn; [|done].
  apply awgPacketSize_inv in Hn as (-> & Hp & _ & _ & _). rewrite Z.geb_leb.
  change (Z.of_nat MessageTransportSize) with 32.
  destruct (Z.leb_spec (p_transport w + 0 + 32) (Z.of_nat (length packet))) as [Hl|]; [|done].
  destruct (classifier_mask_total Hcc w packet 8) as (h & Hh & _). rewrite Hh.
  apply mask_extends in Hh. unfold type_word in Hno. rewrite slice_from_some in * by lia. red_bind.
  destruct (le_Uint32 (drop _ packet)) as [v|] eqn:Hv.
  - red_bind. rewrite Hh in Hno. red_bind. by rewrite (Hno _ eq_refl).
  - unfold le_Uint32 in Hv. rewrite decide_False in Hv by (rewrite length_drop; lia). done.
Qed.

(** A packet whose type word is the header of [t] and of no other type. *)
Lemma determine_handshake t v :
  1 <= t <= 3 -> paddings_ok w ->
  type_word w packet (padding_of w t) = Some v -> header_matches (header_of w t) v = true ->
  no_clash w packet t -> Z.of_nat (length packet) <= awgMaxPacketSize ->
  (Z.of_nat (length packet) = padding_of w t + Z.of_nat (size_of t) \/
   (randomTrailers w = true /\ padding_of w t + Z.of_nat (size_of t) < Z.of_nat (length packet))) ->
  determinePacketTypeAndPadding w packet MessageUnknownType = Some (t, padding_of w t).
Proof.
  intros Ht Hpads Hw Hh Hno Hmax Hs. unfold determinePacketTypeAndPadding.
  assert (Hpt : 0 <= padding_of w t /\ padding_of w t + Z.of_nat (size_of t) <= awgMaxPacketSize)
    by (destruct (Hpads t) as (? & ? & _); [unfold is_type; lia | done]).
  assert (Hmin : (64 <= size_of t)%nat).
  { assert (t = 1 \/ t = 2 \/ t = 3) as [-> | [-> | ->]] by lia; cbv; lia. }
  rewrite (proj2 (Z.ltb_ge (Z.of_nat (length packet)) MinMessageSize)) by (cbv [MinMessageSize MessageTransportSize MessageTransportHeaderSize TagSize]; lia).
  rewrite Z.gtb_ltb, (proj2 (Z.ltb_ge _ _)) by lia. cbn [orb]. rewrite Z.eqb_refl. cbn [orb].
  assert (Hskip : forall t', is_type t' -> t' <> t -> forall v, type_word w packet (padding_of w t') = Some v ->
    header_matches (header_of w t') v = false) by (intros t' Ht' Hne v' Hv'; by apply (Hno t' v')).
  rewrite transport_block_skip by (apply (Hskip 4); [unfold is_type; lia | lia]). red_bind.
  destruct (classifier_mask_total Hcc w packet 4) as (m & Hm & _). rewrite Hm. red_bind.
  assert (t = 1 \/ t = 2 \/ t = 3) as [-> | [-> | ->]] by lia.
  - rewrite (handshake_block_hit _ _ _ _ _ v Hm Hw Hh) by tauto. done.
  - rewrite (handshake_block_skip _ (p_init w) (h_init w) _ m Hm (Hskip 1 ltac:(unfold is_type; lia) ltac:(lia))) by by_eval. red_bind.
    rewrite (handshake_block_hit _ _ _ _ _ v Hm Hw Hh) by tauto. done.
  - rewrite (handshake_block_skip _ (p_init w) (h_init w) _ m Hm (Hskip 1 ltac:(unfold is_type; lia) ltac:(lia))) by by_eval. red_bind.
    rewrite (handshake_block_skip _ (p_response w) (h_response w) _ m Hm (Hskip 2 ltac:(unfold is_type; lia) ltac:(lia))) by by_eval. red_bind.
    rewrite (handshake_block_hit _ _ _ _ _ v Hm Hw Hh) by tauto. done.
Qed.

End Word.

(** ** Lemmas: framing *)

Lemma key_is_zero_protected w : key_is_zero (default zero_key (hp_key w)) = negb (protected w).
Proof. unfold protected. destruct (hp_key w) as [k|]; cbn [default from_option id]; [by rewrite negb_involutive | done]. Qed.

Lemma snapshot_fields rand_Int w t :
  rand_Int_ok rand_Int -> headers_ok w -> 1 <= t <= 3 ->
  exists v, snapshot rand_Int w t =
    Some (mkConfig v (padding_of w t) (Z.of_nat (size_of t)) (default zero_key (hp_key w)) (randomTrailers w)) /\
    header_matches (header_of w t) v = true /\ is_u32 v.
Proof.
  intros Hr [Hh _] Ht. destruct (Hh t) as (h & Hht & Hwf & Hnf); [unfold is_type; lia|].
  destruct (Generate_valid rand_Int h Hr Hwf Hnf) as (v & Hg & Hv). exists v.
  rewrite Hht. cbn [header_matches]. unfold snapshot.
  assert (Hu : is_u32 v).
  { unfold Validate in Hv. rewrite andb_true_iff, !Z.leb_le in Hv. unfold wf_header in Hwf. unfold is_u. lia. }
  assert (t = 1 \/ t = 2 \/ t = 3) as [-> | [-> | ->]] by lia; unfold header_of in Hht; cbn in Hht; cbn -[Generate];
    rewrite Hht; red_bind; rewrite Hg; red_bind; done.
Qed.

Lemma core_sizes_handshake packet t pad :
  1 <= t <= 3 -> core_sizes packet t pad = (Z.of_nat (size_of t), Z.of_nat (size_of t)).
Proof. intros Ht. by assert (t = 1 \/ t = 2 \/ t = 3) as [-> | [-> | ->]] by lia. Qed.

Lemma handshake_size t : 1 <= t <= 3 -> (64 <= size_of t)%nat.
Proof. intros Ht. assert (t = 1 \/ t = 2 \/ t = 3) as [-> | [-> | ->]] by lia; cbv; lia. Qed.

(** What the classifier computes for a packet that starts with the clear bytes. *)
Lemma clear_mask (Hcc : chacha20_ok) (w : wireState) (clear rest : list Z) n :
  (protected w = true -> (12 <= length clear)%nat) ->
  classifier_mask w (clear ++ rest) n =
  Some (if protected w then chacha20 (default zero_key (hp_key w)) (take 12 clear) n else repeat 0 n).
Proof.
  intros Hprot. unfold classifier_mask, HeaderProtectionCipher, protected in *.
  destruct (hp_key w) as [k|] eqn:Hk; [|by rewrite bool_decide_false, andb_false_r by naive_solver].
  destruct (key_is_zero k) eqn:Hz; cbn [negb default from_option id].
  - destruct (_ && _) eqn:Hb; [|done]. apply andb_true_iff in Hb as [Hb _]. apply Z.leb_le in Hb.
    rewrite slice_some by (unfold HeaderCipherNonceSize in *; lia). done.
  - specialize (Hprot eq_refl). unfold HeaderCipherNonceSize in *.
    rewrite bool_decide_true, (proj2 (Z.leb_le _ _)) by (naive_solver || (rewrite length_app; lia)). cbn [andb].
    rewrite slice_some by (rewrite ?length_app; lia). red_bind. f_equal. unfold xor_stream. cbn [fst snd].
    rewrite repeat_length, drop_0, take_app_le by (change (Z.to_nat (12 - 0)) with 12%nat; lia).
    apply xor_bytes_zeros. by rewrite (proj1 (Hcc _ _ _)).
Qed.

Section Frame.
Context (Hcc : chacha20_ok) (w : wireState) (t v : Z) (core : list Z) (window : Z).
Context (fastrandn : Z -> Z) (rand_prefix rand_trailer : nat -> list Z).
Context (Hw : paddings_ok w) (Ht : 1 <= t <= 3).
Context (Hcore : length core = size_of t) (Hu8 : Forall is_u8 core).
Context (Hf : fastrandn_ok fastrandn).
Context (Hrp : forall n, length (rand_prefix n) = n /\ Forall is_u8 (rand_prefix n)).
Context (Hrt : forall n, length (rand_trailer n) = n).

Let config := mkConfig v (padding_of w t) (Z.of_nat (size_of t)) (default zero_key (hp_key w)) (randomTrailers w).
Let clear := rand_prefix (Z.to_nat (padding_of w t)).

Definition sealed : list Z :=
  if protected w then xor_stream (default zero_key (hp_key w), take 12 clear) core else core.

Lemma sealed_length : length sealed = size_of t.
Proof.
  unfold sealed. destruct (protected w); [|done]. unfold xor_stream.
  by rewrite xor_bytes_length by (by rewrite (proj1 (Hcc _ _ _))).
Qed.

Lemma frame_shape :
  exists trailer,
    frameHandshake fastrandn rand_prefix rand_trailer config core window = Some (clear ++ sealed ++ trailer) /\
    Z.of_nat (length (clear ++ sealed ++ trailer)) <= awgMaxPacketSize /\
    (trailer = [] \/ randomTrailers w = true).
Proof.
  destruct (Hw t) as (Hp & Hmax & Hprot); [unfold is_type; lia|].
  pose proof (handshake_size t Ht) as Hmin.
  unfold frameHandshake. cbn [size prefix key cfg_randomTrailers config].
  rewrite (proj2 (Z.eqb_neq _ 0)), awgPacketSize_some, Hcore, Z.eqb_refl by lia. red_bind. cbn [negb].
  rewrite key_is_zero_protected, negb_involutive.
  assert (protected w && (padding_of w t <? HeaderCipherNonceSize) = false) as ->.
  { destruct (protected w); [|done]. by apply Z.ltb_ge, Hprot. }
  set (base := padding_of w t + Z.of_nat (size_of t) + 0). set (win := Z.min window awgMaxPacketSize).
  eexists. split; [unfold sealed, clear; reflexivity|]. rewrite !length_app, sealed_length, (Hrt _). unfold clear.
  rewrite (proj1 (Hrp _)). destruct (randomTrailers w); cbn [andb]; [|split; [lia|left; by apply nil_length_inv, Hrt]].
  split; [|by right]. rewrite Z.gtb_ltb. destruct (Z.ltb_spec base win) as [Hlt|]; [|lia].
  assert (Hmaxval : awgMaxPacketSize = 65507) by reflexivity.
  destruct Hf as [_ Hfr]. rewrite u32_small by (unfold is_u; subst base win; lia).
  specialize (Hfr (win - base)). subst base win. lia.
Qed.

(** The receiver's mask is the sender's. *)
Lemma frame_mask trailer n :
  classifier_mask w (clear ++ sealed ++ trailer) n =
  Some (if protected w then chacha20 (default zero_key (hp_key w)) (take 12 clear) n else repeat 0 n).
Proof.
  destruct (Hw t) as (Hp & Hmax & Hprot); [unfold is_type; lia|].
  apply clear_mask; [done|]. intros Hpr. specialize (Hprot Hpr). unfold HeaderCipherNonceSize in Hprot.
  unfold clear. rewrite (proj1 (Hrp _)). lia.
Qed.

Lemma frame_word trailer :
  le_Uint32 core = Some v -> type_word w (clear ++ sealed ++ trailer) (padding_of w t) = Some v.
Proof.
  intros Hv. destruct (Hw t) as (Hp & Hmax & Hprot); [unfold is_type; lia|].
  assert (Hlc : Z.of_nat (length clear) = padding_of w t) by (unfold clear; rewrite (proj1 (Hrp _)); lia).
  unfold type_word. rewrite slice_from_some by (rewrite length_app; lia). red_bind.
  rewrite frame_mask. replace (Z.to_nat (padding_of w t)) with (length clear) by lia. rewrite drop_app_length.
  pose proof (handshake_size t Ht) as Hmin.
  unfold le_Uint32 in *. rewrite decide_False in Hv by lia.
  rewrite decide_False by (rewrite length_app, sealed_length; lia). red_bind.
  rewrite take_app_le by (rewrite sealed_length; lia). injection Hv as Hv. f_equal. rewrite <- Hv. unfold sealed.
  destruct (protected w); [|change (le_uint (repeat 0 4)) with 0; by rewrite Z.lxor_0_r].
  destruct (Hcc (default zero_key (hp_key w)) (take 12 clear) (length core)) as (Hlk & Huk & Hpk).
  unfold xor_stream. cbn [fst snd]. rewrite xor_bytes_take, (Hpk 4%nat) by lia.
  destruct (Hcc (default zero_key (hp_key w)) (take 12 clear) 4%nat) as (Hl4 & Hu4 & _).
  rewrite le_uint_xor, Z.lxor_assoc, Z.lxor_nilpotent, Z.lxor_0_r by (rewrite ?length_take; (done || lia || by apply Forall_take)).
  done.
Qed.

Lemma frame_prepare trailer :
  determinePacketTypeAndPadding w (clear ++ sealed ++ trailer) MessageUnknownType = Some (t, padding_of w t) ->
  prepareReceivedPacket w (clear ++ sealed ++ trailer) = Some (core, t, padding_of w t).
Proof.
  intros Hd. destruct (Hw t) as (Hp & Hmax & Hprot); [unfold is_type; lia|].
  assert (Hlc : Z.of_nat (length clear) = padding_of w t) by (unfold clear; rewrite (proj1 (Hrp _)); lia).
  pose proof sealed_length as Hls. unfold prepareReceivedPacket. rewrite Hd. red_bind.
  rewrite (proj2 (Z.eqb_neq t MessageUnknownType)) by (unfold MessageUnknownType; lia).
  rewrite core_sizes_handshake by done.
  rewrite <- Hls, <- Hlc. pose proof (slice_app clear sealed trailer) as Hsl. rewrite Nat2Z.inj_add in Hsl.
  rewrite Hsl. red_bind. rewrite Hlc.
  assert (Hfront : forall c : list Z, length c = length sealed ->
    (core' ← slice (copy (clear ++ sealed ++ trailer) c) 0 (Z.of_nat (length sealed)); Some (core', t, padding_of w t)) = Some (c, t, padding_of w t)).
  { intros c Hlen. rewrite move_front by (rewrite ?length_app; lia). done. }
  unfold sealed, protected in *. destruct (hp_key w) as [k|]; [|apply Hfront; congruence].
  destruct (key_is_zero k); cbn [negb default from_option id] in *; [apply Hfront; congruence|].
  specialize (Hprot eq_refl). rewrite (proj2 (Z.ltb_ge _ _)) by done. unfold HeaderCipherNonceSize in *.
  rewrite (slice_some (clear ++ _)) by (rewrite ?length_app; lia). red_bind. rewrite slice_some, slice_from_some by lia. red_bind.
  change (Z.to_nat (12 - 0)) with 12%nat. set (sc := xor_stream (k, take 12 clear) core) in *.
  rewrite !drop_0, Z.sub_0_r, Nat2Z.id, (take_ge sc), (drop_ge sc), app_nil_r, (take_app_le clear) by lia.
  assert (Hinv : xor_stream (k, take 12 clear) sc = core).
  { unfold xor_stream. rewrite Hls, <- Hcore. apply xor_bytes_involutive. by rewrite (proj1 (Hcc _ _ _)). }
  rewrite Hinv. apply Hfront. congruence.
Qed.

Lemma equal_paddings_no_clash packet :
  headers_ok w -> (forall t', is_type t' -> padding_of w t' = padding_of w t) ->
  type_word w packet (padding_of w t) = Some v -> header_matches (header_of w t) v = true ->
  no_clash w packet t.
Proof.
  intros [Hh Hdis] Heq Hv Hm t' v' Ht' Hne Hv'. rewrite Heq, Hv in Hv' by done. injection Hv' as <-.
  destruct (Hh t') as (a & Ha & _); [done|]. destruct (Hh t) as (b & Hb & _); [unfold is_type; lia|].
  specialize (Hdis t' t a b Ht' ltac:(unfold is_type; lia) Hne Ha Hb). rewrite Ha. rewrite Hb in Hm.
  cbn [header_matches] in *. unfold Validate, disjoint in *. rewrite andb_true_iff, !Z.leb_le in Hm.
  apply andb_false_iff. rewrite !Z.leb_gt. lia.
Qed.

End Frame.

(** ** Lemmas: data packets *)

Section Data.
Context (Hcc : chacha20_ok) (w : wireState) (clear : list Z).

(** The mask over the header of a data packet, zeros without protection. *)
Definition mask (n : nat) : list Z :=
  if protected w then chacha20 (default zero_key (hp_key w)) (take 12 clear) n else repeat 0 n.

Lemma mask_length n : length (mask n) = n.
Proof. unfold mask. destruct (protected w); [apply Hcc | apply repeat_length]. Qed.

Lemma mask_u8 n : Forall is_u8 (mask n).
Proof.
  unfold mask. destruct (protected w); [apply Hcc|]. induction n; cbn; constructor; [by_eval | done].
Qed.

Lemma mask_take n m : (m <= n)%nat -> take m (mask n) = mask m.
Proof.
  intros Hm. unfold mask. destruct (protected w); [by apply Hcc|].
  replace n with (m + (n - m))%nat by lia. by rewrite repeat_app, take_app_length' by (by rewrite repeat_length).
Qed.

Context (ty idx : Z) (tail body : list Z).
Context (Hty : is_u32 ty) (Hidx : is_u32 idx) (Htail : length tail = 8%nat) (Hu8 : Forall is_u8 tail).

Let hdr := le_bytes 4 ty ++ le_bytes 4 idx ++ tail.
Let packet := clear ++ xor_bytes hdr (mask 16) ++ body.

Lemma hdr_length : length hdr = 16%nat.
Proof. unfold hdr. by rewrite !length_app, !le_bytes_length, Htail. Qed.

Lemma hdr_u8 : Forall is_u8 hdr.
Proof. unfold hdr. rewrite !Forall_app. split_and!; [apply le_bytes_u8.. | done]. Qed.

Lemma masked_length : length (xor_bytes hdr (mask 16)) = 16%nat.
Proof. rewrite xor_bytes_length; [apply hdr_length | by rewrite hdr_length, mask_length]. Qed.

(** The words the classifier reads from the masked header. *)
Lemma masked_type : Z.lxor (le_uint (take 4 (xor_bytes hdr (mask 16)))) (le_uint (mask 4)) = ty.
Proof.
  rewrite xor_bytes_take, mask_take by lia. unfold hdr at 1. rewrite take_app_length' by (by rewrite le_bytes_length).
  rewrite le_uint_xor; [|by rewrite le_bytes_length, mask_length | apply le_bytes_u8 | apply mask_u8].
  rewrite Z.lxor_assoc, Z.lxor_nilpotent, Z.lxor_0_r. rewrite le_uint_bytes. by apply u32_small.
Qed.

Lemma masked_index :
  Z.lxor (le_uint (take 4 (drop 4 (xor_bytes hdr (mask 16))))) (le_uint (drop 4 (mask 8))) = idx.
Proof.
  rewrite xor_bytes_drop, xor_bytes_take.
  assert (Hm : take 4 (drop 4 (mask 16)) = drop 4 (mask 8)).
  { rewrite <- (mask_take 16 8) by lia. by rewrite skipn_firstn_comm. }
  rewrite Hm. unfold hdr. rewrite drop_app_length' by (by rewrite le_bytes_length). rewrite take_app_length' by (by rewrite le_bytes_length).
  rewrite le_uint_xor; [| by rewrite le_bytes_length, length_drop, mask_length | apply le_bytes_u8 | apply Forall_drop, mask_u8].
  rewrite Z.lxor_assoc, Z.lxor_nilpotent, Z.lxor_0_r. rewrite le_uint_bytes. by apply u32_small.
Qed.

Context (Hpads : paddings_ok w) (Hclear : Z.of_nat (length clear) = p_transport w).
Context (Hmatch : header_matches (h_transport w) ty = true) (Hlive : live idx = true).
Context (Hbody : (16 <= length body)%nat) (Hmax : Z.of_nat (length packet) <= awgMaxPacketSize).

Lemma clear_nonce : protected w = true -> (12 <= length clear)%nat.
Proof.
  intros Hp. destruct (Hpads 4) as (_ & _ & H); [unfold is_type; lia|]. specialize (H Hp).
  cbn in H. unfold HeaderCipherNonceSize in H. lia.
Qed.

(** A data packet for a live index is classified at once. *)
Lemma determine_data : determinePacketTypeAndPadding w packet MessageUnknownType = Some (MessageTransportType, p_transport w).
Proof.
  pose proof masked_length as Hml. unfold determinePacketTypeAndPadding.
  assert (Hlen : Z.of_nat (length packet) = p_transport w + 16 + Z.of_nat (length body)).
  { unfold packet. rewrite !length_app, Hml. lia. }
  rewrite (proj2 (Z.ltb_ge (Z.of_nat (length packet)) MinMessageSize)) by (change MinMessageSize with 32; lia).
  rewrite Z.gtb_ltb, (proj2 (Z.ltb_ge _ _)) by lia. cbn [orb]. rewrite Z.eqb_refl. cbn [orb].
  unfold transport_block. change (Z.of_nat MessageTransportSize) with 32. rewrite awgPacketSize_some by lia.
  rewrite Z.geb_leb, (proj2 (Z.leb_le _ _)) by lia.
  rewrite (slice_from_seam packet clear (xor_bytes hdr (mask 16) ++ body)) by done. red_bind.
  unfold le_Uint32. rewrite decide_False by (rewrite length_app, Hml; lia). red_bind.
  assert (Hm : classifier_mask w packet 8 = Some (mask 8)) by (apply clear_mask; [done | apply clear_nonce]).
  rewrite Hm. red_bind. rewrite take_app_le, mask_take, masked_type, Hmatch by (rewrite ?Hml; lia).
  change (MessageUnknownType =? MessageTransportType) with false. cbn match.
  rewrite slice_some by (rewrite ?length_app; lia). red_bind.
  change (Z.to_nat (8 - 4)) with 4%nat. change (Z.to_nat 4) with 4%nat.
  rewrite drop_app_le, take_app_le by (rewrite ?length_drop, Hml; lia). rewrite masked_index, Hlive. done.
Qed.

Lemma prepare_data : prepareReceivedPacket w packet = Some (hdr ++ body, MessageTransportType, p_transport w).
Proof.
  pose proof masked_length as Hml. pose proof hdr_length as Hhl. unfold prepareReceivedPacket. rewrite determine_data. red_bind.
  change (MessageTransportType =? MessageUnknownType) with false. cbn match.
  assert (Hlen : Z.of_nat (length packet) = p_transport w + 16 + Z.of_nat (length body)).
  { unfold packet. rewrite !length_app, Hml. lia. }
  change (core_sizes packet MessageTransportType (p_transport w)) with (Z.of_nat (length packet) - p_transport w, 16).
  cbn match. set (core := xor_bytes hdr (mask 16) ++ body).
  assert (Hcl : length core = (16 + length body)%nat) by (unfold core; by rewrite length_app, Hml).
  assert (Hpk : packet = clear ++ core ++ []) by (by rewrite app_nil_r).
  rewrite (slice_seam packet clear core [] (p_transport w) _ Hpk) by lia. red_bind.
  assert (Hfront : forall c : list Z, length c = length core ->
    (core' ← slice (copy packet c) 0 (Z.of_nat (length packet) - p_transport w); Some (core', MessageTransportType, p_transport w))
    = Some (c, MessageTransportType, p_transport w)).
  { intros c Hlc. rewrite move_front by lia. done. }
  pose proof clear_nonce as Hcn. unfold core, mask, protected in *. destruct (hp_key w) as [k|] eqn:Hk.
  - destruct (key_is_zero k) eqn:Hz; cbn [negb default from_option id] in *.
    + rewrite xor_bytes_zeros_r in * by done. by apply Hfront.
    + specialize (Hcn eq_refl). unfold HeaderCipherNonceSize. rewrite (proj2 (Z.ltb_ge _ _)) by lia.
      set (xh := xor_bytes hdr _) in *. rewrite (slice_some packet) by lia. red_bind.
      rewrite (slice_seam (xh ++ body) [] xh body 0 16 eq_refl eq_refl) by lia. red_bind.
      rewrite (slice_from_seam (xh ++ body) xh body) by (reflexivity || lia). red_bind.
      unfold packet. rewrite drop_0, Z.sub_0_r. change (Z.to_nat 12) with 12%nat.
      rewrite take_app_le by lia. fold packet.
      assert (Hinv : xor_stream (k, take 12 clear) xh = hdr).
      { unfold xor_stream. cbn [fst snd]. rewrite Hml. apply xor_bytes_involutive. by rewrite (proj1 (Hcc _ _ _)). }
      rewrite Hinv. apply Hfront. rewrite !length_app. lia.
  - rewrite xor_bytes_zeros_r in * by done. by apply Hfront.
Qed.

End Data.

End Wire.

(** ** Properties *)

(** C25.  No datagram can make the receiver panic: whatever bytes arrive, and
    for every configuration, every slice of the classifier and of the header
    restoration is in bounds.  A packet handed on as a handshake has exactly the
    size of that message, and a transport packet has room for its header and
    authentication tag. *)
Theorem received_packet_safe chacha20 live w packet :
  chacha20_ok chacha20 ->
  exists core t pad, prepareReceivedPacket chacha20 live w packet = Some (core, t, pad) /\
    ((core = [] /\ t = MessageUnknownType /\ pad = 0) \/
     (is_type t /\ pad = padding_of w t /\
      (t <> MessageTransportType -> length core = size_of t) /\
      (t = MessageTransportType -> Z.of_nat (length core) = Z.of_nat (length packet) - pad /\ (32 <= length core)%nat))).
Proof. intros Hcc. exact (prepare_total chacha20 live Hcc w packet). Qed.

(** C26.  For a configuration the device accepts, framing a handshake message
    always succeeds and fits a datagram, and a receiver with the same
    configuration gets back exactly the core, its type and the prefix length:
    the mask is undone and the random trailer is cut off.  The one condition is
    that no other message type reads its own header at its own offset of the
    packet; with equal prefix lengths that can never happen. *)
Theorem handshake_frame_roundtrip chacha20 live rand_Int fastrandn rand_prefix rand_trailer w t core window :
  chacha20_ok chacha20 -> rand_Int_ok rand_Int -> fastrandn_ok fastrandn ->
  (forall n, length (rand_prefix n) = n /\ Forall is_u8 (rand_prefix n)) ->
  (forall n, length (rand_trailer n) = n) ->
  wire_ok w -> 1 <= t <= 3 -> length core = size_of t -> Forall is_u8 core ->
  exists cfg, snapshot rand_Int w t = Some cfg /\
    (le_Uint32 core = Some (header cfg) ->
     exists wire, frameHandshake chacha20 fastrandn rand_prefix rand_trailer cfg core window = Some wire /\
       Z.of_nat (length wire) <= awgMaxPacketSize /\
       ((forall t', is_type t' -> padding_of w t' = padding_of w t) -> no_clash chacha20 w wire t) /\
       (no_clash chacha20 w wire t ->
        prepareReceivedPacket chacha20 live w wire = Some (core, t, padding_of w t))).
Proof.
  intros Hcc Hri Hf Hrp Hrt [Hpads Hheads] Ht Hcore Hu8.
  destruct (snapshot_fields rand_Int w t Hri Hheads Ht) as (v & Hsnap & Hm & _).
  eexists. split; [exact Hsnap|]. cbn [header]. intros Hv.
  destruct (frame_shape chacha20 Hcc w t v core window fastrandn rand_prefix rand_trailer Hpads Ht Hcore Hf Hrp Hrt)
    as (trailer & Hfr & Hmax & Htr).
  eexists. split; [exact Hfr|]. split; [exact Hmax|].
  assert (Hword : type_word chacha20 w (rand_prefix (Z.to_nat (padding_of w t)) ++
    sealed chacha20 w t core rand_prefix ++ trailer) (padding_of w t) = Some v) by (by eapply frame_word).
  split.
  - intros Heq. by eapply equal_paddings_no_clash.
  - intros Hno. apply (frame_prepare chacha20 live Hcc); [done..|].
    eapply determine_handshake; [done.. | exact Hword | done | done | done |].
    rewrite !length_app, (sealed_length chacha20 Hcc w t core rand_prefix Hcore), (proj1 (Hrp _)).
    destruct (Hpads t) as (Hp & _); [unfold is_type; lia|].
    destruct Htr as [->|Htr]; [left; cbn; lia|]. destruct trailer; [left; cbn; lia | right; split; [done | cbn; lia]].
Qed.

(** ** Witnesses *)

Definition ex_chacha20 (_ _ : list Z) (len : nat) : list Z := repeat 90 len.

Lemma repeat_bytes b n : is_u8 b -> length (repeat b n) = n /\ Forall is_u8 (repeat b n).
Proof.
  intros Hb. split; [apply repeat_length|]. induction n; cbn; by constructor.
Qed.

Lemma ex_chacha20_ok : chacha20_ok ex_chacha20.
Proof.
  intros k n len. destruct (repeat_bytes 90 len) as [Hl Hu]; [by_eval|]. split_and!; [done | done |].
  intros m Hm. unfold ex_chacha20. replace len with (m + (len - m))%nat by lia.
  by rewrite repeat_app, take_app_length' by (by rewrite repeat_length).
Qed.

Definition ex_wire : wireState :=
  mkWire (Some (mkHeader 100 200)) (Some (mkHeader 300 300)) (Some (mkHeader 5 9)) (Some (mkHeader 1000 2000))
    20 20 20 20 (Some (repeat 7 32)) true.

Lemma four_types t : is_type t -> t = 1 \/ t = 2 \/ t = 3 \/ t = 4.
Proof. unfold is_type. lia. Qed.

Lemma ex_wire_ok : wire_ok ex_wire.
Proof.
  split; [|split].
  - intros t Ht. destruct (four_types t Ht) as [-> | [-> | [-> | ->]]]; by_eval.
  - intros t Ht. destruct (four_types t Ht) as [-> | [-> | [-> | ->]]]; (eexists; split; [reflexivity|]);
      unfold wf_header, full_width; cbn; lia.
  - intros t1 t2 a b H1 H2 Hne Ha Hb.
    destruct (four_types t1 H1) as [-> | [-> | [-> | ->]]], (four_types t2 H2) as [-> | [-> | [-> | ->]]]; try done;
      injection Ha as <-; injection Hb as <-; unfold disjoint; cbn; lia.
Qed.

Lemma received_packet_safe_witness :
  exists core t pad, prepareReceivedPacket ex_chacha20 (fun _ => true) ex_wire (repeat 66 57) = Some (core, t, pad).
Proof.
  destruct (received_packet_safe ex_chacha20 (fun _ => true) ex_wire (repeat 66 57)) as (core & t & pad & Hr & _).
  - exact ex_chacha20_ok.
  - eauto.
Defined.

Definition ex_core : list Z := le_bytes 4 100 ++ repeat 3 144.

Lemma handshake_frame_roundtrip_witness :
  exists wire, frameHandshake ex_chacha20 (fun _ => 0) (repeat 11) (repeat 12)
      (mkConfig 100 20 148 (repeat 7 32) true) ex_core 500 = Some wire /\
    prepareReceivedPacket ex_chacha20 (fun _ => false) ex_wire wire = Some (ex_core, 1, 20).
Proof.
  destruct (handshake_frame_roundtrip ex_chacha20 (fun _ => false) (fun _ => 0) (fun _ => 0) (repeat 11) (repeat 12)
    ex_wire 1 ex_core 500) as (cfg & Hcfg & Hframe).
  - exact ex_chacha20_ok.
  - intros n Hn. lia.
  - split; [done|]. intros n Hn. lia.
  - intros n. apply repeat_bytes. by_eval.
  - intros n. apply repeat_length.
  - exact ex_wire_ok.
  - lia.
  - reflexivity.
  - by_eval.
  - vm_compute in Hcfg. injection Hcfg as <-. destruct Hframe as (wire & Hf & _ & Hno & Hp); [by_eval|].
    exists wire. split; [exact Hf|]. apply Hp, Hno. intros t' Ht'. by destruct (four_types t' Ht') as [-> | [-> | [-> | ->]]].
Defined.

End Wire.
