(* ===== verification/Tai64n.v ===== *)
(** * TAI64N timestamps (submodules/wireguard-go/tai64n/tai64n.go)

    A handshake initiation carries the sender's time with the low 24 bits of
    the nanoseconds cleared; the receiver accepts only later stamps, compared as
    byte strings. *)

From S2P Require Import Prelude Bits.

Module Tai64n.

Local Open Scope Z_scope.

Definition base : Z := 4611686018427387914.  (* 0x400000000000000a *)
Definition whitenerMask : Z := 16777216 - 1.  (* 0x1000000 - 1 *)

(** [stamp t] for a time of [unix] seconds and [nanosecond] within the second;
    [&^] is [Z.ldiff]. *)
Definition stamp (unix nanosecond : Z) : list Z :=
  let secs := u64 (base + u64 unix) in
  let nano := Z.ldiff (u32 nanosecond) whitenerMask in
  be_bytes 8 secs ++ be_bytes 4 nano.

(** [bytes.Compare] *)
Fixpoint bytes_Compare (a b : list Z) : comparison :=
  match a, b with
  | [], [] => Eq
  | [], _ :: _ => Lt
  | _ :: _, [] => Gt
  | x :: a', y :: b' => match x ?= y with Eq => bytes_Compare a' b' | c => c end
  end.

Definition After (t1 t2 : list Z) : bool :=
  match bytes_Compare t1 t2 with Gt => true | _ => false end.

(** ** Lemmas *)

(** On strings of equal length the order is that of the big-endian numbers. *)
Lemma bytes_Compare_uint a b :
  length a = length b -> Forall is_u8 a -> Forall is_u8 b -> bytes_Compare a b = (be_uint a ?= be_uint b).
Proof.
  revert b. induction a as [|x a IH]; intros [|y b] Hl Ha Hb; try done. injection Hl as Hl.
  apply Forall_cons_iff in Ha as [Hx Ha], Hb as [Hy Hb]. cbn [bytes_Compare be_uint]. rewrite <- Hl.
  pose proof (be_uint_range a Ha) as Ra. pose proof (be_uint_range b Hb) as Rb. rewrite <- Hl in Rb.
  set (p := 2 ^ (8 * Z.of_nat (length a))) in *.
  destruct (Z.compare_spec x y) as [-> |Hlt|Hgt].
  - rewrite IH by done. destruct (Z.compare_spec (be_uint a) (be_uint b)), (Z.compare_spec (y * p + be_uint a) (y * p + be_uint b)); done || lia.
  - symmetry. apply Z.compare_lt_iff. nia.
  - symmetry. apply Z.compare_gt_iff. nia.
Qed.

Lemma bytes_Compare_antisym a b : bytes_Compare b a = CompOpp (bytes_Compare a b).
Proof.
  revert b. induction a as [|x a IH]; intros [|y b]; cbn; try done. rewrite (Z.compare_antisym x y).
  destruct (x ?= y); cbn; auto.
Qed.

(** [After] is a strict order, and "not after" its total complement. *)
Lemma After_irrefl a : After a a = false.
Proof.
  unfold After. pose proof (bytes_Compare_antisym a a) as H. by destruct (bytes_Compare a a).
Qed.

Lemma not_After_trans a b c : After a b = false -> After b c = false -> After a c = false.
Proof.
  unfold After. revert b c. induction a as [|x a IH]; intros [|y b] [|z c]; cbn; try done.
  destruct (Z.compare_spec x y), (Z.compare_spec y z), (Z.compare_spec x z); try done; try lia. apply IH.
Qed.

Lemma After_not_After a b : After a b = true -> After b a = false.
Proof. unfold After. rewrite (bytes_Compare_antisym a b). by destruct (bytes_Compare a b). Qed.

(** A stamp after one that is not before [a] is after [a]. *)
Lemma After_above a b c : After a b = false -> After c b = true -> After c a = true.
Proof.
  intros Hab Hcb. destruct (After c a) eqn:Hca; [done|]. by rewrite (not_After_trans c a b Hca Hab) in Hcb.
Qed.

Definition stamp_value (unix nanosecond : Z) : Z := unix * 2 ^ 32 + nanosecond / 2 ^ 24 * 2 ^ 24.

Lemma ldiff_whitener n : Z.ldiff n whitenerMask = n / 2 ^ 24 * 2 ^ 24.
Proof.
  change whitenerMask with (Z.ones 24). rewrite Z.ldiff_ones_r by lia.
  by rewrite Z.shiftr_div_pow2, Z.shiftl_mul_pow2 by lia.
Qed.

Lemma stamp_uint unix ns :
  0 <= unix < 2 ^ 62 -> 0 <= ns < 10 ^ 9 -> be_uint (stamp unix ns) = base * 2 ^ 32 + stamp_value unix ns.
Proof.
  intros Hu Hn. unfold stamp, stamp_value. rewrite be_uint_app, !be_uint_bytes, be_bytes_length, ldiff_whitener.
  rewrite (u64_small unix), (u64_small (base + unix)), (u32_small ns) by (unfold is_u, base; lia).
  change (8 * Z.of_nat 8) with 64. change (8 * Z.of_nat 4) with 32.
  pose proof (Z.div_mod ns (2 ^ 24)). pose proof (Z.mod_pos_bound ns (2 ^ 24)).
  rewrite !Z.mod_small by (unfold base; lia). ring.
Qed.

Lemma stamp_wf unix ns : length (stamp unix ns) = 12%nat /\ Forall is_u8 (stamp unix ns).
Proof.
  unfold stamp. rewrite length_app, !be_bytes_length. split; [done|]. apply Forall_app. split; apply be_bytes_u8.
Qed.

Lemma After_stamp u1 n1 u2 n2 :
  0 <= u1 < 2 ^ 62 -> 0 <= n1 < 10 ^ 9 -> 0 <= u2 < 2 ^ 62 -> 0 <= n2 < 10 ^ 9 ->
  After (stamp u1 n1) (stamp u2 n2) = true <-> stamp_value u2 n2 < stamp_value u1 n1.
Proof.
  intros. destruct (stamp_wf u1 n1) as [L1 U1], (stamp_wf u2 n2) as [L2 U2].
  unfold After. rewrite bytes_Compare_uint by (done || congruence). rewrite !stamp_uint by done.
  destruct (Z.compare_spec (base * 2 ^ 32 + stamp_value u1 n1) (base * 2 ^ 32 + stamp_value u2 n2)); split; done || lia.
Qed.

(** ** Property *)

(** Stamps never run backwards: a stamp of an earlier or equal time is
    never accepted as later, and any stamp taken 2^24 nanoseconds (about 17 ms)
    or more after another within the range of dates in use is later, across
    second boundaries too. *)
Theorem stamps_order_time u1 n1 u2 n2 :
  0 <= u1 < 2 ^ 62 -> 0 <= n1 < 10 ^ 9 -> 0 <= u2 < 2 ^ 62 -> 0 <= n2 < 10 ^ 9 ->
  (u2 * 10 ^ 9 + n2 <= u1 * 10 ^ 9 + n1 -> After (stamp u2 n2) (stamp u1 n1) = false) /\
  (u1 * 10 ^ 9 + n1 + 2 ^ 24 <= u2 * 10 ^ 9 + n2 -> After (stamp u2 n2) (stamp u1 n1) = true).
Proof.
  intros Hu1 Hn1 Hu2 Hn2.
  pose proof (After_stamp u2 n2 u1 n1 Hu2 Hn2 Hu1 Hn1) as Ha. unfold stamp_value in Ha.
  pose proof (Z.div_mod n1 (2 ^ 24)). pose proof (Z.mod_pos_bound n1 (2 ^ 24)).
  pose proof (Z.div_mod n2 (2 ^ 24)). pose proof (Z.mod_pos_bound n2 (2 ^ 24)).
  split; intros Ht.
  - apply not_true_iff_false. rewrite Ha.
    assert (u2 < u1 \/ (u2 = u1 /\ n2 <= n1)) as [|[-> Hle]] by lia; [lia|].
    pose proof (Z.div_le_mono n2 n1 (2 ^ 24)). lia.
  - apply Ha. assert (u1 < u2 \/ (u1 = u2 /\ n1 + 2 ^ 24 <= n2)) as [|[-> Hle]] by lia; [lia|].
    pose proof (Z.div_le_mono (n1 + 1 * 2 ^ 24) n2 (2 ^ 24)). rewrite Z.div_add in * by lia. lia.
Qed.

Lemma stamps_order_time_witness :
  After (stamp 1700000001 20000000) (stamp 1700000000 999999999) = true.
Proof.
  apply (stamps_order_time 1700000000 999999999 1700000001 20000000); lia.
Defined.

End Tai64n.
