(* ===== verification/Noise.v ===== *)
(** * The Noise handshake, session keys and the index table

    Models submodules/wireguard-go/device: noise-protocol.go (the five handshake
    handlers), noise-helpers.go (key derivation), indextable.go, keypair.go and
    the key life cycle of peer.go.  Blake2s, HMAC, Curve25519 and
    ChaCha20-Poly1305 are parameters.  Peers and key pairs are objects the code
    shares by pointer: a [pid] or [kid] stands for the address, and the device
    holds the objects.  Each handler is one atomic step (the code holds the
    handshake mutex) but [ConsumeMessageInitiation], which takes the mutex twice
    and is two; a draw of randomness carries the error [rand.Read] may report.
    No peer lookup function is installed, as in this program. *)

From S2P Require Import Prelude Bits Bytes GoStrings Messages Replay Tai64n.

Module Noise.

Import Messages.

Local Open Scope Z_scope.

Abbreviation bytes := (list Z).

Definition RekeyTimeout : Z := 5 * Second.
Definition RejectAfterTime : Z := 180 * Second.
Definition RejectAfterMessages : Z := 2 ^ 64 - 2 ^ 13 - 1.
Definition RekeyAfterMessages : Z := 2 ^ 60.
(** [time.Second / 50] *)
Definition HandshakeInitationRate : Z := Second / 50.

Definition NoiseConstruction : bytes := str "Noise_IKpsk2_25519_ChaChaPoly_BLAKE2s".
Definition WGIdentifier : bytes := str "WireGuard v1 zx2c4 Jason@zx2c4.com".

Definition zeros (n : nat) : bytes := repeat 0 n.
Definition isZero (val : bytes) : bool := forallb (fun b => b =? 0) val.

Inductive handshakeState :=
| handshakeZeroed
| handshakeInitiationCreated
| handshakeInitiationConsumed
| handshakeResponseCreated
| handshakeResponseConsumed.

#[export] Instance handshakeState_eq_dec : EqDecision handshakeState.
Proof. solve_decision. Defined.

Record Handshake := mkHandshake {
  state : handshakeState;
  hash : bytes;
  chainKey : bytes;
  presharedKey : bytes;
  localEphemeral : bytes;
  localIndex : Z;
  remoteIndex : Z;
  remoteStatic : bytes;
  remoteEphemeral : bytes;
  precomputedStaticStatic : bytes;
  lastTimestamp : bytes;
  lastInitiationConsumption : Z;
  lastSentHandshake : Z
}.

(** A key pair; the two AEAD instances are their keys. *)
Record Keypair := mkKeypair {
  sendNonce : Z;
  send : bytes;
  receive : bytes;
  replayFilter : Replay.Filter;
  isInitiator : bool;
  created : Z;
  kp_localIndex : Z;
  kp_remoteIndex : Z
}.

Definition kid := nat.
Definition pid := nat.

Record Peer := mkPeer {
  isRunning : bool;
  handshake : Handshake;
  current : option kid;
  previous : option kid;
  next : option kid
}.

(** An entry points to its peer and to the peer's handshake or to a key pair. *)
Record IndexTableEntry := mkEntry {
  e_peer : pid;
  e_handshake : bool;
  e_keypair : option kid
}.

Record Device := mkDevice {
  privateKey : bytes;
  publicKey : bytes;
  keyMap : gmap bytes pid;
  peers : gmap pid Peer;
  indexTable : gmap Z IndexTableEntry;
  keypairs : gmap kid Keypair
}.

(** ** Field updates *)

Definition set_peers (d : Device) (ps : gmap pid Peer) : Device :=
  mkDevice (privateKey d) (publicKey d) (keyMap d) ps (indexTable d) (keypairs d).
Definition set_table (d : Device) (t : gmap Z IndexTableEntry) : Device :=
  mkDevice (privateKey d) (publicKey d) (keyMap d) (peers d) t (keypairs d).
Definition set_keypairs (d : Device) (ks : gmap kid Keypair) : Device :=
  mkDevice (privateKey d) (publicKey d) (keyMap d) (peers d) (indexTable d) ks.

Definition set_handshake (p : Peer) (h : Handshake) : Peer :=
  mkPeer (isRunning p) h (current p) (previous p) (next p).
Definition set_keys (p : Peer) (c pr n : option kid) : Peer :=
  mkPeer (isRunning p) (handshake p) c pr n.

Definition update_peer (d : Device) (p : pid) (pr : Peer) : Device := set_peers d (<[p := pr]> (peers d)).

(** The peer's handshake is replaced in place. *)
Definition update_handshake (d : Device) (p : pid) (pr : Peer) (h : Handshake) : Device :=
  update_peer d p (set_handshake pr h).

Definition set_secrets (h : Handshake) (hash' chainKey' localEphemeral' : bytes) : Handshake :=
  mkHandshake (state h) hash' chainKey' (presharedKey h) localEphemeral' (localIndex h) (remoteIndex h)
    (remoteStatic h) (remoteEphemeral h) (precomputedStaticStatic h) (lastTimestamp h)
    (lastInitiationConsumption h) (lastSentHandshake h).

Definition set_progress (h : Handshake) (s : handshakeState) (localIndex' remoteIndex' : Z) : Handshake :=
  mkHandshake s (hash h) (chainKey h) (presharedKey h) (localEphemeral h) localIndex' remoteIndex'
    (remoteStatic h) (remoteEphemeral h) (precomputedStaticStatic h) (lastTimestamp h)
    (lastInitiationConsumption h) (lastSentHandshake h).

Definition set_localIndex (h : Handshake) (i : Z) : Handshake := set_progress h (state h) i (remoteIndex h).

(** What a consumed initiation leaves in the handshake besides the secrets. *)
Definition set_consumed (h : Handshake) (ephemeral timestamp : bytes) (consumption : Z) : Handshake :=
  mkHandshake (state h) (hash h) (chainKey h) (presharedKey h) (localEphemeral h) (localIndex h) (remoteIndex h)
    (remoteStatic h) ephemeral (precomputedStaticStatic h) timestamp consumption (lastSentHandshake h).

Definition set_lastSentHandshake (h : Handshake) (t : Z) : Handshake :=
  mkHandshake (state h) (hash h) (chainKey h) (presharedKey h) (localEphemeral h) (localIndex h) (remoteIndex h)
    (remoteStatic h) (remoteEphemeral h) (precomputedStaticStatic h) (lastTimestamp h)
    (lastInitiationConsumption h) t.

Definition set_static (h : Handshake) (remoteStatic' precomputed : bytes) : Handshake :=
  mkHandshake (state h) (hash h) (chainKey h) (presharedKey h) (localEphemeral h) (localIndex h) (remoteIndex h)
    remoteStatic' (remoteEphemeral h) precomputed (lastTimestamp h)
    (lastInitiationConsumption h) (lastSentHandshake h).

Definition set_presharedKey (h : Handshake) (psk : bytes) : Handshake :=
  mkHandshake (state h) (hash h) (chainKey h) psk (localEphemeral h) (localIndex h) (remoteIndex h)
    (remoteStatic h) (remoteEphemeral h) (precomputedStaticStatic h) (lastTimestamp h)
    (lastInitiationConsumption h) (lastSentHandshake h).

Definition set_sendNonce (k : Keypair) (n : Z) : Keypair :=
  mkKeypair n (send k) (receive k) (replayFilter k) (isInitiator k) (created k) (kp_localIndex k) (kp_remoteIndex k).

(** ** Index table *)

Definition table_Delete (d : Device) (index : Z) : Device := set_table d (delete index (indexTable d)).

Definition SwapIndexForKeypair (d : Device) (index : Z) (k : kid) : Device :=
  match indexTable d !! index with
  | None => d
  | Some entry => set_table d (<[index := mkEntry (e_peer entry) false (Some k)]> (indexTable d))
  end.

(** The loop draws until an index is free; [draws] is what [randUint32] returns
    (an index and whether it failed).  The result is the index and the error.
    [None]: none of these draws ended the loop. *)
Fixpoint NewIndexForHandshake (d : Device) (draws : list (Z * bool)) (peer : pid) : option (Device * Z * bool) :=
  match draws with
  | [] => None
  | (index, err) :: draws' =>
      if (err : bool) then Some (d, index, true)
      else
        match indexTable d !! index with
        | Some _ => NewIndexForHandshake d draws' peer
        | None => Some (set_table d (<[index := mkEntry peer true None]> (indexTable d)), index, false)
        end
  end.

Definition table_Lookup (d : Device) (id : Z) : option IndexTableEntry := indexTable d !! id.

Definition DeleteKeypair (d : Device) (k : option kid) : Device :=
  match k with
  | None => d
  | Some k =>
      match keypairs d !! k with
      | Some kp => table_Delete d (kp_localIndex kp)
      | None => d
      end
  end.

Section Noise.

(** [blake2s.Sum256], HMAC over blake2s, X25519 and ChaCha20-Poly1305. *)
Context (blake2s : bytes -> bytes) (hmac : bytes -> bytes -> bytes).
Context (ScalarBaseMult : bytes -> bytes) (ScalarMult : bytes -> bytes -> bytes).
Context (Seal : bytes -> bytes -> bytes -> bytes -> bytes) (Open : bytes -> bytes -> bytes -> bytes -> option bytes).

(** ** noise-helpers.go *)

Definition HMAC1 (key in0 : bytes) : bytes := hmac key in0.
Definition HMAC2 (key in0 in1 : bytes) : bytes := hmac key (in0 ++ in1).

Definition KDF1 (key input : bytes) : bytes :=
  let t0 := HMAC1 key input in HMAC1 t0 [1].

Definition KDF2 (key input : bytes) : bytes * bytes :=
  let prk := HMAC1 key input in
  let t0 := HMAC1 prk [1] in
  let t1 := HMAC2 prk t0 [2] in
  (t0, t1).

Definition KDF3 (key input : bytes) : bytes * bytes * bytes :=
  let prk := HMAC1 key input in
  let t0 := HMAC1 prk [1] in
  let t1 := HMAC2 prk t0 [2] in
  let t2 := HMAC2 prk t1 [3] in
  (t0, t1, t2).

Definition clamp (sk : bytes) : bytes :=
  let sk1 := <[0%nat := Z.land (sk !!! 0%nat) 248]> sk in
  <[31%nat := Z.lor (Z.land (sk1 !!! 31%nat) 127) 64]> sk1.

(** [rnd]: the bytes [rand.Read] filled in and whether it failed. *)
Definition newPrivateKey (rnd : bytes * bool) : bytes * bool := (clamp (fst rnd), snd rnd).

(** The secret and whether it is an error (all zero). *)
Definition sharedSecret (sk pk : bytes) : bytes * bool :=
  let ss := ScalarMult sk pk in (ss, isZero ss).

Definition mixKey (c data : bytes) : bytes := KDF1 c data.
Definition mixHash (h data : bytes) : bytes := blake2s (h ++ data).

(** What [init] computes. *)
Definition InitialChainKey : bytes := blake2s NoiseConstruction.
Definition InitialHash : bytes := mixHash InitialChainKey WGIdentifier.

Definition ZeroNonce : bytes := zeros 12.

(** ** noise-protocol.go: the handlers *)

(** An error leaves the handshake fields assigned so far. *)
Definition createMessageInitiation (d : Device) (p : pid) (msgType : Z) (rnd : bytes * bool)
    (timestamp : bytes) (draws : list (Z * bool)) : option (Device * option MessageInitiation) :=
  pr ← peers d !! p;
  let h := handshake pr in
  let '(ek, err) := newPrivateKey rnd in
  if err then Some (update_handshake d p pr (set_secrets h InitialHash InitialChainKey ek), None)
  else
    let hash1 := mixHash InitialHash (remoteStatic h) in
    let ephemeral := ScalarBaseMult ek in
    let ck1 := mixKey InitialChainKey ephemeral in
    let hash2 := mixHash hash1 ephemeral in
    let '(ss, err) := sharedSecret ek (remoteStatic h) in
    if err then Some (update_handshake d p pr (set_secrets h hash2 ck1 ek), None)
    else
      let '(ck2, key) := KDF2 ck1 ss in
      let static := Seal key ZeroNonce (publicKey d) hash2 in
      let hash3 := mixHash hash2 static in
      if isZero (precomputedStaticStatic h) then Some (update_handshake d p pr (set_secrets h hash3 ck2 ek), None)
      else
        let '(ck3, key) := KDF2 ck2 (precomputedStaticStatic h) in
        let sealed := Seal key ZeroNonce timestamp hash3 in
        let d := table_Delete d (localIndex h) in
        '(d, sender, err) ← NewIndexForHandshake d draws p;
        if (err : bool) then Some (update_handshake d p pr (set_secrets h hash3 ck3 ek), None)
        else
          let h' := set_progress (set_secrets h (mixHash hash3 sealed) ck3 ek)
                      handshakeInitiationCreated sender (remoteIndex h) in
          Some (update_handshake d p pr h',
                Some (mkInitiation msgType sender ephemeral static sealed (zeros 16) (zeros 16))).

Definition LookupPeer (d : Device) (pk : bytes) : option pid := keyMap d !! pk.

(** What the first half of [ConsumeMessageInitiation] carries into the second:
    the peer, and the local variables timestamp, hash and chainKey. *)
Record verified := mkVerified {
  v_peer : pid;
  v_timestamp : bytes;
  v_hash : bytes;
  v_chainKey : bytes
}.

(** The first half, up to the tests for replay and flood: the handshake is only
    read, under its read lock; [since] is the reading of the clock. *)
Definition verifyInitiation (d : Device) (msg : MessageInitiation) (since : Z) : option verified :=
  if negb (init_Type msg =? MessageInitiationType) then None
  else
    let hash1 := mixHash InitialHash (publicKey d) in
    let hash2 := mixHash hash1 (init_Ephemeral msg) in
    let ck1 := mixKey InitialChainKey (init_Ephemeral msg) in
    let '(ss, err) := sharedSecret (privateKey d) (init_Ephemeral msg) in
    if err then None
    else
      let '(ck2, key) := KDF2 ck1 ss in
      peerPK ← Open key ZeroNonce (init_Static msg) hash2;
      let hash3 := mixHash hash2 (init_Static msg) in
      p ← LookupPeer d peerPK;
      pr ← peers d !! p;
      if negb (isRunning pr) then None
      else
        let h := handshake pr in
        if isZero (precomputedStaticStatic h) then None
        else
          let '(ck3, key) := KDF2 ck2 (precomputedStaticStatic h) in
          timestamp ← Open key ZeroNonce (init_Timestamp msg) hash3;
          let hash4 := mixHash hash3 (init_Timestamp msg) in
          let replay := negb (Tai64n.After timestamp (lastTimestamp h)) in
          let flood := time_sub since (lastInitiationConsumption h) <=? HandshakeInitationRate in
          if replay then None
          else if flood then None
          else Some (mkVerified p timestamp hash4 ck3).

(** The second half, under the write lock: the handshake may have changed since
    it was read, and only a later timestamp is kept. *)
Definition acceptInitiation (d : Device) (msg : MessageInitiation) (v : verified) (now : Z) : option Device :=
  pr ← peers d !! v_peer v;
  let h := handshake pr in
  let lastTimestamp' :=
    if Tai64n.After (v_timestamp v) (lastTimestamp h) then v_timestamp v else lastTimestamp h in
  let consumption' :=
    if lastInitiationConsumption h <? now then now else lastInitiationConsumption h in
  let h1 := set_secrets h (v_hash v) (v_chainKey v) (localEphemeral h) in
  let h2 := set_consumed h1 (init_Ephemeral msg) lastTimestamp' consumption' in
  let h3 := set_progress h2 handshakeInitiationConsumed (localIndex h) (init_Sender msg) in
  Some (update_handshake d (v_peer v) pr h3).

(** The peer whose initiation was accepted, or nil, when no other goroutine runs
    between the halves; [since] and [now] are the two readings of the clock. *)
Definition ConsumeMessageInitiation (d : Device) (msg : MessageInitiation) (since now : Z) : Device * option pid :=
  match (v ← verifyInitiation d msg since; d' ← acceptInitiation d msg v now; Some (d', v_peer v)) with
  | None => (d, None)
  | Some (d', p) => (d', Some p)
  end.

Definition createMessageResponse (d : Device) (p : pid) (msgType : Z) (draws : list (Z * bool))
    (rnd : bytes * bool) : option (Device * option MessageResponse) :=
  pr ← peers d !! p;
  let h := handshake pr in
  if negb (bool_decide (state h = handshakeInitiationConsumed)) then Some (d, None)
  else
    let d := table_Delete d (localIndex h) in
    '(d, index, err) ← NewIndexForHandshake d draws p;
    let h := set_localIndex h index in
    let fail h := Some (update_handshake d p pr h, None) in
    if (err : bool) then fail h
    else
      let '(ek, err) := newPrivateKey rnd in
      if err then fail (set_secrets h (hash h) (chainKey h) ek)
      else
        let ephemeral := ScalarBaseMult ek in
        let hash1 := mixHash (hash h) ephemeral in
        let ck1 := mixKey (chainKey h) ephemeral in
        let '(ss, err) := sharedSecret ek (remoteEphemeral h) in
        if err then fail (set_secrets h hash1 ck1 ek)
        else
          let ck2 := mixKey ck1 ss in
          let '(ss, err) := sharedSecret ek (remoteStatic h) in
          if err then fail (set_secrets h hash1 ck2 ek)
          else
            let ck3 := mixKey ck2 ss in
            let '(ck4, tau, key) := KDF3 ck3 (presharedKey h) in
            let hash2 := mixHash hash1 tau in
            let empty := Seal key ZeroNonce [] hash2 in
            let h' := set_progress (set_secrets h (mixHash hash2 empty) ck4 ek)
                        handshakeResponseCreated index (remoteIndex h) in
            Some (update_handshake d p pr h',
                  Some (mkResponse msgType index (remoteIndex h) ephemeral empty (zeros 16) (zeros 16))).

(** The inner function of [ConsumeMessageResponse]: the new hash and chain key,
    when the response authenticates. *)
Definition finish_handshake (sk : bytes) (h : Handshake) (msg : MessageResponse) : option (bytes * bytes) :=
  if negb (bool_decide (state h = handshakeInitiationCreated)) then None
  else
    let hash1 := mixHash (hash h) (resp_Ephemeral msg) in
    let ck1 := mixKey (chainKey h) (resp_Ephemeral msg) in
    let '(ss, err) := sharedSecret (localEphemeral h) (resp_Ephemeral msg) in
    if err then None
    else
      let ck2 := mixKey ck1 ss in
      let '(ss, err) := sharedSecret sk (resp_Ephemeral msg) in
      if err then None
      else
        let ck3 := mixKey ck2 ss in
        let '(ck4, tau, key) := KDF3 ck3 (presharedKey h) in
        let hash2 := mixHash hash1 tau in
        _ ← Open key ZeroNonce (resp_Empty msg) hash2;
        Some (mixHash hash2 (resp_Empty msg), ck4).

Definition ConsumeMessageResponse (d : Device) (msg : MessageResponse) : Device * option pid :=
  if negb (resp_Type msg =? MessageResponseType) then (d, None)
  else
    match (e ← table_Lookup d (resp_Receiver msg);
           if e_handshake e then pr ← peers d !! e_peer e; Some (e_peer e, pr) else None) with
    | None => (d, None)
    | Some (p, pr) =>
        let h := handshake pr in
        match finish_handshake (privateKey d) h msg with
        | None => (d, None)
        | Some (hash', chainKey') =>
            let h1 := set_secrets h hash' chainKey' (localEphemeral h) in
            let h2 := set_progress h1 handshakeResponseConsumed (localIndex h) (resp_Sender msg) in
            (update_handshake d p pr h2, Some p)
        end
    end.

(** The keys of the state, and whether this side is the initiator. *)
Definition session_keys (h : Handshake) : option (bytes * bytes * bool) :=
  match state h with
  | handshakeResponseConsumed => let '(sendKey, recvKey) := KDF2 (chainKey h) [] in Some (sendKey, recvKey, true)
  | handshakeResponseCreated => let '(recvKey, sendKey) := KDF2 (chainKey h) [] in Some (sendKey, recvKey, false)
  | _ => None
  end.

(** Returns whether a session began; [None] is the error of an invalid state. *)
Definition BeginSymmetricSession (d : Device) (p : pid) (now : Z) : option (Device * option kid) :=
  pr ← peers d !! p;
  let h := handshake pr in
  match session_keys h with
  | None => Some (d, None)
  | Some (sendKey, recvKey, initiator) =>
      let h' := set_progress (set_secrets h (zeros 32) (zeros 32) (zeros 32)) handshakeZeroed 0 (remoteIndex h) in
      let k := fresh (dom (keypairs d)) in
      let kp := mkKeypair 0 sendKey recvKey (Replay.Reset Replay.zeroFilter) initiator now
                  (localIndex h) (remoteIndex h) in
      let d := set_keypairs d (<[k := kp]> (keypairs d)) in
      let d := SwapIndexForKeypair d (localIndex h) k in
      let '(d, current', previous', next') :=
        if (initiator : bool) then
          let '(d, previous', next') :=
            match next pr with
            | Some n => (DeleteKeypair d (current pr), Some n, None)
            | None => (d, current pr, None)
            end in
          (DeleteKeypair d (previous pr), Some k, previous', next')
        else
          let d := DeleteKeypair d (next pr) in
          (DeleteKeypair d (previous pr), current pr, None, Some k) in
      Some (update_peer d p (set_keys (set_handshake pr h') current' previous' next'), Some k)
  end.

Definition ReceivedWithKeypair (d : Device) (p : pid) (k : kid) : option (Device * bool) :=
  pr ← peers d !! p;
  if bool_decide (next pr = Some k) then
    let d := DeleteKeypair d (previous pr) in
    Some (update_peer d p (set_keys pr (next pr) (current pr) None), true)
  else Some (d, false).

(** ** peer.go: creation and destruction of key material *)

Definition handshake_Clear (h : Handshake) : Handshake :=
  let h := set_consumed h (zeros 32) (lastTimestamp h) (lastInitiationConsumption h) in
  set_progress (set_secrets h (zeros 32) (zeros 32) (zeros 32)) handshakeZeroed 0 (remoteIndex h).

(** [time.Time{}] in nanoseconds of the Unix epoch. *)
Definition zeroTime : Z := -62135596800 * Second.

Definition zeroHandshake : Handshake :=
  mkHandshake handshakeZeroed (zeros 32) (zeros 32) (zeros 32) (zeros 32) 0 0 (zeros 32) (zeros 32) (zeros 32)
    (zeros 12) zeroTime zeroTime.

Definition MaxPeers : Z := Z.shiftl 1 16.

(** The key state of [NewPeer] on a device that is not closed. *)
Definition NewPeer (d : Device) (pk : bytes) : Device * option pid :=
  if MaxPeers <=? Z.of_nat (size (keyMap d)) then (d, None)
  else
    match keyMap d !! pk with
    | Some _ => (d, None)
    | None =>
        let '(ss, _) := sharedSecret (privateKey d) pk in
        let p := fresh (dom (peers d)) in
        let pr := mkPeer false (set_static zeroHandshake pk ss) None None None in
        (mkDevice (privateKey d) (publicKey d) (<[pk := p]> (keyMap d)) (<[p := pr]> (peers d))
           (indexTable d) (keypairs d), Some p)
    end.

End Noise.

(** The [preshared_key] line of [handlePeerLine]. *)
Definition SetPresharedKey (d : Device) (p : pid) (psk : bytes) : option Device :=
  pr ← peers d !! p; Some (update_handshake d p pr (set_presharedKey (handshake pr) psk)).

(** The key material part of [ZeroAndFlushAll]. *)
Definition ZeroAndFlushAll (d : Device) (p : pid) : option Device :=
  pr ← peers d !! p;
  let d := DeleteKeypair d (previous pr) in
  let d := DeleteKeypair d (current pr) in
  let d := DeleteKeypair d (next pr) in
  let d := table_Delete d (localIndex (handshake pr)) in
  Some (update_peer d p (set_keys (set_handshake pr (handshake_Clear (handshake pr))) None None None)).

Definition exhaust (d : Device) (k : option kid) : Device :=
  match k with
  | None => d
  | Some k => set_keypairs d (alter (fun kp => set_sendNonce kp RejectAfterMessages) k (keypairs d))
  end.

Definition ExpireCurrentKeypairs (d : Device) (p : pid) (now : Z) : option Device :=
  pr ← peers d !! p;
  let d := table_Delete d (localIndex (handshake pr)) in
  let h := set_lastSentHandshake (handshake_Clear (handshake pr)) (now - (RekeyTimeout + Second)) in
  let d := update_handshake d p pr h in
  Some (exhaust (exhaust d (current pr)) (next pr)).

(** The key material part of [removePeerLocked], with its [Stop]: the object
    stays, for who still points to it, and the key no longer leads to it. *)
Definition deleteKey (d : Device) (pk : bytes) : Device :=
  mkDevice (privateKey d) (publicKey d) (delete pk (keyMap d)) (peers d) (indexTable d) (keypairs d).

Definition set_isRunning (d : Device) (p : pid) (b : bool) : option Device :=
  pr ← peers d !! p; Some (update_peer d p (mkPeer b (handshake pr) (current pr) (previous pr) (next pr))).

Definition removePeerLocked (d : Device) (p : pid) (pk : bytes) : option Device :=
  pr ← peers d !! p;
  d ← (if negb (isRunning pr) then Some d else d ← set_isRunning d p false; ZeroAndFlushAll d p);
  Some (deleteKey d pk).

(** ** device.go: the static identity *)

Definition setIdentity (d : Device) (sk pk : bytes) : Device :=
  mkDevice sk pk (keyMap d) (peers d) (indexTable d) (keypairs d).

Section Identity.

Context (ScalarBaseMult : bytes -> bytes) (ScalarMult : bytes -> bytes -> bytes).

(** The static-static secrets of all peers under the new key. *)
Definition precompute (d : Device) (ps : list pid) : Device :=
  foldl (fun d p =>
    match peers d !! p with
    | None => d
    | Some pr =>
        let h := handshake pr in
        let '(ss, _) := sharedSecret ScalarMult (privateKey d) (remoteStatic h) in
        update_handshake d p pr (set_static h (remoteStatic h) ss)
    end) d ps.

(** The peers known by the public key of the new identity. *)
Definition self_peers (d : Device) (pk : bytes) : list (bytes * pid) :=
  List.filter (fun x =>
    match peers d !! (snd x : pid) with
    | Some pr => bool_decide (remoteStatic (handshake pr) = pk)
    | None => false
    end) (map_to_list (keyMap d)).

Fixpoint remove_all (xs : list (bytes * pid)) (d : Device) : option Device :=
  match xs with
  | [] => Some d
  | (pk, p) :: xs' => d ← removePeerLocked d p pk; remove_all xs' d
  end.

Fixpoint expire_all (ps : list pid) (now : Z) (d : Device) : option Device :=
  match ps with
  | [] => Some d
  | p :: ps' => d ← ExpireCurrentKeypairs d p now; expire_all ps' now d
  end.

(** The key material part of [SetPrivateKey]. *)
Definition SetPrivateKey (d : Device) (sk : bytes) (now : Z) : option Device :=
  if bool_decide (sk = privateKey d) then Some d
  else
    let pk := ScalarBaseMult sk in
    d ← remove_all (self_peers d pk) d;
    let d := setIdentity d sk pk in
    let ps := map snd (map_to_list (keyMap d)) in
    expire_all ps now (precompute d ps).

End Identity.

End Noise.
