(* ===== verification/ToyCrypto.v ===== *)
(** * A small instance of the cryptographic parameters

    Concrete functions that satisfy the laws the theorems assume of the real
    primitives (the Diffie-Hellman exchange commutes, opening undoes sealing
    under the same key, nonce and associated data).  They are not secure; they
    make the model executable and show that the hypotheses hold together. *)

From S2P Require Import Prelude Bits Bytes.

Module ToyCrypto.

Local Open Scope Z_scope.

Definition checksum (b : list Z) : Z := foldl (fun a x => (31 * a + x + 7) mod 251) 1 b.

Definition toy_hash (b : list Z) : list Z := repeat (checksum b) 32.
Definition toy_hmac (key b : list Z) : list Z := repeat (checksum (key ++ b)) 32.
Definition scalar (sk : list Z) : Z := checksum sk + 1.
Definition toy_base (sk : list Z) : list Z := repeat (scalar sk mod 257) 32.
Definition toy_mult (sk pk : list Z) : list Z := repeat ((scalar sk * hd 0 pk) mod 257) 32.

Definition toy_seal (key nonce plain ad : list Z) : list Z :=
  plain ++ repeat (checksum (key ++ nonce ++ plain ++ ad)) 16.
Definition toy_open (key nonce sealed ad : list Z) : option (list Z) :=
  let plain := take (length sealed - 16) sealed in
  if decide (toy_seal key nonce plain ad = sealed) then Some plain else None.

(** The exchange commutes. *)
Lemma toy_commutes a b : toy_mult a (toy_base b) = toy_mult b (toy_base a).
Proof. unfold toy_mult, toy_base. cbn [repeat hd]. by rewrite !Zmult_mod_idemp_r, Z.mul_comm. Qed.

(** Opening undoes sealing. *)
Lemma toy_open_seal key nonce plain ad : toy_open key nonce (toy_seal key nonce plain ad) ad = Some plain.
Proof.
  unfold toy_open. replace (take _ _) with plain.
  - by rewrite decide_True.
  - unfold toy_seal. rewrite length_app, repeat_length, take_app_length'; lia || done.
Qed.

Lemma toy_seal_length key nonce plain ad : length (toy_seal key nonce plain ad) = (length plain + 16)%nat.
Proof. unfold toy_seal. by rewrite length_app, repeat_length. Qed.

End ToyCrypto.
