(* ===== verification/Sessions.v ===== *)
(** * Sessions: what every run of the handshake handlers keeps

    Runs of the operations of [Noise] on one device, in any order.  The index
    table is exactly the live handshakes and key pairs, and an accepted
    initiation is not accepted again, also when peers are removed, the private
    key changes and other initiations are half way through. *)

From S2P Require Import Prelude Bits Bytes Messages Replay Tai64n Noise ToyCrypto.

Module Sessions.

Import Messages Noise.

Local Open Scope Z_scope.

(** The operations on the key material of a device. *)
Inductive op :=
| OpNewPeer (pk : bytes)
| OpSetRunning (p : pid) (b : bool)
| OpSetPresharedKey (p : pid) (psk : bytes)
| OpCreateInitiation (p : pid) (msgType : Z) (rnd : bytes * bool) (timestamp : bytes) (draws : list (Z * bool))
| OpConsumeInitiation (msg : MessageInitiation) (since now : Z)
| OpCreateResponse (p : pid) (msgType : Z) (draws : list (Z * bool)) (rnd : bytes * bool)
| OpConsumeResponse (msg : MessageResponse)
| OpBeginSession (p : pid) (now : Z)
| OpReceivedWith (p : pid) (k : kid)
| OpZeroAndFlush (p : pid)
| OpExpire (p : pid) (now : Z).

Definition newDevice (sk pk : bytes) : Device := mkDevice sk pk ∅ ∅ ∅ ∅.

(** [randUint32] succeeds and never returns the index 0. *)
Definition good_draws (draws : list (Z * bool)) : Prop := Forall (fun x => snd x = false /\ fst x <> 0) draws.

Definition good_op (o : op) : Prop :=
  match o with
  | OpCreateInitiation _ _ _ _ draws | OpCreateResponse _ _ draws _ => good_draws draws
  | _ => True
  end.

(** ** What an index stands for *)

Definition entry (p : pid) (t : option kid) : IndexTableEntry := mkEntry p (bool_decide (t = None)) t.

Definition holds (pr : Peer) (k : kid) : Prop :=
  current pr = Some k \/ previous pr = Some k \/ next pr = Some k.

Definition index_of (ks : gmap kid Keypair) (k : kid) (i : Z) : Prop := kp_localIndex <$> ks !! k = Some i.

(** The index belongs to a handshake with local index [lidx] ([None]) or to a key
    pair that is [held]. *)
Definition owns_by (ks : gmap kid Keypair) (lidx : Z) (held : kid -> Prop) (i : Z) (t : option kid) : Prop :=
  i <> 0 /\
  match t with
  | None => lidx = i
  | Some k => held k /\ index_of ks k i
  end.

Definition owns (ks : gmap kid Keypair) (pr : Peer) (i : Z) (t : option kid) : Prop :=
  owns_by ks (localIndex (handshake pr)) (holds pr) i t.

Definition indexed_state (s : handshakeState) : bool :=
  match s with
  | handshakeInitiationCreated | handshakeResponseCreated | handshakeResponseConsumed => true
  | _ => false
  end.

Record peer_ok (ks : gmap kid Keypair) (pr : Peer) : Prop := {
  slots_indexed : forall k, holds pr k -> exists i, index_of ks k i /\ i <> 0;
  slots_cp : forall k, current pr = Some k -> previous pr <> Some k;
  slots_cn : forall k, current pr = Some k -> next pr <> Some k;
  slots_pn : forall k, previous pr = Some k -> next pr <> Some k;
  state_indexed : indexed_state (state (handshake pr)) = true -> localIndex (handshake pr) <> 0
}.

(** Every entry is of a peer, and a peer's entries are what it owns. *)
Record exact (T : gmap Z IndexTableEntry) (P : gmap pid Peer) (K : gmap kid Keypair) : Prop := {
  entries_wf : forall i e, T !! i = Some e -> exists p t, e = entry p t /\ is_Some (P !! p);
  entries_owned : forall p pr i t, P !! p = Some pr -> (T !! i = Some (entry p t) <-> owns K pr i t)
}.

Record table_ok (d : Device) : Prop := {
  table_exact : exact (indexTable d) (peers d) (keypairs d);
  table_peers : forall p pr, peers d !! p = Some pr -> peer_ok (keypairs d) pr
}.

(** ** Edits of the table on behalf of one peer *)

Definition edits (p : pid) (T T' : gmap Z IndexTableEntry) : Prop :=
  (forall i e, T' !! i = Some e -> (exists t, e = entry p t) \/ T !! i = Some e) /\
  (forall q i t, q <> p -> (T' !! i = Some (entry q t) <-> T !! i = Some (entry q t))).

Definition mine (p : pid) (T : gmap Z IndexTableEntry) (j : Z) : Prop :=
  forall e, T !! j = Some e -> exists t, e = entry p t.

Lemma entry_inj p q t u : entry p t = entry q u -> p = q /\ t = u.
Proof. by injection 1. Qed.

Lemma edits_refl p T : edits p T T.
Proof. split; [by right | done]. Qed.

Lemma edits_trans p T1 T2 T3 : edits p T1 T2 -> edits p T2 T3 -> edits p T1 T3.
Proof.
  intros [A1 A2] [B1 B2]. split.
  - intros i e He. destruct (B1 i e He) as [|H]; [by left | by apply A1].
  - intros q i t Hq. by rewrite B2, A2.
Qed.

Lemma edits_delete p T j : mine p T j -> edits p T (delete j T).
Proof.
  intros Hj. split.
  - intros i e [_ H]%lookup_delete_Some. by right.
  - intros q i t Hq. rewrite lookup_delete_Some. split; [by intros [_ ?]|]. intros H. split; [|done].
    intros ->. destruct (Hj _ H) as [u [Hpq _]%entry_inj]. done.
Qed.

Lemma edits_insert p T j t : mine p T j -> edits p T (<[j := entry p t]> T).
Proof.
  intros Hj. split.
  - intros i e [[_ <-] | [_ H]]%lookup_insert_Some; eauto.
  - intros q i u Hq. rewrite lookup_insert_Some. split.
    + by intros [[_ [-> _]%entry_inj] | [_ ?]].
    + intros H. right. split; [|done]. intros ->. destruct (Hj _ H) as [v [Hpq _]%entry_inj]. done.
Qed.

Lemma edits_mine p T T' j : edits p T T' -> mine p T j -> mine p T' j.
Proof. intros [H _] Hj e He. destruct (H _ _ He) as [|H']; [done | by apply Hj]. Qed.

(** What keeps the index of every key pair. *)
Definition extends (K K' : gmap kid Keypair) : Prop := forall k i, index_of K k i -> index_of K' k i.

Lemma extends_refl K : extends K K.
Proof. intros k i H. exact H. Qed.

Lemma index_of_inj K k i j : index_of K k i -> index_of K k j -> i = j.
Proof. unfold index_of. congruence. Qed.

Lemma owns_extends K K' pr i t : peer_ok K pr -> extends K K' -> (owns K pr i t <-> owns K' pr i t).
Proof.
  intros Hp Hx. unfold owns, owns_by. destruct t as [k|]; [|done].
  split; intros (Hi & Hk & H); split_and!; try done; [by apply Hx|].
  destruct (slots_indexed _ _ Hp k Hk) as (j & Hj & _). by rewrite (index_of_inj _ _ _ _ H (Hx _ _ Hj)).
Qed.

Lemma peer_ok_extends K K' pr : peer_ok K pr -> extends K K' -> peer_ok K' pr.
Proof.
  intros [H1 H2 H3 H4 H5] Hx. split; try done. intros k Hk. destruct (H1 k Hk) as (i & Hi & Hn). eauto.
Qed.

(** One peer changes, and its entries with it. *)
Lemma table_ok_update d d' p pr pr' :
  table_ok d -> peers d !! p = Some pr ->
  peers d' = <[p := pr']> (peers d) ->
  edits p (indexTable d) (indexTable d') -> extends (keypairs d) (keypairs d') ->
  peer_ok (keypairs d') pr' ->
  (forall i t, indexTable d' !! i = Some (entry p t) <-> owns (keypairs d') pr' i t) ->
  table_ok d'.
Proof.
  intros [[Hw Ho] Hp] Hpr HP [He1 He2] Hx Hok Hmine. split; [split|]; rewrite ?HP.
  - intros i e He. destruct (He1 i e He) as [[t ->] | H].
    + exists p, t. split; [done|]. rewrite lookup_insert_eq. by eexists.
    + destruct (Hw i e H) as (q & t & -> & Hq). exists q, t. split; [done|]. apply lookup_insert_is_Some.
      destruct (decide (p = q)); auto.
  - intros q qr i t [[<- <-] | [Hne Hq]]%lookup_insert_Some; [done|].
    rewrite He2 by congruence. rewrite (Ho q qr i t Hq). apply owns_extends; eauto.
  - intros q qr [[<- <-] | [Hne Hq]]%lookup_insert_Some; [done|]. apply (peer_ok_extends (keypairs d)); eauto.
Qed.

(** ** Deleting key pairs *)

Lemma DeleteKeypair_lookup d ko i e :
  indexTable (DeleteKeypair d ko) !! i = Some e <->
  indexTable d !! i = Some e /\ forall k, ko = Some k -> ~ index_of (keypairs d) k i.
Proof.
  unfold DeleteKeypair, index_of. destruct ko as [k|]; [|by split; [|intros []]].
  destruct (keypairs d !! k) as [kp|] eqn:Hk; cbn.
  - rewrite lookup_delete_Some. split.
    + intros [Hne H]. split; [done|]. intros k' [= <-]. rewrite Hk. by intros [= ?].
    + intros [H Hn]. split; [|done]. intros <-. apply (Hn k); [done | by rewrite Hk].
  - split; [|by intros []]. intros H. split; [done|]. intros k' [= <-]. by rewrite Hk.
Qed.

Lemma DeleteKeypair_keypairs d ko : keypairs (DeleteKeypair d ko) = keypairs d.
Proof. destruct ko as [k|]; [|done]. cbn. by destruct (keypairs d !! k). Qed.

Lemma DeleteKeypair_peers d ko : peers (DeleteKeypair d ko) = peers d.
Proof. destruct ko as [k|]; [|done]. cbn. by destruct (keypairs d !! k). Qed.

Lemma DeleteKeypair_edits d p ko :
  (forall k i, ko = Some k -> index_of (keypairs d) k i -> mine p (indexTable d) i) ->
  edits p (indexTable d) (indexTable (DeleteKeypair d ko)).
Proof.
  unfold DeleteKeypair, index_of. destruct ko as [k|]; [|intros; apply edits_refl].
  destruct (keypairs d !! k) as [kp|] eqn:Hk; intros H; [|apply edits_refl].
  apply edits_delete, (H k); [done | by rewrite Hk].
Qed.

Lemma mine_none p T i : T !! i = None -> mine p T i.
Proof. intros H e He. congruence. Qed.

(** ** Following the table through a handler

    [tracked]: the table [T] was reached from [T0] by edits for [p], whose
    entries are now its handshake index [lidx] and the key pairs [held]. *)
Record tracked (p : pid) (T0 T : gmap Z IndexTableEntry) (K : gmap kid Keypair) (lidx : Z) (held : kid -> Prop) : Prop := {
  tr_edits : edits p T0 T;
  tr_zero : T !! 0 = None;
  tr_view : forall i t, T !! i = Some (entry p t) <-> owns_by K lidx held i t
}.

Lemma tracked_start d p pr :
  table_ok d -> peers d !! p = Some pr ->
  tracked p (indexTable d) (indexTable d) (keypairs d) (localIndex (handshake pr)) (holds pr).
Proof.
  intros [[Hw Ho] _] Hp. split; [apply edits_refl | | intros i t; by apply Ho].
  destruct (indexTable d !! 0) as [e|] eqn:He; [|done].
  destruct (Hw 0 e He) as (q & t & -> & qr & Hq). apply (Ho q qr 0 t Hq) in He. by destruct He.
Qed.

Lemma tracked_mine p T0 T K lidx held i t : tracked p T0 T K lidx held -> owns_by K lidx held i t -> mine p T i.
Proof. intros [_ _ Hv] Hi e He. apply Hv in Hi. rewrite Hi in He. injection He as <-. eauto. Qed.

Lemma tracked_unique p T0 T K lidx held i t u :
  tracked p T0 T K lidx held -> owns_by K lidx held i t -> owns_by K lidx held i u -> t = u.
Proof. intros [_ _ Hv] Ht Hu. apply Hv in Ht, Hu. rewrite Ht in Hu. by injection Hu. Qed.

Lemma tracked_local_mine p T0 T K lidx held : tracked p T0 T K lidx held -> mine p T lidx.
Proof.
  intros Ht. destruct (decide (lidx = 0)) as [-> |Hn]; [apply mine_none, Ht|].
  by apply (tracked_mine p T0 T K lidx held lidx None).
Qed.

(** The handshake's index is given up. *)
Lemma tracked_unindex p T0 T K lidx held :
  tracked p T0 T K lidx held -> tracked p T0 (delete lidx T) K 0 held.
Proof.
  intros Ht. split.
  - eapply edits_trans; [apply Ht | by eapply edits_delete, tracked_local_mine].
  - apply lookup_delete_None. right. apply Ht.
  - intros i t. rewrite lookup_delete_Some, (tr_view _ _ _ _ _ _ Ht).
    destruct t as [k|]; cbn; [|split; [by intros (? & _ & ?) | by intros [? <-]]].
    split; [tauto|]. intros H. split; [|done]. intros ->.
    by pose proof (tracked_unique _ _ _ _ _ _ i None (Some k) Ht (conj (proj1 H) eq_refl) H).
Qed.

(** A free index is taken for the handshake. *)
Lemma tracked_index p T0 T K held i :
  tracked p T0 T K 0 held -> T !! i = None -> i <> 0 -> tracked p T0 (<[i := entry p None]> T) K i held.
Proof.
  intros Ht Hf Hi. split.
  - eapply edits_trans; [apply Ht | by apply edits_insert, mine_none].
  - rewrite lookup_insert_ne by done. apply Ht.
  - intros j t. rewrite lookup_insert_Some, (tr_view _ _ _ _ _ _ Ht). destruct t as [k|]; cbn.
    + split; [by intros [[_ []%entry_inj] | (_ & ?)]|]. intros H. right. split; [|done]. intros ->.
      apply (tr_view _ _ _ _ _ _ Ht j (Some k)) in H. congruence.
    + split; [by intros [[-> _] | (_ & Hj & <-)]|]. intros [_ <-]. by left.
Qed.

(** The handshake's index becomes that of a new key pair. *)
Lemma tracked_swap p T0 T K lidx held k kp :
  tracked p T0 T K lidx held -> lidx <> 0 -> K !! k = None -> (forall k', held k' -> is_Some (K !! k')) ->
  kp_localIndex kp = lidx ->
  tracked p T0 (<[lidx := entry p (Some k)]> T) (<[k := kp]> K) 0 (fun k' => held k' \/ k' = k).
Proof.
  intros Ht Hl Hk Hh Hkp. split.
  - eapply edits_trans; [apply Ht | by eapply edits_insert, tracked_local_mine].
  - rewrite lookup_insert_ne by done. apply Ht.
  - intros j t. rewrite lookup_insert_Some, (tr_view _ _ _ _ _ _ Ht). destruct t as [k'|]; cbn.
    + unfold owns_by, index_of. split.
      * intros [[<- [_ [= <-]]%entry_inj] | (Hne & Hj & Hk' & Hi)].
        { split; [done|]. split; [by right|].
          rewrite lookup_insert_eq. cbn. by rewrite Hkp. }
        split; [done|]. split; [by left|]. rewrite lookup_insert_ne; [done|]. intros <-. by destruct (Hh k Hk'); congruence.
      * intros (Hj & [Hk' | ->] & Hi).
        { rewrite lookup_insert_ne in Hi by (intros <-; destruct (Hh k Hk'); congruence).
          right. split; [|done]. intros <-.
          by pose proof (tracked_unique _ _ _ _ _ _ lidx None (Some k') Ht (conj Hj eq_refl) (conj Hj (conj Hk' Hi))). }
        rewrite lookup_insert_eq in Hi. injection Hi as <-. left. by rewrite Hkp.
    + split; [by intros [[_ []%entry_inj] | (Hne & Hj & ?)] | by intros [? <-]].
Qed.

(** A key pair that is held is dropped. *)
Lemma tracked_drop p T0 d lidx held ko :
  tracked p T0 (indexTable d) (keypairs d) lidx held -> (forall k, ko = Some k -> held k) ->
  tracked p T0 (indexTable (DeleteKeypair d ko)) (keypairs (DeleteKeypair d ko)) lidx (fun k => held k /\ ko <> Some k).
Proof.
  intros Ht Hko. rewrite DeleteKeypair_keypairs. split.
  - eapply edits_trans; [apply Ht|]. apply DeleteKeypair_edits. intros k i Hk Hi.
    destruct (decide (i = 0)) as [-> |Hn]; [apply mine_none, Ht|]. by eapply (tracked_mine _ _ _ _ _ _ i (Some k) Ht); repeat split; eauto.
  - destruct (indexTable (DeleteKeypair d ko) !! 0) as [e|] eqn:He; [|done].
    apply DeleteKeypair_lookup in He as [He _]. by rewrite (tr_zero _ _ _ _ _ _ Ht) in He.
  - intros i t. rewrite DeleteKeypair_lookup, (tr_view _ _ _ _ _ _ Ht). split.
    + intros [(Hi & H) Hn]. split; [done|]. destruct t as [k|]; [|done]. split; [|apply H]. split; [apply H|]. intros ->.
      apply (Hn k); [done|]. apply H.
    + intros (Hi & H). assert (Ho : owns_by (keypairs d) lidx held i t) by (split; [done|]; destruct t; tauto).
      split; [done|]. intros k -> Hx.
      assert (Some k = t) as <- by (eapply (tracked_unique _ _ _ _ _ _ i _ _ Ht); [split; [done|] | done]; auto).
      by destruct H as [[_ []] _].
Qed.

Lemma tracked_held p T0 T K lidx held held' :
  tracked p T0 T K lidx held -> (forall k, held k <-> held' k) -> tracked p T0 T K lidx held'.
Proof.
  intros [? ? Hv] Hh. split; [done..|]. intros i t. rewrite Hv. unfold owns_by. destruct t; [|done]. by rewrite Hh.
Qed.

(** The handler stores the peer that owns what is tracked. *)
Lemma tracked_finish d d' p pr pr' :
  table_ok d -> peers d !! p = Some pr -> peers d' = <[p := pr']> (peers d) -> extends (keypairs d) (keypairs d') ->
  peer_ok (keypairs d') pr' ->
  tracked p (indexTable d) (indexTable d') (keypairs d') (localIndex (handshake pr')) (holds pr') ->
  table_ok d'.
Proof. intros Hd Hp HP Hx Hok [He _ Hv]. by apply (table_ok_update d d' p pr pr'). Qed.

(** ** Every operation keeps the table exact *)

Lemma NewIndex_spec d draws p d' i err :
  good_draws draws -> NewIndexForHandshake d draws p = Some (d', i, err) ->
  err = false /\ i <> 0 /\ indexTable d !! i = None /\ d' = set_table d (<[i := entry p None]> (indexTable d)).
Proof.
  induction draws as [|[j e] draws IH]; intros Hg; [done|].
  apply Forall_cons_iff in Hg as [[He Hj] Hg]. cbn in He, Hj |- *. subst e.
  destruct (indexTable d !! j) eqn:Ht; [by apply IH|]. by intros [= <- <- <-].
Qed.

Lemma peer_ok_handshake K pr h :
  peer_ok K pr -> (indexed_state (state h) = true -> localIndex h <> 0) -> peer_ok K (set_handshake pr h).
Proof. intros [] H. by split. Qed.

(** The handshake moves on with the index it has. *)
Lemma table_ok_keep d p pr h :
  table_ok d -> peers d !! p = Some pr -> localIndex h = localIndex (handshake pr) ->
  (indexed_state (state h) = true -> localIndex h <> 0) ->
  table_ok (update_handshake d p pr h).
Proof.
  intros Hd Hp Hl Hs. apply (tracked_finish d _ p pr (set_handshake pr h)); try done; cbn.
  - apply extends_refl.
  - apply (peer_ok_handshake _ pr h); [by apply (table_peers d Hd p) | done].
  - rewrite Hl. exact (tracked_start d p pr Hd Hp).
Qed.

(** The handshake gets a new index. *)
Lemma table_ok_reindex d p pr h draws d' i err :
  table_ok d -> peers d !! p = Some pr -> good_draws draws ->
  NewIndexForHandshake (table_Delete d (localIndex (handshake pr))) draws p = Some (d', i, err) ->
  localIndex h = i -> table_ok (update_handshake d' p pr h).
Proof.
  intros Hd Hp Hg HN Hl. apply NewIndex_spec in HN as (_ & Hi & Hfree & ->); [|done].
  apply (tracked_finish d _ p pr (set_handshake pr h)); try done; cbn in *.
  - apply extends_refl.
  - apply (peer_ok_handshake _ pr h); [by apply (table_peers d Hd p) | by rewrite Hl].
  - rewrite Hl. apply tracked_index; [|done..]. apply tracked_unindex. exact (tracked_start d p pr Hd Hp).
Qed.

Lemma state_indexed_of d p pr :
  table_ok d -> peers d !! p = Some pr -> indexed_state (state (handshake pr)) = true -> localIndex (handshake pr) <> 0.
Proof. intros Hd Hp. apply (state_indexed _ _ (table_peers d Hd p pr Hp)). Qed.

Lemma held_known d p pr k : table_ok d -> peers d !! p = Some pr -> holds pr k -> is_Some (keypairs d !! k).
Proof.
  intros Hd Hp Hk. destruct (slots_indexed _ _ (table_peers d Hd p pr Hp) k Hk) as (i & Hi & _).
  unfold index_of in Hi. by destruct (keypairs d !! k).
Qed.

(** The slots of a peer after some were dropped. *)
Ltac slots Hok := destruct Hok as [? ? ? ? ?]; unfold holds in *; cbn in *; intuition (subst; eauto; congruence).
Ltac slots_at Hok k' :=
  pose proof (slots_cp _ _ Hok k'); pose proof (slots_cn _ _ Hok k'); pose proof (slots_pn _ _ Hok k');
  unfold holds in *; cbn in *; intuition (subst; congruence).

Lemma ReceivedWithKeypair_ok d p k d' b : table_ok d -> ReceivedWithKeypair d p k = Some (d', b) -> table_ok d'.
Proof.
  intros Hd. unfold ReceivedWithKeypair. destruct (peers d !! p) as [pr|] eqn:Hp; [|done]. red_bind.
  case_bool_decide as Hn; intros [= <- <-]; [|done]. pose proof (table_peers d Hd p pr Hp) as Hok.
  apply (tracked_finish d _ p pr (set_keys pr (next pr) (current pr) None)); try done.
  - cbn. by rewrite DeleteKeypair_peers.
  - cbn. rewrite DeleteKeypair_keypairs. apply extends_refl.
  - cbn. rewrite DeleteKeypair_keypairs. split; slots Hok.
  - eapply tracked_held; [eapply (tracked_drop p _ d _ _ (previous pr)); [exact (tracked_start d p pr Hd Hp)|]|].
    + intros k'. unfold holds. tauto.
    + intros k'. cbn. slots Hok.
Qed.

Lemma ZeroAndFlushAll_ok d p d' : table_ok d -> ZeroAndFlushAll d p = Some d' -> table_ok d'.
Proof.
  intros Hd. unfold ZeroAndFlushAll. destruct (peers d !! p) as [pr|] eqn:Hp; [|done]. red_bind.
  intros [= <-]. pose proof (table_peers d Hd p pr Hp) as Hok.
  apply (tracked_finish d _ p pr (set_keys (set_handshake pr (handshake_Clear (handshake pr))) None None None)); try done.
  - cbn. by rewrite !DeleteKeypair_peers.
  - cbn. rewrite !DeleteKeypair_keypairs. apply extends_refl.
  - cbn. split; slots Hok.
  - cbn. apply tracked_unindex. eapply tracked_held.
    + do 3 (eapply tracked_drop; [|shelve]). exact (tracked_start d p pr Hd Hp).
    + intros k'. cbn. slots Hok.
    Unshelve. all: intros k'; cbn; slots Hok.
Qed.

Lemma exhaust_index d ko k i : index_of (keypairs (exhaust d ko)) k i <-> index_of (keypairs d) k i.
Proof.
  unfold exhaust, index_of. destruct ko as [k'|]; [|done]. cbn. destruct (decide (k' = k)) as [-> |Hne].
  - rewrite lookup_alter_eq. by destruct (keypairs d !! k).
  - by rewrite lookup_alter_ne.
Qed.

Lemma exhaust_peers d ko : peers (exhaust d ko) = peers d.
Proof. by destruct ko. Qed.

Lemma table_ok_keypairs d K :
  (forall k i, index_of K k i <-> index_of (keypairs d) k i) -> table_ok d -> table_ok (set_keypairs d K).
Proof.
  intros HK [[Hw Ho] Hp]. split; [split|]; cbn; [done| |].
  - intros p pr i t Hpr. rewrite (Ho p pr i t Hpr). unfold owns, owns_by. destruct t; [|done]. by rewrite HK.
  - intros p pr Hpr. apply (peer_ok_extends (keypairs d)); [by eapply Hp|]. intros k i. by rewrite HK.
Qed.

(** Only the indices of the key pairs matter. *)
Lemma table_ok_exhaust d ko : table_ok d -> table_ok (exhaust d ko).
Proof.
  intros Hd. pose proof (exhaust_index d ko) as H. destruct ko as [k|]; [|done]. by apply table_ok_keypairs.
Qed.

Lemma ExpireCurrentKeypairs_ok d p now d' : table_ok d -> ExpireCurrentKeypairs d p now = Some d' -> table_ok d'.
Proof.
  intros Hd. unfold ExpireCurrentKeypairs. destruct (peers d !! p) as [pr|] eqn:Hp; [|done]. red_bind.
  intros [= <-]. do 2 apply table_ok_exhaust. set (h := set_lastSentHandshake _ _).
  apply (tracked_finish d _ p pr (set_handshake pr h)); try done; cbn.
  - apply extends_refl.
  - apply (peer_ok_handshake _ pr h); [by apply (table_peers d Hd p) | done].
  - apply tracked_unindex. exact (tracked_start d p pr Hd Hp).
Qed.

(** The session's key pair takes over the handshake's index. *)
Lemma tracked_begin d p pr k kp :
  table_ok d -> peers d !! p = Some pr -> indexed_state (state (handshake pr)) = true ->
  keypairs d !! k = None -> kp_localIndex kp = localIndex (handshake pr) ->
  let d1 := SwapIndexForKeypair (set_keypairs d (<[k := kp]> (keypairs d))) (localIndex (handshake pr)) k in
  peers d1 = peers d /\ keypairs d1 = <[k := kp]> (keypairs d) /\
  tracked p (indexTable d) (indexTable d1) (keypairs d1) 0 (fun k' => holds pr k' \/ k' = k).
Proof.
  intros Hd Hp Hs Hk Hkp. pose proof (state_indexed_of d p pr Hd Hp Hs) as Hl.
  pose proof (tracked_start d p pr Hd Hp) as Ht.
  assert (He : indexTable d !! localIndex (handshake pr) = Some (entry p None)) by (by apply (tr_view _ _ _ _ _ _ Ht)).
  unfold SwapIndexForKeypair. cbn. rewrite He. split_and!; [done..|]. cbn.
  apply (tracked_swap p _ _ _ _ _ k kp Ht); try done. intros k'. by apply (held_known d p pr).
Qed.

Lemma fresh_keypair d : keypairs d !! fresh (dom (keypairs d)) = None.
Proof. apply not_elem_of_dom, is_fresh. Qed.

Lemma extends_insert K k kp : K !! k = None -> extends K (<[k := kp]> K).
Proof.
  unfold extends, index_of. intros Hk k' i H. rewrite lookup_insert_ne; [done|]. intros ->. by rewrite Hk in H.
Qed.

Lemma index_of_insert K k kp : index_of (<[k := kp]> K) k (kp_localIndex kp).
Proof. unfold index_of. by rewrite lookup_insert_eq. Qed.

(** The rotation: the key pair is new to the peer, and what the peer no longer
    holds was dropped. *)
Lemma table_ok_rotate d d' p pr pr' k kp drop1 drop2 :
  table_ok d -> peers d !! p = Some pr -> indexed_state (state (handshake pr)) = true ->
  keypairs d !! k = None -> kp_localIndex kp = localIndex (handshake pr) ->
  let d1 := SwapIndexForKeypair (set_keypairs d (<[k := kp]> (keypairs d))) (localIndex (handshake pr)) k in
  d' = update_peer (DeleteKeypair (DeleteKeypair d1 drop1) drop2) p pr' ->
  (forall k', drop1 = Some k' \/ drop2 = Some k' -> holds pr k') ->
  (forall k', drop1 = Some k' -> drop2 <> Some k') ->
  (forall k', holds pr' k' <-> k' = k \/ holds pr k' /\ drop1 <> Some k' /\ drop2 <> Some k') ->
  (forall k', current pr' = Some k' -> previous pr' <> Some k' /\ next pr' <> Some k') ->
  (forall k', previous pr' = Some k' -> next pr' <> Some k') ->
  state (handshake pr') = handshakeZeroed -> localIndex (handshake pr') = 0 ->
  table_ok d'.
Proof.
  intros Hd Hp Hs Hk Hkp d1 -> Hdrop H12 Hh Hc Hpn Hz Hl.
  destruct (tracked_begin d p pr k kp Hd Hp Hs Hk Hkp) as (HP & HK & Ht). fold d1 in HP, HK, Ht.
  assert (Hnew : forall k', holds pr k' -> k' <> k).
  { intros k' H ->. destruct (held_known d p pr k Hd Hp H). congruence. }
  apply (tracked_finish d _ p pr pr'); try done.
  - cbn. by rewrite !DeleteKeypair_peers, HP.
  - cbn. rewrite !DeleteKeypair_keypairs, HK. by apply extends_insert.
  - cbn. rewrite !DeleteKeypair_keypairs, HK.
    split; [| intros k' H; by apply (Hc k' H) | intros k' H; by apply (Hc k' H) | exact Hpn | by rewrite Hz].
    intros k' [-> | (H & _)]%Hh.
    + exists (kp_localIndex kp). split; [apply index_of_insert|]. rewrite Hkp. by apply (state_indexed_of d p pr).
    + destruct (slots_indexed _ _ (table_peers d Hd p pr Hp) k' H) as (i & Hi & Hn). exists i. split; [|done].
      by apply extends_insert.
  - cbn. rewrite Hl. eapply tracked_held; [do 2 (eapply tracked_drop; [|shelve]); exact Ht|].
    intros k'. rewrite Hh. cbn. split; [tauto|]. intros [-> | ?]; [|tauto].
    split_and!; [by right | intros E; by eapply Hnew; eauto..].
    Unshelve. all: cbn; intros k' E; repeat split; try (left; apply Hdrop; tauto). intros E'. by apply (H12 k').
Qed.

Lemma BeginSymmetricSession_ok (hmac : bytes -> bytes -> bytes) d p now d' r : table_ok d -> BeginSymmetricSession hmac d p now = Some (d', r) -> table_ok d'.
Proof.
  intros Hd. unfold BeginSymmetricSession. destruct (peers d !! p) as [pr|] eqn:Hp; [|done]. red_bind.
  pose proof (table_peers d Hd p pr Hp) as Hok. pose proof (fresh_keypair d) as Hk.
  assert (Hnew : ~ holds pr (fresh (dom (keypairs d)))).
  { intros H. destruct (held_known d p pr _ Hd Hp H). congruence. }
  destruct (session_keys hmac (handshake pr)) as [[[sk rk] ini]|] eqn:Hss; [|by intros [= <- <-]].
  assert (Hs : indexed_state (state (handshake pr)) = true) by (unfold session_keys in Hss; by destruct (state (handshake pr))).
  set (k := fresh _) in *. set (kp := mkKeypair _ _ _ _ _ _ _ _). set (h' := set_progress _ _ _ _).
  destruct ini; [destruct (next pr) as [n|] eqn:Hn|]; intros [= <- <-].
  - eapply (table_ok_rotate d _ p pr _ k kp (current pr) (previous pr)); try done; intros k'; slots_at Hok k'.
  - eapply (table_ok_rotate d _ p pr _ k kp None (previous pr)); try done; intros k'; slots_at Hok k'.
  - eapply (table_ok_rotate d _ p pr _ k kp (next pr) (previous pr)); try done; intros k'; slots_at Hok k'.
Qed.

(** ** Runs *)

Lemma DeleteKeypair_rest d ko :
  privateKey (DeleteKeypair d ko) = privateKey d /\ publicKey (DeleteKeypair d ko) = publicKey d /\
  keyMap (DeleteKeypair d ko) = keyMap d.
Proof. destruct ko as [k|]; [|done]. cbn. by destruct (keypairs d !! k). Qed.

Lemma NewIndex_rest d draws p d' i err :
  NewIndexForHandshake d draws p = Some (d', i, err) -> exists T, d' = set_table d T.
Proof.
  induction draws as [|[j []] draws IH]; cbn; [done | |].
  - intros [= <- <- <-]. exists (indexTable d). by destruct d.
  - destruct (indexTable d !! j); [done|]. intros [= <- <- <-]. by eexists.
Qed.

Lemma SwapIndex_rest d i k : exists T, SwapIndexForKeypair d i k = set_table d T.
Proof. unfold SwapIndexForKeypair. destruct (indexTable d !! i); [by eexists|]. exists (indexTable d). by destruct d. Qed.

(** The device with its table and key pairs forgotten. *)
Ltac rest := repeat match goal with
  | |- context [DeleteKeypair ?d ?ko] =>
      rewrite ?DeleteKeypair_peers, ?DeleteKeypair_keypairs, ?(proj1 (DeleteKeypair_rest d ko)),
        ?(proj1 (proj2 (DeleteKeypair_rest d ko))), ?(proj2 (proj2 (DeleteKeypair_rest d ko)))
  | |- context [SwapIndexForKeypair ?d ?i ?k] => destruct (SwapIndex_rest d i k) as [? ->]
  end.

Section Sessions.

Context (blake2s : bytes -> bytes) (hmac : bytes -> bytes -> bytes).
Context (ScalarBaseMult : bytes -> bytes) (ScalarMult : bytes -> bytes -> bytes).
Context (Seal : bytes -> bytes -> bytes -> bytes -> bytes) (Open : bytes -> bytes -> bytes -> bytes -> option bytes).

Definition step (d : Device) (o : op) : option Device :=
  match o with
  | OpNewPeer pk => Some (fst (NewPeer ScalarMult d pk))
  | OpSetRunning p b => set_isRunning d p b
  | OpSetPresharedKey p psk => SetPresharedKey d p psk
  | OpCreateInitiation p ty rnd ts draws =>
      fst <$> createMessageInitiation blake2s hmac ScalarBaseMult ScalarMult Seal
                d p ty rnd ts draws
  | OpConsumeInitiation msg since now =>
      Some (fst (ConsumeMessageInitiation blake2s hmac ScalarMult Open d msg since now))
  | OpCreateResponse p ty draws rnd =>
      fst <$> createMessageResponse blake2s hmac ScalarBaseMult ScalarMult Seal d p ty draws rnd
  | OpConsumeResponse msg => Some (fst (ConsumeMessageResponse blake2s hmac ScalarMult Open d msg))
  | OpBeginSession p now => fst <$> BeginSymmetricSession hmac d p now
  | OpReceivedWith p k => fst <$> ReceivedWithKeypair d p k
  | OpZeroAndFlush p => ZeroAndFlushAll d p
  | OpExpire p now => ExpireCurrentKeypairs d p now
  end.

Fixpoint run (d : Device) (os : list op) : option Device :=
  match os with
  | [] => Some d
  | o :: os' => d' ← step d o; run d' os'
  end.

Lemma NewPeer_ok d pk : table_ok d -> table_ok (fst (NewPeer ScalarMult d pk)).
Proof.
  intros Hd. unfold NewPeer. destruct (MaxPeers <=? _); [done|]. destruct (keyMap d !! pk); [done|]. cbn.
  set (p := fresh _). assert (Hf : peers d !! p = None) by apply not_elem_of_dom, is_fresh.
  destruct Hd as [[Hw Ho] Hp]. split; [split|]; cbn.
  - intros i e He. destruct (Hw i e He) as (q & t & -> & Hq). exists q, t. split; [done|].
    apply lookup_insert_is_Some. destruct (decide (p = q)); auto.
  - intros q qr i t [[<- <-] | [Hne Hq]]%lookup_insert_Some; [|by apply Ho]. split.
    + intros He. destruct (Hw i _ He) as (q & u & [<- _]%entry_inj & Hq). rewrite Hf in Hq. by destruct Hq.
    + intros [Hi H]. destruct t as [k|]; [|done]. by destruct H as [[?|[?|?]] _].
  - intros q qr [[<- <-] | [Hne Hq]]%lookup_insert_Some; [|by eapply Hp]. split; try done. by intros k [?|[?|?]].
Qed.

Lemma createMessageInitiation_ok d p ty rnd ts draws d' m :
  table_ok d -> good_draws draws ->
  createMessageInitiation blake2s hmac ScalarBaseMult ScalarMult Seal
    d p ty rnd ts draws = Some (d', m) -> table_ok d'.
Proof.
  intros Hd Hg. unfold createMessageInitiation. destruct (peers d !! p) as [pr|] eqn:Hp; [|done]. cbn.
  pose proof (state_indexed_of d p pr Hd Hp) as Hs.
  repeat case_match; try (intros [= <- <-]; by apply table_ok_keep).
  destruct (NewIndexForHandshake _ _ _) as [[[d1 i] err]|] eqn:HN; [|done]. red_bind.
  pose proof (NewIndex_spec _ _ _ _ _ _ Hg HN) as (-> & _). intros [= <- <-]. by eapply table_ok_reindex.
Qed.

(** What an initiation authenticates to: the peer, its timestamp, and the hash
    and chain key after it. *)
Definition authenticated (d : Device) (msg : MessageInitiation) : option (pid * Peer * bytes * bytes * bytes) :=
  if negb (init_Type msg =? MessageInitiationType) then None
  else
    let hash2 := mixHash blake2s (mixHash blake2s (InitialHash blake2s) (publicKey d))
                   (init_Ephemeral msg) in
    let ss := ScalarMult (privateKey d) (init_Ephemeral msg) in
    if isZero ss then None
    else
      let '(ck2, key) := KDF2 hmac (mixKey hmac (InitialChainKey blake2s) (init_Ephemeral msg)) ss in
      peerPK ← Open key ZeroNonce (init_Static msg) hash2;
      p ← keyMap d !! peerPK;
      pr ← peers d !! p;
      if negb (isRunning pr) || isZero (precomputedStaticStatic (handshake pr)) then None
      else
        let hash3 := mixHash blake2s hash2 (init_Static msg) in
        let '(ck3, key) := KDF2 hmac ck2 (precomputedStaticStatic (handshake pr)) in
        ts ← Open key ZeroNonce (init_Timestamp msg) hash3;
        Some (p, pr, ts, mixHash blake2s hash3 (init_Timestamp msg), ck3).

(** The handshake an accepted initiation leaves. *)
Definition consumed_handshake (h : Handshake) (msg : MessageInitiation) (ts hash' chainKey' : bytes) (now : Z) : Handshake :=
  set_progress
    (set_consumed (set_secrets h hash' chainKey' (localEphemeral h)) (init_Ephemeral msg) ts
       (if lastInitiationConsumption h <? now then now else lastInitiationConsumption h))
    handshakeInitiationConsumed (localIndex h) (init_Sender msg).

Abbreviation verifyInit := (verifyInitiation blake2s hmac ScalarMult Open).
Abbreviation ConsumeInit := (ConsumeMessageInitiation blake2s hmac ScalarMult Open).

Lemma authenticated_peer d msg p pr ts hash' chainKey' :
  authenticated d msg = Some (p, pr, ts, hash', chainKey') -> peers d !! p = Some pr.
Proof.
  unfold authenticated. repeat case_match; try done. intros (pk & _ & Hb)%bind_Some.
  apply bind_Some in Hb as (q & _ & Hb). apply bind_Some in Hb as (qr & Hq & Hb).
  repeat case_match; try done. apply bind_Some in Hb as (ts' & _ & Hb). by injection Hb as <- <- _ _ _.
Qed.

(** What the first half finds out. *)
Lemma verifyInitiation_eq d msg since :
  verifyInit d msg since =
  match authenticated d msg with
  | None => None
  | Some (p, pr, ts, hash', chainKey') =>
      let h := handshake pr in
      if Tai64n.After ts (lastTimestamp h) && negb (time_sub since (lastInitiationConsumption h) <=? HandshakeInitationRate)
      then Some (mkVerified p ts hash' chainKey') else None
  end.
Proof.
  unfold verifyInitiation, authenticated, LookupPeer, sharedSecret.
  destruct (negb (init_Type msg =? _)); [done|]. destruct (isZero (ScalarMult _ _)); [done|].
  destruct (KDF2 hmac _ _) as [ck2 key]. destruct (Open key _ _ _) as [pk|]; [|done]. red_bind.
  destruct (keyMap d !! pk) as [p|]; [|done]. red_bind. destruct (peers d !! p) as [pr|]; [|done]. red_bind.
  destruct (isRunning pr); [|done]. cbn [negb orb]. destruct (isZero (precomputedStaticStatic _)); [done|].
  destruct (KDF2 hmac _ _) as [ck3 key']. destruct (Open key' _ _ _) as [ts|]; [|done]. red_bind. cbn zeta.
  destruct (Tai64n.After ts _); [|done]. cbn [negb andb]. by destruct (_ <=? _).
Qed.

Lemma ConsumeInit_eq d msg since now :
  ConsumeInit d msg since now =
  match authenticated d msg with
  | None => (d, None)
  | Some (p, pr, ts, hash', chainKey') =>
      let h := handshake pr in
      if Tai64n.After ts (lastTimestamp h) && negb (time_sub since (lastInitiationConsumption h) <=? HandshakeInitationRate)
      then (update_handshake d p pr (consumed_handshake h msg ts hash' chainKey' now), Some p)
      else (d, None)
  end.
Proof.
  unfold ConsumeMessageInitiation. rewrite verifyInitiation_eq.
  destruct (authenticated d msg) as [[[[[p pr] ts] hash'] ck']|] eqn:Ha; [|done]. apply authenticated_peer in Ha.
  cbn zeta. destruct (Tai64n.After ts _) eqn:Ht, (_ <=? _); cbn [andb negb]; try done.
  unfold acceptInitiation. red_bind. cbn [v_peer v_timestamp v_hash v_chainKey]. rewrite Ha. red_bind. by rewrite Ht.
Qed.

Lemma ConsumeMessageInitiation_ok d msg since now : table_ok d -> table_ok (fst (ConsumeInit d msg since now)).
Proof.
  intros Hd. rewrite ConsumeInit_eq. destruct (authenticated d msg) as [[[[[p pr] ts] h'] c']|] eqn:Ha; [|done].
  apply authenticated_peer in Ha. cbn. case_match; [|done]. by apply table_ok_keep.
Qed.

Lemma createMessageResponse_ok d p ty draws rnd d' m :
  table_ok d -> good_draws draws ->
  createMessageResponse blake2s hmac ScalarBaseMult ScalarMult Seal d p ty draws rnd = Some (d', m) -> table_ok d'.
Proof.
  intros Hd Hg. unfold createMessageResponse. destruct (peers d !! p) as [pr|] eqn:Hp; [|done]. red_bind.
  case_match; [by intros [= <- <-]|].
  destruct (NewIndexForHandshake _ _ _) as [[[d1 i] err]|] eqn:HN; [|done]. red_bind.
  pose proof (NewIndex_spec _ _ _ _ _ _ Hg HN) as (-> & _).
  repeat case_match; intros [= <- <-]; by eapply table_ok_reindex.
Qed.

Lemma ConsumeMessageResponse_ok d msg : table_ok d -> table_ok (fst (ConsumeMessageResponse blake2s hmac ScalarMult Open d msg)).
Proof.
  intros Hd. unfold ConsumeMessageResponse. case_match; [done|].
  destruct (table_Lookup d (resp_Receiver msg)) as [e|] eqn:He; [|done]. red_bind.
  destruct (e_handshake e); [|done]. destruct (peers d !! e_peer e) as [pr|] eqn:Hp; [|done]. red_bind.
  destruct (finish_handshake _ _ _ _ _ _ _) as [[h' c']|] eqn:Hf; [|done]. cbn. apply table_ok_keep; try done.
  intros _. apply (state_indexed_of d _ pr Hd Hp). unfold finish_handshake in Hf. case_match; [done|].
  destruct (state (handshake pr)); done.
Qed.

Lemma step_ok d o d' : table_ok d -> good_op o -> step d o = Some d' -> table_ok d'.
Proof.
  intros Hd Hg. destruct o; cbn in *.
  - intros [= <-]. by apply NewPeer_ok.
  - unfold set_isRunning. destruct (peers d !! p) as [pr|] eqn:Hp; [|done]. red_bind. intros [= <-].
    apply (tracked_finish d _ p pr (mkPeer b (handshake pr) (current pr) (previous pr) (next pr))); try done; cbn.
    + apply extends_refl.
    + by destruct (table_peers d Hd p pr Hp).
    + exact (tracked_start d p pr Hd Hp).
  - unfold SetPresharedKey. destruct (peers d !! p) as [pr|] eqn:Hp; [|done]. red_bind. intros [= <-].
    apply table_ok_keep; [done..|]. by apply (state_indexed_of d p pr).
  - destruct (createMessageInitiation _ _ _ _ _ _ _ _ _ _ _) as [[d1 m]|] eqn:H; [|done]. intros [= <-].
    by eapply createMessageInitiation_ok.
  - intros [= <-]. by apply ConsumeMessageInitiation_ok.
  - destruct (createMessageResponse _ _ _ _ _ _ _ _ _ _) as [[d1 m]|] eqn:H; [|done]. intros [= <-].
    by eapply createMessageResponse_ok.
  - intros [= <-]. by apply ConsumeMessageResponse_ok.
  - destruct (BeginSymmetricSession _ _ _ _) as [[d1 r]|] eqn:H; [|done]. intros [= <-].
    by eapply BeginSymmetricSession_ok.
  - destruct (ReceivedWithKeypair _ _ _) as [[d1 r]|] eqn:H; [|done]. intros [= <-]. by eapply ReceivedWithKeypair_ok.
  - by apply ZeroAndFlushAll_ok.
  - by apply ExpireCurrentKeypairs_ok.
Qed.

Lemma run_ok os d d' : table_ok d -> Forall good_op os -> run d os = Some d' -> table_ok d'.
Proof.
  revert d. induction os as [|o os IH]; intros d Hd Hg; cbn; [by intros [= <-]|].
  apply Forall_cons_iff in Hg as [Ho Hg]. destruct (step d o) as [d1|] eqn:H; [|done]. red_bind.
  apply IH; [|done]. by eapply step_ok.
Qed.

Lemma newDevice_ok sk pk : table_ok (newDevice sk pk).
Proof. by split; [split|]. Qed.

(** ** What no operation takes back *)

Definition older (h h' : Handshake) : Prop :=
  remoteStatic h' = remoteStatic h /\ precomputedStaticStatic h' = precomputedStaticStatic h /\
  Tai64n.After (lastTimestamp h) (lastTimestamp h') = false /\
  lastInitiationConsumption h <= lastInitiationConsumption h'.

(** The static keys of the peers are those they are known by, with their
    precomputed secrets. *)
Record statics_ok (d : Device) : Prop := {
  statics_secret : forall p pr, peers d !! p = Some pr ->
    precomputedStaticStatic (handshake pr) = ScalarMult (privateKey d) (remoteStatic (handshake pr));
  statics_known : forall pk p, keyMap d !! pk = Some p -> exists pr, peers d !! p = Some pr /\ remoteStatic (handshake pr) = pk
}.

(** The same of the peers a public key still leads to: a peer that was removed
    keeps the secret of the identity it was removed under. *)
Definition live_statics (d : Device) : Prop :=
  forall pk p, keyMap d !! pk = Some p -> exists pr, peers d !! p = Some pr /\ remoteStatic (handshake pr) = pk /\
    precomputedStaticStatic (handshake pr) = ScalarMult (privateKey d) pk.

Record ages (d d' : Device) : Prop := {
  ages_statics : statics_ok d -> statics_ok d';
  ages_live : live_statics d -> live_statics d';
  ages_private : privateKey d' = privateKey d;
  ages_public : publicKey d' = publicKey d;
  ages_keyMap : keyMap d ⊆ keyMap d';
  ages_peers : forall p pr, peers d !! p = Some pr -> exists pr', peers d' !! p = Some pr' /\ older (handshake pr) (handshake pr')
}.

Lemma older_refl h : older h h.
Proof. split_and!; [done.. | apply Tai64n.After_irrefl | lia]. Qed.

Lemma older_same h h' :
  remoteStatic h' = remoteStatic h -> precomputedStaticStatic h' = precomputedStaticStatic h -> lastTimestamp h' = lastTimestamp h ->
  lastInitiationConsumption h' = lastInitiationConsumption h -> older h h'.
Proof. intros H0 H1 H2 H3. unfold older. rewrite H0, H1, H2, H3. apply older_refl. Qed.

Lemma older_trans h1 h2 h3 : older h1 h2 -> older h2 h3 -> older h1 h3.
Proof.
  intros (A0 & A1 & A2 & A3) (B0 & B1 & B2 & B3). split_and!; [congruence.. | by eapply Tai64n.not_After_trans | lia].
Qed.

Lemma ages_trans d1 d2 d3 : ages d1 d2 -> ages d2 d3 -> ages d1 d3.
Proof.
  intros [A0 A5 A1 A2 A3 A4] [B0 B5 B1 B2 B3 B4]. split; [auto | auto | congruence.. | by etrans |].
  intros p pr Hp. destruct (A4 p pr Hp) as (pr' & Hp' & Ho). destruct (B4 p pr' Hp') as (pr'' & Hp'' & Ho').
  exists pr''. split; [done | by eapply older_trans].
Qed.

(** One peer changes, to an older handshake. *)
Lemma ages_update d d' p pr pr' :
  peers d !! p = Some pr -> privateKey d' = privateKey d -> publicKey d' = publicKey d -> keyMap d' = keyMap d ->
  peers d' = <[p := pr']> (peers d) -> older (handshake pr) (handshake pr') -> ages d d'.
Proof.
  intros Hp H1 H2 H3 H4 Ho. split; [| |done..| by rewrite H3 |]; rewrite ?H4.
  { intros [Hs Hk]. split; rewrite ?H1, ?H3, ?H4.
    - intros q qr [[<- <-] | [Hne Hq]]%lookup_insert_Some; [|by eapply Hs].
      destruct Ho as (-> & -> & _). by eapply Hs.
    - intros pk q Hq. destruct (Hk pk q Hq) as (qr & Hqr & Hrs). destruct (decide (p = q)) as [<- |Hne].
      + exists pr'. rewrite lookup_insert_eq. simplify_eq. by destruct Ho as [-> _].
      + exists qr. by rewrite lookup_insert_ne. }
  { intros Hk pk q. rewrite H1, H3, H4. intros (qr & Hqr & Hrs)%Hk. destruct (decide (p = q)) as [<- |Hne].
    - exists pr'. rewrite lookup_insert_eq. simplify_eq. by destruct Ho as (-> & -> & _).
    - exists qr. by rewrite lookup_insert_ne. }
  intros q qr Hq.
  destruct (decide (p = q)) as [<- |Hne].
  - exists pr'. rewrite lookup_insert_eq. by simplify_eq.
  - exists qr. rewrite lookup_insert_ne by done. split; [done | apply older_refl].
Qed.

Lemma ages_refl d : ages d d.
Proof. split; [auto | auto | done..|]. intros p pr Hp. exists pr. split; [done | apply older_refl]. Qed.

(** Fields the timestamps do not depend on. *)
Ltac same_age := eapply ages_update; cbn; rest; [eassumption | reflexivity.. | by apply older_same].

Lemma createMessageInitiation_ages d p ty rnd ts draws d' m :
  createMessageInitiation blake2s hmac ScalarBaseMult ScalarMult Seal
    d p ty rnd ts draws = Some (d', m) -> ages d d'.
Proof.
  unfold createMessageInitiation. destruct (peers d !! p) as [pr|] eqn:Hp; [|done]. red_bind.
  repeat case_match; try (intros [= <- <-]; same_age).
  destruct (NewIndexForHandshake _ _ _) as [[[d1 i] err]|] eqn:HN; [|done]. red_bind.
  destruct (NewIndex_rest _ _ _ _ _ _ HN) as [T ->]. case_match; intros [= <- <-]; same_age.
Qed.

Lemma createMessageResponse_ages d p ty draws rnd d' m :
  createMessageResponse blake2s hmac ScalarBaseMult ScalarMult Seal d p ty draws rnd = Some (d', m) -> ages d d'.
Proof.
  unfold createMessageResponse. destruct (peers d !! p) as [pr|] eqn:Hp; [|done]. red_bind.
  case_match; [intros [= <- <-]; apply ages_refl|].
  destruct (NewIndexForHandshake _ _ _) as [[[d1 i] err]|] eqn:HN; [|done]. red_bind.
  destruct (NewIndex_rest _ _ _ _ _ _ HN) as [T ->]. repeat case_match; intros [= <- <-]; same_age.
Qed.

Lemma ConsumeMessageInitiation_ages d msg since now : ages d (fst (ConsumeInit d msg since now)).
Proof.
  rewrite ConsumeInit_eq. destruct (authenticated d msg) as [[[[[p pr] ts] h'] c']|] eqn:Ha; [|apply ages_refl].
  apply authenticated_peer in Ha. cbn. case_match; [|apply ages_refl].
  eapply ages_update; [eassumption | reflexivity.. |]. split_and!; cbn; [done.. | |case_match; lia].
  apply Tai64n.After_not_After. by destruct (Tai64n.After ts _).
Qed.

Lemma ConsumeMessageResponse_ages d msg : ages d (fst (ConsumeMessageResponse blake2s hmac ScalarMult Open d msg)).
Proof.
  unfold ConsumeMessageResponse. case_match; [apply ages_refl|].
  destruct (table_Lookup d (resp_Receiver msg)) as [e|]; [|apply ages_refl]. red_bind.
  destruct (e_handshake e); [|apply ages_refl]. destruct (peers d !! e_peer e) as [pr|] eqn:Hp; [|apply ages_refl]. red_bind.
  destruct (finish_handshake _ _ _ _ _ _ _) as [[h' c']|]; [|apply ages_refl]. same_age.
Qed.

Lemma BeginSymmetricSession_ages d p now d' r : BeginSymmetricSession hmac d p now = Some (d', r) -> ages d d'.
Proof.
  unfold BeginSymmetricSession. destruct (peers d !! p) as [pr|] eqn:Hp; [|done]. red_bind.
  destruct (session_keys hmac (handshake pr)) as [[[sk rk] ini]|]; [|intros [= <- <-]; apply ages_refl].
  destruct ini; [destruct (next pr)|]; intros [= <- <-]; same_age.
Qed.

Lemma step_ages d o d' : step d o = Some d' -> ages d d'.
Proof.
  destruct o; cbn.
  - intros [= <-]. unfold NewPeer. destruct (MaxPeers <=? _); [apply ages_refl|].
    destruct (keyMap d !! pk) eqn:Hk; [apply ages_refl|].
    assert (Hf : peers d !! fresh (dom (peers d)) = None) by apply not_elem_of_dom, is_fresh.
    split; cbn; try done.
    + intros [Hs Hm]. split; cbn.
      * intros q qr [[<- <-] | [Hne Hq]]%lookup_insert_Some; [done | by eapply Hs].
      * intros pk' q [[<- <-] | [Hne Hq]]%lookup_insert_Some; [eexists; by rewrite lookup_insert_eq|].
        destruct (Hm pk' q Hq) as (qr & Hqr & Hrs). exists qr. rewrite lookup_insert_ne; [done|]. intros <-. congruence.
    + intros Hm pk' q. cbn. intros [[<- <-] | [Hne Hq]]%lookup_insert_Some; [eexists; by rewrite lookup_insert_eq|].
      destruct (Hm pk' q Hq) as (qr & Hqr & Hrs). exists qr. rewrite lookup_insert_ne; [done|]. intros <-. congruence.
    + by apply insert_subseteq.
    + intros q qr Hq. exists qr. split; [|apply older_refl]. rewrite lookup_insert_ne; [done|]. intros <-. congruence.
  - unfold set_isRunning. destruct (peers d !! p) as [pr|] eqn:Hp; [|done]. intros [= <-]. same_age.
  - unfold SetPresharedKey. destruct (peers d !! p) as [pr|] eqn:Hp; [|done]. red_bind. intros [= <-]. same_age.
  - intros ([d1 m] & H & ->)%fmap_Some. by eapply createMessageInitiation_ages.
  - intros [= <-]. apply ConsumeMessageInitiation_ages.
  - intros ([d1 m] & H & ->)%fmap_Some. by eapply createMessageResponse_ages.
  - intros [= <-]. apply ConsumeMessageResponse_ages.
  - intros ([d1 m] & H & ->)%fmap_Some. by eapply BeginSymmetricSession_ages.
  - unfold ReceivedWithKeypair. destruct (peers d !! p) as [pr|] eqn:Hp; [|done]. red_bind.
    case_match; intros [= <-]; [|apply ages_refl]. same_age.
  - unfold ZeroAndFlushAll. destruct (peers d !! p) as [pr|] eqn:Hp; [|done]. red_bind. intros [= <-].
    same_age.
  - unfold ExpireCurrentKeypairs, exhaust. destruct (peers d !! p) as [pr|] eqn:Hp; [|done]. red_bind. intros [= <-].
    destruct (current pr), (next pr); same_age.
Qed.

Lemma run_ages os d d' : run d os = Some d' -> ages d d'.
Proof.
  revert d. induction os as [|o os IH]; intros d; cbn; [intros [= <-]; apply ages_refl|].
  destruct (step d o) as [d1|] eqn:H; [|done]. red_bind. intros Hr.
  eapply ages_trans; [by eapply step_ages | by apply IH].
Qed.

(** ** The life of the device

    Besides the operations, the other goroutines may be between the halves of
    [ConsumeMessageInitiation] ([EvAccept]: the second half runs, with what a
    first half found at any earlier time), and the configuration removes peers
    and replaces the private key. *)
Inductive event :=
| EvOp (o : op)
| EvAccept (msg : MessageInitiation) (v : verified) (now : Z)
| EvRemovePeer (pk : bytes)
| EvSetPrivateKey (sk : bytes) (now : Z).

Definition live_step (d : Device) (e : event) : option Device :=
  match e with
  | EvOp o => step d o
  | EvAccept msg v now => acceptInitiation d msg v now
  | EvRemovePeer pk => match LookupPeer d pk with None => Some d | Some p => removePeerLocked d p pk end
  | EvSetPrivateKey sk now => SetPrivateKey ScalarBaseMult ScalarMult d sk now
  end.

Fixpoint live (d : Device) (es : list event) : option Device :=
  match es with
  | [] => Some d
  | e :: es' => d' ← live_step d e; live d' es'
  end.

(** What stays of a peer object, whether or not a key leads to it. *)
Record lasts (d d' : Device) : Prop := {
  lasts_live : live_statics d -> live_statics d';
  lasts_peers : forall p pr, peers d !! p = Some pr -> exists pr', peers d' !! p = Some pr' /\
    Tai64n.After (lastTimestamp (handshake pr)) (lastTimestamp (handshake pr')) = false /\
    lastInitiationConsumption (handshake pr) <= lastInitiationConsumption (handshake pr')
}.

Lemma ages_lasts d d' : ages d d' -> lasts d d'.
Proof.
  intros [_ Hl _ _ _ Hp]. split; [done|]. intros p pr (pr' & H & _ & _ & Ho)%Hp. by exists pr'.
Qed.

Lemma lasts_trans d1 d2 d3 : lasts d1 d2 -> lasts d2 d3 -> lasts d1 d3.
Proof.
  intros [A1 A2] [B1 B2]. split; [auto|]. intros p pr (pr' & Hp & Ht & Hc)%A2.
  destruct (B2 p pr' Hp) as (pr'' & Hp' & Ht' & Hc'). exists pr''.
  split_and!; [done | by eapply Tai64n.not_After_trans | lia].
Qed.

Lemma lasts_refl d : lasts d d.
Proof. apply ages_lasts, ages_refl. Qed.

Lemma acceptInitiation_ages d msg v now d' : acceptInitiation d msg v now = Some d' -> ages d d'.
Proof.
  unfold acceptInitiation. destruct (peers d !! v_peer v) as [pr|] eqn:Hp; [|done]. red_bind. intros [= <-].
  eapply ages_update; [eassumption | reflexivity.. |]. split_and!; cbn; [done.. | | case_match; lia].
  destruct (Tai64n.After (v_timestamp v) _) eqn:Ht; [by apply Tai64n.After_not_After | apply Tai64n.After_irrefl].
Qed.

Lemma removePeerLocked_lasts d p pk d' : removePeerLocked d p pk = Some d' -> lasts d d'.
Proof.
  unfold removePeerLocked. destruct (peers d !! p) as [pr|]; [|done]. red_bind.
  intros (d1 & H1 & [= <-])%bind_Some. apply (lasts_trans d d1).
  - destruct (isRunning pr); cbn in H1; [|injection H1 as <-; apply lasts_refl].
    apply bind_Some in H1 as (d2 & H2 & H1). apply ages_lasts, (ages_trans d d2).
    + exact (step_ages d (OpSetRunning p false) d2 H2).
    + exact (step_ages d2 (OpZeroAndFlush p) d1 H1).
  - split.
    + intros Hl pk' q. cbn. intros [_ Hq]%lookup_delete_Some. exact (Hl pk' q Hq).
    + intros q qr Hq. exists qr. split_and!; [done | apply Tai64n.After_irrefl | lia].
Qed.

Lemma remove_all_lasts xs d d' : remove_all xs d = Some d' -> lasts d d'.
Proof.
  revert d. induction xs as [|[pk p] xs IH]; intros d; cbn; [intros [= <-]; apply lasts_refl|].
  intros (d1 & H & Hr)%bind_Some. eapply lasts_trans; [by eapply removePeerLocked_lasts | by apply IH].
Qed.

Lemma expire_all_ages ps now d d' : expire_all ps now d = Some d' -> ages d d'.
Proof.
  revert d. induction ps as [|p ps IH]; intros d; cbn; [intros [= <-]; apply ages_refl|].
  intros (d1 & H & Hr)%bind_Some. eapply ages_trans; [exact (step_ages d (OpExpire p now) d1 H) | by apply IH].
Qed.

(** A peer with its secret recomputed. *)
Definition resecret (sk : bytes) (pr : Peer) : Peer :=
  let h := handshake pr in set_handshake pr (set_static h (remoteStatic h) (ScalarMult sk (remoteStatic h))).

Lemma precompute_spec ps d :
  keyMap (precompute ScalarMult d ps) = keyMap d /\ privateKey (precompute ScalarMult d ps) = privateKey d /\
  forall p, peers (precompute ScalarMult d ps) !! p =
    (if bool_decide (p ∈ ps) then resecret (privateKey d) <$> peers d !! p else peers d !! p).
Proof.
  revert d. induction ps as [|q ps IH]; intros d; [by split_and!|].
  change (precompute ScalarMult d (q :: ps)) with
    (precompute ScalarMult (match peers d !! q with
       | None => d
       | Some pr => update_peer d q (resecret (privateKey d) pr)
       end) ps).
  destruct (IH (match peers d !! q with None => d | Some pr => update_peer d q (resecret (privateKey d) pr) end)) as (Hk & Hs & Hp).
  destruct (peers d !! q) as [pr|] eqn:Hq.
  - split_and!; [exact Hk | exact Hs|]. intros p. rewrite Hp. cbn. destruct (decide (q = p)) as [<- |Hne].
    + rewrite lookup_insert_eq, Hq, (bool_decide_true (q ∈ q :: ps)) by (by left). by destruct (bool_decide (q ∈ ps)).
    + rewrite lookup_insert_ne by done. by rewrite (bool_decide_ext (p ∈ q :: ps) (p ∈ ps)) by set_solver.
  - split_and!; [done..|]. intros p. rewrite Hp. destruct (decide (q = p)) as [<- |Hne].
    + rewrite Hq. by destruct (bool_decide (q ∈ ps)), (bool_decide (q ∈ q :: ps)).
    + by rewrite (bool_decide_ext (p ∈ q :: ps) (p ∈ ps)) by set_solver.
Qed.

(** A new identity: the secrets of all known peers are those of the new key. *)
Lemma new_identity_lasts d sk pk :
  lasts d (precompute ScalarMult (setIdentity d sk pk) (map snd (map_to_list (keyMap d)))).
Proof.
  destruct (precompute_spec (map snd (map_to_list (keyMap d))) (setIdentity d sk pk)) as (Hk & Hs & Hp).
  split.
  - intros Hl pk' p. rewrite Hk, Hs. cbn. intros Hq. destruct (Hl pk' p Hq) as (pr & Hpr & Hrs & _).
    exists (resecret sk pr). rewrite Hp. cbn. rewrite Hpr, bool_decide_true.
    + cbn. by rewrite Hrs.
    + apply list_elem_of_fmap. exists (pk', p). split; [done | by apply elem_of_map_to_list].
  - intros p pr Hpr. rewrite Hp. cbn. rewrite Hpr. pose proof (Tai64n.After_irrefl (lastTimestamp (handshake pr))).
    destruct (bool_decide _); cbn; eexists; split_and!; [done | done | cbn; lia | done | done | lia].
Qed.

Lemma live_step_lasts d e d' : live_step d e = Some d' -> lasts d d'.
Proof.
  destruct e as [o | msg v now | pk | sk now]; cbn.
  - intros H. by apply ages_lasts, (step_ages d o).
  - intros H. by eapply ages_lasts, acceptInitiation_ages.
  - destruct (LookupPeer d pk) as [p|]; [apply removePeerLocked_lasts | intros [= <-]; apply lasts_refl].
  - unfold SetPrivateKey. case_bool_decide; [intros [= <-]; apply lasts_refl|].
    intros (d1 & H1 & H2)%bind_Some. eapply lasts_trans; [by eapply remove_all_lasts|].
    eapply lasts_trans; [apply (new_identity_lasts d1 sk (ScalarBaseMult sk))|]. by eapply ages_lasts, expire_all_ages.
Qed.

Lemma live_lasts es d d' : live d es = Some d' -> lasts d d'.
Proof.
  revert d. induction es as [|e es IH]; intros d; cbn; [intros [= <-]; apply lasts_refl|].
  intros (d1 & H & Hr)%bind_Some. eapply lasts_trans; [by eapply live_step_lasts | by apply IH].
Qed.

(** Under one identity a message carries one static key and one timestamp. *)
Lemma authenticated_same d d' msg p pr ts hh ck :
  live_statics d -> live_statics d' -> privateKey d' = privateKey d -> publicKey d' = publicKey d ->
  authenticated d msg = Some (p, pr, ts, hh, ck) ->
  exists pk, LookupPeer d pk = Some p /\
    forall q qr ts' hh' ck', authenticated d' msg = Some (q, qr, ts', hh', ck') -> LookupPeer d' pk = Some q /\ ts' = ts.
Proof.
  intros Hl Hl' H1 H2. unfold authenticated. rewrite H1, H2. case_match; [done|]. case_match; [done|].
  destruct (KDF2 hmac _ _) as [ck2 key]. destruct (Open key _ _ _) as [pk|]; [|done]. red_bind.
  intros (p0 & Hk & Ha)%bind_Some. destruct (Hl pk p0 Hk) as (pr0 & Hp0 & Hrs & Hpre). rewrite Hp0 in Ha. red_bind.
  rewrite Hpre in Ha. destruct (negb (isRunning pr0) || _); [done|]. destruct (KDF2 hmac ck2 _) as [ck3 key'] eqn:HK.
  apply bind_Some in Ha as (t & Ht & Ha). injection Ha as <- _ <- _ _. exists pk. split; [done|].
  intros q qr ts' hh' ck' (q0 & Hk' & Hb)%bind_Some. destruct (Hl' pk q0 Hk') as (qr0 & Hq0 & Hrs' & Hpre').
  rewrite Hq0 in Hb. red_bind. rewrite Hpre', H1 in Hb. destruct (negb (isRunning qr0) || _); [done|].
  rewrite HK, Ht in Hb. red_bind. by injection Hb as <- _ <- _ _.
Qed.

(** A message that passes the first half was authentic, newer, and not too soon. *)
Lemma verifyInitiation_found d msg since v :
  verifyInit d msg since = Some v ->
  exists pr, authenticated d msg = Some (v_peer v, pr, v_timestamp v, v_hash v, v_chainKey v) /\ peers d !! v_peer v = Some pr /\
    Tai64n.After (v_timestamp v) (lastTimestamp (handshake pr)) = true /\
    HandshakeInitationRate < time_sub since (lastInitiationConsumption (handshake pr)).
Proof.
  rewrite verifyInitiation_eq. destruct (authenticated d msg) as [[[[[q pr] ts] hh] ck]|] eqn:Ha; [|done]. cbn zeta.
  case_match eqn:Hc; [|done]. intros [= <-]. apply andb_prop in Hc as [H1 H2]. apply negb_true_iff, Z.leb_gt in H2.
  exists pr. split_and!; try done. by eapply authenticated_peer.
Qed.

(** What the second half leaves is remembered. *)
Lemma accepted_since d msg v now d1 d2 qr :
  acceptInitiation d msg v now = Some d1 -> lasts d1 d2 -> peers d2 !! v_peer v = Some qr ->
  Tai64n.After (v_timestamp v) (lastTimestamp (handshake qr)) = false /\ now <= lastInitiationConsumption (handshake qr).
Proof.
  unfold acceptInitiation. destruct (peers d !! v_peer v) as [pr|]; [|done]. red_bind. intros [= <-] [_ Hl] Hq.
  destruct (Hl (v_peer v) _ (lookup_insert_eq _ _ _)) as (qr' & Hq' & Ht & Hc). simplify_eq. cbn in Ht, Hc. split.
  - eapply Tai64n.not_After_trans; [|exact Ht]. destruct (Tai64n.After (v_timestamp v) _) eqn:E; [apply Tai64n.After_irrefl | done].
  - destruct (lastInitiationConsumption (handshake pr) <? now) eqn:E; lia.
Qed.

(** ** Where the current key pair comes from *)

(** The handshake handlers change a handshake and the table, and no slot. *)
Definition handshake_only (d d' : Device) : Prop :=
  d' = d \/ exists p pr h T, peers d !! p = Some pr /\ lastSentHandshake h = lastSentHandshake (handshake pr) /\
              d' = update_handshake (set_table d T) p pr h.

Lemma handshake_only_here d p pr h :
  peers d !! p = Some pr -> lastSentHandshake h = lastSentHandshake (handshake pr) -> handshake_only d (update_handshake d p pr h).
Proof. intros Hp Hl. right. exists p, pr, h, (indexTable d). split_and!; [done..|]. by destruct d. Qed.

Lemma handshake_only_table d p pr h T :
  peers d !! p = Some pr -> lastSentHandshake h = lastSentHandshake (handshake pr) ->
  handshake_only d (update_handshake (set_table d T) p pr h).
Proof. intros Hp Hl. right. by exists p, pr, h, T. Qed.

Lemma createMessageInitiation_only d p ty rnd ts draws d' m :
  createMessageInitiation blake2s hmac ScalarBaseMult ScalarMult Seal
    d p ty rnd ts draws = Some (d', m) -> handshake_only d d'.
Proof.
  unfold createMessageInitiation. destruct (peers d !! p) as [pr|] eqn:Hp; [|done]. red_bind.
  repeat case_match; try (intros [= <- <-]; by apply handshake_only_here).
  destruct (NewIndexForHandshake _ _ _) as [[[d1 i] err]|] eqn:HN; [|done]. red_bind.
  destruct (NewIndex_rest _ _ _ _ _ _ HN) as [T ->]. case_match; intros [= <- <-]; by apply (handshake_only_table d _ _ _ T).
Qed.

Lemma createMessageResponse_only d p ty draws rnd d' m :
  createMessageResponse blake2s hmac ScalarBaseMult ScalarMult Seal d p ty draws rnd = Some (d', m) -> handshake_only d d'.
Proof.
  unfold createMessageResponse. destruct (peers d !! p) as [pr|] eqn:Hp; [|done]. red_bind.
  case_match; [intros [= <- <-]; by left|].
  destruct (NewIndexForHandshake _ _ _) as [[[d1 i] err]|] eqn:HN; [|done]. red_bind.
  destruct (NewIndex_rest _ _ _ _ _ _ HN) as [T ->]. repeat case_match; intros [= <- <-]; by apply (handshake_only_table d _ _ _ T).
Qed.

Lemma ConsumeMessageInitiation_only d msg since now : handshake_only d (fst (ConsumeInit d msg since now)).
Proof.
  rewrite ConsumeInit_eq. destruct (authenticated d msg) as [[[[[p pr] ts] h'] c']|] eqn:Ha; [|by left].
  apply authenticated_peer in Ha. cbn. case_match; [by apply handshake_only_here | by left].
Qed.

Lemma ConsumeMessageResponse_only d msg : handshake_only d (fst (ConsumeMessageResponse blake2s hmac ScalarMult Open d msg)).
Proof.
  unfold ConsumeMessageResponse. case_match; [by left|].
  destruct (table_Lookup d (resp_Receiver msg)) as [e|]; [|by left]. red_bind.
  destruct (e_handshake e); [|by left]. destruct (peers d !! e_peer e) as [pr|] eqn:Hp; [|by left]. red_bind.
  destruct (finish_handshake _ _ _ _ _ _ _) as [[h' c']|]; [by apply handshake_only_here | by left].
Qed.

(** An operation's effect on the sending key: the slots of every peer stay, or
    the change is one of those named. *)
Definition current_from (d : Device) (o : op) (d' : Device) : Prop :=
  forall p pr' k, peers d' !! p = Some pr' -> current pr' = Some k ->
    (exists pr, peers d !! p = Some pr /\ current pr = Some k) \/ o = OpReceivedWith p k \/
    exists kp, keypairs d' !! k = Some kp /\ isInitiator kp = true.

(** A key pair keeps its role and its keys. *)
Definition roles_kept (d d' : Device) : Prop :=
  forall k kp, keypairs d !! k = Some kp -> exists kp', keypairs d' !! k = Some kp' /\
    isInitiator kp' = isInitiator kp /\ receive kp' = receive kp.

Lemma current_update d o d' p pr pr' :
  peers d !! p = Some pr -> peers d' = <[p := pr']> (peers d) ->
  (forall k, current pr' = Some k ->
     current pr = Some k \/ o = OpReceivedWith p k \/ exists kp, keypairs d' !! k = Some kp /\ isInitiator kp = true) ->
  current_from d o d'.
Proof.
  intros Hp HP Hc q qr k. rewrite HP. intros [[<- <-] | [Hne Hq]]%lookup_insert_Some Hk.
  - destruct (Hc k Hk) as [H|H]; [|by right]. left. by exists pr.
  - left. by exists qr.
Qed.

Lemma roles_refl d : roles_kept d d.
Proof. intros k kp H. by exists kp. Qed.

Lemma handshake_only_current d o d' : handshake_only d d' -> current_from d o d' /\ roles_kept d d'.
Proof.
  intros [-> | (p & pr & h & T & Hp & _ & ->)].
  - split; [|exact (roles_refl d)]. intros p pr k Hp Hk. left. by exists pr.
  - split; [|exact (roles_refl d)]. eapply current_update; [done..|]. by left.
Qed.

Lemma exhaust_roles d ko : roles_kept d (exhaust d ko).
Proof.
  intros k kp H. destruct ko as [k'|]; cbn; [|by exists kp]. destruct (decide (k' = k)) as [-> |Hne].
  - rewrite lookup_alter_eq, H. by eexists.
  - rewrite lookup_alter_ne by done. by exists kp.
Qed.

Lemma roles_trans d1 d2 d3 : roles_kept d1 d2 -> roles_kept d2 d3 -> roles_kept d1 d3.
Proof.
  intros A B k kp H. destruct (A k kp H) as (kp' & H' & E & F). destruct (B k kp' H') as (kp'' & H'' & E'' & F'').
  exists kp''. split_and!; [done | congruence..].
Qed.

Lemma BeginSymmetricSession_current d p now d' r o :
  BeginSymmetricSession hmac d p now = Some (d', r) -> current_from d o d' /\ roles_kept d d'.
Proof.
  unfold BeginSymmetricSession. destruct (peers d !! p) as [pr|] eqn:Hp; [|done]. red_bind.
  pose proof (fresh_keypair d) as Hk.
  destruct (session_keys hmac (handshake pr)) as [[[sk rk] ini]|];
    [|intros [= <- <-]; by apply handshake_only_current; left].
  set (k := fresh _) in *. set (kp := mkKeypair _ _ _ _ _ _ _ _).
  assert (Hr : roles_kept d (set_keypairs d (<[k := kp]> (keypairs d)))).
  { intros k' kp' H. exists kp'. cbn. split; [|done]. rewrite lookup_insert_ne; [done|]. intros <-. congruence. }
  destruct ini; [destruct (next pr)|]; intros [= <- <-]; (split; [|unfold roles_kept in *; cbn in *; rest; done]);
    (eapply current_update; [done | cbn; rest; done |]); cbn; rest; cbn; intros k' Hk'; try by left.
  all: right; right; exists kp; injection Hk' as <-; by rewrite lookup_insert_eq.
Qed.

Lemma step_current d o d' : step d o = Some d' -> current_from d o d' /\ roles_kept d d'.
Proof.
  destruct o; cbn.
  - intros [= <-]. unfold NewPeer. destruct (MaxPeers <=? _); [by apply handshake_only_current; left|].
    destruct (keyMap d !! pk); [by apply handshake_only_current; left|]. split; [|exact (roles_refl d)].
    intros q qr k. cbn. intros [[<- <-] | [Hne Hq]]%lookup_insert_Some Hk; [done|]. left. by exists qr.
  - unfold set_isRunning. destruct (peers d !! p) as [pr|] eqn:Hp; [|done]. intros [= <-]. split; [|exact (roles_refl d)].
    eapply current_update; [done..|]. by left.
  - unfold SetPresharedKey. destruct (peers d !! p) as [pr|] eqn:Hp; [|done]. red_bind. intros [= <-].
    by apply handshake_only_current, handshake_only_here.
  - intros ([d1 m] & H & ->)%fmap_Some. by eapply handshake_only_current, createMessageInitiation_only.
  - intros [= <-]. apply handshake_only_current, ConsumeMessageInitiation_only.
  - intros ([d1 m] & H & ->)%fmap_Some. by eapply handshake_only_current, createMessageResponse_only.
  - intros [= <-]. apply handshake_only_current, ConsumeMessageResponse_only.
  - intros ([d1 m] & H & ->)%fmap_Some. by eapply BeginSymmetricSession_current.
  - unfold ReceivedWithKeypair. destruct (peers d !! p) as [pr|] eqn:Hp; [|done]. red_bind.
    case_bool_decide as Hn; intros [= <-]; [|by apply handshake_only_current; left].
    split; [|unfold roles_kept; cbn; rest; exact (roles_refl d)].
    eapply current_update; [done | cbn; by rewrite DeleteKeypair_peers |]. cbn. rewrite Hn. intros k' [= <-]. by right; left.
  - unfold ZeroAndFlushAll. destruct (peers d !! p) as [pr|] eqn:Hp; [|done]. red_bind. intros [= <-].
    split; [|unfold roles_kept; cbn; rest; exact (roles_refl d)].
    eapply current_update; [done | cbn; by rewrite !DeleteKeypair_peers | done].
  - unfold ExpireCurrentKeypairs. destruct (peers d !! p) as [pr|] eqn:Hp; [|done]. red_bind. intros [= <-]. split.
    + eapply current_update; [done | by rewrite !exhaust_peers |]. by left.
    + do 2 (eapply roles_trans; [|apply exhaust_roles]). exact (roles_refl d).
Qed.

(** ** Properties *)

(** C7. After any sequence of handshake operations, peer additions, session
    starts, key rotations, expiries and flushes, the index table holds exactly
    the live indices.  An index resolves to the handshake of a peer if and only
    if it is that handshake's own nonzero local index, and to a key pair if and
    only if the key pair is the peer's current, previous or next one and has
    that index: a packet never reaches a discarded session, no live session is
    unreachable, and no two share an index.  Flushing a peer leaves no entry of
    it.  The runs are those in which no random index is 0 ([good_op]): 0 also
    marks the absence of an index. *)
Theorem index_table_exact sk pk os d :
  Forall good_op os -> run (newDevice sk pk) os = Some d ->
  (forall i p t,
     table_Lookup d i = Some (mkEntry p (bool_decide (t = None)) t) <->
     i <> 0 /\ exists pr, peers d !! p = Some pr /\
       match t with
       | None => localIndex (handshake pr) = i
       | Some k => holds pr k /\ exists kp, keypairs d !! k = Some kp /\ kp_localIndex kp = i
       end) /\
  (forall i e, table_Lookup d i = Some e -> exists p t, e = mkEntry p (bool_decide (t = None)) t) /\
  (forall p d', ZeroAndFlushAll d p = Some d' -> forall i e, table_Lookup d' i = Some e -> e_peer e <> p).
Proof.
  intros Hg Hr. pose proof (run_ok os _ d (newDevice_ok sk pk) Hg Hr) as Hd.
  destruct (table_exact d Hd) as [Hw Ho]. split_and!.
  - intros i p t. unfold table_Lookup. change (mkEntry p _ t) with (entry p t). split.
    + intros He. destruct (Hw i _ He) as (q & u & [<- <-]%entry_inj & pr & Hp).
      destruct (proj1 (Ho p pr i t Hp) He) as [Hi Hx]. split; [done|]. exists pr. split; [done|].
      destruct t as [k|]; [|done]. destruct Hx as [Hh (kp & Hk & ->)%fmap_Some]. split; [done|]. by exists kp.
    + intros (Hi & pr & Hp & He). apply (Ho p pr i t Hp). split; [done|]. destruct t as [k|]; [|done].
      destruct He as (Hh & kp & Hk & Hx). split; [done|]. apply fmap_Some. by exists kp.
  - intros i e He. destruct (Hw i e He) as (p & t & -> & _). by exists p, t.
  - intros p d' Hz i e He Hp. pose proof (ZeroAndFlushAll_ok d p d' Hd Hz) as Hd'.
    destruct (table_exact d' Hd') as [Hw' Ho']. destruct (Hw' i e He) as (q & t & -> & pr & Hq). cbn in Hp. subst q.
    destruct (proj1 (Ho' p pr i t Hq) He) as [Hi Hx]. unfold ZeroAndFlushAll in Hz.
    destruct (peers d !! p) as [pr0|]; [|done]. red_bind. injection Hz as <-. cbn in Hq.
    rewrite lookup_insert_eq in Hq. injection Hq as <-. destruct t as [k|]; [|by cbn in Hx].
    by destruct Hx as [[?|[?|?]] _].
Qed.

(** C9. Once a device has taken over an initiation message for a peer, no later
    check of that message passes for the same peer object, whatever happens in
    between: handshakes, flushes, other goroutines completing initiations they
    checked before, removals of peers and changes of the private key, as long as
    the device has, at the later check, the identity it had at the first.  While
    the initiator's key leads to the same peer the message is refused.  And any
    other initiation that passes for that peer later has a strictly newer
    timestamp and comes more than a fiftieth of a second after the first.  The
    check and the update take the handshake mutex separately, so a second check
    made before the update may still pass; and a peer that is removed and added
    again is a new object, which accepts the message anew.  *)
Theorem initiation_accepted_once sk pk es d msg since v es' d' now d1 es'' d2 :
  live (newDevice sk pk) es = Some d -> verifyInit d msg since = Some v ->
  live d es' = Some d' -> acceptInitiation d' msg v now = Some d1 -> live d1 es'' = Some d2 ->
  (forall msg' since' v', verifyInit d2 msg' since' = Some v' -> v_peer v' = v_peer v ->
     Tai64n.After (v_timestamp v') (v_timestamp v) = true /\ HandshakeInitationRate < time_sub since' now) /\
  (privateKey d2 = privateKey d -> publicKey d2 = publicKey d ->
   (forall since' v', verifyInit d2 msg since' = Some v' -> v_peer v' <> v_peer v) /\
   exists rs, LookupPeer d rs = Some (v_peer v) /\
     forall since', LookupPeer d2 rs = Some (v_peer v) -> verifyInit d2 msg since' = None).
Proof.
  intros Hd Hv Hd' Hacc Hd2. destruct (verifyInitiation_found _ _ _ _ Hv) as (pr & Ha & Hp & Hts & Hrate).
  pose proof (live_lasts _ _ _ Hd) as H0. pose proof (live_lasts _ _ _ Hd') as H1. pose proof (live_lasts _ _ _ Hd2) as H2.
  pose proof (ages_lasts _ _ (acceptInitiation_ages _ _ _ _ _ Hacc)) as H12.
  assert (Hnew : live_statics (newDevice sk pk)) by (by intros ? ?).
  assert (Hlater : forall msg' since' v', verifyInit d2 msg' since' = Some v' -> v_peer v' = v_peer v ->
     Tai64n.After (v_timestamp v') (v_timestamp v) = true /\ HandshakeInitationRate < time_sub since' now).
  { intros msg' since' v' Hv' Hq. destruct (verifyInitiation_found _ _ _ _ Hv') as (qr & _ & Hqr & Hts' & Hrate').
    destruct (accepted_since d' msg v now d1 d2 qr Hacc H2) as [Ht Hc]; [by rewrite <- Hq|]. split.
    - by eapply Tai64n.After_above.
    - eapply Z.lt_le_trans; [done|]. unfold time_sub. lia. }
  split; [done|]. intros Hs Hpk.
  destruct (authenticated_same d d2 msg _ _ _ _ _ (lasts_live _ _ H0 Hnew)
    (lasts_live _ _ H2 (lasts_live _ _ H12 (lasts_live _ _ H1 (lasts_live _ _ H0 Hnew)))) Hs Hpk Ha) as (rs & Hrs & Hsame).
  assert (Hnot : forall since' v', verifyInit d2 msg since' = Some v' -> v_peer v' <> v_peer v).
  { intros since' v' Hv' Hq. destruct (Hlater msg since' v' Hv' Hq) as [Hn _].
    destruct (verifyInitiation_found _ _ _ _ Hv') as (qr & Ha' & _). destruct (Hsame _ _ _ _ _ Ha') as [_ E].
    rewrite E in Hn. by rewrite Tai64n.After_irrefl in Hn. }
  split; [done|]. exists rs. split; [done|]. intros since' Hlook.
  destruct (verifyInit d2 msg since') as [v'|] eqn:Hv'; [|done]. exfalso.
  destruct (verifyInitiation_found _ _ _ _ Hv') as (qr & Ha' & _). destruct (Hsame _ _ _ _ _ Ha') as [Hq _].
  apply (Hnot since' v' Hv'). congruence.
Qed.

End Sessions.

(** ** Examples

    Two devices with one peer each; the first initiates, the second responds. *)

Section Examples.

Import ToyCrypto.

Abbreviation toy_run := (run toy_hash toy_hmac toy_base toy_mult toy_seal toy_open).

Definition sk1 : bytes := repeat 3 32.
Definition sk2 : bytes := repeat 5 32.
Definition pk1 : bytes := toy_base sk1.
Definition pk2 : bytes := toy_base sk2.

Definition initiator : Device := fst (NewPeer toy_mult (newDevice sk1 pk1) pk2).

Definition example_initiation : MessageInitiation :=
  match createMessageInitiation toy_hash toy_hmac toy_base toy_mult toy_seal
          initiator 0%nat 1 (repeat 9 32, false) (Tai64n.stamp 1700000000 0) [(77, false)] with
  | Some (_, Some m) => m
  | _ => mkInitiation 0 0 [] [] [] [] []
  end.

(** The operations of the responder. *)
Definition example_ops : list op :=
  [OpNewPeer pk1; OpSetRunning 0%nat true; OpConsumeInitiation example_initiation 0 0;
   OpCreateResponse 0%nat 2 [(5, false)] (repeat 11 32, false); OpBeginSession 0%nat 1; OpReceivedWith 0%nat 0%nat].

Definition example_device : Device := default (newDevice sk2 pk2) (toy_run (newDevice sk2 pk2) example_ops).
Definition example_peer : Peer :=
  default (mkPeer false zeroHandshake None None None) (peers example_device !! 0%nat).

Lemma example_good : Forall good_op example_ops.
Proof. repeat constructor; cbn; lia. Qed.

Lemma index_table_exact_witness :
  table_Lookup example_device 5 = Some (mkEntry 0%nat false (Some 0%nat)) /\
  forall i e d', ZeroAndFlushAll example_device 0%nat = Some d' -> table_Lookup d' i = Some e -> e_peer e <> 0%nat.
Proof.
  destruct (index_table_exact toy_hash toy_hmac toy_base toy_mult toy_seal toy_open sk2 pk2 example_ops
              example_device example_good ltac:(vm_compute; reflexivity)) as (_ & _ & H).
  split; [vm_compute; reflexivity|]. intros i e d' Hd. exact (H 0%nat d' Hd i e).
Defined.

(** The responder checks the initiation, another goroutine flushes the peer, and
    then it is taken over; afterwards the private key changes and changes back. *)
Definition before_initiation : list event := [EvOp (OpNewPeer pk1); EvOp (OpSetRunning 0%nat true)].
Definition since_initiation : list event := [EvSetPrivateKey (repeat 8 32) 7; EvSetPrivateKey sk2 8; EvOp (OpZeroAndFlush 0%nat)].

Abbreviation toy_live := (live toy_hash toy_hmac toy_base toy_mult toy_seal toy_open).
Abbreviation toy_verify := (verifyInitiation toy_hash toy_hmac toy_mult toy_open).

Definition checking : Device := default (newDevice sk2 pk2) (toy_live (newDevice sk2 pk2) before_initiation).
Definition found : verified := default (mkVerified 0%nat [] [] []) (toy_verify checking example_initiation 0).
Definition flushed : Device := default checking (toy_live checking [EvOp (OpZeroAndFlush 0%nat)]).
Definition taken : Device := default flushed (acceptInitiation flushed example_initiation found 0).
Definition long_after : Device := default taken (toy_live taken since_initiation).

Lemma initiation_accepted_once_witness :
  match toy_verify long_after example_initiation (100 * Second) with Some v' => v_peer v' <> 0%nat | None => True end.
Proof.
  destruct (toy_verify long_after example_initiation (100 * Second)) as [v'|] eqn:E; [|exact I].
  refine (proj1 (proj2 (initiation_accepted_once toy_hash toy_hmac toy_base toy_mult toy_seal toy_open
            sk2 pk2 before_initiation checking example_initiation 0 found [EvOp (OpZeroAndFlush 0%nat)] flushed 0 taken
            since_initiation long_after _ _ _ _ _) _ _) _ v' E); vm_compute; reflexivity.
Defined.

End Examples.

End Sessions.
