(* ===== verification/Handshake.v ===== *)
(** * Handshake: two devices agree on a session

    The four handshake handlers and the session start of [Noise], run by two
    devices against each other.  Both sides compute the same transcript, so the
    response authenticates and the key pairs match crosswise. *)

From S2P Require Import Prelude Bits Bytes Messages Replay Tai64n Noise ToyCrypto Sessions.

Module Handshake.

Import Messages Noise Sessions.

Local Open Scope Z_scope.

(** [RoutineHandshake] gives a parsed message the type it was classified as,
    since the wire carries a number of the configured range. *)
Definition received_init (m : MessageInitiation) : MessageInitiation :=
  mkInitiation MessageInitiationType (init_Sender m) (init_Ephemeral m) (init_Static m) (init_Timestamp m)
    (init_MAC1 m) (init_MAC2 m).
Definition received_resp (m : MessageResponse) : MessageResponse :=
  mkResponse MessageResponseType (resp_Sender m) (resp_Receiver m) (resp_Ephemeral m) (resp_Empty m)
    (resp_MAC1 m) (resp_MAC2 m).

(** The first index among the draws that is free. *)
Fixpoint free_draw (T : gmap Z IndexTableEntry) (draws : list (Z * bool)) : option Z :=
  match draws with
  | [] => None
  | (i, _) :: draws' => match T !! i with Some _ => free_draw T draws' | None => Some i end
  end.

Section Handshake.

Context (blake2s : bytes -> bytes) (hmac : bytes -> bytes -> bytes).
Context (ScalarBaseMult : bytes -> bytes) (ScalarMult : bytes -> bytes -> bytes).
Context (Seal : bytes -> bytes -> bytes -> bytes -> bytes) (Open : bytes -> bytes -> bytes -> bytes -> option bytes).

(** X25519 commutes; ChaCha20-Poly1305 opens what it sealed. *)
Hypothesis dh_commutes : forall a b, ScalarMult a (ScalarBaseMult b) = ScalarMult b (ScalarBaseMult a).
Hypothesis open_seal : forall key nonce plain ad, Open key nonce (Seal key nonce plain ad) ad = Some plain.

Abbreviation ICK := (InitialChainKey blake2s).
Abbreviation IH := (InitialHash blake2s).
Abbreviation mixH := (mixHash blake2s).
Abbreviation mixK := (mixKey hmac).

(** ** The transcript, as both sides compute it *)

(** From the initiator's static key, the responder's, the ephemeral key and the
    two shared secrets: the sealed static key and timestamp, the hash and the
    chain key. *)
Definition transcript1 (local remote eph es ss ts : bytes) : bytes * bytes * bytes * bytes :=
  let hash2 := mixH (mixH IH remote) eph in
  let '(ck2, key) := KDF2 hmac (mixK ICK eph) es in
  let static := Seal key ZeroNonce local hash2 in
  let hash3 := mixH hash2 static in
  let '(ck3, key) := KDF2 hmac ck2 ss in
  let sealed := Seal key ZeroNonce ts hash3 in
  (static, sealed, mixH hash3 sealed, ck3).

Definition transcript2 (hash chainKey eph ee se psk : bytes) : bytes * bytes * bytes :=
  let hash1 := mixH hash eph in
  let ck3 := mixK (mixK (mixK chainKey eph) ee) se in
  let '(ck4, tau, key) := KDF3 hmac ck3 psk in
  let hash2 := mixH hash1 tau in
  let empty := Seal key ZeroNonce [] hash2 in
  (empty, mixH hash2 empty, ck4).

Lemma NewIndex_free d draws p i :
  good_draws draws -> free_draw (indexTable d) draws = Some i ->
  NewIndexForHandshake d draws p = Some (set_table d (<[i := mkEntry p true None]> (indexTable d)), i, false).
Proof.
  induction draws as [|[j e] draws IHd]; intros Hg; [done|]. apply Forall_cons_iff in Hg as [[He _] Hg].
  cbn in He |- *. subst e. destruct (indexTable d !! j); [by apply IHd|]. by intros [= ->].
Qed.

Abbreviation createInit := (createMessageInitiation blake2s hmac ScalarBaseMult ScalarMult Seal).
Abbreviation consumeInit := (ConsumeMessageInitiation blake2s hmac ScalarMult Open).
Abbreviation createResp := (createMessageResponse blake2s hmac ScalarBaseMult ScalarMult Seal).
Abbreviation consumeResp := (ConsumeMessageResponse blake2s hmac ScalarMult Open).

Lemma createInit_eq d p pr ty r ts draws i :
  peers d !! p = Some pr -> good_draws draws ->
  let h := handshake pr in
  let ek := clamp r in
  let es := ScalarMult ek (remoteStatic h) in
  isZero es = false -> isZero (precomputedStaticStatic h) = false ->
  free_draw (delete (localIndex h) (indexTable d)) draws = Some i ->
  let '(static, sealed, hash', ck) :=
    transcript1 (publicKey d) (remoteStatic h) (ScalarBaseMult ek) es (precomputedStaticStatic h) ts in
  exists d1,
    createInit d p ty (r, false) ts draws =
      Some (update_handshake d1 p pr (set_progress (set_secrets h hash' ck ek) handshakeInitiationCreated i (remoteIndex h)),
            Some (mkInitiation ty i (ScalarBaseMult ek) static sealed (zeros 16) (zeros 16))) /\
    d1 = set_table d (<[i := mkEntry p true None]> (delete (localIndex h) (indexTable d))).
Proof.
  intros Hp Hg h ek es Hes Hss Hf. unfold transcript1.
  destruct (KDF2 hmac (mixK ICK _) es) as [ck2 key] eqn:H1. destruct (KDF2 hmac ck2 _) as [ck3 key3] eqn:H2.
  eexists. split; [|reflexivity]. unfold createMessageInitiation. rewrite Hp. cbn [mbind option_bind newPrivateKey fst snd].
  unfold sharedSecret. fold h. fold ek. fold es. rewrite Hes, H1, Hss, H2.
  by rewrite (NewIndex_free (table_Delete d (localIndex h)) draws p i Hg Hf).
Qed.

Lemma authenticated_eq d pk p pr msg eph local es ss ts :
  keyMap d !! pk = Some p -> peers d !! p = Some pr -> isRunning pr = true ->
  init_Type msg = MessageInitiationType -> init_Ephemeral msg = eph -> pk = local ->
  ScalarMult (privateKey d) eph = es -> isZero es = false ->
  precomputedStaticStatic (handshake pr) = ss -> isZero ss = false ->
  let '(static, sealed, hash', ck) := transcript1 local (publicKey d) eph es ss ts in
  init_Static msg = static -> init_Timestamp msg = sealed ->
  authenticated blake2s hmac ScalarMult Open d msg = Some (p, pr, ts, hash', ck).
Proof.
  intros Hk Hp Hr Hty He -> Hes Hz Hss Hz'. unfold transcript1, authenticated.
  destruct (KDF2 hmac (mixK ICK eph) es) as [ck2 key] eqn:H1. destruct (KDF2 hmac ck2 ss) as [ck3 key3] eqn:H2.
  intros Hst Hse. rewrite Hty, He, Hes, Hz, H1, Hst, open_seal. red_bind. rewrite Hk. red_bind. rewrite Hp. red_bind.
  rewrite Hr, Hss, Hz'. cbn [negb orb]. rewrite H2, Hse, open_seal. red_bind. done.
Qed.

Lemma createResp_eq d p pr ty draws r i :
  peers d !! p = Some pr -> good_draws draws -> state (handshake pr) = handshakeInitiationConsumed ->
  let h := handshake pr in
  let ek := clamp r in
  let ee := ScalarMult ek (remoteEphemeral h) in
  let se := ScalarMult ek (remoteStatic h) in
  isZero ee = false -> isZero se = false ->
  free_draw (delete (localIndex h) (indexTable d)) draws = Some i ->
  let '(empty, hash', ck) := transcript2 (hash h) (chainKey h) (ScalarBaseMult ek) ee se (presharedKey h) in
  exists d1 h',
    createResp d p ty draws (r, false) =
      Some (update_handshake d1 p pr h', Some (mkResponse ty i (remoteIndex h) (ScalarBaseMult ek) empty (zeros 16) (zeros 16))) /\
    d1 = set_table d (<[i := mkEntry p true None]> (delete (localIndex h) (indexTable d))) /\
    state h' = handshakeResponseCreated /\ chainKey h' = ck /\ localIndex h' = i /\ remoteIndex h' = remoteIndex h.
Proof.
  intros Hp Hg Hst h ek ee se Hee Hse Hf. unfold transcript2.
  destruct (KDF3 hmac _ _) as [[ck4 tau] key] eqn:H1.
  eexists _, _. split; [|split; [reflexivity|]].
  - unfold createMessageResponse. rewrite Hp. cbn [mbind option_bind]. rewrite bool_decide_eq_true_2 by done. cbn [negb].
    rewrite (NewIndex_free (table_Delete d (localIndex (handshake pr))) draws p i Hg Hf).
    cbn [mbind option_bind newPrivateKey fst snd]. unfold sharedSecret.
    change (remoteEphemeral (set_localIndex (handshake pr) i)) with (remoteEphemeral h).
    change (remoteStatic (set_localIndex (handshake pr) i)) with (remoteStatic h).
    change (chainKey (set_localIndex (handshake pr) i)) with (chainKey h).
    change (presharedKey (set_localIndex (handshake pr) i)) with (presharedKey h).
    fold ek. fold ee. fold se. rewrite Hee, Hse, H1. reflexivity.
  - done.
Qed.

Lemma finish_eq sk h msg eph ee se psk :
  state h = handshakeInitiationCreated -> resp_Ephemeral msg = eph ->
  ScalarMult (localEphemeral h) eph = ee -> isZero ee = false ->
  ScalarMult sk eph = se -> isZero se = false -> presharedKey h = psk ->
  let '(empty, hash', ck) := transcript2 (hash h) (chainKey h) eph ee se psk in
  resp_Empty msg = empty -> finish_handshake blake2s hmac ScalarMult Open sk h msg = Some (hash', ck).
Proof.
  intros Hst He Hee Hz Hse Hz' Hpsk. unfold transcript2, finish_handshake, sharedSecret.
  destruct (KDF3 hmac _ psk) as [[ck4 tau] key] eqn:H1. intros Hem.
  rewrite bool_decide_eq_true_2 by done. cbn [negb]. by rewrite He, Hee, Hz, Hse, Hz', Hpsk, H1, Hem, open_seal.
Qed.

(** A session starts from either end of a finished handshake. *)
Lemma begin_eq d p pr now sendKey recvKey ini :
  peers d !! p = Some pr -> session_keys hmac (handshake pr) = Some (sendKey, recvKey, ini) ->
  exists d' k kp pr',
    BeginSymmetricSession hmac d p now = Some (d', Some k) /\ keypairs d' !! k = Some kp /\ peers d' !! p = Some pr' /\
    send kp = sendKey /\ receive kp = recvKey /\ isInitiator kp = ini /\ sendNonce kp = 0 /\
    kp_localIndex kp = localIndex (handshake pr) /\ kp_remoteIndex kp = remoteIndex (handshake pr) /\
    (if ini then current pr' = Some k else next pr' = Some k).
Proof.
  intros Hp Hs. unfold BeginSymmetricSession. rewrite Hp. cbn [mbind option_bind]. rewrite Hs.
  set (k := fresh _). set (kp := mkKeypair _ _ _ _ _ _ _ _).
  destruct (SwapIndex_rest (set_keypairs d (<[k := kp]> (keypairs d))) (localIndex (handshake pr)) k) as [T HT].
  rewrite HT. destruct ini; [destruct (next pr)|].
  all: eexists _, k, kp, _; split; [reflexivity|]; cbn; rewrite ?DeleteKeypair_keypairs, ?DeleteKeypair_peers; cbn.
  all: rewrite !lookup_insert_eq; done.
Qed.

(** A device reached by a run knows its keys and its peers'. *)
Lemma reached sk os d :
  Forall good_op os ->
  run blake2s hmac ScalarBaseMult ScalarMult Seal Open (newDevice sk (ScalarBaseMult sk)) os = Some d ->
  table_ok d /\ privateKey d = sk /\ publicKey d = ScalarBaseMult sk /\ statics_ok ScalarMult d.
Proof.
  intros Hg Hr. pose proof (run_ages _ _ _ _ _ _ _ _ _ Hr) as [Hs _ H1 H2 _ _].
  split_and!; [by eapply run_ok, Hr; [apply newDevice_ok|] | done.. |]. by apply Hs; split.
Qed.

Lemma owned_lookup d p pr k kp :
  table_ok d -> peers d !! p = Some pr -> holds pr k -> keypairs d !! k = Some kp ->
  table_Lookup d (kp_localIndex kp) = Some (mkEntry p false (Some k)).
Proof.
  intros Hd Hp Hh Hk. apply (entries_owned _ _ _ (table_exact d Hd) p pr _ (Some k) Hp).
  assert (Hx : index_of (keypairs d) k (kp_localIndex kp)) by (unfold index_of; by rewrite Hk).
  split; [|done]. destruct (slots_indexed _ _ (table_peers d Hd p pr Hp) k Hh) as (j & Hj & Hn).
  by rewrite (index_of_inj _ _ _ _ Hx Hj).
Qed.

(** The keys of the session, crosswise. *)
Record agree (dA : Device) (pA : pid) (kA : kid) (kpA : Keypair) (dB : Device) (pB : pid) (kB : kid) (kpB : Keypair) : Prop := {
  agree_kpA : keypairs dA !! kA = Some kpA;
  agree_kpB : keypairs dB !! kB = Some kpB;
  agree_send : send kpA = receive kpB;
  agree_receive : receive kpA = send kpB;
  agree_roles : isInitiator kpA = true /\ isInitiator kpB = false;
  agree_indexA : kp_remoteIndex kpA = kp_localIndex kpB;
  agree_indexB : kp_remoteIndex kpB = kp_localIndex kpA;
  agree_tableA : table_Lookup dA (kp_localIndex kpA) = Some (mkEntry pA false (Some kA));
  agree_tableB : table_Lookup dB (kp_localIndex kpB) = Some (mkEntry pB false (Some kB));
  agree_currentA : exists prA, peers dA !! pA = Some prA /\ current prA = Some kA;
  agree_nextB : exists prB, peers dB !! pB = Some prB /\ next prB = Some kB
}.

Lemma sessions_agree dA pA prA dB pB prB ck nowA nowB :
  table_ok dA -> table_ok dB -> peers dA !! pA = Some prA -> peers dB !! pB = Some prB ->
  state (handshake prA) = handshakeResponseConsumed -> state (handshake prB) = handshakeResponseCreated ->
  chainKey (handshake prA) = ck -> chainKey (handshake prB) = ck ->
  remoteIndex (handshake prA) = localIndex (handshake prB) -> remoteIndex (handshake prB) = localIndex (handshake prA) ->
  exists dA' kA kpA dB' kB kpB,
    BeginSymmetricSession hmac dA pA nowA = Some (dA', Some kA) /\
    BeginSymmetricSession hmac dB pB nowB = Some (dB', Some kB) /\ agree dA' pA kA kpA dB' pB kB kpB.
Proof.
  intros HA HB HpA HpB HsA HsB HcA HcB HrA HrB. destruct (KDF2 hmac ck []) as [t0 t1] eqn:Hkdf.
  destruct (begin_eq dA pA prA nowA t0 t1 true HpA) as (dA' & kA & kpA & prA' & HbA & HkA & HpA' & A1 & A2 & A3 & _ & A4 & A5 & A6).
  { unfold session_keys. by rewrite HsA, HcA, Hkdf. }
  destruct (begin_eq dB pB prB nowB t1 t0 false HpB) as (dB' & kB & kpB & prB' & HbB & HkB & HpB' & B1 & B2 & B3 & _ & B4 & B5 & B6).
  { unfold session_keys. by rewrite HsB, HcB, Hkdf. }
  exists dA', kA, kpA, dB', kB, kpB. split; [done|]. split; [done|]. split; try congruence; try done.
  - eapply owned_lookup; [eapply BeginSymmetricSession_ok; [exact HA | exact HbA] | done | by left | done].
  - eapply owned_lookup; [eapply BeginSymmetricSession_ok; [exact HB | exact HbB] | done | by right; right | done].
  - by exists prA'.
  - by exists prB'.
Qed.

(** ** The initiation and its answer *)

(** The responder accepts the initiator's message and derives its transcript. *)
Lemma initiation_accepted dA pA prA dB pB prB tyA rA ts drawsA iA since now :
  let hA := handshake prA in
  let ekA := clamp rA in
  peers dA !! pA = Some prA -> good_draws drawsA ->
  remoteStatic hA = publicKey dB -> publicKey dB = ScalarBaseMult (privateKey dB) ->
  precomputedStaticStatic hA = precomputedStaticStatic (handshake prB) ->
  keyMap dB !! publicKey dA = Some pB -> peers dB !! pB = Some prB -> isRunning prB = true ->
  isZero (ScalarMult ekA (publicKey dB)) = false -> isZero (precomputedStaticStatic hA) = false ->
  free_draw (delete (localIndex hA) (indexTable dA)) drawsA = Some iA ->
  Tai64n.After ts (lastTimestamp (handshake prB)) = true ->
  HandshakeInitationRate < time_sub since (lastInitiationConsumption (handshake prB)) ->
  exists T m1 hA1 hB1,
    createInit dA pA tyA (rA, false) ts drawsA = Some (update_handshake (set_table dA T) pA prA hA1, Some m1) /\
    consumeInit dB (received_init m1) since now = (update_handshake dB pB prB hB1, Some pB) /\
    T !! iA = Some (mkEntry pA true None) /\
    state hA1 = handshakeInitiationCreated /\ localEphemeral hA1 = ekA /\ localIndex hA1 = iA /\
    presharedKey hA1 = presharedKey hA /\
    state hB1 = handshakeInitiationConsumed /\ remoteEphemeral hB1 = ScalarBaseMult ekA /\ remoteIndex hB1 = iA /\
    localIndex hB1 = localIndex (handshake prB) /\ remoteStatic hB1 = remoteStatic (handshake prB) /\
    presharedKey hB1 = presharedKey (handshake prB) /\
    hash hB1 = hash hA1 /\ chainKey hB1 = chainKey hA1.
Proof.
  intros hA ekA HpA HgA Hrs HpkB Hss HkB HpB Hrun Hz1 Hz2 Hf Hts Hrate.
  pose proof (createInit_eq dA pA prA tyA rA ts drawsA iA HpA HgA) as Hcr. cbv zeta in Hcr. fold hA ekA in Hcr.
  rewrite Hrs in Hcr. specialize (Hcr Hz1 Hz2 Hf).
  pose proof (authenticated_eq dB (publicKey dA) pB prB) as Hau.
  destruct (transcript1 _ _ _ _ _ _) as [[[static sealed] hash'] ck] eqn:Ht. destruct Hcr as (d1 & Hcr & ->).
  specialize (Hau (received_init (mkInitiation tyA iA (ScalarBaseMult ekA) static sealed (zeros 16) (zeros 16)))
    (ScalarBaseMult ekA) (publicKey dA) (ScalarMult ekA (publicKey dB)) (precomputedStaticStatic hA) ts HkB HpB Hrun eq_refl eq_refl eq_refl).
  specialize (Hau ltac:(by rewrite HpkB, dh_commutes) Hz1 (eq_sym Hss) Hz2).
  rewrite Ht in Hau. specialize (Hau eq_refl eq_refl).
  eexists _, _, _, _. split; [exact Hcr|]. split.
  { rewrite ConsumeInit_eq, Hau. cbv zeta. rewrite Hts.
    replace (time_sub _ _ <=? _) with false by (symmetry; by apply Z.leb_gt). reflexivity. }
  rewrite lookup_insert_eq. done.
Qed.

(** The initiator accepts the responder's answer, and both hold the same chain key. *)
Lemma response_accepted dA pA prA dB pB prB tyB rB drawsB iB :
  let hA := handshake prA in
  let hB := handshake prB in
  let ekB := clamp rB in
  peers dA !! pA = Some prA -> peers dB !! pB = Some prB -> good_draws drawsB ->
  state hA = handshakeInitiationCreated -> state hB = handshakeInitiationConsumed ->
  table_Lookup dA (localIndex hA) = Some (mkEntry pA true None) -> remoteIndex hB = localIndex hA ->
  remoteEphemeral hB = ScalarBaseMult (localEphemeral hA) -> remoteStatic hB = ScalarBaseMult (privateKey dA) ->
  hash hB = hash hA -> chainKey hB = chainKey hA -> presharedKey hB = presharedKey hA ->
  isZero (ScalarMult ekB (remoteEphemeral hB)) = false -> isZero (ScalarMult ekB (remoteStatic hB)) = false ->
  free_draw (delete (localIndex hB) (indexTable dB)) drawsB = Some iB ->
  exists T m2 hB2 hA2,
    createResp dB pB tyB drawsB (rB, false) = Some (update_handshake (set_table dB T) pB prB hB2, Some m2) /\
    consumeResp dA (received_resp m2) = (update_handshake dA pA prA hA2, Some pA) /\
    state hB2 = handshakeResponseCreated /\ state hA2 = handshakeResponseConsumed /\ chainKey hB2 = chainKey hA2 /\
    remoteIndex hA2 = localIndex hB2 /\ remoteIndex hB2 = localIndex hA2.
Proof.
  intros hA hB ekB HpA HpB HgB HsA HsB Htab Hri Hre Hrs Hh Hck Hpsk Hz1 Hz2 Hf.
  pose proof (createResp_eq dB pB prB tyB drawsB rB iB HpB HgB HsB) as Hcr. cbv zeta in Hcr. fold hB ekB in Hcr.
  specialize (Hcr Hz1 Hz2 Hf). destruct (transcript2 _ _ _ _ _ _) as [[empty hash'] ck] eqn:Ht.
  destruct Hcr as (d1 & hB2 & Hcr & -> & S1 & S2 & S3 & S4).
  pose proof (finish_eq (privateKey dA) hA
    (received_resp (mkResponse tyB iB (remoteIndex hB) (ScalarBaseMult ekB) empty (zeros 16) (zeros 16))) (ScalarBaseMult ekB)
    (ScalarMult ekB (remoteEphemeral hB)) (ScalarMult ekB (remoteStatic hB)) (presharedKey hB)
    HsA eq_refl ltac:(by rewrite Hre, dh_commutes) Hz1 ltac:(by rewrite Hrs, dh_commutes) Hz2 (eq_sym Hpsk)) as Hfin.
  rewrite <- Hh, <- Hck, Ht in Hfin. specialize (Hfin eq_refl).
  eexists _, _, _, _. split; [exact Hcr|]. split.
  { unfold ConsumeMessageResponse. set (m := received_resp _) in *. change (resp_Receiver m) with (remoteIndex hB).
    change (resp_Type m =? MessageResponseType) with true. cbn [negb]. rewrite Hri, Htab. cbn [mbind option_bind e_handshake e_peer]. rewrite HpA. cbn [mbind option_bind]. cbv zeta. fold hA. rewrite Hfin. reflexivity. }
  cbn. split_and!; congruence.
Qed.

(** ** Properties *)

(** C1. Key agreement.  Take two devices in any states their operations can
    reach with nonzero random indices, each with the other as a running peer and the same preshared key.
    If the initiator's timestamp is newer than the last one accepted, more than 20 ms
    have passed since then (the limit on the rate of initiations), none of the four
    shared secrets is the zero point and each side draws an index that is free, then the initiation is built and
    accepted, the response is built and accepted, and both sessions start.  The
    sending key of each side is the receiving key of the other, each side
    addresses the other by the index under which the other's table finds the new
    key pair, and the key pair is the initiator's current and the responder's
    next one. *)
Theorem handshake_agreement skA skB osA osB dA dB pA pB prA prB tyA tyB rA rB ts drawsA drawsB iA iB since now nowA nowB :
  Forall good_op osA -> Forall good_op osB ->
  run blake2s hmac ScalarBaseMult ScalarMult Seal Open
    (newDevice skA (ScalarBaseMult skA)) osA = Some dA ->
  run blake2s hmac ScalarBaseMult ScalarMult Seal Open
    (newDevice skB (ScalarBaseMult skB)) osB = Some dB ->
  peers dA !! pA = Some prA -> remoteStatic (handshake prA) = ScalarBaseMult skB ->
  keyMap dB !! ScalarBaseMult skA = Some pB -> peers dB !! pB = Some prB -> isRunning prB = true ->
  presharedKey (handshake prA) = presharedKey (handshake prB) ->
  isZero (ScalarMult (clamp rA) (ScalarBaseMult skB)) = false -> isZero (ScalarMult skA (ScalarBaseMult skB)) = false ->
  isZero (ScalarMult (clamp rB) (ScalarBaseMult (clamp rA))) = false -> isZero (ScalarMult (clamp rB) (ScalarBaseMult skA)) = false ->
  Tai64n.After ts (lastTimestamp (handshake prB)) = true ->
  HandshakeInitationRate < time_sub since (lastInitiationConsumption (handshake prB)) ->
  good_draws drawsA -> good_draws drawsB ->
  free_draw (delete (localIndex (handshake prA)) (indexTable dA)) drawsA = Some iA ->
  free_draw (delete (localIndex (handshake prB)) (indexTable dB)) drawsB = Some iB ->
  exists dA1 m1 dB1 dB2 m2 dA2 dA3 kA kpA dB3 kB kpB,
    createInit dA pA tyA (rA, false) ts drawsA = Some (dA1, Some m1) /\
    consumeInit dB (received_init m1) since now = (dB1, Some pB) /\
    createResp dB1 pB tyB drawsB (rB, false) = Some (dB2, Some m2) /\
    consumeResp dA1 (received_resp m2) = (dA2, Some pA) /\
    BeginSymmetricSession hmac dA2 pA nowA = Some (dA3, Some kA) /\
    BeginSymmetricSession hmac dB2 pB nowB = Some (dB3, Some kB) /\
    agree dA3 pA kA kpA dB3 pB kB kpB.
Proof.
  intros GA GB RA RB HpA HrsA HkB HpB Hrun Hpsk Z1 Z2 Z3 Z4 Hts Hrate DA DB FA FB.
  destruct (reached skA osA dA GA RA) as (TA & PA & QA & SA). destruct (reached skB osB dB GB RB) as (TB & PB & QB & SB).
  destruct (statics_known _ _ SB _ _ HkB) as (prB' & HpB' & HrsB). rewrite HpB in HpB'. injection HpB' as <-.
  pose proof (statics_secret _ _ SA pA prA HpA) as HssA. rewrite HrsA, PA in HssA.
  pose proof (statics_secret _ _ SB pB prB HpB) as HssB. rewrite HrsB, PB in HssB.
  destruct (initiation_accepted dA pA prA dB pB prB tyA rA ts drawsA iA since now) as
    (T & m1 & hA1 & hB1 & HcA & HcB & HT & A1 & A2 & A3 & A4 & B1 & B2 & B3 & B4 & B5 & B6 & B7 & B8); try congruence.
  destruct (response_accepted (update_handshake (set_table dA T) pA prA hA1) pA (set_handshake prA hA1)
              (update_handshake dB pB prB hB1) pB (set_handshake prB hB1) tyB rB drawsB iB) as
    (T' & m2 & hB2 & hA2 & HrB & HrA & C1 & C2 & C3 & C4 & C5); cbn; rewrite ?lookup_insert_eq; try congruence.
  { by rewrite <- A3 in HT. }
  pose proof (createMessageInitiation_ok _ _ _ _ _ _ _ _ _ _ _ _ _ TA DA HcA) as TA1.
  pose proof (ConsumeMessageResponse_ok blake2s hmac ScalarMult Open _ (received_resp m2) TA1) as TA2. rewrite HrA in TA2.
  pose proof (ConsumeMessageInitiation_ok blake2s hmac ScalarMult Open dB (received_init m1) since now TB) as TB1.
  rewrite HcB in TB1. pose proof (createMessageResponse_ok _ _ _ _ _ _ _ _ _ _ _ _ TB1 DB HrB) as TB2.
  destruct (sessions_agree _ pA (set_handshake (set_handshake prA hA1) hA2) _ pB (set_handshake (set_handshake prB hB1) hB2)
              (chainKey hA2) nowA nowB TA2 TB2) as (dA3 & kA & kpA & dB3 & kB & kpB & HbA & HbB & Hag);
    cbn; rewrite ?lookup_insert_eq; try congruence.
  by eauto 25.
Qed.

(** The peer still holds the session, but no packet addressed to its index
    finds it. *)
Definition stranded (d : Device) (p : pid) (k : kid) (i : Z) : Prop :=
  table_Lookup d i = None /\ exists pr, peers d !! p = Some pr /\ holds pr k.

(** Index 0 is both a possible random index and the mark of "no index".
    If a live session got the index 0, then the next handshake initiation of any
    other peer without a pending handshake removes it from the table: the
    session is still its peer's, but no received packet can find it. *)
Theorem index_zero_evicted d p pr k q qr ty rnd ts draws d' m :
  table_Lookup d 0 = Some (mkEntry p false (Some k)) -> peers d !! p = Some pr -> holds pr k ->
  p <> q -> peers d !! q = Some qr -> localIndex (handshake qr) = 0 ->
  createInit d q ty rnd ts draws = Some (d', Some m) -> init_Sender m <> 0 ->
  stranded d' p k 0.
Proof.
  intros Ht Hp Hk Hne Hq Hl. unfold createMessageInitiation. rewrite Hq. cbn [mbind option_bind]. rewrite Hl.
  repeat case_match; try done.
  destruct (NewIndexForHandshake _ _ _) as [[[d1 i] err]|] eqn:HN; [|done]. cbn [mbind option_bind].
  destruct err; [done|]. intros [= <- <-] Hs. cbn in Hs.
  assert (indexTable d1 !! 0 = None /\ peers d1 = peers d) as [Hz HP].
  { revert HN Hs. clear. induction draws as [|[j []] draws IHd]; cbn; [done..|].
    destruct (delete 0 (indexTable d) !! j); [done|]. intros [= <- ->] Hi. cbn. split; [|done].
    by rewrite lookup_insert_ne, lookup_delete_eq. }
  split; [done|]. exists pr. cbn. by rewrite HP, lookup_insert_ne.
Qed.

End Handshake.

(** ** Examples *)

Section Examples.

Import ToyCrypto.

Abbreviation toy_run := (run toy_hash toy_hmac toy_base toy_mult toy_seal toy_open).

Definition deviceA : Device := default (newDevice sk1 pk1) (toy_run (newDevice sk1 pk1) [OpNewPeer pk2]).
Definition deviceB : Device :=
  default (newDevice sk2 pk2) (toy_run (newDevice sk2 pk2) [OpNewPeer pk1; OpSetRunning 0%nat true]).
Definition peer0 (d : Device) : Peer := default (mkPeer false zeroHandshake None None None) (peers d !! 0%nat).

Lemma handshake_agreement_witness :
  exists dA kA kpA dB kB kpB, agree dA 0%nat kA kpA dB 0%nat kB kpB.
Proof.
  destruct (handshake_agreement toy_hash toy_hmac toy_base toy_mult toy_seal toy_open toy_commutes toy_open_seal
    sk1 sk2 [OpNewPeer pk2] [OpNewPeer pk1; OpSetRunning 0%nat true] deviceA deviceB 0%nat 0%nat (peer0 deviceA) (peer0 deviceB)
    1 2 (repeat 9 32) (repeat 11 32) (Tai64n.stamp 1700000000 0) [(77, false)] [(5, false)] 77 5 0 0 1 1)
    as (_ & _ & _ & _ & _ & _ & dA & kA & kpA & dB & kB & kpB & _ & _ & _ & _ & _ & _ & H);
    try (vm_compute; reflexivity); try (repeat constructor; cbn; lia).
  exists dA, kA, kpA, dB, kB, kpB. exact H.
Defined.

(** A session with index 0, and a second peer. *)
Definition zero_ops : list op :=
  [OpNewPeer pk1; OpSetRunning 0%nat true; OpConsumeInitiation example_initiation 0 0;
   OpCreateResponse 0%nat 2 [(0, false)] (repeat 11 32, false); OpBeginSession 0%nat 1; OpReceivedWith 0%nat 0%nat;
   OpNewPeer (toy_base (repeat 8 32))].
Definition zero_device : Device := default (newDevice sk2 pk2) (toy_run (newDevice sk2 pk2) zero_ops).
Definition evicted : option (Device * option MessageInitiation) :=
  createMessageInitiation toy_hash toy_hmac toy_base toy_mult toy_seal zero_device 1%nat 1
    (repeat 9 32, false) (Tai64n.stamp 1700000000 0) [(6, false)].

Lemma index_zero_evicted_witness : stranded (from_option fst zero_device evicted) 0%nat 0%nat 0.
Proof.
  refine (index_zero_evicted toy_hash toy_hmac toy_base toy_mult toy_seal zero_device 0%nat (peer0 zero_device) 0%nat
            1%nat (default (peer0 zero_device) (peers zero_device !! 1%nat)) 1 (repeat 9 32, false) (Tai64n.stamp 1700000000 0)
            [(6, false)] (from_option fst zero_device evicted)
            (default (mkInitiation 0 0 [] [] [] [] []) (snd (default (zero_device, None) evicted))) _ _ _ _ _ _ _ _);
    try (left; vm_compute; reflexivity); try (vm_compute; reflexivity); try (vm_compute; discriminate); done.
Defined.

End Examples.

End Handshake.
