(* ===== verification/Cookie.v ===== *)
(** * Cookies: the MAC fields of handshake messages

    Models submodules/wireguard-go/device/cookie.go.  [mac128] is keyed
    blake2s-128, [SealX] and [OpenX] are XChaCha20-Poly1305. *)

From S2P Require Import Prelude Bits Bytes GoStrings Messages Noise ToyCrypto.

Module Cookie.

Import Messages.

Local Open Scope Z_scope.

Abbreviation bytes := (list Z).

Definition WGLabelMAC1 : bytes := str "mac1----".
Definition WGLabelCookie : bytes := str "cookie--".
Definition CookieRefreshTime : Z := 120 * Second.
Definition size128 : Z := Z.of_nat Size128.

Record CookieChecker := mkChecker {
  chk_mac1_key : bytes;
  secret : bytes;
  secretSet : Z;
  chk_encryptionKey : bytes
}.

Record CookieGenerator := mkGenerator {
  gen_mac1_key : bytes;
  cookie : bytes;
  cookieSet : Z;
  hasLastMAC1 : bool;
  lastMAC1 : bytes;
  gen_encryptionKey : bytes
}.

Definition zeroChecker : CookieChecker := mkChecker (Noise.zeros 32) (Noise.zeros 32) Noise.zeroTime (Noise.zeros 32).
Definition zeroGenerator : CookieGenerator :=
  mkGenerator (Noise.zeros 32) (Noise.zeros 16) Noise.zeroTime false (Noise.zeros 16) (Noise.zeros 32).

Section Cookie.

Context (blake2s : bytes -> bytes) (mac128 : bytes -> bytes -> bytes).
Context (SealX : bytes -> bytes -> bytes -> bytes -> bytes) (OpenX : bytes -> bytes -> bytes -> bytes -> option bytes).

Definition checker_Init (st : CookieChecker) (pk : bytes) : CookieChecker :=
  mkChecker (blake2s (WGLabelMAC1 ++ pk)) (secret st) Noise.zeroTime (blake2s (WGLabelCookie ++ pk)).

(** [None]: the message is too short for the slices, which panic. *)
Definition CheckMAC1 (st : CookieChecker) (msg : bytes) : option bool :=
  let size := Z.of_nat (length msg) in
  let smac2 := size - size128 in
  let smac1 := smac2 - size128 in
  body ← slice msg 0 smac1;
  field ← slice msg smac1 smac2;
  Some (bool_decide (mac128 (chk_mac1_key st) body = field)).

Definition CheckMAC2 (st : CookieChecker) (msg src : bytes) (since : Z) : option bool :=
  if CookieRefreshTime <? time_sub since (secretSet st) then Some false
  else
    let cookie := mac128 (secret st) src in
    let smac2 := Z.of_nat (length msg) - size128 in
    body ← slice msg 0 smac2;
    field ← slice_from msg smac2;
    Some (bool_decide (mac128 cookie body = field)).

(** [rnd] and [nonce]: what the two calls of [rand.Read] fill in and whether they
    fail; [since] and [now] are the clock readings.  The second component is the
    reply, or nil with an error. *)
Definition CreateReply (st : CookieChecker) (msg : bytes) (recv : Z) (src : bytes) (msgType : Z)
    (rnd nonce : bytes * bool) (since now : Z) : option (CookieChecker * option MessageCookieReply) :=
  let reply st :=
    let cookie := mac128 (secret st) src in
    let smac2 := Z.of_nat (length msg) - size128 in
    let smac1 := smac2 - size128 in
    if snd nonce then Some (st, None)
    else
      field ← slice msg smac1 smac2;
      Some (st, Some (mkCookieReply msgType recv (fst nonce) (SealX (chk_encryptionKey st) (fst nonce) cookie field))) in
  if CookieRefreshTime <? time_sub since (secretSet st) then
    if snd rnd then Some (mkChecker (chk_mac1_key st) (fst rnd) (secretSet st) (chk_encryptionKey st), None)
    else reply (mkChecker (chk_mac1_key st) (fst rnd) now (chk_encryptionKey st))
  else reply st.

Definition generator_Init (st : CookieGenerator) (pk : bytes) : CookieGenerator :=
  mkGenerator (blake2s (WGLabelMAC1 ++ pk)) (cookie st) Noise.zeroTime (hasLastMAC1 st) (lastMAC1 st)
    (blake2s (WGLabelCookie ++ pk)).

Definition ConsumeReply (st : CookieGenerator) (msg : MessageCookieReply) (now : Z) : CookieGenerator * bool :=
  if negb (hasLastMAC1 st) then (st, false)
  else
    match OpenX (gen_encryptionKey st) (cookie_Nonce msg) (cookie_Cookie msg) (lastMAC1 st) with
    | None => (st, false)
    | Some c =>
        (mkGenerator (gen_mac1_key st) c now (hasLastMAC1 st) (lastMAC1 st) (gen_encryptionKey st), true)
    end.

(** Writes the fields into the message. *)
Definition AddMacs (st : CookieGenerator) (msg : bytes) (since : Z) : option (CookieGenerator * bytes) :=
  let size := Z.of_nat (length msg) in
  let smac2 := size - size128 in
  let smac1 := smac2 - size128 in
  _ ← slice msg smac1 smac2;
  body1 ← slice msg 0 smac1;
  let mac1 := mac128 (gen_mac1_key st) body1 in
  msg ← copy_at msg (Z.to_nat smac1) mac1;
  let st := mkGenerator (gen_mac1_key st) (cookie st) (cookieSet st) true (copy (lastMAC1 st) mac1) (gen_encryptionKey st) in
  if CookieRefreshTime <? time_sub since (cookieSet st) then Some (st, msg)
  else
    body2 ← slice msg 0 smac2;
    msg ← copy_at msg (Z.to_nat smac2) (mac128 (cookie st) body2);
    Some (st, msg).

(** ** Laws of the primitives *)

Hypothesis mac128_length : forall key data, length (mac128 key data) = Size128.
Hypothesis openX_sealX : forall key nonce plain ad, OpenX key nonce (SealX key nonce plain ad) ad = Some plain.

(** ** Lemmas *)

(** A message with both fields, and a generator of the same public key. *)
Record split_msg (msg body f1 f2 : bytes) : Prop := {
  msg_split : msg = body ++ f1 ++ f2;
  f1_length : length f1 = Size128;
  f2_length : length f2 = Size128
}.

Lemma msg_fields msg : (32 <= length msg)%nat -> exists body f1 f2, split_msg msg body f1 f2.
Proof.
  intros H. exists (take (length msg - 32) msg), (take 16 (drop (length msg - 32) msg)), (drop 16 (drop (length msg - 32) msg)).
  split.
  - by rewrite take_drop, take_drop.
  - rewrite length_take, length_drop. unfold Size128. lia.
  - rewrite !length_drop. unfold Size128. lia.
Qed.

Lemma split_offsets msg body f1 f2 :
  split_msg msg body f1 f2 ->
  Z.of_nat (length msg) - size128 = Z.of_nat (length body) + size128 /\
  Z.of_nat (length msg) - size128 - size128 = Z.of_nat (length body).
Proof.
  intros [-> H1 H2]. rewrite !length_app, H1, H2. unfold size128, Size128. lia.
Qed.

Lemma split_slices msg body f1 f2 :
  split_msg msg body f1 f2 ->
  slice msg 0 (Z.of_nat (length body)) = Some body /\
  slice msg (Z.of_nat (length body)) (Z.of_nat (length body) + size128) = Some f1 /\
  slice msg 0 (Z.of_nat (length body) + size128) = Some (body ++ f1) /\
  slice_from msg (Z.of_nat (length body) + size128) = Some f2.
Proof.
  intros [-> H1 H2]. unfold size128. split_and!.
  - by apply (slice_seam _ [] body (f1 ++ f2)).
  - apply (slice_seam _ body f1 f2); [done..|lia].
  - apply (slice_seam _ [] (body ++ f1) f2); [by rewrite <- app_assoc | done | rewrite length_app; lia].
  - apply (slice_from_seam _ (body ++ f1) f2); [by rewrite <- app_assoc | rewrite length_app; lia].
Qed.

Lemma AddMacs_eq st msg body f1 f2 since :
  split_msg msg body f1 f2 ->
  let mac1 := mac128 (gen_mac1_key st) body in
  let f2' := if CookieRefreshTime <? time_sub since (cookieSet st) then f2 else mac128 (cookie st) (body ++ mac1) in
  let st' := mkGenerator (gen_mac1_key st) (cookie st) (cookieSet st) true (copy (lastMAC1 st) mac1) (gen_encryptionKey st) in
  AddMacs st msg since = Some (st', body ++ mac1 ++ f2') /\ split_msg (body ++ mac1 ++ f2') body mac1 f2'.
Proof.
  intros Hs mac1 f2' st'. pose proof Hs as [Hm H1 H2]. destruct (split_offsets msg body f1 f2 Hs) as [E1 E2].
  destruct (split_slices msg body f1 f2 Hs) as (S1 & S2 & _ & _).
  assert (Hs1 : split_msg (body ++ mac1 ++ f2) body mac1 f2) by (split; [done | apply mac128_length | done]).
  destruct (split_slices _ _ _ _ Hs1) as (_ & _ & S3 & _).
  assert (Hs' : split_msg (body ++ mac1 ++ f2') body mac1 f2').
  { split; [done | apply mac128_length |]. unfold f2'. case_match; [done | apply mac128_length]. }
  split; [|done]. unfold AddMacs. rewrite E2, E1, S2. cbn [mbind option_bind]. rewrite S1. cbn [mbind option_bind].
  rewrite Nat2Z.id, Hm, copy_at_app by (fold mac1; rewrite H1; symmetry; apply mac128_length). cbn [mbind option_bind].
  cbn [cookieSet]. unfold f2'. destruct (_ <? _); [done|]. fold mac1. rewrite S3. cbn [mbind option_bind cookie].
  replace (Z.to_nat (Z.of_nat (length body) + size128)) with (length (body ++ mac1))
    by (rewrite length_app, (mac128_length _ body : length mac1 = _); unfold size128; lia).
  rewrite (app_assoc body mac1 f2), <- (app_nil_r f2), copy_at_app by (rewrite H2; symmetry; apply mac128_length).
  by rewrite app_nil_r, <- app_assoc.
Qed.

Lemma CheckMAC1_eq st msg body f1 f2 :
  split_msg msg body f1 f2 -> CheckMAC1 st msg = Some (bool_decide (mac128 (chk_mac1_key st) body = f1)).
Proof.
  intros Hs. destruct (split_offsets msg body f1 f2 Hs) as [E1 E2]. destruct (split_slices msg body f1 f2 Hs) as (S1 & S2 & _).
  unfold CheckMAC1. by rewrite E2, E1, S1; cbn [mbind option_bind]; rewrite S2.
Qed.

Lemma CheckMAC2_eq st msg body f1 f2 src since :
  split_msg msg body f1 f2 -> time_sub since (secretSet st) <= CookieRefreshTime ->
  CheckMAC2 st msg src since = Some (bool_decide (mac128 (mac128 (secret st) src) (body ++ f1) = f2)).
Proof.
  intros Hs Ht. destruct (split_offsets msg body f1 f2 Hs) as [E1 E2]. destruct (split_slices msg body f1 f2 Hs) as (_ & _ & S3 & S4).
  unfold CheckMAC2. replace (_ <? _) with false by (symmetry; by apply Z.ltb_ge).
  by rewrite E1, S3; cbn [mbind option_bind]; rewrite S4.
Qed.

(** ** Properties *)

(** C33. The cookie exchange.  A message that a generator for a public key has
    stamped passes the first check of the owner of that key.  The cookie reply
    the owner makes for it is accepted by the generator, and the next message
    stamped within the cookie's life time passes both checks from the same source
    address for as long as the owner's secret is not older than two minutes;
    after that it does not pass the second check.  A generator without an outstanding
    message is not changed by this reply. *)
Theorem cookie_exchange chk gen pk msg1 msg2 recv src ty rnd nonce t0 t1 now1 now2 t3 t4 :
  chk_mac1_key chk = blake2s (WGLabelMAC1 ++ pk) -> chk_encryptionKey chk = blake2s (WGLabelCookie ++ pk) ->
  gen_mac1_key gen = blake2s (WGLabelMAC1 ++ pk) -> gen_encryptionKey gen = blake2s (WGLabelCookie ++ pk) ->
  length (lastMAC1 gen) = Size128 -> (32 <= length msg1)%nat -> (32 <= length msg2)%nat ->
  time_sub t3 now2 <= CookieRefreshTime ->
  exists gen1 msg1' chk' reply gen2 gen3 msg2',
    AddMacs gen msg1 t0 = Some (gen1, msg1') /\ CheckMAC1 chk msg1' = Some true /\
    CreateReply chk msg1' recv src ty (rnd, false) (nonce, false) t1 now1 = Some (chk', Some reply) /\
    ConsumeReply gen1 reply now2 = (gen2, true) /\
    AddMacs gen2 msg2 t3 = Some (gen3, msg2') /\ length msg2' = length msg2 /\
    CheckMAC1 chk' msg2' = Some true /\
    CheckMAC2 chk' msg2' src t4 = Some (bool_decide (time_sub t4 (secretSet chk') <= CookieRefreshTime)) /\
    (hasLastMAC1 gen = false -> ConsumeReply gen reply now2 = (gen, false)).
Proof.
  intros C1 C2 G1 G2 HL L1 L2 Ht3. destruct (msg_fields msg1 L1) as (b1 & f1 & g1 & Hs1).
  destruct (msg_fields msg2 L2) as (b2 & f2 & g2 & Hs2).
  destruct (AddMacs_eq gen msg1 b1 f1 g1 t0 Hs1) as [Ha1 Hs1']. set (m1 := mac128 (gen_mac1_key gen) b1) in *.
  set (chk' := if CookieRefreshTime <? time_sub t1 (secretSet chk)
               then mkChecker (chk_mac1_key chk) rnd now1 (chk_encryptionKey chk) else chk).
  assert (K1 : chk_mac1_key chk' = chk_mac1_key chk) by (unfold chk'; by destruct (CookieRefreshTime <? time_sub t1 _)).
  set (reply := mkCookieReply ty recv nonce (SealX (chk_encryptionKey chk) nonce (mac128 (secret chk') src) m1)).
  set (gen1 := mkGenerator _ _ _ _ _ _) in Ha1.
  set (gen2 := mkGenerator (gen_mac1_key gen) (mac128 (secret chk') src) now2 true m1 (gen_encryptionKey gen)).
  assert (Hm1 : copy (lastMAC1 gen) m1 = m1) by (apply copy_exact; rewrite HL; symmetry; apply mac128_length).
  destruct (AddMacs_eq gen2 msg2 b2 f2 g2 t3 Hs2) as [Ha2 Hs2']. cbn [gen2 cookieSet gen_mac1_key cookie] in Ha2, Hs2'.
  pose proof (proj2 (Z.ltb_ge _ _) Ht3) as Hb. rewrite Hb in Ha2, Hs2'.
  eexists gen1, _, chk', reply, gen2, _, _. split_and!; [exact Ha1 | | | | exact Ha2 | | | |].
  - rewrite (CheckMAC1_eq _ _ _ _ _ Hs1'), bool_decide_eq_true_2; [done|]. unfold m1. by rewrite C1, G1.
  - destruct (split_offsets _ _ _ _ Hs1') as [E1 E2]. destruct (split_slices _ _ _ _ Hs1') as (_ & S2 & _).
    unfold CreateReply. cbn [fst snd]. rewrite E2, E1, S2. unfold chk', reply. by destruct (CookieRefreshTime <? time_sub t1 _).
  - unfold ConsumeReply, gen1, reply. cbn. by rewrite Hm1, C2, G2, openX_sealX, <- G2.
  - destruct Hs2 as [-> H1 H2], Hs2' as [_ H3 H4]. rewrite !length_app. lia.
  - rewrite (CheckMAC1_eq _ _ _ _ _ Hs2'), bool_decide_eq_true_2; [done|]. by rewrite K1, C1, G1.
  - destruct (decide (time_sub t4 (secretSet chk') <= CookieRefreshTime)) as [Hle|Hgt].
    + rewrite (CheckMAC2_eq _ _ _ _ _ _ _ Hs2' Hle), !bool_decide_eq_true_2; done.
    + rewrite bool_decide_eq_false_2 by done. unfold CheckMAC2.
      by replace (_ <? _) with true by (symmetry; apply Z.ltb_lt; lia).
  - intros Hn. unfold ConsumeReply. by rewrite Hn.
Qed.

End Cookie.

Import ToyCrypto.

(** The toy hash, truncated. *)
Definition toy_mac128 (key data : bytes) : bytes := take 16 (toy_hmac key data).

Lemma cookie_exchange_witness :
  exists chk msg, CheckMAC2 toy_mac128 chk msg [10; 0; 0; 1; 31; 144] 200 = Some true.
Proof.
  destruct (cookie_exchange toy_hash toy_mac128 toy_seal toy_open ltac:(done) toy_open_seal
    (checker_Init toy_hash zeroChecker (repeat 7 32)) (generator_Init toy_hash zeroGenerator (repeat 7 32)) (repeat 7 32)
    (repeat 1 148) (repeat 2 148) 5 [10; 0; 0; 1; 31; 144] 3 (repeat 4 32) (repeat 6 24) 0 0 0 0 100 200
    eq_refl eq_refl eq_refl eq_refl eq_refl ltac:(cbn; lia) ltac:(cbn; lia) ltac:(by vm_compute))
    as (gen1 & msg1 & chk & reply & gen2 & gen3 & msg2 & Ha & _ & Hr & _ & _ & _ & _ & H2 & _).
  exists chk, msg2. rewrite H2. f_equal. apply bool_decide_eq_true_2.
  vm_compute in Ha. injection Ha as <- <-. vm_compute in Hr. injection Hr as <- _. vm_compute. done.
Defined.

End Cookie.
