(* ===== verification/Transport.v ===== *)
(** * Transport: sealing, framing and delivery of data packets

    Models the data path of submodules/wireguard-go/device: [calculatePaddingSize],
    [randomTrailer], [randomPaddingAddition] and [encryptTransport] of send.go, and
    the transport case of [RoutineReceiveIncoming], the body of
    [RoutineDecryption] and [processInboundContainer] of receive.go.  The calls
    that start timers or send staged packets belong to the peer's state machine
    and are reported as flags.  [traffic_run] mixes handshakes and received packets,
    for the confirmation of a responder's key. *)

From S2P Require Import Prelude Bits Bytes GoStrings MagicHeader ObfChain Messages Wire Replay Tai64n AllowedIPs Noise ToyCrypto Sessions.

Module Transport.

Import MagicHeader Messages Wire Noise.

Local Open Scope Z_scope.

Definition PaddingMultiple : Z := 16.
Definition DefaultUdpWindow : Z := 500.
Definition MessageTransportOffsetReceiver : Z := 4.
Definition MessageTransportOffsetCounter : Z := 8.
Definition MessageTransportOffsetContent : Z := 16.
Definition headerLen : Z := Z.of_nat MessageTransportHeaderSize.
Definition transportSize : Z := Z.of_nat MessageTransportSize.

(** ** Sending *)

(** [x & ^(PaddingMultiple-1)] after adding [PaddingMultiple-1]. *)
Definition round_up (x : Z) : Z := Z.land (x + PaddingMultiple - 1) (Z.lnot (PaddingMultiple - 1)).

Definition calculatePaddingSize (packetSize mtu : Z) : Z :=
  if mtu =? 0 then round_up packetSize - packetSize
  else
    let lastUnit := if packetSize >? mtu then Z.rem packetSize mtu else packetSize in
    let paddedSize := round_up lastUnit in
    let paddedSize := if paddedSize >? mtu then mtu else paddedSize in
    paddedSize - lastUnit.

(** The peer's [randomTrailer]. *)
Definition randomTrailer (fastrandn : Z -> Z) (trailers : bool) (window packetSize : Z) : Z :=
  if negb trailers then -1
  else
    let udpWindow := Z.min window awgMaxPacketSize in
    if udpWindow <=? packetSize then 0 else fastrandn (u32 (udpWindow - packetSize)).

(** [draw i] is the [i]-th call of [fastrandn]. *)
Definition randomPaddingAddition (draw : nat -> Z -> Z) (addition window packetSize : Z) : Z :=
  if IsZero addition then -1
  else
    let udpWindow := Z.min window awgMaxPacketSize in
    if udpWindow <=? packetSize then 0
    else
      let lo := Lo addition in
      let hi := Hi addition in
      let width := u64 (u64 (hi - lo) + 1) in
      let picked :=
        if width =? 2 ^ 32 then Z.lor (Z.shiftl (draw 0%nat (2 ^ 16)) 16) (draw 1%nat (2 ^ 16))
        else u64 (lo + draw 0%nat (u32 width)) in
      Z.min picked (u64 (udpWindow - packetSize)).

(** An outbound element, with the fields [encryptTransport] reads. *)
Record outboundElem := mkOut {
  out_packet : bytes;
  out_nonce : Z;
  out_send : bytes;
  out_remoteIndex : Z
}.

Record sealedElem := mkSealed {
  sealed_packet : bytes;
  isKeepalive : bool
}.

Section Transport.

Context (chacha20 : list Z -> list Z -> nat -> list Z).
Context (Seal : bytes -> bytes -> bytes -> bytes -> bytes) (Open : bytes -> bytes -> bytes -> bytes -> option bytes).

(** The counter in the last eight bytes. *)
Definition transport_nonce (counter : Z) : bytes := zeros 4 ++ le_bytes 8 counter.

(** Returns the peer's window and the sealed element, or an error ([inl tt]); the
    outer [None] is a panic.  [rand_prefix] gives the bytes of the first
    [rand.Read] and whether it failed. *)
Definition encryptTransport (draw : nat -> Z -> Z) (rand_Int : Z -> Z) (rand_prefix : nat -> bytes * bool)
    (w : wireState) (addition mtu : Z) (window : Z) (elem : outboundElem) : option (Z * (unit + sealedElem)) :=
  let pfx := p_transport w in
  let length := Z.of_nat (length (out_packet elem)) in
  match awgPacketSize pfx length transportSize with
  | None => Some (window, inl tt)
  | Some base =>
      let protected := match hp_key w with Some key => negb (key_is_zero key) | None => false end in
      if protected && (pfx <? HeaderCipherNonceSize) then Some (window, inl tt)
      else
        let window := if window <? u32 base then u32 base else window in
        let padding := randomPaddingAddition draw addition window base in
        let padding := if padding <? 0 then randomTrailer (draw 2%nat) (randomTrailers w) window base else padding in
        let padding := if padding <? 0 then calculatePaddingSize length mtu else padding in
        let padding := Z.min padding (awgMaxPacketSize - base) in
        let wireSize := base + padding in
        if wireSize >? ObfChain.MaxMessageSize then Some (window, inl tt)
        else
          let '(clear, err) := rand_prefix (Z.to_nat pfx) in
          if (err : bool) then Some (window, inl tt)
          else
            mh ← h_transport w;
            type ← Generate rand_Int mh;
            let header := le_bytes 4 type ++ le_bytes 4 (out_remoteIndex elem) ++ le_bytes 8 (out_nonce elem) in
            let plaintext := out_packet elem ++ zeros (Z.to_nat padding) in
            let sealed := Seal (out_send elem) (transport_nonce (out_nonce elem)) plaintext [] in
            header ←
              (if protected then
                 salt ← slice clear 0 HeaderCipherNonceSize;
                 cipher ← HeaderProtectionCipher w salt;
                 Some (xor_stream chacha20 cipher header)
               else Some header);
            Some (window, inr (mkSealed (clear ++ header ++ sealed) (length =? 0)))
  end.

(** ** Receiving *)

(** The transport case of the receive loop: the key pair a core is for. *)
Definition lookupTransport (d : Device) (packet : bytes) (now : Z) : option (option (pid * kid)) :=
  if Z.of_nat (length packet) <? transportSize then Some None
  else
    r ← slice packet MessageTransportOffsetReceiver MessageTransportOffsetCounter;
    receiver ← le_Uint32 r;
    Some (e ← table_Lookup d receiver;
          k ← e_keypair e;
          kp ← keypairs d !! k;
          if created kp + RejectAfterTime <? now then None else Some (e_peer e, k)).

(** The body of [RoutineDecryption]: the counter, and the plaintext or nil. *)
Definition decryptTransport (recvKey packet : bytes) : option (Z * option bytes) :=
  c ← slice packet MessageTransportOffsetCounter MessageTransportOffsetContent;
  content ← slice_from packet MessageTransportOffsetContent;
  counter ← le_Uint64 c;
  Some (counter, Open recvKey (transport_nonce counter) content []).

Inductive outcome :=
| OutFailed
| OutKeepalive
| OutDropped
| OutPacket (packet : bytes).

Definition IPv4HeaderLen : Z := 20.
Definition IPv6HeaderLen : Z := 40.

(** The switch over the IP version; [allowed] is [peer.AllowedPeerSourceIP]. *)
Definition deliver (allowed : AllowedIPs.addr -> option bool) (packet : bytes) : option outcome :=
  let len := Z.of_nat (length packet) in
  b0 ← packet !! 0%nat;
  let version := Z.shiftr b0 4 in
  if version =? 4 then
    if len <? IPv4HeaderLen then Some OutDropped
    else
      f ← slice packet 2 4;
      let length := be_uint f in
      if (length >? len) || (length <? IPv4HeaderLen) then Some OutDropped
      else
        packet ← slice packet 0 length;
        src ← slice packet 12 16;
        ok ← allowed (AllowedIPs.Addr4 src);
        Some (if (ok : bool) then OutPacket packet else OutDropped)
  else if version =? 6 then
    if len <? IPv6HeaderLen then Some OutDropped
    else
      f ← slice packet 4 6;
      let length := be_uint f + IPv6HeaderLen in
      if length >? len then Some OutDropped
      else
        packet ← slice packet 0 length;
        src ← slice packet 8 24;
        ok ← allowed (AllowedIPs.Addr6 src);
        Some (if (ok : bool) then OutPacket packet else OutDropped)
  else Some OutDropped.

(** An inbound element after decryption. *)
Record inboundElem := mkIn {
  in_packet : option bytes;
  in_counter : Z;
  in_keypair : kid;
  in_padding : Z
}.

Definition set_filter (kp : Keypair) (f : Replay.Filter) : Keypair :=
  mkKeypair (sendNonce kp) (send kp) (receive kp) f (isInitiator kp) (created kp) (kp_localIndex kp) (kp_remoteIndex kp).

(** One turn of the loop: the device, the peer's window, the outcome, and
    whether the packet confirmed the next key pair. *)
Definition processInbound (d : Device) (p : pid) (window : Z) (allowed : AllowedIPs.addr -> option bool)
    (elem : inboundElem) : option (Device * Z * outcome * bool) :=
  match in_packet elem with
  | None => Some (d, window, OutFailed, false)
  | Some packet =>
      kp ← keypairs d !! in_keypair elem;
      let '(ok, f) := Replay.ValidateCounter (replayFilter kp) (in_counter elem) RejectAfterMessages in
      let d := set_keypairs d (<[in_keypair elem := set_filter kp f]> (keypairs d)) in
      if negb ok then Some (d, window, OutFailed, false)
      else
        '(d, confirmed) ← ReceivedWithKeypair d p (in_keypair elem);
        let size := u32 (in_padding elem + transportSize + Z.of_nat (length packet)) in
        let window := if window <? size then size else window in
        match packet with
        | [] => Some (d, window, OutKeepalive, confirmed)
        | b0 :: _ =>
            if b0 =? 0 then Some (d, window, OutKeepalive, confirmed)
            else o ← deliver allowed packet; Some (d, window, o, confirmed)
        end
  end.

(** What the loop over a container leaves. *)
Record inboundResult := mkResult {
  res_device : Device;
  res_window : Z;
  rxBytesLen : Z;
  validTailPacket : option nat;
  dataPacketReceived : bool;
  confirmations : nat;
  scratch : list bytes
}.

Definition valid_outcome (o : outcome) : bool := match o with OutFailed => false | _ => true end.
Definition data_outcome (o : outcome) : bool := match o with OutDropped | OutPacket _ => true | _ => false end.

Fixpoint process_elems (p : pid) (allowed : AllowedIPs.addr -> option bool) (i : nat) (elems : list inboundElem)
    (r : inboundResult) : option inboundResult :=
  match elems with
  | [] => Some r
  | elem :: elems' =>
      '(d, window, o, confirmed) ← processInbound (res_device r) p (res_window r) allowed elem;
      let r' :=
        mkResult d window
          (if valid_outcome o then u64 (rxBytesLen r + Z.of_nat (length (default [] (in_packet elem))) + MinMessageSize)
           else rxBytesLen r)
          (if valid_outcome o then Some i else validTailPacket r)
          (dataPacketReceived r || data_outcome o)
          (if (confirmed : bool) then S (confirmations r) else confirmations r)
          (match o with OutPacket packet => scratch r ++ [packet] | _ => scratch r end) in
      process_elems p allowed (S i) elems' r'
  end.

Definition processInboundContainer (d : Device) (p : pid) (window : Z) (allowed : AllowedIPs.addr -> option bool)
    (elems : list inboundElem) : option inboundResult :=
  process_elems p allowed 0 elems (mkResult d window 0 None false 0 []).

(** ** Specification *)

(** A well-formed IP packet of exactly its stated length, with its source. *)
Definition ip_packet (pkt : bytes) (src : AllowedIPs.addr) : Prop :=
  let len := Z.of_nat (length pkt) in
  (exists b0, pkt !! 0%nat = Some b0 /\ Z.shiftr b0 4 = 4 /\ 20 <= len /\ be_uint (take 2 (drop 2 pkt)) = len /\
     src = AllowedIPs.Addr4 (take 4 (drop 12 pkt))) \/
  (exists b0, pkt !! 0%nat = Some b0 /\ Z.shiftr b0 4 = 6 /\ 40 <= len /\ be_uint (take 2 (drop 4 pkt)) + 40 = len /\
     src = AllowedIPs.Addr6 (take 16 (drop 8 pkt))).

(** [indexTable.Lookup(receiver).keypair != nil] *)
Definition live_index (d : Device) (receiver : Z) : bool :=
  match table_Lookup d receiver with Some e => bool_decide (e_keypair e <> None) | None => false end.

(** [fastrandn], one function per call. *)
Definition draw_ok (draw : nat -> Z -> Z) : Prop := forall i, fastrandn_ok (draw i).

(** ** Lemmas: sizes *)

Lemma round_up_spec x : round_up x = 16 * ((x + 15) / 16).
Proof.
  unfold round_up, PaddingMultiple. replace (x + 16 - 1) with (x + 15) by lia. change (16 - 1) with (Z.ones 4).
  rewrite <- Z.ldiff_land, Z.ldiff_ones_r, Z.shiftl_mul_pow2, Z.shiftr_div_pow2 by lia. change (2 ^ 4) with 16. lia.
Qed.

Lemma round_up_bounds x : x <= round_up x <= x + 15 /\ round_up x mod 16 = 0.
Proof.
  rewrite round_up_spec. pose proof (Z.div_mod (x + 15) 16 ltac:(lia)). pose proof (Z.mod_pos_bound (x + 15) 16 ltac:(lia)).
  split; [lia|]. rewrite Z.mul_comm. apply Z_mod_mult.
Qed.

(** Padding fills up to a multiple of 16, or to the MTU. *)
Lemma calculatePaddingSize_bounds size mtu :
  0 <= size -> 0 <= mtu ->
  0 <= calculatePaddingSize size mtu <= 15 /\
  (0 < mtu -> size <= mtu -> size + calculatePaddingSize size mtu <= mtu /\
     ((size + calculatePaddingSize size mtu) mod 16 = 0 \/ size + calculatePaddingSize size mtu = mtu)).
Proof.
  intros Hs Hm. unfold calculatePaddingSize. rewrite !Z.gtb_ltb.
  pose proof (round_up_bounds size). destruct (Z.eqb_spec mtu 0) as [-> |Hne]; [lia|].
  destruct (Z.ltb_spec mtu size).
  - rewrite Z.rem_mod_nonneg by lia. pose proof (Z.mod_pos_bound size mtu ltac:(lia)).
    pose proof (round_up_bounds (size mod mtu)). destruct (Z.ltb_spec mtu (round_up (size mod mtu))); lia.
  - destruct (Z.ltb_spec mtu (round_up size)); split; try lia. intros _ _. split; [lia|]. left.
    replace (size + (round_up size - size)) with (round_up size) by lia. tauto.
Qed.

Lemma fastrandn_nonneg f n : fastrandn_ok f -> is_u32 n -> 0 <= f n.
Proof.
  intros [H0 Hf] Hn. destruct (decide (n = 0)) as [-> |]; [lia|]. unfold is_u in Hn. apply (Hf n). lia.
Qed.

Lemma randomPaddingAddition_range draw r window size :
  draw_ok draw -> -1 <= randomPaddingAddition draw r window size.
Proof.
  intros Hd. unfold randomPaddingAddition. destruct (IsZero r); [lia|]. destruct (_ <=? _); [lia|].
  apply Z.min_glb; [|transitivity 0; [lia | apply u64_is_u64]]. destruct (_ =? _).
  - transitivity 0; [lia|]. apply Z.lor_nonneg. split; [apply Z.shiftl_nonneg|]; apply fastrandn_nonneg; [apply Hd | by_eval | apply Hd | by_eval].
  - transitivity 0; [lia | apply u64_is_u64].
Qed.

Lemma randomTrailer_range f b window size : fastrandn_ok f -> -1 <= randomTrailer f b window size.
Proof.
  intros Hf. unfold randomTrailer. destruct (negb b); [lia|]. destruct (_ <=? _); [lia|].
  transitivity 0; [lia|]. apply fastrandn_nonneg; [done | apply u32_is_u32].
Qed.

(** The padding the sender adds fits the datagram. *)
Lemma padding_range draw w addition mtu window size base :
  draw_ok draw -> 0 <= size -> 0 <= mtu -> base <= awgMaxPacketSize ->
  let p1 := randomPaddingAddition draw addition window base in
  let p2 := if p1 <? 0 then randomTrailer (draw 2%nat) (randomTrailers w) window base else p1 in
  let p3 := if p2 <? 0 then calculatePaddingSize size mtu else p2 in
  0 <= Z.min p3 (awgMaxPacketSize - base) <= awgMaxPacketSize - base.
Proof.
  intros Hd Hs Hm Hb p1 p2 p3. pose proof (proj1 (calculatePaddingSize_bounds size mtu Hs Hm)).
  assert (0 <= p3) by (unfold p3; destruct (Z.ltb_spec p2 0); lia). lia.
Qed.

Section EndToEnd.

Context (Hcc : chacha20_ok chacha20).
Hypothesis open_seal : forall key nonce plain ad, Open key nonce (Seal key nonce plain ad) ad = Some plain.
Hypothesis seal_length : forall key nonce plain ad, length (Seal key nonce plain ad) = (length plain + 16)%nat.
Context (w : wireState) (Hpads : paddings_ok w) (Hheads : headers_ok w).
Context (draw : nat -> Z -> Z) (rand_Int : Z -> Z) (rand_prefix : nat -> bytes * bool).
Context (Hdraw : draw_ok draw) (Hri : rand_Int_ok rand_Int).
Context (Hrp : forall n, length (fst (rand_prefix n)) = n /\ snd (rand_prefix n) = false).

(** Sealing succeeds; the packet is the clear prefix, the masked header and the
    sealed content with its padding. *)
Lemma encrypt_shape addition mtu window elem :
  0 <= mtu -> p_transport w + Z.of_nat (length (out_packet elem)) + 32 <= awgMaxPacketSize ->
  exists window' type (pad : nat),
    let clear := fst (rand_prefix (Z.to_nat (p_transport w))) in
    let hdr := le_bytes 4 type ++ le_bytes 4 (out_remoteIndex elem) ++ le_bytes 8 (out_nonce elem) in
    let body := Seal (out_send elem) (transport_nonce (out_nonce elem)) (out_packet elem ++ zeros pad) [] in
    let wire := clear ++ xor_bytes hdr (mask chacha20 w clear 16) ++ body in
    encryptTransport draw rand_Int rand_prefix w addition mtu window elem =
      Some (window', inr (mkSealed wire (Z.of_nat (length (out_packet elem)) =? 0))) /\
    Z.of_nat (length wire) <= awgMaxPacketSize /\ window <= window' /\
    header_matches (h_transport w) type = true /\ is_u32 type.
Proof.
  intros Hmtu Hfit. destruct (Hpads 4) as (Hp & _ & Hprot); [unfold is_type; lia|]. cbn in Hp, Hprot.
  destruct Hheads as [Hh _]. destruct (Hh 4) as (mh & Hmh & Hwf & Hnf); [unfold is_type; lia|]. cbn in Hmh.
  destruct (Generate_valid rand_Int mh Hri Hwf Hnf) as (type & Hg & Hv).
  unfold encryptTransport. set (len := Z.of_nat (length (out_packet elem))) in *. change transportSize with 32.
  rewrite awgPacketSize_some by lia. set (base := p_transport w + len + 32) in *.
  change (match hp_key w with Some key => negb (key_is_zero key) | None => false end) with (protected w).
  assert (protected w && (p_transport w <? HeaderCipherNonceSize) = false) as ->.
  { destruct (protected w); [|done]. by apply Z.ltb_ge, Hprot. }
  set (window' := if window <? u32 base then u32 base else window).
  pose proof (padding_range draw w addition mtu window' len base Hdraw ltac:(lia) Hmtu ltac:(lia)) as Hpad. cbv zeta in Hpad.
  set (padding := Z.min _ (awgMaxPacketSize - base)) in *.
  assert (Hmax : awgMaxPacketSize = 65507) by reflexivity.
  rewrite Z.gtb_ltb, (proj2 (Z.ltb_ge _ _)) by (change ObfChain.MaxMessageSize with 65535; lia).
  destruct (Hrp (Z.to_nat (p_transport w))) as [Hlc Herr].
  destruct (rand_prefix (Z.to_nat (p_transport w))) as [clear err]. cbn [fst snd] in *. subst err.
  rewrite Hmh. cbn [mbind option_bind]. rewrite Hg. cbn [mbind option_bind].
  exists window', type, (Z.to_nat padding). split_and!.
  - assert (Hl16 : length (le_bytes 4 type ++ le_bytes 4 (out_remoteIndex elem) ++ le_bytes 8 (out_nonce elem)) = 16%nat)
      by (by rewrite !length_app, !le_bytes_length).
    set (hdr := le_bytes 4 type ++ _) in *. unfold mask, protected, HeaderProtectionCipher in *.
    destruct (hp_key w) as [k|]; [|by rewrite xor_bytes_zeros_r]. destruct (key_is_zero k); cbn [negb]; [by rewrite xor_bytes_zeros_r|].
    specialize (Hprot eq_refl). unfold HeaderCipherNonceSize in *. rewrite slice_some by lia. cbn [mbind option_bind].
    unfold xor_stream. cbn [fst snd default from_option id]. by rewrite Hl16.
  - rewrite !length_app, xor_bytes_length, seal_length, !length_app, !le_bytes_length.
    + unfold zeros. rewrite repeat_length. lia.
    + by rewrite !length_app, !le_bytes_length, mask_length.
  - unfold window'. destruct (Z.ltb_spec window (u32 base)); lia.
  - exact Hv.
  - unfold Validate in Hv. rewrite andb_true_iff, !Z.leb_le in Hv. unfold wf_header in Hwf. unfold is_u. lia.
Qed.

(** The header's fields, as the receiver reads them. *)
Lemma lookup_eq d type idx nonce body now p k kp :
  is_u32 idx -> (16 <= length body)%nat ->
  table_Lookup d idx = Some (mkEntry p false (Some k)) -> keypairs d !! k = Some kp -> now <= created kp + RejectAfterTime ->
  lookupTransport d ((le_bytes 4 type ++ le_bytes 4 idx ++ le_bytes 8 nonce) ++ body) now = Some (Some (p, k)).
Proof.
  intros Hi Hb Ht Hk Hnow. unfold lookupTransport. change transportSize with 32.
  rewrite (proj2 (Z.ltb_ge _ _)) by (rewrite !length_app, !le_bytes_length; lia).
  rewrite (slice_seam _ (le_bytes 4 type) (le_bytes 4 idx) (le_bytes 8 nonce ++ body)); [|by rewrite <- !app_assoc | by rewrite le_bytes_length | by rewrite le_bytes_length].
  cbn [mbind option_bind]. rewrite <- (app_nil_r (le_bytes 4 idx)), le_Uint32_bytes by done. cbn [mbind option_bind].
  rewrite Ht. cbn [mbind option_bind e_keypair]. rewrite Hk. cbn [mbind option_bind e_peer].
  by rewrite (proj2 (Z.ltb_ge _ _)).
Qed.

Lemma decrypt_eq key type idx nonce plain :
  is_u64 nonce ->
  decryptTransport key ((le_bytes 4 type ++ le_bytes 4 idx ++ le_bytes 8 nonce) ++ Seal key (transport_nonce nonce) plain [])
  = Some (nonce, Some plain).
Proof.
  intros Hn. unfold decryptTransport. set (body := Seal _ _ _ _).
  rewrite (slice_seam _ (le_bytes 4 type ++ le_bytes 4 idx) (le_bytes 8 nonce) body);
    [|by rewrite <- !app_assoc | by rewrite length_app, !le_bytes_length | by rewrite le_bytes_length].
  cbn [mbind option_bind].
  rewrite (slice_from_seam _ (le_bytes 4 type ++ le_bytes 4 idx ++ le_bytes 8 nonce) body); [|done | by rewrite !length_app, !le_bytes_length].
  cbn [mbind option_bind]. rewrite <- (app_nil_r (le_bytes 8 nonce)), le_Uint64_bytes by done. cbn [mbind option_bind].
  unfold body. by rewrite open_seal.
Qed.

End EndToEnd.

End Transport.

(** ** Lemmas: delivery *)

(** The length in the IP header cuts the padding off. *)
Lemma deliver_padded allowed pkt src pad :
  ip_packet pkt src -> allowed src = Some true -> deliver allowed (pkt ++ zeros pad) = Some (OutPacket pkt).
Proof.
  intros Hip Hok. unfold deliver.
  assert (Hsub : forall lo n, 0 <= lo -> 0 <= n -> lo + n <= Z.of_nat (length pkt) ->
    slice (pkt ++ zeros pad) lo (lo + n) = Some (take (Z.to_nat n) (drop (Z.to_nat lo) pkt)) /\
    slice pkt lo (lo + n) = Some (take (Z.to_nat n) (drop (Z.to_nat lo) pkt))).
  { intros lo n H1 H2 H3. rewrite !slice_some by (rewrite ?length_app; lia). replace (lo + n - lo) with n by lia.
    rewrite drop_app_le, take_app_le by (rewrite ?length_drop; lia). done. }
  assert (Hall : slice (pkt ++ zeros pad) 0 (Z.of_nat (length pkt)) = Some pkt)
    by (by apply (slice_seam _ [] pkt (zeros pad))).
  assert (Hlen : Z.of_nat (length pkt) <= Z.of_nat (length (pkt ++ zeros pad))) by (rewrite length_app; lia).
  destruct Hip as [(b0 & H0 & Hv & H20 & Htot & ->) | (b0 & H0 & Hv & H40 & Htot & ->)].
  all: rewrite (lookup_app_l_Some _ _ _ _ H0); cbn [mbind option_bind]; rewrite Hv; unfold IPv4HeaderLen, IPv6HeaderLen.
  - change (4 =? 4) with true. cbv iota. rewrite (proj2 (Z.ltb_ge _ _)) by lia. change (slice (pkt ++ zeros pad) 2 4) with (slice (pkt ++ zeros pad) 2 (2 + 2)).
    rewrite (proj1 (Hsub 2 2 ltac:(lia) ltac:(lia) ltac:(lia))). cbn [mbind option_bind].
    change (Z.to_nat 2) with 2%nat. rewrite Htot, Z.gtb_ltb, !(proj2 (Z.ltb_ge _ _)) by lia. cbn [orb].
    rewrite Hall. cbn [mbind option_bind]. change (slice pkt 12 16) with (slice pkt 12 (12 + 4)).
    rewrite (proj2 (Hsub 12 4 ltac:(lia) ltac:(lia) ltac:(lia))). cbn [mbind option_bind].
    change (Z.to_nat 4) with 4%nat. change (Z.to_nat 12) with 12%nat. by rewrite Hok.
  - change (6 =? 4) with false. change (6 =? 6) with true. cbv iota.
    rewrite (proj2 (Z.ltb_ge _ _)) by lia. change (slice (pkt ++ zeros pad) 4 6) with (slice (pkt ++ zeros pad) 4 (4 + 2)).
    rewrite (proj1 (Hsub 4 2 ltac:(lia) ltac:(lia) ltac:(lia))). cbn [mbind option_bind].
    change (Z.to_nat 2) with 2%nat. change (Z.to_nat 4) with 4%nat. rewrite Htot, Z.gtb_ltb, (proj2 (Z.ltb_ge _ _)) by lia.
    rewrite Hall. cbn [mbind option_bind]. change (slice pkt 8 24) with (slice pkt 8 (8 + 16)).
    rewrite (proj2 (Hsub 8 16 ltac:(lia) ltac:(lia) ltac:(lia))). cbn [mbind option_bind].
    change (Z.to_nat 8) with 8%nat. change (Z.to_nat 16) with 16%nat. by rewrite Hok.
Qed.

(** Whatever is delivered is an IP packet of its stated length, from a source
    the peer may use, and the rest of the plaintext follows it. *)
Lemma deliver_sound allowed (plain out : bytes) :
  Forall is_u8 plain -> deliver allowed plain = Some (OutPacket out) ->
  exists src, ip_packet out src /\ allowed src = Some true /\ out `prefix_of` plain.
Proof.
  intros Hu8. unfold deliver, IPv4HeaderLen, IPv6HeaderLen. cbv zeta.
  destruct (plain !! 0%nat) as [b0|] eqn:H0; [|done]. cbn [mbind option_bind].
  assert (Hcut : forall n pkt, slice plain 0 n = Some pkt -> pkt = take (Z.to_nat n) plain /\ Z.of_nat (length pkt) = n).
  { intros n pkt H. pose proof (slice_length _ _ _ _ H). apply slice_inv in H as (_ & _ & ->).
    rewrite Z.sub_0_r in *. cbn. rewrite drop_0 in *. split; [done | lia]. }
  assert (Hfield : forall n off m, (off + m <= n)%nat -> take m (drop off (take n plain)) = take m (drop off plain)).
  { intros n off m Hle. rewrite skipn_firstn_comm, take_take. f_equal. lia. }
  destruct (Z.eqb_spec (Z.shiftr b0 4) 4) as [Hv|_].
  - destruct (_ <? _); [done|]. destruct (slice plain 2 4) as [f|] eqn:Hf; [|done]. cbn [mbind option_bind].
    rewrite Z.gtb_ltb. destruct (Z.ltb_spec (Z.of_nat (length plain)) (be_uint f)); [done|].
    destruct (Z.ltb_spec (be_uint f) 20); [done|]. cbn [orb].
    destruct (slice plain 0 (be_uint f)) as [pkt|] eqn:Hp; [|done]. cbn [mbind option_bind].
    destruct (slice pkt 12 16) as [src|] eqn:Hs; [|done]. cbn [mbind option_bind].
    destruct (allowed (AllowedIPs.Addr4 src)) as [[]|] eqn:Ha; [|done..]. cbn. intros [= <-].
    apply Hcut in Hp as [-> Hl]. apply slice_inv in Hf as (_ & _ & ->), Hs as (_ & _ & ->).
    exists (AllowedIPs.Addr4 (take 4 (drop 12 (take (Z.to_nat (be_uint (take 2 (drop 2 plain)))) plain)))).
    change (take (Z.to_nat (4 - 2)) (drop (Z.to_nat 2) plain)) with (take 2 (drop 2 plain)) in *.
    change (take (Z.to_nat (16 - 12)) (drop (Z.to_nat 12) ?x)) with (take 4 (drop 12 x)) in Ha.
    split; [|split; [done | apply prefix_take]]. left. exists b0. rewrite lookup_take_lt by lia.
    rewrite Hfield by lia. split_and!; try done; lia.
  - destruct (Z.eqb_spec (Z.shiftr b0 4) 6) as [Hv|_]; [|done].
    destruct (_ <? _); [done|]. destruct (slice plain 4 6) as [f|] eqn:Hf; [|done]. cbn [mbind option_bind].
    pose proof (slice_u8 _ _ _ _ Hu8 Hf) as Hfu. pose proof (be_uint_range f Hfu) as Hfr.
    rewrite Z.gtb_ltb. destruct (Z.ltb_spec (Z.of_nat (length plain)) (be_uint f + 40)); [done|].
    destruct (slice plain 0 (be_uint f + 40)) as [pkt|] eqn:Hp; [|done]. cbn [mbind option_bind].
    destruct (slice pkt 8 24) as [src|] eqn:Hs; [|done]. cbn [mbind option_bind].
    destruct (allowed (AllowedIPs.Addr6 src)) as [[]|] eqn:Ha; [|done..]. cbn. intros [= <-].
    apply Hcut in Hp as [-> Hl]. apply slice_inv in Hf as (_ & _ & ->), Hs as (_ & _ & ->).
    change (take (Z.to_nat (6 - 4)) (drop (Z.to_nat 4) plain)) with (take 2 (drop 4 plain)) in *.
    eexists. split; [|split; [exact Ha | apply prefix_take]]. right. exists b0. rewrite lookup_take_lt by lia.
    rewrite Hfield by lia. split_and!; try done; lia.
Qed.
Lemma processInbound_fresh d p window allowed pr k kp counter f plain pad :
  keypairs d !! k = Some kp -> peers d !! p = Some pr ->
  Replay.ValidateCounter (replayFilter kp) counter RejectAfterMessages = (true, f) ->
  exists d' window' confirmed,
    ReceivedWithKeypair (set_keypairs d (<[k := set_filter kp f]> (keypairs d))) p k = Some (d', confirmed) /\
    processInbound d p window allowed (mkIn (Some plain) counter k pad) =
      match plain with
      | [] => Some (d', window', OutKeepalive, confirmed)
      | b0 :: _ => if b0 =? 0 then Some (d', window', OutKeepalive, confirmed)
                   else o ← deliver allowed plain; Some (d', window', o, confirmed)
      end.
Proof.
  intros Hk Hp Hv. unfold processInbound. cbn [in_packet in_keypair in_counter]. rewrite Hk. cbn [mbind option_bind]. rewrite Hv.
  cbn [negb]. destruct (ReceivedWithKeypair _ p k) as [[d' c]|] eqn:Hr.
  - eexists d', _, c. split; [done|]. cbn [mbind option_bind]. done.
  - unfold ReceivedWithKeypair in Hr. cbn [peers set_keypairs] in Hr. rewrite Hp in Hr. cbn [mbind option_bind] in Hr.
    by destruct (bool_decide _).
Qed.

(** ** Which counters get through *)

(** The key pairs and counters of the elements that pass, over any sequence of
    elements (of one or many containers). *)
Fixpoint accepted (p : pid) (allowed : AllowedIPs.addr -> option bool) (d : Device) (window : Z)
    (elems : list inboundElem) : list (kid * Z) :=
  match elems with
  | [] => []
  | elem :: elems' =>
      match processInbound d p window allowed elem with
      | None => []
      | Some (d', window', o, _) =>
          (if valid_outcome o then [(in_keypair elem, in_counter elem)] else []) ++ accepted p allowed d' window' elems'
      end
  end.

(** The filter of a key pair has seen the counters [h]. *)
Definition seen (d : Device) (k : kid) (h : list Z) : Prop :=
  exists kp, keypairs d !! k = Some kp /\ Replay.tracks (replayFilter kp) h.

Lemma ReceivedWithKeypair_filters d p k d' b : ReceivedWithKeypair d p k = Some (d', b) -> keypairs d' = keypairs d.
Proof.
  unfold ReceivedWithKeypair. destruct (peers d !! p) as [pr|]; [|done]. red_bind.
  destruct (bool_decide _); intros [= <- <-]; [|done]. cbn. apply Sessions.DeleteKeypair_keypairs.
Qed.

(** An element advances the history of its own key pair and of no other. *)
Lemma processInbound_seen d p window allowed elem d' window' o c k h :
  processInbound d p window allowed elem = Some (d', window', o, c) -> is_u64 (in_counter elem) -> seen d k h ->
  (valid_outcome o = true -> in_keypair elem = k -> in_counter elem ∉ h) /\
  seen d' k (if valid_outcome o && bool_decide (in_keypair elem = k) then in_counter elem :: h else h).
Proof.
  intros Hpr Hc (kp & Hk & Ht). unfold processInbound in Hpr. destruct (in_packet elem) as [packet|].
  2: { injection Hpr as <- <- <- <-. split; [done|]. by exists kp. }
  destruct (keypairs d !! in_keypair elem) as [kp0|] eqn:Hk0; [|done]. red_bind.
  destruct (Replay.ValidateCounter _ _ _) as [ok f] eqn:Hv.
  set (d1 := set_keypairs d _) in Hpr.
  assert (Hseen : seen d1 k (if ok && bool_decide (in_keypair elem = k) then in_counter elem :: h else h) /\
                  (ok = true -> in_keypair elem = k -> in_counter elem ∉ h)).
  { destruct (decide (in_keypair elem = k)) as [<- |Hne].
    - rewrite Hk in Hk0. injection Hk0 as <-.
      pose proof (Replay.validate_simulates _ h (in_counter elem) RejectAfterMessages Ht Hc ltac:(by_eval)) as Hsim.
      rewrite Hv in Hsim. destruct (Replay.spec_validate h _ _) as [ok' h'] eqn:Hs. destruct Hsim as [<- Ht'].
      rewrite bool_decide_eq_true_2, andb_true_r by done. apply Replay.spec_validate_passed in Hs as [-> Hnew].
      split; [|by intros Hok _; apply Hnew]. eexists. split; [unfold d1; cbn; by rewrite lookup_insert_eq | done].
    - rewrite bool_decide_eq_false_2, andb_false_r by done. split; [|done].
      exists kp. unfold d1. cbn. by rewrite lookup_insert_ne. }
  destruct Hseen as [Hseen Hfresh]. destruct ok; cbn [negb] in Hpr.
  2: { injection Hpr as <- <- <- <-. done. }
  destruct (ReceivedWithKeypair d1 p _) as [[d2 c2]|] eqn:Hr; [|done]. red_bind.
  apply ReceivedWithKeypair_filters in Hr.
  assert (Hd2 : forall h', seen d1 k h' -> seen d2 k h') by (intros h' (kp' & Hkp' & ?); exists kp'; by rewrite Hr).
  assert (d' = d2 /\ valid_outcome o = true) as [-> ->].
  { destruct packet as [|b0 rest]; [by simplify_eq|]. destruct (b0 =? 0); [by simplify_eq|].
    destruct (deliver allowed (b0 :: rest)) as [o'|] eqn:Hdel; [|done]. red_bind. simplify_eq. split; [done|].
    destruct o; try done. exfalso. revert Hdel. unfold deliver. repeat (case_match || bind_case || cbn); try done. }
  split; [by apply Hfresh | by apply Hd2].
Qed.

Lemma accepted_seen p allowed k : forall elems d window h,
  Forall (fun e => is_u64 (in_counter e)) elems -> seen d k h ->
  forall c, (k, c) ∈ accepted p allowed d window elems -> c ∉ h.
Proof.
  induction elems as [|e elems IH]; intros d window h Hu Hs c; cbn; [by intros ?%elem_of_nil|].
  apply Forall_cons_iff in Hu as [He Hu].
  destruct (processInbound d p window allowed e) as [[[[d' w'] o] b]|] eqn:Hp; [|by intros ?%elem_of_nil].
  destruct (processInbound_seen _ _ _ _ _ _ _ _ _ k h Hp He Hs) as [Hnew Hs'].
  rewrite elem_of_app. intros [Hin|Hin].
  - destruct (valid_outcome o); [|by apply elem_of_nil in Hin]. apply list_elem_of_singleton in Hin as [= -> ->]. by apply Hnew.
  - pose proof (IH _ _ _ Hu Hs' c Hin) as Hc. destruct (valid_outcome o && _); [|done]. set_solver.
Qed.

Lemma accepted_nodup p allowed k : forall elems d window h,
  Forall (fun e => is_u64 (in_counter e)) elems -> seen d k h ->
  NoDup (filter (fun x => fst x = k) (accepted p allowed d window elems)).
Proof.
  induction elems as [|e elems IH]; intros d window h Hu Hs; cbn; [constructor|].
  apply Forall_cons_iff in Hu as [He Hu].
  destruct (processInbound d p window allowed e) as [[[[d' w'] o] b]|] eqn:Hp; [|constructor].
  destruct (processInbound_seen _ _ _ _ _ _ _ _ _ k h Hp He Hs) as [Hnew Hs'].
  destruct (valid_outcome o); [|by eapply IH]. cbn [app]. rewrite filter_cons. cbn [fst].
  destruct (decide (in_keypair e = k)) as [Hk|Hk]; [|by eapply IH]. rewrite bool_decide_eq_true_2 in Hs' by done. cbn [andb] in Hs'.
  constructor; [|by eapply IH]. rewrite list_elem_of_filter. intros [_ Hin]. rewrite Hk in Hin.
  apply (accepted_seen p allowed k elems d' w' _ Hu Hs' _ Hin). by left.
Qed.

(** ** Properties *)

(** C2. Data gets through.  The sender's key pair is the mirror image of one the
    receiver's table knows and that is not older than its life time (180 s), both use
    the same accepted obfuscation settings, and the random source does not fail on the
    padding before the packet.  Then a packet that fits is sealed without an error into a datagram of legal
    size; the receiver classifies the datagram as data, restores the header,
    finds the key pair and opens the content; and if the counter is new, a
    well-formed IP packet from an allowed source is delivered exactly, without
    the padding, and an empty packet is taken as a keepalive. *)
Theorem transport_end_to_end chacha20 Seal Open w draw rand_Int rand_prefix addition mtu window elem d p pr k kp now f allowed windowB :
  chacha20_ok chacha20 ->
  (forall key nonce plain ad, Open key nonce (Seal key nonce plain ad) ad = Some plain) ->
  (forall key nonce plain ad, length (Seal key nonce plain ad) = (length plain + 16)%nat) ->
  wire_ok w -> draw_ok draw -> rand_Int_ok rand_Int ->
  (forall n, length (fst (rand_prefix n)) = n /\ snd (rand_prefix n) = false) ->
  0 <= mtu -> p_transport w + Z.of_nat (length (out_packet elem)) + 32 <= awgMaxPacketSize ->
  is_u32 (out_remoteIndex elem) -> is_u64 (out_nonce elem) ->
  table_Lookup d (out_remoteIndex elem) = Some (mkEntry p false (Some k)) ->
  keypairs d !! k = Some kp -> peers d !! p = Some pr -> receive kp = out_send elem -> now <= created kp + RejectAfterTime ->
  Replay.ValidateCounter (replayFilter kp) (out_nonce elem) RejectAfterMessages = (true, f) ->
  (out_packet elem = [] \/ exists src, ip_packet (out_packet elem) src /\ allowed src = Some true) ->
  exists window' wire core plain d' windowB' confirmed,
    encryptTransport chacha20 Seal draw rand_Int rand_prefix w addition mtu window elem =
      Some (window', inr (mkSealed wire (Z.of_nat (length (out_packet elem)) =? 0))) /\
    Z.of_nat (length wire) <= awgMaxPacketSize /\
    prepareReceivedPacket chacha20 (live_index d) w wire = Some (core, MessageTransportType, p_transport w) /\
    lookupTransport d core now = Some (Some (p, k)) /\
    decryptTransport Open (receive kp) core = Some (out_nonce elem, Some plain) /\
    processInbound d p windowB allowed (mkIn (Some plain) (out_nonce elem) k (p_transport w)) =
      Some (d', windowB', match out_packet elem with [] => OutKeepalive | pkt => OutPacket pkt end, confirmed).
Proof.
  intros Hcc Hos Hsl [Hpads Hheads] Hd Hri Hrp Hmtu Hfit Hidx Hn Ht Hk Hp Hrecv Hnow Hval Hpkt.
  destruct (encrypt_shape chacha20 Seal Hcc Hsl w Hpads Hheads draw rand_Int rand_prefix Hd Hri Hrp
              addition mtu window elem Hmtu Hfit) as (window' & type & pad & Henc & Hmax & _ & Hmatch & Htype).
  set (clear := fst (rand_prefix _)) in *. set (plain := out_packet elem ++ zeros pad) in *.
  set (body := Seal _ _ plain []) in *.
  assert (Hclear : Z.of_nat (length clear) = p_transport w).
  { destruct (Hpads 4) as (Hp0 & _); [unfold is_type; lia|]. cbn in Hp0. unfold clear. rewrite (proj1 (Hrp _)). lia. }
  assert (Hlive : live_index d (out_remoteIndex elem) = true) by (unfold live_index; by rewrite Ht).
  assert (Hbody : (16 <= length body)%nat) by (unfold body; rewrite Hsl; lia).
  pose proof (prepare_data chacha20 (live_index d) Hcc w clear type (out_remoteIndex elem) (le_bytes 8 (out_nonce elem)) body
    Htype Hidx (le_bytes_length 8 _) Hpads Hclear Hmatch Hlive Hbody Hmax) as Hprep.
  destruct (processInbound_fresh d p windowB allowed pr k kp (out_nonce elem) f plain (p_transport w) Hk Hp Hval)
    as (d' & windowB' & confirmed & _ & Hproc).
  eexists window', _, _, plain, d', windowB', confirmed. split_and!; [exact Henc | exact Hmax | exact Hprep | | |].
  - by apply (lookup_eq d type _ _ body now p k kp).
  - rewrite Hrecv. by apply decrypt_eq.
  - rewrite Hproc. unfold plain. destruct Hpkt as [-> | (src & Hip & Hok)].
    + cbn. by destruct pad.
    + pose proof (deliver_padded allowed _ src pad Hip Hok) as Hdel.
      destruct (out_packet elem) as [|b0 rest] eqn:Hpk; [by destruct Hip as [(? & ? & _)|(? & ? & _)]|].
      cbn [app] in *. assert ((b0 =? 0) = false) as ->; [|by rewrite Hdel].
      apply Z.eqb_neq. intros ->. by destruct Hip as [(? & [= <-] & ? & _)|(? & [= <-] & ? & _)].
Qed.

(** C3. What reaches the tunnel is authentic traffic, once.  Over any sequence of
    received elements, no counter of a key pair gets through twice; and whatever
    is delivered is a complete IP packet at the front of the opened content,
    with a source address the sending peer may use. *)
Theorem delivered_once_and_allowed p allowed elems d window k kp :
  Forall (fun e => is_u64 (in_counter e)) elems ->
  keypairs d !! k = Some kp -> replayFilter kp = Replay.Reset Replay.zeroFilter ->
  NoDup (filter (fun x => fst x = k) (accepted p allowed d window elems)) /\
  (forall e plain d1 w1 d2 w2 out c,
     in_packet e = Some plain -> Forall is_u8 plain -> processInbound d1 p w1 allowed e = Some (d2, w2, OutPacket out, c) ->
     exists src, ip_packet out src /\ allowed src = Some true /\ out `prefix_of` plain).
Proof.
  intros Hu Hk Hf. split.
  - apply (accepted_nodup p allowed k elems d window [] Hu). exists kp. split; [done|]. rewrite Hf.
    apply Replay.reset_tracks; [done|]. apply Forall_forall. intros x Hx. apply repeat_spec in Hx as ->. by_eval.
  - intros e plain d1 w1 d2 w2 out c He Hu8. unfold processInbound. rewrite He.
    destruct (keypairs d1 !! _) as [kp1|]; [|done]. red_bind. destruct (Replay.ValidateCounter _ _ _) as [ok f].
    destruct ok; [|done]. cbn [negb]. destruct (ReceivedWithKeypair _ _ _) as [[d3 c3]|]; [|done]. red_bind.
    destruct plain as [|b0 rest]; [done|]. destruct (b0 =? 0); [done|].
    destruct (deliver allowed (b0 :: rest)) as [o|] eqn:Hdel; [|done]. red_bind. intros [= _ _ -> _]. by apply deliver_sound.
Qed.

(** ** Sessions with their traffic

    The operations of [Sessions] and the transport packets that arrive: an
    element holds the peer and the key pair [lookupTransport] found for it,
    [RoutineDecryption] opens it and the peer's receiver processes it.  A key
    pair is confirmed in no other way. *)
Section Confirmation.

Context (blake2s : bytes -> bytes) (hmac : bytes -> bytes -> bytes).
Context (ScalarBaseMult : bytes -> bytes) (ScalarMult : bytes -> bytes -> bytes).
Context (Seal : bytes -> bytes -> bytes -> bytes -> bytes) (Open : bytes -> bytes -> bytes -> bytes -> option bytes).

Inductive traffic :=
| Handle (o : Sessions.op)
| Receive (p : pid) (k : kid) (packet : bytes) (padding window : Z) (allowed : AllowedIPs.addr -> option bool).

Definition traffic_step (d : Device) (t : traffic) : option Device :=
  match t with
  | Handle (Sessions.OpReceivedWith _ _) => None
  | Handle o => Sessions.step blake2s hmac ScalarBaseMult ScalarMult Seal Open d o
  | Receive p k packet padding window allowed =>
      kp ← keypairs d !! k;
      '(counter, plain) ← decryptTransport Open (receive kp) packet;
      '(d', _, _, _) ← processInbound d p window allowed (mkIn plain counter k padding);
      Some d'
  end.

Fixpoint traffic_run (d : Device) (ts : list traffic) : option Device :=
  match ts with
  | [] => Some d
  | t :: ts' => d' ← traffic_step d t; traffic_run d' ts'
  end.

Definition good_traffic (t : traffic) : Prop :=
  match t with Handle o => Sessions.good_op o | Receive _ _ _ _ _ _ => True end.

(** A received packet changes a replay filter and, when it authenticates and its
    counter is fresh, lets its key pair be confirmed. *)
Lemma Receive_step d p k packet padding window allowed d' :
  traffic_step d (Receive p k packet padding window allowed) = Some d' ->
  d' = d \/ exists kp f, keypairs d !! k = Some kp /\
    let d1 := set_keypairs d (<[k := set_filter kp f]> (keypairs d)) in
    d' = d1 \/ exists counter plain b, decryptTransport Open (receive kp) packet = Some (counter, Some plain) /\
      ReceivedWithKeypair d1 p k = Some (d', b).
Proof.
  cbn. intros (kp & Hk & H)%bind_Some. apply bind_Some in H as ([counter plain] & Hdec & H).
  apply bind_Some in H as ([[[d0 w0] o0] c0] & H & [= ->]). unfold processInbound in H. cbn in H.
  destruct plain as [plain|]; [|injection H as <- _ _ _; by left]. rewrite Hk in H. red_bind.
  destruct (Replay.ValidateCounter _ _ _) as [ok f]. right. exists kp, f. split; [done|]. cbv zeta.
  destruct ok; cbn [negb] in H; [|injection H as <- _ _ _; by left].
  right. destruct (ReceivedWithKeypair _ p k) as [[d2 b]|]; [|done]. red_bind. exists counter, plain, b. split; [done|].
  destruct plain as [|b0 rest]; [by simplify_eq|]. destruct (b0 =? 0); [by simplify_eq|].
  destruct (deliver _ _); [|done]. red_bind. by simplify_eq.
Qed.

Lemma filter_index d k kp f k' i :
  keypairs d !! k = Some kp ->
  Sessions.index_of (<[k := set_filter kp f]> (keypairs d)) k' i <-> Sessions.index_of (keypairs d) k' i.
Proof.
  intros Hk. unfold Sessions.index_of. destruct (decide (k = k')) as [<- |Hne]; [|by rewrite lookup_insert_ne].
  by rewrite lookup_insert_eq, Hk.
Qed.

Lemma traffic_ok d t d' : Sessions.table_ok d -> good_traffic t -> traffic_step d t = Some d' -> Sessions.table_ok d'.
Proof.
  intros Hd Hg. destruct t as [o | p k packet padding window allowed].
  - intros H. apply (Sessions.step_ok blake2s hmac ScalarBaseMult ScalarMult Seal Open d o d' Hd Hg). by destruct o.
  - intros [-> | (kp & f & Hk & H)]%Receive_step; [done|]. cbv zeta in H.
    assert (Hd1 : Sessions.table_ok (set_keypairs d (<[k := set_filter kp f]> (keypairs d)))).
    { apply Sessions.table_ok_keypairs; [|done]. intros k' i. by apply filter_index. }
    destruct H as [-> | (? & ? & b & _ & H)]; [done|]. by eapply Sessions.ReceivedWithKeypair_ok.
Qed.

Lemma filter_roles d k kp f :
  keypairs d !! k = Some kp -> Sessions.roles_kept d (set_keypairs d (<[k := set_filter kp f]> (keypairs d))).
Proof.
  intros Hk k' kp' H. cbn. destruct (decide (k = k')) as [<- |Hne].
  - rewrite lookup_insert_eq. simplify_eq. by eexists.
  - rewrite lookup_insert_ne by done. by exists kp'.
Qed.

(** The packet that confirms the key pair [k] of the peer [p]. *)
Definition confirms (d : Device) (t : traffic) (p : pid) (k : kid) : Prop :=
  exists pr kp packet padding window allowed counter plain,
    t = Receive p k packet padding window allowed /\ peers d !! p = Some pr /\ next pr = Some k /\
    keypairs d !! k = Some kp /\ decryptTransport Open (receive kp) packet = Some (counter, Some plain).

(** A step's effect on the sending keys. *)
Lemma traffic_current d t d' :
  traffic_step d t = Some d' -> Sessions.roles_kept d d' /\
  forall p pr' k, peers d' !! p = Some pr' -> current pr' = Some k ->
    (exists pr, peers d !! p = Some pr /\ current pr = Some k) \/ confirms d t p k \/
    exists kp, keypairs d' !! k = Some kp /\ isInitiator kp = true.
Proof.
  destruct t as [o | p k packet padding window allowed].
  - intros H. assert (Hs : Sessions.step blake2s hmac ScalarBaseMult ScalarMult Seal Open d o = Some d') by (by destruct o).
    destruct (Sessions.step_current blake2s hmac ScalarBaseMult ScalarMult Seal Open d o d' Hs) as [Hc Hr].
    split; [done|]. intros p pr' k Hp Hk. destruct (Hc p pr' k Hp Hk) as [H1 | [-> | H1]]; [by left | done | by right; right].
  - intros [-> | (kp & f & Hk & H)]%Receive_step; [split; [apply Sessions.roles_refl | eauto]|]. cbv zeta in H.
    pose proof (filter_roles d k kp f Hk) as Hr. destruct H as [-> | (counter & plain & b & Hdec & H)]; [split; [done | eauto]|].
    unfold ReceivedWithKeypair in H. cbn in H. destruct (peers d !! p) as [pr|] eqn:Hp; [|done]. red_bind.
    case_bool_decide as Hn; injection H as <- _; [|split; [done | eauto]].
    split; [intros k' kp' H'; destruct (Hr k' kp' H') as (kp2 & H2 & E); exists kp2; cbn; by rewrite Sessions.DeleteKeypair_keypairs|].
    intros q qr k'. cbn. rewrite Sessions.DeleteKeypair_peers. cbn.
    intros [[<- <-] | [Hne Hq]]%lookup_insert_Some Hc; [|by left; exists qr]. cbn in Hc. rewrite Hn in Hc. injection Hc as <-.
    right. left. by exists pr, kp, packet, padding, window, allowed, counter, plain.
Qed.

Lemma traffic_snoc d ts t : traffic_run d (ts ++ [t]) = (d' ← traffic_run d ts; traffic_step d' t).
Proof.
  revert d. induction ts as [|u ts IH]; intros d; cbn; [by destruct (traffic_step d t)|].
  destruct (traffic_step d u); [|done]. red_bind. apply IH.
Qed.

Lemma traffic_run_ok ts d d' :
  Sessions.table_ok d -> Forall good_traffic ts -> traffic_run d ts = Some d' -> Sessions.table_ok d'.
Proof.
  revert d. induction ts as [|t ts IH]; intros d Hd Hg; cbn; [by intros [= <-]|].
  apply Forall_cons_iff in Hg as [Ht Hg]. intros (d1 & H & Hr)%bind_Some. eapply IH; [|done..]. by eapply traffic_ok.
Qed.

(** C10. A responder sends on a new key pair only after the initiator proved it
    has the keys.  Take any run of handshake operations and received transport
    packets in which no random index is 0; if a peer's current (sending) key pair was derived as responder,
    then at an earlier point of the run, while that key pair was the peer's
    next one, a packet of the peer arrived that opens under the key pair's
    receiving key. *)
Theorem responder_key_confirmed sk pk ts d p pr k kp :
  Forall good_traffic ts -> traffic_run (Sessions.newDevice sk pk) ts = Some d ->
  peers d !! p = Some pr -> current pr = Some k -> keypairs d !! k = Some kp -> isInitiator kp = false ->
  exists ts1 ts2 d1 pr1 packet padding window allowed counter plain,
    ts = ts1 ++ Receive p k packet padding window allowed :: ts2 /\
    traffic_run (Sessions.newDevice sk pk) ts1 = Some d1 /\ peers d1 !! p = Some pr1 /\ next pr1 = Some k /\
    decryptTransport Open (receive kp) packet = Some (counter, Some plain).
Proof.
  revert d pr kp. induction ts as [|t ts IH] using rev_ind; intros d pr kp Hg Hr Hp Hk Hkp Hi; [by injection Hr as <-|].
  apply Forall_app in Hg as [Hg _]. rewrite traffic_snoc in Hr. apply bind_Some in Hr as (d0 & Hr & Ht).
  destruct (traffic_current d0 t d Ht) as [Hrole Hcur].
  assert (Hback : forall kp0, keypairs d0 !! k = Some kp0 -> isInitiator kp0 = false /\ receive kp0 = receive kp).
  { intros kp0 H0. destruct (Hrole k kp0 H0) as (kp1 & H1 & E1 & E2). simplify_eq. split; congruence. }
  destruct (Hcur p pr k Hp Hk) as [(pr0 & Hp0 & Hk0) | [Hc | (kp' & Hkp' & Hi')]]; [| |congruence].
  - pose proof (traffic_run_ok ts _ d0 (Sessions.newDevice_ok sk pk) Hg Hr) as Hok.
    destruct (Sessions.held_known d0 p pr0 k Hok Hp0 (or_introl Hk0)) as [kp0 Hkp0].
    destruct (Hback kp0 Hkp0) as [Hi0 Hrecv].
    destruct (IH d0 pr0 kp0 Hg Hr Hp0 Hk0 Hkp0 Hi0) as (ts1 & ts2 & d1 & pr1 & pk1 & pad & w & al & c & pl & -> & H).
    rewrite Hrecv in H. exists ts1, (ts2 ++ [t]), d1, pr1, pk1, pad, w, al, c, pl. split; [by rewrite <- app_assoc | done].
  - destruct Hc as (pr0 & kp0 & packet & pad & w & al & c & pl & -> & Hp0 & Hn & Hkp0 & Hdec).
    destruct (Hback kp0 Hkp0) as [_ Hrecv]. rewrite Hrecv in Hdec. exists ts, [], d0, pr0, packet, pad, w, al, c, pl. done.
Qed.

End Confirmation.

(** ** Examples *)

Section Examples.

Import ToyCrypto Sessions.

Definition ex_keypair : Keypair :=
  default (mkKeypair 0 [] [] Replay.zeroFilter true 0 0 0) (keypairs example_device !! 0%nat).
Definition ex_packet : bytes := [69; 0; 0; 20; 0; 0; 0; 0; 64; 17; 0; 0; 10; 0; 0; 1; 10; 0; 0; 2].
Definition ex_elem : outboundElem := mkOut ex_packet 7 (receive ex_keypair) 5.

Lemma transport_end_to_end_witness :
  exists plain d' w' c,
    processInbound example_device 0%nat 500 (fun _ => Some true) (mkIn (Some plain) 7 0%nat 20) =
      Some (d', w', OutPacket ex_packet, c).
Proof.
  destruct (transport_end_to_end ex_chacha20 toy_seal toy_open ex_wire (fun _ _ => 0) (fun _ => 0)
    (fun n => (repeat 3 n, false)) 0 1420 500 ex_elem example_device 0%nat example_peer 0%nat ex_keypair 100
    (snd (Replay.ValidateCounter (replayFilter ex_keypair) 7 RejectAfterMessages)) (fun _ => Some true) 500
    ex_chacha20_ok toy_open_seal toy_seal_length ex_wire_ok)
    as (_ & _ & _ & plain & d' & w' & c & _ & _ & _ & _ & _ & H).
  - intros i. split; [done|]. intros n. lia.
  - intros n. lia.
  - intros n. cbn. split; [apply repeat_length | done].
  - lia.
  - vm_compute. done.
  - by_eval.
  - by_eval.
  - vm_compute. reflexivity.
  - vm_compute. reflexivity.
  - vm_compute. reflexivity.
  - reflexivity.
  - vm_compute. done.
  - vm_compute. reflexivity.
  - right. exists (AllowedIPs.Addr4 [10; 0; 0; 1]). split; [|done]. left. exists 69. vm_compute. done.
  - exists plain, d', w', c. exact H.
Defined.

Lemma delivered_once_and_allowed_witness :
  NoDup (filter (fun x => fst x = 0%nat) (accepted 0%nat (fun _ => Some true) example_device 500
    [mkIn (Some ex_packet) 7 0%nat 20; mkIn (Some ex_packet) 7 0%nat 20; mkIn (Some []) 8 0%nat 20])).
Proof.
  refine (proj1 (delivered_once_and_allowed 0%nat (fun _ => Some true)
    [mkIn (Some ex_packet) 7 0%nat 20; mkIn (Some ex_packet) 7 0%nat 20; mkIn (Some []) 8 0%nat 20]
    example_device 500 0%nat ex_keypair _ _ _)).
  - repeat constructor; by_eval.
  - vm_compute. reflexivity.
  - vm_compute. reflexivity.
Defined.

(** The responder of the example: its session is confirmed by a first keepalive. *)
Definition ex_before : list traffic := map Handle (take 5 example_ops).
Definition ex_unconfirmed : Device :=
  default example_device (traffic_run toy_hash toy_hmac toy_base toy_mult toy_seal toy_open (newDevice sk2 pk2) ex_before).
Definition ex_next : Keypair := default ex_keypair (keypairs ex_unconfirmed !! 0%nat).
Definition ex_keepalive : bytes := [4; 0; 0; 0; 5; 0; 0; 0] ++ le_bytes 8 0 ++ toy_seal (receive ex_next) (transport_nonce 0) [] [].
Definition ex_traffic : list traffic := ex_before ++ [Receive 0%nat 0%nat ex_keepalive 0 500 (fun _ => Some true)].
Definition ex_confirmed : Device :=
  default example_device (traffic_run toy_hash toy_hmac toy_base toy_mult toy_seal toy_open (newDevice sk2 pk2) ex_traffic).

Lemma responder_key_confirmed_witness :
  exists packet padding window allowed, Receive 0%nat 0%nat packet padding window allowed ∈ ex_traffic.
Proof.
  destruct (responder_key_confirmed toy_hash toy_hmac toy_base toy_mult toy_seal toy_open sk2 pk2 ex_traffic ex_confirmed
    0%nat (default example_peer (peers ex_confirmed !! 0%nat)) 0%nat (default ex_keypair (keypairs ex_confirmed !! 0%nat)))
    as (ts1 & ts2 & _ & _ & packet & padding & window & allowed & _ & _ & E & _).
  - repeat constructor; cbn; lia.
  - vm_compute. reflexivity.
  - vm_compute. reflexivity.
  - vm_compute. reflexivity.
  - vm_compute. reflexivity.
  - vm_compute. reflexivity.
  - exists packet, padding, window, allowed. rewrite E. apply elem_of_app. right. by left.
Defined.

End Examples.

End Transport.
