(* ===== verification/Runtime.v ===== *)
(** * The run-time state of a peer: timers, session state, queues, endpoint

    Models submodules/wireguard-go/device: timers.go (everything except the
    expiry functions, which send and are in Engine.v), the session state, the
    endpoint and the byte counters of peer.go, and the staging queue of send.go.
    A timer is its pending deadline; [Mod] and [Del] are [arm] and [disarm].
    [active] is the result of [timersActive] and [now] the clock at the call.
    The channel [outbound] is unbounded here: a full channel only delays the
    sender.  The observer installed by [SetSessionStateFunc] is the list
    [observed] of the states it was called with, newest first. *)

From stdpp Require Import functions.
From S2P Require Import Prelude Noise Cookie Transport.

Module Runtime.

Import Noise.

Local Open Scope Z_scope.

Definition RekeyAfterTime : Z := 120 * Second.
Definition KeepaliveTimeout : Z := 10 * Second.
Definition MaxTimerHandshakes : Z := 90 / 5.
Definition RekeyTimeoutJitterMaxMs : Z := 334.
Definition Millisecond : Z := 1000000.
(** [conn.IdealBatchSize] *)
Definition QueueStagedSize : nat := 128.

Inductive timerId :=
| retransmitHandshake
| sendKeepalive
| newHandshake
| sessionExpired
| zeroKeyMaterial
| persistentKeepalive.

#[export] Instance timerId_eq_dec : EqDecision timerId.
Proof. solve_decision. Defined.

Inductive PeerSessionState :=
| PeerSessionNone
| PeerSessionHandshake
| PeerSessionEstablished
| PeerSessionExpired.

#[export] Instance PeerSessionState_eq_dec : EqDecision PeerSessionState.
Proof. solve_decision. Defined.

(** What the methods of a [conn.Endpoint] return, and whether a source address
    is remembered. *)
Record Endpoint := mkEndpoint {
  DstToString : bytes;
  DstToBytes : bytes;
  DstIP : bytes;
  hasSrc : bool
}.

Definition ClearSrc (e : Endpoint) : Endpoint := mkEndpoint (DstToString e) (DstToBytes e) (DstIP e) false.

(** A packet on its way out: the plaintext, and the nonce and key pair once
    assigned. *)
Record outElem := mkElem {
  el_packet : bytes;
  el_nonce : Z;
  el_keypair : option kid
}.

(** [filled]: what [RoutineEncryption] made of each element (the datagram, or nil
    after an error, and [isKeepalive]). *)
Record container := mkContainer {
  elems : list outElem;
  filled : option (list (option bytes * bool))
}.

(** A received data packet on its way in: the core, its key pair, its sender, and
    the length of the prefix it had. *)
Record inElem := mkInElem {
  ie_core : bytes;
  ie_keypair : kid;
  ie_endpoint : Endpoint;
  ie_padding : Z
}.

Record Timers := mkTimers {
  deadline : timerId -> option Z;
  handshakeAttempts : Z;
  needAnotherKeepalive : bool;
  sentLastMinuteHandshake : bool
}.

Record Session := mkSession {
  ss_current : PeerSessionState;
  sessionExpires : Z;
  observed : list PeerSessionState
}.

Record Queues := mkQueues {
  staged : list container;
  outbound : list container;
  queuedOutboundPackets : Z;
  inbound : list (list inElem)
}.

Record EndpointState := mkEndpointState {
  ep_val : option Endpoint;
  candidates : list Endpoint;
  clearSrcOnTx : bool;
  disableRoaming : bool
}.

Record Runtime := mkRuntime {
  timers : Timers;
  session : Session;
  queues : Queues;
  endpoint : EndpointState;
  lastHandshakeNano : Z;
  cookieGenerator : Cookie.CookieGenerator;
  udpWindow : Z;
  persistentKeepaliveInterval : Z;
  txBytes : Z;
  rxBytes : Z;
  deleteOnIdle : bool
}.

(** ** Field updates *)

Definition set_deadline (t : Timers) (x : timerId -> option Z) : Timers :=
  mkTimers x (handshakeAttempts t) (needAnotherKeepalive t) (sentLastMinuteHandshake t).
Definition set_handshakeAttempts (t : Timers) (x : Z) : Timers :=
  mkTimers (deadline t) x (needAnotherKeepalive t) (sentLastMinuteHandshake t).
Definition set_needAnotherKeepalive (t : Timers) (x : bool) : Timers :=
  mkTimers (deadline t) (handshakeAttempts t) x (sentLastMinuteHandshake t).
Definition set_sentLastMinuteHandshake (t : Timers) (x : bool) : Timers :=
  mkTimers (deadline t) (handshakeAttempts t) (needAnotherKeepalive t) x.

Definition set_staged (q : Queues) (x : list container) : Queues :=
  mkQueues x (outbound q) (queuedOutboundPackets q) (inbound q).
Definition set_outbound (q : Queues) (x : list container) : Queues :=
  mkQueues (staged q) x (queuedOutboundPackets q) (inbound q).
Definition set_queuedOutboundPackets (q : Queues) (x : Z) : Queues :=
  mkQueues (staged q) (outbound q) x (inbound q).
Definition set_inbound (q : Queues) (x : list (list inElem)) : Queues :=
  mkQueues (staged q) (outbound q) (queuedOutboundPackets q) x.

Definition set_ep_val (e : EndpointState) (x : option Endpoint) : EndpointState :=
  mkEndpointState x (candidates e) (clearSrcOnTx e) (disableRoaming e).
Definition set_candidates (e : EndpointState) (x : list Endpoint) : EndpointState :=
  mkEndpointState (ep_val e) x (clearSrcOnTx e) (disableRoaming e).
Definition set_clearSrcOnTx (e : EndpointState) (x : bool) : EndpointState :=
  mkEndpointState (ep_val e) (candidates e) x (disableRoaming e).
Definition set_disableRoaming (e : EndpointState) (x : bool) : EndpointState :=
  mkEndpointState (ep_val e) (candidates e) (clearSrcOnTx e) x.

Definition set_timers (r : Runtime) (x : Timers) : Runtime :=
  mkRuntime x (session r) (queues r) (endpoint r) (lastHandshakeNano r) (cookieGenerator r) (udpWindow r)
    (persistentKeepaliveInterval r) (txBytes r) (rxBytes r) (deleteOnIdle r).
Definition set_session (r : Runtime) (x : Session) : Runtime :=
  mkRuntime (timers r) x (queues r) (endpoint r) (lastHandshakeNano r) (cookieGenerator r) (udpWindow r)
    (persistentKeepaliveInterval r) (txBytes r) (rxBytes r) (deleteOnIdle r).
Definition set_queues (r : Runtime) (x : Queues) : Runtime :=
  mkRuntime (timers r) (session r) x (endpoint r) (lastHandshakeNano r) (cookieGenerator r) (udpWindow r)
    (persistentKeepaliveInterval r) (txBytes r) (rxBytes r) (deleteOnIdle r).
Definition set_endpoint (r : Runtime) (x : EndpointState) : Runtime :=
  mkRuntime (timers r) (session r) (queues r) x (lastHandshakeNano r) (cookieGenerator r) (udpWindow r)
    (persistentKeepaliveInterval r) (txBytes r) (rxBytes r) (deleteOnIdle r).
Definition set_lastHandshakeNano (r : Runtime) (x : Z) : Runtime :=
  mkRuntime (timers r) (session r) (queues r) (endpoint r) x (cookieGenerator r) (udpWindow r)
    (persistentKeepaliveInterval r) (txBytes r) (rxBytes r) (deleteOnIdle r).
Definition set_cookieGenerator (r : Runtime) (x : Cookie.CookieGenerator) : Runtime :=
  mkRuntime (timers r) (session r) (queues r) (endpoint r) (lastHandshakeNano r) x (udpWindow r)
    (persistentKeepaliveInterval r) (txBytes r) (rxBytes r) (deleteOnIdle r).
Definition set_udpWindow (r : Runtime) (x : Z) : Runtime :=
  mkRuntime (timers r) (session r) (queues r) (endpoint r) (lastHandshakeNano r) (cookieGenerator r) x
    (persistentKeepaliveInterval r) (txBytes r) (rxBytes r) (deleteOnIdle r).
Definition set_persistentKeepaliveInterval (r : Runtime) (x : Z) : Runtime :=
  mkRuntime (timers r) (session r) (queues r) (endpoint r) (lastHandshakeNano r) (cookieGenerator r)
    (udpWindow r) x (txBytes r) (rxBytes r) (deleteOnIdle r).
Definition set_txBytes (r : Runtime) (x : Z) : Runtime :=
  mkRuntime (timers r) (session r) (queues r) (endpoint r) (lastHandshakeNano r) (cookieGenerator r)
    (udpWindow r) (persistentKeepaliveInterval r) x (rxBytes r) (deleteOnIdle r).
Definition set_rxBytes (r : Runtime) (x : Z) : Runtime :=
  mkRuntime (timers r) (session r) (queues r) (endpoint r) (lastHandshakeNano r) (cookieGenerator r)
    (udpWindow r) (persistentKeepaliveInterval r) (txBytes r) x (deleteOnIdle r).
Definition set_deleteOnIdle (r : Runtime) (x : bool) : Runtime :=
  mkRuntime (timers r) (session r) (queues r) (endpoint r) (lastHandshakeNano r) (cookieGenerator r)
    (udpWindow r) (persistentKeepaliveInterval r) (txBytes r) (rxBytes r) x.

(** ** Timers *)

Definition update_timers (f : Timers -> Timers) (r : Runtime) : Runtime := set_timers r (f (timers r)).

Definition arm (id : timerId) (now d : Z) (t : Timers) : Timers :=
  set_deadline t (<[id := Some (now + d)]> (deadline t)).

Definition disarm (id : timerId) (t : Timers) : Timers := set_deadline t (<[id := None]> (deadline t)).

Definition IsPending (r : Runtime) (id : timerId) : bool := bool_decide (is_Some (deadline (timers r) id)).

(** [timer.Mod(d)] and [timer.Del()] *)
Definition Mod (id : timerId) (now d : Z) : Runtime -> Runtime := update_timers (arm id now d).
Definition Del (id : timerId) : Runtime -> Runtime := update_timers (disarm id).

(** ** Session state *)

Definition noteSessionStateLocked (state : PeerSessionState) (r : Runtime) : Runtime :=
  let s := session r in
  if bool_decide (ss_current s = state) then r
  else set_session r (mkSession state (sessionExpires s) (state :: observed s)).

Definition set_expires (r : Runtime) (t : Z) : Runtime :=
  set_session r (mkSession (ss_current (session r)) t (observed (session r))).

Definition noteSessionHandshakeStarted (r : Runtime) : Runtime :=
  if bool_decide (ss_current (session r) = PeerSessionEstablished) then r
  else noteSessionStateLocked PeerSessionHandshake r.

Definition hasKeyMaterial (pr : Peer) : bool :=
  bool_decide (is_Some (previous pr)) || bool_decide (is_Some (current pr)) || bool_decide (is_Some (next pr)).

Definition noteSessionHandshakeStopped (pr : Peer) : Runtime -> Runtime :=
  noteSessionStateLocked (if hasKeyMaterial pr then PeerSessionExpired else PeerSessionNone).

(** ** The events the timers follow *)

(** [jitter] is the result of [fastrandn(RekeyTimeoutJitterMaxMs)]. *)
Definition timersDataSent (active : bool) (now jitter : Z) (r : Runtime) : Runtime :=
  if active && negb (IsPending r newHandshake)
  then Mod newHandshake now (KeepaliveTimeout + RekeyTimeout + Millisecond * jitter) r else r.

Definition timersDataReceived (active : bool) (now : Z) (r : Runtime) : Runtime :=
  if active then
    if negb (IsPending r sendKeepalive) then Mod sendKeepalive now KeepaliveTimeout r
    else update_timers (fun t => set_needAnotherKeepalive t true) r
  else r.

Definition timersAnyAuthenticatedPacketSent (active : bool) (r : Runtime) : Runtime :=
  if active then Del sendKeepalive r else r.

Definition timersAnyAuthenticatedPacketReceived (active : bool) (r : Runtime) : Runtime :=
  if active then Del newHandshake r else r.

Definition timersHandshakeInitiated (active : bool) (now jitter : Z) (r : Runtime) : Runtime :=
  noteSessionHandshakeStarted
    (if active then Mod retransmitHandshake now (RekeyTimeout + Millisecond * jitter) r else r).

Definition timersHandshakeComplete (active : bool) (now : Z) (r : Runtime) : Runtime :=
  let r := if active then Del retransmitHandshake r else r in
  let r := update_timers (fun t => set_sentLastMinuteHandshake (set_handshakeAttempts t 0) false) r in
  set_lastHandshakeNano r now.

Definition timersSessionDerived (active : bool) (now : Z) (r : Runtime) : Runtime :=
  if active then
    let r := noteSessionStateLocked PeerSessionEstablished (set_expires r (now + RejectAfterTime)) in
    Mod zeroKeyMaterial now (RejectAfterTime * 3) (Mod sessionExpired now RejectAfterTime r)
  else noteSessionStateLocked PeerSessionEstablished r.

Definition timersAnyAuthenticatedPacketTraversal (active : bool) (now : Z) (r : Runtime) : Runtime :=
  let keepalive := persistentKeepaliveInterval r in
  if (keepalive >? 0) && active then Mod persistentKeepalive now (keepalive * Second) r else r.

Definition timersStart (r : Runtime) : Runtime :=
  update_timers (fun t => set_needAnotherKeepalive (set_sentLastMinuteHandshake (set_handshakeAttempts t 0) false) false) r.

Definition timersStop (r : Runtime) : Runtime :=
  Del persistentKeepalive (Del zeroKeyMaterial (Del sessionExpired
    (Del newHandshake (Del sendKeepalive (Del retransmitHandshake r))))).

(** [expiredSession], the one expiry function that sends nothing. *)
Definition expiredSession (now : Z) (r : Runtime) : Runtime :=
  let e := sessionExpires (session r) in
  if (e =? zeroTime) || (now <? e) then r else noteSessionStateLocked PeerSessionExpired r.

(** ** The staging queue *)

Definition update_queues (f : Queues -> Queues) (r : Runtime) : Runtime := set_queues r (f (queues r)).

Definition count (c : container) : Z := Z.of_nat (length (elems c)).

(** [queuedOutboundPackets.Add] on an [int32] *)
Definition add_queued (n : Z) (q : Queues) : Queues := set_queuedOutboundPackets q (i32 (queuedOutboundPackets q + n)).

(** A full channel drops its oldest container; the second attempt then succeeds. *)
Definition stage (c : container) (q : Queues) : Queues :=
  let q := add_queued (count c) q in
  if bool_decide (length (staged q) < QueueStagedSize)%nat then set_staged q (staged q ++ [c])
  else
    match staged q with
    | [] => q
    | tooOld :: rest => set_staged (add_queued (- count tooOld) q) (rest ++ [c])
    end.

Definition StagePackets (c : container) : Runtime -> Runtime := update_queues (stage c).

Fixpoint drop_all (cs : list container) (q : Queues) : Queues :=
  match cs with
  | [] => q
  | c :: cs' => drop_all cs' (add_queued (- count c) q)
  end.

Definition FlushStagedPackets : Runtime -> Runtime :=
  update_queues (fun q => set_staged (drop_all (staged q) q) []).

(** ** The endpoint *)

Definition update_endpoint (f : EndpointState -> EndpointState) (r : Runtime) : Runtime :=
  set_endpoint r (f (endpoint r)).

Definition SetEndpointFromPacket (e : Endpoint) (r : Runtime) : Runtime :=
  let ep := endpoint r in
  if disableRoaming ep then r
  else
    let moved := match ep_val ep with None => true | Some old => negb (bool_decide (DstToString old = DstToString e)) end in
    let r := if moved then set_udpWindow r Transport.DefaultUdpWindow else r in
    update_endpoint (fun ep => set_ep_val (set_clearSrcOnTx ep false) (Some e)) r.

Definition markEndpointSrcForClearing (r : Runtime) : Runtime :=
  match ep_val (endpoint r) with
  | None => r
  | Some _ => update_endpoint (fun ep => set_clearSrcOnTx ep true) r
  end.

(** The peer-side part of [NewPeer]. *)
Definition newRuntime (gen : Cookie.CookieGenerator) : Runtime :=
  mkRuntime (mkTimers (fun _ => None) 0 false false) (mkSession PeerSessionNone zeroTime []) (mkQueues [] [] 0 [])
    (mkEndpointState None [] false false) 0 gen Transport.DefaultUdpWindow 0 0 0 false.

End Runtime.
