(* ===== verification/Engine.v ===== *)
(** * The device at work: sending, receiving, timers, life cycle

    Models submodules/wireguard-go/device: send.go, receive.go, the expiry
    functions of timers.go, the life cycle of peer.go and device.go.  The state
    is the whole device: identity, peers and keys (Noise.v), the configuration,
    the run-time state of each peer (Runtime.v), the queue of the handshake
    workers, the clock.  A handler is a computation [M]: it changes the state,
    may end in a panic ([None]), and draws what it does not control (random
    numbers, the results of socket calls) from [Oracles], call by call.  One
    handler runs at one instant of the clock.  What leaves the device is the
    list [output], newest first. *)

From S2P Require Import Prelude Bits Bytes Replay Ratelimiter AllowedIPs MagicHeader.
From S2P Require Import ObfChain Messages Wire Tai64n Noise Cookie Transport Runtime.

Module Engine.

Import Noise Runtime.

Local Open Scope Z_scope.

Definition QueueHandshakeSize : Z := 1024.
Definition UnderLoadAfterTime : Z := Second.
Definition MaxPriorityMessageContentSize : Z := 512.
Definition maxQueuedInputPackets : Z := 2048.
Definition MessageEncapsulatingTransportSize : Z := 0.
Definition MaxContentSize : Z := ObfChain.MaxMessageSize - Z.of_nat Messages.MessageTransportSize - MessageEncapsulatingTransportSize.

(** ** Parameters *)

(** The cryptographic primitives. *)
Record Primitives := mkPrimitives {
  blake2s : bytes -> bytes;
  hmac : bytes -> bytes -> bytes;
  ScalarBaseMult : bytes -> bytes;
  ScalarMult : bytes -> bytes -> bytes;
  Seal : bytes -> bytes -> bytes -> bytes -> bytes;
  Open : bytes -> bytes -> bytes -> bytes -> option bytes;
  mac128 : bytes -> bytes -> bytes;
  SealX : bytes -> bytes -> bytes -> bytes -> bytes;
  OpenX : bytes -> bytes -> bytes -> bytes -> option bytes;
  chacha20 : bytes -> bytes -> nat -> bytes
}.

(** [bind.Send]; [ErrUDPGSODisabled] carries the error of the second attempt. *)
Inductive sendResult := SendOk | SendError | SendRebind | SendGSODisabled (retryErr : bool).

(** What call number [n] of the run-time, the operating system or the endpoint
    resolver gives; the batch size of the device ([BatchSize]), which is fixed. *)
Record Oracles := mkOracles {
  o_batchSize : nat;
  o_fastrandn : nat -> Z -> Z;
  o_rand_Int : nat -> Z -> Z;
  o_rand_Read : nat -> nat -> bytes * bool;
  o_index : nat -> list (Z * bool);
  o_send : nat -> sendResult;
  o_resolve : nat -> option (option (list Endpoint));
  o_bind : nat -> bool;
  o_open : nat -> Z -> Z * bool;
  o_ParseEndpoint : bytes -> option Endpoint
}.

Inductive out :=
| Datagrams (to : Endpoint) (bufs : list bytes)
| TunWrite (packets : list bytes)
| BindUpdateScheduled.

(** ** State *)

Inductive deviceState := deviceStateDown | deviceStateUp | deviceStateClosed.

#[export] Instance deviceState_eq_dec : EqDecision deviceState.
Proof. solve_decision. Defined.

Record Junk := mkJunk {
  j_count : Z;
  j_min : Z;
  j_max : Z
}.

(** The routing table and the rate limiter of this device. *)
Abbreviation routes := (@AllowedIPs.table pid _ _).
Abbreviation limits := (@Ratelimiter.Ratelimiter bytes _ _).

(** [QueueHandshakeElement] *)
Record handshakeElem := mkHandshakeElem {
  he_type : Z;
  he_packet : bytes;
  he_endpoint : Endpoint
}.

Record Config := mkConfig {
  wire : Wire.wireState;
  junk : Junk;
  ipackets : list (option ObfChain.obfChain);
  contentPaddingAddition : Z;
  rekeyAfterTimeSec : Z;
  disableCookies : bool;
  mtu : Z
}.

(** The part of [device.net] besides the bind. *)
Record Net := mkNet {
  port : Z;
  fwmark : Z;
  brokenRoaming : bool
}.

Record Engine := mkEngine {
  config : Config;
  dev : Device;
  dstate : deviceState;
  allowedips : routes;
  checker : Cookie.CookieChecker;
  limiter : limits;
  underLoadUntil : Z;
  runtimes : gmap pid Runtime;
  handshakeQueue : list handshakeElem;
  clock : Z;
  calls : nat;
  output : list out;
  net : Net
}.

(** ** Field updates *)

Definition set_config (e : Engine) (x : Config) : Engine :=
  mkEngine x (dev e) (dstate e) (allowedips e) (checker e) (limiter e) (underLoadUntil e) (runtimes e)
    (handshakeQueue e) (clock e) (calls e) (output e) (net e).
Definition set_dev (e : Engine) (x : Device) : Engine :=
  mkEngine (config e) x (dstate e) (allowedips e) (checker e) (limiter e) (underLoadUntil e) (runtimes e)
    (handshakeQueue e) (clock e) (calls e) (output e) (net e).
Definition set_dstate (e : Engine) (x : deviceState) : Engine :=
  mkEngine (config e) (dev e) x (allowedips e) (checker e) (limiter e) (underLoadUntil e) (runtimes e)
    (handshakeQueue e) (clock e) (calls e) (output e) (net e).
Definition set_allowedips (e : Engine) (x : routes) : Engine :=
  mkEngine (config e) (dev e) (dstate e) x (checker e) (limiter e) (underLoadUntil e) (runtimes e)
    (handshakeQueue e) (clock e) (calls e) (output e) (net e).
Definition set_checker (e : Engine) (x : Cookie.CookieChecker) : Engine :=
  mkEngine (config e) (dev e) (dstate e) (allowedips e) x (limiter e) (underLoadUntil e) (runtimes e)
    (handshakeQueue e) (clock e) (calls e) (output e) (net e).
Definition set_limiter (e : Engine) (x : limits) : Engine :=
  mkEngine (config e) (dev e) (dstate e) (allowedips e) (checker e) x (underLoadUntil e) (runtimes e)
    (handshakeQueue e) (clock e) (calls e) (output e) (net e).
Definition set_underLoadUntil (e : Engine) (x : Z) : Engine :=
  mkEngine (config e) (dev e) (dstate e) (allowedips e) (checker e) (limiter e) x (runtimes e)
    (handshakeQueue e) (clock e) (calls e) (output e) (net e).
Definition set_runtimes (e : Engine) (x : gmap pid Runtime) : Engine :=
  mkEngine (config e) (dev e) (dstate e) (allowedips e) (checker e) (limiter e) (underLoadUntil e) x
    (handshakeQueue e) (clock e) (calls e) (output e) (net e).
Definition set_handshakeQueue (e : Engine) (x : list handshakeElem) : Engine :=
  mkEngine (config e) (dev e) (dstate e) (allowedips e) (checker e) (limiter e) (underLoadUntil e)
    (runtimes e) x (clock e) (calls e) (output e) (net e).
Definition set_clock (e : Engine) (x : Z) : Engine :=
  mkEngine (config e) (dev e) (dstate e) (allowedips e) (checker e) (limiter e) (underLoadUntil e)
    (runtimes e) (handshakeQueue e) x (calls e) (output e) (net e).
Definition set_calls (e : Engine) (x : nat) : Engine :=
  mkEngine (config e) (dev e) (dstate e) (allowedips e) (checker e) (limiter e) (underLoadUntil e)
    (runtimes e) (handshakeQueue e) (clock e) x (output e) (net e).
Definition set_output (e : Engine) (x : list out) : Engine :=
  mkEngine (config e) (dev e) (dstate e) (allowedips e) (checker e) (limiter e) (underLoadUntil e)
    (runtimes e) (handshakeQueue e) (clock e) (calls e) x (net e).

Definition set_net (e : Engine) (x : Net) : Engine :=
  mkEngine (config e) (dev e) (dstate e) (allowedips e) (checker e) (limiter e) (underLoadUntil e)
    (runtimes e) (handshakeQueue e) (clock e) (calls e) (output e) x.

(** [conn.IdealBatchSize] *)
Definition IdealBatchSize : nat := 128.

(** ** Computations *)

Definition M (A : Type) : Type := Engine -> option (A * Engine).

Definition ret {A} (a : A) : M A := fun e => Some (a, e).
Definition bind {A B} (c : M A) (k : A -> M B) : M B := fun e => '(a, e') ← c e; k a e'.
Definition gets {A} (f : Engine -> A) : M A := fun e => Some (f e, e).
Definition modify (f : Engine -> Engine) : M unit := fun e => Some (tt, f e).
(** A result that may be a panic. *)
Definition lift {A} (o : option A) : M A := fun e => a ← o; Some (a, e).
(** A panic unless [b]. *)
Definition require (b : bool) : M unit := lift (if b then Some tt else None).

Declare Scope engine_scope.
Delimit Scope engine_scope with engine.
Notation "'let*' x ':=' c 'in' k" := (bind c (fun x => k))
  (at level 200, x strict pattern, c at level 100, k at level 200, right associativity) : engine_scope.
Local Open Scope engine_scope.

(** An operation of Noise.v on the device. *)
Definition on_dev {A} (f : Device -> option (Device * A)) : M A :=
  fun e => '(d, a) ← f (dev e); Some (a, set_dev e d).

Definition change_dev (f : Device -> option Device) : M unit := on_dev (fun d => d' ← f d; Some (d', tt)).

(** The peer behind a pointer. *)
Definition get_peer (p : pid) : M Peer := fun e => pr ← peers (dev e) !! p; Some (pr, e).
Definition get_rt (p : pid) : M Runtime := fun e => r ← runtimes e !! p; Some (r, e).
Definition on_rt (p : pid) (f : Runtime -> Runtime) : M unit :=
  fun e => r ← runtimes e !! p; Some (tt, set_runtimes e (<[p := f r]> (runtimes e))).

(** The next call of an oracle. *)
Definition call {A} (f : nat -> A) : M A := fun e => Some (f (calls e), set_calls e (S (calls e))).

Definition emit (o : out) : M unit := modify (fun e => set_output e (o :: output e)).

Definition when (b : bool) (c : M unit) : M unit := if b then c else ret tt.

Fixpoint for_each {A} (xs : list A) (f : A -> M unit) : M unit :=
  match xs with
  | [] => ret tt
  | x :: xs' => let* _ := f x in for_each xs' f
  end.

Definition isUp (e : Engine) : bool := bool_decide (dstate e = deviceStateUp).
Definition isClosed (e : Engine) : bool := bool_decide (dstate e = deviceStateClosed).

Definition timersActive (p : pid) : M bool :=
  let* pr := get_peer p in
  let* up := gets isUp in
  ret (isRunning pr && up).

(** Every timer function tests [timersActive] first. *)
Definition timer_event (p : pid) (f : bool -> Z -> Runtime -> Runtime) : M unit :=
  let* active := timersActive p in
  let* now := gets clock in
  on_rt p (f active now).

Section Engine.

Context (C : Primitives) (W : Oracles).
(** The callback of [SetPriorityMessageFunc], if any. *)
Context (priorityMsgFn : option (bytes -> bytes)).

(** ** Sending datagrams *)

Definition totalLen (bufs : list bytes) : Z := foldl (fun t b => u64 (t + Z.of_nat (length b))) 0 bufs.

(** The endpoint, its source address cleared when that is due. *)
Definition take_endpoint (p : pid) : M (option Endpoint) :=
  let* r := get_rt p in
  match ep_val (endpoint r) with
  | None => ret None
  | Some ep =>
      if clearSrcOnTx (endpoint r) then
        let* _ := on_rt p (update_endpoint (fun s => set_ep_val (set_clearSrcOnTx s false) (Some (ClearSrc ep)))) in
        ret (Some (ClearSrc ep))
      else ret (Some ep)
  end.

(** The result of [bind.Send], or an error for want of an endpoint. *)
Definition SendBuffers (p : pid) (bufs : list bytes) : M sendResult :=
  let* closed := gets isClosed in
  if closed then ret SendOk
  else
    let* ep := take_endpoint p in
    match ep with
    | None => ret SendError
    | Some ep =>
        let* r := call (o_send W) in
        let* _ := (match r with
                   | SendOk =>
                       let* _ := emit (Datagrams ep bufs) in
                       on_rt p (fun r => set_txBytes r (u64 (txBytes r + totalLen bufs)))
                   | SendGSODisabled false => emit (Datagrams ep bufs)
                   | SendRebind => emit BindUpdateScheduled
                   | _ => ret tt
                   end) in
        ret r
    end.

Definition failed (r : sendResult) : bool := match r with SendOk => false | _ => true end.

Fixpoint add_candidates (eps candidates : list Endpoint) : list Endpoint :=
  match candidates with
  | [] => eps
  | c :: cs =>
      add_candidates (if existsb (fun e => bool_decide (DstToString e = DstToString c)) eps then eps else eps ++ [c]) cs
  end.

(** The loop over the endpoints: whether one accepted the datagrams. *)
Fixpoint send_to_all (p : pid) (bufs : list bytes) (eps : list Endpoint) (sent : bool) : M bool :=
  match eps with
  | [] => ret sent
  | ep :: eps' =>
      let* r := call (o_send W) in
      match r with
      | SendOk =>
          let* _ := emit (Datagrams ep bufs) in
          let* _ := on_rt p (fun r => set_txBytes r (u64 (txBytes r + totalLen bufs))) in
          send_to_all p bufs eps' true
      | _ => send_to_all p bufs eps' sent
      end
  end.

Definition sendHandshakeBuffers (p : pid) (bufs : list bytes) (candidates : list Endpoint) : M bool :=
  let* closed := gets isClosed in
  if closed then ret false
  else
    let* ep := take_endpoint p in
    let eps := add_candidates (match ep with Some ep => [ep] | None => [] end) candidates in
    match eps with
    | [] => ret true
    | _ => let* sent := send_to_all p bufs eps false in ret (negb sent)
    end.

Definition resolveEndpoints (p : pid) : M (list Endpoint) :=
  let* resolved := call (o_resolve W) in
  match resolved with
  | None => ret []
  | Some resolved =>
      let* _ := on_rt p (update_endpoint (fun s =>
        match resolved with Some (c :: cs) => set_candidates s (c :: cs) | _ => s end)) in
      let* r := get_rt p in
      ret (candidates (endpoint r))
  end.

(** ** Handshake messages *)

Definition tai64n_Now (e : Engine) : bytes := Tai64n.stamp (clock e / Second) (clock e mod Second).

(** [fastrandn] and [rand.Read] of the next call. *)
Definition fastrandn (n : Z) : M Z := call (fun i => o_fastrandn W i n).
Definition rand_Read (n : nat) : M (bytes * bool) := call (fun i => o_rand_Read W i n).

Definition frame (config : Wire.handshakeWireConfig) (core : bytes) (window : Z) : M (option bytes) :=
  let* draw := call (o_fastrandn W) in
  let* pre := call (o_rand_Read W) in
  let* post := call (o_rand_Read W) in
  ret (Wire.frameHandshake (chacha20 C) draw (fun n => fst (pre n)) (fun n => fst (post n)) config core window).

Definition handshakeWireConfig (msgType : Z) : M Wire.handshakeWireConfig :=
  let* draw := call (o_rand_Int W) in
  let* c := gets config in
  lift (Wire.snapshot draw (wire c) msgType).

(** The decoy packets, one for each chain. *)
Fixpoint decoys (chains : list (option ObfChain.obfChain)) : M (list bytes) :=
  match chains with
  | [] => ret []
  | None :: cs => decoys cs
  | Some c :: cs =>
      let* now := gets clock in
      let* first := gets calls in
      let* _ := modify (fun e => set_calls e (calls e + length (ObfChain.obfs c))) in
      let* buf := lift (ObfChain.decoy_packet (now / Second) (fun i n => fst (o_rand_Read W (first + i) n)) c) in
      let* bufs := decoys cs in
      ret (buf :: bufs)
  end.

(** The junk packets; a negative size is a panic of [make]. *)
Fixpoint junk_packets (n : nat) (jmin diff : Z) : M (list bytes) :=
  match n with
  | O => ret []
  | S n' =>
      let* size := (if diff >? 0 then let* d := fastrandn diff in ret (jmin + d) else ret jmin) in
      if size <? 0 then lift None
      else
        let* buf := rand_Read (Z.to_nat size) in
        let* bufs := junk_packets n' jmin diff in
        ret (fst buf :: bufs)
  end.

Definition set_lastSent (p : pid) (t : Z) : M unit :=
  change_dev (fun d => pr ← peers d !! p; Some (update_handshake d p pr (set_lastSentHandshake (handshake pr) t))).

(** [time.Since(peer.handshake.lastSentHandshake) < RekeyTimeout] *)
Definition too_soon (p : pid) : M bool :=
  let* pr := get_peer p in
  let* now := gets clock in
  ret (time_sub now (lastSentHandshake (handshake pr)) <? RekeyTimeout).

Definition AddMacs (p : pid) (msg : bytes) : M bytes :=
  let* r := get_rt p in
  let* now := gets clock in
  let* (gen, msg) := lift (Cookie.AddMacs (mac128 C) (cookieGenerator r) msg now) in
  let* _ := on_rt p (fun r => set_cookieGenerator r gen) in
  ret msg.

Definition createMessageInitiation (p : pid) (msgType : Z) : M (option Messages.MessageInitiation) :=
  let* ek := rand_Read 32 in
  let* draws := call (o_index W) in
  let* stamp := gets tai64n_Now in
  on_dev (fun d => Noise.createMessageInitiation (blake2s C) (hmac C) (ScalarBaseMult C) (ScalarMult C) (Seal C)
                     d p msgType ek stamp draws).

(** Returns whether an error occurred. *)
Definition SendHandshakeInitiation (p : pid) (isRetry : bool) : M bool :=
  let* _ := when (negb isRetry) (on_rt p (update_timers (fun t => set_handshakeAttempts t 0))) in
  let* soon := too_soon p in
  if (soon : bool) then ret false
  else
    let* now := gets clock in
    let* _ := set_lastSent p now in
    let* candidates := resolveEndpoints p in
    let* wireConfig := handshakeWireConfig Messages.MessageInitiationType in
    let* msg := createMessageInitiation p (Wire.header wireConfig) in
    match msg with
    | None => ret true
    | Some msg =>
        let* c := gets config in
        let* sendBuffer := decoys (ipackets c) in
        let jmin := j_min (junk c) in
        let diff := u32 (j_max (junk c) - jmin + 1) in
        let* junkBuffer := junk_packets (Z.to_nat (j_count (junk c))) jmin diff in
        let buf := Noise.zeros Messages.MessageInitiationSize in
        let* packet := AddMacs p (default buf (Messages.init_marshal msg buf)) in
        let* _ := timer_event p timersAnyAuthenticatedPacketTraversal in
        let* _ := timer_event p (fun active _ => timersAnyAuthenticatedPacketSent active) in
        let* r := get_rt p in
        let* framed := frame wireConfig packet (udpWindow r) in
        match framed with
        | None => ret true
        | Some packet =>
            let sendBuffer := sendBuffer ++ junkBuffer ++ [packet] in
            let* err := (match candidates with
                         | [] => let* r := SendBuffers p sendBuffer in ret (failed r)
                         | _ => sendHandshakeBuffers p sendBuffer candidates
                         end) in
            let* jitter := fastrandn RekeyTimeoutJitterMaxMs in
            let* _ := timer_event p (fun active now => timersHandshakeInitiated active now jitter) in
            ret err
        end
    end.

Definition SendHandshakeResponse (p : pid) : M bool :=
  let* now := gets clock in
  let* _ := set_lastSent p now in
  let* wireConfig := handshakeWireConfig Messages.MessageResponseType in
  let* draws := call (o_index W) in
  let* ek := rand_Read 32 in
  let* response := on_dev (fun d => Noise.createMessageResponse (blake2s C) (hmac C) (ScalarBaseMult C) (ScalarMult C) (Seal C)
                                      d p (Wire.header wireConfig) draws ek) in
  match response with
  | None => ret true
  | Some response =>
      let buf := Noise.zeros Messages.MessageResponseSize in
      let* packet := AddMacs p (default buf (Messages.resp_marshal response buf)) in
      let* k := on_dev (fun d => Noise.BeginSymmetricSession (hmac C) d p now) in
      match k with
      | None => ret true
      | Some _ =>
          let* _ := timer_event p timersSessionDerived in
          let* _ := timer_event p timersAnyAuthenticatedPacketTraversal in
          let* _ := timer_event p (fun active _ => timersAnyAuthenticatedPacketSent active) in
          let* r := get_rt p in
          let* framed := frame wireConfig packet (udpWindow r) in
          match framed with
          | None => ret true
          | Some packet => let* r := SendBuffers p [packet] in ret (failed r)
          end
      end
  end.

Definition SendHandshakeCookie (elem : handshakeElem) : M bool :=
  let* sender := lift (s ← slice (he_packet elem) 4 8; le_Uint32 s) in
  let* wireConfig := handshakeWireConfig Messages.MessageCookieReplyType in
  let* now := gets clock in
  let* rnd := rand_Read 32 in
  let* nonce := rand_Read 24 in
  let* chk := gets checker in
  let* (chk, reply) := lift (Cookie.CreateReply (mac128 C) (SealX C) chk (he_packet elem) sender
                                (DstToBytes (he_endpoint elem)) (Wire.header wireConfig) rnd nonce now now) in
  let* _ := modify (fun e => set_checker e chk) in
  match reply with
  | None => ret true
  | Some reply =>
      let buf := Noise.zeros Messages.MessageCookieReplySize in
      let* framed := frame wireConfig (default buf (Messages.cookie_marshal reply buf)) Transport.DefaultUdpWindow in
      match framed with
      | None => ret true
      | Some packet =>
          let* r := call (o_send W) in
          let* _ := (match r with SendOk => emit (Datagrams (he_endpoint elem) [packet]) | _ => ret tt end) in
          ret false
      end
  end.

(** ** Data packets out *)

Definition current_keypair (p : pid) : M (option (kid * Keypair)) :=
  let* pr := get_peer p in
  let* d := gets dev in
  match current pr with
  | None => ret None
  | Some k => let* kp := lift (keypairs d !! k) in ret (Some (k, kp))
  end.

(** A key pair that may no longer be used to send. *)
Definition stale (now : Z) (kp : Keypair) : bool :=
  (sendNonce kp >=? RejectAfterMessages) || (time_sub now (created kp) >=? RejectAfterTime).

(** The loop over the elements of a container: those with a nonce, those without,
    and the key pair's next nonce. *)
Fixpoint assign_nonces (k : kid) (nonce : Z) (es : list outElem) : list outElem * list outElem * Z :=
  match es with
  | [] => ([], [], nonce)
  | e :: es' =>
      if nonce >=? RejectAfterMessages then
        let '(kept, ooo, n) := assign_nonces k RejectAfterMessages es' in
        (kept, mkElem (el_packet e) nonce (el_keypair e) :: ooo, n)
      else
        let '(kept, ooo, n) := assign_nonces k (u64 (nonce + 1)) es' in
        (mkElem (el_packet e) nonce (Some k) :: kept, ooo, n)
  end.

Definition set_nonce (k : kid) (n : Z) : M unit :=
  change_dev (fun d => Some (set_keypairs d (alter (fun kp => set_sendNonce kp n) k (keypairs d)))).

Definition pop_staged (p : pid) : M (option container) :=
  let* r := get_rt p in
  match staged (queues r) with
  | [] => ret None
  | c :: cs => let* _ := on_rt p (update_queues (fun q => set_staged q cs)) in ret (Some c)
  end.

(** The body of the loop: whether the queue was empty, and whether to go on at
    [top]. *)
Definition send_container (p : pid) (k : kid) : M (bool * bool) :=
  let* c := pop_staged p in
  match c with
  | None => ret (true, false)
  | Some c =>
      let* d := gets dev in
      let* kp := lift (keypairs d !! k) in
      let '(kept, ooo, n) := assign_nonces k (sendNonce kp) (elems c) in
      let* _ := set_nonce k n in
      let* _ := when (negb (bool_decide (ooo = [])))
                  (on_rt p (fun r => StagePackets (mkContainer ooo None)
                                       (update_queues (add_queued (- Z.of_nat (length ooo))) r))) in
      match kept with
      | [] => ret (false, true)
      | _ =>
          let* pr := get_peer p in
          let* _ := on_rt p (update_queues (fun q =>
                      if isRunning pr then set_outbound q (outbound q ++ [mkContainer kept None])
                      else add_queued (- Z.of_nat (length kept)) q)) in
          ret (false, negb (bool_decide (ooo = [])))
      end
  end.

(** [sending]: the key pair of the inner loop, [None] at [top].  The fuel bounds
    the number of turns; the result is false when it runs out. *)
Fixpoint send_staged (fuel : nat) (p : pid) (sending : option kid) : M bool :=
  match fuel with
  | O => ret false
  | S fuel' =>
      match sending with
      | None =>
          let* r := get_rt p in
          let* up := gets isUp in
          if bool_decide (staged (queues r) = []) || negb up then ret true
          else
            let* kp := current_keypair p in
            let* now := gets clock in
            match kp with
            | Some (k, kp) =>
                if stale now kp then let* _ := SendHandshakeInitiation p false in ret true
                else send_staged fuel' p (Some k)
            | None => let* _ := SendHandshakeInitiation p false in ret true
            end
      | Some k =>
          let* (empty, again) := send_container p k in
          if (empty : bool) then ret true
          else send_staged fuel' p (if (again : bool) then None else Some k)
      end
  end.

Definition SendStagedPackets (p : pid) : M bool :=
  let* r := get_rt p in
  send_staged (2 * length (staged (queues r)) + 4) p None.

Definition SendKeepalive (p : pid) : M bool :=
  let* r := get_rt p in
  let* pr := get_peer p in
  let* _ := when (bool_decide (staged (queues r) = []) && isRunning pr)
              (on_rt p (update_queues (fun q =>
                 add_queued 1 (set_staged q (staged q ++ [mkContainer [mkElem [] 0 None] None]))))) in
  SendStagedPackets p.

(** The nonce of a priority message, and its place in the queue. *)
Definition push_priority (p : pid) (k : kid) (msg : bytes) : M unit :=
  let* d := gets dev in
  let* kp := lift (keypairs d !! k) in
  let* pr := get_peer p in
  if sendNonce kp >=? RejectAfterMessages then set_nonce k RejectAfterMessages
  else
    let* _ := set_nonce k (u64 (sendNonce kp + 1)) in
    when (isRunning pr)
      (on_rt p (update_queues (fun q =>
         add_queued 1 (set_outbound q (outbound q ++ [mkContainer [mkElem msg (sendNonce kp) (Some k)] None]))))).

Definition SendPriorityMessage (p : pid) : M unit :=
  match priorityMsgFn with
  | None => ret tt
  | Some f =>
      let* kp := current_keypair p in
      let* now := gets clock in
      let* pr := get_peer p in
      match kp with
      | None => ret tt
      | Some (k, kp) =>
          let msg := f (remoteStatic (handshake pr)) in
          if stale now kp || bool_decide (msg = []) || (Z.of_nat (length msg) >? MaxPriorityMessageContentSize) then ret tt
          else push_priority p k msg
      end
  end.

(** [encryptTransport] on the elements of a container. *)
Fixpoint encrypt_elems (p : pid) (es : list outElem) : M (list (option bytes * bool)) :=
  match es with
  | [] => ret []
  | e :: es' =>
      let* d := gets dev in
      let* c := gets config in
      let* r := get_rt p in
      let* kp := lift (k ← el_keypair e; keypairs d !! k) in
      let* draw := call (fun i => fun n => o_fastrandn W (i + n)) in
      let* _ := modify (fun e => set_calls e (calls e + 2)) in
      let* rand_Int := call (o_rand_Int W) in
      let* rand := call (o_rand_Read W) in
      let* (window, res) := lift (Transport.encryptTransport (chacha20 C) (Seal C) draw rand_Int rand (wire c)
                                     (contentPaddingAddition c) (mtu c) (udpWindow r)
                                     (Transport.mkOut (el_packet e) (el_nonce e) (send kp) (kp_remoteIndex kp))) in
      let* _ := on_rt p (fun r => set_udpWindow r window) in
      let* rest := encrypt_elems p es' in
      ret (match res with
           | inl _ => (None, false)
           | inr s => (Some (Transport.sealed_packet s), Transport.isKeepalive s)
           end :: rest)
  end.

(** [RoutineEncryption] takes the first container of a queue that is not yet
    encrypted, and leaves the result in it. *)
Fixpoint first_unfilled (cs : list container) : option container :=
  match cs with
  | [] => None
  | c :: cs' => match filled c with None => Some c | Some _ => first_unfilled cs' end
  end.

Fixpoint fill_first (f : list (option bytes * bool)) (cs : list container) : list container :=
  match cs with
  | [] => []
  | c :: cs' =>
      match filled c with
      | None => mkContainer (elems c) (Some f) :: cs'
      | Some _ => c :: fill_first f cs'
      end
  end.

Definition RoutineEncryption (p : pid) : M unit :=
  let* r := get_rt p in
  match first_unfilled (outbound (queues r)) with
  | None => ret tt
  | Some c =>
      let* f := encrypt_elems p (elems c) in
      on_rt p (update_queues (fun q => set_outbound q (fill_first f (outbound q))))
  end.

Definition rekeyAfterTime : M Z :=
  let* c := gets config in
  if MagicHeader.IsZero (rekeyAfterTimeSec c) then ret RekeyAfterTime
  else
    let* draw := call (o_fastrandn W) in
    ret (MagicHeader.PickOne draw (rekeyAfterTimeSec c) * Second).

Definition keepKeyFreshSending (p : pid) : M unit :=
  let* kp := current_keypair p in
  match kp with
  | None => ret tt
  | Some (_, kp) =>
      let* now := gets clock in
      let initiate := let* _ := SendHandshakeInitiation p false in ret tt in
      if sendNonce kp >? RekeyAfterMessages then initiate
      else if isInitiator kp then
        let* limit := rekeyAfterTime in
        when (time_sub now (created kp) >? limit) initiate
      else ret tt
  end.

(** The container at the head has been dealt with. *)
Definition pop_outbound (q : Queues) : Queues :=
  match outbound q with
  | [] => q
  | c :: cs => add_queued (- count c) (set_outbound q cs)
  end.

(** [RoutineSequentialSender] on the head of the queue, once it is encrypted.  The
    container stays at the head until it is counted off. *)
Definition processOutboundContainer (p : pid) : M unit :=
  let* r := get_rt p in
  match outbound (queues r) with
  | [] => ret tt
  | c :: _ =>
      match filled c with
      | None => ret tt
      | Some f =>
          let done := on_rt p (update_queues pop_outbound) in
          let* _ := require (bool_decide (length (elems c) <= max (o_batchSize W) IdealBatchSize)%nat) in
          let* pr := get_peer p in
          if negb (isRunning pr) then done
          else
            let scratch := omap fst f in
            let dataSent := existsb (fun x => bool_decide (is_Some (fst x)) && negb (snd x)) f in
            let* err := (match scratch with
                         | [] => ret SendOk
                         | _ =>
                             let* _ := timer_event p timersAnyAuthenticatedPacketTraversal in
                             let* _ := timer_event p (fun active _ => timersAnyAuthenticatedPacketSent active) in
                             SendBuffers p scratch
                         end) in
            let* _ := when dataSent
                        (let* jitter := fastrandn RekeyTimeoutJitterMaxMs in
                         timer_event p (fun active now => timersDataSent active now jitter)) in
            let* _ := done in
            match err with SendOk | SendGSODisabled false => keepKeyFreshSending p | _ => ret tt end
      end
  end.

(** ** Data packets in *)

Definition keepKeyFreshReceiving (p : pid) : M unit :=
  let* r := get_rt p in
  if sentLastMinuteHandshake (timers r) then ret tt
  else
    let* kp := current_keypair p in
    let* now := gets clock in
    match kp with
    | Some (_, kp) =>
        when (isInitiator kp && (time_sub now (created kp) >? RejectAfterTime - KeepaliveTimeout - RekeyTimeout))
          (let* _ := on_rt p (update_timers (fun t => set_sentLastMinuteHandshake t true)) in
           let* _ := SendHandshakeInitiation p false in
           ret tt)
    | None => ret tt
    end.

(** The element as [RoutineDecryption] leaves it: counter and plaintext, or nil. *)
Definition decrypt_elem (elem : inElem) : M (Z * option bytes) :=
  let* d := gets dev in
  let* kp := lift (keypairs d !! ie_keypair elem) in
  lift (Transport.decryptTransport (Open C) (receive kp) (ie_core elem)).

(** [ValidateCounter] on the key pair's filter. *)
Definition validate_counter (k : kid) (counter : Z) : M bool :=
  on_dev (fun d =>
    kp ← keypairs d !! k;
    let '(ok, f) := Replay.ValidateCounter (replayFilter kp) counter RejectAfterMessages in
    Some (set_keypairs d (<[k := Transport.set_filter kp f]> (keypairs d)), ok)).

(** What the loop over a container gathers. *)
Record received := mkReceived {
  validTailPacket : option Endpoint;
  dataPacketReceived : bool;
  rxBytesLen : Z;
  scratch : list bytes
}.

(** One turn of the loop of [processInboundContainer]. *)
Definition process_elem (p : pid) (elem : inElem) (acc : received) : M received :=
  let* (counter, packet) := decrypt_elem elem in
  match packet with
  | None => ret acc
  | Some packet =>
      let* ok := validate_counter (ie_keypair elem) counter in
      if negb ok then ret acc
      else
        let* confirmed := on_dev (fun d => ReceivedWithKeypair d p (ie_keypair elem)) in
        let* _ := when confirmed
                    (let* _ := on_rt p (SetEndpointFromPacket (ie_endpoint elem)) in
                     let* _ := timer_event p timersHandshakeComplete in
                     let* _ := SendPriorityMessage p in
                     let* _ := SendStagedPackets p in
                     ret tt) in
        let rx := u64 (rxBytesLen acc + Z.of_nat (length packet) + Wire.MinMessageSize) in
        let window := u32 (ie_padding elem + Transport.transportSize + Z.of_nat (length packet)) in
        let* _ := on_rt p (fun r => if udpWindow r <? window then set_udpWindow r window else r) in
        let keepalive := match packet with [] => true | b :: _ => b =? 0 end in
        if keepalive then ret (mkReceived (Some (ie_endpoint elem)) (dataPacketReceived acc) rx (scratch acc))
        else
          let* tb := gets allowedips in
          let* o := lift (Transport.deliver (fun src => AllowedIPs.AllowedPeerSourceIP None tb p src) packet) in
          ret (mkReceived (Some (ie_endpoint elem)) true rx
                 (match o with Transport.OutPacket pkt => scratch acc ++ [pkt] | _ => scratch acc end))
  end.

Fixpoint process_elements (p : pid) (es : list inElem) (acc : received) : M received :=
  match es with
  | [] => ret acc
  | e :: es' => let* acc' := process_elem p e acc in process_elements p es' acc'
  end.

(** [RoutineSequentialReceiver] on the head of the queue. *)
Definition processInboundContainer (p : pid) : M unit :=
  let* r := get_rt p in
  match inbound (queues r) with
  | [] => ret tt
  | es :: rest =>
      let* _ := on_rt p (update_queues (fun q => set_inbound q rest)) in
      let* _ := require (bool_decide (o_batchSize W <> 0%nat) && bool_decide (length es <= o_batchSize W)%nat) in
      let* acc := process_elements p es (mkReceived None false 0 []) in
      let* _ := on_rt p (fun r => set_rxBytes r (u64 (rxBytes r + rxBytesLen acc))) in
      let* _ := (match validTailPacket acc with
                 | None => ret tt
                 | Some ep =>
                     let* _ := on_rt p (SetEndpointFromPacket ep) in
                     let* _ := keepKeyFreshReceiving p in
                     let* _ := timer_event p timersAnyAuthenticatedPacketTraversal in
                     timer_event p (fun active _ => timersAnyAuthenticatedPacketReceived active)
                 end) in
      let* _ := when (dataPacketReceived acc) (timer_event p timersDataReceived) in
      when (negb (bool_decide (scratch acc = []))) (emit (TunWrite (scratch acc)))
  end.

(** ** Receiving datagrams *)

(** One datagram of a batch: a data packet joins its peer's container, a handshake
    message the queue of the workers. *)
Definition receive_datagram (ep : Endpoint) (datagram : bytes) (byPeer : gmap pid (list inElem)) : M (gmap pid (list inElem)) :=
  let size := Z.of_nat (length datagram) in
  if (size <? Wire.MinMessageSize) || (size >? ObfChain.awgMaxPacketSize) || (size >? ObfChain.MaxMessageSize) then ret byPeer
  else
    let* c := gets config in
    let* d := gets dev in
    let* now := gets clock in
    let* (packet, msgType, padding) :=
      lift (Wire.prepareReceivedPacket (chacha20 C) (Transport.live_index d) (wire c) datagram) in
    if msgType =? Messages.MessageUnknownType then ret byPeer
    else if msgType =? Messages.MessageTransportType then
      let* found := lift (Transport.lookupTransport d packet now) in
      match found with
      | None => ret byPeer
      | Some (p, k) => ret (<[p := default [] (byPeer !! p) ++ [mkInElem packet k ep padding]]> byPeer)
      end
    else
      let expected :=
        if msgType =? Messages.MessageInitiationType then Messages.MessageInitiationSize
        else if msgType =? Messages.MessageResponseType then Messages.MessageResponseSize
        else Messages.MessageCookieReplySize in
      if negb (bool_decide (length packet = expected)) then ret byPeer
      else
        let* _ := modify (fun e =>
          if Z.of_nat (length (handshakeQueue e)) <? QueueHandshakeSize
          then set_handshakeQueue e (handshakeQueue e ++ [mkHandshakeElem msgType packet ep]) else e) in
        ret byPeer.

Fixpoint receive_all (batch : list (Endpoint * bytes)) (byPeer : gmap pid (list inElem)) : M (gmap pid (list inElem)) :=
  match batch with
  | [] => ret byPeer
  | (ep, datagram) :: batch' =>
      let* byPeer := receive_datagram ep datagram byPeer in
      receive_all batch' byPeer
  end.

(** The loop body of [RoutineReceiveIncoming] after a read without error. *)
Definition RoutineReceiveIncoming (batch : list (Endpoint * bytes)) : M unit :=
  let* byPeer := receive_all batch ∅ in
  for_each (map_to_list byPeer) (fun x =>
    let* pr := get_peer (fst x) in
    when (isRunning pr) (on_rt (fst x) (update_queues (fun q => set_inbound q (inbound q ++ [snd x]))))).

(** ** The handshake workers *)

Definition IsUnderLoad : M bool :=
  let* e := gets (fun e => e) in
  if QueueHandshakeSize / 8 <=? Z.of_nat (length (handshakeQueue e)) then
    let* _ := modify (fun e => set_underLoadUntil e (clock e + UnderLoadAfterTime)) in
    ret true
  else ret (underLoadUntil e >? clock e).

(** The MAC and load checks: whether the message goes on to the handshake. *)
Definition check_handshake (elem : handshakeElem) : M bool :=
  let* chk := gets checker in
  let* mac1 := lift (Cookie.CheckMAC1 (mac128 C) chk (he_packet elem)) in
  if negb mac1 then ret false
  else
    let* c := gets config in
    let* loaded := (if disableCookies c then ret false else IsUnderLoad) in
    if negb loaded then ret true
    else
      let* now := gets clock in
      let* mac2 := lift (Cookie.CheckMAC2 (mac128 C) chk (he_packet elem) (DstToBytes (he_endpoint elem)) now) in
      if negb mac2 then
        let* _ := SendHandshakeCookie elem in ret false
      else
        let* lim := gets limiter in
        let* (ok, lim) := lift (Ratelimiter.Allow lim (DstIP (he_endpoint elem)) now) in
        let* _ := modify (fun e => set_limiter e lim) in
        ret ok.

Definition handle_initiation (elem : handshakeElem) : M unit :=
  match Messages.init_unmarshal (he_packet elem) with
  | None => ret tt
  | Some msg =>
      let msg := Messages.mkInitiation (he_type elem) (Messages.init_Sender msg) (Messages.init_Ephemeral msg)
                   (Messages.init_Static msg) (Messages.init_Timestamp msg) (Messages.init_MAC1 msg) (Messages.init_MAC2 msg) in
      let* now := gets clock in
      let* peer := on_dev (fun d => Some (Noise.ConsumeMessageInitiation (blake2s C) (hmac C) (ScalarMult C) (Open C) d msg now now)) in
      match peer with
      | None => ret tt
      | Some p =>
          let* _ := timer_event p timersAnyAuthenticatedPacketTraversal in
          let* _ := timer_event p (fun active _ => timersAnyAuthenticatedPacketReceived active) in
          let* _ := on_rt p (SetEndpointFromPacket (he_endpoint elem)) in
          let* _ := on_rt p (fun r => set_rxBytes r (u64 (rxBytes r + Z.of_nat (length (he_packet elem))))) in
          let* _ := SendHandshakeResponse p in
          ret tt
      end
  end.

Definition handle_response (elem : handshakeElem) : M unit :=
  match Messages.resp_unmarshal (he_packet elem) with
  | None => ret tt
  | Some msg =>
      let msg := Messages.mkResponse (he_type elem) (Messages.resp_Sender msg) (Messages.resp_Receiver msg)
                   (Messages.resp_Ephemeral msg) (Messages.resp_Empty msg) (Messages.resp_MAC1 msg) (Messages.resp_MAC2 msg) in
      let* now := gets clock in
      let* peer := on_dev (fun d => Some (Noise.ConsumeMessageResponse (blake2s C) (hmac C) (ScalarMult C) (Open C) d msg)) in
      match peer with
      | None => ret tt
      | Some p =>
          let* _ := on_rt p (SetEndpointFromPacket (he_endpoint elem)) in
          let* _ := on_rt p (fun r => set_rxBytes r (u64 (rxBytes r + Z.of_nat (length (he_packet elem))))) in
          let* _ := timer_event p timersAnyAuthenticatedPacketTraversal in
          let* _ := timer_event p (fun active _ => timersAnyAuthenticatedPacketReceived active) in
          let* k := on_dev (fun d => Noise.BeginSymmetricSession (hmac C) d p now) in
          match k with
          | None => ret tt
          | Some _ =>
              let* _ := timer_event p timersSessionDerived in
              let* _ := timer_event p timersHandshakeComplete in
              let* _ := SendPriorityMessage p in
              let* _ := SendKeepalive p in
              ret tt
          end
      end
  end.

Definition handle_cookie (elem : handshakeElem) : M unit :=
  match Messages.cookie_unmarshal (he_packet elem) with
  | None => ret tt
  | Some reply =>
      let* d := gets dev in
      match table_Lookup d (Messages.cookie_Receiver reply) with
      | None => ret tt
      | Some entry =>
          let p := e_peer entry in
          let* pr := get_peer p in
          when (isRunning pr)
            (let* now := gets clock in
             on_rt p (fun r => set_cookieGenerator r (fst (Cookie.ConsumeReply (OpenX C) (cookieGenerator r) reply now))))
      end
  end.

(** [RoutineHandshake] on the next element. *)
Definition RoutineHandshake : M unit :=
  let* q := gets handshakeQueue in
  match q with
  | [] => ret tt
  | elem :: rest =>
      let* _ := modify (fun e => set_handshakeQueue e rest) in
      if he_type elem =? Messages.MessageCookieReplyType then handle_cookie elem
      else if (he_type elem =? Messages.MessageInitiationType) || (he_type elem =? Messages.MessageResponseType) then
        let* ok := check_handshake elem in
        if negb ok then ret tt
        else if he_type elem =? Messages.MessageInitiationType then handle_initiation elem
        else handle_response elem
      else ret tt
  end.

(** ** Packets to send *)

Definition IPv4offsetSrc : Z := 12.
Definition IPv4offsetDst : Z := 16.
Definition IPv6offsetSrc : Z := 8.
Definition IPv6offsetDst : Z := 24.

Definition route (src dst : AllowedIPs.addr) (pkt : bytes) : M (option pid) :=
  let* tb := gets allowedips in
  let* d := gets dev in
  lift (AllowedIPs.LookupFromPacket None (LookupPeer d) tb src dst pkt).

(** The peer of a packet read from the TUN device. *)
Definition tun_peer (packet : bytes) : M (option pid) :=
  let len := Z.of_nat (length packet) in
  let* b0 := lift (packet !! 0%nat) in
  if Z.shiftr b0 4 =? 4 then
    if len <? Transport.IPv4HeaderLen then ret None
    else
      let* src := lift (slice packet IPv4offsetSrc (IPv4offsetSrc + 4)) in
      let* dst := lift (slice packet IPv4offsetDst (IPv4offsetDst + 4)) in
      route (AllowedIPs.Addr4 src) (AllowedIPs.Addr4 dst) packet
  else if Z.shiftr b0 4 =? 6 then
    if len <? Transport.IPv6HeaderLen then ret None
    else
      let* src := lift (slice packet IPv6offsetSrc (IPv6offsetSrc + 16)) in
      let* dst := lift (slice packet IPv6offsetDst (IPv6offsetDst + 16)) in
      route (AllowedIPs.Addr6 src) (AllowedIPs.Addr6 dst) packet
  else ret None.

Fixpoint read_all (packets : list bytes) (byPeer : gmap pid (list outElem)) : M (gmap pid (list outElem)) :=
  match packets with
  | [] => ret byPeer
  | packet :: packets' =>
      let size := Z.of_nat (length packet) in
      if (size <? 1) || (size >? ObfChain.MaxMessageSize - Transport.headerLen) then read_all packets' byPeer
      else
        let* peer := tun_peer packet in
        match peer with
        | None => read_all packets' byPeer
        | Some p => read_all packets' (<[p := default [] (byPeer !! p) ++ [mkElem packet 0 None]]> byPeer)
        end
  end.

Definition stage_and_send (p : pid) (cs : list container) : M unit :=
  let* pr := get_peer p in
  when (isRunning pr)
    (let* _ := for_each cs (fun c => on_rt p (StagePackets c)) in
     let* _ := SendStagedPackets p in
     ret tt).

(** The loop body of [RoutineReadFromTUN] after a read. *)
Definition RoutineReadFromTUN (packets : list bytes) : M unit :=
  let* byPeer := read_all packets ∅ in
  for_each (map_to_list byPeer) (fun x => stage_and_send (fst x) [mkContainer (snd x) None]).

Fixpoint gatherPacketBytes (packetSlices : list bytes) (offset need : nat) : option bytes :=
  match packetSlices with
  | [] => None
  | s :: ss =>
      if decide (length s <= offset)%nat then gatherPacketBytes ss (offset - length s) need
      else
        let got := take need (drop offset s) in
        if decide (length got = need) then Some got
        else rest ← gatherPacketBytes ss 0 (need - length got); Some (got ++ rest)
  end.

Definition inputPacketPeer (destination : bytes) (packetSlices : list bytes) : M (option pid) :=
  let pkt := match packetSlices with [s] => s | _ => [] end in
  if decide (length destination = 4%nat) then
    match gatherPacketBytes packetSlices (Z.to_nat IPv4offsetSrc) 4 with
    | None => ret None
    | Some src => route (AllowedIPs.Addr4 src) (AllowedIPs.Addr4 destination) pkt
    end
  else if decide (length destination = 16%nat) then
    match gatherPacketBytes packetSlices (Z.to_nat IPv6offsetSrc) 16 with
    | None => ret None
    | Some src => route (AllowedIPs.Addr6 src) (AllowedIPs.Addr6 destination) pkt
    end
  else ret None.

(** The total length, or [None] beyond the limit. *)
Fixpoint total_length (packetSlices : list bytes) (total : Z) : option Z :=
  match packetSlices with
  | [] => Some total
  | s :: ss =>
      if Z.of_nat (length s) >? ObfChain.awgMaxPacketSize - total then None
      else total_length ss (total + Z.of_nat (length s))
  end.

(** The packet, when it is short enough for a buffer. *)
Definition gather_packet (packetSlices : list bytes) : option bytes :=
  total ← total_length packetSlices 0;
  let allocLength := Transport.headerLen + total + Transport.PaddingMultiple + 16 in
  if allocLength >? ObfChain.MaxMessageSize then None else Some (concat packetSlices).

Definition InputPacket (destination : bytes) (packetSlices : list bytes) : M unit :=
  let* peer := inputPacketPeer destination packetSlices in
  match peer with
  | None => ret tt
  | Some p =>
      let* r := get_rt p in
      if queuedOutboundPackets (queues r) >=? maxQueuedInputPackets then ret tt
      else
        match gather_packet packetSlices with
        | None => ret tt
        | Some packet => stage_and_send p [mkContainer [mkElem packet 0 None] None]
        end
  end.

(** A packet joins the last container that has room. *)
Definition add_to_batch (cs : list container) (e : outElem) : list container :=
  match list.last cs with
  | Some c =>
      if decide (IdealBatchSize <= length (elems c))%nat then cs ++ [mkContainer [e] None]
      else removelast cs ++ [mkContainer (elems c ++ [e]) None]
  | None => [mkContainer [e] None]
  end.

(** The unmatched packets are returned. *)
Fixpoint input_all (packets : list (bytes * list bytes)) (byPeer : gmap pid (list container)) (unmatched : list (bytes * list bytes))
    : M (gmap pid (list container) * list (bytes * list bytes)) :=
  match packets with
  | [] => ret (byPeer, unmatched)
  | (destination, packetSlices) :: packets' =>
      let* peer := inputPacketPeer destination packetSlices in
      match peer with
      | None => input_all packets' byPeer (unmatched ++ [(destination, packetSlices)])
      | Some p =>
          let* r := get_rt p in
          if queuedOutboundPackets (queues r) >=? maxQueuedInputPackets then input_all packets' byPeer unmatched
          else
            match gather_packet packetSlices with
            | None => input_all packets' byPeer unmatched
            | Some packet =>
                input_all packets' (<[p := add_to_batch (default [] (byPeer !! p)) (mkElem packet 0 None)]> byPeer) unmatched
            end
      end
  end.

Definition InputPackets (packets : list (bytes * list bytes)) : M (list (bytes * list bytes)) :=
  let* (byPeer, unmatched) := input_all packets ∅ [] in
  let* _ := for_each (map_to_list byPeer) (fun x => stage_and_send (fst x) (snd x)) in
  ret unmatched.

(** ** Life cycle of a peer *)

Definition set_isRunning (p : pid) (b : bool) : M unit :=
  change_dev (fun d => Noise.set_isRunning d p b).

Definition ZeroAndFlushAll (p : pid) : M unit :=
  let* _ := on_rt p (Del sessionExpired) in
  let* _ := change_dev (fun d => Noise.ZeroAndFlushAll d p) in
  on_rt p (fun r => noteSessionStateLocked PeerSessionNone (set_expires (FlushStagedPackets r) zeroTime)).

Definition ExpireCurrentKeypairs (p : pid) : M unit :=
  let* now := gets clock in
  let* _ := change_dev (fun d => Noise.ExpireCurrentKeypairs d p now) in
  on_rt p (fun r => noteSessionStateLocked PeerSessionExpired (set_expires r zeroTime)).

Definition Start (p : pid) : M unit :=
  let* closed := gets isClosed in
  let* pr := get_peer p in
  if closed || isRunning pr then ret tt
  else
    let* now := gets clock in
    let* _ := set_lastSent p (now - (RekeyTimeout + Second)) in
    let* _ := on_rt p (fun r =>
      update_queues (fun q => mkQueues (staged q) [] 0 []) (timersStart r)) in
    let* _ := set_isRunning p true in
    let* r := get_rt p in
    when (deleteOnIdle r) (on_rt p (Mod zeroKeyMaterial now (RejectAfterTime * 3))).

(** The receiver works off its queue before it stops. *)
Fixpoint drain_inbound (fuel : nat) (p : pid) : M unit :=
  match fuel with
  | O => ret tt
  | S fuel' => let* _ := processInboundContainer p in drain_inbound fuel' p
  end.

Definition Stop (p : pid) : M unit :=
  let* pr := get_peer p in
  if negb (isRunning pr) then ret tt
  else
    let* _ := set_isRunning p false in
    let* _ := on_rt p timersStop in
    let* r := get_rt p in
    let* _ := drain_inbound (length (inbound (queues r))) p in
    let* _ := on_rt p (update_queues (fun q => set_outbound (drop_all (outbound q) q) [])) in
    ZeroAndFlushAll p.

Definition delete_key (pk : bytes) : M unit :=
  change_dev (fun d => Some (deleteKey d pk)).

Definition removePeerLocked (p : pid) (pk : bytes) : M unit :=
  let* tb := gets allowedips in
  let* tb := lift (AllowedIPs.RemoveByPeer tb p) in
  let* _ := modify (fun e => set_allowedips e tb) in
  let* _ := Stop p in
  delete_key pk.

Definition RemovePeer (pk : bytes) : M unit :=
  let* d := gets dev in
  match keyMap d !! pk with
  | None => ret tt
  | Some p => removePeerLocked p pk
  end.

Definition RemoveAllPeers : M unit :=
  let* d := gets dev in
  let* _ := for_each (map_to_list (keyMap d)) (fun x => removePeerLocked (snd x) (fst x)) in
  change_dev (fun d => Some (mkDevice (privateKey d) (publicKey d) ∅ (peers d) (indexTable d) (keypairs d))).

Definition RemoveMatchingPeers (shouldRemove : bytes -> bool) : M Z :=
  let* d := gets dev in
  let matching := List.filter (fun x => shouldRemove (fst x)) (map_to_list (keyMap d)) in
  let* _ := for_each matching (fun x => removePeerLocked (snd x) (fst x)) in
  ret (Z.of_nat (length matching)).

Definition NewPeer (pk : bytes) : M (option pid) :=
  let* closed := gets isClosed in
  if closed then ret None
  else
    let* p := on_dev (fun d => Some (Noise.NewPeer (ScalarMult C) d pk)) in
    match p with
    | None => ret None
    | Some p =>
        let gen := Cookie.generator_Init (blake2s C) Cookie.zeroGenerator pk in
        let* _ := modify (fun e => set_runtimes e (<[p := newRuntime gen]> (runtimes e))) in
        ret (Some p)
    end.

(** ** Timers *)

Definition expiredRetransmitHandshake (p : pid) : M unit :=
  let* r := get_rt p in
  if handshakeAttempts (timers r) >? MaxTimerHandshakes then
    let* active := timersActive p in
    let* now := gets clock in
    let* pr := get_peer p in
    on_rt p (fun r =>
      let r := if active then Del sendKeepalive r else r in
      let r := FlushStagedPackets r in
      let r := if active && negb (IsPending r zeroKeyMaterial) then Mod zeroKeyMaterial now (RejectAfterTime * 3) r else r in
      noteSessionHandshakeStopped pr r)
  else
    let* _ := on_rt p (fun r => markEndpointSrcForClearing
                (update_timers (fun t => set_handshakeAttempts t (u32 (handshakeAttempts t + 1))) r)) in
    let* _ := SendHandshakeInitiation p true in
    ret tt.

Definition expiredSendKeepalive (p : pid) : M unit :=
  let* _ := SendKeepalive p in
  let* r := get_rt p in
  when (needAnotherKeepalive (timers r))
    (let* _ := on_rt p (update_timers (fun t => set_needAnotherKeepalive t false)) in
     timer_event p (fun active now r => if active then Mod sendKeepalive now KeepaliveTimeout r else r)).

Definition expiredNewHandshake (p : pid) : M unit :=
  let* _ := on_rt p markEndpointSrcForClearing in
  let* _ := SendHandshakeInitiation p false in
  ret tt.

(** The removal of a lazily created peer runs in a goroutine of its own; here it
    follows at once. *)
Definition expiredZeroKeyMaterial (p : pid) : M unit :=
  let* _ := ZeroAndFlushAll p in
  let* r := get_rt p in
  let* pr := get_peer p in
  when (deleteOnIdle r) (RemovePeer (remoteStatic (handshake pr))).

Definition expiredPersistentKeepalive (p : pid) : M unit :=
  let* r := get_rt p in
  when (persistentKeepaliveInterval r >? 0) (let* _ := SendKeepalive p in ret tt).

Definition expirationFunction (id : timerId) (p : pid) : M unit :=
  match id with
  | retransmitHandshake => expiredRetransmitHandshake p
  | sendKeepalive => expiredSendKeepalive p
  | newHandshake => expiredNewHandshake p
  | sessionExpired => let* now := gets clock in on_rt p (expiredSession now)
  | zeroKeyMaterial => expiredZeroKeyMaterial p
  | persistentKeepalive => expiredPersistentKeepalive p
  end.

(** The function of [NewTimer], when the deadline has passed. *)
Definition fire (id : timerId) (p : pid) : M unit :=
  let* r := get_rt p in
  let* now := gets clock in
  match deadline (timers r) id with
  | Some t => if t <=? now then let* _ := on_rt p (Del id) in expirationFunction id p else ret tt
  | None => ret tt
  end.

(** ** Life cycle of the device *)

Definition all_peers : M (list pid) := let* d := gets dev in ret (map snd (map_to_list (keyMap d))).

Definition set_port (n : Z) : M unit := modify (fun e => set_net e (mkNet n (fwmark (net e)) (brokenRoaming (net e)))).
Definition set_fwmark (m : Z) : M unit := modify (fun e => set_net e (mkNet (port (net e)) m (brokenRoaming (net e)))).

Definition clear_sources : M unit :=
  let* ps := all_peers in
  for_each ps (fun p => on_rt p markEndpointSrcForClearing).

(** Whether an error occurred; the sockets are the bind's.  The calls to the bind
    and to the route listener fail as [o_bind] says, [o_open] gives the port. *)
Definition BindUpdate : M bool :=
  let* err := call (o_bind W) in
  let* up := gets isUp in
  if err : bool then ret true
  else if negb up then ret false
  else
    let* n := gets net in
    let* opened := call (fun i => o_open W i (port n)) in
    let* _ := set_port (fst opened) in
    if snd opened then let* _ := set_port 0 in ret true
    else
      let* err := call (o_bind W) in
      if err : bool then
        let* _ := call (o_bind W) in
        let* _ := set_port 0 in
        ret true
      else
        let* n := gets net in
        let* err := (if fwmark n =? 0 then ret false else call (o_bind W)) in
        if err : bool then ret true
        else
          let* _ := clear_sources in
          ret false.

Definition BindSetMark (mark : Z) : M bool :=
  let* n := gets net in
  if fwmark n =? mark then ret false
  else
    let* _ := set_fwmark mark in
    let* up := gets isUp in
    let* err := (if (up : bool) then call (o_bind W) else ret false) in
    if err : bool then ret true
    else
      let* _ := clear_sources in
      ret false.

Definition DisableSomeRoamingForBrokenMobileSemantics : M unit :=
  let* _ := modify (fun e => set_net e (mkNet (port (net e)) (fwmark (net e)) true)) in
  let* ps := all_peers in
  for_each ps (fun p => on_rt p (update_endpoint (fun s => set_disableRoaming s (bool_decide (is_Some (ep_val s)))))).

Definition upLocked : M bool :=
  let* err := BindUpdate in
  if (err : bool) then ret true
  else
    let* ps := all_peers in
    let* _ := for_each ps (fun p =>
      let* _ := Start p in
      let* r := get_rt p in
      when (persistentKeepaliveInterval r >? 0) (let* _ := SendKeepalive p in ret tt)) in
    ret false.

Definition downLocked : M bool :=
  let* err := call (o_bind W) in
  let* ps := all_peers in
  let* _ := for_each ps Stop in
  ret err.

Definition changeState (want : deviceState) : M bool :=
  let* old := gets dstate in
  let down (err : bool) :=
    let* _ := modify (fun e => set_dstate e deviceStateDown) in
    let* errDown := downLocked in
    ret (if err then err else errDown) in
  if bool_decide (old = deviceStateClosed) || bool_decide (want = old) then ret false
  else
    match want with
    | deviceStateUp =>
        let* _ := modify (fun e => set_dstate e deviceStateUp) in
        let* err := upLocked in
        if (err : bool) then down err else ret false
    | deviceStateDown => down false
    | deviceStateClosed => ret false
    end.

Definition Up : M bool := changeState deviceStateUp.
Definition Down : M bool := changeState deviceStateDown.

(** An event of the TUN device: the MTU it reports and whether reading it failed,
    requests to go up or down. *)
Record tunEvent := mkTunEvent {
  ev_mtu : option (Z * bool);
  ev_up : bool;
  ev_down : bool
}.

Definition set_mtu (n : Z) : M unit :=
  modify (fun e => let c := config e in
    set_config e (mkConfig (wire c) (junk c) (ipackets c) (contentPaddingAddition c) (rekeyAfterTimeSec c) (disableCookies c) n)).

(** The loop body of [RoutineTUNEventReader]. *)
Definition RoutineTUNEventReader (ev : tunEvent) : M unit :=
  let go_on :=
    let* _ := when (ev_up ev) (let* _ := Up in ret tt) in
    when (ev_down ev) (let* _ := Down in ret tt) in
  match ev_mtu ev with
  | None => go_on
  | Some (n, err) =>
      if (err : bool) || (n <? 0) then ret tt
      else let* _ := set_mtu (if n >? MaxContentSize then MaxContentSize else n) in go_on
  end.

Definition Close : M unit :=
  let* closed := gets isClosed in
  if closed then ret tt
  else
    let* _ := modify (fun e => set_dstate e deviceStateClosed) in
    let* _ := downLocked in
    let* _ := RemoveAllPeers in
    let* lim := gets limiter in
    let* lim := lift (Ratelimiter.Close lim) in
    modify (fun e => set_limiter e lim).

Definition SendKeepalivesToPeersWithCurrentKeypair : M unit :=
  let* up := gets isUp in
  if negb up then ret tt
  else
    let* d := gets dev in
    let* now := gets clock in
    let* ps := all_peers in
    let live p :=
      match (pr ← peers d !! p; k ← current pr; keypairs d !! k) with
      | Some kp => negb (created kp + RejectAfterTime <? now)
      | None => false
      end in
    for_each (List.filter live ps) (fun p => let* _ := SendKeepalive p in ret tt).

Definition SetPrivateKey (sk : bytes) : M unit :=
  let* d := gets dev in
  if bool_decide (sk = privateKey d) then ret tt
  else
    let publicKey := ScalarBaseMult C sk in
    let* _ := for_each (self_peers d publicKey) (fun x => removePeerLocked (snd x) (fst x)) in
    let* _ := change_dev (fun d => Some (setIdentity d sk publicKey)) in
    let* _ := modify (fun e => set_checker e (Cookie.checker_Init (blake2s C) (checker e) publicKey)) in
    let* ps := all_peers in
    let* _ := change_dev (fun d => Some (precompute (ScalarMult C) d ps)) in
    for_each ps ExpireCurrentKeypairs.

(** [NewDevice] with the MTU of its TUN device, at time [now]. *)
Definition NewDevice (mtu now : Z) : Engine :=
  let single t := Some (MagicHeader.mkHeader t t) in
  let wire := Wire.mkWire (single Messages.MessageInitiationType) (single Messages.MessageResponseType)
                (single Messages.MessageCookieReplyType) (single Messages.MessageTransportType) 0 0 0 0 None false in
  mkEngine (mkConfig wire (mkJunk 0 0 0) (repeat None 5) 0 0 false mtu)
    (mkDevice (Noise.zeros 32) (Noise.zeros 32) ∅ ∅ ∅ ∅) deviceStateDown AllowedIPs.empty_table Cookie.zeroChecker
    (Ratelimiter.mkLimiter Ratelimiter.ChanOpen false ∅) 0 ∅ [] now 0 [] (mkNet 0 0 false).

End Engine.

End Engine.
