(* ===== verification/Uapi.v ===== *)
(** * The configuration protocol of the device

    Models submodules/wireguard-go/device/uapi.go: the text protocol by which a
    device is configured ([IpcSetOperation]) and shown ([IpcGetOperation]), with
    the hexadecimal keys of noise-types.go.  Text is a list of bytes. *)

From S2P Require Import Prelude Bits Bytes GoStrings GoNetip Replay Ratelimiter AllowedIPs MagicHeader.
From S2P Require Import ObfChain Messages Wire Tai64n Noise Cookie Transport Runtime Engine.

Module Uapi.

Import Noise Runtime Engine.

Local Open Scope Z_scope.
Local Open Scope engine_scope.

(** ** Values *)

Definition loadExactHex (size : nat) (src : bytes) : option bytes :=
  slice ← hex_DecodeString src;
  if bool_decide (length slice = size) then Some slice else None.

Definition NoisePrivateKey_FromMaybeZeroHex (src : bytes) : option bytes :=
  key ← loadExactHex 32 src;
  Some (if isZero key then key else Noise.clamp key).

Definition NoisePublicKey_FromHex (src : bytes) : option bytes := loadExactHex 32 src.
Definition NoisePresharedKey_FromHex (src : bytes) : option bytes := loadExactHex 32 src.
Definition HeaderCipherKey_FromHex (src : bytes) : option bytes := loadExactHex Wire.HeaderCipherKeySize src.

(** [strconv.ParseBool] *)
Definition ParseBool (s : bytes) : option bool :=
  if bool_decide (s ∈ [str "1"; str "t"; str "T"; str "true"; str "TRUE"; str "True"]) then Some true
  else if bool_decide (s ∈ [str "0"; str "f"; str "F"; str "false"; str "FALSE"; str "False"]) then Some false
  else None.

(** ** Lines of input *)

(** [bufio.Scanner] with [ScanLines]: the lines, without their line ends, and
    whether one was too long to read on. *)
Definition MaxScanTokenSize : nat := 64 * 1024.

Definition dropCR (line : bytes) : bytes :=
  match list.last line with
  | Some 13 => removelast line
  | _ => line
  end.

Fixpoint scan_lines (pieces : list bytes) : list bytes * bool :=
  match pieces with
  | [] => ([], false)
  | [piece] =>
      if bool_decide (piece = []) then ([], false)
      else if (MaxScanTokenSize <=? length piece)%nat then ([], true)
      else ([dropCR piece], false)
  | piece :: pieces' =>
      if (MaxScanTokenSize <=? length piece)%nat then ([], true)
      else let '(ls, long) := scan_lines pieces' in (dropCR piece :: ls, long)
  end.

Definition newline : Z := 10.
Definition equals : Z := 61.

Definition Scan (input : bytes) : list bytes * bool := scan_lines (Split input newline).

(** ** A set operation *)

Inductive ipcError := IpcErrorIO | IpcErrorProtocol | IpcErrorInvalid | IpcErrorPortInUse.

Record ipcSetDevice := mkSetDevice {
  sd_p_init : Z;
  sd_p_response : Z;
  sd_p_cookie : Z;
  sd_p_transport : Z;
  sd_headerProtectionKey : option bytes;
  sd_h_init : option MagicHeader.magicHeader;
  sd_h_response : option MagicHeader.magicHeader;
  sd_h_cookie : option MagicHeader.magicHeader;
  sd_h_transport : option MagicHeader.magicHeader
}.

(** [ipcSetPeer.Peer]: nil, a placeholder, of which only the keepalive interval is
    read, or a peer of the device. *)
Inductive target := NoTarget | Placeholder (interval : Z) | Target (p : pid).

Record ipcSetPeer := mkSetPeer {
  sp_peer : target;
  dummy : bool;
  created : bool;
  pkaOn : bool
}.

(** A step of the operation fails or gives its new state. *)
Abbreviation R A := (M (ipcError + A)).

Definition throw {A} (err : ipcError) : R A := ret (inl err).
Definition done {A} (a : A) : R A := ret (inr a).

(** The value, or the error [IpcErrorInvalid]. *)
Definition parsed {A B} (v : option A) (k : A -> R B) : R B :=
  match v with
  | None => throw IpcErrorInvalid
  | Some a => k a
  end.

(** *** Field updates *)

Definition set_paddings (d : ipcSetDevice) (p1 p2 p3 p4 : Z) : ipcSetDevice :=
  mkSetDevice p1 p2 p3 p4 (sd_headerProtectionKey d) (sd_h_init d) (sd_h_response d) (sd_h_cookie d) (sd_h_transport d).
Definition set_headers (d : ipcSetDevice) (h1 h2 h3 h4 : option MagicHeader.magicHeader) : ipcSetDevice :=
  mkSetDevice (sd_p_init d) (sd_p_response d) (sd_p_cookie d) (sd_p_transport d) (sd_headerProtectionKey d) h1 h2 h3 h4.
Definition set_key (d : ipcSetDevice) (k : option bytes) : ipcSetDevice :=
  mkSetDevice (sd_p_init d) (sd_p_response d) (sd_p_cookie d) (sd_p_transport d) k (sd_h_init d) (sd_h_response d)
    (sd_h_cookie d) (sd_h_transport d).

Definition with_config (f : Config -> Config) : M unit := modify (fun e => set_config e (f (config e))).
Definition c_wire (c : Config) (w : Wire.wireState) : Config :=
  mkConfig w (junk c) (ipackets c) (contentPaddingAddition c) (rekeyAfterTimeSec c) (disableCookies c) (mtu c).
Definition c_junk (c : Config) (j : Junk) : Config :=
  mkConfig (wire c) j (ipackets c) (contentPaddingAddition c) (rekeyAfterTimeSec c) (disableCookies c) (mtu c).
Definition c_ipackets (c : Config) (l : list (option ObfChain.obfChain)) : Config :=
  mkConfig (wire c) (junk c) l (contentPaddingAddition c) (rekeyAfterTimeSec c) (disableCookies c) (mtu c).
Definition c_addition (c : Config) (r : Z) : Config :=
  mkConfig (wire c) (junk c) (ipackets c) r (rekeyAfterTimeSec c) (disableCookies c) (mtu c).
Definition c_rekey (c : Config) (r : Z) : Config :=
  mkConfig (wire c) (junk c) (ipackets c) (contentPaddingAddition c) r (disableCookies c) (mtu c).
Definition c_cookies (c : Config) (b : bool) : Config :=
  mkConfig (wire c) (junk c) (ipackets c) (contentPaddingAddition c) (rekeyAfterTimeSec c) b (mtu c).
Definition w_trailers (w : Wire.wireState) (b : bool) : Wire.wireState :=
  Wire.mkWire (Wire.h_init w) (Wire.h_response w) (Wire.h_cookie w) (Wire.h_transport w) (Wire.p_init w) (Wire.p_response w)
    (Wire.p_cookie w) (Wire.p_transport w) (Wire.hp_key w) b.

(** *** Merging the device lines *)

Definition fill (h old : option MagicHeader.magicHeader) : option MagicHeader.magicHeader :=
  match h with None => old | Some _ => h end.

Definition fill_headers (d : ipcSetDevice) (w : Wire.wireState) : ipcSetDevice :=
  set_headers d (fill (sd_h_init d) (Wire.h_init w)) (fill (sd_h_response d) (Wire.h_response w))
    (fill (sd_h_cookie d) (Wire.h_cookie w)) (fill (sd_h_transport d) (Wire.h_transport w)).

Definition valid_prefix (protected : bool) (prefix : Z) (core : nat) : bool :=
  bool_decide (is_Some (Wire.awgPacketSize prefix (Z.of_nat core) 0)) && negb (protected && (prefix <? Wire.HeaderCipherNonceSize)).

Definition valid_prefixes (d : ipcSetDevice) : bool :=
  let protected := match sd_headerProtectionKey d with Some key => negb (Wire.key_is_zero key) | None => false end in
  valid_prefix protected (sd_p_init d) Messages.MessageInitiationSize &&
  valid_prefix protected (sd_p_response d) Messages.MessageResponseSize &&
  valid_prefix protected (sd_p_cookie d) Messages.MessageCookieReplySize &&
  valid_prefix protected (sd_p_transport d) Messages.MessageTransportSize.

Definition overlap (left right : MagicHeader.magicHeader) : bool :=
  (MagicHeader.start left <=? MagicHeader.end_ right) && (MagicHeader.start right <=? MagicHeader.end_ left).

(** The two loops over the headers. *)
Fixpoint valid_headers (hs : list (option MagicHeader.magicHeader)) : bool :=
  match hs with
  | [] => true
  | None :: _ => false
  | Some h :: hs' =>
      negb (u64 (u64 (MagicHeader.end_ h - MagicHeader.start h) + 1) =? 2 ^ 32) &&
      forallb (fun h' => match h' with None => false | Some h' => negb (overlap h h') end) hs' &&
      valid_headers hs'
  end.

Definition headers_of (d : ipcSetDevice) : list (option MagicHeader.magicHeader) :=
  [sd_h_init d; sd_h_response d; sd_h_cookie d; sd_h_transport d].

Definition install (d : ipcSetDevice) (w : Wire.wireState) : Wire.wireState :=
  Wire.mkWire (sd_h_init d) (sd_h_response d) (sd_h_cookie d) (sd_h_transport d) (sd_p_init d) (sd_p_response d)
    (sd_p_cookie d) (sd_p_transport d) (sd_headerProtectionKey d) (Wire.randomTrailers w).

Definition mergeWithDevice (d : ipcSetDevice) : R ipcSetDevice :=
  let* c := gets config in
  if negb (valid_prefixes d) then throw IpcErrorInvalid
  else
    let d := fill_headers d (wire c) in
    if negb (valid_headers (headers_of d)) then throw IpcErrorInvalid
    else
      let* _ := with_config (fun c => c_wire c (install d (wire c))) in
      done d.

Section Uapi.

Context (C : Primitives) (W : Oracles) (priorityMsgFn : option (bytes -> bytes)).

(** *** Device lines *)

(** A line [jc], [jmin], [jmax]. *)
Definition junk_line (value : bytes) (d : ipcSetDevice) (f : Junk -> Z -> Junk) : R ipcSetDevice :=
  parsed (Atoi value) (fun n =>
    if n <=? 0 then throw IpcErrorInvalid
    else let* _ := with_config (fun c => c_junk c (f (junk c) n)) in done d).

(** A line [s1] to [s4]. *)
Definition padding_line (value : bytes) (f : Z -> ipcSetDevice) : R ipcSetDevice :=
  parsed (Atoi value) (fun n => if n <? 0 then throw IpcErrorInvalid else done (f n)).

(** A line [h1] to [h4]. *)
Definition header_line (value : bytes) (f : option MagicHeader.magicHeader -> ipcSetDevice) : R ipcSetDevice :=
  parsed (MagicHeader.newMagicHeader value) (fun h => done (f (Some h))).

(** A line [i1] to [i5]. *)
Definition chain_line (value : bytes) (d : ipcSetDevice) (i : nat) : R ipcSetDevice :=
  parsed (ObfChain.newObfChain value) (fun chain =>
    let* _ := with_config (fun c => c_ipackets c (<[i := Some chain]> (ipackets c))) in done d).

Definition handleDeviceLine (d : ipcSetDevice) (key value : bytes) : R ipcSetDevice :=
  let key_is k := bool_decide (key = str k) in
  let h1 := sd_h_init d in
  let h2 := sd_h_response d in
  let h3 := sd_h_cookie d in
  let h4 := sd_h_transport d in
  let s1 := sd_p_init d in
  let s2 := sd_p_response d in
  let s3 := sd_p_cookie d in
  let s4 := sd_p_transport d in
  if key_is "private_key" then
    parsed (NoisePrivateKey_FromMaybeZeroHex value) (fun sk => let* _ := SetPrivateKey C W priorityMsgFn sk in done d)
  else if key_is "listen_port" then
    parsed (ParseUint value 16) (fun n =>
      let* _ := set_port n in
      let* err := BindUpdate W in
      if err : bool then throw IpcErrorPortInUse else done d)
  else if key_is "fwmark" then
    parsed (ParseUint value 32) (fun mark =>
      let* err := BindSetMark W mark in
      if err : bool then throw IpcErrorPortInUse else done d)
  else if key_is "replace_peers" then
    if negb (bool_decide (value = str "true")) then throw IpcErrorInvalid
    else let* _ := RemoveAllPeers C W priorityMsgFn in done d
  else if key_is "jc" then junk_line value d (fun j n => mkJunk n (j_min j) (j_max j))
  else if key_is "jmin" then junk_line value d (fun j n => mkJunk (j_count j) n (j_max j))
  else if key_is "jmax" then junk_line value d (fun j n => mkJunk (j_count j) (j_min j) n)
  else if key_is "s1" then padding_line value (fun n => set_paddings d n s2 s3 s4)
  else if key_is "s2" then padding_line value (fun n => set_paddings d s1 n s3 s4)
  else if key_is "s3" then padding_line value (fun n => set_paddings d s1 s2 n s4)
  else if key_is "s4" then padding_line value (fun n => set_paddings d s1 s2 s3 n)
  else if key_is "h1" then header_line value (fun h => set_headers d h h2 h3 h4)
  else if key_is "h2" then header_line value (fun h => set_headers d h1 h h3 h4)
  else if key_is "h3" then header_line value (fun h => set_headers d h1 h2 h h4)
  else if key_is "h4" then header_line value (fun h => set_headers d h1 h2 h3 h)
  else if key_is "i1" then chain_line value d 0
  else if key_is "i2" then chain_line value d 1
  else if key_is "i3" then chain_line value d 2
  else if key_is "i4" then chain_line value d 3
  else if key_is "i5" then chain_line value d 4
  else if key_is "random_trailers" then
    parsed (ParseBool value) (fun b => let* _ := with_config (fun c => c_wire c (w_trailers (wire c) b)) in done d)
  else if key_is "disable_cookies" then
    parsed (ParseBool value) (fun b => let* _ := with_config (fun c => c_cookies c b) in done d)
  else if key_is "header_protection_key" then
    parsed (HeaderCipherKey_FromHex value) (fun k => done (set_key d (Some k)))
  else if key_is "content_padding_addition" then
    parsed (MagicHeader.FromString value) (fun r => let* _ := with_config (fun c => c_addition c r) in done d)
  else if key_is "rekey_after_time" then
    parsed (MagicHeader.FromString value) (fun r => let* _ := with_config (fun c => c_rekey c r) in done d)
  else throw IpcErrorInvalid.

(** *** Peer lines *)

Definition handlePostConfig (peer : ipcSetPeer) : M unit :=
  match sp_peer peer with
  | Target p =>
      if dummy peer then ret tt
      else
        let* n := gets net in
        let* _ := when (created peer) (on_rt p (update_endpoint (fun s =>
          set_disableRoaming s (brokenRoaming n && bool_decide (is_Some (ep_val s)))))) in
        let* up := gets isUp in
        when up
          (let* _ := Start p in
           let* _ := when (pkaOn peer) (let* _ := SendKeepalive C W p in ret tt) in
           let* _ := SendStagedPackets C W p in
           ret tt)
  | _ => ret tt
  end.

Definition handlePublicKeyLine (peer : ipcSetPeer) (value : bytes) : R ipcSetPeer :=
  parsed (NoisePublicKey_FromHex value) (fun pk =>
    let* d := gets dev in
    if bool_decide (publicKey d = pk) then done (mkSetPeer (Placeholder 0) true false (pkaOn peer))
    else
      match LookupPeer d pk with
      | Some p => done (mkSetPeer (Target p) false false (pkaOn peer))
      | None =>
          let* p := NewPeer C pk in
          match p with
          | None => throw IpcErrorInvalid
          | Some p => done (mkSetPeer (Target p) false true (pkaOn peer))
          end
      end).

Definition set_interval (peer : ipcSetPeer) (secs : Z) : R ipcSetPeer :=
  match sp_peer peer with
  | Target p =>
      let* r := get_rt p in
      let* _ := on_rt p (fun r => set_persistentKeepaliveInterval r secs) in
      done (mkSetPeer (Target p) (dummy peer) (created peer) ((persistentKeepaliveInterval r =? 0) && negb (secs =? 0)))
  | Placeholder interval =>
      done (mkSetPeer (Placeholder secs) (dummy peer) (created peer) ((interval =? 0) && negb (secs =? 0)))
  | NoTarget => lift None
  end.

(** The placeholder a removed peer is replaced with. *)
Definition no_peer (peer : ipcSetPeer) : ipcSetPeer := mkSetPeer (Placeholder 0) true (created peer) (pkaOn peer).

Definition remove_target (peer : ipcSetPeer) : M unit :=
  match sp_peer peer with
  | Target p =>
      let* pr := get_peer p in
      RemovePeer C W priorityMsgFn (remoteStatic (handshake pr))
  | _ => ret tt
  end.

Definition on_routes (f : routes -> option routes) : M unit :=
  let* tb := gets allowedips in
  let* tb := lift (f tb) in
  modify (fun e => set_allowedips e tb).

Definition handlePeerLine (peer : ipcSetPeer) (key value : bytes) : R ipcSetPeer :=
  let key_is k := bool_decide (key = str k) in
  let is_true := bool_decide (value = str "true") in
  if key_is "update_only" then
    if negb is_true then throw IpcErrorInvalid
    else if created peer && negb (dummy peer) then let* _ := remove_target peer in done (no_peer peer)
    else done peer
  else if key_is "remove" then
    if negb is_true then throw IpcErrorInvalid
    else let* _ := when (negb (dummy peer)) (remove_target peer) in done (no_peer peer)
  else if key_is "preshared_key" then
    parsed (NoisePresharedKey_FromHex value) (fun psk =>
      let* _ := (match sp_peer peer with Target p => change_dev (fun d => SetPresharedKey d p psk) | _ => ret tt end) in
      done peer)
  else if key_is "endpoint" then
    parsed (o_ParseEndpoint W value) (fun ep =>
      let* _ := (match sp_peer peer with
                 | Target p => on_rt p (update_endpoint (fun s => set_ep_val s (Some ep)))
                 | _ => ret tt
                 end) in
      done peer)
  else if key_is "persistent_keepalive_interval" then parsed (ParseUint value 16) (set_interval peer)
  else if key_is "replace_allowed_ips" then
    if negb is_true then throw IpcErrorInvalid
    else
      match sp_peer peer with
      | Target p => if dummy peer then done peer else let* _ := on_routes (fun tb => AllowedIPs.RemoveByPeer tb p) in done peer
      | _ => done peer
      end
  else if key_is "allowed_ip" then
    let '(add, value) := match value with 45 :: value' => (false, value') | _ => (true, value) end in
    parsed (GoNetip.ParsePrefix value) (fun pfx =>
      match sp_peer peer with
      | Target p =>
          if dummy peer then done peer
          else
            let* _ := on_routes (fun tb => if add : bool then AllowedIPs.Insert tb pfx p else AllowedIPs.Remove tb pfx p) in
            done peer
      | _ => done peer
      end)
  else if key_is "protocol_version" then
    if bool_decide (value = str "1") then done peer else throw IpcErrorInvalid
  else throw IpcErrorInvalid.

(** *** The operation *)

Definition finish (d : ipcSetDevice) (peer : ipcSetPeer) : M (option ipcError) :=
  let* merged := mergeWithDevice d in
  match merged with
  | inl err => ret (Some err)
  | inr _ => let* _ := handlePostConfig peer in ret None
  end.

(** The loop over the lines; [failed]: the scanner stopped with an error. *)
Fixpoint set_lines (lines : list bytes) (failed : bool) (d : ipcSetDevice) (peer : ipcSetPeer) (deviceConfig : bool)
    : M (option ipcError) :=
  match lines with
  | [] => if failed then ret (Some IpcErrorIO) else finish d peer
  | line :: lines' =>
      if bool_decide (line = []) then finish d peer
      else
        let '(key, value, ok) := Cut line equals in
        if negb ok then ret (Some IpcErrorProtocol)
        else if bool_decide (key = str "public_key") then
          let* merged := (if deviceConfig then mergeWithDevice d else done d) in
          match merged with
          | inl err => ret (Some err)
          | inr d =>
              let* _ := handlePostConfig peer in
              let* r := handlePublicKeyLine peer value in
              match r with
              | inl err => ret (Some err)
              | inr peer => set_lines lines' failed d peer false
              end
          end
        else if deviceConfig then
          let* r := handleDeviceLine d key value in
          match r with
          | inl err => ret (Some err)
          | inr d => set_lines lines' failed d peer true
          end
        else
          let* r := handlePeerLine peer key value in
          match r with
          | inl err => ret (Some err)
          | inr peer => set_lines lines' failed d peer false
          end
  end.

(** [readErr]: the reader ends with an error other than the end of the input. *)
Definition IpcSetOperation (input : bytes) (readErr : bool) : M (option ipcError) :=
  let* c := gets config in
  let w := wire c in
  let d := mkSetDevice (Wire.p_init w) (Wire.p_response w) (Wire.p_cookie w) (Wire.p_transport w) (Wire.hp_key w) None None None None in
  let '(lines, long) := Scan input in
  set_lines lines (long || readErr) d (mkSetPeer NoTarget false false false) true.

Definition IpcSet (uapiConf : bytes) : M (option ipcError) := IpcSetOperation uapiConf false.

End Uapi.

(** ** A get operation *)

Definition text_line (key : string) (value : bytes) : bytes := str key ++ [equals] ++ value ++ [newline].

Definition sendf_unless (skip : bool) (key : string) (value : bytes) : bytes := if skip then [] else text_line key value.

Definition header_text (key : string) (h : option MagicHeader.magicHeader) : bytes :=
  match h with None => [] | Some h => text_line key (MagicHeader.GenSpec h) end.

Definition chain_text (key : string) (c : option ObfChain.obfChain) : bytes :=
  match c with None => [] | Some c => text_line key (ObfChain.Spec c) end.

(** The lines of the obfuscation settings. *)
Definition wire_text (w : Wire.wireState) : bytes :=
  sendf_unless (Wire.p_init w =? 0) "s1" (FormatInt (Wire.p_init w)) ++
  sendf_unless (Wire.p_response w =? 0) "s2" (FormatInt (Wire.p_response w)) ++
  sendf_unless (Wire.p_cookie w =? 0) "s3" (FormatInt (Wire.p_cookie w)) ++
  sendf_unless (Wire.p_transport w =? 0) "s4" (FormatInt (Wire.p_transport w)) ++
  header_text "h1" (Wire.h_init w) ++ header_text "h2" (Wire.h_response w) ++
  header_text "h3" (Wire.h_cookie w) ++ header_text "h4" (Wire.h_transport w).

Definition chains_text (cs : list (option ObfChain.obfChain)) : bytes :=
  match cs with
  | [c1; c2; c3; c4; c5] =>
      chain_text "i1" c1 ++ chain_text "i2" c2 ++ chain_text "i3" c3 ++ chain_text "i4" c4 ++ chain_text "i5" c5
  | _ => []
  end.

Definition key_text (k : option bytes) : bytes :=
  match k with
  | Some key => sendf_unless (Wire.key_is_zero key) "header_protection_key" (hex_EncodeToString key)
  | None => []
  end.

Definition junk_text (j : Junk) : bytes :=
  sendf_unless (j_count j =? 0) "jc" (FormatInt (j_count j)) ++
  sendf_unless (j_min j =? 0) "jmin" (FormatInt (j_min j)) ++
  sendf_unless (j_max j =? 0) "jmax" (FormatInt (j_max j)).

(** The device lines. *)
Definition device_text (e : Engine) : bytes :=
  let c := config e in
  let w := wire c in
  sendf_unless (isZero (privateKey (dev e))) "private_key" (hex_EncodeToString (privateKey (dev e))) ++
  sendf_unless (port (net e) =? 0) "listen_port" (FormatUint (port (net e))) ++
  sendf_unless (fwmark (net e) =? 0) "fwmark" (FormatUint (fwmark (net e))) ++
  junk_text (junk c) ++ wire_text w ++ chains_text (ipackets c) ++
  sendf_unless (negb (Wire.randomTrailers w)) "random_trailers" (str "true") ++
  sendf_unless (negb (disableCookies c)) "disable_cookies" (str "true") ++
  key_text (Wire.hp_key w) ++
  sendf_unless (MagicHeader.IsZero (contentPaddingAddition c)) "content_padding_addition" (MagicHeader.ToString (contentPaddingAddition c)) ++
  sendf_unless (MagicHeader.IsZero (rekeyAfterTimeSec c)) "rekey_after_time" (MagicHeader.ToString (rekeyAfterTimeSec c)).

(** The lines of a peer. *)
Definition peer_text (tb : routes) (p : pid) (pr : Peer) (r : Runtime) : bytes :=
  text_line "public_key" (hex_EncodeToString (remoteStatic (handshake pr))) ++
  text_line "preshared_key" (hex_EncodeToString (presharedKey (handshake pr))) ++
  text_line "protocol_version" (str "1") ++
  match ep_val (endpoint r) with None => [] | Some ep => text_line "endpoint" (DstToString ep) end ++
  text_line "last_handshake_time_sec" (FormatInt (Z.quot (lastHandshakeNano r) Second)) ++
  text_line "last_handshake_time_nsec" (FormatInt (Z.rem (lastHandshakeNano r) Second)) ++
  text_line "tx_bytes" (FormatUint (txBytes r)) ++
  text_line "rx_bytes" (FormatUint (rxBytes r)) ++
  text_line "persistent_keepalive_interval" (FormatUint (persistentKeepaliveInterval r)) ++
  flat_map (fun pfx => text_line "allowed_ip" (GoNetip.prefix_String pfx)) (AllowedIPs.EntriesForPeer tb p).

(** A peer of the map without an object is a nil pointer. *)
Fixpoint peers_text (e : Engine) (ps : list (bytes * pid)) : option bytes :=
  match ps with
  | [] => Some []
  | (_, p) :: ps' =>
      pr ← peers (dev e) !! p;
      r ← runtimes e !! p;
      rest ← peers_text e ps';
      Some (peer_text (allowedips e) p pr r ++ rest)
  end.

Definition IpcGetOperation (e : Engine) : option bytes :=
  ps ← peers_text e (map_to_list (keyMap (dev e)));
  Some (device_text e ++ ps).

(** ** What a set operation installs is valid *)

Definition wf_opt (h : option MagicHeader.magicHeader) : Prop := forall x, h = Some x -> MagicHeader.wf_header x.

Definition key_wf (k : option bytes) : Prop := forall x, k = Some x -> length x = Wire.HeaderCipherKeySize /\ Forall is_u8 x.

Definition sd_wf (d : ipcSetDevice) : Prop := Forall wf_opt (headers_of d) /\ key_wf (sd_headerProtectionKey d).

(** A line the scanner hands on. *)
Definition line_ok (line : bytes) : Prop := newline ∉ line /\ (length line < MaxScanTokenSize)%nat.

(** A chain that was read from a line [i1] to [i5]. *)
Definition chain_wf (c : option ObfChain.obfChain) : Prop :=
  forall x, c = Some x -> ObfChain.newObfChain (ObfChain.Spec x) = Some x /\ newline ∉ ObfChain.Spec x /\
    (3 + length (ObfChain.Spec x) < MaxScanTokenSize)%nat.

Definition range_wf (r : Z) : Prop :=
  0 <= MagicHeader.Lo r <= MagicHeader.Hi r /\ MagicHeader.Hi r < 2 ^ 32 /\
  r = MagicHeader.FromUint32 (MagicHeader.Lo r) (MagicHeader.Hi r).

Definition junk_wf (j : Junk) : Prop := Forall (fun n => 0 <= n < 2 ^ 63) [j_count j; j_min j; j_max j].

(** A configuration the protocol can install. *)
Record config_ok (c : Config) : Prop := {
  cf_wire : Wire.wire_ok (wire c);
  cf_key : key_wf (Wire.hp_key (wire c));
  cf_junk : junk_wf (junk c);
  cf_chains : length (ipackets c) = 5%nat /\ Forall chain_wf (ipackets c);
  cf_ranges : range_wf (contentPaddingAddition c) /\ range_wf (rekeyAfterTimeSec c)
}.

Lemma wire_headers_wf w :
  Wire.wire_ok w -> Forall wf_opt [Wire.h_init w; Wire.h_response w; Wire.h_cookie w; Wire.h_transport w].
Proof.
  intros [_ [Hh _]]. assert (Hw : forall t, Wire.is_type t -> wf_opt (Wire.header_of w t)).
  { intros t Ht x Hx. destruct (Hh t Ht) as (h & H & Hwf & _). congruence. }
  rewrite !list.Forall_cons. split_and!; [apply (Hw 1) | apply (Hw 2) | apply (Hw 3) | apply (Hw 4) | done]; unfold Wire.is_type; lia.
Qed.

Lemma fill_wf h old : wf_opt h -> wf_opt old -> wf_opt (fill h old).
Proof. by destruct h. Qed.

Lemma fill_sd_wf d w : sd_wf d -> Wire.wire_ok w -> sd_wf (fill_headers d w).
Proof.
  intros [Hd Hk] Hw%wire_headers_wf. split; [|done].
  unfold headers_of, fill_headers in *. cbn in *. rewrite !list.Forall_cons in *.
  destruct Hd as (? & ? & ? & ? & _), Hw as (? & ? & ? & ? & _).
  split_and!; try apply fill_wf; done.
Qed.

Lemma valid_prefix_spec protected prefix core :
  valid_prefix protected prefix core = true ->
  0 <= prefix /\ prefix + Z.of_nat core <= ObfChain.awgMaxPacketSize /\ (protected = true -> Wire.HeaderCipherNonceSize <= prefix).
Proof.
  unfold valid_prefix. rewrite andb_true_iff, negb_true_iff, andb_false_iff. intros [[n Hn]%bool_decide_eq_true_1 Hp].
  apply Wire.awgPacketSize_inv in Hn. split_and!; [lia | lia|]. intros ->. destruct Hp as [|?%Z.ltb_ge]; [done | lia].
Qed.

Lemma overlap_spec a b : overlap a b = false -> Wire.disjoint a b.
Proof. unfold overlap, Wire.disjoint. rewrite andb_false_iff, !Z.leb_gt. lia. Qed.

Lemma width_spec h : MagicHeader.wf_header h -> negb (u64 (u64 (MagicHeader.end_ h - MagicHeader.start h) + 1) =? 2 ^ 32) = true ->
  ~ MagicHeader.full_width h.
Proof.
  unfold MagicHeader.wf_header, MagicHeader.full_width. rewrite negb_true_iff, Z.eqb_neq. intros Hw.
  rewrite (u64_small (_ - _)), u64_small by (unfold is_u; lia). lia.
Qed.

(** Headers the loops let pass are there, narrower than the full range and apart
    from each other. *)
Lemma valid_headers_spec hs : Forall wf_opt hs -> valid_headers hs = true ->
  exists xs, hs = map Some xs /\ Forall (fun x => MagicHeader.wf_header x /\ ~ MagicHeader.full_width x) xs /\
    ForallOrdPairs Wire.disjoint xs.
Proof.
  induction hs as [|[h|] hs IH]; cbn [valid_headers]; [intros _ _; by exists []; repeat constructor | | done].
  rewrite !andb_true_iff, list.Forall_cons. intros [Hh Hhs] [[Hw Ha] Hv]. destruct (IH Hhs Hv) as (xs & -> & HF & HP).
  exists (h :: xs). split; [done|]. specialize (Hh h eq_refl). split.
  - constructor; [|done]. split; [done | by apply width_spec].
  - constructor; [|done]. rewrite forallb_forall in Ha. apply list.Forall_forall. intros x Hx. apply overlap_spec, negb_true_iff.
    apply (Ha (Some x)), list_elem_of_In. by apply list_elem_of_fmap_2.
Qed.

Lemma type_cases t : Wire.is_type t -> t = 1 \/ t = 2 \/ t = 3 \/ t = 4.
Proof. unfold Wire.is_type. lia. Qed.

Lemma disjoint_sym a b : Wire.disjoint a b -> Wire.disjoint b a.
Proof. unfold Wire.disjoint. tauto. Qed.

Lemma install_ok d w : sd_wf d -> valid_prefixes d = true -> valid_headers (headers_of d) = true -> Wire.wire_ok (install d w).
Proof.
  intros [Hd _] Hp Hh. destruct (valid_headers_spec _ Hd Hh) as (xs & Hxs & HF & HP). unfold headers_of in Hxs.
  destruct xs as [|x1 [|x2 [|x3 [|x4 [|]]]]]; try discriminate. injection Hxs as E1 E2 E3 E4.
  unfold valid_prefixes in Hp. rewrite !andb_true_iff in Hp. destruct Hp as [[[P1 P2] P3] P4]. split.
  - intros t Ht. unfold Wire.protected. cbn [Wire.hp_key install].
    destruct (type_cases t Ht) as [->|[->|[->| ->]]];
      [apply valid_prefix_spec in P1 | apply valid_prefix_spec in P2 | apply valid_prefix_spec in P3 | apply valid_prefix_spec in P4]; done.
  - rewrite !list.Forall_cons in HF. destruct HF as (F1 & F2 & F3 & F4 & _).
    inversion_clear HP as [|? ? D1 HP2]. inversion_clear HP2 as [|? ? D2 HP3]. inversion_clear HP3 as [|? ? D3 _].
    apply list.Forall_cons in D1 as [D12 [D13 [D14 _]%list.Forall_cons]%list.Forall_cons].
    apply list.Forall_cons in D2 as [D23 [D24 _]%list.Forall_cons]. apply list.Forall_cons in D3 as [D34 _]. split.
    + intros t Ht. destruct (type_cases t Ht) as [->|[->|[->| ->]]]; eexists; split; eauto.
    + intros t1 t2 a b H1 H2 Hne. destruct (type_cases t1 H1) as [->|[->|[->| ->]]], (type_cases t2 H2) as [->|[->|[->| ->]]]; try done;
        unfold Wire.header_of, install; cbn; rewrite ?E1, ?E2, ?E3, ?E4; intros [= <-] [= <-]; auto using disjoint_sym.
Qed.

(** A device line keeps the headers and the key well formed. *)
Lemma loadExactHex_wf size src key : loadExactHex size src = Some key -> length key = size /\ Forall is_u8 key.
Proof.
  unfold loadExactHex. destruct (hex_DecodeString src) as [r|] eqn:H; [|done]. red_bind. case_bool_decide; [|done].
  intros [= <-]. split; [done | by eapply hex_Decode_spec].
Qed.

Lemma device_line_wf C W f d key value e d' e' :
  sd_wf d -> handleDeviceLine C W f d key value e = Some (inr d', e') -> sd_wf d'.
Proof.
  intros [Hd Hk]. unfold handleDeviceLine, junk_line, padding_line, header_line, chain_line, throw, done, parsed. cbv zeta.
  assert (Hh : forall h1 h2 h3 h4, Forall wf_opt [h1; h2; h3; h4] -> sd_wf (set_headers d h1 h2 h3 h4)) by done.
  assert (Hd' := Hd). unfold headers_of in Hd'. rewrite !list.Forall_cons in Hd'. destruct Hd' as (W1 & W2 & W3 & W4 & _).
  repeat match goal with |- (if bool_decide (key = ?k) then _ else _) _ = _ -> _ => destruct (bool_decide (key = k)) end.
  all: repeat match goal with
    | |- (match ?x with Some _ => _ | None => _ end) _ = _ -> _ => destruct x eqn:?
    | |- (if ?b then _ else _) _ = _ -> _ => destruct b
    end.
  all: unfold bind, ret; repeat match goal with
    | |- context [mbind _ ?o = _] => destruct o as [[? ?]|]; red_bind; [|done]
    | |- (if ?b then _ else _) _ = _ -> _ => destruct b
    end; intros [= <- _]; try done.
  all: try (apply Hh; rewrite !list.Forall_cons; split_and!; try done; intros x [= <-]; by eapply MagicHeader.newMagicHeader_wf).
  split; [done|]. intros x [= <-]. by eapply loadExactHex_wf.
Qed.

(** *** What the scanner hands on *)

Lemma dropCR_sub line : exists rest, line = dropCR line ++ rest.
Proof.
  unfold dropCR. destruct (list.last line) as [x|] eqn:Hl; [|by exists []; rewrite app_nil_r].
  apply last_Some in Hl as [l' ->]. rewrite removelast_last.
  repeat (case_match; try (by exists []; rewrite app_nil_r)). by exists [13].
Qed.

Lemma dropCR_ok line : newline ∉ line -> (length line < MaxScanTokenSize)%nat -> line_ok (dropCR line).
Proof.
  destruct (dropCR_sub line) as [rest Hr]. remember (dropCR line) as l. rewrite Hr, length_app, elem_of_app. split; [tauto | lia].
Qed.

Lemma scan_lines_ok pieces : Forall (fun p => newline ∉ p) pieces -> Forall line_ok (fst (scan_lines pieces)).
Proof.
  induction 1 as [|piece pieces Hp Hps IH]; [done|]. cbn [scan_lines].
  destruct pieces as [|next pieces].
  - case_bool_decide; [done|]. destruct (Nat.leb_spec MaxScanTokenSize (length piece)); [done|].
    constructor; [by apply dropCR_ok | done].
  - destruct (Nat.leb_spec MaxScanTokenSize (length piece)); [done|]. destruct (scan_lines (next :: pieces)) as [ls long].
    constructor; [by apply dropCR_ok | done].
Qed.

Lemma Scan_lines input : Forall line_ok (fst (Scan input)).
Proof. apply scan_lines_ok, Split_Join. Qed.

(** *** What the settings keep *)

Lemma range_parsed value r : MagicHeader.FromString value = Some r -> range_wf r.
Proof. intros H. by apply MagicHeader.FromString_words in H. Qed.

Lemma chain_parsed value c : ObfChain.newObfChain value = Some c -> ObfChain.Spec c = value.
Proof. unfold ObfChain.newObfChain. destruct (ObfChain.chain_loop _ _ _ _ _); [|done]. by intros [= <-]. Qed.

Lemma set_chain_ok c value x i :
  ObfChain.newObfChain value = Some x -> newline ∉ value -> (3 + length value < MaxScanTokenSize)%nat ->
  config_ok c -> config_ok (c_ipackets c (<[i := Some x]> (ipackets c))).
Proof.
  intros Hx Hn Hl [H1 H2 H3 [H4 H4'] H5]. split; [done.. | | done]. cbn. rewrite length_insert. split; [done|].
  apply Forall_insert; [done|]. intros y [= <-]. by rewrite (chain_parsed _ _ Hx).
Qed.

Lemma set_junk_ok c j : junk_wf j -> config_ok c -> config_ok (c_junk c j).
Proof. intros Hj [H1 H2 H3 H4 H5]. by split. Qed.

Lemma junk_number value n : Atoi value = Some n -> (n <=? 0) = false -> 0 <= n < 2 ^ 63.
Proof. intros H%Atoi_range Hn%Z.leb_gt. lia. Qed.

End Uapi.
