(* ===== verification/Machine.v ===== *)
(** * The steps of a device

    The operations by which the outside world moves a device: datagrams, packets,
    timers, workers, configuration.  A run is a sequence of them. *)

From S2P Require Import Prelude Bits Bytes Ratelimiter AllowedIPs Noise Runtime Engine Uapi.

Module Machine.

Import Noise Runtime Engine.

Local Open Scope Z_scope.
Local Open Scope engine_scope.

Inductive op :=
| OpAdvance (dt : Z)
| OpReceive (batch : list (Endpoint * bytes))
| OpHandshake
| OpInbound (p : pid)
| OpEncrypt (p : pid)
| OpSend (p : pid)
| OpRead (packets : list bytes)
| OpInput (destination : bytes) (packetSlices : list bytes)
| OpInputs (packets : list (bytes * list bytes))
| OpFire (id : timerId) (p : pid)
| OpCollect
| OpNewPeer (pk : bytes)
| OpStart (p : pid)
| OpRemovePeer (pk : bytes)
| OpRemoveAllPeers
| OpRemoveMatching (shouldRemove : bytes -> bool)
| OpUp
| OpDown
| OpClose
| OpKeepalive (p : pid)
| OpKeepalives
| OpSetPrivateKey (sk : bytes)
| OpSetPresharedKey (p : pid) (psk : bytes)
| OpSetKeepaliveInterval (p : pid) (secs : Z)
| OpSetEndpoint (p : pid) (ep : Endpoint)
| OpSetPrefixes (p : pid) (pfxs : list AllowedIPs.prefix)
| OpTunEvent (ev : tunEvent)
| OpBindUpdate
| OpBindSetMark (mark : Z)
| OpBrokenRoaming
| OpIpcSet (input : bytes) (readErr : bool).

Section Machine.

Context (C : Primitives) (W : Oracles) (priorityMsgFn : option (bytes -> bytes)).

Definition ignore {A} (c : M A) : M unit := let* _ := c in ret tt.

Definition step (o : op) : M unit :=
  match o with
  | OpAdvance dt => modify (fun e => set_clock e (clock e + dt))
  | OpReceive batch => RoutineReceiveIncoming C batch
  | OpHandshake => RoutineHandshake C W priorityMsgFn
  | OpInbound p => processInboundContainer C W priorityMsgFn p
  | OpEncrypt p => RoutineEncryption C W p
  | OpSend p => processOutboundContainer C W p
  | OpRead packets => RoutineReadFromTUN C W packets
  | OpInput destination packetSlices => InputPacket C W destination packetSlices
  | OpInputs packets => ignore (InputPackets C W packets)
  | OpFire id p => fire C W priorityMsgFn id p
  | OpCollect => modify (fun e => set_limiter e (Ratelimiter.tick (limiter e) (clock e)))
  | OpNewPeer pk => ignore (NewPeer C pk)
  | OpStart p => Start p
  | OpRemovePeer pk => RemovePeer C W priorityMsgFn pk
  | OpRemoveAllPeers => RemoveAllPeers C W priorityMsgFn
  | OpRemoveMatching f => ignore (RemoveMatchingPeers C W priorityMsgFn f)
  | OpUp => ignore (Up C W priorityMsgFn)
  | OpDown => ignore (Down C W priorityMsgFn)
  | OpClose => Close C W priorityMsgFn
  | OpKeepalive p => ignore (SendKeepalive C W p)
  | OpKeepalives => SendKeepalivesToPeersWithCurrentKeypair C W
  | OpSetPrivateKey sk => SetPrivateKey C W priorityMsgFn sk
  | OpSetPresharedKey p psk => change_dev (fun d => SetPresharedKey d p psk)
  | OpSetKeepaliveInterval p secs => on_rt p (fun r => set_persistentKeepaliveInterval r secs)
  | OpSetEndpoint p ep => on_rt p (update_endpoint (fun s => set_ep_val s (Some ep)))
  | OpSetPrefixes p pfxs =>
      let* tb := gets allowedips in
      let* tb := lift (AllowedIPs.setPeerPrefixes tb p pfxs) in
      modify (fun e => set_allowedips e tb)
  | OpTunEvent ev => RoutineTUNEventReader C W priorityMsgFn ev
  | OpBindUpdate => ignore (BindUpdate W)
  | OpBindSetMark mark => ignore (BindSetMark W mark)
  | OpBrokenRoaming => DisableSomeRoamingForBrokenMobileSemantics
  | OpIpcSet input readErr => ignore (Uapi.IpcSetOperation C W priorityMsgFn input readErr)
  end.

Fixpoint run (os : list op) : M unit :=
  match os with
  | [] => ret tt
  | o :: os' => let* _ := step o in run os'
  end.

End Machine.

Arguments ignore {_} _.

End Machine.
