(* ===== verification/EngineSteps.v ===== *)
(** * The handlers of the device as sequences of small steps

    Every handler of Engine.v that neither starts nor stops a peer is shown to be
    a sequence of a few kinds of small steps [act].  Invariants of the device are
    then proved once for each kind of step, by induction on the sequence. *)

From stdpp Require Import functions relations.
From S2P Require Import Prelude Bits Bytes Replay Ratelimiter AllowedIPs MagicHeader.
From S2P Require Import ObfChain Messages Wire Tai64n Noise Sessions Cookie Transport Runtime Engine.

Module EngineSteps.

Import Noise Runtime Engine.

Local Open Scope Z_scope.
Local Open Scope engine_scope.

(** ** The steps *)

(** The packets counted by [queuedOutboundPackets]. *)
Fixpoint total (cs : list container) : Z :=
  match cs with
  | [] => 0
  | c :: cs' => count c + total cs'
  end.

Definition backlog (q : Queues) : Z := total (staged q) + total (outbound q).

Definition counted (q : Queues) : Prop := queuedOutboundPackets q = i32 (backlog q).

(** The nonces assigned and not yet used to encrypt. *)
Definition elem_nonces (es : list outElem) : list (kid * Z) :=
  omap (fun e => k ← el_keypair e; Some (k, el_nonce e)) es.

Definition pending_of (c : container) : list (kid * Z) :=
  match filled c with None => elem_nonces (elems c) | Some _ => [] end.

Definition pending (q : Queues) : list (kid * Z) := outbound q ≫= pending_of.

(** The queues with their counter are as they were. *)
Definition same_out (q q' : Queues) : Prop :=
  staged q' = staged q /\ outbound q' = outbound q /\ queuedOutboundPackets q' = queuedOutboundPackets q /\
  inbound q' = inbound q.

Definition runs (d : Device) (p : pid) : Prop := exists pr, peers d !! p = Some pr /\ isRunning pr = true.

(** No timer is armed. *)
Definition unarmed (r r' : Runtime) : Prop :=
  forall id, deadline (timers r') id = deadline (timers r) id \/ deadline (timers r') id = None.

(** A queue update by which nothing enters an empty queue, nor the queue of
    received containers. *)
Definition no_entry (q q' : Queues) : Prop :=
  (staged q = [] -> staged q' = []) /\ (outbound q = [] -> outbound q' = []) /\
  (length (inbound q') <= length (inbound q))%nat.

(** ** Updates of the run-time state *)

(** An update of the run-time state that touches neither the packets nor arms a
    timer. *)
Definition neutral (f : Runtime -> Runtime) : Prop := forall r, same_out (queues r) (queues (f r)) /\ unarmed r (f r).

Lemma neutral_id r : same_out (queues r) (queues r) /\ unarmed r r.
Proof. repeat split. intros id. by left. Qed.

Lemma unarmed_trans r1 r2 r3 : unarmed r1 r2 -> unarmed r2 r3 -> unarmed r1 r3.
Proof. intros H1 H2 id. destruct (H2 id) as [->|]; [apply H1 | by right]. Qed.

Lemma neutral_comp f g : neutral f -> neutral g -> neutral (fun r => g (f r)).
Proof.
  intros Hf Hg r. destruct (Hf r) as [(?&?&?&?) Hu], (Hg (f r)) as [(?&?&?&?) Hv].
  split; [repeat split; congruence | by eapply unarmed_trans].
Qed.

(** Closes [same_out] and [unarmed] goals of concrete updates. *)
Ltac runtime_case :=
  cbv zeta;
  repeat match goal with
  | |- context [if ?b then _ else _] => destruct b
  | |- context [match ?x with Some _ => _ | None => _ end] => destruct x
  end; (split; [done|]); intros ?;
  first [by left | cbn; unfold insert, fn_insert; destruct (decide _); auto].

Ltac neutral_case := intros r; runtime_case.

Lemma neutral_Del id : neutral (Del id).
Proof. neutral_case. Qed.

Lemma neutral_attempts n : neutral (update_timers (fun t => set_handshakeAttempts t (n (handshakeAttempts t)))).
Proof. neutral_case. Qed.

Lemma neutral_note s : neutral (noteSessionStateLocked s).
Proof. intros r. unfold noteSessionStateLocked. runtime_case. Qed.

Lemma neutral_endpoint f : neutral (update_endpoint f).
Proof. neutral_case. Qed.

Lemma neutral_mark : neutral markEndpointSrcForClearing.
Proof. intros r. unfold markEndpointSrcForClearing. runtime_case. Qed.

Lemma neutral_from_packet ep : neutral (SetEndpointFromPacket ep).
Proof. intros r. unfold SetEndpointFromPacket. runtime_case. Qed.

(** The timer functions leave an inactive peer's timers alone. *)
Definition timer_ok (f : bool -> Z -> Runtime -> Runtime) : Prop :=
  forall active now r, same_out (queues r) (queues (f active now r)) /\ (active = false -> unarmed r (f active now r)).

Lemma timer_DataSent j : timer_ok (fun active now => timersDataSent active now j).
Proof.
  intros active now r. unfold timersDataSent. destruct active; [|split; [done | by intros _ ?; left]].
  by destruct (negb _).
Qed.

Lemma timer_DataReceived : timer_ok timersDataReceived.
Proof.
  intros active now r. unfold timersDataReceived. destruct active; [|split; [done | by intros _ ?; left]].
  by destruct (negb _).
Qed.

Lemma timer_Sent : timer_ok (fun active _ => timersAnyAuthenticatedPacketSent active).
Proof. intros [] now r; (split; [done|]); [discriminate | by intros _ ?; left]. Qed.

Lemma timer_Received : timer_ok (fun active _ => timersAnyAuthenticatedPacketReceived active).
Proof. intros [] now r; (split; [done|]); [discriminate | by intros _ ?; left]. Qed.

Lemma timer_Initiated j : timer_ok (fun active now => timersHandshakeInitiated active now j).
Proof.
  intros active now r. unfold timersHandshakeInitiated, noteSessionHandshakeStarted, noteSessionStateLocked.
  destruct active; repeat destruct (bool_decide _); (split; [done|]); try discriminate; by intros _ ?; left.
Qed.

Lemma timer_Complete : timer_ok timersHandshakeComplete.
Proof. intros [] now r; (split; [done|]); [discriminate | by intros _ ?; left]. Qed.

Lemma timer_Derived : timer_ok timersSessionDerived.
Proof.
  intros active now r. unfold timersSessionDerived, noteSessionStateLocked.
  destruct active; destruct (bool_decide _); (split; [done|]); try discriminate; by intros _ ?; left.
Qed.

Lemma timer_Traversal : timer_ok timersAnyAuthenticatedPacketTraversal.
Proof.
  intros active now r. unfold timersAnyAuthenticatedPacketTraversal.
  destruct active; destruct (_ >? 0); (split; [done|]); try discriminate; by intros _ ?; left.
Qed.

(** ** Updates of the queues *)

(** What keeps the count right and uses no nonce anew. *)
Definition fair (f : Queues -> Queues) : Prop :=
  forall q, (counted q -> counted (f q)) /\ pending (f q) ⊆+ pending q.

Definition closing (f : Queues -> Queues) : Prop := forall q, no_entry q (f q).

Lemma total_app cs ds : total (cs ++ ds) = total cs + total ds.
Proof. induction cs; cbn; lia. Qed.

(** The counter as a number of packets, up to its 32 bits. *)
Definition tally (q : Queues) (n : Z) : Prop := queuedOutboundPackets q = i32 n.

Lemma tally_add q n m : tally q n -> tally (add_queued m q) (n + m).
Proof. unfold tally. intros H. cbn. by rewrite H, i32_add. Qed.

Lemma tally_eq q n m : tally q n -> n = m -> tally q m.
Proof. by intros ? <-. Qed.

Lemma tally_drop_all cs q n : tally q n -> tally (drop_all cs q) (n - total cs).
Proof.
  revert q n. induction cs as [|c cs IH]; intros q n H; cbn; [by rewrite Z.sub_0_r|].
  eapply tally_eq; [by apply IH, tally_add | lia].
Qed.

Lemma drop_all_rest cs q :
  staged (drop_all cs q) = staged q /\ outbound (drop_all cs q) = outbound q /\ inbound (drop_all cs q) = inbound q.
Proof. revert q. induction cs as [|c cs IH]; intros q; [done | apply (IH (add_queued (- count c) q))]. Qed.

Lemma counted_tally q : counted q <-> tally q (total (staged q) + total (outbound q)).
Proof. done. Qed.

Lemma fair_stage c : fair (stage c).
Proof.
  intros q. rewrite !counted_tally. unfold stage, pending. cbv zeta.
  change (staged (add_queued (count c) q)) with (staged q). case_bool_decide as Hl.
  - split; [|done]. intros H. cbn. rewrite total_app. cbn.
    eapply tally_eq; [by apply (tally_add q) | lia].
  - destruct (staged q) as [|old rest]; [unfold QueueStagedSize in Hl; cbn in Hl; lia|].
    split; [|done]. intros H. cbn in *. rewrite total_app. cbn.
    eapply tally_eq; [by apply (tally_add (add_queued (count c) q)), (tally_add q) | lia].
Qed.

Lemma fair_append c : count c = 1 -> fair (fun q => add_queued 1 (set_staged q (staged q ++ [c]))).
Proof.
  intros Hc q. rewrite !counted_tally. split; [|done]. intros H. cbn. rewrite total_app. cbn.
  eapply tally_eq; [by apply (tally_add q) | lia].
Qed.

Lemma fair_flush : fair (fun q => set_staged (drop_all (staged q) q) []).
Proof.
  intros q. rewrite !counted_tally. destruct (drop_all_rest (staged q) q) as (_ & Ho & _).
  unfold pending. cbn. rewrite Ho. split; [|done]. intros H.
  eapply tally_eq; [by apply tally_drop_all | lia].
Qed.

Lemma closing_flush : closing (fun q => set_staged (drop_all (staged q) q) []).
Proof. intros q. destruct (drop_all_rest (staged q) q) as (_ & Ho & Hi). split_and!; cbn; [done | by rewrite Ho | by rewrite Hi]. Qed.

Lemma fair_pop : fair pop_outbound.
Proof.
  intros q. rewrite !counted_tally. unfold pop_outbound. destruct (outbound q) as [|c cs] eqn:Ho; [by rewrite Ho|]. split.
  - cbn. intros H. eapply tally_eq; [by apply (tally_add (set_outbound q cs)) | lia].
  - unfold pending. rewrite Ho. cbn. by apply submseteq_inserts_l.
Qed.

Lemma closing_pop : closing pop_outbound.
Proof. intros q. unfold pop_outbound, no_entry. by destruct (outbound q) eqn:?. Qed.

Lemma fair_inbound f : fair (fun q => set_inbound q (f q)).
Proof. by intros q. Qed.

Lemma fill_first_total f cs : total (fill_first f cs) = total cs.
Proof. induction cs as [|c cs IH]; cbn; [done|]. destruct (filled c); cbn; [by rewrite IH | done]. Qed.

Lemma fill_first_pending f cs : (fill_first f cs ≫= pending_of) ⊆+ (cs ≫= pending_of).
Proof.
  induction cs as [|c cs IH]; cbn; [done|]. destruct (filled c) eqn:Hf; cbn; [by apply submseteq_skips_l|].
  unfold pending_of at 1. cbn. by apply submseteq_inserts_l.
Qed.

Lemma fair_fill f : fair (fun q => set_outbound q (fill_first f (outbound q))).
Proof.
  intros q. rewrite !counted_tally. cbn. rewrite fill_first_total. split; [done | apply fill_first_pending].
Qed.

Lemma closing_fill f : closing (fun q => set_outbound q (fill_first f (outbound q))).
Proof. intros q. split_and!; cbn; [done | by intros -> | done]. Qed.

Section Steps.

Context (C : Primitives) (W : Oracles) (priorityMsgFn : option (bytes -> bytes)).

Abbreviation session_step := (Sessions.step (blake2s C) (hmac C) (ScalarBaseMult C) (ScalarMult C) (Seal C) (Open C)).

(** The operations of Sessions.v the handlers use. *)
Definition handshake_op (o : Sessions.op) : Prop :=
  match o with
  | Sessions.OpCreateInitiation _ _ _ _ _ | Sessions.OpConsumeInitiation _ _ _ | Sessions.OpCreateResponse _ _ _ _
  | Sessions.OpConsumeResponse _ | Sessions.OpBeginSession _ _ | Sessions.OpReceivedWith _ _ | Sessions.OpZeroAndFlush _ => True
  | _ => False
  end.

Inductive dev_act (now : Z) (d : Device) : Device -> Prop :=
| da_session o d' : handshake_op o -> session_step d o = Some d' -> dev_act now d d'
| da_sent p pr : peers d !! p = Some pr ->
    dev_act now d (update_handshake d p pr (set_lastSentHandshake (handshake pr) now))
| da_filter k kp f : keypairs d !! k = Some kp ->
    dev_act now d (set_keypairs d (<[k := Transport.set_filter kp f]> (keypairs d))).

Inductive act (e : Engine) : Engine -> Prop :=
| act_other e' : dev e' = dev e -> runtimes e' = runtimes e -> dstate e' = dstate e -> clock e' = clock e ->
    config e' = config e -> act e e'
| act_dev d' : dev_act (clock e) (dev e) d' -> act e (set_dev e d')
| act_rt p r r' : runtimes e !! p = Some r -> same_out (queues r) (queues r') -> unarmed r r' \/ runs (dev e) p ->
    act e (set_runtimes e (<[p := r']> (runtimes e)))
| act_queue p r q' : runtimes e !! p = Some r ->
    (counted (queues r) -> counted q') -> pending q' ⊆+ pending (queues r) ->
    no_entry (queues r) q' \/ runs (dev e) p ->
    act e (set_runtimes e (<[p := set_queues r q']> (runtimes e)))
| act_container p k x e' : send_container p k e = Some (x, e') -> act e e'
| act_priority p k msg e' : push_priority p k msg e = Some (tt, e') -> act e e'.

Abbreviation acts := (rtc act).

(** A computation that is a sequence of steps, from a state and from all states. *)
Definition does_at {A} (e : Engine) (c : M A) : Prop := forall a e', c e = Some (a, e') -> acts e e'.
Definition does {A} (c : M A) : Prop := forall e, does_at e c.

(** ** Composition *)

Lemma does_ret {A} (a : A) : does (ret a).
Proof. intros e b e' [= _ <-]. done. Qed.

Lemma does_bind {A B} (c : M A) (k : A -> M B) : does c -> (forall a, does (k a)) -> does (bind c k).
Proof.
  intros Hc Hk e b e'. unfold bind. destruct (c e) as [[a e1]|] eqn:H; [|done]. red_bind.
  intros H'. etrans; [by eapply Hc | by eapply Hk].
Qed.

Lemma does_at_bind {A B} e (c : M A) (k : A -> M B) :
  does_at e c -> (forall a e1, c e = Some (a, e1) -> does_at e1 (k a)) -> does_at e (bind c k).
Proof.
  intros Hc Hk b e'. unfold bind. destruct (c e) as [[a e1]|] eqn:H; [|done]. red_bind.
  intros H'. etrans; [by eapply Hc | by eapply Hk].
Qed.

Lemma does_gets {A} (f : Engine -> A) : does (gets f).
Proof. intros e a e' [= _ <-]. done. Qed.

Lemma does_lift {A} (o : option A) : does (lift o).
Proof. intros e a e'. unfold lift. destruct o; [|done]. intros [= _ <-]. done. Qed.

Lemma does_require b : does (require b).
Proof. apply does_lift. Qed.

Lemma does_get_peer p : does (get_peer p).
Proof. intros e a e'. unfold get_peer. destruct (peers (dev e) !! p); [|done]. intros [= _ <-]. done. Qed.

Lemma does_get_rt p : does (get_rt p).
Proof. intros e a e'. unfold get_rt. destruct (runtimes e !! p); [|done]. intros [= _ <-]. done. Qed.

Lemma does_other f :
  (forall e, dev (f e) = dev e /\ runtimes (f e) = runtimes e /\ dstate (f e) = dstate e /\ clock (f e) = clock e /\
     config (f e) = config e) ->
  does (modify f).
Proof. intros Hf e a e' [= _ <-]. destruct (Hf e) as (?&?&?&?&?). by apply rtc_once, act_other. Qed.

Lemma does_call {A} (f : nat -> A) : does (call f).
Proof. intros e a e' [= _ <-]. by apply rtc_once, act_other. Qed.

Lemma does_emit o : does (emit o).
Proof. by apply does_other. Qed.

Lemma does_when b c : (b = true -> does c) -> does (when b c).
Proof. destruct b; cbn; [by intros H; apply H | intros _; apply does_ret]. Qed.

Lemma does_for_each {A} (xs : list A) f : (forall x, does (f x)) -> does (for_each xs f).
Proof. intros Hf. induction xs; cbn; [apply does_ret | by apply does_bind]. Qed.

Lemma does_on_dev {A} (f : Device -> option (Device * A)) :
  (forall e d' a, f (dev e) = Some (d', a) -> acts e (set_dev e d')) -> does (on_dev f).
Proof.
  intros Hf e a e'. unfold on_dev. destruct (f (dev e)) as [[d' b]|] eqn:H; [|done]. intros [= <- <-]. eauto.
Qed.

Lemma does_change_dev f :
  (forall e d', f (dev e) = Some d' -> acts e (set_dev e d')) -> does (change_dev f).
Proof.
  intros Hf. apply does_on_dev. intros e d' []. destruct (f (dev e)) as [d1|] eqn:H; [|done]. intros [= <-]. auto.
Qed.

Lemma does_on_rt p f : neutral f -> does (on_rt p f).
Proof.
  intros Hf e a e'. unfold on_rt. destruct (runtimes e !! p) as [r|] eqn:H; [|done]. intros [= _ <-].
  destruct (Hf r). apply rtc_once. eapply act_rt; eauto.
Qed.

(** A timer function that does nothing to an inactive peer but [neutral] updates. *)
Lemma does_timer_event p f : timer_ok f -> does (timer_event p f).
Proof.
  intros Hf e a e'. unfold timer_event, timersActive, bind, get_peer, gets, ret, on_rt.
  destruct (peers (dev e) !! p) as [pr|] eqn:Hp; [|done]. red_bind.
  destruct (runtimes e !! p) as [r|] eqn:Hr; [|done]. red_bind. intros [= _ <-].
  destruct (Hf (isRunning pr && isUp e) (clock e) r) as [Hs Hu].
  apply rtc_once. eapply act_rt; [done | done |].
  destruct (isRunning pr) eqn:Hrun; [right; by exists pr | left; by apply Hu].
Qed.

(** ** Sending *)

Create HintDb steps.
#[local] Hint Resolve does_ret does_gets does_lift does_require does_get_peer does_get_rt does_call does_emit does_on_rt
  does_timer_event : steps.
#[local] Hint Resolve neutral_Del neutral_note neutral_endpoint neutral_mark neutral_from_packet : steps.
#[local] Hint Resolve timer_DataSent timer_DataReceived timer_Sent timer_Received timer_Initiated timer_Complete
  timer_Derived timer_Traversal : steps.

(** Follows the structure of a computation; what is left are its special steps. *)
Ltac walk :=
  repeat match goal with
  | |- does (bind _ _) => apply does_bind; [|intros ?]
  | |- does (when _ _) => apply does_when; intros ?
  | |- does (for_each _ _) => apply does_for_each; intros ?
  | |- does (modify _) => apply does_other; intros ?; repeat split
  | |- does (let (_, _) := ?x in _) => destruct x
  | |- does (match ?x with _ => _ end) => destruct x eqn:?
  | |- does _ => solve [eauto with steps]
  | |- does _ => solve [apply does_on_rt; intros ?; runtime_case]
  end.

Lemma does_take_endpoint p : does (take_endpoint p).
Proof. unfold take_endpoint. walk. Qed.
#[local] Hint Resolve does_take_endpoint : steps.

Lemma does_SendBuffers p bufs : does (SendBuffers W p bufs).
Proof. unfold SendBuffers. walk. Qed.
#[local] Hint Resolve does_SendBuffers : steps.

Lemma does_send_to_all p bufs eps b : does (send_to_all W p bufs eps b).
Proof. revert b. induction eps; intros b; cbn [send_to_all]; walk; auto. Qed.
#[local] Hint Resolve does_send_to_all : steps.

Lemma does_sendHandshakeBuffers p bufs cs : does (sendHandshakeBuffers W p bufs cs).
Proof. unfold sendHandshakeBuffers. walk. Qed.
#[local] Hint Resolve does_sendHandshakeBuffers : steps.

Lemma does_resolveEndpoints p : does (resolveEndpoints W p).
Proof. unfold resolveEndpoints. walk. Qed.
#[local] Hint Resolve does_resolveEndpoints : steps.

Lemma does_frame cfg core window : does (frame C W cfg core window).
Proof. unfold frame. walk. Qed.

Lemma does_config t : does (handshakeWireConfig W t).
Proof. unfold handshakeWireConfig. walk. Qed.

Lemma does_fastrandn n : does (fastrandn W n).
Proof. apply does_call. Qed.

Lemma does_rand_Read n : does (rand_Read W n).
Proof. apply does_call. Qed.
#[local] Hint Resolve does_frame does_config does_fastrandn does_rand_Read : steps.

Lemma does_decoys chains : does (decoys W chains).
Proof. induction chains as [|[]]; cbn [decoys]; walk; auto. Qed.

Lemma does_junk n jmin diff : does (junk_packets W n jmin diff).
Proof. induction n; cbn [junk_packets]; walk; auto. Qed.

Lemma does_set_lastSent_now e p : does_at e (set_lastSent p (clock e)).
Proof.
  intros a e'. unfold set_lastSent, change_dev, on_dev. destruct (peers (dev e) !! p) as [pr|] eqn:Hp; [|done].
  intros [= _ <-]. by apply rtc_once, act_dev, da_sent.
Qed.

Lemma does_sent_now {A} p (k : Z -> unit -> M A) :
  (forall now a, does (k now a)) -> does (let* now := gets clock in let* x := set_lastSent p now in k now x).
Proof.
  intros Hk e. apply does_at_bind; [apply does_gets|]. intros now e1 [= <- <-].
  apply does_at_bind; [apply does_set_lastSent_now|]. intros a e1 _. apply Hk.
Qed.

Lemma does_too_soon p : does (too_soon p).
Proof. unfold too_soon. walk. Qed.

Lemma does_AddMacs p msg : does (AddMacs C p msg).
Proof. unfold AddMacs. walk. Qed.
#[local] Hint Resolve does_decoys does_junk does_too_soon does_AddMacs : steps.

(** An operation of Sessions.v. *)
Lemma does_session {A} (f : Device -> option (Device * A)) (o : Sessions.op) :
  handshake_op o -> (forall d, session_step d o = fst <$> f d) -> does (on_dev f).
Proof.
  intros Ho Hf. apply does_on_dev. intros e d' a H. apply rtc_once, act_dev. apply (da_session _ _ o); [done|].
  by rewrite Hf, H.
Qed.

Lemma does_createMessageInitiation p ty : does (createMessageInitiation C W p ty).
Proof.
  unfold createMessageInitiation. walk. by eapply (does_session _ (Sessions.OpCreateInitiation _ _ _ _ _)).
Qed.
#[local] Hint Resolve does_createMessageInitiation : steps.

Lemma does_SendHandshakeInitiation p retry : does (SendHandshakeInitiation C W p retry).
Proof.
  unfold SendHandshakeInitiation. apply does_bind; [|intros _].
  { apply does_when. intros _. apply does_on_rt, (neutral_attempts (fun _ => 0)). }
  apply does_bind; [apply does_too_soon|]. intros []; [apply does_ret|].
  apply (does_sent_now p). intros now []. walk.
Qed.
#[local] Hint Resolve does_SendHandshakeInitiation : steps.

Lemma does_begin p now : does (on_dev (fun d => Noise.BeginSymmetricSession (hmac C) d p now)).
Proof. by apply (does_session _ (Sessions.OpBeginSession p now)). Qed.
#[local] Hint Resolve does_begin : steps.

Lemma does_SendHandshakeResponse p : does (SendHandshakeResponse C W p).
Proof.
  unfold SendHandshakeResponse. apply (does_sent_now p). intros now []. walk. by eapply (does_session _ (Sessions.OpCreateResponse _ _ _ _)).
Qed.
#[local] Hint Resolve does_SendHandshakeResponse : steps.

Lemma does_SendHandshakeCookie elem : does (SendHandshakeCookie C W elem).
Proof. unfold SendHandshakeCookie. walk. Qed.
#[local] Hint Resolve does_SendHandshakeCookie : steps.

(** ** Data packets *)

Lemma does_at_get_peer {A} e p (k : Peer -> M A) :
  (forall pr, peers (dev e) !! p = Some pr -> does_at e (k pr)) -> does_at e (bind (get_peer p) k).
Proof.
  intros Hk. apply does_at_bind; [apply does_get_peer|]. intros pr e1. unfold get_peer.
  destruct (peers (dev e) !! p) as [x|] eqn:H; [|done]. intros [= -> <-]. auto.
Qed.

Lemma does_at_get_rt {A} e p (k : Runtime -> M A) :
  (forall r, runtimes e !! p = Some r -> does_at e (k r)) -> does_at e (bind (get_rt p) k).
Proof.
  intros Hk. apply does_at_bind; [apply does_get_rt|]. intros r e1. unfold get_rt.
  destruct (runtimes e !! p) as [x|] eqn:H; [|done]. intros [= -> <-]. auto.
Qed.

Lemma does_queue p f : fair f -> closing f -> does (on_rt p (update_queues f)).
Proof.
  intros Hf Hc e a e'. unfold on_rt. destruct (runtimes e !! p) as [r|] eqn:H; [|done]. intros [= _ <-].
  destruct (Hf (queues r)). apply rtc_once, act_queue; auto.
Qed.

Lemma does_queue_running e p f : fair f -> runs (dev e) p -> does_at e (on_rt p (update_queues f)).
Proof.
  intros Hf Hc a e'. unfold on_rt. destruct (runtimes e !! p) as [r|] eqn:H; [|done]. intros [= _ <-].
  destruct (Hf (queues r)). apply rtc_once, act_queue; auto.
Qed.

Lemma does_current_keypair p : does (current_keypair p).
Proof. unfold current_keypair. walk. Qed.

Lemma does_send_container p k : does (send_container p k).
Proof. intros e x e' H. by eapply rtc_once, act_container. Qed.
#[local] Hint Resolve does_current_keypair does_send_container : steps.

Lemma does_send_staged fuel p k : does (send_staged C W fuel p k).
Proof. revert k. induction fuel as [|fuel IH]; intros [k|]; cbn [send_staged]; walk; auto. Qed.

Lemma does_SendStagedPackets p : does (SendStagedPackets C W p).
Proof. unfold SendStagedPackets. walk. apply does_send_staged. Qed.
#[local] Hint Resolve does_SendStagedPackets : steps.

Lemma does_SendKeepalive p : does (SendKeepalive C W p).
Proof.
  intros e. unfold SendKeepalive. apply does_at_get_rt. intros r Hr. apply does_at_get_peer. intros pr Hp.
  apply does_at_bind; [|intros; apply does_SendStagedPackets].
  destruct (_ && isRunning pr) eqn:Hb; [|apply does_ret]. apply andb_prop in Hb as [_ Hb].
  apply does_queue_running; [by apply fair_append | by exists pr].
Qed.

Lemma does_push_priority p k msg : does (push_priority p k msg).
Proof. intros e [] e' H. by eapply rtc_once, act_priority. Qed.
#[local] Hint Resolve does_SendKeepalive does_push_priority : steps.

Lemma does_SendPriorityMessage p : does (SendPriorityMessage priorityMsgFn p).
Proof. unfold SendPriorityMessage. walk. Qed.

Lemma does_encrypt_elems p es : does (encrypt_elems C W p es).
Proof. induction es; cbn [encrypt_elems]; walk; auto. Qed.
#[local] Hint Resolve does_SendPriorityMessage does_encrypt_elems : steps.

Lemma does_RoutineEncryption p : does (RoutineEncryption C W p).
Proof. unfold RoutineEncryption. walk. apply does_queue; [apply fair_fill | apply closing_fill]. Qed.

Lemma does_rekeyAfterTime : does (rekeyAfterTime W).
Proof. unfold rekeyAfterTime. walk. Qed.
#[local] Hint Resolve does_rekeyAfterTime : steps.

Lemma does_keepKeyFreshSending p : does (keepKeyFreshSending C W p).
Proof. unfold keepKeyFreshSending. walk. Qed.

Lemma does_keepKeyFreshReceiving p : does (keepKeyFreshReceiving C W p).
Proof. unfold keepKeyFreshReceiving. walk. Qed.
#[local] Hint Resolve does_keepKeyFreshSending does_keepKeyFreshReceiving : steps.

Lemma does_pop p : does (on_rt p (update_queues pop_outbound)).
Proof. apply does_queue; [apply fair_pop | apply closing_pop]. Qed.
#[local] Hint Resolve does_pop : steps.

Lemma does_processOutboundContainer p : does (processOutboundContainer C W p).
Proof. unfold processOutboundContainer. walk. Qed.

Lemma does_decrypt_elem elem : does (decrypt_elem C elem).
Proof. unfold decrypt_elem. walk. Qed.

Lemma does_validate_counter k c : does (validate_counter k c).
Proof.
  apply does_on_dev. intros e d' ok. destruct (keypairs (dev e) !! k) as [kp|] eqn:Hk; [|done]. red_bind.
  destruct (Replay.ValidateCounter _ _ _) as [b f]. intros [= <- <-]. by apply rtc_once, act_dev, da_filter.
Qed.

Lemma does_received p k : does (on_dev (fun d => ReceivedWithKeypair d p k)).
Proof. by apply (does_session _ (Sessions.OpReceivedWith p k)). Qed.
#[local] Hint Resolve does_decrypt_elem does_validate_counter does_received : steps.

Lemma does_process_elements p es acc : does (process_elements C W priorityMsgFn p es acc).
Proof.
  revert acc. induction es as [|elem es IH]; intros acc; cbn [process_elements]; [apply does_ret|].
  apply does_bind; [|intros; apply IH]. unfold process_elem. walk.
Qed.
#[local] Hint Resolve does_process_elements : steps.

(** The head of the queue of received containers is taken. *)
Lemma does_take e p r es rest :
  runtimes e !! p = Some r -> inbound (queues r) = es :: rest ->
  does_at e (on_rt p (update_queues (fun q => set_inbound q rest))).
Proof.
  intros Hr Hi a e'. unfold on_rt. rewrite Hr. intros [= _ <-]. apply rtc_once, act_queue; [done | done | done|].
  left. split_and!; [done | done|]. rewrite Hi. cbn. lia.
Qed.

(** The rest of the handler, once a container has been taken. *)
Lemma does_after_take p es :
  does (let* _ := require (bool_decide (o_batchSize W <> 0%nat) && bool_decide (length es <= o_batchSize W)%nat) in
        let* acc := process_elements C W priorityMsgFn p es (mkReceived None false 0 []) in
        let* _ := on_rt p (fun r => set_rxBytes r (u64 (rxBytes r + rxBytesLen acc))) in
        let* _ := (match validTailPacket acc with
                   | None => ret tt
                   | Some ep =>
                       let* _ := on_rt p (SetEndpointFromPacket ep) in
                       let* _ := keepKeyFreshReceiving C W p in
                       let* _ := timer_event p timersAnyAuthenticatedPacketTraversal in
                       timer_event p (fun active _ => timersAnyAuthenticatedPacketReceived active)
                   end) in
        let* _ := when (dataPacketReceived acc) (timer_event p timersDataReceived) in
        when (negb (bool_decide (scratch acc = []))) (emit (TunWrite (scratch acc)))).
Proof. walk. Qed.

Lemma does_processInboundContainer p : does (processInboundContainer C W priorityMsgFn p).
Proof.
  intros e. unfold processInboundContainer. apply does_at_get_rt. intros r Hr.
  destruct (inbound (queues r)) as [|es rest] eqn:Hi; [apply does_ret|].
  apply does_at_bind; [by apply (does_take e p r es rest) | intros ? ? _; apply does_after_take].
Qed.

(** ** Receiving *)

Lemma does_receive_all batch m : does (receive_all C batch m).
Proof.
  revert m. induction batch as [|[ep b] batch IH]; intros m; cbn [receive_all]; [apply does_ret|].
  apply does_bind; [|intros; apply IH]. unfold receive_datagram. walk;
    by match goal with |- context [if ?b then _ else _] => destruct b end.
Qed.
#[local] Hint Resolve does_receive_all : steps.

Lemma does_RoutineReceiveIncoming batch : does (RoutineReceiveIncoming C batch).
Proof.
  unfold RoutineReceiveIncoming. apply does_bind; [apply does_receive_all|]. intros m. apply does_for_each. intros x e.
  apply does_at_get_peer. intros pr Hp.
  destruct (isRunning pr) eqn:Hrun; cbn [when]; [|apply does_ret].
  apply does_queue_running; [apply fair_inbound | by exists pr].
Qed.

Lemma does_IsUnderLoad : does IsUnderLoad.
Proof. unfold IsUnderLoad. walk. Qed.
#[local] Hint Resolve does_IsUnderLoad : steps.

Lemma does_check_handshake elem : does (check_handshake C W elem).
Proof. unfold check_handshake. walk. Qed.

Lemma does_handle_initiation elem : does (handle_initiation C W elem).
Proof. unfold handle_initiation. walk. by eapply (does_session _ (Sessions.OpConsumeInitiation _ _ _)). Qed.

Lemma does_handle_response elem : does (handle_response C W priorityMsgFn elem).
Proof. unfold handle_response. walk. by eapply (does_session _ (Sessions.OpConsumeResponse _)). Qed.

Lemma does_handle_cookie elem : does (handle_cookie C elem).
Proof. unfold handle_cookie. walk. Qed.
#[local] Hint Resolve does_check_handshake does_handle_initiation does_handle_response does_handle_cookie : steps.

Lemma does_RoutineHandshake : does (RoutineHandshake C W priorityMsgFn).
Proof. unfold RoutineHandshake. walk. Qed.

(** ** Packets to send *)

Lemma does_route src dst pkt : does (route src dst pkt).
Proof. unfold route. walk. Qed.
#[local] Hint Resolve does_route : steps.

Lemma does_read_all packets m : does (read_all packets m).
Proof.
  revert m. induction packets as [|pkt packets IH]; intros m; cbn [read_all]; [apply does_ret|].
  destruct (_ || _); [apply IH|]. apply does_bind; [unfold tun_peer; walk | intros [p|]; apply IH].
Qed.

Lemma does_stage_all e p cs : runs (dev e) p -> does_at e (for_each cs (fun c => on_rt p (StagePackets c))).
Proof.
  revert e. induction cs as [|c cs IH]; intros e Hr; cbn [for_each]; [apply does_ret|].
  apply does_at_bind; [by apply does_queue_running; [apply fair_stage|]|].
  intros [] e1 H. apply IH. unfold on_rt in H. destruct (runtimes e !! p); [|done]. by injection H as <-.
Qed.

Lemma does_stage_and_send p cs : does (stage_and_send C W p cs).
Proof.
  intros e. unfold stage_and_send. apply does_at_get_peer. intros pr Hp.
  destruct (isRunning pr) eqn:Hr; [|apply does_ret].
  apply does_at_bind; [apply does_stage_all; by exists pr | intros; apply does_bind; auto with steps].
Qed.
#[local] Hint Resolve does_read_all does_stage_and_send : steps.

Lemma does_RoutineReadFromTUN packets : does (RoutineReadFromTUN C W packets).
Proof. unfold RoutineReadFromTUN. walk. Qed.

Lemma does_inputPacketPeer dst slices : does (inputPacketPeer dst slices).
Proof. unfold inputPacketPeer. cbv zeta. walk. Qed.
#[local] Hint Resolve does_inputPacketPeer : steps.

Lemma does_InputPacket dst slices : does (InputPacket C W dst slices).
Proof. unfold InputPacket. walk. Qed.

Lemma does_input_all packets m u : does (input_all packets m u).
Proof.
  revert m u. induction packets as [|[dst slices] packets IH]; intros m u; cbn [input_all]; [apply does_ret|].
  apply does_bind; [auto with steps|]. intros [p|]; [|apply IH]. apply does_bind; [auto with steps|]. intros r.
  destruct (_ >=? _); [apply IH|]. destruct (gather_packet slices); apply IH.
Qed.
#[local] Hint Resolve does_input_all : steps.

Lemma does_InputPackets packets : does (InputPackets C W packets).
Proof. unfold InputPackets. walk. Qed.

(** ** Timers *)

(** An update before, in and after the queues, in one go. *)
Lemma does_rt_queue e p g1 f g2 :
  neutral g1 -> fair f -> closing f ->
  (forall r, same_out (queues r) (queues (g2 r)) /\ (unarmed r (g2 r) \/ runs (dev e) p)) ->
  does_at e (on_rt p (fun r => g2 (update_queues f (g1 r)))).
Proof.
  intros H1 Hf Hc H2 a e'. unfold on_rt. destruct (runtimes e !! p) as [r|] eqn:Hr; [|done]. intros [= _ <-].
  destruct (H1 r) as [Hs Hu], (Hf (queues (g1 r))), (H2 (update_queues f (g1 r))).
  pose (e1 := set_runtimes e (<[p := g1 r]> (runtimes e))).
  pose (e2 := set_runtimes e1 (<[p := update_queues f (g1 r)]> (runtimes e1))).
  eapply (rtc_l _ _ e1); [by eapply act_rt; eauto|].
  eapply (rtc_l _ _ e2); [eapply act_queue; eauto; apply lookup_insert_eq|].
  replace (set_runtimes e _) with (set_runtimes e2 (<[p := g2 (update_queues f (g1 r))]> (runtimes e2))).
  - eapply rtc_once, act_rt; [apply lookup_insert_eq | done | done].
  - subst e2 e1. unfold set_runtimes. cbn. by rewrite !insert_insert_eq.
Qed.

Lemma does_ZeroAndFlushAll p : does (ZeroAndFlushAll p).
Proof.
  unfold ZeroAndFlushAll. apply does_bind; [auto with steps|]. intros _. apply does_bind.
  - apply does_change_dev. intros e d' H. apply rtc_once, act_dev. by apply (da_session _ _ (Sessions.OpZeroAndFlush p)).
  - intros _ e. apply (does_rt_queue e p (fun r => r) _ (fun r => noteSessionStateLocked PeerSessionNone (set_expires r zeroTime))).
    + exact neutral_id.
    + apply fair_flush.
    + apply closing_flush.
    + intros r. destruct (neutral_note PeerSessionNone (set_expires r zeroTime)). auto.
Qed.

Lemma does_at_active {A} e p (k : bool -> M A) :
  (forall pr, peers (dev e) !! p = Some pr -> does_at e (k (isRunning pr && isUp e))) -> does_at e (bind (timersActive p) k).
Proof.
  intros Hk a e'. unfold timersActive, bind, get_peer, gets, ret.
  destruct (peers (dev e) !! p) as [pr|] eqn:Hp; [|done]. red_bind. by apply Hk.
Qed.

Lemma does_expiredRetransmitHandshake p : does (expiredRetransmitHandshake C W p).
Proof.
  intros e. unfold expiredRetransmitHandshake. apply does_at_get_rt. intros r _. destruct (_ >? _).
  - apply does_at_active. intros pr Hp. apply does_at_bind; [apply does_gets|]. intros now e1 [= <- <-].
    apply does_at_get_peer. intros pr' _. set (active := isRunning pr && isUp e).
    apply (does_rt_queue e p (fun r => if active then Del sendKeepalive r else r) _
             (fun r => noteSessionHandshakeStopped pr'
                (if active && negb (IsPending r zeroKeyMaterial) then Mod zeroKeyMaterial (clock e) (RejectAfterTime * 3) r else r))).
    + destruct active; [apply neutral_Del | exact neutral_id].
    + apply fair_flush.
    + apply closing_flush.
    + intros r0. unfold noteSessionHandshakeStopped. set (s := if hasKeyMaterial pr' then _ else _).
      match goal with |- context [noteSessionStateLocked s ?x] => destruct (neutral_note s x) as [Hs Hu] end.
      destruct active eqn:Ha; cbn [andb] in *; [|auto].
      destruct (negb _); [|auto]. split; [done|]. right. exists pr. by apply andb_prop in Ha as [? _].
  - revert e. change (does (let* _ := on_rt p (fun r => markEndpointSrcForClearing
        (update_timers (fun t => set_handshakeAttempts t (u32 (handshakeAttempts t + 1))) r)) in
      let* _ := SendHandshakeInitiation C W p true in ret tt)). walk.
    apply does_on_rt. apply neutral_comp; [apply (neutral_attempts (fun n => u32 (n + 1))) | apply neutral_mark].
Qed.

Lemma does_expiredSendKeepalive p : does (expiredSendKeepalive C W p).
Proof.
  unfold expiredSendKeepalive. walk. apply does_timer_event. intros [] now r; (split; [done|]); [done | by intros _ ?; left].
Qed.

Lemma does_expiredNewHandshake p : does (expiredNewHandshake C W p).
Proof. unfold expiredNewHandshake. walk. Qed.

Lemma does_expiredPersistentKeepalive p : does (expiredPersistentKeepalive C W p).
Proof. unfold expiredPersistentKeepalive. walk. Qed.

Lemma does_expiredSession p : does (let* now := gets clock in on_rt p (expiredSession now)).
Proof. walk. apply does_on_rt. intros r. unfold expiredSession. cbv zeta. destruct (_ || _); [apply neutral_id | apply neutral_note]. Qed.

Lemma does_keepalives : does (SendKeepalivesToPeersWithCurrentKeypair C W).
Proof. unfold SendKeepalivesToPeersWithCurrentKeypair, all_peers. walk. Qed.

Lemma does_BindUpdate : does (BindUpdate W).
Proof. unfold BindUpdate, clear_sources, set_port, all_peers. walk. Qed.

Lemma does_BindSetMark mark : does (BindSetMark W mark).
Proof. unfold BindSetMark, clear_sources, set_fwmark, all_peers. walk. Qed.

Lemma does_BrokenRoaming : does DisableSomeRoamingForBrokenMobileSemantics.
Proof. unfold DisableSomeRoamingForBrokenMobileSemantics, all_peers. walk. Qed.

End Steps.

#[export] Hint Resolve does_ret does_gets does_lift does_require does_get_peer does_get_rt does_call does_emit does_on_rt does_timer_event : steps.
#[export] Hint Resolve neutral_Del neutral_note neutral_endpoint neutral_mark neutral_from_packet : steps.
#[export] Hint Resolve does_SendBuffers does_SendStagedPackets does_SendKeepalive does_SendHandshakeInitiation : steps.
#[export] Hint Resolve does_RoutineEncryption does_processOutboundContainer does_processInboundContainer : steps.
#[export] Hint Resolve does_RoutineReceiveIncoming does_RoutineHandshake does_RoutineReadFromTUN does_InputPacket does_InputPackets : steps.
#[export] Hint Resolve does_ZeroAndFlushAll does_keepalives does_BindUpdate does_BindSetMark does_BrokenRoaming does_expiredRetransmitHandshake does_expiredSendKeepalive : steps.
#[export] Hint Resolve does_expiredNewHandshake does_expiredPersistentKeepalive does_expiredSession : steps.

End EngineSteps.
