(* ===== verification/EngineInv.v ===== *)
(** * Invariants of the device at work

    For every sequence of steps of a device (Engine.v): the packet counters and
    the queues of its peers agree, a stopped peer has no pending timer and no
    queued packet, no nonce is used twice, and handshake initiations to a peer
    are at least five seconds apart.  Each is proved for the small steps of
    EngineSteps.v and for the starting and stopping of peers. *)

From stdpp Require Import functions relations.
From S2P Require Import Prelude Bits Bytes GoStrings Replay Ratelimiter AllowedIPs MagicHeader.
From S2P Require Import ObfChain Messages Wire Tai64n Noise Sessions Cookie Transport Runtime Engine Uapi Machine EngineSteps.

Module EngineInv.

Import Noise Runtime Engine Machine EngineSteps.

Local Open Scope Z_scope.
Local Open Scope engine_scope.

(** ** What a step does to the device *)

(** The nonce counters stay, and new key pairs start at zero. *)
Definition nonces_kept (K K' : gmap kid Keypair) : Prop :=
  (forall k kp, K !! k = Some kp -> exists kp', K' !! k = Some kp' /\ sendNonce kp' = sendNonce kp) /\
  (forall k kp', K' !! k = Some kp' -> K !! k = None -> sendNonce kp' = 0).

Definition lastSent (pr : Peer) : Z := lastSentHandshake (handshake pr).

Record dev_effect (now : Z) (d d' : Device) : Prop := {
  eff_absent : forall p, peers d !! p = None -> peers d' !! p = None;
  eff_peer : forall p pr, peers d !! p = Some pr -> exists pr', peers d' !! p = Some pr' /\
    isRunning pr' = isRunning pr /\ (lastSent pr' = lastSent pr \/ lastSent pr' = now);
  eff_nonces : nonces_kept (keypairs d) (keypairs d')
}.

Lemma nonces_refl K : nonces_kept K K.
Proof. split; [eauto|]. intros k kp H H'. congruence. Qed.

Lemma nonces_new (K : gmap kid Keypair) k kp : K !! k = None -> sendNonce kp = 0 -> nonces_kept K (<[k := kp]> K).
Proof.
  intros Hk Hz. split.
  - intros k' kp' H. exists kp'. split; [|done]. rewrite lookup_insert_ne; [done|]. intros <-. congruence.
  - intros k' kp' [[<- <-] | [Hne H]]%lookup_insert_Some H'; [done | congruence].
Qed.

Lemma nonces_replace (K : gmap kid Keypair) k kp kp' :
  K !! k = Some kp -> sendNonce kp' = sendNonce kp -> nonces_kept K (<[k := kp']> K).
Proof.
  intros Hk Hn. split.
  - intros k1 kp1 H. destruct (decide (k = k1)) as [<-|Hne].
    + exists kp'. rewrite lookup_insert_eq. split; [done | congruence].
    + exists kp1. by rewrite lookup_insert_ne.
  - intros k1 kp1 [[<- <-] | [Hne H]]%lookup_insert_Some H'; congruence.
Qed.

Lemma effect_update now d d' p pr pr' :
  peers d !! p = Some pr -> peers d' = <[p := pr']> (peers d) -> isRunning pr' = isRunning pr ->
  lastSent pr' = lastSent pr \/ lastSent pr' = now -> nonces_kept (keypairs d) (keypairs d') -> dev_effect now d d'.
Proof.
  intros Hp HP Hr Hl Hk. split; [| |done]; intros q; rewrite HP.
  - intros Hq. rewrite lookup_insert_ne; [done|]. intros <-. congruence.
  - intros qr Hq. destruct (decide (p = q)) as [<-|Hne].
    + exists pr'. rewrite lookup_insert_eq. simplify_eq. done.
    + exists qr. rewrite lookup_insert_ne by done. auto.
Qed.

Lemma effect_same now d d' :
  peers d' = peers d -> nonces_kept (keypairs d) (keypairs d') -> dev_effect now d d'.
Proof. intros HP Hk. split; [| |done]; intros p; rewrite HP; eauto. Qed.

Lemma effect_refl now d : dev_effect now d d.
Proof. by apply effect_same; [|apply nonces_refl]. Qed.

Lemma effect_handshake now d d' : Sessions.handshake_only d d' -> dev_effect now d d'.
Proof.
  intros [-> | (p & pr & h & T & Hp & Hl & ->)]; [apply effect_refl|].
  eapply effect_update; [done | done | done | by left | apply nonces_refl].
Qed.

(** ** What sending does *)

Definition range_ok (K : gmap kid Keypair) : Prop :=
  forall k kp, K !! k = Some kp -> 0 <= sendNonce kp <= RejectAfterMessages.

Definition nonces_in (k : kid) (lo hi : Z) (ns : list (kid * Z)) : Prop :=
  NoDup ns /\ Forall (fun x => fst x = k /\ lo <= snd x < hi) ns.

Lemma assign_spec k nonce es kept ooo n :
  0 <= nonce <= RejectAfterMessages -> assign_nonces k nonce es = (kept, ooo, n) ->
  nonce <= n <= RejectAfterMessages /\ nonces_in k nonce n (elem_nonces kept).
Proof.
  revert nonce kept ooo n. induction es as [|e es IH]; intros nonce kept ooo n Hn; cbn.
  { intros [= <- <- <-]. split_and!; [lia | lia | split; constructor]. }
  destruct (Z.geb_spec nonce RejectAfterMessages).
  - destruct (assign_nonces k RejectAfterMessages es) as [[kept' ooo'] n'] eqn:Ha. intros [= <- <- <-].
    apply IH in Ha as (Hr & Hd & Hf); [|unfold RejectAfterMessages; lia]. split_and!; [lia | lia | split; [done|]].
    eapply list.Forall_impl; [exact Hf|]. cbn. intros x [? ?]. split; [done | lia].
  - rewrite u64_small by (unfold is_u, RejectAfterMessages in *; lia).
    destruct (assign_nonces k (nonce + 1) es) as [[kept' ooo'] n'] eqn:Ha. intros [= <- <- <-].
    apply IH in Ha as (Hr & Hd & Hf); [|lia]. split_and!; [lia | lia | split]; cbn.
    + constructor; [|done]. intros Hin. rewrite list.Forall_forall in Hf. apply Hf in Hin as [_ Hin]. cbn in Hin. lia.
    + constructor; [cbn; split; [done | lia]|]. eapply list.Forall_impl; [exact Hf|]. cbn. intros x [? ?]. split; [done | lia].
Qed.

Lemma assign_length k nonce es kept ooo n :
  assign_nonces k nonce es = (kept, ooo, n) -> (length kept + length ooo = length es)%nat.
Proof.
  revert nonce kept ooo n. induction es as [|e es IH]; intros nonce kept ooo n; cbn; [by intros [= <- <- _]|].
  destruct (_ >=? _); destruct (assign_nonces _ _ es) as [[kept' ooo'] n'] eqn:Ha; intros [= <- <- <-];
    apply IH in Ha; cbn; lia.
Qed.

(** One assignment of nonces: the key pair's counter moves from its value to [n],
    and the pending nonces it adds lie in between. *)
Record sends (e e' : Engine) (p : pid) (k : kid) (kp : Keypair) (r : Runtime) (q' : Queues) (n : Z) : Prop := {
  sends_keypair : keypairs (dev e) !! k = Some kp;
  sends_runtime : runtimes e !! p = Some r;
  sends_result : e' = set_runtimes (set_dev e (set_keypairs (dev e) (alter (fun kp => set_sendNonce kp n) k (keypairs (dev e)))))
                        (<[p := set_queues r q']> (runtimes e));
  sends_counter : 0 <= sendNonce kp <= RejectAfterMessages -> sendNonce kp <= n <= RejectAfterMessages;
  sends_pending : 0 <= sendNonce kp <= RejectAfterMessages ->
    exists ns, nonces_in k (sendNonce kp) n ns /\ pending q' ⊆+ ns ++ pending (queues r);
  sends_counted : counted (queues r) -> counted q';
  sends_entry : no_entry (queues r) q' \/ runs (dev e) p
}.

(** The queues after a container has been taken and its elements distributed. *)
Definition distribute (running : bool) (kept ooo : list outElem) (q : Queues) : Queues :=
  let q := if bool_decide (ooo = []) then q
           else stage (mkContainer ooo None) (add_queued (- Z.of_nat (length ooo)) q) in
  match kept with
  | [] => q
  | _ => if running then set_outbound q (outbound q ++ [mkContainer kept None])
         else add_queued (- Z.of_nat (length kept)) q
  end.

Lemma stage_tally c q n : tally q (n + total (staged q)) -> tally (stage c q) (n + total (staged (stage c q))).
Proof.
  intros H. unfold stage. cbv zeta. change (staged (add_queued (count c) q)) with (staged q). case_bool_decide as Hl.
  - cbn. rewrite total_app. eapply tally_eq; [by apply (tally_add q) | cbn; lia].
  - destruct (staged q) as [|old rest]; [unfold QueueStagedSize in Hl; cbn in Hl; lia|]. cbn in *. rewrite total_app.
    eapply tally_eq; [by apply (tally_add (add_queued (count c) q)), (tally_add q) | cbn; lia].
Qed.

Lemma stage_outbound c q : outbound (stage c q) = outbound q.
Proof. unfold stage. cbv zeta. case_bool_decide; [done|]. by destruct (staged _). Qed.

Lemma stage_inbound c q : inbound (stage c q) = inbound q.
Proof. unfold stage. cbv zeta. case_bool_decide; [done|]. by destruct (staged _). Qed.

Lemma distribute_counted running kept ooo q c cs :
  staged q = c :: cs -> (length kept + length ooo = length (elems c))%nat -> counted q ->
  counted (distribute running kept ooo (set_staged q cs)).
Proof.
  intros Hs Hl. rewrite !counted_tally, Hs. cbn [total]. unfold count at 1. intros H. unfold distribute.
  set (q1 := if bool_decide (ooo = []) then _ else _).
  assert (tally q1 (Z.of_nat (length kept) + total (outbound q) + total (staged q1)) /\ outbound q1 = outbound q) as [H1 Ho].
  { subst q1. case_bool_decide as Ho; [|split; [apply stage_tally | by rewrite stage_outbound]].
    - subst ooo. split; [|done]. cbn. eapply tally_eq; [apply H | cbn in Hl; lia].
    - cbn. eapply tally_eq; [by apply (tally_add (set_staged q cs)) | cbn; lia]. }
  clearbody q1. destruct kept as [|x kept]; [rewrite Ho; eapply tally_eq; [done | cbn; lia]|]. 
  destruct running; cbn [staged outbound set_outbound add_queued set_queuedOutboundPackets].
  - rewrite total_app, Ho. eapply tally_eq; [exact H1 | cbn [total]; unfold count; cbn [elems]; lia].
  - rewrite Ho. eapply tally_eq; [by apply tally_add | lia].
Qed.

Lemma distribute_entry running kept ooo q c cs :
  staged q = c :: cs -> running = true \/ no_entry q (distribute running kept ooo (set_staged q cs)).
Proof.
  intros Hs. destruct running; [by left|]. right. split_and!; [by rewrite Hs | intros Ho |]; unfold distribute;
    destruct kept; cbn; case_bool_decide; cbn; rewrite ?stage_outbound, ?stage_inbound; done.
Qed.

Lemma distribute_pending running kept ooo q cs :
  pending (distribute running kept ooo (set_staged q cs)) ⊆+ elem_nonces kept ++ pending q.
Proof.
  unfold distribute, pending. set (q1 := if bool_decide (ooo = []) then _ else _).
  assert (outbound q1 = outbound q) as Ho by (subst q1; case_bool_decide; [done | by rewrite stage_outbound]).
  clearbody q1. destruct kept as [|x kept]; [by rewrite Ho|].
  destruct running; cbn [outbound set_outbound add_queued set_queuedOutboundPackets]; rewrite Ho.
  - rewrite bind_app. cbn. rewrite app_nil_r. apply Permutation_submseteq, Permutation_app_comm.
  - by apply submseteq_inserts_l.
Qed.

Lemma set_queues_twice r q q' : set_queues (set_queues r q) q' = set_queues r q'.
Proof. done. Qed.

Lemma container_sends p k e x e' :
  send_container p k e = Some (x, e') -> e' = e \/ exists kp r q' n, sends e e' p k kp r q' n.
Proof.
  unfold send_container, pop_staged, bind, get_rt, gets, lift, ret, on_rt, set_nonce, change_dev, on_dev, when, get_peer.
  destruct (runtimes e !! p) as [r|] eqn:Hr; [|done]. red_bind.
  destruct (staged (queues r)) as [|c cs] eqn:Hs; red_bind; [intros [= _ <-]; by left|]. rewrite Hr. red_bind. cbn.
  destruct (keypairs (dev e) !! k) as [kp|] eqn:Hk; [|done]. red_bind.
  destruct (assign_nonces k (sendNonce kp) (elems c)) as [[kept ooo] n] eqn:Ha.
  assert (Hsend : forall run, run = false \/ runs (dev e) p ->
    sends e (set_runtimes (set_dev e (set_keypairs (dev e) (alter (fun kp => set_sendNonce kp n) k (keypairs (dev e)))))
               (<[p := set_queues r (distribute run kept ooo (set_staged (queues r) cs))]> (runtimes e)))
      p k kp r (distribute run kept ooo (set_staged (queues r) cs)) n).
  { intros run Hrun. split; [done | done | done | | | |].
    - intros H. by destruct (assign_spec _ _ _ _ _ _ H Ha).
    - intros H. exists (elem_nonces kept). split; [by destruct (assign_spec _ _ _ _ _ _ H Ha) | apply distribute_pending].
    - apply (distribute_counted _ _ _ _ c); [done|]. by eapply assign_length.
    - destruct (distribute_entry run kept ooo (queues r) c cs Hs) as [->|]; [|by left]. by destruct Hrun; [|right]. }
  destruct (peers (dev e) !! p) as [pr|] eqn:Hp.
  - assert (Hrun : isRunning pr = false \/ runs (dev e) p) by (destruct (isRunning pr) eqn:?; [right; by exists pr | by left]).
    specialize (Hsend _ Hrun). unfold distribute in Hsend. revert Hsend. cbn.
    destruct (bool_decide (ooo = [])); cbn; rewrite ?lookup_insert_eq; red_bind;
      destruct kept; cbn; rewrite ?Hp; red_bind; cbn [runtimes set_runtimes set_dev]; rewrite ?lookup_insert_eq; red_bind;
      intros Hsend [= _ <-]; right; do 4 eexists; rewrite ?insert_insert_eq; exact Hsend.
  - specialize (Hsend false (or_introl eq_refl)). unfold distribute in Hsend. revert Hsend. cbn.
    destruct (bool_decide (ooo = [])); cbn; rewrite ?lookup_insert_eq; red_bind;
      destruct kept; cbn; rewrite ?Hp; red_bind; try done; intros Hsend [= _ <-]; right; do 4 eexists;
      rewrite ?insert_insert_eq; exact Hsend.
Qed.

Lemma set_queues_id r : set_queues r (queues r) = r.
Proof. by destruct r. Qed.

Lemma priority_sends p k msg e e' :
  is_Some (runtimes e !! p) -> push_priority p k msg e = Some (tt, e') -> exists kp r q' n, sends e e' p k kp r q' n.
Proof.
  intros [r Hr]. unfold push_priority, bind, gets, lift, ret, set_nonce, change_dev, on_dev, when, get_peer, on_rt.
  red_bind. destruct (keypairs (dev e) !! k) as [kp|] eqn:Hk; [|done]. red_bind.
  destruct (peers (dev e) !! p) as [pr|] eqn:Hp; [|done]. red_bind.
  assert (Hidle : forall n, (0 <= sendNonce kp <= RejectAfterMessages -> sendNonce kp <= n <= RejectAfterMessages) ->
    sends e (set_dev e (set_keypairs (dev e) (alter (fun kp => set_sendNonce kp n) k (keypairs (dev e))))) p k kp r (queues r) n).
  { intros n Hn. split; try done.
    - rewrite set_queues_id, insert_id by done. by destruct e.
    - intros H. exists []. split; [split; constructor | done].
    - by left. }
  destruct (Z.geb_spec (sendNonce kp) RejectAfterMessages) as [Hge|Hlt]; cbn.
  - intros [= <-]. do 4 eexists. apply Hidle. lia.
  - destruct (isRunning pr) eqn:Hrun; cbn.
    + rewrite Hr. red_bind. intros [= <-]. exists kp, r, (add_queued 1 (set_outbound (queues r)
        (outbound (queues r) ++ [mkContainer [mkElem msg (sendNonce kp) (Some k)] None]))), (u64 (sendNonce kp + 1)).
      assert (Hu : 0 <= sendNonce kp <= RejectAfterMessages -> u64 (sendNonce kp + 1) = sendNonce kp + 1).
      { intros H. apply u64_small. unfold is_u, RejectAfterMessages in *. lia. }
      split; try done.
      * intros H. rewrite Hu by done. lia.
      * intros H. rewrite Hu by done. exists [(k, sendNonce kp)]. split.
        -- split; [apply NoDup_singleton | repeat constructor; cbn; lia].
        -- unfold pending. cbn. rewrite bind_app. cbn. apply Permutation_submseteq. by rewrite Permutation_app_comm.
      * rewrite !counted_tally. cbn. rewrite total_app. intros H.
        eapply (tally_eq _ (total (staged (queues r)) + total (outbound (queues r)) + 1)); [by apply (tally_add (queues r)) | cbn [total]; unfold count; cbn [elems length]; lia].
      * right. by exists pr.
    + intros [= <-]. do 4 eexists. apply Hidle. intros H.
      rewrite u64_small; unfold is_u, RejectAfterMessages in *; lia.
Qed.

(** ** Queues and timers *)

(** [X]: the peers that are being stopped. *)
Record rt_ok (X : gset pid) (p : pid) (pr : Peer) (r : Runtime) : Prop := {
  rt_counted : counted (queues r);
  rt_timers : isRunning pr = false -> forall id, deadline (timers r) id = None;
  rt_queues : isRunning pr = false -> p ∉ X -> staged (queues r) = [] /\ outbound (queues r) = [] /\ inbound (queues r) = []
}.

Record ok (X : gset pid) (e : Engine) : Prop := {
  ok_dom : forall p, is_Some (peers (dev e) !! p) <-> is_Some (runtimes e !! p);
  ok_rt : forall p pr r, peers (dev e) !! p = Some pr -> runtimes e !! p = Some r -> rt_ok X p pr r;
  ok_config : Uapi.config_ok (config e)
}.

(** The peers keep running or stay stopped. *)
Definition same_running (d d' : Device) : Prop := forall p, isRunning <$> peers d' !! p = isRunning <$> peers d !! p.

Lemma effect_running now d d' : dev_effect now d d' -> same_running d d'.
Proof.
  intros [Ha Hp _] p. destruct (peers d !! p) as [pr|] eqn:H; [|by rewrite Ha].
  destruct (Hp p pr H) as (pr' & -> & Hr & _). cbn. by rewrite Hr.
Qed.

Lemma ok_set_dev X e d' : same_running (dev e) d' -> ok X e -> ok X (set_dev e d').
Proof.
  intros Hs [Hd Hr Hw]. split; cbn; [| |done].
  - intros p. rewrite <- Hd. specialize (Hs p). destruct (peers d' !! p), (peers (dev e) !! p); done.
  - intros p pr' r Hp Hq. specialize (Hs p). rewrite Hp in Hs. destruct (peers (dev e) !! p) as [pr|] eqn:H; [|done].
    injection Hs as Hs. destruct (Hr p pr r H Hq). split; [done|..]; by rewrite Hs.
Qed.

Lemma ok_set_rt X e p r' :
  is_Some (runtimes e !! p) -> (forall pr, peers (dev e) !! p = Some pr -> rt_ok X p pr r') -> ok X e ->
  ok X (set_runtimes e (<[p := r']> (runtimes e))).
Proof.
  intros Hp Hr' [Hd Hr Hw]. split; cbn; [| |done].
  - intros q. rewrite Hd, lookup_insert_is_Some. destruct (decide (p = q)) as [<-|]; intuition.
  - intros q pr r Hq [[<- <-] | [Hne H]]%lookup_insert_Some; [by apply Hr' | by apply Hr].
Qed.

(** An update of the queues keeps a peer in order. *)
Lemma rt_ok_queue X p pr r q' :
  rt_ok X p pr r -> (counted (queues r) -> counted q') -> no_entry (queues r) q' \/ isRunning pr = true -> rt_ok X p pr (set_queues r q').
Proof.
  intros [Hc Ht Hq] Hc' He. split; [by apply Hc' | done|]. intros Hrun HX. destruct He as [(He1 & He2 & He3)|]; [|congruence].
  destruct (Hq Hrun HX) as (? & ? & Hi). cbn. rewrite Hi in He3. split_and!; auto. apply nil_length_inv. cbn in He3. lia.
Qed.

Lemma runs_running d p pr : peers d !! p = Some pr -> runs d p -> isRunning pr = true.
Proof. intros Hp (pr' & Hp' & ?). congruence. Qed.

(** The counters of the key pairs only grow, up to their limit. *)
Definition grown (K K' : gmap kid Keypair) : Prop :=
  (forall k kp, K !! k = Some kp -> 0 <= sendNonce kp <= RejectAfterMessages ->
     exists kp', K' !! k = Some kp' /\ sendNonce kp <= sendNonce kp' <= RejectAfterMessages) /\
  (forall k kp', K' !! k = Some kp' -> K !! k = None -> 0 <= sendNonce kp' <= RejectAfterMessages).

Lemma grown_kept K K' : nonces_kept K K' -> grown K K'.
Proof.
  intros [H1 H2]. split; [|intros k kp' H H'; rewrite (H2 k kp' H H'); unfold RejectAfterMessages; lia]. intros k kp Hk Hr. destruct (H1 k kp Hk) as (kp' & Hk' & E).
  exists kp'. split; [done | lia].
Qed.

Lemma grown_refl K : grown K K.
Proof. apply grown_kept, nonces_refl. Qed.

Lemma grown_alter (K : gmap kid Keypair) k n :
  (forall kp, K !! k = Some kp -> 0 <= sendNonce kp <= RejectAfterMessages -> sendNonce kp <= n <= RejectAfterMessages) ->
  grown K (alter (fun kp => set_sendNonce kp n) k K).
Proof.
  intros Hn. split.
  - intros k' kp H Hr. destruct (decide (k = k')) as [<-|Hne].
    + exists (set_sendNonce kp n). rewrite lookup_alter_eq, H. split; [done | by apply Hn].
    + exists kp. rewrite lookup_alter_ne by done. split; [done | lia].
  - intros k' kp' H1 H2. apply lookup_alter_Some in H1 as [(_ & kp & H & _) | [_ H]]; congruence.
Qed.

Lemma grown_trans K1 K2 K3 : grown K1 K2 -> grown K2 K3 -> grown K1 K3.
Proof.
  intros [H12 N12] [H23 N23]. split.
  - intros k kp H Hr. destruct (H12 k kp H Hr) as (kp2 & H2 & E2). destruct (H23 k kp2 H2) as (kp3 & H3 & E3); [lia|].
    exists kp3. split; [done | lia].
  - intros k kp3 H3 H1. destruct (K2 !! k) as [kp2|] eqn:H2; [|by eapply N23].
    specialize (N12 k kp2 H2 H1). destruct (H23 k kp2 H2 N12) as (kp & H & E). rewrite H3 in H. injection H as <-. lia.
Qed.

Lemma exhaust_grown d ko : grown (keypairs d) (keypairs (exhaust d ko)).
Proof. destruct ko; [|apply grown_refl]. apply grown_alter. lia. Qed.

(** ** Nonces *)

(** A nonce the counter of its key pair has passed. *)
Definition below (d : Device) (x : kid * Z) : Prop :=
  exists kp, keypairs d !! x.1 = Some kp /\ 0 <= x.2 < sendNonce kp.

(** [used]: the nonces packets have been encrypted with. *)
Record nonces_ok (used : list (kid * Z)) (e : Engine) : Prop := {
  no_dom : forall p, is_Some (peers (dev e) !! p) <-> is_Some (runtimes e !! p);
  no_range : forall k kp, keypairs (dev e) !! k = Some kp -> 0 <= sendNonce kp <= RejectAfterMessages;
  no_distinct : NoDup used;
  no_used : forall x, x ∈ used -> below (dev e) x;
  no_pending : forall p r, runtimes e !! p = Some r ->
    NoDup (pending (queues r)) /\ (forall x, x ∈ pending (queues r) -> below (dev e) x /\ x ∉ used);
  no_apart : forall p q r s, p <> q -> runtimes e !! p = Some r -> runtimes e !! q = Some s ->
    forall x, x ∈ pending (queues r) -> x ∉ pending (queues s);
  no_config : Uapi.config_ok (config e)
}.

Lemma grown_below d d' x :
  grown (keypairs d) (keypairs d') -> (forall k kp, keypairs d !! k = Some kp -> 0 <= sendNonce kp <= RejectAfterMessages) ->
  below d x -> below d' x.
Proof.
  intros [Hg _] Hr (kp & Hk & Hn). destruct (Hg _ _ Hk (Hr _ _ Hk)) as (kp' & Hk' & E). exists kp'. split; [done | lia].
Qed.

Lemma grown_range d d' :
  grown (keypairs d) (keypairs d') -> (forall k kp, keypairs d !! k = Some kp -> 0 <= sendNonce kp <= RejectAfterMessages) ->
  forall k kp, keypairs d' !! k = Some kp -> 0 <= sendNonce kp <= RejectAfterMessages.
Proof.
  intros [Hg Hn] Hr k kp' Hk'. destruct (keypairs d !! k) as [kp|] eqn:Hk.
  - destruct (Hg k kp Hk (Hr k kp Hk)) as (kp1 & H1 & E1). specialize (Hr k kp Hk). rewrite Hk' in H1. injection H1 as <-. lia.
  - by apply (Hn k).
Qed.

Lemma nonces_set_dev used e d' :
  grown (keypairs (dev e)) (keypairs d') -> (forall p, is_Some (peers d' !! p) <-> is_Some (peers (dev e) !! p)) ->
  nonces_ok used e -> nonces_ok used (set_dev e d').
Proof.
  intros Hg Hd [H1 H2 H3 H4 H5 H6 H7]. split; cbn; [|by eapply grown_range | done | | | done | done].
  - intros p. by rewrite Hd.
  - intros x Hx. by eapply grown_below, H4.
  - intros p r Hr. destruct (H5 p r Hr) as [Hn Hx]. split; [done|]. intros x H. destruct (Hx x H). split; [by eapply grown_below | done].
Qed.

Lemma submseteq_NoDup {A} (xs ys : list A) : xs ⊆+ ys -> NoDup ys -> NoDup xs.
Proof. intros [zs Hp]%submseteq_Permutation Hn. rewrite Hp in Hn. by apply list.NoDup_app in Hn as (? & _). Qed.

(** The nonces pending for a peer become some of the old ones and some that no
    packet has. *)
Lemma nonces_set_rt used e p r r' ns :
  runtimes e !! p = Some r -> pending (queues r') ⊆+ ns ++ pending (queues r) -> NoDup ns ->
  (forall x, x ∈ ns -> below (dev e) x /\ x ∉ used /\ forall q s, runtimes e !! q = Some s -> x ∉ pending (queues s)) ->
  nonces_ok used e -> nonces_ok used (set_runtimes e (<[p := r']> (runtimes e))).
Proof.
  intros Hp Hsub Hns Hnew [H1 H2 H3 H4 H5 H6 H7].
  assert (Hin : forall x, x ∈ pending (queues r') -> x ∈ ns \/ x ∈ pending (queues r)).
  { intros x Hx. apply elem_of_app. by eapply elem_of_submseteq. }
  destruct (H5 p r Hp) as [Hn Hx]. split; cbn; [|done | done | done | | |done].
  - intros q. rewrite H1, lookup_insert_is_Some. destruct (decide (p = q)) as [<-|]; intuition.
  - intros q s [[<- <-] | [Hne Hs]]%lookup_insert_Some; [|by eapply H5]. split.
    + eapply submseteq_NoDup; [exact Hsub|]. apply list.NoDup_app. split; [done|]. split; [|done].
      intros x Hi. destruct (Hnew x Hi) as (_ & _ & Hq). by apply (Hq p).
    + intros x [H|H]%Hin; [by destruct (Hnew x H) as (? & ? & _) | by apply Hx].
  - intros q1 q2 s1 s2 Hne [[<- <-] | [Hne1 Hs1]]%lookup_insert_Some [[<- <-] | [Hne2 Hs2]]%lookup_insert_Some x Hx1; [done|..].
    + apply Hin in Hx1 as [H|H]; [|by eapply (H6 p q2)]. destruct (Hnew x H) as (_ & _ & Hq). by apply (Hq q2).
    + intros [H|H]%Hin; [|by eapply (H6 q1 p)]. destruct (Hnew x H) as (_ & _ & Hq). by apply (Hq q1 s1).
    + by eapply (H6 q1 q2).
Qed.

(** Pending nonces are used. *)
Lemma nonces_move used e p r r' ns :
  runtimes e !! p = Some r -> pending (queues r) = ns ++ pending (queues r') ->
  nonces_ok used e -> nonces_ok (ns ++ used) (set_runtimes e (<[p := r']> (runtimes e))).
Proof.
  intros Hr Hp He. destruct (no_pending _ _ He p r Hr) as [Hn Hx]. rewrite Hp in Hn, Hx.
  apply list.NoDup_app in Hn as (Hn & Hd & Hn').
  assert (nonces_ok used (set_runtimes e (<[p := r']> (runtimes e)))) as [H1 H2 H3 H4 H5 H6 H7].
  { eapply (nonces_set_rt used e p r r' []); [done | | constructor | |done].
    - rewrite Hp. cbn. by apply submseteq_inserts_l.
    - intros x H. by apply elem_of_nil in H. }
  split; [done | done | | | | done | done].
  - apply list.NoDup_app. split; [done|]. split; [|done]. intros x H. apply Hx. apply elem_of_app. by left.
  - intros x [H|H]%elem_of_app; [|by apply H4]. apply Hx. apply elem_of_app. by left.
  - intros q s Hs. destruct (H5 q s Hs) as [Hq Hxq]. split; [done|]. intros x H. destruct (Hxq x H) as [Hb Hu]. split; [done|].
    rewrite not_elem_of_app. split; [|done]. intros Hi. cbn in Hs. apply lookup_insert_Some in Hs as [[<- <-] | [Hne Hs]].
    + by apply (Hd x).
    + apply (no_apart _ _ He p q r s Hne Hr Hs x); [|done]. rewrite Hp. apply elem_of_app. by left.
Qed.

Lemma nonces_sends used e e' p k kp r q' n : sends e e' p k kp r q' n -> nonces_ok used e -> nonces_ok used e'.
Proof.
  intros [Hk Hr -> Hn Hp _ _] He. pose proof (no_range _ _ He k kp Hk) as Hrange.
  destruct (Hp Hrange) as (ns & [Hd Hin] & Hsub). rewrite list.Forall_forall in Hin.
  assert (Hfresh : forall x, x ∈ ns -> ~ below (dev e) x).
  { intros x Hx (kp' & Hk' & H). destruct (Hin x Hx) as [E Hx']. rewrite E in Hk'. rewrite Hk in Hk'. injection Hk' as <-. lia. }
  eapply (nonces_set_rt used (set_dev e _)); [exact Hr | exact Hsub | done | |].
  - intros x Hx. split; [|split].
    + destruct (Hin x Hx) as [E Hx']. exists (set_sendNonce kp n). cbn. rewrite E, lookup_alter_eq, Hk. split; [done | cbn; lia].
    + intros Hu. by eapply Hfresh, (no_used _ _ He).
    + intros q s Hq Hs. destruct (no_pending _ _ He q s Hq) as [_ H]. by eapply Hfresh, H.
  - apply nonces_set_dev; [|done|done]. cbn. apply grown_alter. intros kp' Hk'. rewrite Hk in Hk'. by injection Hk' as <-.
Qed.

Section Invariants.

Context (C : Primitives) (W : Oracles) (priorityMsgFn : option (bytes -> bytes)).

Lemma effect_begin now d p t d' r : Noise.BeginSymmetricSession (hmac C) d p t = Some (d', r) -> dev_effect now d d'.
Proof.
  unfold BeginSymmetricSession. destruct (peers d !! p) as [pr|] eqn:Hp; [|done]. red_bind.
  pose proof (Sessions.fresh_keypair d) as Hk.
  destruct (session_keys _ (handshake pr)) as [[[sk rk] ini]|]; [|intros [= <- <-]; apply effect_refl].
  destruct ini; [destruct (next pr)|]; intros [= <- <-];
    (eapply effect_update; [done | cbn; Sessions.rest; done | done | by left | cbn; Sessions.rest; by apply nonces_new]).
Qed.

Lemma dev_act_effect now d d' : dev_act C now d d' -> dev_effect now d d'.
Proof.
  intros [o d1 Ho H | p pr Hp | k kp f Hk].
  - destruct o; try done; cbn in H.
    + apply fmap_Some in H as ([d2 m] & H & ->). by eapply effect_handshake, Sessions.createMessageInitiation_only.
    + injection H as <-. apply effect_handshake, Sessions.ConsumeMessageInitiation_only.
    + apply fmap_Some in H as ([d2 m] & H & ->). by eapply effect_handshake, Sessions.createMessageResponse_only.
    + injection H as <-. apply effect_handshake, Sessions.ConsumeMessageResponse_only.
    + apply fmap_Some in H as ([d2 m] & H & ->). by eapply effect_begin.
    + unfold ReceivedWithKeypair in H. destruct (peers d !! p) as [pr|] eqn:Hp; [|done]. red_bind.
      case_bool_decide; injection H as <-; [|apply effect_refl].
      eapply effect_update; [done | cbn; Sessions.rest; done | done | by left | cbn; Sessions.rest; apply nonces_refl].
    + unfold Noise.ZeroAndFlushAll in H. destruct (peers d !! p) as [pr|] eqn:Hp; [|done]. red_bind. injection H as <-.
      eapply effect_update; [done | cbn; Sessions.rest; done | done | by left | cbn; Sessions.rest; apply nonces_refl].
  - eapply effect_update; [done | done | done | by right | apply nonces_refl].
  - apply effect_same; [done|]. by eapply nonces_replace.
Qed.

Lemma sends_ok X e e' p k kp r q' n : sends e e' p k kp r q' n -> ok X e -> ok X e'.
Proof.
  intros [Hk Hr -> _ _ Hc He] Hok.
  apply (ok_set_rt X (set_dev e _)); [by exists r | | by apply ok_set_dev].
  intros pr Hp. apply rt_ok_queue; [by apply (ok_rt _ _ Hok) | done|].
  destruct He; [by left | right; by eapply runs_running].
Qed.

Lemma act_ok X e e' : act C e e' -> ok X e -> ok X e'.
Proof.
  intros [e1 Hd Hr _ _ Hc | d' Hd | p r r' Hr Hs Hu | p r q' Hr Hc _ He | p k x e1 H | p k msg e1 H] Hok.
  - destruct Hok as [Ho1 Ho2 Ho3]. split; rewrite ?Hd, ?Hr, ?Hc; done.
  - apply ok_set_dev; [|done]. by eapply effect_running, dev_act_effect.
  - apply ok_set_rt; [by exists r | | done]. intros pr Hp. destruct (ok_rt _ _ Hok p pr r Hp Hr) as [Hc Ht Hq].
    destruct Hs as (Hs1 & Hs2 & Hs3 & Hs4). split.
    + unfold counted, backlog in *. by rewrite Hs1, Hs2, Hs3.
    + intros Hrun id. destruct Hu as [Hu|Hu]; [|by rewrite (runs_running _ _ _ Hp Hu) in Hrun].
      destruct (Hu id) as [->|]; [by apply Ht | done].
    + rewrite Hs1, Hs2, Hs4. auto.
  - apply ok_set_rt; [by exists r | | done]. intros pr Hp. apply rt_ok_queue; [by apply (ok_rt _ _ Hok) | done|].
    destruct He; [by left | right; by eapply runs_running].
  - apply container_sends in H as [-> | (kp & r & q' & n & H)]; [done | by eapply sends_ok].
  - assert (Hs : is_Some (runtimes e !! p)).
    { apply (ok_dom _ _ Hok). revert H. unfold push_priority, bind, gets, lift, get_peer. red_bind.
      destruct (keypairs (dev e) !! k); [|done]. red_bind. by destruct (peers (dev e) !! p). }
    destruct (priority_sends _ _ _ _ _ Hs H) as (kp & r & q' & n & H'). by eapply sends_ok.
Qed.

Lemma acts_ok X e e' : rtc (act C) e e' -> ok X e -> ok X e'.
Proof. induction 1; eauto using act_ok. Qed.

(** ** Invariants of a device *)

Definition keeps {A} (I : Engine -> Prop) (c : M A) : Prop := forall e a e', c e = Some (a, e') -> I e -> I e'.

(** What a property of the device has to withstand to hold while it runs: the
    small steps, the changes of keys, and the starting, stopping, expiring and
    adding of peers. *)
Class StepInvariant (I : Engine -> Prop) : Prop := {
  inv_act : forall e e', act C e e' -> I e -> I e';
  inv_other : forall e e', dev e' = dev e -> runtimes e' = runtimes e -> config e' = config e -> I e -> I e';
  inv_dev : forall e d', dev_effect (clock e) (dev e) d' -> I e -> I (set_dev e d');
  inv_start : forall p, keeps I (Start p);
  inv_stop : forall p, keeps I (Stop C W priorityMsgFn p);
  inv_expire : forall p, keeps I (ExpireCurrentKeypairs p);
  inv_new : forall pk, keeps I (NewPeer C pk)
}.

(** A property that implies that the configuration is valid and holds with any
    other valid configuration. *)
Class ConfigInvariant (I : Engine -> Prop) : Prop := {
  inv_config_ok : forall e, I e -> Uapi.config_ok (config e);
  inv_config : forall e c, Uapi.config_ok c -> I e -> I (set_config e c)
}.

Section Kept.

Context {I : Engine -> Prop} {HI : StepInvariant I} {HC : ConfigInvariant I}.

Lemma keeps_does {A} (c : M A) : does C c -> keeps I c.
Proof.
  intros Hc e a e' H. specialize (Hc e a e' H). clear H. induction Hc as [|e e1 e2 H]; [done|]. intros He.
  by eapply IHHc, inv_act.
Qed.

Lemma keeps_ret {A} (a : A) : keeps I (ret a).
Proof. by intros e b e' [= _ <-]. Qed.

Lemma keeps_bind {A B} (c : M A) (k : A -> M B) : keeps I c -> (forall a, keeps I (k a)) -> keeps I (bind c k).
Proof.
  intros Hc Hk e b e'. unfold bind. destruct (c e) as [[a e1]|] eqn:H; [|done]. red_bind. intros H' He.
  by eapply Hk, Hc.
Qed.

Lemma keeps_when b (c : M unit) : keeps I c -> keeps I (when b c).
Proof. intros Hc. destruct b; [done | apply keeps_ret]. Qed.

Lemma keeps_for_each {A} (xs : list A) f : (forall x, keeps I (f x)) -> keeps I (for_each xs f).
Proof. intros Hf. induction xs; cbn; [apply keeps_ret | by apply keeps_bind]. Qed.

Lemma keeps_modify f :
  (forall e, dev (f e) = dev e /\ runtimes (f e) = runtimes e /\ config (f e) = config e) -> keeps I (modify f).
Proof. intros Hf e [] e' [= <-]. destruct (Hf e) as (? & ? & ?). by apply inv_other. Qed.

Lemma keeps_config (f : Engine -> Config) :
  (forall e, Uapi.config_ok (config e) -> Uapi.config_ok (f e)) -> keeps I (modify (fun e => set_config e (f e))).
Proof. intros Hf e [] e' [= <-] He. apply inv_config; [|done]. by apply Hf, inv_config_ok. Qed.

Lemma keeps_change f : (forall now d d', f d = Some d' -> dev_effect now d d') -> keeps I (change_dev f).
Proof.
  intros Hf e a e'. unfold change_dev, on_dev. destruct (f (dev e)) as [d'|] eqn:H; [|done]. intros [= _ <-].
  by apply inv_dev, Hf.
Qed.

(** [c] is made of parts that keep [I]. *)
Ltac keep :=
  repeat match goal with
  | |- keeps _ (bind _ _) => apply keeps_bind; [|intros ?]
  | |- keeps _ (when _ _) => apply keeps_when
  | |- keeps _ (for_each _ _) => apply keeps_for_each; intros ?
  | |- keeps _ (modify _) => apply keeps_modify; intros ?; by repeat split
  | |- keeps _ (match ?x with _ => _ end) => destruct x eqn:?
  | |- keeps _ (Start _) => apply inv_start
  | |- keeps _ (Stop _ _ _ _) => apply inv_stop
  | |- keeps _ (ExpireCurrentKeypairs _) => apply inv_expire
  | |- keeps _ (NewPeer _ _) => apply inv_new
  | |- keeps _ _ => solve [apply keeps_does; first [solve [eauto with steps] | apply does_on_rt; intros ?; runtime_case]]
  end.

Lemma keeps_delete_key pk : keeps I (delete_key pk).
Proof. apply keeps_change. intros now d d' [= <-]. by apply effect_same; [|apply nonces_refl]. Qed.

Lemma keeps_removePeerLocked p pk : keeps I (removePeerLocked C W priorityMsgFn p pk).
Proof. unfold removePeerLocked. keep. apply keeps_delete_key. Qed.

Lemma keeps_RemovePeer pk : keeps I (RemovePeer C W priorityMsgFn pk).
Proof. unfold RemovePeer. keep. apply keeps_removePeerLocked. Qed.

Lemma keeps_RemoveAllPeers : keeps I (RemoveAllPeers C W priorityMsgFn).
Proof.
  unfold RemoveAllPeers. keep; [apply keeps_removePeerLocked|].
  apply keeps_change. intros now d d' [= <-]. by apply effect_same; [|apply nonces_refl].
Qed.

Lemma keeps_RemoveMatchingPeers f : keeps I (RemoveMatchingPeers C W priorityMsgFn f).
Proof. unfold RemoveMatchingPeers. keep. apply keeps_removePeerLocked. Qed.

Lemma effect_trans now d1 d2 d3 : dev_effect now d1 d2 -> dev_effect now d2 d3 -> dev_effect now d1 d3.
Proof.
  intros [Ha1 Hp1 [Hn1 Hm1]] [Ha2 Hp2 [Hn2 Hm2]]. split; [eauto| |split].
  - intros p pr Hp. destruct (Hp1 p pr Hp) as (pr2 & H2 & Hr2 & Hl2). destruct (Hp2 p pr2 H2) as (pr3 & H3 & Hr3 & Hl3).
    exists pr3. split; [done|]. split; [congruence|]. destruct Hl3, Hl2; [left; congruence | right; congruence | by right | by right].
  - intros k kp Hk. destruct (Hn1 k kp Hk) as (kp2 & H2 & E2). destruct (Hn2 k kp2 H2) as (kp3 & H3 & E3).
    exists kp3. split; [done | congruence].
  - intros k kp3 H3 Hk. destruct (keypairs d2 !! k) as [kp2|] eqn:H2; [|by eapply Hm2].
    destruct (Hn2 k kp2 H2) as (kp & H & E). rewrite H3 in H. injection H as <-. rewrite E. by eapply Hm1.
Qed.

Lemma precompute_effect now ps d : dev_effect now d (precompute (ScalarMult C) d ps).
Proof.
  revert d. induction ps as [|p ps IH]; intros d; [apply effect_refl|].
  unfold precompute. cbn. eapply effect_trans; [|apply IH].
  destruct (peers d !! p) as [pr|] eqn:Hp; [|apply effect_refl].
  destruct (sharedSecret (ScalarMult C) (privateKey d) (remoteStatic (handshake pr))) as [ss ok']. eapply effect_update; [done | done | done | by left | apply nonces_refl].
Qed.

Lemma keeps_SetPrivateKey sk : keeps I (SetPrivateKey C W priorityMsgFn sk).
Proof.
  unfold SetPrivateKey, all_peers. keep.
  - apply keeps_removePeerLocked.
  - apply keeps_change. intros now d d' [= <-]. by apply effect_same; [|apply nonces_refl].
  - apply keeps_change. intros now d d' [= <-]. apply precompute_effect.
Qed.

Lemma keeps_downLocked : keeps I (downLocked C W priorityMsgFn).
Proof. unfold downLocked, all_peers. keep. Qed.

Lemma keeps_changeState s : keeps I (changeState C W priorityMsgFn s).
Proof. unfold changeState, upLocked, all_peers. keep; apply keeps_downLocked. Qed.

Lemma keeps_Close : keeps I (Close C W priorityMsgFn).
Proof. unfold Close. keep; [apply keeps_downLocked | apply keeps_RemoveAllPeers]. Qed.

Lemma keeps_fire id p : keeps I (fire C W priorityMsgFn id p).
Proof.
  unfold fire. keep. destruct id; cbn [expirationFunction].
  4: apply keeps_does, does_expiredSession.
  all: keep. unfold expiredZeroKeyMaterial. keep. apply keeps_RemovePeer.
Qed.

(** *** The configuration protocol *)

Lemma keeps_preshared p psk : keeps I (change_dev (fun d => SetPresharedKey d p psk)).
Proof.
  apply keeps_change. intros now d d'. unfold SetPresharedKey. destruct (peers d !! p) as [pr|] eqn:Hp; [|done].
  intros [= <-]. eapply effect_update; [done | done | done | by left | apply nonces_refl].
Qed.

Lemma keeps_parsed {A B} (v : option A) (k : A -> M (Uapi.ipcError + B)) : (forall a, keeps I (k a)) -> keeps I (Uapi.parsed v k).
Proof. intros Hk. destruct v; [apply Hk | apply keeps_ret]. Qed.

Lemma keeps_with_config f : (forall c, Uapi.config_ok c -> Uapi.config_ok (f c)) -> keeps I (Uapi.with_config f).
Proof. intros Hf. apply keeps_config. intros e. apply Hf. Qed.

(** Merging keeps the invariant and gives headers that are well formed. *)
Lemma merge_keeps d e a e' :
  Uapi.mergeWithDevice d e = Some (a, e') -> Uapi.sd_wf d -> I e -> I e' /\ forall d', a = inr d' -> Uapi.sd_wf d'.
Proof.
  intros H Hd He. pose proof (inv_config_ok e He) as [Hw Hk Hj Hc Hr]. revert H.
  unfold Uapi.mergeWithDevice, Uapi.with_config, Uapi.throw, Uapi.done, bind, gets, ret, modify. red_bind.
  destruct (Uapi.valid_prefixes d) eqn:Hp; cbn [negb]; [|by intros [= <- <-]].
  destruct (Uapi.valid_headers _) eqn:Hh; cbn [negb]; [|by intros [= <- <-]]. red_bind. intros [= <- <-].
  pose proof (Uapi.fill_sd_wf d _ Hd Hw) as Hf. split; [|by intros d' [= <-]].
  apply inv_config; [|done]. split; [by apply Uapi.install_ok | apply Hf | done..].
Qed.

Lemma keeps_junk_line value d f :
  (forall j n, Uapi.junk_wf j -> 0 <= n < 2 ^ 63 -> Uapi.junk_wf (f j n)) -> keeps I (Uapi.junk_line value d f).
Proof.
  intros Hf. unfold Uapi.junk_line, Uapi.parsed. destruct (Atoi value) as [n|] eqn:Hn; [|apply keeps_ret].
  destruct (n <=? 0) eqn:Hpos; [apply keeps_ret|]. apply keeps_bind; [|intros; apply keeps_ret].
  apply keeps_with_config. intros c Hc. apply Uapi.set_junk_ok; [|done]. apply Hf; [apply Hc | by eapply Uapi.junk_number].
Qed.

Lemma keeps_chain_line value d i :
  Uapi.newline ∉ value -> (3 + length value < Uapi.MaxScanTokenSize)%nat -> keeps I (Uapi.chain_line value d i).
Proof.
  intros Hn Hl. unfold Uapi.chain_line, Uapi.parsed. destruct (ObfChain.newObfChain value) as [x|] eqn:Hx; [|apply keeps_ret].
  apply keeps_bind; [|intros; apply keeps_ret]. apply keeps_with_config. intros c Hc. by eapply Uapi.set_chain_ok.
Qed.

Lemma keeps_range_line value (d : Uapi.ipcSetDevice) (f : Config -> Z -> Config) :
  (forall c r, Uapi.range_wf r -> Uapi.config_ok c -> Uapi.config_ok (f c r)) ->
  keeps I (Uapi.parsed (MagicHeader.FromString value) (fun r => let* _ := Uapi.with_config (fun c => f c r) in Uapi.done d)).
Proof.
  intros Hf. unfold Uapi.parsed. destruct (MagicHeader.FromString value) as [r|] eqn:Hr; [|apply keeps_ret].
  apply keeps_bind; [|intros; apply keeps_ret]. apply keeps_with_config. intros c. by eapply Hf, Uapi.range_parsed.
Qed.

Lemma keeps_handleDeviceLine d key value :
  Uapi.line_ok (key ++ Uapi.equals :: value) -> keeps I (Uapi.handleDeviceLine C W priorityMsgFn d key value).
Proof.
  intros [Hn Hl]. rewrite elem_of_app, elem_of_cons in Hn. rewrite length_app, length_cons in Hl.
  unfold Uapi.handleDeviceLine, Uapi.padding_line, Uapi.header_line, set_port. cbv zeta.
  repeat match goal with |- keeps _ (if bool_decide (key = ?k) then _ else _) => case_bool_decide end.
  all: try (apply keeps_junk_line; intros j n; unfold Uapi.junk_wf; rewrite !list.Forall_cons; cbn; tauto).
  all: try (apply keeps_range_line; intros c r Hr [? ? ? ? [? ?]]; by split).
  all: try (apply keeps_chain_line; [tauto|]; subst key; clear - Hl; revert Hl; generalize Uapi.MaxScanTokenSize; intros m; cbn; lia).
  all: unfold Uapi.throw, Uapi.done; try (apply keeps_parsed; intros ?); keep; auto using keeps_SetPrivateKey, keeps_RemoveAllPeers;
    apply keeps_with_config; intros c [? ? ? ? ?]; by split.
Qed.

Lemma keeps_handlePostConfig peer : keeps I (Uapi.handlePostConfig C W peer).
Proof. unfold Uapi.handlePostConfig. keep. Qed.

Lemma keeps_handlePublicKeyLine peer value : keeps I (Uapi.handlePublicKeyLine C peer value).
Proof. unfold Uapi.handlePublicKeyLine, Uapi.throw, Uapi.done. apply keeps_parsed. intros pk. keep. Qed.

Lemma keeps_on_routes f : keeps I (Uapi.on_routes f).
Proof. unfold Uapi.on_routes. keep. Qed.

Lemma keeps_remove_target peer : keeps I (Uapi.remove_target C W priorityMsgFn peer).
Proof. unfold Uapi.remove_target. keep; apply keeps_RemovePeer. Qed.

Lemma keeps_set_interval peer secs : keeps I (Uapi.set_interval peer secs).
Proof. unfold Uapi.set_interval, Uapi.done. keep. Qed.

Lemma keeps_handlePeerLine peer key value : keeps I (Uapi.handlePeerLine C W priorityMsgFn peer key value).
Proof.
  unfold Uapi.handlePeerLine, Uapi.throw, Uapi.done. cbv zeta.
  repeat match goal with |- keeps _ (if bool_decide (key = ?k) then _ else _) => destruct (bool_decide (key = k)) end;
    try (apply keeps_parsed; intros ?); keep; auto using keeps_preshared, keeps_on_routes, keeps_remove_target, keeps_set_interval.
  apply keeps_parsed. intros ?. keep; apply keeps_on_routes.
Qed.

Lemma keeps_finish d peer : Uapi.sd_wf d -> keeps I (Uapi.finish C W d peer).
Proof.
  intros Hd e a e'. unfold Uapi.finish, bind at 1. destruct (Uapi.mergeWithDevice d e) as [[m e1]|] eqn:H; [|done]. red_bind.
  intros H' He. destruct (merge_keeps d e m e1 H Hd He) as [He1 _]. destruct m as [err|d']; [by injection H' as _ <-|].
  revert H'. unfold bind. destruct (Uapi.handlePostConfig C W peer e1) as [[u e2]|] eqn:Hp; [|done]. red_bind. intros [= _ <-].
  by eapply keeps_handlePostConfig.
Qed.

Lemma keeps_set_lines lines failed d peer dc :
  Forall Uapi.line_ok lines -> Uapi.sd_wf d -> keeps I (Uapi.set_lines C W priorityMsgFn lines failed d peer dc).
Proof.
  intros Hl. revert d peer dc. induction Hl as [|line lines Hline Hl IH]; intros d peer dc Hd; cbn [Uapi.set_lines].
  { destruct failed; [apply keeps_ret | by apply keeps_finish]. }
  destruct (bool_decide (line = [])); [by apply keeps_finish|]. destruct (Cut line Uapi.equals) as [[key value] ok'] eqn:Hcut.
  destruct ok'; [|apply keeps_ret]. apply Cut_true in Hcut as ->. cbn [negb]. destruct (bool_decide (key = str "public_key")); [|destruct dc].
  - intros e a e'. unfold bind at 1.
    destruct ((if dc then Uapi.mergeWithDevice d else Uapi.done d) e) as [[m e1]|] eqn:H; [|done]. red_bind. intros H' He.
    assert (I e1 /\ forall d', m = inr d' -> Uapi.sd_wf d') as [He1 Hm].
    { destruct dc; [by eapply merge_keeps | injection H as <- <-; split; [done | by intros d' [= <-]]]. }
    destruct m as [err|d']; [by injection H' as _ <-|]. revert H' He1. specialize (Hm d' eq_refl).
    apply keeps_bind; [apply keeps_handlePostConfig | intros _]. apply keeps_bind; [apply keeps_handlePublicKeyLine | intros r].
    destruct r; [apply keeps_ret | by apply IH].
  - intros e a e'. unfold bind at 1. destruct (Uapi.handleDeviceLine C W priorityMsgFn d key value e) as [[m e1]|] eqn:H; [|done]. red_bind.
    intros H' He. pose proof (keeps_handleDeviceLine d key value Hline e _ _ H He) as He1. destruct m as [err|d']; [by injection H' as _ <-|].
    eapply IH; [by eapply Uapi.device_line_wf | exact H' | done].
  - apply keeps_bind; [apply keeps_handlePeerLine | intros r]. destruct r; [apply keeps_ret | by apply IH].
Qed.

Lemma keeps_IpcSetOperation input readErr : keeps I (Uapi.IpcSetOperation C W priorityMsgFn input readErr).
Proof.
  intros e a e'. unfold Uapi.IpcSetOperation, bind at 1, gets. red_bind. destruct (Uapi.Scan input) as [lines long] eqn:Hs.
  intros H He. pose proof (inv_config_ok e He) as Hc. revert H He. apply keeps_set_lines.
  - change lines with (fst (lines, long)). rewrite <- Hs. apply Uapi.Scan_lines.
  - split; [by repeat (constructor; [done|]) | apply Hc].
Qed.

Lemma keeps_set_mtu n : keeps I (set_mtu n).
Proof. apply keeps_config. intros e [H1 H2 H3 H4 H5]. by split. Qed.

Lemma keeps_TUNEvent ev : keeps I (RoutineTUNEventReader C W priorityMsgFn ev).
Proof. unfold RoutineTUNEventReader, Up, Down. keep; auto using keeps_changeState, keeps_set_mtu. Qed.

Lemma keeps_step o : keeps I (step C W priorityMsgFn o).
Proof.
  destruct o; unfold step, ignore, Up, Down; keep;
    auto using keeps_fire, keeps_RemovePeer, keeps_RemoveAllPeers, keeps_RemoveMatchingPeers, keeps_changeState, keeps_Close, keeps_SetPrivateKey, keeps_preshared, keeps_IpcSetOperation, keeps_TUNEvent.
Qed.

Lemma keeps_run os : keeps I (run C W priorityMsgFn os).
Proof. induction os; cbn [run]; [apply keeps_ret | apply keeps_bind; [apply keeps_step | done]]. Qed.

End Kept.

(** *** Starting and stopping *)

(** A step that touches one peer. *)
Lemma ok_at (X Y : gset pid) e e' p pr' r' :
  ok X e -> peers (dev e') = <[p := pr']> (peers (dev e)) -> runtimes e' = <[p := r']> (runtimes e) ->
  config e' = config e -> rt_ok Y p pr' r' -> X ⊆ {[p]} ∪ Y -> ok Y e'.
Proof.
  intros [Hd Hr Hw] HP HR HC Hp HX. split; rewrite ?HP, ?HR, ?HC; [| |done].
  - intros q. rewrite !lookup_insert_is_Some. specialize (Hd q). tauto.
  - intros q pr r [[E <-] | [Hne H1]]%lookup_insert_Some [[Hq <-] | [Hne' H2]]%lookup_insert_Some; [by subst | by subst.. |].
    destruct (Hr q pr r H1 H2) as [Hc Ht Hs]. split; [done | done|]. intros Hrun HY. apply Hs; [done | set_solver].
Qed.

(** A stopped peer whose queues are empty. *)
Lemma ok_emptied p e :
  ok {[p]} e ->
  (forall r, runtimes e !! p = Some r -> staged (queues r) = [] /\ outbound (queues r) = [] /\ inbound (queues r) = []) -> ok ∅ e.
Proof.
  intros [Hd Hr Hw] Hp. split; [done| |done]. intros q pr r H1 H2. destruct (Hr q pr r H1 H2) as [Hc Ht Hs].
  split; [done | done|]. intros Hrun _. destruct (decide (q = p)) as [->|]; [by apply Hp | apply Hs; [done | set_solver]].
Qed.

Lemma timersStop_idle r id : deadline (timers (timersStop r)) id = None.
Proof. destruct id; reflexivity. Qed.

Lemma does_drain fuel p : does C (drain_inbound C W priorityMsgFn fuel p).
Proof.
  induction fuel; cbn [drain_inbound]; [apply does_ret | apply does_bind; [apply does_processInboundContainer | done]].
Qed.

(** What [ZeroAndFlushAll] leaves of a peer's queues. *)
Lemma ZeroAndFlushAll_staged p e a e' r :
  ZeroAndFlushAll p e = Some (a, e') -> runtimes e !! p = Some r ->
  exists r', runtimes e' !! p = Some r' /\ staged (queues r') = [] /\ outbound (queues r') = outbound (queues r) /\
    inbound (queues r') = inbound (queues r).
Proof.
  unfold ZeroAndFlushAll, bind, change_dev, on_dev, on_rt. intros H Hr. rewrite Hr in H. red_bind.
  destruct (Noise.ZeroAndFlushAll _ _) as [d'|]; [|done]. red_bind. cbn in H. rewrite lookup_insert_eq in H. red_bind.
  injection H as _ <-. eexists. cbn. rewrite lookup_insert_eq. split; [done|].
  unfold noteSessionStateLocked. cbv zeta. destruct (drop_all_rest (staged (queues r)) (queues r)) as (_ & Ho & Hi).
  destruct (bool_decide _); cbn; rewrite Ho, Hi; done.
Qed.

(** How many received containers wait for a peer. *)
Definition waiting (e : Engine) (p : pid) : nat := from_option (fun r => length (inbound (queues r))) 0%nat (runtimes e !! p).

Lemma waiting_set e p q r r' :
  runtimes e !! q = Some r -> (q = p -> (length (inbound (queues r')) <= length (inbound (queues r)))%nat) ->
  (waiting (set_runtimes e (<[q := r']> (runtimes e))) p <= waiting e p)%nat.
Proof.
  intros Hr Hl. unfold waiting. cbn. destruct (decide (q = p)) as [<- |Hne]; [|by rewrite lookup_insert_ne].
  rewrite lookup_insert_eq, Hr. cbn. auto.
Qed.

(** Nothing arrives for a peer that is not running. *)
Lemma act_waiting e e' p :
  act C e e' -> ~ runs (dev e) p -> ~ runs (dev e') p /\ (waiting e' p <= waiting e p)%nat.
Proof.
  intros Ha Hn.
  assert (Hsend : forall q k kp r q' n, sends e e' q k kp r q' n -> ~ runs (dev e') p /\ (waiting e' p <= waiting e p)%nat).
  { intros q k kp r q' n [Hk Hr -> _ _ _ He]. split; [done|]. apply (waiting_set (set_dev e _) p q r); [done|].
    intros ->. destruct He as [(_ & _ & ?)|]; [done | by destruct Hn]. }
  destruct Ha as [e1 Hd Hr _ _ Hc | d' Hd | q r r' Hr Hs Hu | q r q' Hr Hc _ He | q k x e1 H | q k msg e1 H].
  - unfold waiting. rewrite Hd, Hr. done.
  - split; [|done]. apply dev_act_effect, effect_running in Hd. cbn. intros (pr' & Hp' & Hrun). apply Hn.
    specialize (Hd p). rewrite Hp' in Hd. destruct (peers (dev e) !! p) as [pr|] eqn:Hp; [|done]. injection Hd as Hd.
    exists pr. split; [done | congruence].
  - split; [done|]. apply (waiting_set e p q r); [done|]. intros _. destruct Hs as (_ & _ & _ & ->). lia.
  - split; [done|]. apply (waiting_set e p q r); [done|]. intros ->. destruct He as [(_ & _ & ?)|]; [done | by destruct Hn].
  - apply container_sends in H as [-> | (kp & r & q' & n & H)]; [done | by eapply Hsend].
  - destruct (runtimes e !! q) as [r|] eqn:Hr.
    + destruct (priority_sends _ _ _ _ _ ltac:(eexists; exact Hr) H) as (kp & r' & q' & n & H'). by eapply Hsend.
    + revert H. unfold push_priority, bind, gets, lift, get_peer, set_nonce, change_dev, on_dev, when, on_rt, ret. red_bind.
      destruct (keypairs (dev e) !! k); [|done]. red_bind. destruct (peers (dev e) !! q) as [pr|]; [|done]. red_bind.
      destruct (_ >=? _), (isRunning pr); cbn; rewrite ?Hr; try done; intros [= <-]; done.
Qed.

Lemma acts_waiting e e' p :
  rtc (act C) e e' -> ~ runs (dev e) p -> ~ runs (dev e') p /\ (waiting e' p <= waiting e p)%nat.
Proof.
  induction 1 as [|e1 e2 e3 Ha _ IH]; intros Hn; [done|]. destruct (act_waiting _ _ p Ha Hn) as [H1 H2].
  destruct (IH H1). split; [done | lia].
Qed.

(** The receiver of a peer that is stopped works off what waits. *)
Lemma process_waiting p e a e' :
  processInboundContainer C W priorityMsgFn p e = Some (a, e') -> ~ runs (dev e) p ->
  ~ runs (dev e') p /\ (waiting e' p <= pred (waiting e p))%nat.
Proof.
  intros H Hn. destruct (acts_waiting _ _ p (does_processInboundContainer C W priorityMsgFn p e a e' H) Hn) as [Hn' _].
  split; [done|]. revert H. unfold processInboundContainer at 1. unfold bind at 1, get_rt.
  destruct (runtimes e !! p) as [r|] eqn:Hr; [|done]. red_bind.
  assert (waiting e p = length (inbound (queues r))) as -> by (unfold waiting; by rewrite Hr).
  destruct (inbound (queues r)) as [|es rest] eqn:Hi; [intros [= _ <-]; unfold waiting; rewrite Hr; cbn; by rewrite Hi|].
  unfold bind at 1. destruct (on_rt p (update_queues (fun q => set_inbound q rest)) e) as [[u e2]|] eqn:H1; [|done].
  red_bind. intros H. apply (does_after_take C W priorityMsgFn p es) in H. revert H1. unfold on_rt. rewrite Hr. intros [= _ <-].
  destruct (acts_waiting _ e' p H Hn) as [_ Hw]. etrans; [exact Hw|]. unfold waiting. cbn. by rewrite lookup_insert_eq.
Qed.

Lemma drain_waiting fuel p e a e' :
  drain_inbound C W priorityMsgFn fuel p e = Some (a, e') -> ~ runs (dev e) p ->
  ~ runs (dev e') p /\ (waiting e' p <= waiting e p - fuel)%nat.
Proof.
  revert e. induction fuel as [|fuel IH]; intros e; cbn [drain_inbound]; [intros [= _ <-] Hn; split; [done | lia]|].
  unfold bind. destruct (processInboundContainer C W priorityMsgFn p e) as [[u e1]|] eqn:H; [|done]. red_bind. intros Hr Hn.
  destruct (process_waiting p e u e1 H Hn) as [Hn1 Hw]. destruct (IH e1 Hr Hn1) as [Hn2 Hw2]. split; [done | lia].
Qed.

Lemma ok_Start p : keeps (ok ∅) (Start p).
Proof.
  intros e a e' H He. revert H. unfold Start, bind, gets, get_peer, ret, set_lastSent, set_isRunning, Noise.set_isRunning, change_dev, on_dev, on_rt, get_rt, when.
  red_bind. destruct (peers (dev e) !! p) as [pr|] eqn:Hp; [|done]. red_bind.
  destruct (isClosed e || isRunning pr) eqn:Hrun; [by intros [= _ <-]|]. apply orb_false_iff in Hrun as [_ Hrun].
  rewrite Hp. red_bind. destruct (runtimes e !! p) as [r|] eqn:Hr; cbn; rewrite ?Hr; [|done]. red_bind. cbn.
  rewrite lookup_insert_eq. red_bind. cbn. rewrite lookup_insert_eq. red_bind.
  destruct (ok_rt _ _ He p pr r Hp Hr) as [_ _ Hq]. destruct (Hq Hrun) as (Hs & Ho & _); [set_solver|].
  assert (Hok : forall e1 pr1 r1, isRunning pr1 = true -> queues r1 = mkQueues (staged (queues r)) [] 0 [] ->
    peers (dev e1) = <[p := pr1]> (peers (dev e)) -> runtimes e1 = <[p := r1]> (runtimes e) -> config e1 = config e -> ok ∅ e1).
  { intros e1 pr1 r1 Hrun1 Hq1 HP HR HC. eapply ok_at; [exact He | done | done | done | | set_solver].
    split; [rewrite Hq1, Hs; done | congruence | congruence]. }
  destruct (deleteOnIdle _); cbn; rewrite ?lookup_insert_eq; red_bind; intros [= _ <-];
    (eapply Hok; [| | cbn; rewrite ?insert_insert_eq; reflexivity..]; done).
Qed.

Lemma ok_Stop p : keeps (ok ∅) (Stop C W priorityMsgFn p).
Proof.
  intros e a e' H He. revert H. unfold Stop, set_isRunning, Noise.set_isRunning.
  cbv beta delta [bind get_peer change_dev on_dev ret].
  destruct (peers (dev e) !! p) as [pr|] eqn:Hp; [|done]. red_bind.
  destruct (isRunning pr) eqn:Hrun; cbn [negb]; [|by intros [= _ <-]]. rewrite Hp. red_bind.
  destruct (on_rt p timersStop _) as [[u e1]|] eqn:H1; [|done]. red_bind.
  destruct (get_rt p e1) as [[r1 e2]|] eqn:H2; [|done]. red_bind.
  destruct (drain_inbound _ _ _ _ _ e2) as [[u' e3]|] eqn:H3; [|done]. red_bind.
  destruct (on_rt p _ e3) as [[u'' e4]|] eqn:H4; [|done]. red_bind. intros H5.
  assert (e2 = e1) as ->. { revert H2. unfold get_rt. destruct (runtimes e1 !! p); [|done]. by intros [= _ <-]. }
  assert (ok {[p]} e1) as Hok1.
  { revert H1. unfold on_rt. cbn. destruct (runtimes e !! p) as [r|] eqn:Hr; [|done]. intros [= _ <-].
    eapply ok_at; [exact He | done | done | done | | set_solver].
    split; [by apply (ok_rt _ _ He p pr r) | by intros _ id; rewrite timersStop_idle | set_solver]. }
  assert (Hw3 : waiting e3 p = 0%nat).
  { assert (Hw1 : waiting e1 p = length (inbound (queues r1))).
    { revert H2. unfold get_rt, waiting. destruct (runtimes e1 !! p); [|done]. by intros [= <-]. }
    destruct (drain_waiting _ p e1 u' e3 H3) as [_ Hw]; [|rewrite Hw1 in Hw; lia].
    revert H1. unfold on_rt. destruct (runtimes _ !! p); [|done]. intros [= _ <-]. cbn. intros (pr' & Hp' & Hr').
    cbn in Hp'. rewrite lookup_insert_eq in Hp'. by injection Hp' as <-. }
  assert (ok {[p]} e3) as Hok3 by (eapply acts_ok; [by eapply does_drain | done]).
  revert H4. unfold on_rt. destruct (runtimes e3 !! p) as [r3|] eqn:Hr3; [|done]. red_bind. intros [= _ <-].
  set (r4 := update_queues _ r3) in H5.
  assert (ok {[p]} (set_runtimes e3 (<[p := r4]> (runtimes e3)))) as Hok4.
  { apply ok_set_rt; [by exists r3 | | done]. intros pr' Hp'. destruct (ok_rt _ _ Hok3 p pr' r3 Hp' Hr3) as [Hc Ht _].
    split; [|done | set_solver]. rewrite counted_tally in *. subst r4. cbn. rewrite (proj1 (drop_all_rest _ _)).
    eapply tally_eq; [by apply (tally_drop_all (outbound (queues r3)))|]. cbn. lia. }
  assert (ok {[p]} e') as Hok5 by (eapply acts_ok; [by eapply does_ZeroAndFlushAll | done]).
  destruct (ZeroAndFlushAll_staged _ _ _ _ r4 H5) as (r5 & Hr5 & Hs5 & Ho5 & Hi5); [by cbn; rewrite lookup_insert_eq|].
  apply (ok_emptied p); [done|]. intros r Hr. rewrite Hr in Hr5. injection Hr5 as <-. rewrite Ho5, Hi5. split_and!; [done..|].
  subst r4. cbn. rewrite (proj2 (proj2 (drop_all_rest _ _))). apply nil_length_inv. revert Hw3. unfold waiting. by rewrite Hr3.
Qed.

Lemma ok_ExpireCurrentKeypairs p : keeps (ok ∅) (ExpireCurrentKeypairs p).
Proof.
  intros e a e' H He. revert H. unfold ExpireCurrentKeypairs, bind, gets, change_dev, on_dev. red_bind.
  destruct (Noise.ExpireCurrentKeypairs (dev e) p (clock e)) as [d'|] eqn:Hd; [|done]. red_bind.
  assert (Hok : ok ∅ (set_dev e d')).
  { apply ok_set_dev; [|done]. revert Hd. unfold Noise.ExpireCurrentKeypairs.
    destruct (peers (dev e) !! p) as [pr|] eqn:Hp; [|done]. red_bind. intros [= <-] q. rewrite !Sessions.exhaust_peers. cbn.
    destruct (decide (p = q)) as [<-|]; [by rewrite lookup_insert_eq, Hp | by rewrite lookup_insert_ne]. }
  intros H. eapply acts_ok; [|exact Hok]. eapply does_on_rt; [|exact H].
  intros r. unfold noteSessionStateLocked. cbv zeta. destruct (bool_decide _); runtime_case.
Qed.

Lemma ok_NewPeer pk : keeps (ok ∅) (NewPeer C pk).
Proof.
  intros e a e' H He. revert H. unfold NewPeer, bind, gets, on_dev, ret. red_bind. destruct (isClosed e); [by intros [= _ <-]|].
  unfold Noise.NewPeer. destruct (_ <=? _); [red_bind; intros [= _ <-]; by destruct e|].
  destruct (keyMap _ !! _); [red_bind; intros [= _ <-]; by destruct e|]. destruct (sharedSecret _ _ _). red_bind.
  unfold modify. intros [= _ <-]. eapply ok_at; [exact He | done | done | done | | set_solver]. split; done.
Qed.

#[export] Instance ok_invariant : StepInvariant (ok ∅).
Proof.
  split; [intros *; apply act_ok | | | apply ok_Start | apply ok_Stop | apply ok_ExpireCurrentKeypairs | apply ok_NewPeer].
  - intros e e' Hd Hr Hc [H1 H2 H3]. split; rewrite ?Hd, ?Hr, ?Hc; done.
  - intros e d' He. by eapply ok_set_dev, effect_running.
Qed.

#[export] Instance ok_config_invariant : ConfigInvariant (ok ∅).
Proof. split; [intros e He; apply He|]. intros e c Hc [H1 H2 H3]. by split. Qed.

(** *** Nonces *)

Lemma nonces_shrink used e p r r' :
  runtimes e !! p = Some r -> pending (queues r') ⊆+ pending (queues r) ->
  nonces_ok used e -> nonces_ok used (set_runtimes e (<[p := r']> (runtimes e))).
Proof.
  intros Hr Hs. apply (nonces_set_rt used e p r r' []); [done | done | constructor|].
  intros x Hx. by apply elem_of_nil in Hx.
Qed.

Lemma nonces_dev used e d' : dev_effect (clock e) (dev e) d' -> nonces_ok used e -> nonces_ok used (set_dev e d').
Proof.
  intros He. apply nonces_set_dev; [apply grown_kept, He|]. intros p. apply effect_running in He. specialize (He p).
  destruct (peers d' !! p), (peers (dev e) !! p); done.
Qed.

Lemma nonces_act used e e' : act C e e' -> nonces_ok used e -> nonces_ok used e'.
Proof.
  intros [e1 Hd Hr _ _ Hc | d' Hd | p r r' Hr Hs Hu | p r q' Hr _ Hs He | p k x e1 H | p k msg e1 H] Hok.
  - destruct Hok as [H1 H2 H3 H4 H5 H6 H7]. split; rewrite ?Hd, ?Hr, ?Hc; done.
  - by eapply nonces_dev, Hok; eapply dev_act_effect.
  - eapply nonces_shrink, Hok; [done|]. destruct Hs as (_ & Hs & _). unfold pending. by rewrite Hs.
  - by eapply nonces_shrink.
  - apply container_sends in H as [-> | (kp & r & q' & n & H)]; [done | by eapply nonces_sends].
  - assert (Hs : is_Some (runtimes e !! p)).
    { apply (no_dom _ _ Hok). revert H. unfold push_priority, bind, gets, lift, get_peer. red_bind.
      destruct (keypairs (dev e) !! k); [|done]. red_bind. by destruct (peers (dev e) !! p). }
    destruct (priority_sends _ _ _ _ _ Hs H) as (kp & r & q' & n & H'). by eapply nonces_sends.
Qed.

Lemma nonces_does {A} used (c : M A) : does C c -> keeps (nonces_ok used) c.
Proof.
  intros Hc e a e' H. specialize (Hc e a e' H). clear H. induction Hc as [|e e1 e2 H]; [done|]. intros He.
  by eapply IHHc, nonces_act.
Qed.

Lemma nonces_on_rt used p f :
  (forall r, pending (queues (f r)) ⊆+ pending (queues r)) -> keeps (nonces_ok used) (on_rt p f).
Proof.
  intros Hf e a e'. unfold on_rt. destruct (runtimes e !! p) as [r|] eqn:Hr; [|done]. intros [= _ <-].
  by eapply nonces_shrink.
Qed.

Lemma nonces_change used f :
  (forall d d', f d = Some d' -> grown (keypairs d) (keypairs d') /\ forall p, is_Some (peers d' !! p) <-> is_Some (peers d !! p)) ->
  keeps (nonces_ok used) (change_dev f).
Proof.
  intros Hf e a e'. unfold change_dev, on_dev. destruct (f (dev e)) as [d'|] eqn:H; [|done]. intros [= _ <-].
  destruct (Hf _ _ H). by apply nonces_set_dev.
Qed.

Lemma insert_same_dom {A} (m : gmap pid A) p x y :
  m !! p = Some x -> forall q, is_Some (<[p := y]> m !! q) <-> is_Some (m !! q).
Proof. intros Hp q. rewrite lookup_insert_is_Some. destruct (decide (p = q)) as [<-|]; intuition. Qed.

Lemma nonces_set_isRunning used p b : keeps (nonces_ok used) (set_isRunning p b).
Proof.
  apply nonces_change. intros d d'. unfold Noise.set_isRunning. destruct (peers d !! p) as [pr|] eqn:Hp; [|done]. intros [= <-].
  split; [apply grown_refl | by eapply insert_same_dom].
Qed.

Lemma nonces_set_lastSent used p t : keeps (nonces_ok used) (set_lastSent p t).
Proof.
  apply nonces_change. intros d d'. destruct (peers d !! p) as [pr|] eqn:Hp; [|done]. intros [= <-].
  split; [apply grown_refl | by eapply insert_same_dom].
Qed.

Lemma nonces_Start used p : keeps (nonces_ok used) (Start p).
Proof.
  unfold Start. repeat (apply keeps_bind; [|intros ?]); try (apply nonces_does; solve [eauto with steps]).
  destruct (_ || _); [apply keeps_ret|].
  repeat (apply keeps_bind; [|intros ?]); auto using nonces_set_isRunning, nonces_set_lastSent;
    try (apply nonces_does; solve [eauto with steps]).
  - apply nonces_on_rt. intros r. apply submseteq_nil_l.
  - apply keeps_when, nonces_on_rt. done.
Qed.

Lemma nonces_Stop used p : keeps (nonces_ok used) (Stop C W priorityMsgFn p).
Proof.
  unfold Stop. apply keeps_bind; [apply nonces_does; solve [eauto with steps] | intros pr].
  destruct (negb _); [apply keeps_ret|].
  repeat first [apply nonces_does; solve [eauto using does_drain with steps] | apply keeps_bind; [|intros ?]].
  - apply nonces_set_isRunning.
  - apply nonces_on_rt. done.
  - apply nonces_on_rt. intros r. apply submseteq_nil_l.
Qed.

Lemma nonces_Expire used p : keeps (nonces_ok used) (ExpireCurrentKeypairs p).
Proof.
  unfold ExpireCurrentKeypairs. apply keeps_bind; [apply nonces_does; solve [eauto with steps] | intros now].
  apply keeps_bind; [|intros _; apply nonces_on_rt; intros r; unfold noteSessionStateLocked; cbv zeta; by destruct (bool_decide _)].
  apply nonces_change. intros d d'. unfold Noise.ExpireCurrentKeypairs. destruct (peers d !! p) as [pr|] eqn:Hp; [|done].
  red_bind. intros [= <-]. split.
  - do 2 (eapply grown_trans; [|apply exhaust_grown]). apply grown_refl.
  - rewrite !Sessions.exhaust_peers. by eapply insert_same_dom.
Qed.

Lemma nonces_NewPeer used pk : keeps (nonces_ok used) (NewPeer C pk).
Proof.
  intros e a e' H He. revert H. unfold NewPeer, bind, gets, on_dev, ret. red_bind. destruct (isClosed e); [by intros [= _ <-]|].
  unfold Noise.NewPeer. destruct (_ <=? _); [red_bind; intros [= _ <-]; by destruct e|].
  destruct (keyMap _ !! _); [red_bind; intros [= _ <-]; by destruct e|]. destruct (sharedSecret _ _ _). red_bind.
  unfold modify. intros [= _ <-]. cbn. set (p := fresh _). destruct He as [H1 H2 H3 H4 H5 H6 H7].
  split; cbn; [|done | done | done | | |done].
  - intros q. rewrite !lookup_insert_is_Some. specialize (H1 q). tauto.
  - intros q r [[<- <-] | [Hne Hr]]%lookup_insert_Some; [|by eapply H5]. split; [constructor|]. intros x Hx. by apply elem_of_nil in Hx.
  - intros q1 q2 r1 r2 Hne [[<- <-] | [Hne1 Hr1]]%lookup_insert_Some [[<- <-] | [Hne2 Hr2]]%lookup_insert_Some x Hx;
      [done | by apply elem_of_nil in Hx | apply not_elem_of_nil | by eapply (H6 q1 q2)].
Qed.

#[export] Instance nonces_invariant used : StepInvariant (nonces_ok used).
Proof.
  split; [intros *; apply nonces_act | | intros *; apply nonces_dev | apply nonces_Start | apply nonces_Stop | apply nonces_Expire | apply nonces_NewPeer].
  intros e e' Hd Hr Hc [H1 H2 H3 H4 H5 H6 H7]. split; rewrite ?Hd, ?Hr, ?Hc; done.
Qed.

#[export] Instance nonces_config_invariant used : ConfigInvariant (nonces_ok used).
Proof. split; [intros e He; apply He|]. intros e c Hc [H1 H2 H3 H4 H5 H6 H7]. by split. Qed.

(** *** The configuration is changed by the configuration protocol only *)

Definition configured (P : Config -> Prop) (e : Engine) : Prop := P (config e).

Lemma configured_on_rt P p f : keeps (configured P) (on_rt p f).
Proof. intros e a e'. unfold on_rt. destruct (runtimes e !! p); [|done]. by intros [= _ <-]. Qed.

Lemma configured_on_dev {A} P (f : Device -> option (Device * A)) : keeps (configured P) (on_dev f).
Proof. intros e a e'. unfold on_dev. destruct (f (dev e)) as [[? ?]|]; [|done]. by intros [= _ <-]. Qed.

Lemma configured_lift {A} P (o : option A) : keeps (configured P) (lift o).
Proof. intros e a e'. unfold lift. destruct o; [|done]. by intros [= _ <-]. Qed.

Ltac still :=
  repeat match goal with
  | |- keeps _ (bind _ _) => apply keeps_bind; [|intros ?]
  | |- keeps _ (when _ _) => apply keeps_when
  | |- keeps _ (ret _) => apply keeps_ret
  | |- keeps _ (on_rt _ _) => apply configured_on_rt
  | |- keeps _ (on_dev _) => apply configured_on_dev
  | |- keeps _ (change_dev _) => apply configured_on_dev
  | |- keeps _ (lift _) => apply configured_lift
  | |- keeps _ (gets _) => by intros ? ? ? [= _ <-]
  | |- keeps _ (modify _) => by intros ? ? ? [= _ <-]
  | |- keeps _ (get_peer ?p) => intros e ? ?; unfold get_peer; destruct (peers (dev e) !! p); [by intros [= _ <-] | done]
  | |- keeps _ (get_rt ?p) => intros e ? ?; unfold get_rt; destruct (runtimes e !! p); [by intros [= _ <-] | done]
  | |- keeps _ (let (_, _) := ?x in _) => destruct x
  | |- keeps _ (match ?x with _ => _ end) => destruct x eqn:?
  end.

Lemma configured_act P e e' : act C e e' -> configured P e -> configured P e'.
Proof.
  intros [e1 _ _ _ _ Hc | | | | p k x e1 H | p k msg e1 H] He; try done; [by unfold configured; rewrite Hc| |].
  - revert H He. revert e x e1. change (keeps (configured P) (send_container p k)). unfold send_container, pop_staged, set_nonce. still.
  - revert H He. revert e e1. enough (keeps (configured P) (push_priority p k msg)) as Hk by (intros; by eapply Hk).
    unfold push_priority, set_nonce. still.
Qed.

Lemma configured_does {A} P (m : M A) : does C m -> keeps (configured P) m.
Proof.
  intros Hm e a e' H. specialize (Hm e a e' H). clear H. induction Hm as [|e e1 e2 H]; [done|]. intros He.
  by eapply IHHm, configured_act.
Qed.

#[export] Instance configured_invariant P : StepInvariant (configured P).
Proof.
  split; [intros *; apply configured_act | | done | intros p; unfold Start, set_isRunning, set_lastSent; still | | |].
  - intros e e' _ _ Hc He. unfold configured. by rewrite Hc.
  - intros p. unfold Stop, set_isRunning. still; apply configured_does; eauto using does_drain with steps.
  - intros p. unfold ExpireCurrentKeypairs. still.
  - intros pk. unfold NewPeer. still.
Qed.

End Invariants.

End EngineInv.
