(* ===== verification/EngineProps.v ===== *)
(** * Properties of the device at work

    Theorems about every run of the device of Engine.v, from the invariants of
    EngineInv.v: nonces are used once, the queues of stopped peers are empty and
    their timers off, staged packets are sent or a handshake is started. *)

From stdpp Require Import functions relations.
From S2P Require Import Prelude Bits Bytes Replay Ratelimiter AllowedIPs MagicHeader.
From S2P Require Import ObfChain Messages Wire Tai64n Noise ToyCrypto Sessions Cookie Transport Runtime Engine Uapi Machine EngineSteps EngineInv.

Module EngineProps.

Import Noise Runtime Engine Machine EngineSteps EngineInv.

Local Open Scope Z_scope.
Local Open Scope engine_scope.

Section Properties.

Context (C : Primitives) (W : Oracles) (priorityMsgFn : option (bytes -> bytes)).

(** The key pairs and nonces a step encrypts packets with. *)
Definition uses (o : op) (e : Engine) : list (kid * Z) :=
  match o with
  | OpEncrypt p =>
      match (r ← runtimes e !! p; first_unfilled (outbound (queues r))) with
      | Some c => elem_nonces (elems c)
      | None => []
      end
  | _ => []
  end.

Fixpoint encryptions (os : list op) (e : Engine) : list (kid * Z) :=
  match os with
  | [] => []
  | o :: os' =>
      match step C W priorityMsgFn o e with
      | Some (_, e') => uses o e ++ encryptions os' e'
      | None => []
      end
  end.

(** Encrypting moves a peer's window size and nothing else. *)
Lemma encrypt_frame p es e f e' r :
  encrypt_elems C W p es e = Some (f, e') -> runtimes e !! p = Some r ->
  dev e' = dev e /\ exists r', runtimes e' = <[p := r']> (runtimes e) /\ queues r' = queues r.
Proof.
  revert e f r. induction es as [|x es IH]; intros e f r.
  - intros [= _ <-] Hr. split; [done|]. exists r. by rewrite insert_id.
  - cbn [encrypt_elems]. unfold bind, gets, get_rt, lift, call, modify, on_rt. intros H Hr. red_bind. rewrite Hr in H. red_bind.
    revert H. destruct (k ← el_keypair x; _) as [kp|]; [|done]. red_bind.
    match goal with |- context [Transport.encryptTransport ?a ?b ?c ?d ?f ?g ?h ?i ?j ?k] =>
      destruct (Transport.encryptTransport a b c d f g h i j k) as [[window res]|]; [|done] end.
    red_bind. cbn. rewrite Hr. red_bind.
    match goal with |- context [encrypt_elems C W p es ?e1] =>
      destruct (encrypt_elems C W p es e1) as [[rest e2]|] eqn:H; [|done] end.
    red_bind. intros [= _ <-].
    eapply IH in H as (Hd & r' & Hr' & Hq); [|by cbn; rewrite lookup_insert_eq]. cbn in *.
    split; [done|]. exists r'. by rewrite Hr', insert_insert_eq.
Qed.

Lemma fill_first_uses f cs c :
  first_unfilled cs = Some c -> (cs ≫= pending_of) = elem_nonces (elems c) ++ (fill_first f cs ≫= pending_of).
Proof.
  induction cs as [|x cs IH]; [done|]. cbn [first_unfilled fill_first]. destruct (filled x) as [y|] eqn:Hx.
  - intros H. cbn. unfold pending_of at 1 3. rewrite Hx. by apply IH.
  - intros [= ->]. cbn. unfold pending_of at 1 3. by rewrite Hx.
Qed.

(** The nonces a step encrypts with were pending, and are used from then on. *)
Lemma step_uses used o e e' :
  step C W priorityMsgFn o e = Some (tt, e') -> nonces_ok used e -> nonces_ok (uses o e ++ used) e'.
Proof.
  intros H He. destruct (decide (uses o e = [])) as [->|Hu].
  { exact (keeps_step C W priorityMsgFn (I := nonces_ok used) o e tt e' H He). }
  destruct o; try done. cbn [step] in H. unfold uses in *. revert H. unfold RoutineEncryption, bind, get_rt.
  destruct (runtimes e !! p) as [r|] eqn:Hr; [|done]. red_bind.
  destruct (first_unfilled (outbound (queues r))) as [c|] eqn:Hc; [|done]. clear Hu.
  destruct (encrypt_elems C W p (elems c) e) as [[f e1]|] eqn:H; [|done]. red_bind.
  destruct (encrypt_frame _ _ _ _ _ _ H Hr) as (Hd & r1 & Hr1 & Hq1).
  assert (nonces_ok used e1) as He1.
  { exact (keeps_does C W priorityMsgFn (I := nonces_ok used) _ (does_encrypt_elems C W p (elems c)) _ _ _ H He). }
  unfold on_rt. rewrite Hr1, lookup_insert_eq. red_bind. intros [= <-]. rewrite <- Hr1.
  apply (nonces_move _ _ _ r1); [by rewrite Hr1, lookup_insert_eq | | done].
  unfold pending. cbn. rewrite Hq1. by apply fill_first_uses.
Qed.

Lemma run_uses os used e : nonces_ok used e -> NoDup (encryptions os e ++ used) /\
  Forall (fun x => 0 <= snd x < RejectAfterMessages) (encryptions os e).
Proof.
  revert used e. induction os as [|o os IH]; intros used e He; cbn [encryptions]; [by destruct He|].
  destruct (step C W priorityMsgFn o e) as [[[] e']|] eqn:H; [|by destruct He].
  apply (step_uses used) in H as He'; [|done]. destruct (IH _ _ He') as [Hn Hb]. split.
  - eapply NoDup_Permutation_proper; [|exact Hn]. by rewrite app_assoc, (Permutation_app_comm (uses o e)).
  - apply Forall_app. split; [|done]. apply list.Forall_forall. intros x Hx.
    destruct (no_used _ _ He' x) as (kp & Hk & Hx'); [apply elem_of_app; by left|].
    apply (no_range _ _ He') in Hk. lia.
Qed.

Lemma NewDevice_wire mtu now : Wire.wire_ok (wire (config (NewDevice mtu now))).
Proof.
  split.
  - intros t Ht. destruct (Uapi.type_cases t Ht) as [->|[->|[->| ->]]]; by repeat split.
  - split.
    + intros t Ht. destruct (Uapi.type_cases t Ht) as [->|[->|[->| ->]]]; eexists; (split; [reflexivity|]); by repeat split.
    + intros t1 t2 a b H1 H2 Hne. destruct (Uapi.type_cases t1 H1) as [->|[->|[->| ->]]], (Uapi.type_cases t2 H2) as [->|[->|[->| ->]]];
        try done; intros [= <-] [= <-]; (by left) || (by right).
Qed.

Lemma NewDevice_config mtu now : Uapi.config_ok (config (NewDevice mtu now)).
Proof.
  split; [apply NewDevice_wire | done | | |]; cbn.
  - unfold Uapi.junk_wf. rewrite !list.Forall_cons. by cbn.
  - by rewrite !list.Forall_cons.
  - by repeat split.
Qed.

Lemma NewDevice_nonces mtu now : nonces_ok [] (NewDevice mtu now).
Proof.
  split; [..|apply NewDevice_config]; cbn; try (intros; by rewrite ?lookup_empty in * ); [constructor|].
  intros x Hx. by apply elem_of_nil in Hx.
Qed.

Lemma NewDevice_ok mtu now : ok ∅ (NewDevice mtu now).
Proof. split; [..|apply NewDevice_config]; cbn; intros; by rewrite ?lookup_empty in *. Qed.

(** C4. Whatever packets arrive, whatever is read from the TUN device and whenever
    the timers fire, peers come and go, keys change and the device goes up and down:
    no packet is encrypted under a key with a nonce that an earlier packet was
    encrypted with under that key, and every nonce is below
    [RejectAfterMessages]. *)
Theorem nonces_never_reused mtu now os :
  NoDup (encryptions os (NewDevice mtu now)) /\
  Forall (fun x => 0 <= snd x < RejectAfterMessages) (encryptions os (NewDevice mtu now)).
Proof.
  destruct (run_uses os [] (NewDevice mtu now)) as [Hn Hb]; [apply NewDevice_nonces|]. by rewrite app_nil_r in Hn.
Qed.

(** No packet waits in the peer's queues and none of its timers is pending. *)
Definition idle (r : Runtime) : Prop :=
  staged (queues r) = [] /\ outbound (queues r) = [] /\ inbound (queues r) = [] /\ forall id, IsPending r id = false.

(** C12. After any sequence of handlers, each run to its end before the next one,
    the counter of a peer's queued packets is the number of packets in its staged
    and outbound queues, modulo 2^32; and a peer that is not running is idle: its
    staged, outbound and inbound queues are empty and no timer is pending.  A
    handler of the source may be overtaken by [Stop] between its test that the
    peer is running and its effect; the comment in [RoutineSequentialSender] says
    that timers may then stay alive longer than necessary.  Such overtaking is
    not part of these runs. *)
Theorem stopped_peers_idle mtu now os e p pr r :
  run C W priorityMsgFn os (NewDevice mtu now) = Some (tt, e) -> peers (dev e) !! p = Some pr -> runtimes e !! p = Some r ->
  queuedOutboundPackets (queues r) = i32 (backlog (queues r)) /\
  (isRunning pr = false -> idle r).
Proof.
  intros H Hp Hr. pose proof (keeps_run C W priorityMsgFn (I := ok ∅) os _ _ _ H (NewDevice_ok mtu now)) as He.
  destruct (ok_rt _ _ He p pr r Hp Hr) as [Hc Ht Hq]. split; [done|]. intros Hrun. destruct (Hq Hrun) as (Hs & Ho & Hi); [set_solver|].
  split_and!; [done..|]. intros id. unfold IsPending. rewrite (Ht Hrun id). by case_bool_decide as E; [destruct E|].
Qed.

End Properties.

(** ** Two devices *)

Section Example.

Import ToyCrypto.

Definition toyC : Primitives :=
  mkPrimitives toy_hash toy_hmac toy_base toy_mult toy_seal toy_open Cookie.toy_mac128 toy_seal toy_open
    (fun key nonce n => repeat (checksum (key ++ nonce)) n).

Definition toyW : Oracles :=
  mkOracles 128 (fun _ _ => 0) (fun _ _ => 0) (fun i n => (repeat (Z.of_nat i mod 256) n, false))
    (fun i => [(Z.of_nat i + 1000, false)]) (fun _ => SendOk) (fun _ => Some None) (fun _ => false)
    (fun _ n => (n, false)) (fun _ => None).

Definition ep_a : Endpoint := mkEndpoint [97] [10; 0; 0; 1; 31; 144] [10; 0; 0; 1] false.
Definition ep_b : Endpoint := mkEndpoint [98] [10; 0; 0; 2; 31; 144] [10; 0; 0; 2] false.

(** A device with one peer that owns 10.0.0.0/8. *)
Definition setup (sk peer : bytes) (ep : Endpoint) : list op :=
  [OpSetPrivateKey sk; OpNewPeer peer; OpSetEndpoint 0%nat ep;
   OpSetPrefixes 0%nat [AllowedIPs.mkPrefix (AllowedIPs.Addr4 [10; 0; 0; 0]) 8]; OpUp; OpStart 0%nat].


Definition after (os : list op) (e : Engine) : Engine := default e (snd <$> run toyC toyW None os e).

Definition packet : bytes := [69; 0; 0; 24; 0; 0; 0; 0; 64; 17; 0; 0; 10; 0; 0; 1; 10; 0; 0; 2; 1; 2; 3; 4].

Definition start : Engine := NewDevice 1420 (1000 * Second).
Definition device_a : Engine := after (setup Sessions.sk1 Sessions.pk2 ep_b) start.
Definition device_b : Engine := after (setup Sessions.sk2 Sessions.pk1 ep_a) start.

(** The datagrams sent last, and their way through the workers of the receiver. *)
Definition sent (e : Engine) : list bytes := match output e with Datagrams _ bufs :: _ => bufs | _ => [] end.
Definition deliver (from : Endpoint) (bufs : list bytes) : list op :=
  [OpReceive (map (pair from) bufs); OpHandshake; OpInbound 0%nat].

(** A packet read by one device starts a handshake, waits for its end and comes
    out of the TUN device of the other. *)
Example packet_crosses :
  let a1 := after [OpRead [packet]] device_a in
  let b1 := after (deliver ep_a (sent a1)) device_b in
  let a2 := after (deliver ep_b (sent b1) ++ [OpEncrypt 0%nat; OpSend 0%nat]) a1 in
  let b2 := after (deliver ep_a (sent a2)) b1 in
  head (output b2) = Some (TunWrite [packet]).
Proof. vm_compute. reflexivity. Qed.

(** The first device with its packet waiting, and stopped. *)
Definition waiting_ops : list op := setup Sessions.sk1 Sessions.pk2 ep_b ++ [OpRead [packet]].

Lemma stopped_peers_idle_witness :
  exists e pr r, run toyC toyW None (waiting_ops ++ [OpDown]) start = Some (tt, e) /\ peers (dev e) !! 0%nat = Some pr /\
    runtimes e !! 0%nat = Some r /\ isRunning pr = false /\ staged (queues r) = [].
Proof.
  set (e := after (waiting_ops ++ [OpDown]) start).
  assert (H : run toyC toyW None (waiting_ops ++ [OpDown]) start = Some (tt, e)) by (vm_compute; reflexivity).
  destruct (peers (dev e) !! 0%nat) as [pr|] eqn:Hp; [|vm_compute in Hp; discriminate].
  destruct (runtimes e !! 0%nat) as [r|] eqn:Hr; [|vm_compute in Hr; discriminate].
  exists e, pr, r. destruct (stopped_peers_idle toyC toyW None 1420 (1000 * Second) (waiting_ops ++ [OpDown]) e 0%nat pr r H Hp Hr)
    as [_ Hidle].
  assert (Hrun : isRunning pr = false) by (vm_compute in Hp; injection Hp as <-; reflexivity).
  destruct (Hidle Hrun) as [Hs _]. auto.
Defined.

End Example.

End EngineProps.
