(* ===== verification/EngineSend.v ===== *)
(** * Sending the staged packets

    [SendStagedPackets] (send.go) as a whole: its loop with its two jumps to
    [top] ends, and what it leaves behind. *)

From stdpp Require Import functions relations.
From S2P Require Import Prelude Bits Bytes Replay Ratelimiter AllowedIPs MagicHeader.
From S2P Require Import ObfChain Messages Wire Tai64n Noise ToyCrypto Sessions Cookie Transport Runtime Engine Machine EngineSteps EngineInv EngineProps.

Module EngineSend.

Import Noise Runtime Engine Machine EngineSteps EngineInv.

Local Open Scope Z_scope.
Local Open Scope engine_scope.

(** The state after key pair [k] has given nonces up to [n] to packets of peer [p],
    whose queues are [q] now. *)
Definition after_container (e : Engine) (p : pid) (k : kid) (n : Z) (r : Runtime) (q : Queues) : Engine :=
  set_runtimes (set_dev e (set_keypairs (dev e) (alter (fun kp => set_sendNonce kp n) k (keypairs (dev e)))))
    (<[p := set_queues r q]> (runtimes e)).

Lemma send_container_eq p k e pr r kp c cs kept ooo n :
  peers (dev e) !! p = Some pr -> runtimes e !! p = Some r -> keypairs (dev e) !! k = Some kp ->
  staged (queues r) = c :: cs -> assign_nonces k (sendNonce kp) (elems c) = (kept, ooo, n) ->
  send_container p k e =
    Some ((false, bool_decide (kept = []) || negb (bool_decide (ooo = []))),
          after_container e p k n r (distribute (isRunning pr) kept ooo (set_staged (queues r) cs))).
Proof.
  intros Hp Hr Hk Hs Ha.
  unfold send_container, pop_staged, bind, get_rt, gets, lift, ret, on_rt, set_nonce, change_dev, on_dev, when, get_peer.
  rewrite Hr. red_bind. rewrite Hs. rewrite Hr. red_bind. cbn. rewrite Hk. red_bind. rewrite Ha.
  unfold distribute, after_container.
  destruct (bool_decide (ooo = [])); cbn; rewrite ?lookup_insert_eq; red_bind;
    destruct kept; cbn; rewrite ?Hp; red_bind; cbn [runtimes set_runtimes set_dev]; rewrite ?lookup_insert_eq; red_bind;
    rewrite ?insert_insert_eq; reflexivity.
Qed.

(** With the counter below its limit a packet is held back only when the counter
    reaches it. *)
Lemma assign_held k nonce es kept ooo n :
  0 <= nonce <= RejectAfterMessages -> assign_nonces k nonce es = (kept, ooo, n) -> ooo <> [] -> n = RejectAfterMessages.
Proof.
  revert nonce kept ooo n. induction es as [|e es IH]; intros nonce kept ooo n Hn; cbn; [by intros [= _ <- _]|].
  destruct (Z.geb_spec nonce RejectAfterMessages).
  - destruct (assign_nonces k RejectAfterMessages es) as [[kept' ooo'] n'] eqn:Ha. intros [= _ _ <-] _.
    apply assign_spec in Ha as [? _]; [lia | unfold RejectAfterMessages; lia].
  - rewrite u64_small by (unfold is_u, RejectAfterMessages in *; lia).
    destruct (assign_nonces k (nonce + 1) es) as [[kept' ooo'] n'] eqn:Ha. intros [= _ <- <-] Ho.
    eapply IH; [|exact Ha | done]. lia.
Qed.

Section Send.

Context (C : Primitives) (W : Oracles).

(** There is no key to send with. *)
Definition no_usable_key (e : Engine) (p : pid) : Prop :=
  forall pr k kp, peers (dev e) !! p = Some pr -> current pr = Some k -> keypairs (dev e) !! k = Some kp -> stale (clock e) kp = true.

(** How the sending of staged packets ends. *)
Inductive ending (p : pid) (e e' : Engine) : Prop :=
| ending_down : isUp e = false -> e' = e -> ending p e e'
| ending_sent r : runtimes e' !! p = Some r -> staged (queues r) = [] -> ending p e e'
| ending_handshake e1 a : no_usable_key e1 p -> SendHandshakeInitiation C W p false e1 = Some (a, e') -> ending p e e'.

Lemma stale_exhausted now kp : RejectAfterMessages <= sendNonce kp -> stale now kp = true.
Proof. intros H. unfold stale. by rewrite (proj2 (Z.geb_le _ _) H). Qed.

Lemma current_keypair_spec p e x e' :
  current_keypair p e = Some (x, e') -> e' = e /\ exists pr, peers (dev e) !! p = Some pr /\
    match x with
    | Some (k, kp) => current pr = Some k /\ keypairs (dev e) !! k = Some kp
    | None => current pr = None
    end.
Proof.
  unfold current_keypair, bind, get_peer, gets, lift, ret. destruct (peers (dev e) !! p) as [pr|]; [|done]. red_bind.
  destruct (current pr) as [k|] eqn:Hc; [|intros [= <- <-]; eauto]. red_bind.
  destruct (keypairs (dev e) !! k) as [kp|] eqn:Hk; [|done]. intros [= <- <-]. eauto.
Qed.

(** A turn at [top] is the last one, or there is a key to send with. *)
Lemma send_top fuel p e a e' :
  send_staged C W (S fuel) p None e = Some (a, e') ->
  (a = true /\ ending p e e') \/
  exists pr k kp, isUp e = true /\ peers (dev e) !! p = Some pr /\ current pr = Some k /\ keypairs (dev e) !! k = Some kp /\
    stale (clock e) kp = false /\ send_staged C W fuel p (Some k) e = Some (a, e').
Proof.
  cbn [send_staged]. unfold bind at 1 2, get_rt, gets. destruct (runtimes e !! p) as [r|] eqn:Hr; [|done]. red_bind.
  case_bool_decide as Hs; cbn [orb]; [intros [= <- <-]; left; split; [done | by eapply ending_sent]|].
  destruct (isUp e) eqn:Hup; cbn [negb]; [|intros [= <- <-]; left; split; [done | by apply ending_down]].
  unfold bind at 1. destruct (current_keypair p e) as [[x e1]|] eqn:Hc; [|done]. red_bind.
  apply current_keypair_spec in Hc as (-> & pr & Hp & Hx). unfold bind at 1. red_bind.
  assert (Hini : no_usable_key e p -> (let* _ := SendHandshakeInitiation C W p false in ret true) e = Some (a, e') ->
    a = true /\ ending p e e').
  { intros Hno. unfold bind. destruct (SendHandshakeInitiation C W p false e) as [[y e1]|] eqn:H; [|done]. red_bind.
    intros [= <- <-]. split; [done | by eapply ending_handshake]. }
  destruct x as [[k kp]|].
  - destruct Hx as [Hcur Hk]. destruct (stale (clock e) kp) eqn:Hst.
    + intros H. left. apply Hini; [|done]. intros pr' k' kp' H1 H2 H3. congruence.
    + intros H. right. by exists pr, k, kp.
  - intros H. left. apply Hini; [|done]. intros pr' k' kp' H1 H2 H3. congruence.
Qed.

(** The state only moves between turns by the packets of [p]. *)
Lemma ending_trans p e e1 e' : isUp e1 = isUp e -> isUp e = true -> ending p e1 e' -> ending p e e'.
Proof. intros H1 H2 [H3 _ | r Hr Hs | e2 a Hn H]; [congruence | by eapply ending_sent | by eapply ending_handshake]. Qed.

(** The turns of the inner loop, and one more at [top] for each container of
    which nothing was sent. *)
Lemma send_staged_ends fuel p e pr r k kp a e' :
  isUp e = true -> peers (dev e) !! p = Some pr -> runtimes e !! p = Some r -> current pr = Some k ->
  keypairs (dev e) !! k = Some kp -> 0 <= sendNonce kp <= RejectAfterMessages ->
  (2 * length (staged (queues r)) + 2 <= fuel)%nat ->
  send_staged C W fuel p (Some k) e = Some (a, e') -> a = true /\ ending p e e'.
Proof.
  remember (length (staged (queues r))) as n eqn:Hn. revert fuel e r kp Hn.
  induction n as [n IH] using lt_wf_ind. intros fuel e r kp Hn Hup Hp Hr Hc Hk Hrange Hf.
  destruct fuel as [|fuel]; [lia|]. cbn [send_staged]. unfold bind at 1.
  destruct (staged (queues r)) as [|c cs] eqn:Hs.
  { unfold send_container, pop_staged, bind, get_rt, ret. rewrite Hr. red_bind. rewrite Hs. red_bind.
    intros [= <- <-]. split; [done | by eapply ending_sent]. }
  destruct (assign_nonces k (sendNonce kp) (elems c)) as [[kept ooo] m] eqn:Ha.
  rewrite (send_container_eq _ _ _ _ _ _ _ _ _ _ _ Hp Hr Hk Hs Ha). red_bind.
  set (e1 := after_container _ _ _ _ _ _). intros H.
  assert (Hup1 : isUp e1 = isUp e) by done.
  assert (Hp1 : peers (dev e1) !! p = Some pr) by done.
  assert (Hk1 : keypairs (dev e1) !! k = Some (set_sendNonce kp m)) by (cbn; by rewrite lookup_alter_eq, Hk).
  pose proof (assign_spec _ _ _ _ _ _ Hrange Ha) as [Hm _].
  assert (Hend : a = true /\ ending p e1 e'); [|destruct Hend; split; [done | by eapply ending_trans]].
  destruct (decide (ooo = [])) as [->|Hooo].
  - rewrite (bool_decide_true ([] = [])) in H by done. rewrite orb_false_r in H.
    set (q := distribute _ _ _ _) in e1. assert (Hq : staged q = cs).
    { subst q. unfold distribute. rewrite bool_decide_true by done. by destruct kept, (isRunning pr). }
    assert (Hr1 : runtimes e1 !! p = Some (set_queues r q)) by (cbn; by rewrite lookup_insert_eq).
    assert (Hnext : forall fuel', (fuel <= S fuel')%nat -> send_staged C W fuel' p (Some k) e1 = Some (a, e') ->
      a = true /\ ending p e1 e').
    { intros fuel' Hfuel. apply (IH (length cs) ltac:(cbn in Hn; lia) fuel' e1 (set_queues r q) (set_sendNonce kp m));
        cbn [queues set_queues]; rewrite ?Hq; cbn in *; try done; lia. }
    destruct (bool_decide (kept = [])).
    + destruct fuel as [|fuel]; [cbn in Hn; lia|]. apply send_top in H as [H | (pr' & k' & kp' & _ & H1 & H2 & H3 & _ & H)]; [done|].
      assert (pr' = pr) as -> by congruence. assert (k' = k) as -> by congruence.
      apply (Hnext fuel); [lia | done].
    + apply (Hnext fuel); [lia | done].
  - rewrite (bool_decide_false (ooo = [])), orb_true_r in H by done.
    apply (assign_held _ _ _ _ _ _ Hrange Ha) in Hooo as ->.
    destruct fuel as [|fuel]; [cbn in Hn; lia|].
    apply send_top in H as [H | (pr' & k' & kp' & _ & H1 & H2 & H3 & H4 & H)]; [done|].
    assert (pr' = pr) as -> by congruence. assert (k' = k) as -> by congruence.
    assert (kp' = set_sendNonce kp RejectAfterMessages) as -> by congruence.
    rewrite stale_exhausted in H4; [done | cbn; lia].
Qed.

End Send.

Lemma staged_ends C W p e a e' :
  nonces_ok [] e -> SendStagedPackets C W p e = Some (a, e') -> a = true /\ ending C W p e e'.
Proof.
  intros He. unfold SendStagedPackets, bind at 1, get_rt.
  destruct (runtimes e !! p) as [r|] eqn:Hr; [|done]. red_bind. rewrite Nat.add_comm. cbn [plus]. intros H.
  apply send_top in H as [H | (pr' & k & kp & Hup & H1 & H2 & H3 & H4 & H)]; [done|].
  eapply send_staged_ends; [..|exact H]; eauto using no_range. cbn. lia.
Qed.

(** C11. In every state a device reaches, [SendStagedPackets] ends: it does nothing
    when the device is down; otherwise the peer's staging queue is empty
    afterwards, or there was no key to send with and a handshake was started. *)
Theorem staged_packets_leave C W priorityMsgFn mtu now os e p a e' :
  run C W priorityMsgFn os (NewDevice mtu now) = Some (tt, e) -> SendStagedPackets C W p e = Some (a, e') ->
  a = true /\ ending C W p e e'.
Proof.
  intros H. apply staged_ends.
  exact (keeps_run C W priorityMsgFn (I := nonces_ok []) os _ _ _ H (EngineProps.NewDevice_nonces mtu now)).
Qed.

Lemma staged_packets_leave_witness :
  exists e e' a, run EngineProps.toyC EngineProps.toyW None EngineProps.waiting_ops EngineProps.start = Some (tt, e) /\
    SendStagedPackets EngineProps.toyC EngineProps.toyW 0%nat e = Some (a, e') /\ a = true.
Proof.
  set (e := EngineProps.after EngineProps.waiting_ops EngineProps.start).
  assert (H : run EngineProps.toyC EngineProps.toyW None EngineProps.waiting_ops EngineProps.start = Some (tt, e)) by (vm_compute; reflexivity).
  destruct (SendStagedPackets EngineProps.toyC EngineProps.toyW 0%nat e) as [[a e']|] eqn:Hs; [|vm_compute in Hs; discriminate].
  exists e, e', a. split; [done|]. split; [done|].
  by destruct (staged_packets_leave EngineProps.toyC EngineProps.toyW None 1420 (1000 * Second) EngineProps.waiting_ops e 0%nat a e' H Hs).
Defined.

End EngineSend.
