(* ===== verification/EngineLoad.v ===== *)
(** * Handshake messages that are turned away

    The checks of [RoutineHandshake] (receive.go) before any handshake is
    computed: the MAC, the cookie under load, the rate limit. *)

From S2P Require Import Prelude Bits Bytes Replay Ratelimiter AllowedIPs MagicHeader.
From S2P Require Import ObfChain Messages Wire Tai64n Noise ToyCrypto Sessions Cookie Transport Runtime Engine Machine EngineProps.

Module EngineLoad.

Import Noise Runtime Engine Machine.

Local Open Scope Z_scope.
Local Open Scope engine_scope.

(** No peer, key, route or quota has changed. *)
Definition inert (e e' : Engine) : Prop :=
  dev e' = dev e /\ runtimes e' = runtimes e /\ allowedips e' = allowedips e /\ limiter e' = limiter e /\ config e' = config e.

(** Under load after [rest] has been left in the queue of the workers. *)
Definition under_load (e : Engine) (rest : list handshakeElem) : Prop :=
  QueueHandshakeSize / 8 <= Z.of_nat (length rest) \/ clock e < underLoadUntil e.

Section Load.

Context (C : Primitives) (W : Oracles) (priorityMsgFn : option (bytes -> bytes)).

(** A cookie goes to the sender of the message, or nothing. *)
Lemma cookie_effect elem e b e' :
  SendHandshakeCookie C W elem e = Some (b, e') ->
  inert e e' /\ (output e' = output e \/ exists reply, output e' = Datagrams (he_endpoint elem) [reply] :: output e).
Proof.
  unfold SendHandshakeCookie, handshakeWireConfig, rand_Read, frame, emit, bind, lift, gets, call, modify, ret. red_bind.
  intros H. repeat (simplify_option_eq || case_match || destruct_and?); simplify_eq/=;
    (split; [by repeat split|]); eauto.
Qed.

Lemma under_load_true rest e b e' :
  IsUnderLoad (set_handshakeQueue e rest) = Some (b, e') -> under_load e rest ->
  b = true /\ inert e e' /\ output e' = output e /\ clock e' = clock e /\ checker e' = checker e.
Proof.
  unfold IsUnderLoad, bind, gets, modify, ret. red_bind. cbn. intros H Hl.
  destruct (Z.leb_spec (QueueHandshakeSize / 8) (Z.of_nat (length rest))); red_bind; injection H as <- <-.
  - by repeat split.
  - split; [|by repeat split]. destruct Hl; [lia|]. apply Z.gtb_lt. lia.
Qed.

Lemma handshake_starts elem rest e e' :
  handshakeQueue e = elem :: rest ->
  he_type elem = Messages.MessageInitiationType \/ he_type elem = Messages.MessageResponseType ->
  RoutineHandshake C W priorityMsgFn e = Some (tt, e') ->
  exists ok e1, check_handshake C W elem (set_handshakeQueue e rest) = Some (ok, e1) /\ (ok = false -> e' = e1).
Proof.
  intros Hq Ht. unfold RoutineHandshake, bind at 1, gets. red_bind. rewrite Hq. unfold bind at 1, modify. red_bind.
  destruct Ht as [-> | ->]; cbn [Z.eqb orb Messages.MessageInitiationType Messages.MessageResponseType Messages.MessageCookieReplyType Pos.eqb];
    unfold bind at 1; destruct (check_handshake C W elem _) as [[[] e1]|]; try done; red_bind; cbn [negb];
    intros H; do 2 eexists; (split; [done|]); try done; intros _; by injection H.
Qed.

End Load.

(** C20. A handshake message whose MAC1 is wrong changes nothing but the queue it was
    in.  Under load, a message whose MAC2 does not prove its sender's address
    changes no peer, key, route or quota, and is answered to its sender with at
    most one datagram; a message beyond the sender's rate changes no peer, key or
    route and is not answered. *)
Theorem handshake_load_shed C W priorityMsgFn elem rest e e' :
  handshakeQueue e = elem :: rest ->
  he_type elem = Messages.MessageInitiationType \/ he_type elem = Messages.MessageResponseType ->
  RoutineHandshake C W priorityMsgFn e = Some (tt, e') ->
  let mac1 := Cookie.CheckMAC1 (mac128 C) (checker e) (he_packet elem) in
  let mac2 := Cookie.CheckMAC2 (mac128 C) (checker e) (he_packet elem) (DstToBytes (he_endpoint elem)) (clock e) in
  (mac1 = Some false -> e' = set_handshakeQueue e rest) /\
  (disableCookies (config e) = false -> under_load e rest ->
     (mac2 = Some false -> inert e e' /\
        (output e' = output e \/ exists reply, output e' = Datagrams (he_endpoint elem) [reply] :: output e)) /\
     (forall lim, Ratelimiter.Allow (limiter e) (DstIP (he_endpoint elem)) (clock e) = Some (false, lim) -> mac2 = Some true ->
        dev e' = dev e /\ runtimes e' = runtimes e /\ allowedips e' = allowedips e /\ output e' = output e)).
Proof.
  intros Hq Ht H. destruct (handshake_starts C W priorityMsgFn elem rest e e' Hq Ht H) as (ok & e1 & Hc & Hok). clear H. cbv zeta.
  revert Hc. unfold check_handshake, bind, gets, lift, modify, ret. red_bind. cbn.
  destruct (Cookie.CheckMAC1 _ _ _) as [[]|]; red_bind; [| |done]; cbn.
  - destruct (disableCookies (config e)); [split; done|].
    destruct (IsUnderLoad _) as [[loaded e2]|] eqn:Hl; [|done]. red_bind. intros Hc. split; [done|]. intros _ Hload.
    destruct (under_load_true rest e loaded e2 Hl Hload) as (-> & Hin & Hout & Hclk & Hchk). cbn in Hc. rewrite Hclk in Hc.
    destruct Hin as (Hd & Hr & Ha & Hlim & Hcfg). split.
    + intros Hm. rewrite Hm in Hc. red_bind. cbn in Hc. destruct (SendHandshakeCookie C W elem e2) as [[b e3]|] eqn:Hs; [|done].
      red_bind. injection Hc as <- <-. rewrite (Hok eq_refl). apply cookie_effect in Hs as [(? & ? & ? & ? & ?) Hs].
      split; [unfold inert; split_and!; congruence | by rewrite <- Hout].
    + intros lim Hlm Hm. rewrite Hm in Hc. red_bind. cbn in Hc. rewrite Hlim, Hlm in Hc. red_bind. injection Hc as <- <-.
      rewrite (Hok eq_refl). by split_and!.
  - intros [= <- <-]. rewrite (Hok eq_refl). split; [done|]. intros _ _. split; [split; [by repeat split | by left] | done].
Qed.

(** The second device of the example, under load, with an initiation to handle. *)
Definition loaded : Engine :=
  let a1 := EngineProps.after [OpRead [EngineProps.packet]] EngineProps.device_a in
  let b1 := EngineProps.after [OpReceive (map (pair EngineProps.ep_a) (EngineProps.sent a1))] EngineProps.device_b in
  set_underLoadUntil b1 (clock b1 + Second).

Lemma handshake_load_shed_witness :
  exists e', RoutineHandshake EngineProps.toyC EngineProps.toyW None loaded = Some (tt, e') /\ inert loaded e'.
Proof.
  destruct (handshakeQueue loaded) as [|elem rest] eqn:Hq; [vm_compute in Hq; discriminate|].
  destruct (RoutineHandshake EngineProps.toyC EngineProps.toyW None loaded) as [[[] e']|] eqn:H; [|vm_compute in H; discriminate].
  exists e'. split; [done|].
  assert (Ht : he_type elem = Messages.MessageInitiationType \/ he_type elem = Messages.MessageResponseType)
    by (vm_compute in Hq; injection Hq as <- <-; left; reflexivity).
  destruct (handshake_load_shed EngineProps.toyC EngineProps.toyW None elem rest loaded e' Hq Ht H) as [_ Hload].
  destruct Hload as [Hmac2 _]; [vm_compute; reflexivity | right; vm_compute; reflexivity|].
  destruct Hmac2 as [Hin _]; [|done]. vm_compute in Hq. injection Hq as <- <-. vm_compute. reflexivity.
Defined.

End EngineLoad.
