(* ===== verification/EngineTimers.v ===== *)
(** * Giving up on a peer that does not answer

    The retransmission of handshake initiations (timers.go) ends while nothing
    else starts a handshake: once its counter has passed its limit the timer is
    not armed again and the waiting packets are dropped. *)

From stdpp Require Import functions.
From S2P Require Import Prelude Bits Bytes Replay Ratelimiter AllowedIPs MagicHeader.
From S2P Require Import ObfChain Messages Wire Tai64n Noise ToyCrypto Sessions Cookie Transport Runtime Engine Machine EngineProps.

Module EngineTimers.

Import Noise Runtime Engine Machine.

Local Open Scope Z_scope.
Local Open Scope engine_scope.

(** ** Parts of the state a computation leaves alone *)

Section Frames.

Context (R : Engine -> Engine -> Prop) {HR : PreOrder R}.

Definition frames {A} (c : M A) : Prop := forall e a e', c e = Some (a, e') -> R e e'.

Lemma frames_ret {A} (a : A) : frames (ret a).
Proof. by intros e b e' [= _ <-]. Qed.

Lemma frames_bind {A B} (c : M A) (k : A -> M B) : frames c -> (forall a, frames (k a)) -> frames (bind c k).
Proof.
  intros Hc Hk e b e'. unfold bind. destruct (c e) as [[a e1]|] eqn:H; [|done]. red_bind. intros H'.
  etrans; [by eapply Hc | by eapply Hk].
Qed.

Lemma frames_when b (c : M unit) : (b = true -> frames c) -> frames (when b c).
Proof. intros Hc. destruct b; [by apply Hc | apply frames_ret]. Qed.

Lemma frames_gets {A} (f : Engine -> A) : frames (gets f).
Proof. by intros e a e' [= _ <-]. Qed.

Lemma frames_lift {A} (o : option A) : frames (lift o).
Proof. intros e a e'. unfold lift. destruct o; [|done]. by intros [= _ <-]. Qed.

Lemma frames_get_peer p : frames (get_peer p).
Proof. intros e a e'. unfold get_peer. destruct (peers (dev e) !! p); [|done]. by intros [= _ <-]. Qed.

Lemma frames_get_rt p : frames (get_rt p).
Proof. intros e a e'. unfold get_rt. destruct (runtimes e !! p); [|done]. by intros [= _ <-]. Qed.

End Frames.

(** The number of attempts and the deadline of the retransmission. *)
Definition attempts (p : pid) (e : Engine) : Z := default 0 ((fun r => handshakeAttempts (timers r)) <$> runtimes e !! p).
Definition due (p : pid) (e : Engine) : bool :=
  match (r ← runtimes e !! p; deadline (timers r) retransmitHandshake) with Some t => t <=? clock e | None => false end.

Definition same_attempts (p : pid) (e e' : Engine) : Prop := attempts p e' = attempts p e.

#[export] Instance same_attempts_preorder p : PreOrder (same_attempts p).
Proof. split; [done | intros ? ? ?; unfold same_attempts; congruence]. Qed.

(** An update of the run-time state of a peer that leaves the counter alone. *)
Definition keeps_attempts (f : Runtime -> Runtime) : Prop := forall r, handshakeAttempts (timers (f r)) = handshakeAttempts (timers r).

Section Attempts.

Context (C : Primitives) (W : Oracles) (priorityMsgFn : option (bytes -> bytes)) (p : pid).

Abbreviation steady := (frames (same_attempts p)).

Lemma steady_modify f : (forall e, runtimes (f e) = runtimes e) -> steady (modify f).
Proof. intros Hf e a e' [= _ <-]. unfold same_attempts, attempts. by rewrite Hf. Qed.

Lemma steady_call {A} (f : nat -> A) : steady (call f).
Proof. by intros e a e' [= _ <-]. Qed.

Lemma steady_on_dev {A} (f : Device -> option (Device * A)) : steady (on_dev f).
Proof. intros e a e'. unfold on_dev. destruct (f (dev e)) as [[d b]|]; [|done]. by intros [= _ <-]. Qed.

Lemma steady_on_rt q f : keeps_attempts f -> steady (on_rt q f).
Proof.
  intros Hf e a e'. unfold on_rt. destruct (runtimes e !! q) as [r|] eqn:Hr; [|done]. intros [= _ <-].
  unfold same_attempts, attempts. cbn. destruct (decide (q = p)) as [->|].
  - rewrite lookup_insert_eq, Hr. cbn. by rewrite Hf.
  - by rewrite lookup_insert_ne.
Qed.

(** [c] is made of parts that keep the counter. *)
Ltac steady_walk :=
  repeat match goal with
  | |- frames _ (bind _ _) => apply frames_bind; [apply _| |intros ?]
  | |- frames _ (when _ _) => apply frames_when; [apply _ | intros ?; try done]
  | |- frames _ (ret _) => apply frames_ret; apply _
  | |- frames _ (gets _) => apply frames_gets; apply _
  | |- frames _ (lift _) => apply frames_lift; apply _
  | |- frames _ (get_peer _) => apply frames_get_peer; apply _
  | |- frames _ (get_rt _) => apply frames_get_rt; apply _
  | |- frames _ (call _) => apply steady_call
  | |- frames _ (modify _) => apply steady_modify; intros ?; done
  | |- frames _ (on_dev _) => apply steady_on_dev
  | |- frames _ (on_rt _ _) => apply steady_on_rt; intros ?; cbv zeta; repeat case_match; done
  | |- frames _ (let (_, _) := ?x in _) => destruct x
  | |- frames _ (match ?x with _ => _ end) => destruct x eqn:?
  end.

Lemma steady_timer_event q f : (forall active now, keeps_attempts (f active now)) -> steady (timer_event q f).
Proof. intros Hf. unfold timer_event, timersActive. steady_walk. by apply steady_on_rt. Qed.

Lemma steady_SendBuffers q bufs : steady (SendBuffers W q bufs).
Proof. unfold SendBuffers, take_endpoint, emit. steady_walk. Qed.

Lemma steady_send_to_all q bufs eps b : steady (send_to_all W q bufs eps b).
Proof. revert b. induction eps; intros b; cbn [send_to_all]; unfold emit; steady_walk; auto. Qed.

Lemma steady_sendHandshakeBuffers q bufs cs : steady (sendHandshakeBuffers W q bufs cs).
Proof. unfold sendHandshakeBuffers, take_endpoint. steady_walk; auto using steady_send_to_all. Qed.

Lemma steady_decoys cs : steady (decoys W cs).
Proof. induction cs as [|[c|] cs IH]; cbn [decoys]; steady_walk; auto. Qed.

Lemma steady_junk n jmin diff : steady (junk_packets W n jmin diff).
Proof.
  induction n; cbn [junk_packets]; unfold fastrandn, rand_Read; steady_walk; auto.
Qed.

Lemma steady_initiation q : steady (SendHandshakeInitiation C W q true).
Proof.
  unfold SendHandshakeInitiation, too_soon, set_lastSent, change_dev, resolveEndpoints, handshakeWireConfig, createMessageInitiation,
    rand_Read, AddMacs, frame, fastrandn.
  steady_walk; auto using steady_decoys, steady_junk, steady_SendBuffers, steady_sendHandshakeBuffers.
  all: apply steady_timer_event; intros active now r;
    unfold timersAnyAuthenticatedPacketTraversal, timersAnyAuthenticatedPacketSent, timersHandshakeInitiated,
      noteSessionHandshakeStarted, noteSessionStateLocked; cbv zeta; by repeat case_match.
Qed.

(** ** The retransmission *)

Definition retransmission (o : op) : bool :=
  match o with OpFire id q => bool_decide (id = retransmitHandshake) && bool_decide (q = p) | _ => false end.

Definition armed (e : Engine) : bool :=
  match (r ← runtimes e !! p; deadline (timers r) retransmitHandshake) with Some _ => true | None => false end.

Definition nothing_staged (e : Engine) : bool :=
  match runtimes e !! p with Some r => bool_decide (staged (queues r) = []) | None => false end.

Definition untouched (e e' : Engine) : bool :=
  (attempts p e' =? attempts p e) && implb (armed e') (armed e) && implb (nothing_staged e) (nothing_staged e').

(** The expiries of the retransmission timer in a run. *)
Fixpoint expiries (os : list op) (e : Engine) : nat :=
  match os with
  | [] => 0
  | o :: os' =>
      match step C W priorityMsgFn o e with
      | Some (_, e') => (if retransmission o && due p e then S (expiries os' e') else expiries os' e')
      | None => 0%nat
      end
  end.

(** No other step of the run changes the counter, arms the timer, or stages a
    packet for the peer: nothing new is to be sent to it, and it does not answer. *)
Fixpoint undisturbed (os : list op) (e : Engine) : bool :=
  match os with
  | [] => true
  | o :: os' =>
      match step C W priorityMsgFn o e with
      | Some (_, e') => (retransmission o || untouched e e') && undisturbed os' e'
      | None => true
      end
  end.

(** What an expiry does: it counts, or it gives up for good. *)
Lemma expiry e e' :
  due p e = true -> 0 <= attempts p e <= MaxTimerHandshakes + 1 -> fire C W priorityMsgFn retransmitHandshake p e = Some (tt, e') ->
  (attempts p e <= MaxTimerHandshakes /\ attempts p e' = attempts p e + 1) \/
  (MaxTimerHandshakes < attempts p e /\ attempts p e' = attempts p e /\ exists r, runtimes e' !! p = Some r /\
    deadline (timers r) retransmitHandshake = None /\ staged (queues r) = [] /\ output e' = output e).
Proof.
  intros Hdue Ha. destruct (runtimes e !! p) as [r|] eqn:Hr; [|unfold due in Hdue; by rewrite Hr in Hdue].
  assert (Hat : attempts p e = handshakeAttempts (timers r)) by (unfold attempts; by rewrite Hr). rewrite Hat in *.
  unfold due in Hdue. rewrite Hr in Hdue. red_bind. unfold fire, bind at 1 2, get_rt, gets. rewrite Hr. red_bind.
  destruct (deadline (timers r) retransmitHandshake) as [t|]; [|done]. rewrite Hdue.
  unfold bind at 1, on_rt at 1. rewrite Hr. red_bind. cbn [expirationFunction]. set (e1 := set_runtimes _ _).
  assert (Hr1 : runtimes e1 !! p = Some (Del retransmitHandshake r)) by (cbn; by rewrite lookup_insert_eq).
  unfold expiredRetransmitHandshake, bind at 1, get_rt. rewrite Hr1. red_bind. change (timers (Del retransmitHandshake r)) with (disarm retransmitHandshake (timers r)).
  cbn [handshakeAttempts disarm set_deadline]. destruct (Z.gtb_spec (handshakeAttempts (timers r)) MaxTimerHandshakes).
  - unfold timersActive, bind, get_peer, gets, on_rt, ret. destruct (peers (dev e1) !! p) as [pr|] eqn:Hp; [|done]. red_bind.
    rewrite Hp. red_bind. rewrite Hr1. red_bind. intros [= <-]. right. split; [done|]. unfold attempts.
    cbn [runtimes set_runtimes]. rewrite lookup_insert_eq. cbn [fmap option_fmap option_map default].
    unfold noteSessionHandshakeStopped, noteSessionStateLocked. cbv zeta.
    repeat match goal with |- context [if ?b then _ else _] => destruct b end;
      (split; [done|]); eexists; split_and!; try done; by rewrite ?fn_lookup_insert.
  - intros He'. left. split; [done|]. revert He'. unfold bind at 1, on_rt. rewrite Hr1. red_bind. set (e2 := set_runtimes e1 _).
    unfold bind. destruct (SendHandshakeInitiation C W p true e2) as [[b e3]|] eqn:Hs; [|done]. red_bind. intros [= <-].
    apply steady_initiation in Hs. unfold same_attempts in Hs. rewrite Hs. unfold attempts. cbn. rewrite lookup_insert_eq. cbn.
    unfold markEndpointSrcForClearing. assert (u32 (handshakeAttempts (timers r) + 1) = handshakeAttempts (timers r) + 1) as Hu.
    { change MaxTimerHandshakes with 18 in *. apply u32_small. unfold is_u. lia. }
    destruct (ep_val _); exact Hu.
Qed.

(** The peer is left alone: no retransmission, nothing waiting. *)
Definition given_up (e : Engine) : Prop := armed e = false /\ nothing_staged e = true.

Lemma armed_due e : armed e = false -> due p e = false.
Proof. unfold armed, due. by destruct (_ ≫= _). Qed.

Lemma retransmission_op o : retransmission o = true -> o = OpFire retransmitHandshake p.
Proof. destruct o; try done. cbn. by intros [->%bool_decide_eq_true ->%bool_decide_eq_true]%andb_prop. Qed.

Lemma fire_not_due e e' :
  due p e = false -> fire C W priorityMsgFn retransmitHandshake p e = Some (tt, e') -> e' = e.
Proof.
  unfold due, fire, bind at 1 2, get_rt, gets. destruct (runtimes e !! p) as [r|]; [|done]. red_bind.
  destruct (deadline (timers r) retransmitHandshake) as [t|]; [intros -> | intros _]; by intros [= <-].
Qed.

Lemma given_up_step o e e' :
  given_up e -> step C W priorityMsgFn o e = Some (tt, e') -> retransmission o || untouched e e' = true -> given_up e'.
Proof.
  intros [Ha Hs] H [Ho|Ho]%orb_prop.
  - apply retransmission_op in Ho as ->. apply fire_not_due in H as ->; [done | by apply armed_due].
  - unfold untouched in Ho. rewrite Ha, Hs in Ho. apply andb_prop in Ho as [[_ Ho]%andb_prop Hs']. split; [by destruct (armed e') | exact Hs'].
Qed.

Lemma given_up_run os e :
  undisturbed os e = true -> given_up e -> expiries os e = 0%nat /\
  forall e', run C W priorityMsgFn os e = Some (tt, e') -> given_up e'.
Proof.
  revert e. induction os as [|o os IH]; intros e Hu Hg; cbn [expiries undisturbed run] in *.
  { split; [done|]. by intros e' [= <-]. }
  unfold bind. destruct (step C W priorityMsgFn o e) as [[[] e1]|] eqn:H; [|done]. red_bind.
  apply andb_prop in Hu as [Ho Hu]. destruct (IH e1 Hu (given_up_step o e e1 Hg H Ho)) as [-> Hrun]. split; [|done].
  rewrite (armed_due e) by apply Hg. by rewrite andb_false_r.
Qed.

Lemma retries os e :
  undisturbed os e = true -> 0 <= attempts p e <= MaxTimerHandshakes + 1 ->
  Z.of_nat (expiries os e) <= MaxTimerHandshakes + 2 - attempts p e /\
  forall e', run C W priorityMsgFn os e = Some (tt, e') -> Z.of_nat (expiries os e) = MaxTimerHandshakes + 2 - attempts p e -> given_up e'.
Proof.
  revert e. induction os as [|o os IH]; intros e Hu Ha; cbn [expiries undisturbed run] in *.
  { split; [lia|]. intros e' _. lia. }
  unfold bind. destruct (step C W priorityMsgFn o e) as [[[] e1]|] eqn:H; [|split; [lia | done]]. red_bind.
  apply andb_prop in Hu as [Ho Hu]. destruct (retransmission o) eqn:Hre; cbn [andb orb] in *.
  - apply retransmission_op in Hre as ->. cbn [step] in H. destruct (due p e) eqn:Hd.
    + destruct (expiry e e1 Hd Ha H) as [[Hle Ha1] | (Hgt & Ha1 & r & Hr & Ht & Hs & _)].
      * destruct (IH e1 Hu) as [H1 H2]; [lia|]. split; [lia|]. intros e' Hrun Heq. apply H2; [done | lia].
      * assert (Hg : given_up e1) by (unfold given_up, armed, nothing_staged; rewrite Hr; cbn; by rewrite Ht, Hs).
        destruct (given_up_run os e1 Hu Hg) as [-> Hrun]. split; [lia|]. auto.
    + apply fire_not_due in H as ->; [|done]. by apply IH.
  - apply andb_prop in Ho as [[Heq%Z.eqb_eq _]%andb_prop _]. rewrite <- Heq in *. by apply IH.
Qed.

End Attempts.

(** C21. A peer that does not answer is given up.  In any run of the device, of
    whatever operations, in which nothing else happens to the peer's handshake
    (no other step changes the counter of attempts, arms the retransmission
    timer or stages a packet for the peer: new traffic for it would start the
    counting anew), the retransmission timer expires at most
    [MaxTimerHandshakes + 2] times, less the attempts already made; from the last
    time on it is not armed, and the packets waiting for a key are gone. *)
Theorem handshake_retries_bounded C W priorityMsgFn p os e :
  undisturbed C W priorityMsgFn p os e = true -> 0 <= attempts p e <= MaxTimerHandshakes + 1 ->
  Z.of_nat (expiries C W priorityMsgFn p os e) <= MaxTimerHandshakes + 2 - attempts p e /\
  forall e', run C W priorityMsgFn os e = Some (tt, e') ->
    Z.of_nat (expiries C W priorityMsgFn p os e) = MaxTimerHandshakes + 2 - attempts p e -> given_up p e'.
Proof. apply retries. Qed.

(** The first device of the example, whose peer is silent; meanwhile its routines
    find nothing to do, junk arrives and another peer is added. *)
Definition silence : list op :=
  OpNewPeer (repeat 7 32) ::
  concat (repeat [OpAdvance (6 * Second); OpFire retransmitHandshake 0%nat; OpEncrypt 0%nat; OpSend 0%nat;
                  OpReceive [(EngineProps.ep_b, repeat 9 60)]; OpHandshake; OpInbound 0%nat] 25).

Lemma handshake_retries_bounded_witness :
  exists e', run EngineProps.toyC EngineProps.toyW None silence (EngineProps.after EngineProps.waiting_ops EngineProps.start) = Some (tt, e') /\
    given_up 0%nat e'.
Proof.
  assert (Hu : undisturbed EngineProps.toyC EngineProps.toyW None 0%nat silence
                 (EngineProps.after EngineProps.waiting_ops EngineProps.start) = true) by (vm_compute; reflexivity).
  assert (Ha : 0 <= attempts 0%nat (EngineProps.after EngineProps.waiting_ops EngineProps.start) <= MaxTimerHandshakes + 1)
    by (vm_compute; split; discriminate).
  destruct (handshake_retries_bounded EngineProps.toyC EngineProps.toyW None 0%nat silence _ Hu Ha) as [_ Hlast].
  destruct (run EngineProps.toyC EngineProps.toyW None silence (EngineProps.after EngineProps.waiting_ops EngineProps.start))
    as [[[] e']|] eqn:H; [|exfalso; vm_compute in H; discriminate H].
  exists e'. split; [reflexivity|]. apply (Hlast e' eq_refl). vm_compute. reflexivity.
Defined.

End EngineTimers.
