(* ===== verification/UapiProps.v ===== *)
(** * Properties of the configuration protocol

    What the text protocol of Uapi.v does to a device: the configuration it leaves
    behind is valid, a rejected operation leaves the framing of packets alone, and
    the lines a device shows restore its settings on another. *)

From S2P Require Import Prelude Bits Bytes GoStrings GoNetip Replay Ratelimiter AllowedIPs MagicHeader.
From S2P Require Import ObfChain Messages Wire Tai64n Noise ToyCrypto Sessions Cookie Transport Runtime Engine Uapi Machine.
From S2P Require Import EngineSteps EngineInv EngineProps.

Module UapiProps.

Import Noise Runtime Engine Machine EngineSteps EngineInv EngineProps Uapi.

Local Open Scope Z_scope.
Local Open Scope engine_scope.

(** The part of the configuration that lays out packets: headers, paddings and the
    header protection key. *)
Definition framing (c : Config) : list (option MagicHeader.magicHeader) * list Z * option bytes :=
  let w := wire c in
  ([Wire.h_init w; Wire.h_response w; Wire.h_cookie w; Wire.h_transport w],
   [Wire.p_init w; Wire.p_response w; Wire.p_cookie w; Wire.p_transport w], Wire.hp_key w).

Section Properties.

Context (C : Primitives) (W : Oracles) (priorityMsgFn : option (bytes -> bytes)).

(** ** Rejected operations *)

Section Framed.

Context (F : list (option MagicHeader.magicHeader) * list Z * option bytes).

Abbreviation framed := (configured (fun c => framing c = F)).

Lemma framed_with_config f : (forall c, framing (f c) = framing c) -> keeps framed (with_config f).
Proof. intros Hf e a e' [= _ <-]. unfold configured. cbn. by rewrite Hf. Qed.

Lemma framed_handleDeviceLine d key value : keeps framed (handleDeviceLine C W priorityMsgFn d key value).
Proof.
  unfold handleDeviceLine, junk_line, chain_line, padding_line, header_line, set_port, throw, done. cbv zeta.
  repeat match goal with |- keeps _ (if bool_decide (key = ?k) then _ else _) => destruct (bool_decide (key = k)) end.
  all: try (apply keeps_parsed; intros ?).
  all: repeat match goal with
    | |- keeps _ (bind _ _) => apply keeps_bind; [|intros ?]
    | |- keeps _ (with_config _) => by apply framed_with_config
    | |- keeps _ (modify _) => by intros ? ? ? [= _ <-]
    | |- keeps _ (if ?b then _ else _) => destruct b
    | |- keeps _ (ret _) => apply keeps_ret
    end.
  all: try (apply (keeps_does C W priorityMsgFn); solve [eauto with steps]).
  - apply keeps_SetPrivateKey; apply _.
  - apply keeps_RemoveAllPeers; apply _.
Qed.

Lemma finish_error d peer e err e' : finish C W d peer e = Some (Some err, e') -> e' = e.
Proof.
  unfold finish, mergeWithDevice, bind, gets, throw, ret. red_bind.
  destruct (negb (valid_prefixes d)); red_bind; [by intros [= _ <-]|].
  destruct (negb (valid_headers _)); red_bind; [by intros [= _ <-]|].
  cbn. destruct (handlePostConfig C W peer _) as [[? ?]|]; red_bind; done.
Qed.

Lemma framed_set_lines lines failed d peer e err e' :
  Forall (fun line => fst (fst (Cut line equals)) <> str "public_key") lines ->
  set_lines C W priorityMsgFn lines failed d peer true e = Some (Some err, e') -> framed e -> framed e'.
Proof.
  intros Hl. revert d e. induction Hl as [|line lines Hline Hl IH]; intros d e; cbn [set_lines].
  { destruct failed; [by intros [= _ <-] | by intros ->%finish_error]. }
  case_bool_decide as He0; [by intros ->%finish_error|]. destruct (Cut line equals) as [[key value] ok'].
  destruct (negb ok'); [by intros [= _ <-]|]. case_bool_decide as Hk; [done|]. unfold bind.
  destruct (handleDeviceLine C W priorityMsgFn d key value e) as [[r e1]|] eqn:H; [|done]. red_bind. intros H' He.
  pose proof (framed_handleDeviceLine d key value e _ _ H He). destruct r; [by injection H' as _ <- | by eapply IH].
Qed.

End Framed.

(** C24. A set operation that is rejected for any reason (a line that is not
    understood, a value out of range, headers that overlap, a reader that fails,
    sockets that do not open) and that names no peer leaves the framing of packets
    as it was: headers, paddings and key are installed together or not at all. *)
Theorem rejected_set_keeps_framing input readErr e err e' :
  IpcSetOperation C W priorityMsgFn input readErr e = Some (Some err, e') ->
  Forall (fun line => fst (fst (Cut line equals)) <> str "public_key") (fst (Scan input)) ->
  framing (config e') = framing (config e).
Proof.
  unfold IpcSetOperation, bind, gets. red_bind. destruct (Scan input) as [lines long]. cbn [fst]. intros H Hl.
  by eapply (framed_set_lines (framing (config e))), eq_refl.
Qed.

(** ** A device's lines restore its settings *)

(** The lines of the device part of a get operation, one by one. *)
Abbreviation kvs := (list (string * bytes)).

Definition line_of (kv : string * bytes) : bytes := str (fst kv) ++ equals :: snd kv.

Definition lines_text (l : kvs) : bytes := flat_map (fun kv => text_line (fst kv) (snd kv)) l.

Definition unless (skip : bool) (key : string) (value : bytes) : kvs := if skip then [] else [(key, value)].

Definition header_kv (key : string) (h : option MagicHeader.magicHeader) : kvs :=
  match h with None => [] | Some h => [(key, MagicHeader.GenSpec h)] end.

Definition chain_kv (key : string) (c : option ObfChain.obfChain) : kvs :=
  match c with None => [] | Some c => [(key, ObfChain.Spec c)] end.

Definition key_kv (k : option bytes) : kvs :=
  match k with Some key => unless (Wire.key_is_zero key) "header_protection_key" (hex_EncodeToString key) | None => [] end.

Definition wire_kvs (w : Wire.wireState) : kvs :=
  unless (Wire.p_init w =? 0) "s1" (FormatInt (Wire.p_init w)) ++
  unless (Wire.p_response w =? 0) "s2" (FormatInt (Wire.p_response w)) ++
  unless (Wire.p_cookie w =? 0) "s3" (FormatInt (Wire.p_cookie w)) ++
  unless (Wire.p_transport w =? 0) "s4" (FormatInt (Wire.p_transport w)) ++
  header_kv "h1" (Wire.h_init w) ++ header_kv "h2" (Wire.h_response w) ++
  header_kv "h3" (Wire.h_cookie w) ++ header_kv "h4" (Wire.h_transport w).

Definition chains_kvs (cs : list (option ObfChain.obfChain)) : kvs :=
  match cs with
  | [c1; c2; c3; c4; c5] => chain_kv "i1" c1 ++ chain_kv "i2" c2 ++ chain_kv "i3" c3 ++ chain_kv "i4" c4 ++ chain_kv "i5" c5
  | _ => []
  end.

Definition junk_kvs (j : Junk) : kvs :=
  unless (j_count j =? 0) "jc" (FormatInt (j_count j)) ++ unless (j_min j =? 0) "jmin" (FormatInt (j_min j)) ++
  unless (j_max j =? 0) "jmax" (FormatInt (j_max j)).

Definition tail_kvs (c : Config) : kvs :=
  unless (negb (Wire.randomTrailers (wire c))) "random_trailers" (str "true") ++
  unless (negb (disableCookies c)) "disable_cookies" (str "true") ++
  key_kv (Wire.hp_key (wire c)) ++
  unless (MagicHeader.IsZero (contentPaddingAddition c)) "content_padding_addition" (MagicHeader.ToString (contentPaddingAddition c)) ++
  unless (MagicHeader.IsZero (rekeyAfterTimeSec c)) "rekey_after_time" (MagicHeader.ToString (rekeyAfterTimeSec c)).

Definition device_kvs (e : Engine) : kvs :=
  unless (isZero (privateKey (dev e))) "private_key" (hex_EncodeToString (privateKey (dev e))) ++
  unless (port (net e) =? 0) "listen_port" (FormatUint (port (net e))) ++
  unless (fwmark (net e) =? 0) "fwmark" (FormatUint (fwmark (net e))) ++
  junk_kvs (junk (config e)) ++ wire_kvs (wire (config e)) ++ chains_kvs (ipackets (config e)) ++ tail_kvs (config e).

Lemma lines_text_app l1 l2 : lines_text (l1 ++ l2) = lines_text l1 ++ lines_text l2.
Proof. apply flat_map_app. Qed.

Lemma unless_text skip key value : lines_text (unless skip key value) = sendf_unless skip key value.
Proof. destruct skip; [done|]. apply app_nil_r. Qed.

Lemma header_kv_text key h : lines_text (header_kv key h) = header_text key h.
Proof. destruct h; [|done]. apply app_nil_r. Qed.

Lemma chain_kv_text key c : lines_text (chain_kv key c) = chain_text key c.
Proof. destruct c; [|done]. apply app_nil_r. Qed.

Lemma key_kv_text k : lines_text (key_kv k) = key_text k.
Proof. destruct k; [apply unless_text | done]. Qed.

Lemma chains_kvs_text cs : lines_text (chains_kvs cs) = chains_text cs.
Proof.
  unfold chains_kvs, chains_text. repeat case_match; try done. by rewrite !lines_text_app, !chain_kv_text.
Qed.

Lemma device_kvs_text e : lines_text (device_kvs e) = device_text e.
Proof.
  unfold device_kvs, device_text, junk_kvs, junk_text, wire_kvs, wire_text, tail_kvs. cbv zeta.
  by rewrite !lines_text_app, !unless_text, !header_kv_text, chains_kvs_text, key_kv_text.
Qed.

(** *** Reading the lines back *)

Lemma many : (500 < MaxScanTokenSize)%nat.
Proof. apply Nat.ltb_lt. vm_compute. reflexivity. Qed.

(** A line that the scanner gives back as it is. *)
Definition shown (kv : string * bytes) : Prop := line_ok (line_of kv) /\ list.last (line_of kv) <> Some 13.

(** A key of a device line. *)
Definition device_key (key : string) : bool :=
  forallb graphic (str key) && (length (str key) <=? 100)%nat && negb (bool_decide (equals ∈ str key)) &&
  negb (bool_decide (str key = str "public_key")).

Lemma dropCR_id line : list.last line <> Some 13 -> dropCR line = line.
Proof. unfold dropCR. destruct (list.last line) as [x|]; [|done]. intros H. repeat case_match; congruence. Qed.

Lemma Scan_text l : Forall shown l -> Scan (lines_text l) = (map line_of l, false).
Proof.
  unfold Scan. induction 1 as [|[key value] l [[Hn Hl] Hc] Hls IH]; [done|]. cbn [lines_text flat_map fst snd].
  assert (E : text_line key value ++ flat_map (fun kv => text_line (fst kv) (snd kv)) l = line_of (key, value) ++ newline :: lines_text l).
  { unfold text_line, line_of. cbn. by rewrite <- !app_assoc; cbn; rewrite <- app_assoc. }
  rewrite E, Split_app by done. pose proof (Split_not_nil (lines_text l) newline) as Hs.
  destruct (Split (lines_text l) newline) as [|s ss]; [done|].
  change (scan_lines (line_of (key, value) :: s :: ss)) with
    (if (MaxScanTokenSize <=? length (line_of (key, value)))%nat then ([], true)
     else let '(ls, long) := scan_lines (s :: ss) in (dropCR (line_of (key, value)) :: ls, long)).
  destruct (Nat.leb_spec MaxScanTokenSize (length (line_of (key, value)))); [lia|]. by rewrite IH, dropCR_id.
Qed.

Lemma graphic_bytes s : forallb graphic s = true -> newline ∉ s /\ list.last s <> Some 13.
Proof.
  rewrite forallb_forall. intros Hs. split; [|intros [l ->]%last_Some].
  - intros Hn%list_elem_of_In%Hs. done.
  - specialize (Hs 13). rewrite in_app_iff in Hs. cbn in Hs. discriminate Hs. by right; left.
Qed.

Lemma shown_graphic key value :
  device_key key = true -> forallb graphic value = true -> (length value <= 300)%nat -> shown (key, value).
Proof.
  unfold device_key. rewrite !andb_true_iff, Nat.leb_le. intros [[[Hk Hl] _] _] Hv Hl'.
  destruct (graphic_bytes (line_of (key, value))) as [Hn Hc]; [|split; [split|]; try done].
  - unfold line_of. rewrite forallb_app. apply andb_true_iff. split; [done|]. by cbn.
  - pose proof many. unfold line_of. rewrite length_app, length_cons. cbn [fst snd]. lia.
Qed.

(** A series of device lines. *)
Fixpoint set_device (l : kvs) (d : ipcSetDevice) (e : Engine) : option (ipcSetDevice * Engine) :=
  match l with
  | [] => Some (d, e)
  | (key, value) :: l' =>
      match handleDeviceLine C W priorityMsgFn d (str key) value e with
      | Some (inr d', e') => set_device l' d' e'
      | _ => None
      end
  end.

Lemma set_device_app l1 l2 d e : set_device (l1 ++ l2) d e = '(d', e') ← set_device l1 d e; set_device l2 d' e'.
Proof.
  revert d e. induction l1 as [|[key value] l1 IH]; intros d e; [done|]. cbn [app set_device].
  destruct (handleDeviceLine _ _ _ _ _ _ _) as [[[?|?] ?]|]; [done | apply IH | done].
Qed.

Lemma set_lines_device l failed d e d' e' peer :
  Forall (fun kv => device_key (fst kv) = true) l -> set_device l d e = Some (d', e') ->
  set_lines C W priorityMsgFn (map line_of l) failed d peer true e = set_lines C W priorityMsgFn [] failed d' peer true e'.
Proof.
  intros Hl. revert d e. induction Hl as [|[key value] l Hk Hl IH]; intros d e; [by intros [= <- <-]|].
  unfold device_key in Hk. rewrite !andb_true_iff, !negb_true_iff in Hk. cbn [fst] in Hk. destruct Hk as [[_ He] Hp].
  cbn [set_device map set_lines]. apply bool_decide_eq_false_1 in He.
  rewrite (bool_decide_eq_false_2 (line_of (key, value) = [])) by (intros E%(f_equal length); unfold line_of in E; rewrite length_app in E; cbn in E; lia).
  unfold line_of at 1. rewrite Cut_app by done. cbn [fst snd negb]. rewrite Hp. unfold bind.
  destruct (handleDeviceLine _ _ _ _ _ _ _) as [[[?|?] ?]|]; [done | apply IH | done].
Qed.

(** *** One setting at a time *)

Lemma set_number key n f d e :
  (forall v, handleDeviceLine C W priorityMsgFn d (str key) v e = padding_line v f e) -> 0 <= n < 2 ^ 63 -> (n = 0 -> f n = d) ->
  set_device (unless (n =? 0) key (FormatInt n)) d e = Some (f n, e).
Proof.
  intros Hl Hn H0. destruct (Z.eqb_spec n 0) as [E|]; [by rewrite (H0 E)|]. cbn [unless set_device]. rewrite Hl. unfold padding_line, parsed, FormatInt.
  destruct (Z.ltb_spec n 0); [lia|]. rewrite Atoi_Format by lia. by destruct (Z.ltb_spec n 0); [lia|].
Qed.

Lemma set_junk_number key n f d e :
  (forall v, handleDeviceLine C W priorityMsgFn d (str key) v e = junk_line v d f e) -> 0 <= n < 2 ^ 63 ->
  (n = 0 -> f (junk (config e)) n = junk (config e)) ->
  set_device (unless (n =? 0) key (FormatInt n)) d e = Some (d, set_config e (c_junk (config e) (f (junk (config e)) n))).
Proof.
  intros Hl Hn H0. destruct (Z.eqb_spec n 0) as [E|]; [rewrite (H0 E); by destruct e as [[] ? ? ? ? ? ? ? ? ? ? ? ?]|].
  cbn [unless set_device]. rewrite Hl. unfold junk_line, parsed, FormatInt.
  destruct (Z.ltb_spec n 0); [lia|]. rewrite Atoi_Format by lia. by destruct (Z.leb_spec n 0); [lia|].
Qed.

Lemma set_header key h f d e :
  (forall v, handleDeviceLine C W priorityMsgFn d (str key) v e = header_line v f e) -> MagicHeader.wf_header h ->
  set_device (header_kv key (Some h)) d e = Some (f (Some h), e).
Proof. intros Hl Hh. cbn [header_kv set_device]. rewrite Hl. unfold header_line, parsed. by rewrite MagicHeader.spec_roundtrip. Qed.

Lemma set_chain key c i d e :
  (forall v, handleDeviceLine C W priorityMsgFn d (str key) v e = chain_line v d i e) -> chain_wf c ->
  ipackets (config e) !! i = Some None ->
  set_device (chain_kv key c) d e = Some (d, set_config e (c_ipackets (config e) (<[i := c]> (ipackets (config e))))).
Proof.
  intros Hl Hc Hi. destruct c as [c|]; [|by rewrite list_insert_id; [destruct e as [[] ? ? ? ? ? ? ? ? ? ? ? ?]|]].
  cbn [chain_kv set_device]. rewrite Hl. unfold chain_line, parsed. destruct (Hc c eq_refl) as [-> _]. done.
Qed.

Lemma set_range key r f d e :
  (forall v, handleDeviceLine C W priorityMsgFn d (str key) v e =
     parsed (MagicHeader.FromString v) (fun r => let* _ := with_config (fun c => f c r) in done d) e) ->
  range_wf r -> f (config e) 0 = config e ->
  set_device (unless (MagicHeader.IsZero r) key (MagicHeader.ToString r)) d e = Some (d, set_config e (f (config e) r)).
Proof.
  intros Hl (Hlo & Hhi & E) H0. unfold MagicHeader.IsZero. destruct (Z.eqb_spec r 0) as [->|]; [by rewrite H0; destruct e|].
  cbn [unless set_device]. rewrite Hl. unfold parsed. rewrite E, MagicHeader.range_roundtrip by lia. by rewrite <- E.
Qed.

Lemma set_flag key b f d e :
  (forall v, handleDeviceLine C W priorityMsgFn d (str key) v e =
     parsed (ParseBool v) (fun b => let* _ := with_config (fun c => f c b) in done d) e) ->
  f (config e) false = config e ->
  set_device (unless (negb b) key (str "true")) d e = Some (d, set_config e (f (config e) b)).
Proof. intros Hl H0. destruct b; [|by cbn; rewrite H0; destruct e]. cbn [unless negb set_device]. by rewrite Hl. Qed.

(** A key of zeros is not shown. *)
Definition shown_key (k : option bytes) : option bytes :=
  match k with Some key => if Wire.key_is_zero key then None else Some key | None => None end.

Lemma loadExactHex_Encode key size : length key = size -> Forall is_u8 key -> loadExactHex size (hex_EncodeToString key) = Some key.
Proof. intros Hl Hk. unfold loadExactHex. rewrite hex_roundtrip by done. cbn. by rewrite bool_decide_eq_true_2. Qed.

Lemma set_protection k d e : key_wf k -> sd_headerProtectionKey d = None -> set_device (key_kv k) d e = Some (set_key d (shown_key k), e).
Proof.
  intros Hk Hd. assert (set_key d None = d) as E by (destruct d; cbn in *; by subst).
  destruct k as [key|]; cbn [key_kv shown_key]; [|by rewrite E]. destruct (Wire.key_is_zero key); cbn [unless]; [by rewrite E|].
  cbn [set_device]. destruct (Hk key eq_refl) as [Hl Hu].
  change (handleDeviceLine C W priorityMsgFn d (str "header_protection_key") ?v e) with
    (parsed (HeaderCipherKey_FromHex v) (fun k => done (set_key d (Some k))) e).
  unfold HeaderCipherKey_FromHex, parsed. by rewrite loadExactHex_Encode.
Qed.

(** *** What is valid is accepted *)

Lemma prefix_valid protected prefix core :
  0 <= prefix -> prefix + Z.of_nat core <= ObfChain.awgMaxPacketSize -> (protected = true -> Wire.HeaderCipherNonceSize <= prefix) ->
  valid_prefix protected prefix core = true.
Proof.
  intros H0 Hm Hp. unfold valid_prefix. rewrite Wire.awgPacketSize_some by lia.
  rewrite (bool_decide_eq_true_2 (is_Some _)) by done. destruct protected; [|done]. cbn. specialize (Hp eq_refl).
  by destruct (Z.ltb_spec prefix Wire.HeaderCipherNonceSize); [lia|].
Qed.

Lemma apart a b : Wire.disjoint a b -> negb (overlap a b) = true.
Proof. unfold Wire.disjoint, overlap. rewrite negb_true_iff, andb_false_iff, !Z.leb_gt. lia. Qed.

Lemma narrow h : MagicHeader.wf_header h -> ~ MagicHeader.full_width h ->
  negb (u64 (u64 (MagicHeader.end_ h - MagicHeader.start h) + 1) =? 2 ^ 32) = true.
Proof.
  unfold MagicHeader.wf_header, MagicHeader.full_width. rewrite negb_true_iff, Z.eqb_neq. intros Hw.
  rewrite (u64_small (_ - _)), u64_small by (unfold is_u64, is_u; lia). lia.
Qed.

Definition of_wire (w : Wire.wireState) (k : option bytes) : ipcSetDevice :=
  mkSetDevice (Wire.p_init w) (Wire.p_response w) (Wire.p_cookie w) (Wire.p_transport w) k
    (Wire.h_init w) (Wire.h_response w) (Wire.h_cookie w) (Wire.h_transport w).

Lemma wire_accepted w :
  Wire.wire_ok w -> valid_prefixes (of_wire w (shown_key (Wire.hp_key w))) = true /\ valid_headers (headers_of (of_wire w (shown_key (Wire.hp_key w)))) = true.
Proof.
  intros [Hp [Hh Hd]]. split.
  - assert (E : (match shown_key (Wire.hp_key w) with Some key => negb (Wire.key_is_zero key) | None => false end) = Wire.protected w).
    { unfold Wire.protected, shown_key. destruct (Wire.hp_key w) as [key|]; [|done]. by destruct (Wire.key_is_zero key) eqn:Hk; cbn; rewrite ?Hk. }
    unfold valid_prefixes. cbn [sd_headerProtectionKey sd_p_init sd_p_response sd_p_cookie sd_p_transport of_wire]. rewrite E, !andb_true_iff.
    split_and!; [destruct (Hp 1) as (? & ? & ?) | destruct (Hp 2) as (? & ? & ?) | destruct (Hp 3) as (? & ? & ?) | destruct (Hp 4) as (? & ? & ?)];
      try (unfold Wire.is_type; lia); by apply prefix_valid.
  - destruct (Hh 1) as (h1 & E1 & W1 & F1), (Hh 2) as (h2 & E2 & W2 & F2), (Hh 3) as (h3 & E3 & W3 & F3), (Hh 4) as (h4 & E4 & W4 & F4);
      try (unfold Wire.is_type; lia). cbn in E1, E2, E3, E4.
    assert (Ha : forall t1 t2 a b, Wire.is_type t1 -> Wire.is_type t2 -> t1 <> t2 -> Wire.header_of w t1 = Some a ->
      Wire.header_of w t2 = Some b -> negb (overlap a b) = true) by (intros t1 t2 a b; intros; by apply apart, (Hd t1 t2)).
    unfold headers_of. cbn [sd_h_init sd_h_response sd_h_cookie sd_h_transport of_wire]. rewrite E1, E2, E3, E4. cbn [valid_headers forallb].
    rewrite !narrow by done.
    rewrite (Ha 1 2 h1 h2), (Ha 1 3 h1 h3), (Ha 1 4 h1 h4), (Ha 2 3 h2 h3), (Ha 2 4 h2 h4), (Ha 3 4 h3 h4);
      done || (unfold Wire.is_type; lia).
Qed.

(** *** All settings *)

(** A configuration that was never set. *)
Definition fresh_config (mtu : Z) : Config := config (NewDevice mtu 0).

Definition restored (c : Config) (mtu : Z) : Config :=
  mkConfig (install (of_wire (wire c) (shown_key (Wire.hp_key (wire c)))) (wire c)) (junk c) (ipackets c) (contentPaddingAddition c)
    (rekeyAfterTimeSec c) (disableCookies c) mtu.

Definition blank : ipcSetDevice := mkSetDevice 0 0 0 0 None None None None None.

Ltac next H := rewrite set_device_app, H; cbn [mbind option_bind].

Lemma set_junks j d e :
  junk_wf j -> junk (config e) = mkJunk 0 0 0 -> set_device (junk_kvs j) d e = Some (d, set_config e (c_junk (config e) j)).
Proof.
  unfold junk_wf. rewrite !list.Forall_cons. intros (Hc & Hm & Hx & _) He. unfold junk_kvs.
  next (set_junk_number "jc" (j_count j) (fun j n => mkJunk n (j_min j) (j_max j)) d e); [|done|done|by intros ->; rewrite He].
  next (set_junk_number "jmin" (j_min j) (fun j n => mkJunk (j_count j) n (j_max j)) d); [|done|done|by intros ->; cbn; rewrite He].
  rewrite (set_junk_number "jmax" (j_max j) (fun j n => mkJunk (j_count j) (j_min j) n) d); [|done|done|by intros ->; cbn; rewrite He].
  by destruct j.
Qed.

Lemma set_wires w e : Wire.wire_ok w -> set_device (wire_kvs w) blank e = Some (of_wire w None, e).
Proof.
  intros [Hp [Hh _]]. pose proof eq_refl : ObfChain.awgMaxPacketSize = 65507.
  assert (Hn : forall t, Wire.is_type t -> 0 <= Wire.padding_of w t < 2 ^ 63) by (intros t Ht; destruct (Hp t Ht) as (? & ? & _); lia).
  destruct (Hh 1) as (h1 & E1 & W1 & _), (Hh 2) as (h2 & E2 & W2 & _), (Hh 3) as (h3 & E3 & W3 & _), (Hh 4) as (h4 & E4 & W4 & _);
    try (unfold Wire.is_type; lia). cbn in E1, E2, E3, E4.
  unfold wire_kvs, of_wire. rewrite E1, E2, E3, E4.
  next (set_number "s1" (Wire.p_init w) (fun n => set_paddings blank n 0 0 0) blank e); [|done | apply (Hn 1); unfold Wire.is_type; lia | by intros ->].
  set (d1 := set_paddings _ _ _ _ _).
  next (set_number "s2" (Wire.p_response w) (fun n => set_paddings d1 (Wire.p_init w) n 0 0) d1 e); [|done | apply (Hn 2); unfold Wire.is_type; lia | by intros ->].
  set (d2 := set_paddings d1 _ _ _ _).
  next (set_number "s3" (Wire.p_cookie w) (fun n => set_paddings d2 (Wire.p_init w) (Wire.p_response w) n 0) d2 e); [|done | apply (Hn 3); unfold Wire.is_type; lia | by intros ->].
  set (d3 := set_paddings d2 _ _ _ _).
  next (set_number "s4" (Wire.p_transport w) (fun n => set_paddings d3 (Wire.p_init w) (Wire.p_response w) (Wire.p_cookie w) n) d3 e); [|done | apply (Hn 4); unfold Wire.is_type; lia | by intros ->].
  set (d4 := set_paddings d3 _ _ _ _).
  next (set_header "h1" h1 (fun h => set_headers d4 h None None None) d4 e); [|done..]. set (d5 := set_headers _ _ _ _ _).
  next (set_header "h2" h2 (fun h => set_headers d5 (Some h1) h None None) d5 e); [|done..]. set (d6 := set_headers d5 _ _ _ _).
  next (set_header "h3" h3 (fun h => set_headers d6 (Some h1) (Some h2) h None) d6 e); [|done..]. set (d7 := set_headers d6 _ _ _ _).
  by rewrite (set_header "h4" h4 (fun h => set_headers d7 (Some h1) (Some h2) (Some h3) h) d7 e).
Qed.

Lemma set_chains cs d e :
  length cs = 5%nat -> Forall chain_wf cs -> ipackets (config e) = repeat None 5 ->
  set_device (chains_kvs cs) d e = Some (d, set_config e (c_ipackets (config e) cs)).
Proof.
  destruct cs as [|c1 [|c2 [|c3 [|c4 [|c5 [|]]]]]]; try done. intros _. rewrite !list.Forall_cons. intros (W1 & W2 & W3 & W4 & W5 & _) He.
  unfold chains_kvs.
  next (set_chain "i1" c1 0 d e); [|done | done | by rewrite He].
  next (set_chain "i2" c2 1 d); [|done | done | by cbn; rewrite He].
  next (set_chain "i3" c3 2 d); [|done | done | by cbn; rewrite He].
  next (set_chain "i4" c4 3 d); [|done | done | by cbn; rewrite He].
  rewrite (set_chain "i5" c5 4 d); [|done | done | by cbn; rewrite He]. cbn. by rewrite He.
Qed.

Lemma set_tail c d e :
  key_wf (Wire.hp_key (wire c)) -> range_wf (contentPaddingAddition c) -> range_wf (rekeyAfterTimeSec c) ->
  sd_headerProtectionKey d = None -> Wire.randomTrailers (wire (config e)) = false -> disableCookies (config e) = false ->
  contentPaddingAddition (config e) = 0 -> rekeyAfterTimeSec (config e) = 0 ->
  set_device (tail_kvs c) d e = Some (set_key d (shown_key (Wire.hp_key (wire c))),
    set_config e (mkConfig (w_trailers (wire (config e)) (Wire.randomTrailers (wire c))) (junk (config e)) (ipackets (config e))
      (contentPaddingAddition c) (rekeyAfterTimeSec c) (disableCookies c) (mtu (config e)))).
Proof.
  intros Hk Ha Hr Hd Ht Hc Ha0 Hr0. unfold tail_kvs. destruct e as [c0 ? ? ? ? ? ? ? ? ? ? ? ?], c0 as [w0 ? ? ? ? ? ?], w0. cbn in Ht, Hc, Ha0, Hr0. subst.
  next (set_flag "random_trailers" (Wire.randomTrailers (wire c)) (fun c b => c_wire c (w_trailers (wire c) b)) d); [|done..].
  next (set_flag "disable_cookies" (disableCookies c) c_cookies d); [|done..].
  next (set_protection (Wire.hp_key (wire c)) d); [|done..].
  next (set_range "content_padding_addition" (contentPaddingAddition c) c_addition (set_key d (shown_key (Wire.hp_key (wire c))))); [|done..].
  by rewrite (set_range "rekey_after_time" (rekeyAfterTimeSec c) c_rekey).
Qed.

(** A private key the protocol can set. *)
Definition private_ok (sk : bytes) : Prop := length sk = 32%nat /\ Forall is_u8 sk /\ (isZero sk = true \/ clamp sk = sk).

(** A device without peers that was never up, with its identity and sockets set. *)
Record newly (m : Z) (sk : bytes) (n : Net) (e : Engine) : Prop := {
  new_config : config e = fresh_config m;
  new_key : privateKey (dev e) = sk;
  new_peers : keyMap (dev e) = ∅;
  new_state : dstate e = deviceStateDown;
  new_net : net e = n
}.

Lemma newly_NewDevice m now : newly m (zeros 32) (mkNet 0 0 false) (NewDevice m now).
Proof. done. Qed.

Lemma set_identity m sk n d e :
  private_ok sk -> newly m (zeros 32) n e ->
  exists e', set_device (unless (isZero sk) "private_key" (hex_EncodeToString sk)) d e = Some (d, e') /\ newly m sk n e'.
Proof.
  intros (Hl & Hu & Hz) He. destruct (isZero sk) eqn:Hsk; cbn [unless set_device].
  { exists e. split; [done|]. replace sk with (zeros 32); [done|]. unfold isZero in Hsk. rewrite forallb_forall in Hsk.
    unfold zeros. rewrite <- Hl. symmetry. apply Forall_eq_repeat, Forall_forall. intros x Hx%Hsk. lia. }
  destruct Hz as [|Hc]; [done|]. change (handleDeviceLine C W priorityMsgFn d (str "private_key") ?v e) with
    (parsed (NoisePrivateKey_FromMaybeZeroHex v) (fun sk => let* _ := SetPrivateKey C W priorityMsgFn sk in done d) e).
  unfold NoisePrivateKey_FromMaybeZeroHex. rewrite loadExactHex_Encode by done. cbn [mbind option_bind]. rewrite Hsk, Hc. cbn [parsed].
  destruct He as [E1 E2 E3 E4 E5]. unfold SetPrivateKey, bind, gets, ret. red_bind.
  rewrite (bool_decide_eq_false_2 (sk = privateKey (dev e))) by (rewrite E2; intros ->; done).
  unfold self_peers. rewrite E3, map_to_list_empty. cbn. rewrite E3, map_to_list_empty. cbn. by eexists.
Qed.

Lemma set_listen m sk k n d e :
  (forall i, o_bind W i = false) -> is_u 16 n -> newly m sk (mkNet 0 k false) e ->
  exists e', set_device (unless (n =? 0) "listen_port" (FormatUint n)) d e = Some (d, e') /\ newly m sk (mkNet n k false) e'.
Proof.
  intros HW Hn He. destruct (Z.eqb_spec n 0) as [->|]; [by exists e|]. cbn [unless set_device].
  change (handleDeviceLine C W priorityMsgFn d (str "listen_port") ?v e) with
    (parsed (ParseUint v 16) (fun n => let* _ := set_port n in let* err := BindUpdate W in if err : bool then throw IpcErrorPortInUse else done d) e).
  rewrite ParseUint_Format by done. destruct He as [E1 E2 E3 E4 E5]. unfold parsed, set_port, BindUpdate, bind, call, gets, modify, ret. red_bind.
  rewrite HW. unfold isUp. cbn. rewrite E4, E5. cbn. by eexists.
Qed.

Lemma set_mark m sk p n d e :
  is_u 32 n -> newly m sk (mkNet p 0 false) e ->
  exists e', set_device (unless (n =? 0) "fwmark" (FormatUint n)) d e = Some (d, e') /\ newly m sk (mkNet p n false) e'.
Proof.
  intros Hn He. destruct (Z.eqb_spec n 0) as [->|]; [by exists e|]. cbn [unless set_device].
  change (handleDeviceLine C W priorityMsgFn d (str "fwmark") ?v e) with
    (parsed (ParseUint v 32) (fun mark => let* err := BindSetMark W mark in if err : bool then throw IpcErrorPortInUse else done d) e).
  rewrite ParseUint_Format by done. destruct He as [E1 E2 E3 E4 E5].
  unfold parsed, BindSetMark, set_fwmark, clear_sources, all_peers, bind, gets, modify, ret. red_bind. rewrite E5. cbn [fwmark].
  destruct (Z.eqb_spec 0 n); [lia|]. red_bind. unfold isUp. cbn. rewrite E4, (bool_decide_eq_false_2 (deviceStateDown = deviceStateUp)) by done. cbn.
  rewrite E3, map_to_list_empty. cbn. rewrite E5. by eexists.
Qed.

(** *** The lines are printable *)

Lemma FormatUint_length n : (length (FormatUint n) <= S (Z.to_nat (Z.log2 n)))%nat.
Proof.
  unfold FormatUint. generalize (S (Z.to_nat (Z.log2 n))). intros f. revert n. induction f as [|f IH]; intros n; cbn [dec_digits]; [done|].
  case_match; cbn; [lia|]. rewrite length_app. specialize (IH (n / 10)). cbn. lia.
Qed.

Lemma shown_number key n : device_key key = true -> 0 <= n < 2 ^ 63 -> shown (key, FormatUint n).
Proof.
  intros Hk Hn. apply shown_graphic; [done | apply digits_graphic, FormatUint_digit; lia|].
  pose proof (FormatUint_length n). assert (Z.log2 n < 63) by (destruct (Z.eq_dec n 0) as [->|]; [done | apply Z.log2_lt_pow2; lia]). lia.
Qed.

Definition good (kv : string * bytes) : Prop := device_key (fst kv) = true /\ shown kv.

Lemma good_unless skip key value : device_key key = true -> (skip = false -> shown (key, value)) -> Forall good (unless skip key value).
Proof. intros Hk Hs. destruct skip; [constructor|]. apply Forall_singleton. split; [done | by apply Hs]. Qed.

Lemma good_number key n : device_key key = true -> 0 <= n < 2 ^ 63 -> Forall good (unless (n =? 0) key (FormatInt n)).
Proof.
  intros Hk Hn. apply good_unless; [done|]. intros _. unfold FormatInt. destruct (Z.ltb_spec n 0); [lia|]. by apply shown_number.
Qed.

Lemma print_range_graphic lo hi :
  0 <= lo < 2 ^ 32 -> 0 <= hi < 2 ^ 32 -> forallb graphic (MagicHeader.print_range lo hi) = true /\ (length (MagicHeader.print_range lo hi) <= 300)%nat.
Proof.
  intros Hlo Hhi. assert (Hn : forall n, 0 <= n < 2 ^ 32 -> forallb graphic (FormatUint n) = true /\ (length (FormatUint n) <= 100)%nat).
  { intros n Hn. split; [apply digits_graphic, FormatUint_digit; lia|]. pose proof (FormatUint_length n).
    assert (Z.log2 n < 32) by (destruct (Z.eq_dec n 0) as [->|]; [done | apply Z.log2_lt_pow2; lia]). lia. }
  destruct (Hn lo Hlo) as [G1 L1], (Hn hi Hhi) as [G2 L2]. unfold MagicHeader.print_range. destruct (lo =? hi); [split; [done | lia]|].
  rewrite !forallb_app, !length_app, G1, G2. split; [done | cbn [length]; lia].
Qed.

Lemma good_header key h : device_key key = true -> wf_opt h -> Forall good (header_kv key h).
Proof.
  intros Hk Hh. destruct h as [h|]; [|constructor]. apply Forall_singleton. split; [done|]. specialize (Hh h eq_refl). unfold MagicHeader.wf_header in Hh.
  destruct (print_range_graphic (MagicHeader.start h) (MagicHeader.end_ h)) as [Hg Hl]; [lia..|]. by apply shown_graphic.
Qed.

Lemma good_range key r : device_key key = true -> range_wf r -> Forall good (unless (MagicHeader.IsZero r) key (MagicHeader.ToString r)).
Proof.
  intros Hk (Hlo & Hhi & _). apply good_unless; [done|]. intros _.
  destruct (print_range_graphic (MagicHeader.Lo r) (MagicHeader.Hi r)) as [Hg Hl]; [lia..|]. by apply shown_graphic.
Qed.

Lemma good_hex skip key x : device_key key = true -> length x = 32%nat -> Forall is_u8 x -> Forall good (unless skip key (hex_EncodeToString x)).
Proof.
  intros Hk Hl Hx. apply good_unless; [done|]. intros _. apply shown_graphic; [done | by apply hex_Encode_graphic | rewrite hex_Encode_length; lia].
Qed.

Lemma good_chain key c :
  device_key key = true -> length (str key) = 2%nat -> chain_wf c -> (forall x, c = Some x -> list.last (ObfChain.Spec x) <> Some 13) ->
  Forall good (chain_kv key c).
Proof.
  intros Hk Hl Hc Hcr. destruct c as [c|]; [|constructor]. destruct (Hc c eq_refl) as (_ & Hn & Hlen). specialize (Hcr c eq_refl).
  apply Forall_singleton. split; [done|]. split; [split|]; unfold line_of; cbn [fst snd].
  - rewrite elem_of_app, elem_of_cons. unfold device_key in Hk. rewrite !andb_true_iff in Hk. destruct Hk as [[[Hg _] _] _].
    apply graphic_bytes in Hg as [Hg _]. by intros [?|[?|?]].
  - rewrite length_app, length_cons, Hl. lia.
  - rewrite last_app, last_cons. by destruct (list.last (ObfChain.Spec c)).
Qed.

Lemma good_device e :
  config_ok (config e) -> private_ok (privateKey (dev e)) -> is_u 16 (port (net e)) -> is_u 32 (fwmark (net e)) ->
  Forall (fun c => forall x, c = Some x -> list.last (ObfChain.Spec x) <> Some 13) (ipackets (config e)) ->
  Forall good (device_kvs e).
Proof.
  intros [Hw Hk Hj [Hl Hc] [Ha Hr]] (Hs1 & Hs2 & _) Hp Hm Hcr. unfold is_u in Hp, Hm.
  unfold device_kvs, junk_kvs, wire_kvs, tail_kvs, chains_kvs. rewrite !Forall_app.
  unfold junk_wf in Hj. rewrite !list.Forall_cons in Hj. destruct Hj as (J1 & J2 & J3 & _).
  pose proof (wire_headers_wf _ Hw) as Hh. rewrite !list.Forall_cons in Hh. destruct Hh as (W1 & W2 & W3 & W4 & _). destruct Hw as [Hpad _].
  pose proof eq_refl : ObfChain.awgMaxPacketSize = 65507.
  assert (Hn : forall t, Wire.is_type t -> 0 <= Wire.padding_of (wire (config e)) t < 2 ^ 63) by (intros t Ht; destruct (Hpad t Ht) as (? & ? & _); lia).
  split_and!; try (by apply good_header); try (by apply good_number); try (by apply good_hex); try (by apply good_range).
  1, 2: apply good_unless; [done|]; intros _; apply shown_number; [done | lia].
  - apply good_number; [done | apply (Hn 1); unfold Wire.is_type; lia].
  - apply good_number; [done | apply (Hn 2); unfold Wire.is_type; lia].
  - apply good_number; [done | apply (Hn 3); unfold Wire.is_type; lia].
  - apply good_number; [done | apply (Hn 4); unfold Wire.is_type; lia].
  - destruct (ipackets (config e)) as [|c1 [|c2 [|c3 [|c4 [|c5 [|]]]]]]; try done. rewrite !list.Forall_cons in Hc, Hcr.
    destruct Hc as (? & ? & ? & ? & ? & _), Hcr as (? & ? & ? & ? & ? & _). rewrite !Forall_app. split_and!; by apply good_chain.
  - apply good_unless; [done|]. intros _. by apply shown_graphic; [| |cbn; lia].
  - apply good_unless; [done|]. intros _. by apply shown_graphic; [| |cbn; lia].
  - destruct (Wire.hp_key (wire (config e))) as [k|]; [|constructor]. destruct (Hk k eq_refl). by apply good_hex.
Qed.

Lemma fill_of_wire w k w' : Wire.wire_ok w -> fill_headers (of_wire w k) w' = of_wire w k.
Proof.
  intros [_ [Hh _]]. destruct (Hh 1) as (h1 & F1 & _), (Hh 2) as (h2 & F2 & _), (Hh 3) as (h3 & F3 & _), (Hh 4) as (h4 & F4 & _);
    try (unfold Wire.is_type; lia). cbn in F1, F2, F3, F4. unfold fill_headers, of_wire. cbn. by rewrite F1, F2, F3, F4.
Qed.

Lemma finish_wire w e :
  Wire.wire_ok w -> let d := of_wire w (shown_key (Wire.hp_key w)) in
  finish C W d (mkSetPeer NoTarget false false false) e = Some (None, set_config e (c_wire (config e) (install d (wire (config e))))).
Proof.
  intros Hw d. destruct (wire_accepted w Hw) as [V1 V2]. unfold finish, mergeWithDevice, bind, gets, ret. red_bind.
  fold d in V1, V2. rewrite V1. cbn [negb]. subst d. rewrite fill_of_wire by done. by rewrite V2.
Qed.

Lemma set_everything m now e :
  (forall i, o_bind W i = false) -> config_ok (config e) -> private_ok (privateKey (dev e)) ->
  is_u 16 (port (net e)) -> is_u 32 (fwmark (net e)) ->
  exists e1 e', set_device (device_kvs e) blank (NewDevice m now) = Some (of_wire (wire (config e)) (shown_key (Wire.hp_key (wire (config e)))), e1) /\
    e' = set_config e1 (restored (config e) m) /\ privateKey (dev e1) = privateKey (dev e) /\
    net e1 = mkNet (port (net e)) (fwmark (net e)) false /\
    finish C W (of_wire (wire (config e)) (shown_key (Wire.hp_key (wire (config e))))) (mkSetPeer NoTarget false false false) e1 = Some (None, e').
Proof.
  intros HW [Hw Hk Hj [Hl Hc] [Ha Hr]] Hs Hp Hm. set (c := config e) in *. unfold device_kvs.
  destruct (set_identity m _ (mkNet 0 0 false) blank _ Hs (newly_NewDevice m now)) as (e1 & H1 & N1).
  destruct (set_listen m _ 0 _ blank e1 HW Hp N1) as (e2 & H2 & N2).
  destruct (set_mark m _ _ _ blank e2 Hm N2) as (e3 & H3 & [E1 E2 E3 E4 E5]).
  next H1. next H2. next H3. fold c. next (set_junks (junk c) blank e3 Hj); [|by rewrite E1].
  next (set_wires (wire c) (set_config e3 (c_junk (config e3) (junk c))) Hw).
  next (set_chains (ipackets c) (of_wire (wire c) None) (set_config e3 (c_junk (config e3) (junk c))) Hl Hc); [|by cbn; rewrite E1].
  rewrite set_tail by (done || (by cbn; rewrite E1)). do 2 eexists. split; [done|]. split; [done|].
  split; [exact E2|]. split; [exact E5|]. rewrite finish_wire by done. unfold c_wire, restored. cbn. by rewrite E1.
Qed.

(** C23. Whatever its settings, the device lines of a get operation restore them:
    set on a new device they are accepted, and afterwards it has the same private
    key, port, mark, junk packets, paddings, headers, decoy packets, flags and
    ranges, and shows the same lines.  A header protection key of zeros, which
    protects nothing, is dropped.  Assumed: closing the sockets of the new device
    does not fail, the private key is clamped, and no decoy's text ends in a
    carriage return, which the line reader strips. *)
Theorem shown_settings_restore m now e :
  (forall i, o_bind W i = false) -> config_ok (config e) -> private_ok (privateKey (dev e)) ->
  is_u 16 (port (net e)) -> is_u 32 (fwmark (net e)) ->
  Forall (fun c => forall x, c = Some x -> list.last (ObfChain.Spec x) <> Some 13) (ipackets (config e)) ->
  exists e', IpcSet C W priorityMsgFn (device_text e) (NewDevice m now) = Some (None, e') /\
    config e' = restored (config e) m /\ privateKey (dev e') = privateKey (dev e) /\
    port (net e') = port (net e) /\ fwmark (net e') = fwmark (net e) /\ device_text e' = device_text e.
Proof.
  intros HW Hc Hs Hp Hm Hcr. destruct (set_everything m now e HW Hc Hs Hp Hm) as (e1 & e' & H & -> & Hk & Hn & Hf).
  pose proof (good_device e Hc Hs Hp Hm Hcr) as Hg. exists (set_config e1 (restored (config e) m)). split.
  - unfold IpcSet, IpcSetOperation, bind, gets. red_bind. rewrite <- device_kvs_text, Scan_text by (eapply list.Forall_impl; [exact Hg | by intros kv []]).
    cbn [orb]. change (mkSetDevice _ _ _ _ _ None None None None) with blank.
    erewrite set_lines_device; [|by eapply list.Forall_impl; [exact Hg | intros kv []] | exact H]. exact Hf.
  - cbn. rewrite Hn. split_and!; [done.. |]. unfold device_text. cbn. rewrite Hk, Hn. cbn.
    destruct (config e) as [w j cs a r dc m']. cbn. unfold wire_text, key_text. cbn.
    unfold shown_key. destruct (Wire.hp_key w) as [k|]; [|done]. by destruct (Wire.key_is_zero k) eqn:Hz; rewrite ?Hz.
Qed.

(** ** Every configuration is valid *)

(** The states of a device after any operations. *)
Definition reachable (e : Engine) : Prop := exists m now os, run C W priorityMsgFn os (NewDevice m now) = Some (tt, e).

(** A line read after [peer]: the public key of the next peer, or a line of this one
    other than its keepalive interval. *)
Definition other_line (peer : ipcSetPeer) (key value : list Z) (e : Engine) (peer' : ipcSetPeer) (e' : Engine) : Prop :=
  handlePublicKeyLine C peer value e = Some (inr peer', e') \/
  (key <> str "persistent_keepalive_interval" /\ handlePeerLine C W priorityMsgFn peer key value e = Some (inr peer', e')).

(** C22. Whatever happens to a device, and whatever text is sent to it to configure
    it, accepted or rejected, its configuration stays valid: every message type has
    a header, the header ranges are non-empty, below 2^32 and apart from each other,
    every message fits a datagram with its padding, which has room for the nonce of
    header protection when it is on, key and junk sizes are in range, and the five
    decoy specifications parse. *)
Theorem configuration_stays_valid e : reachable e -> config_ok (config e).
Proof.
  intros (m & now & os & H). eapply ok_config, (keeps_run C W priorityMsgFn (I := ok ∅)); [exact H | apply NewDevice_ok].
Qed.

(** ** The keepalive of the next peer *)

(** The flag that makes the device send a keepalive when a peer's lines end is
    set by the line [persistent_keepalive_interval] of a peer and by no other line
    reset: it is still set for the peers that follow, which have no such line. *)
Theorem keepalive_flag_leaks peer key value e peer' e' :
  other_line peer key value e peer' e' -> pkaOn peer' = pkaOn peer.
Proof.
  intros [H | [Hk H]]; revert H.
  - unfold handlePublicKeyLine, parsed, throw, done. destruct (NoisePublicKey_FromHex value); [|done]. unfold bind, gets, ret. red_bind.
    case_bool_decide; [by intros [= <- _]|]. destruct (LookupPeer _ _); [by intros [= <- _]|].
    destruct (NewPeer C _ e) as [[[p|] e1]|]; red_bind; [by intros [= <- _] | done | done].
  - unfold handlePeerLine, parsed, throw, done. cbv zeta.
    rewrite (bool_decide_eq_false_2 (key = str "persistent_keepalive_interval")) by done.
    repeat match goal with |- (if bool_decide (key = ?k) then _ else _) _ = _ -> _ => destruct (bool_decide (key = k)) end.
    all: repeat match goal with
      | |- (let (_, _) := ?x in _) _ = _ -> _ => destruct x
      | |- (match ?x with _ => _ end) _ = _ -> _ => destruct x eqn:?
      end.
    all: unfold bind, ret; repeat match goal with
      | |- context [mbind _ ?o = _] => destruct o as [[? ?]|]; red_bind; [|done]
      end; by intros [= <- _].
Qed.

End Properties.

(** ** Examples *)

Section Example.

Import ToyCrypto.

Definition nl : string := String (Ascii.ascii_of_nat 10) EmptyString.

(** A text with device lines. *)
Definition settings : bytes :=
  str ("listen_port=51820" ++ nl ++ "fwmark=7" ++ nl ++ "jc=4" ++ nl ++ "jmin=40" ++ nl ++ "jmax=70" ++ nl ++
       "s1=15" ++ nl ++ "s2=18" ++ nl ++ "s3=20" ++ nl ++ "s4=23" ++ nl ++
       "h1=100000-200000" ++ nl ++ "h2=300000-400000" ++ nl ++ "h3=500000" ++ nl ++ "h4=600000-600001" ++ nl ++
       "i1=<b 0xf1><r 10><t>" ++ nl ++ "random_trailers=true" ++ nl ++ "rekey_after_time=100-140" ++ nl)%string.

Definition settled : option (option ipcError * Engine) := IpcSet toyC toyW None settings (NewDevice 1420 0).

Definition settled_device : Engine := match settled with Some (_, e) => e | None => NewDevice 0 0 end.

Lemma settled_eq : settled = Some (None, settled_device).
Proof. vm_compute. reflexivity. Qed.

Lemma settled_ok : config_ok (config settled_device).
Proof.
  eapply ok_config, (keeps_IpcSetOperation toyC toyW None (I := ok ∅) settings false); [exact settled_eq | apply NewDevice_ok].
Qed.

Lemma shown_settings_restore_witness :
  exists e', IpcSet toyC toyW None (device_text settled_device) (NewDevice 1280 5) = Some (None, e') /\
    config e' = restored (config settled_device) 1280 /\ device_text e' = settings.
Proof.
  destruct (shown_settings_restore toyC toyW None 1280 5 settled_device) as (e' & H1 & H2 & _ & _ & _ & H3).
  - intros i. reflexivity.
  - apply settled_ok.
  - split; [reflexivity|]. split; [|left; reflexivity]. apply Forall_forall. intros x Hx. apply repeat_spec in Hx. subst x. unfold is_u8, is_u. lia.
  - vm_compute. split; [discriminate | reflexivity].
  - vm_compute. split; [discriminate | reflexivity].
  - vm_compute. repeat constructor; intros x [= <-]; discriminate.
  - exists e'. split; [exact H1|]. split; [exact H2|]. rewrite H3. vm_compute. reflexivity.
Defined.

Lemma configuration_stays_valid_witness :
  exists e, run toyC toyW None [OpIpcSet settings false; OpIpcSet (str "s1=-1") false] (NewDevice 1420 0) = Some (tt, e) /\
    config_ok (config e) /\ Wire.p_init (wire (config e)) = 15.
Proof.
  eexists. split; [vm_compute; reflexivity|]. split; [|reflexivity].
  apply (configuration_stays_valid toyC toyW None). exists 1420, 0, [OpIpcSet settings false; OpIpcSet (str "s1=-1") false]. vm_compute. reflexivity.
Defined.

(** Lines that are understood but cannot be merged: the paddings would not leave
    room for the largest message. *)
Definition oversized : bytes := str ("jc=4" ++ nl ++ "s1=10" ++ nl ++ "s2=65500" ++ nl)%string.

Lemma rejected_set_keeps_framing_witness :
  exists e', IpcSetOperation toyC toyW None oversized false settled_device = Some (Some IpcErrorInvalid, e') /\
    framing (config e') = framing (config settled_device).
Proof.
  eexists. split; [vm_compute; reflexivity|].
  apply (rejected_set_keeps_framing toyC toyW None oversized false settled_device IpcErrorInvalid); [vm_compute; reflexivity|].
  vm_compute. repeat constructor; discriminate.
Defined.

Definition next_key : bytes := str "0202020202020202020202020202020202020202020202020202020202020202".

Lemma keepalive_flag_leaks_witness :
  exists peer' e', handlePublicKeyLine toyC (mkSetPeer (Target 0%nat) false true true) next_key (NewDevice 1420 0) = Some (inr peer', e') /\
    pkaOn peer' = true.
Proof.
  do 2 eexists. split; [vm_compute; reflexivity|].
  eapply (keepalive_flag_leaks toyC toyW None (mkSetPeer (Target 0%nat) false true true) [] next_key (NewDevice 1420 0)).
  left. vm_compute. reflexivity.
Defined.

End Example.

End UapiProps.
