(* ===== verification/TlsFragment.v ===== *)
(** * Fragmenting the TLS ClientHello

    Models common/tlsfragment: index.go finds the server name in the first packet a
    connection writes, conn.go cuts the packet inside the name, into several TLS
    records, several writes or both. *)

From S2P Require Import Prelude Bits Bytes GoStrings.

Module TlsFragment.

Local Open Scope Z_scope.

(** How a call ends; [Running] when the steps given are used up. *)
Inductive outcome (A : Type) := Returns (a : A) | Panics | Running.
Arguments Returns {A} a.
Arguments Panics {A}.
Arguments Running {A}.

#[export] Instance outcome_ret : MRet outcome := fun A => Returns.

#[export] Instance outcome_bind : MBind outcome := fun A B f c =>
  match c with Returns a => f a | Panics => Panics | Running => Running end.

(** An index or a slice out of range panics. *)
Definition checked {A} (o : option A) : outcome A := match o with Some a => Returns a | None => Panics end.

Definition len (b : list Z) : Z := Z.of_nat (length b).

(** ** index.go *)

Definition recordLayerHeaderLen : Z := 5.
Definition handshakeHeaderLen : Z := 6.
Definition randomDataLen : Z := 32.
Definition sessionIDHeaderLen : Z := 1.
Definition cipherSuiteHeaderLen : Z := 2.
Definition compressMethodHeaderLen : Z := 1.
Definition extensionsHeaderLen : Z := 2.
Definition extensionHeaderLen : Z := 4.
Definition sniExtensionHeaderLen : Z := 5.
Definition contentType : Z := 22.
Definition handshakeType : Z := 1.
Definition sniExtensionType : Z := 0.
Definition sniNameDNSHostnameType : Z := 0.
Definition tlsVersionBitmask : Z := 0xFFFC.
Definition tls13 : Z := 0x0304.

Record MyServerName := mkServerName {
  Index : Z;
  Length : Z;
  ServerName : list Z;
  ExtensionsListLengthIndex : Z
}.

(** The loop over the extensions, one step of [fuel] for each extension; the slice
    [exs[4+exLen:]] is taken at a 16-bit index. *)
Fixpoint extensions_loop (fuel : nat) (exs : list Z) (currentIndex : Z) : outcome (option MyServerName) :=
  match fuel with
  | O => Running
  | S fuel' =>
      if len exs =? 0 then mret None
      else if len exs <? extensionHeaderLen then mret None
      else
        exType ← checked (uint16_at exs 0);
        exLen ← checked (uint16_at exs 2);
        if len exs <? extensionHeaderLen + exLen then mret None
        else
          sex ← checked (slice exs extensionHeaderLen (extensionHeaderLen + exLen));
          if exType =? sniExtensionType then
            if len sex <? sniExtensionHeaderLen then mret None
            else
              sniType ← checked (sex !! 2%nat);
              if negb (sniType =? sniNameDNSHostnameType) then mret None
              else
                sniLen ← checked (uint16_at sex 3);
                sex ← checked (slice_from sex sniExtensionHeaderLen);
                mret (Some (mkServerName (currentIndex + extensionHeaderLen + sniExtensionHeaderLen) sniLen sex 0))
          else
            exs ← checked (slice_from exs (u16 (4 + exLen)));
            extensions_loop fuel' exs (currentIndex + 4 + exLen)
  end.

Definition indexTLSServerNameFromExtensions (fuel : nat) (exs : list Z) : outcome (option MyServerName) :=
  if len exs =? 0 then mret None
  else if len exs <? extensionsHeaderLen then mret None
  else
    exsLen ← checked (uint16_at exs 0);
    exs ← checked (slice_from exs extensionsHeaderLen);
    if len exs <? exsLen then mret None
    else extensions_loop fuel exs extensionsHeaderLen.

Definition handshake_len (handshake : list Z) : option Z :=
  x ← handshake !! 1%nat; y ← handshake !! 2%nat; z ← handshake !! 3%nat;
  Some (Z.lor (Z.lor (Z.shiftl x 16) (Z.shiftl y 8)) z).

Definition indexTLSServerNameFromHandshake (fuel : nat) (handshake : list Z) : outcome (option MyServerName) :=
  if len handshake <? handshakeHeaderLen + randomDataLen + sessionIDHeaderLen then mret None
  else
    typ ← checked (handshake !! 0%nat);
    if negb (typ =? handshakeType) then mret None
    else
      handshakeLen ← checked (handshake_len handshake);
      rest ← checked (slice_from handshake 4);
      if negb (len rest =? handshakeLen) then mret None
      else
        tlsVersion ← checked (uint16_at handshake 4);
        if negb (Z.land tlsVersion tlsVersionBitmask =? 0x0300) && negb (tlsVersion =? tls13) then mret None
        else
          sessionIDLen ← checked (handshake !! 38%nat);
          let currentIndex := handshakeHeaderLen + randomDataLen + sessionIDHeaderLen + sessionIDLen in
          if len handshake <? currentIndex then mret None
          else
            cipherSuites ← checked (slice_from handshake currentIndex);
            if len cipherSuites <? cipherSuiteHeaderLen then mret None
            else
              csLen ← checked (uint16_at cipherSuites 0);
              if len cipherSuites <? cipherSuiteHeaderLen + csLen + compressMethodHeaderLen then mret None
              else
                compressMethodLen ← checked (cipherSuites !! Z.to_nat (cipherSuiteHeaderLen + csLen));
                let currentIndex := currentIndex + cipherSuiteHeaderLen + csLen + compressMethodHeaderLen + compressMethodLen in
                if len handshake <? currentIndex then mret None
                else
                  exs ← checked (slice_from handshake currentIndex);
                  found ← indexTLSServerNameFromExtensions fuel exs;
                  match found with
                  | None => mret None
                  | Some n => mret (Some (mkServerName (Index n + currentIndex) (Length n) (ServerName n) currentIndex))
                  end.

Definition IndexTLSServerName (fuel : nat) (payload : list Z) : outcome (option MyServerName) :=
  if len payload <? recordLayerHeaderLen then mret None
  else
    typ ← checked (payload !! 0%nat);
    if negb (typ =? contentType) then mret None
    else
      segmentLen ← checked (uint16_at payload 3);
      if len payload <? recordLayerHeaderLen + segmentLen then mret None
      else
        handshake ← checked (slice_from payload recordLayerHeaderLen);
        found ← indexTLSServerNameFromHandshake fuel handshake;
        match found with
        | None => mret None
        | Some n =>
            mret (Some (mkServerName (Index n + recordLayerHeaderLen) (Length n) (ServerName n)
                         (ExtensionsListLengthIndex n + recordLayerHeaderLen)))
        end.

(** ** conn.go *)

Record Conn := mkConn {
  tcpConn : bool;
  firstPacketWritten : bool;
  splitPacket : bool;
  splitRecord : bool
}.

Definition NewConn (tcp splitPacket splitRecord : bool) : Conn := mkConn tcp false splitPacket splitRecord.

(** What the connection below is asked to do; [Acked] is [writeAndWaitAck]. *)
Inductive event := NoDelay (on : bool) | Written (b : list Z) | Acked (b : list Z) | Slept.

#[export] Instance event_eq_dec : EqDecision event.
Proof. solve_decision. Defined.

Definition dot : Z := 46.

(** [strings.Count] of a single byte. *)
Definition Count (s : list Z) (c : Z) : nat := length (filter (fun b => b = c) s).

Section Write.

(** The suffix list of golang.org/x/net/publicsuffix, the draws of math/rand, and
    the connection below: after the events so far, the last of them fails with the
    number of bytes written, or succeeds. *)
Context (PublicSuffix : list Z -> list Z) (rand_Intn : nat -> Z -> Z) (io_error : list event -> option Z) (fuel : nat).

(** [rand.Intn] panics on an empty label. *)
Fixpoint split_indexes (splits : list (list Z)) (draw : nat) (currentIndex : Z) : option (list Z) :=
  match splits with
  | [] => Some []
  | split :: splits' =>
      if len split <=? 0 then None
      else
        let splitAt := rand_Intn draw (len split) in
        let next := currentIndex + len split in
        let next := match splits' with [] => next | _ => next + 1 end in
        rest ← split_indexes splits' (S draw) next;
        Some ((currentIndex + splitAt) :: rest)
  end.

(** The labels the name is cut in, and the index of the first of them. *)
Definition labels_to_cut (n : MyServerName) : option (list (list Z) * Z) :=
  let splits := Split (ServerName n) dot in
  splits ←
    (if bool_decide (PublicSuffix (ServerName n) = []) then Some splits
     else if (length splits <? Count (ServerName n) dot)%nat then None
     else Some (take (length splits - Count (ServerName n) dot) splits));
  match splits with
  | first :: (_ :: _) as splits' =>
      if bool_decide (first = str "...") then Some (splits', Index n + len first + 1) else Some (splits, Index n)
  | _ => Some (splits, Index n)
  end.

(** The [i]-th payload of the packet [b] cut at [indexes]. *)
Definition payload_of (c : Conn) (b : list Z) (indexes : list Z) (i : nat) : option (list Z) :=
  if (i =? 0)%nat then
    hi ← indexes !! i;
    payload ← slice b 0 hi;
    if splitRecord c then slice_from payload recordLayerHeaderLen else Some payload
  else if (i =? length indexes)%nat then lo ← indexes !! (i - 1)%nat; slice_from b lo
  else lo ← indexes !! (i - 1)%nat; hi ← indexes !! i; slice b lo hi.

(** The loop over the payloads: the buffer, the events, and whether it went through. *)
Fixpoint write_loop (c : Conn) (b : list Z) (indexes : list Z) (todo : list nat) (buffer : list Z) (log : list event)
    : option (list Z * list event * bool) :=
  match todo with
  | [] => Some (buffer, log, true)
  | i :: todo' =>
      payload ← payload_of c b indexes i;
      buffer ←
        (if splitRecord c then
           head ← slice b 0 3;
           Some ((if splitPacket c then [] else buffer) ++ head ++ be16 (u16 (len payload)) ++ payload)
         else Some buffer);
      let payload := if splitRecord c && splitPacket c then buffer else payload in
      if splitPacket c then
        if tcpConn c && negb (i =? length indexes)%nat then
          let log := log ++ [Acked payload] in
          match io_error log with
          | Some _ => Some (buffer, log, false)
          | None => write_loop c b indexes todo' buffer log
          end
        else
          let log := log ++ [Written payload] in
          match io_error log with
          | Some _ => Some (buffer, log, false)
          | None => write_loop c b indexes todo' buffer (if (i =? length indexes)%nat then log else log ++ [Slept])
          end
      else write_loop c b indexes todo' buffer log
  end.

(** [Conn.Write]: the number of bytes, whether it succeeded, the connection and the
    events. *)
Definition written (c : Conn) (n : Z) (success : bool) (log : list event) : Z * bool * Conn * list event :=
  (n, success, mkConn (tcpConn c) true (splitPacket c) (splitRecord c), log).

Definition write_through (c : Conn) (b : list Z) : Z * bool * Conn * list event :=
  match io_error [Written b] with
  | Some n => (n, false, c, [Written b])
  | None => (len b, true, c, [Written b])
  end.

(** The cuts, the loop, and what follows it; [log] has the events before. *)
Definition write_split (c : Conn) (b : list Z) (n : MyServerName) (log : list event) : option (Z * bool * Conn * list event) :=
  '(splits, currentIndex) ← labels_to_cut n;
  indexes ← split_indexes splits 0 currentIndex;
  '(buffer, log, through) ← write_loop c b indexes (seq 0 (S (length indexes))) [] log;
  if negb through then Some (written c 0 false log)
  else
    let log := if splitRecord c && negb (splitPacket c) then log ++ [Written buffer] else log in
    if splitRecord c && negb (splitPacket c) && bool_decide (is_Some (io_error log)) then Some (written c 0 false log)
    else if tcpConn c then
      let log := log ++ [NoDelay false] in
      if bool_decide (is_Some (io_error log)) then Some (written c 0 false log) else Some (written c (len b) true log)
    else Some (written c (len b) true log).

Definition Write (c : Conn) (b : list Z) : outcome (Z * bool * Conn * list event) :=
  if negb (firstPacketWritten c) && (len b >? 0) then
    found ← IndexTLSServerName fuel b;
    match found with
    | Some n =>
        if splitPacket c && tcpConn c then
          let log := [NoDelay true] in
          if bool_decide (is_Some (io_error log)) then mret (written c 0 false log) else checked (write_split c b n log)
        else checked (write_split c b n [])
    | None =>
        let '(n, success, c, log) := write_through c b in mret (written c n success log)
    end
  else mret (write_through c b).

Definition WriterReplaceable (c : Conn) : bool := firstPacketWritten c.

End Write.

(** ** Lemmas *)

(** The name [n] is the bytes of [b] from its index, counted from [base]. *)
Definition located (b : list Z) (base : Z) (n : MyServerName) : Prop :=
  base <= Index n /\ slice b (Index n - base) (Index n - base + len (ServerName n)) = Some (ServerName n).

Lemma slice_drop b lo hi k r : 0 <= k <= len b -> slice (drop (Z.to_nat k) b) lo hi = Some r -> slice b (k + lo) (k + hi) = Some r.
Proof.
  intros Hk (Hlo & Hhi & ->)%slice_inv. rewrite length_drop in Hhi. unfold len in Hk. rewrite slice_some by lia. f_equal.
  rewrite drop_drop. f_equal; [lia|]. f_equal. lia.
Qed.

Lemma located_drop b k base n : 0 <= k <= len b -> located (drop (Z.to_nat k) b) (base + k) n -> located b base n.
Proof.
  intros Hk [Hi Hs]. split; [lia|]. apply (slice_drop _ _ _ k) in Hs; [|done].
  rewrite <- Hs. f_equal; lia.
Qed.

Lemma located_shift b k base n i e : located b base n -> i = Index n + k ->
  located b (base + k) (mkServerName i (Length n) (ServerName n) e).
Proof. intros [Hi Hs] ->. split; cbn; [lia|]. rewrite <- Hs. f_equal; lia. Qed.

(** A search that ends, with nothing or with a name as [P] says. *)
Definition finds (P : MyServerName -> Prop) (c : outcome (option MyServerName)) : Prop :=
  exists r, c = Returns r /\ forall n, r = Some n -> P n.

Lemma finds_none P : finds P (mret None).
Proof. by exists None. Qed.

Lemma lookup_u8 b i : Forall is_u8 b -> (i < length b)%nat -> exists x, b !! i = Some x /\ is_u8 x.
Proof.
  intros Hb Hi. destruct (lookup_lt_is_Some_2 b i Hi) as [x Hx]. exists x. split; [done|].
  by apply (list.Forall_lookup_1 _ _ _ _ Hb Hx).
Qed.

(** A guard of the search: it ends there with nothing, or it goes on. *)
Ltac pass :=
  match goal with
  | |- finds _ (if ?x <? ?y then _ else _) => destruct (Z.ltb_spec x y); [apply finds_none|]
  | |- finds _ (if ?x =? ?y then mret None else _) => destruct (Z.eqb_spec x y) as [?Hp|?Hp]; [apply finds_none|]
  | |- finds _ (if negb ?c then _ else _) => destruct c eqn:?; cbn [negb]; [|apply finds_none]
  | |- finds _ (if ?c && ?d then _ else _) => destruct (c && d); [apply finds_none|]
  end.

(** A read that is in range. *)
Ltac reads H x Hx :=
  destruct H as (x & -> & Hx); cbn [checked mbind outcome_bind].

Lemma extensions_loop_finds fuel exs base : Forall is_u8 exs -> len exs < 65536 -> (length exs < fuel)%nat ->
  finds (located exs base) (extensions_loop fuel exs base).
Proof.
  revert exs base. induction fuel as [|fuel IH]; intros exs base Hb Hl Hf; [lia|]. cbn [extensions_loop].
  unfold extensionHeaderLen, sniExtensionHeaderLen in *. unfold len in *. do 2 pass.
  reads (uint16_at_some exs 0 Hb ltac:(lia)) typ Ht. reads (uint16_at_some exs 2 Hb ltac:(lia)) l Hx. pass.
  unfold is_u in *. rewrite slice_some by lia. cbn [checked mbind outcome_bind].
  set (sex := take _ _). assert (Z.of_nat (length sex) = l) as Hs by (subst sex; rewrite length_take, length_drop; lia).
  assert (Forall is_u8 sex) as Hu by (by apply Forall_take, Forall_drop).
  destruct (typ =? sniExtensionType).
  - pass. reads (lookup_u8 sex 2 Hu ltac:(lia)) st Hst. pass. reads (uint16_at_some sex 3 Hu ltac:(lia)) sl Hsl.
    rewrite slice_from_some by lia. cbn [checked mbind outcome_bind]. eexists. split; [done|]. intros n [= <-].
    split; cbn; [lia|]. unfold len. rewrite length_drop. rewrite slice_some by lia. f_equal. subst sex.
    rewrite skipn_firstn_comm, drop_drop. f_equal; [lia|]. f_equal. lia.
  - unfold u16. destruct (Z.lt_ge_cases (4 + l) 65536); [|lia].
    rewrite Z.mod_small by lia. rewrite slice_from_some by lia. cbn [checked mbind outcome_bind].
    destruct (IH (drop (Z.to_nat (4 + l)) exs) (base + 4 + l)) as (r & -> & Hr).
    { by apply Forall_drop. } { rewrite length_drop. lia. } { rewrite length_drop. lia. }
    exists r. split; [done|]. intros n Hn. apply (located_drop _ (4 + l)); [unfold len; lia|].
    rewrite Z.add_assoc. by apply Hr.
Qed.

Lemma FromExtensions_finds fuel exs : Forall is_u8 exs -> len exs < 65536 -> (length exs <= fuel)%nat ->
  finds (located exs 0) (indexTLSServerNameFromExtensions fuel exs).
Proof.
  intros Hb Hl Hf. unfold indexTLSServerNameFromExtensions, extensionsHeaderLen. unfold len in *. do 2 pass.
  reads (uint16_at_some exs 0 Hb ltac:(lia)) l Hx. rewrite slice_from_some by lia. cbn [checked mbind outcome_bind]. pass.
  destruct (extensions_loop_finds fuel (drop (Z.to_nat 2) exs) 2) as (r & -> & Hr).
  { by apply Forall_drop. } { unfold len. rewrite length_drop. lia. } { rewrite length_drop. lia. }
  exists r. split; [done|]. intros n Hn. apply (located_drop _ 2); [unfold len; lia|]. by apply Hr.
Qed.

Lemma FromHandshake_finds fuel hs : Forall is_u8 hs -> len hs < 65536 -> (length hs <= fuel)%nat ->
  finds (located hs 0) (indexTLSServerNameFromHandshake fuel hs).
Proof.
  intros Hb Hl Hf. unfold indexTLSServerNameFromHandshake, handshake_len, handshakeHeaderLen, randomDataLen, sessionIDHeaderLen,
    cipherSuiteHeaderLen, compressMethodHeaderLen.
  unfold len in *. pass. reads (lookup_u8 hs 0 Hb ltac:(lia)) typ Ht. pass.
  destruct (lookup_u8 hs 1 Hb ltac:(lia)) as (x & -> & _), (lookup_u8 hs 2 Hb ltac:(lia)) as (y & Hy & _),
    (lookup_u8 hs 3 Hb ltac:(lia)) as (z & Hz & _). cbn [mbind option_bind]. rewrite Hy. cbn [mbind option_bind]. rewrite Hz.
  cbn [mbind option_bind checked outcome_bind].
  rewrite slice_from_some by lia. cbn [checked mbind outcome_bind]. pass.
  reads (uint16_at_some hs 4 Hb ltac:(lia)) v Hv. pass. reads (lookup_u8 hs 38 Hb ltac:(lia)) sid Hsid.
  unfold is_u in Hsid. pass. rewrite slice_from_some by lia. cbn [checked mbind outcome_bind].
  set (cs := drop _ hs). assert (Forall is_u8 cs) as Hcs by (by apply Forall_drop). pass.
  reads (uint16_at_some cs 0 Hcs ltac:(lia)) cl Hcl. unfold is_u in Hcl. pass.
  reads (lookup_u8 cs (Z.to_nat (2 + cl)) Hcs ltac:(lia)) cm Hcm. unfold is_u in Hcm. pass.
  rewrite slice_from_some by lia. cbn [checked mbind outcome_bind].
  set (k := 6 + 32 + 1 + sid + 2 + cl + 1 + cm) in *.
  destruct (FromExtensions_finds fuel (drop (Z.to_nat k) hs)) as (r & -> & Hr).
  { by apply Forall_drop. } { unfold len. rewrite length_drop. lia. } { rewrite length_drop. lia. }
  cbn [mbind outcome_bind]. destruct r as [n|]; [|apply finds_none]. eexists. split; [done|]. intros m [= <-].
  apply (located_drop _ k); [unfold len; lia|]. apply located_shift; [by apply Hr | done].
Qed.

Lemma Index_finds fuel b : Forall is_u8 b -> len b < 65536 -> (length b <= fuel)%nat ->
  finds (fun n => located b 0 n /\ 5 <= Index n) (IndexTLSServerName fuel b).
Proof.
  intros Hb Hl Hf. unfold IndexTLSServerName, recordLayerHeaderLen. unfold len in *. pass.
  reads (lookup_u8 b 0 Hb ltac:(lia)) typ Ht. pass. reads (uint16_at_some b 3 Hb ltac:(lia)) l Hx. pass.
  unfold is_u in Hx. rewrite slice_from_some by lia. cbn [checked mbind outcome_bind].
  destruct (FromHandshake_finds fuel (drop (Z.to_nat 5) b)) as (r & -> & Hr).
  { by apply Forall_drop. } { unfold len. rewrite length_drop. lia. } { rewrite length_drop. lia. }
  cbn [mbind outcome_bind]. destruct r as [n|]; [|apply finds_none]. eexists. split; [done|]. intros m [= <-].
  specialize (Hr n eq_refl). split; [|destruct Hr; cbn; lia].
  apply (located_drop _ 5); [unfold len; lia|]. by apply located_shift.
Qed.

(** *** The pieces *)

(** [b] from [lo] on, cut at the indexes. *)
Fixpoint cut_at (b : list Z) (lo : Z) (indexes : list Z) : list (list Z) :=
  match indexes with
  | [] => [drop (Z.to_nat lo) b]
  | hi :: indexes' => take (Z.to_nat (hi - lo)) (drop (Z.to_nat lo) b) :: cut_at b hi indexes'
  end.

(** The indexes grow from [lo] to the end of [b]. *)
Fixpoint ordered (b : list Z) (lo : Z) (indexes : list Z) : Prop :=
  match indexes with
  | [] => lo <= len b
  | hi :: indexes' => lo <= hi /\ ordered b hi indexes'
  end.

Lemma ordered_le b lo indexes : ordered b lo indexes -> lo <= len b.
Proof. revert lo. induction indexes as [|hi ix IH]; intros lo; cbn; [done|]. intros [? ?%IH]. lia. Qed.

Lemma cut_at_concat b lo indexes : 0 <= lo -> ordered b lo indexes -> concat (cut_at b lo indexes) = drop (Z.to_nat lo) b.
Proof.
  revert lo. induction indexes as [|hi ix IH]; intros lo Hlo Ho; cbn; [apply app_nil_r|]. destruct Ho as [Hh Ho].
  rewrite IH by (lia || done). replace (Z.to_nat hi) with (Z.to_nat lo + Z.to_nat (hi - lo))%nat by lia.
  by rewrite <- drop_drop, take_drop.
Qed.

Lemma cut_at_length b lo indexes : length (cut_at b lo indexes) = S (length indexes).
Proof. revert lo. induction indexes as [|hi ix IH]; intros lo; cbn; [done|]. by rewrite IH. Qed.

(** A piece is the slice between two neighbouring indexes. *)
Lemma cut_at_lookup b lo indexes i : 0 <= lo -> ordered b lo indexes ->
  (i <= length indexes)%nat ->
  cut_at b lo indexes !! i =
    (from ← (lo :: indexes) !! i; if decide (i = length indexes) then slice_from b from else to ← indexes !! i; slice b from to).
Proof.
  revert lo i. induction indexes as [|hi ix IH]; intros lo i Hlo Ho Hi.
  - destruct i; [|cbn in Hi; lia]. cbn. by rewrite slice_from_some by (cbn in Ho; unfold len in Ho; lia).
  - destruct Ho as [Hh Ho]. pose proof (ordered_le _ _ _ Ho) as Hle. unfold len in Hle. destruct i as [|i].
    + cbn. by rewrite slice_some by lia.
    + cbn [length] in Hi. change (cut_at b lo (hi :: ix) !! S i) with (cut_at b hi ix !! i). rewrite IH by (lia || done).
      cbn [length lookup list_lookup]. destruct ((hi :: ix) !! i); cbn [mbind option_bind]; [|done].
      destruct (decide (i = length ix)), (decide (S i = S (length ix))); by try lia.
Qed.

(** The first piece of records starts after the header. *)
Definition start (c : Conn) : Z := if splitRecord c then recordLayerHeaderLen else 0.

Lemma payload_of_cut c b indexes i : ordered b (start c) indexes -> indexes <> [] -> (i <= length indexes)%nat ->
  payload_of c b indexes i = cut_at b (start c) indexes !! i.
Proof.
  intros Ho Hne Hi. unfold start, recordLayerHeaderLen in *. rewrite cut_at_lookup by (done || destruct (splitRecord c); lia). unfold payload_of.
  destruct i as [|i].
  - destruct indexes as [|hi ix]; [done|]. cbn. destruct Ho as [Hh Ho%ordered_le]. unfold recordLayerHeaderLen, len in *.
    destruct (splitRecord c).
    + rewrite !slice_some by lia. cbn [mbind option_bind]. rewrite slice_from_some by (rewrite length_take, length_drop; lia).
      f_equal. cbn [Z.to_nat]. rewrite drop_0, Z.sub_0_r, skipn_firstn_comm. f_equal. lia.
    + by rewrite slice_some by lia.
  - replace (S i - 1)%nat with i by lia. change ((S i =? 0)%nat) with false. cbn [lookup list_lookup].
    destruct (Nat.eqb_spec (S i) (length indexes)) as [He|He], (decide (S i = length indexes)); try done.
Qed.

(** *** The writes *)

Fixpoint sent (log : list event) : list (list Z) :=
  match log with
  | [] => []
  | Written b :: log' | Acked b :: log' => b :: sent log'
  | _ :: log' => sent log'
  end.

Lemma sent_app log log' : sent (log ++ log') = sent log ++ sent log'.
Proof. induction log as [|[] log IH]; cbn; by rewrite ?IH. Qed.

(** A TLS record with the type and version [head]. *)
Definition record_of (head payload : list Z) : list Z := head ++ be16 (len payload) ++ payload.

Definition framed (c : Conn) (b payload : list Z) : list Z :=
  if splitRecord c then record_of (take 3 b) payload else payload.

Section Good.
Context (io_error : list event -> option Z) (Hio : forall log, io_error log = None).

Lemma write_loop_sent c b indexes todo ps buffer log :
  3 <= len b -> len b < 65536 ->
  Forall2 (fun i p => payload_of c b indexes i = Some p /\ (length p <= length b)%nat) todo ps ->
  exists buffer' log', write_loop io_error c b indexes todo buffer log = Some (buffer', log', true) /\
    if splitPacket c then sent log' = sent log ++ map (framed c b) ps
    else log' = log /\ (splitRecord c = true -> buffer' = buffer ++ concat (map (framed c b) ps)).
Proof.
  intros Hb Hl HF. revert buffer log. induction HF as [|i p todo ps [Hp Hlen] HF IH]; intros buffer log; cbn [write_loop].
  - exists buffer, log. split; [done|]. cbn. rewrite !app_nil_r. by destruct (splitPacket c).
  - rewrite Hp. cbn [mbind option_bind]. unfold len in Hb. rewrite slice_some by lia. cbn [mbind option_bind].
    change (Z.to_nat 0) with 0%nat. change (Z.to_nat (3 - 0)) with 3%nat. rewrite drop_0.
    rewrite u16_small by (unfold is_u, len in *; lia). cbn [map concat]. unfold framed at 1 3, record_of.
    destruct (splitPacket c) eqn:Hsp, (splitRecord c) eqn:Hsr; cbn [andb mbind option_bind app];
      rewrite ?Hio; try destruct (tcpConn c && _); rewrite ?Hio;
      edestruct IH as (buf & log' & -> & H); exists buf, log'; (split; [done|]).
    1-4: rewrite H; try destruct (i =? length indexes)%nat; rewrite ?sent_app; cbn [sent]; rewrite ?app_nil_r, <- ?app_assoc; done.
    + destruct H as [-> Hbuf]. split; [done|]. intros _. rewrite Hbuf, <- !app_assoc by done. done.
    + destruct H as [-> _]. done.
Qed.

(** *** The cuts *)

Section Cuts.
Context (PublicSuffix : list Z -> list Z) (rand_Intn : nat -> Z -> Z) (Hrand : forall k n, 0 < n -> 0 <= rand_Intn k n < n).

(** The cuts grow and stay inside the labels. *)
Lemma split_indexes_ordered b labels draw lo first :
  Forall (fun l => l <> []) labels -> labels <> [] -> first <= lo -> lo + len (Join labels [dot]) <= len b ->
  exists indexes, split_indexes rand_Intn labels draw lo = Some indexes /\ ordered b first indexes /\ length indexes = length labels /\
    Forall (fun i => lo <= i < lo + len (Join labels [dot])) indexes.
Proof.
  revert draw lo first. induction labels as [|l labels IH]; intros draw lo first HF Hne Hfirst Hl; [done|].
  apply Forall_cons_iff in HF as [Hn HF]. cbn [split_indexes]. unfold len in *.
  assert (0 < length l)%nat by (destruct l; [done | cbn; lia]). destruct (Z.leb_spec (Z.of_nat (length l)) 0); [lia|].
  pose proof (Hrand draw (Z.of_nat (length l)) ltac:(lia)) as Hd. destruct labels as [|l' labels].
  - cbn [split_indexes mbind option_bind Join] in *. eexists. split; [done|]. split_and!; cbn; unfold len; try lia. repeat constructor; lia.
  - change (Join (l :: l' :: labels) [dot]) with (l ++ [dot] ++ Join (l' :: labels) [dot]) in *.
    rewrite !length_app in Hl |- *. change (length [dot]) with 1%nat in *.
    destruct (IH (S draw) (lo + Z.of_nat (length l) + 1) (lo + rand_Intn draw (Z.of_nat (length l)))) as (ix & -> & Ho & Hlen & HFx);
      [done | done | lia | lia|].
    cbn [mbind option_bind]. eexists. split; [done|]. split_and!; [cbn; split; [lia | done] | cbn; by rewrite Hlen|].
    constructor; [lia|]. eapply list.Forall_impl; [exact HFx|]. cbn. lia.
Qed.

Lemma Split_Count s : length (Split s dot) = S (Count s dot).
Proof.
  unfold Count. induction s as [|b s IH]; [done|]. cbn [Split]. destruct (Z.eqb_spec b dot) as [->|Hb].
  - cbn [length]. rewrite IH, filter_cons_True by done. done.
  - rewrite filter_cons_False by done. rewrite <- IH. by destruct (Split s dot).
Qed.

Lemma Join_take k labels : len (Join (take k labels) [dot]) <= len (Join labels [dot]).
Proof.
  unfold len. revert k. induction labels as [|l labels IH]; intros k; [by rewrite take_nil|]. destruct k as [|k]; [cbn; lia|].
  cbn [take]. specialize (IH k). destruct labels as [|l' labels]; [by rewrite take_nil|].
  destruct k as [|k]; [cbn [take Join]; rewrite length_app; lia|]. cbn [take Join] in *. rewrite !length_app in *. lia.
Qed.

(** The name is cut in its first label when the suffix list knows it, else in all;
    no label is the string of three dots. *)
Definition labels_cut (name : list Z) : list (list Z) :=
  if bool_decide (PublicSuffix name = []) then Split name dot else take 1 (Split name dot).

Lemma labels_to_cut_spec n : labels_to_cut PublicSuffix n = Some (labels_cut (ServerName n), Index n).
Proof.
  unfold labels_to_cut, labels_cut. rewrite Split_Count. destruct (Split_Join (ServerName n) dot) as [_ HF].
  destruct (bool_decide _); cbn [mbind option_bind].
  - destruct (Split _ _) as [|l [|l' ls]]; try done. rewrite bool_decide_eq_false_2; [done|]. intros ->.
    apply Forall_cons_iff in HF as [Hd _]. apply Hd. by_eval.
  - destruct (Nat.ltb_spec (S (Count (ServerName n) dot)) (Count (ServerName n) dot)); [lia|]. cbn [mbind option_bind].
    replace (S (Count (ServerName n) dot) - Count (ServerName n) dot)%nat with 1%nat by lia.
    by destruct (Split _ _) as [|l ls].
Qed.

Lemma cut_at_short b lo indexes : Forall (fun p => length p <= length b)%nat (cut_at b lo indexes).
Proof.
  revert lo. induction indexes as [|hi ix IH]; intros lo; cbn; constructor; try done; rewrite ?length_take, length_drop; lia.
Qed.

Lemma payloads_cut c b indexes : ordered b (start c) indexes -> indexes <> [] ->
  Forall2 (fun i p => payload_of c b indexes i = Some p /\ (length p <= length b)%nat) (seq 0 (S (length indexes)))
    (cut_at b (start c) indexes).
Proof.
  intros Ho Hne. apply Forall2_same_length_lookup. split; [by rewrite length_seq, cut_at_length|].
  intros k i p [-> Hk]%lookup_seq Hp. split; [|by apply (list.Forall_lookup_1 _ _ _ _ (cut_at_short b (start c) indexes) Hp)].
  rewrite payload_of_cut by (done || lia). done.
Qed.

(** What went out is the packet cut at the indexes, in records or not. *)
Definition went_out (c : Conn) (b : list Z) (n : MyServerName) (log : list event) : Prop :=
  let labels := labels_cut (ServerName n) in
  exists indexes, length indexes = length labels /\
    Forall (fun i => Index n <= i < Index n + len (Join labels [dot])) indexes /\
    concat (cut_at b (start c) indexes) = drop (Z.to_nat (start c)) b /\
    sent log = (if splitPacket c then map (framed c b) (cut_at b (start c) indexes)
                else [concat (map (framed c b) (cut_at b (start c) indexes))]).

Lemma labels_cut_facts name : labels_cut name <> [] /\ len (Join (labels_cut name) [dot]) <= len name.
Proof.
  unfold labels_cut. pose proof (Split_not_nil name dot). split; [by destruct (bool_decide _), (Split _ _)|].
  replace (len name) with (len (Join (Split name dot) [dot])) by (by rewrite (proj1 (Split_Join name dot))).
  destruct (bool_decide _); [done | apply Join_take].
Qed.

Lemma write_split_spec c b n log :
  Forall (fun l => l <> []) (labels_cut (ServerName n)) -> located b 0 n -> 5 <= Index n -> len b < 65536 ->
  splitPacket c || splitRecord c = true -> sent log = [] ->
  exists log', write_split PublicSuffix rand_Intn io_error c b n log = Some (written c (len b) true log') /\ went_out c b n log'.
Proof.
  intros HF [Hi0 Hs] Hi5 Hb Hsplit Hlog. unfold write_split. rewrite labels_to_cut_spec. cbn [mbind option_bind].
  destruct (labels_cut_facts (ServerName n)) as [Hne Hj]. apply slice_inv in Hs as (Hlo & Hhi & _).
  destruct (split_indexes_ordered b (labels_cut (ServerName n)) 0 (Index n) (start c)) as (ix & -> & Ho & Hlen & HFx).
  { done. } { done. } { unfold start, recordLayerHeaderLen. destruct (splitRecord c); lia. } { unfold len in *. lia. }
  assert (ix <> []) as Hix by (intros ->; by destruct (labels_cut _)). cbn [mbind option_bind].
  destruct (write_loop_sent c b ix _ _ [] log ltac:(unfold len in *; lia) Hb (payloads_cut c b ix Ho Hix)) as (buf & log' & -> & Hsent).
  cbn [mbind option_bind negb].
  assert (went_out c b n (if splitRecord c && negb (splitPacket c) then log' ++ [Written buf] else log')) as Hout.
  { exists ix. split_and!; [done | done |apply cut_at_concat; [unfold start, recordLayerHeaderLen; destruct (splitRecord c); lia | done]|].
    destruct (splitPacket c); rewrite ?andb_false_r, ?andb_true_r.
    - by rewrite Hsent, Hlog.
    - cbn in Hsplit. destruct Hsent as [-> Hbuf]. rewrite Hsplit, sent_app, Hlog, Hbuf by done. done. }
  rewrite (bool_decide_eq_false_2 (is_Some (io_error _))) by (rewrite Hio; by intros []). rewrite andb_false_r.
  destruct (tcpConn c).
  - rewrite (bool_decide_eq_false_2 (is_Some (io_error _))) by (rewrite Hio; by intros []). eexists. split; [done|].
    destruct Hout as (ix' & H1 & H2 & H3 & H4). exists ix'. rewrite sent_app, H4. cbn [sent]. by rewrite app_nil_r.
  - by eexists.
Qed.

End Cuts.

End Good.

(** *** ClientHello messages (RFC 8446, 4.1.2) *)

Record ClientHello := mkHello {
  version : Z;
  random : list Z;
  sessionID : list Z;
  suites : list Z;
  compression : list Z;
  extensions : list (Z * list Z)
}.

Definition extension_bytes (e : Z * list Z) : list Z := be16 (fst e) ++ be16 (len (snd e)) ++ snd e.
Definition extensions_bytes (es : list (Z * list Z)) : list Z := concat (map extension_bytes es).

Definition hello_body (h : ClientHello) : list Z :=
  be16 (version h) ++ random h ++ [len (sessionID h)] ++ sessionID h ++ be16 (len (suites h)) ++ suites h ++
  [len (compression h)] ++ compression h ++ be16 (len (extensions_bytes (extensions h))) ++ extensions_bytes (extensions h).

Definition hello_bytes (h : ClientHello) : list Z := [1; 0] ++ be16 (len (hello_body h)) ++ hello_body h.

(** In one record of TLS 1.0, as clients send it. *)
Definition hello_record (h : ClientHello) : list Z := [22; 3; 1] ++ be16 (len (hello_bytes h)) ++ hello_bytes h.

(** The fields fit their length prefixes. *)
Record hello_ok (h : ClientHello) : Prop := mkOk {
  ok_version : 0x0300 <= version h <= 0x0304;
  ok_random : length (random h) = 32%nat;
  ok_session : len (sessionID h) < 256;
  ok_compression : len (compression h) < 256;
  ok_types : Forall (fun e => is_u16 (fst e) /\ Forall is_u8 (snd e)) (extensions h);
  ok_bytes : Forall is_u8 (hello_body h);
  ok_len : len (hello_body h) < 65500
}.

(** The server_name extension (RFC 6066, 3): a list of names, each with its type
    and its length; 0 is the type of host names. *)
Definition name_entry (e : Z * list Z) : list Z := [fst e] ++ be16 (len (snd e)) ++ snd e.
Definition names_bytes (entries : list (Z * list Z)) : list Z := concat (map name_entry entries).
Definition names_body (entries : list (Z * list Z)) : list Z := be16 (len (names_bytes entries)) ++ names_bytes entries.

(** What the search makes of the first server_name extension, at [base] bytes. *)
Fixpoint name_in (es : list (Z * list Z)) (base : Z) : option MyServerName :=
  match es with
  | [] => None
  | (typ, body) :: es' =>
      if typ =? 0 then
        match body with
        | _ :: _ :: 0 :: hi :: lo :: name => Some (mkServerName (base + 9) (256 * hi + lo) name 0)
        | _ => None
        end
      else name_in es' (base + 4 + len body)
  end.

(** The place of the extensions in the message. *)
Definition extensions_at (h : ClientHello) : Z :=
  42 + len (sessionID h) + len (suites h) + len (compression h).

Definition server_name (h : ClientHello) : option MyServerName :=
  n ← name_in (extensions h) 2;
  Some (mkServerName (Index n + extensions_at h) (Length n) (ServerName n) (extensions_at h)).

(** The server_name branch of the loop, on the body of the extension. *)
Lemma sni_reads base body : Forall is_u8 body ->
  (if len body <? sniExtensionHeaderLen then mret None
   else
     sniType ← checked (body !! 2%nat);
     if negb (sniType =? sniNameDNSHostnameType) then mret None
     else
       sniLen ← checked (uint16_at body 3);
       sex ← checked (slice_from body sniExtensionHeaderLen);
       mret (Some (mkServerName (base + extensionHeaderLen + sniExtensionHeaderLen) sniLen sex 0))) =
  Returns (match body with
           | _ :: _ :: 0 :: hi :: lo :: name => Some (mkServerName (base + 9) (256 * hi + lo) name 0)
           | _ => None
           end).
Proof.
  intros Hb. unfold len, sniExtensionHeaderLen, sniNameDNSHostnameType, extensionHeaderLen.
  destruct body as [|x [|y [|z [|hi [|lo name]]]]]; try done; try (by destruct z).
  destruct (Z.ltb_spec (Z.of_nat (length (x :: y :: z :: hi :: lo :: name))) 5); [cbn [length] in *; lia|].
  cbn [lookup list_lookup checked mbind outcome_bind]. destruct z; try done. cbn [Z.eqb negb].
  rewrite (slice_from_seam _ [x; y; 0; hi; lo] name) by done. unfold uint16_at. cbn. rewrite lor_shift8; [do 3 f_equal; lia|].
  rewrite !Forall_cons_iff in Hb. by destruct_and! Hb.
Qed.

Lemma extensions_loop_reads fuel es base : Forall (fun e => is_u16 (fst e) /\ Forall is_u8 (snd e)) es ->
  len (extensions_bytes es) < 65536 -> (length es < fuel)%nat ->
  extensions_loop fuel (extensions_bytes es) base = Returns (name_in es base).
Proof.
  revert fuel base. induction es as [|[typ body] es IH]; intros fuel base HF Hl Hf; (destruct fuel as [|fuel]; [cbn in Hf; lia|]); [done|].
  apply Forall_cons_iff in HF as [[Ht Hb] HF]. cbn [fst snd] in Ht, Hb. cbn [extensions_loop name_in].
  change (extensions_bytes ((typ, body) :: es)) with (extension_bytes (typ, body) ++ extensions_bytes es) in *.
  unfold extension_bytes in *. cbn [fst snd] in *. rewrite <- !app_assoc in *. unfold len, extensionHeaderLen in *.
  rewrite !length_app in *. change (length (be16 _)) with 2%nat in *. change (length (be16 _)) with 2%nat in *.
  destruct (Z.eqb_spec (Z.of_nat (2 + (2 + (length body + length (extensions_bytes es))))) 0); [lia|].
  destruct (Z.ltb_spec (Z.of_nat (2 + (2 + (length body + length (extensions_bytes es))))) 4); [lia|].
  rewrite uint16_at_head by done. cbn [checked mbind outcome_bind].
  rewrite (uint16_at_be16 (be16 typ) (Z.of_nat (length body))) by (unfold is_u; (lia || done)). cbn [checked mbind outcome_bind].
  destruct (Z.ltb_spec (Z.of_nat (2 + (2 + (length body + length (extensions_bytes es))))) (4 + Z.of_nat (length body))); [lia|].
  rewrite (slice_seam _ (be16 typ ++ be16 (Z.of_nat (length body))) body (extensions_bytes es)) by (by rewrite <- ?app_assoc).
  cbn [checked mbind outcome_bind]. unfold sniExtensionType. destruct (typ =? 0).
  - rewrite <- (sni_reads base body) by done. done.
  - rewrite u16_small by (unfold is_u; lia).
    rewrite (slice_from_seam _ (be16 typ ++ be16 (Z.of_nat (length body)) ++ body) (extensions_bytes es))
      by (rewrite <- ?app_assoc, ?length_app; (done || cbn; lia)).
    cbn [checked mbind outcome_bind]. apply IH; [done | unfold len; lia | cbn in Hf; lia].
Qed.

Lemma hello_version_ok v : 0x0300 <= v <= 0x0304 ->
  negb (Z.land v tlsVersionBitmask =? 0x0300) && negb (v =? tls13) = false.
Proof.
  intros Hv. assert (v = 0x0300 \/ v = 0x0301 \/ v = 0x0302 \/ v = 0x0303 \/ v = 0x0304) as H by lia.
  by destruct H as [-> | [-> | [-> | [-> | ->]]]].
Qed.

Lemma FromExtensions_reads fuel es : Forall (fun e => is_u16 (fst e) /\ Forall is_u8 (snd e)) es ->
  len (extensions_bytes es) < 65536 -> (length es < fuel)%nat ->
  indexTLSServerNameFromExtensions fuel (be16 (len (extensions_bytes es)) ++ extensions_bytes es) = Returns (name_in es 2).
Proof.
  intros HF Hl Hf. unfold indexTLSServerNameFromExtensions, extensionsHeaderLen. set (xs := extensions_bytes es) in *.
  assert (len (be16 (len xs) ++ xs) = 2 + len xs) as -> by (unfold len; rewrite length_app; cbn [length be16]; lia).
  assert (0 <= len xs) by (unfold len; lia).
  destruct (Z.eqb_spec (2 + len xs) 0); [lia|]. destruct (Z.ltb_spec (2 + len xs) 2); [lia|].
  rewrite uint16_at_head by (unfold is_u; lia). cbn [checked mbind outcome_bind].
  rewrite (slice_from_seam _ (be16 (len xs)) xs) by done. cbn [checked mbind outcome_bind]. rewrite Z.ltb_irrefl.
  by apply extensions_loop_reads.
Qed.

(** The message up to the session id, up to the cipher suites, and up to the
    extensions. *)
Definition before_session (h : ClientHello) : list Z := [1; 0] ++ be16 (len (hello_body h)) ++ be16 (version h) ++ random h.
Definition before_suites (h : ClientHello) : list Z := before_session h ++ [len (sessionID h)] ++ sessionID h.
Definition before_extensions (h : ClientHello) : list Z :=
  before_suites h ++ be16 (len (suites h)) ++ suites h ++ [len (compression h)] ++ compression h.

Definition suites_on (h : ClientHello) : list Z :=
  be16 (len (suites h)) ++ suites h ++ len (compression h) ::
  compression h ++ be16 (len (extensions_bytes (extensions h))) ++ extensions_bytes (extensions h).

Lemma hello_at_session h : hello_bytes h = before_session h ++ len (sessionID h) :: sessionID h ++ suites_on h.
Proof. unfold hello_bytes, hello_body, before_session, suites_on. by rewrite <- !app_assoc. Qed.

Lemma hello_at_suites h : hello_bytes h = before_suites h ++ suites_on h.
Proof. rewrite hello_at_session. unfold before_suites. by rewrite <- !app_assoc. Qed.

Lemma hello_parts h : hello_bytes h =
  before_extensions h ++ be16 (len (extensions_bytes (extensions h))) ++ extensions_bytes (extensions h).
Proof. unfold hello_bytes, hello_body, before_extensions, before_suites, before_session. by rewrite <- !app_assoc. Qed.

Lemma before_session_length h : hello_ok h -> length (before_session h) = 38%nat.
Proof. intros Hok. unfold before_session. rewrite !length_app, (ok_random h Hok). done. Qed.

Lemma before_suites_length h : hello_ok h -> len (before_suites h) = 39 + len (sessionID h).
Proof. intros Hok. unfold before_suites, len. rewrite !length_app, before_session_length by done. cbn [length]. lia. Qed.

Lemma before_extensions_length h : hello_ok h -> len (before_extensions h) = extensions_at h.
Proof.
  intros Hok. unfold before_extensions, extensions_at. pose proof (before_suites_length h Hok) as Hs. unfold len in *.
  rewrite !length_app. cbn [length be16]. lia.
Qed.

Lemma hello_handshake_len h : hello_ok h -> handshake_len (hello_bytes h) = Some (len (hello_body h)).
Proof.
  intros Hok. pose proof (ok_len h Hok). unfold handshake_len, hello_bytes, be16.
  cbn [lookup list_lookup app mbind option_bind]. f_equal. change (Z.shiftl 0 16) with 0. rewrite Z.lor_0_l.
  rewrite lor_shift8 by apply u8_is_u8. apply be16_value. unfold len in *. lia.
Qed.

Lemma hello_reads fuel h : hello_ok h -> (length (extensions h) < fuel)%nat ->
  indexTLSServerNameFromHandshake fuel (hello_bytes h) = Returns (server_name h).
Proof.
  intros Hok Hf. pose proof (ok_len h Hok) as Hl. pose proof (before_extensions_length h Hok) as He.
  pose proof (before_suites_length h Hok) as Hs. pose proof (before_session_length h Hok) as Hb.
  pose proof (hello_parts h) as Hp. set (xs := extensions_bytes (extensions h)) in *.
  assert (len (hello_bytes h) = 4 + len (hello_body h)) as Ht by (unfold hello_bytes, len; rewrite !length_app; cbn [length be16]; lia).
  assert (len (hello_bytes h) = extensions_at h + 2 + len xs) as Hx.
  { rewrite Hp. unfold len in *. rewrite !length_app. cbn [length be16]. lia. }
  unfold extensions_at in *. unfold indexTLSServerNameFromHandshake, handshakeHeaderLen, randomDataLen, sessionIDHeaderLen,
    cipherSuiteHeaderLen, compressMethodHeaderLen.
  assert (0 <= len (suites h) /\ 0 <= len xs /\ 0 <= len (sessionID h) /\ 0 <= len (compression h)) as (? & ? & ? & ?) by (unfold len; lia).
  destruct (Z.ltb_spec (len (hello_bytes h)) (6 + 32 + 1)); [lia|].
  change (hello_bytes h !! 0%nat) with (Some 1). cbn [checked mbind outcome_bind negb Z.eqb handshakeType].
  change (negb (1 =? handshakeType)) with false. rewrite hello_handshake_len by done. cbn [checked mbind outcome_bind].
  rewrite (slice_from_seam _ ([1; 0] ++ be16 (len (hello_body h))) (hello_body h)) by (by rewrite <- ?app_assoc).
  cbn [checked mbind outcome_bind]. rewrite Z.eqb_refl. cbn [negb].
  rewrite (uint16_at_seam _ ([1; 0] ++ be16 (len (hello_body h))) (version h) (drop 2 (hello_body h))) by
    (done || (unfold is_u; pose proof (ok_version h Hok); lia)).
  cbn [checked mbind outcome_bind]. rewrite hello_version_ok by apply Hok.
  rewrite (lookup_seam _ _ _ _ _ (hello_at_session h)) by done. cbn [checked mbind outcome_bind].
  destruct (Z.ltb_spec (len (hello_bytes h)) (6 + 32 + 1 + len (sessionID h))); [lia|].
  rewrite (slice_from_seam _ _ _ _ (hello_at_suites h)) by (unfold len in Hs |- *; lia). cbn [checked mbind outcome_bind].
  assert (len (suites_on h) = 5 + len (suites h) + len (compression h) + len xs) as Hon.
  { unfold suites_on. fold xs. unfold len. rewrite !length_app. cbn [length be16]. rewrite !length_app. cbn [length be16]. lia. }
  destruct (Z.ltb_spec (len (suites_on h)) 2); [lia|].
  rewrite (uint16_at_seam (suites_on h) [] (len (suites h)) (drop 2 (suites_on h))) by (done || (unfold is_u; lia)). cbn [checked mbind outcome_bind].
  destruct (Z.ltb_spec (len (suites_on h)) (2 + len (suites h) + 1)); [lia|].
  rewrite (lookup_seam _ (be16 (len (suites h)) ++ suites h) (compression h ++ be16 (len xs) ++ xs) (len (compression h)))
    by (first [ by rewrite <- app_assoc | rewrite length_app; cbn [length be16]; unfold len; lia ]).
  cbn [checked mbind outcome_bind].
  destruct (Z.ltb_spec (len (hello_bytes h)) (6 + 32 + 1 + len (sessionID h) + 2 + len (suites h) + 1 + len (compression h))); [lia|].
  rewrite (slice_from_seam _ _ _ _ Hp) by (unfold len in He |- *; lia). cbn [checked mbind outcome_bind].
  subst xs. rewrite (FromExtensions_reads fuel (extensions h)) by (done || apply Hok || lia). cbn [mbind outcome_bind].
  unfold server_name, extensions_at. destruct (name_in _ 2); cbn [mbind option_bind mret outcome_ret]; [|done].
  do 3 f_equal; lia.
Qed.

Lemma record_reads fuel h : hello_ok h -> (length (extensions h) < fuel)%nat ->
  IndexTLSServerName fuel (hello_record h) =
  Returns (n ← server_name h;
           Some (mkServerName (Index n + 5) (Length n) (ServerName n) (ExtensionsListLengthIndex n + 5))).
Proof.
  intros Hok Hf. pose proof (ok_len h Hok) as Hl. unfold IndexTLSServerName, recordLayerHeaderLen.
  assert (len (hello_bytes h) = 4 + len (hello_body h)) as Ht by (unfold hello_bytes, len; rewrite !length_app; cbn [length be16]; lia).
  assert (len (hello_record h) = 5 + len (hello_bytes h)) as -> by (unfold hello_record, len; rewrite !length_app; cbn [length be16]; lia).
  assert (0 <= len (hello_body h)) by (unfold len; lia). destruct (Z.ltb_spec (5 + len (hello_bytes h)) 5); [lia|].
  change (hello_record h !! 0%nat) with (Some 22). cbn [checked mbind outcome_bind]. change (negb (22 =? contentType)) with false.
  rewrite (uint16_at_seam (hello_record h) [22; 3; 1] (len (hello_bytes h)) (hello_bytes h)) by (done || (unfold is_u; lia)).
  cbn [checked mbind outcome_bind]. rewrite Z.ltb_irrefl.
  rewrite (slice_from_seam _ ([22; 3; 1] ++ be16 (len (hello_bytes h))) (hello_bytes h)) by (by rewrite <- ?app_assoc).
  cbn [checked mbind outcome_bind]. rewrite hello_reads by done. cbn [mbind outcome_bind]. by destruct (server_name h).
Qed.

Lemma extensions_bytes_length es : (length es <= length (extensions_bytes es))%nat.
Proof.
  induction es as [|e es IH]; [done|]. unfold extensions_bytes in *. cbn [map concat length]. rewrite length_app. unfold extension_bytes at 1.
  rewrite length_app. cbn [length be16]. lia.
Qed.

Lemma hello_record_bytes h : hello_ok h ->
  Forall is_u8 (hello_record h) /\ len (hello_record h) < 65536 /\ (length (extensions h) < length (hello_record h))%nat.
Proof.
  intros Hok. pose proof (ok_len h Hok) as Hl. pose proof (ok_bytes h Hok) as Hb.
  assert (forall v, Forall is_u8 (be16 v)) as H16 by (intros; repeat constructor; apply u8_is_u8).
  split; [|split].
  - unfold hello_record, hello_bytes. rewrite !Forall_app. split_and!; try done; rewrite ?list.Forall_cons; unfold is_u; split_and!; (done || lia).
  - unfold hello_record, hello_bytes, len in *. rewrite !length_app. cbn [length be16]. lia.
  - pose proof (extensions_bytes_length (extensions h)). unfold hello_record, hello_bytes, hello_body, len.
    rewrite !length_app. cbn [length be16]. lia.
Qed.

(** A ClientHello with one name, and a bare one. *)
Definition sni_body (name : list Z) : list Z := be16 (len name + 3) ++ [0] ++ be16 (len name) ++ name.

(** The lists of names that the search reads. *)
Lemma names_fit h es1 name rest es2 : hello_ok h -> extensions h = es1 ++ (0, names_body ((0, name) :: rest)) :: es2 ->
  len name < 65536.
Proof.
  intros Hok He. pose proof (ok_len h Hok) as Hl. unfold len in *. remember (names_body ((0, name) :: rest)) as body eqn:Hb.
  assert (length (extensions_bytes (extensions h)) <= length (hello_body h))%nat by (unfold hello_body; rewrite !length_app; lia).
  assert (length body <= length (extensions_bytes (extensions h)))%nat.
  { rewrite He. unfold extensions_bytes. rewrite map_app, concat_app, length_app. cbn [map concat]. unfold extension_bytes. cbn [fst snd].
    rewrite !length_app. lia. }
  assert (length name <= length body)%nat; [|lia]. rewrite Hb. unfold names_body. rewrite length_app.
  unfold names_bytes, name_entry. cbn [map concat fst snd]. rewrite !length_app. lia.
Qed.

Lemma name_in_none es base : Forall (fun e => fst e <> 0) es -> name_in es base = None.
Proof.
  intros HF. revert base. induction HF as [|[typ body] es Ht HF IH]; intros base; [done|]. cbn [name_in]. cbn in Ht.
  destruct (Z.eqb_spec typ 0); [done | apply IH].
Qed.

Lemma name_in_first es1 name rest es2 base :
  Forall (fun e => fst e <> 0) es1 -> len name < 65536 ->
  name_in (es1 ++ (0, names_body ((0, name) :: rest)) :: es2) base =
  Some (mkServerName (base + len (extensions_bytes es1) + 9) (len name) (name ++ names_bytes rest) 0).
Proof.
  intros HF Hl. revert base. induction HF as [|[typ body] es Ht HF IH]; intros base.
  - change (names_body ((0, name) :: rest)) with (be16 (len (names_bytes ((0, name) :: rest))) ++ [0] ++ be16 (len name) ++ (name ++ names_bytes rest)).
    cbn. rewrite be16_value by (unfold is_u, len in *; lia). do 2 f_equal. unfold len. cbn. lia.
  - cbn [app name_in]. cbn in Ht. destruct (Z.eqb_spec typ 0); [done|]. rewrite IH. do 2 f_equal.
    change (extensions_bytes ((typ, body) :: es)) with (extension_bytes (typ, body) ++ extensions_bytes es).
    unfold extension_bytes, len. cbn [fst snd]. rewrite !length_app. cbn [length be16]. lia.
Qed.
Definition hello_for (name : list Z) : ClientHello :=
  mkHello 0x0303 (repeat 7 32) [] [0x13; 1] [0] [(10, [0; 2; 0; 29]); (0, sni_body name); (43, [2; 3; 4])].

(** *** An extension of 65532 bytes *)

(** The index of the next extension wraps to 0. *)
Lemma extensions_loop_wraps fuel exs base typ :
  uint16_at exs 0 = Some typ -> typ <> 0 -> uint16_at exs 2 = Some 65532 -> 65536 <= len exs ->
  extensions_loop fuel exs base = Running.
Proof.
  intros Ht Hne Hl Hlen. revert base. induction fuel as [|fuel IH]; intros base; [done|]. cbn [extensions_loop].
  unfold extensionHeaderLen, sniExtensionType. destruct (Z.eqb_spec (len exs) 0); [lia|]. destruct (Z.ltb_spec (len exs) 4); [lia|].
  rewrite Ht, Hl. cbn [checked mbind outcome_bind]. destruct (Z.ltb_spec (len exs) (4 + 65532)); [lia|].
  unfold len in Hlen. rewrite slice_some by lia. cbn [checked mbind outcome_bind]. destruct (Z.eqb_spec typ 0); [done|].
  change (u16 (4 + 65532)) with 0. rewrite slice_from_some by lia. cbn [checked mbind outcome_bind]. apply IH.
Qed.

Definition long_extensions : list Z := [0; 1; 255; 252] ++ repeat 0 (Z.to_nat 65532).
Definition long_hello : list Z :=
  [1; 1; 0; 43; 3; 3] ++ repeat 0 32 ++ [0] ++ [0; 2; 0x13; 1] ++ [1; 0] ++ [0; 4] ++ long_extensions.
Definition long_packet : list Z := [22; 3; 1; 0; 0] ++ long_hello.

Lemma long_extensions_run fuel base : extensions_loop fuel long_extensions base = Running.
Proof. apply (extensions_loop_wraps fuel long_extensions base 1); [done | done | done | by vm_compute]. Qed.

Ltac known t := let v := eval vm_compute in t in replace t with v by (vm_compute; reflexivity).

Lemma long_hello_runs fuel : indexTLSServerNameFromHandshake fuel long_hello = Running.
Proof.
  unfold indexTLSServerNameFromHandshake.
  known (len long_hello <? handshakeHeaderLen + randomDataLen + sessionIDHeaderLen). known (long_hello !! 0%nat). known (handshake_len long_hello).
  rewrite (slice_from_seam long_hello (take 4 long_hello) (drop 4 long_hello)) by done.
  cbn [checked mbind outcome_bind].
  known (len (drop 4 long_hello)). known (uint16_at long_hello 4). known (long_hello !! 38%nat).
  cbn [checked mbind outcome_bind].
  known (negb (Z.land 771 tlsVersionBitmask =? 768) && negb (771 =? tls13)).
  known (negb (1 =? handshakeType)). known (negb (65579 =? 65579)).
  known (handshakeHeaderLen + randomDataLen + sessionIDHeaderLen + 0). known (len long_hello <? 39).
  rewrite (slice_from_seam long_hello (take 39 long_hello) (drop 39 long_hello)) by done.
  cbn [checked mbind outcome_bind]. known (len (drop 39 long_hello)). known (uint16_at (drop 39 long_hello) 0).
  cbn [checked mbind outcome_bind]. known (drop 39 long_hello !! Z.to_nat (cipherSuiteHeaderLen + 2)).
  cbn [checked mbind outcome_bind]. known (39 + cipherSuiteHeaderLen + 2 + compressMethodHeaderLen + 1). known (len long_hello <? 45).
  rewrite (slice_from_seam long_hello (take 45 long_hello) ([0; 4] ++ long_extensions)) by done.
  cbn [checked mbind outcome_bind]. unfold indexTLSServerNameFromExtensions.
  known (len ([0; 4] ++ long_extensions)). known (uint16_at ([0; 4] ++ long_extensions) 0). cbn [checked mbind outcome_bind].
  rewrite (slice_from_seam ([0; 4] ++ long_extensions) [0; 4] long_extensions) by done. cbn [checked mbind outcome_bind].
  known (len long_extensions). cbn [Z.ltb Z.compare]. by rewrite long_extensions_run.
Qed.


(** ** Theorems *)

(** C30. the search for the server name finds the host name of a ClientHello in one record (TLS 1.0 to 1.3, any session id,
    cipher suites, compression methods and extensions that fit in 65500 bytes).  When no extension is a server_name it gives
    nothing.  When the first server_name extension holds a list of names (RFC 6066) that begins with a host name, it gives the
    place and the length of that name; with the list's only name, the text it gives is the name, and the bytes of the packet at
    the place are its bytes.  The code does not read the length of the list: with further entries in the list, which the
    standard allows for other types of names only, their bytes are part of the text it gives. *)
Theorem server_name_found fuel h : hello_ok h -> (length (hello_record h) <= fuel)%nat ->
  (Forall (fun e => fst e <> 0) (extensions h) -> IndexTLSServerName fuel (hello_record h) = Returns None) /\
  forall es1 name rest es2,
    extensions h = es1 ++ (0, names_body ((0, name) :: rest)) :: es2 -> Forall (fun e => fst e <> 0) es1 ->
    exists n, IndexTLSServerName fuel (hello_record h) = Returns (Some n) /\
      Index n = 5 + extensions_at h + 2 + len (extensions_bytes es1) + 9 /\ Length n = len name /\
      ServerName n = name ++ names_bytes rest /\ ExtensionsListLengthIndex n = 5 + extensions_at h /\
      slice (hello_record h) (Index n) (Index n + Length n) = Some name.
Proof.
  intros Hok Hf. destruct (hello_record_bytes h Hok) as (Hb & Hl & Hn).
  rewrite record_reads by (done || lia). unfold server_name. split.
  { intros HF. by rewrite name_in_none. }
  intros es1 name rest es2 Hes HF. pose proof (names_fit h _ _ _ _ Hok Hes) as Hname.
  rewrite Hes, name_in_first by done. cbn [mbind option_bind]. eexists. split; [reflexivity|]. cbn [Index Length ServerName ExtensionsListLengthIndex].
  split_and!; [lia | done | done | lia|].
  destruct (Index_finds fuel (hello_record h) Hb Hl Hf) as (r & Hr' & Hfound). rewrite record_reads in Hr' by (done || lia).
  unfold server_name in Hr'. rewrite Hes, name_in_first in Hr' by done. injection Hr' as <-. destruct (Hfound _ eq_refl) as [[Hi Hs] _].
  cbn [Index ServerName] in Hi, Hs. rewrite Z.sub_0_r in Hs.
  eapply slice_prefix; [exact Hs|]. done.
Qed.

(** C29. whatever the first packet is (below 65536 bytes), the fragmenting connection writes all of it: it neither panics
    nor loops, reports the full length, and what goes out is the packet itself when it holds no server name; else the
    packet cut at places inside the name, one for each label that is cut, where the pieces put together are the packet.
    With records, each piece is a TLS record with the type and version of the packet and its own length, and the pieces
    put together are the packet without its record header.  Provided no label of the name is empty, no write or wait for the
    acknowledgement fails, and one of the two ways of splitting is on, as it is for every such connection the program makes. *)
Theorem first_packet_intact PublicSuffix rand_Intn io_error fuel c b :
  (forall k n, 0 < n -> 0 <= rand_Intn k n < n) -> (forall log, io_error log = None) ->
  Forall is_u8 b -> len b < 65536 -> (length b <= fuel)%nat -> 0 < len b ->
  firstPacketWritten c = false -> splitPacket c || splitRecord c = true ->
  (forall n, IndexTLSServerName fuel b = Returns (Some n) -> [] ∉ Split (ServerName n) dot) ->
  exists found log,
    IndexTLSServerName fuel b = Returns found /\
    Write PublicSuffix rand_Intn io_error fuel c b =
      Returns (len b, true, mkConn (tcpConn c) true (splitPacket c) (splitRecord c), log) /\
    match found with
    | Some n => located b 0 n /\ went_out PublicSuffix c b n log
    | None => log = [Written b]
    end.
Proof.
  intros Hrand Hio Hb Hl Hf H0 Hfirst Hsplit Hne. destruct (Index_finds fuel b Hb Hl Hf) as (r & Hr & Hfound). exists r.
  unfold Write. rewrite Hfirst, Hr. destruct (Z.gtb_spec (len b) 0); [|lia]. cbn [negb andb mbind outcome_bind].
  destruct r as [n|].
  - destruct (Hfound n eq_refl) as [Hloc Hi]. specialize (Hne n Hr).
    assert (forall log, sent log = [] -> exists log', write_split PublicSuffix rand_Intn io_error c b n log =
      Some (written c (len b) true log') /\ went_out PublicSuffix c b n log') as Hw.
    { intros log Hlog. eapply write_split_spec; try done.
      apply list.Forall_forall. intros l Hin ->. apply Hne. unfold labels_cut in Hin. destruct (bool_decide _); [done|]. by eapply subseteq_take. }
    rewrite (bool_decide_eq_false_2 (is_Some (io_error _))) by (rewrite Hio; by intros []).
    destruct (splitPacket c && tcpConn c).
    + destruct (Hw [NoDelay true] eq_refl) as (log & -> & Hout). by exists log.
    + destruct (Hw [] eq_refl) as (log & -> & Hout). by exists log.
  - unfold write_through. rewrite Hio. by eexists.
Qed.

(** A name the public suffix list knows is cut once, in its first label, since the number of labels given up is the
    number of dots in the whole name and not in its suffix: the other labels always go out in one piece, a name with a
    first label of one byte ([t.me]) goes out whole, and an empty first label makes the write panic. *)
Theorem first_label_alone_cut PublicSuffix rand_Intn io_error fuel c b n label rest :
  (forall k n, 0 < n -> 0 <= rand_Intn k n < n) -> (forall log, io_error log = None) ->
  Forall is_u8 b -> len b < 65536 -> (length b <= fuel)%nat -> 0 < len b ->
  firstPacketWritten c = false -> splitPacket c = true -> splitRecord c = false ->
  IndexTLSServerName fuel b = Returns (Some n) ->
  PublicSuffix (ServerName n) <> [] -> Split (ServerName n) dot = label :: rest ->
  match label with
  | [] => Write PublicSuffix rand_Intn io_error fuel c b = Panics
  | _ =>
      exists d c' log, 0 <= d < len label /\
        Write PublicSuffix rand_Intn io_error fuel c b = Returns (len b, true, c', log) /\
        sent log = [take (Z.to_nat (Index n + d)) b; drop (Z.to_nat (Index n + d)) b]
  end.
Proof.
  intros Hrand Hio Hb Hl Hf H0 Hfirst Hsp Hsr Hr Hps Hsplit.
  destruct (Index_finds fuel b Hb Hl Hf) as (r & Hr' & Hfound). rewrite Hr in Hr'. injection Hr' as <-.
  destruct (Hfound n eq_refl) as [Hloc Hi].
  assert (labels_cut PublicSuffix (ServerName n) = [label]) as Hcut.
  { unfold labels_cut. by rewrite bool_decide_eq_false_2, Hsplit by done. }
  unfold Write. rewrite Hfirst, Hr, Hsp. destruct (Z.gtb_spec (len b) 0); [|lia]. cbn [negb andb mbind outcome_bind].
  rewrite (bool_decide_eq_false_2 (is_Some (io_error _))) by (rewrite Hio; by intros []).
  destruct label as [|x label].
  { unfold write_split. rewrite labels_to_cut_spec, Hcut. by destruct (tcpConn c). }
  assert (forall log, sent log = [] -> exists log', write_split PublicSuffix rand_Intn io_error c b n log =
    Some (written c (len b) true log') /\ went_out PublicSuffix c b n log') as Hw.
  { intros log Hlog. apply write_split_spec; try done; [by rewrite Hcut; repeat constructor | by rewrite Hsp]. }
  assert (exists log, went_out PublicSuffix c b n log /\
    (if tcpConn c then checked (write_split PublicSuffix rand_Intn io_error c b n [NoDelay true])
     else checked (write_split PublicSuffix rand_Intn io_error c b n [])) = Returns (written c (len b) true log)) as (log & Hout & ->).
  { destruct (tcpConn c); [destruct (Hw [NoDelay true] eq_refl) as (log & -> & Hout) | destruct (Hw [] eq_refl) as (log & -> & Hout)]; by exists log. }
  destruct Hout as (ix & Hlen & HF & _ & Hsent). rewrite Hcut in Hlen, HF. destruct ix as [|i [|]]; try done.
  apply Forall_cons_iff in HF as [HF _]. cbn [Join] in HF. exists (i - Index n). do 2 eexists. split; [lia|]. split; [done|].
  rewrite Hsent, Hsp. unfold framed, start. rewrite Hsr. cbn [map cut_at]. rewrite drop_0, Z.sub_0_r, Zplus_minus. done.
Qed.

(** The first write of a ClientHello with an extension of 65532 bytes never ends: the index of the next extension
    wraps around at 16 bits and the loop reads the same extension for ever. *)
Theorem wrapped_extension_never_ends PublicSuffix rand_Intn io_error fuel tcp packets records :
  Write PublicSuffix rand_Intn io_error fuel (NewConn tcp packets records) long_packet = Running.
Proof.
  unfold Write, IndexTLSServerName. known (len long_packet >? 0). known (len long_packet <? recordLayerHeaderLen).
  known (long_packet !! 0%nat). known (uint16_at long_packet 3). cbn [checked mbind outcome_bind negb andb NewConn firstPacketWritten].
  known (negb (22 =? contentType)). known (len long_packet <? recordLayerHeaderLen + 0).
  rewrite (slice_from_seam long_packet [22; 3; 1; 0; 0] long_hello) by done. cbn [checked mbind outcome_bind].
  by rewrite long_hello_runs.
Qed.

(** *** The theorems at a packet *)

Definition example_name : list Z := str "www.example.org".
Definition example_packet : list Z := hello_record (hello_for example_name).
Definition suffix_org (name : list Z) : list Z := str "org".

Lemma hello_for_ok : hello_ok (hello_for example_name).
Proof. split; try by_eval; vm_compute; split; (done || congruence). Qed.

Lemma server_name_found_witness :
  exists n, IndexTLSServerName 1000 example_packet = Returns (Some n) /\ ServerName n = example_name /\
    slice example_packet (Index n) (Index n + Length n) = Some example_name.
Proof.
  destruct (server_name_found 1000 (hello_for example_name) hello_for_ok ltac:(by_eval)) as [_ H].
  destruct (H (take 1 (extensions (hello_for example_name))) example_name [] (drop 2 (extensions (hello_for example_name))) ltac:(vm_compute; reflexivity) ltac:(by_eval))
    as (n & H1 & _ & _ & H2 & _ & H3).
  rewrite app_nil_r in H2. by exists n.
Defined.

Lemma example_located : IndexTLSServerName 1000 example_packet = Returns (Some (mkServerName 69 15 example_name 50)).
Proof. vm_compute. reflexivity. Qed.

Lemma example_bytes : Forall is_u8 example_packet.
Proof. apply hello_record_bytes, hello_for_ok. Qed.

Lemma first_packet_intact_witness :
  exists log, Write suffix_org (fun _ _ => 0) (fun _ => None) 1000 (NewConn true true true) example_packet =
    Returns (len example_packet, true, mkConn true true true true, log) /\
    went_out suffix_org (NewConn true true true) example_packet (mkServerName 69 15 example_name 50) log.
Proof.
  destruct (first_packet_intact suffix_org (fun _ _ => 0) (fun _ => None) 1000 (NewConn true true true) example_packet)
    as (found & log & Hf & Hw & Hm).
  - intros k n Hn. lia.
  - done.
  - exact example_bytes.
  - by vm_compute.
  - by_eval.
  - by vm_compute.
  - done.
  - done.
  - intros n. rewrite example_located. intros [= <-]. by_eval.
  - rewrite example_located in Hf. injection Hf as <-. exists log. split; [exact Hw | apply Hm].
Defined.

(** The draws have no choice in a label of one byte. *)
Definition short_packet : list Z := hello_record (hello_for (str "t.me")).

Lemma first_label_alone_cut_witness :
  exists d c' log, 0 <= d < 1 /\
    Write (fun _ => str "me") (fun _ _ => 0) (fun _ => None) 1000 (NewConn true true false) short_packet =
      Returns (len short_packet, true, c', log) /\
    sent log = [take (Z.to_nat (69 + d)) short_packet; drop (Z.to_nat (69 + d)) short_packet].
Proof.
  apply (first_label_alone_cut (fun _ => str "me") (fun _ _ => 0) (fun _ => None) 1000 (NewConn true true false) short_packet
    (mkServerName 69 4 (str "t.me") 50) (str "t") [str "me"]).
  - intros k n Hn. lia.
  - done.
  - by_eval.
  - by vm_compute.
  - by_eval.
  - by vm_compute.
  - done.
  - done.
  - done.
  - vm_compute. reflexivity.
  - by_eval.
  - vm_compute. reflexivity.
Defined.

End TlsFragment.
