(* ===== verification/Masque.v ===== *)
(** * Decoy packets that look like other protocols

    Models transport/wireguard/masque_awg.go, pseudo_gen_awg.go, sip_invite_awg.go
    and stun_request_awg.go: the packets that are sent ahead of a handshake to pass
    for QUIC, DNS, STUN or SIP, as texts for the decoy generator of ObfChain.v.  The
    QUIC packet itself is built in QuicInitial.v. *)

From S2P Require Import Prelude Bits Bytes GoStrings.

Module Masque.

Local Open Scope Z_scope.

(** ** Random draws

    A computation draws numbers and bytes from [crypto/rand]; the state is the
    number of the next draw.  It ends with a value, an error or a panic, or is
    still drawing when its fuel is used up. *)

Inductive outcome (A : Type) :=
| Ok (a : A) (next : nat)
| Err
| Panic
| Drawing.

Arguments Ok {_} _ _.
Arguments Err {_}.
Arguments Panic {_}.
Arguments Drawing {_}.

Definition G (A : Type) : Type := nat -> outcome A.

Definition ok {A} (a : A) : G A := fun i => Ok a i.
Definition err {A} : G A := fun _ => Err.
Definition panic {A} : G A := fun _ => Panic.

Definition bind {A B} (c : G A) (k : A -> G B) : G B :=
  fun i => match c i with Ok a j => k a j | Err => Err | Panic => Panic | Drawing => Drawing end.

Declare Scope masque_scope.
Delimit Scope masque_scope with masque.
Notation "'let!' x := c 'in' k" := (bind c (fun x => k)) (at level 200, x name, right associativity) : masque_scope.

Local Open Scope masque_scope.

(** A value, or an error. *)
Definition try {A} (o : option A) : G A := match o with Some a => ok a | None => err end.

Section Draws.

Context (rand_Int : nat -> Z -> option Z) (rand_Read : nat -> nat -> option (list Z)).

Definition pgIntn (n : Z) : G Z :=
  if n <=? 1 then ok 0
  else fun i => match rand_Int i n with Some v => Ok v (S i) | None => Panic end.

Definition read (n : nat) : G (list Z) := fun i => match rand_Read i n with Some b => Ok b (S i) | None => Err end.

(** ** Words *)

Definition letters (s : string) : list (list Z) := Split (str s) 32.

Definition pgCons : list (list Z) := letters "b c d f g h j k l m n p r s t v w z".
Definition pgVow : list (list Z) := letters "a e i o u".
Definition pgOnset : list (list Z) := letters "br tr cr dr fr gr pr st sp sk sl sm sn bl cl fl gl pl tw sh".
Definition pgCoda : list (list Z) := letters "lk sk st nk sh nt rk ng".
Definition pgTLD : list (list Z) := letters "com net org io co".

Definition pgPick (seq : list (list Z)) : G (list Z) :=
  let! n := pgIntn (Z.of_nat (length seq)) in
  if n <? 0 then panic
  else match seq !! Z.to_nat n with Some w => ok w | None => panic end.

Definition pgChance (pct : Z) : G bool := let! n := pgIntn 100 in ok (n <? pct).

Fixpoint pg_blocks (blocks : nat) (b : list Z) : G (list Z) :=
  match blocks with
  | O => ok b
  | S blocks' =>
      let! c := pgChance 60 in
      let! w := (if c : bool then pgPick pgCons else pgPick pgOnset) in
      let! v := pgPick pgVow in
      pg_blocks blocks' (b ++ w ++ v)
  end.

Definition pgWord : G (list Z) :=
  let! c := pgPick pgCons in
  let! v := pgPick pgVow in
  let! n := pgIntn 2 in
  let! b := pg_blocks (Z.to_nat (2 + n)) (c ++ v) in
  let! last := pgChance 50 in
  if last : bool then
    let! coda := pgChance 30 in
    let! w := (if coda : bool then pgPick pgCoda else pgPick pgCons) in
    ok (b ++ w)
  else ok b.

Definition pgUser : G (list Z) :=
  let! u := pgWord in
  let! two := pgChance 30 in
  if two : bool then let! w := pgWord in ok (u ++ str "_" ++ w) else ok u.

(** [hexDigits[i]], which panics outside the digits. *)
Definition hexDigit (i : Z) : G Z := if (0 <=? i) && (i <? 16) then ok (hex_digit i) else panic.

Fixpoint pgHex (n : nat) : G (list Z) :=
  match n with
  | O => ok []
  | S n' =>
      let! i := pgIntn 16 in
      let! d := hexDigit i in
      let! rest := pgHex n' in
      ok (d :: rest)
  end.

Fixpoint pg_digits (n : nat) : G (list Z) :=
  match n with
  | O => ok []
  | S n' =>
      let! d := pgIntn 10 in
      let! rest := pg_digits n' in
      ok (u8 (48 + d) :: rest)
  end.

Definition pgDigits (n : nat) : G (list Z) :=
  match n with
  | O => ok []
  | S n' =>
      let! d := pgIntn 9 in
      let! rest := pg_digits n' in
      ok (u8 (49 + d) :: rest)
  end.

Definition pgDomainHost : G (list Z) :=
  let! n := pgIntn 100 in
  if n <? 60 then
    let! a := pgWord in
    let! b := pgWord in
    let! tld := pgPick pgTLD in
    ok (a ++ str "." ++ b ++ str "." ++ tld)
  else
    let! a := pgWord in
    let! tld := pgPick pgTLD in
    ok (a ++ str "." ++ tld).

(** ** Texts of decoys *)

(** [cpsBuilder], as the list of its parts. *)
Definition addBytes (parts : list (list Z)) (b : list Z) : list (list Z) :=
  match b with
  | [] => parts
  | _ => parts ++ [str "<b 0x" ++ hex_EncodeToString b ++ str ">"]
  end.

Definition addRand (parts : list (list Z)) (n : Z) : list (list Z) :=
  if n <=? 0 then parts else parts ++ [str "<r " ++ FormatInt n ++ str ">"].

Definition cps_String (parts : list (list Z)) : list Z := Join parts [].

(** *** DNS *)

Definition dot : Z := 46.

Fixpoint encode_labels (labels : list (list Z)) : option (list Z) :=
  match labels with
  | [] => Some [0]
  | label :: labels' =>
      if (length label =? 0)%nat || (63 <? length label)%nat then None
      else rest ← encode_labels labels'; Some (u8 (Z.of_nat (length label)) :: label ++ rest)
  end.

Definition encodeDNSName (domain : list Z) : option (list Z) :=
  encode_labels (Split (TrimSuffix domain (str ".")) dot).

Definition dnsOptUDPSize : Z := 1232.
Definition dnsOptCoverCode : Z := 0xFDE9.
Definition dnsCoverLen : Z := 40.
Definition dnsQTypeHTTPS : Z := 0x0041.

Definition masqueDNSQueryCPS (domain : list Z) : option (list Z) :=
  qname ← encodeDNSName domain;
  let question := qname ++ be16 dnsQTypeHTTPS ++ [0; 1] in
  let optLen := u16 dnsCoverLen in
  let rdLength := u16 (4 + dnsCoverLen) in
  let hdr := addRand [] 2 in
  let hdr := addBytes hdr [1; 0; 0; 1; 0; 0; 0; 0; 0; 1] in
  let hdr := addBytes hdr question in
  let opt := [0; 0; 0x29] ++ be16 dnsOptUDPSize ++ [0; 0; 0; 0] ++ be16 rdLength ++ be16 dnsOptCoverCode ++ be16 optLen in
  let hdr := addBytes hdr opt in
  Some (cps_String (addRand hdr dnsCoverLen)).

(** *** SIP *)

Record sipDialog := mkDialog {
  calleeHost : list Z;
  callerDom : list Z;
  uaHost : list Z;
  fromUser : list Z;
  toUser : list Z;
  fromDisp : list Z;
  toDisp : list Z;
  branch : list Z;
  tag : list Z;
  callID : list Z;
  cseq : list Z
}.

Definition sipCapitalize (s : list Z) : list Z :=
  match s with
  | [] => []
  | c :: s' => if (97 <=? c) && (c <=? 122) then (c - 32) :: s' else s
  end.

(** The fields of the literal are evaluated in order. *)
Definition newSIPDialog (domain : list Z) : G sipDialog :=
  let callerDom := TrimSuffix domain (str ".") in
  let! callerDom := (if bool_decide (callerDom = []) then pgDomainHost else ok callerDom) in
  let! fromUser := pgUser in
  let! toUser := pgUser in
  let! calleeHost := pgDomainHost in
  let! digits := pgDigits 2 in
  let! branch := pgHex 16 in
  let! tag := pgDigits 10 in
  let! callID := pgHex 14 in
  let! cseq := pgDigits 6 in
  ok (mkDialog calleeHost callerDom (str "pc" ++ digits ++ str "." ++ callerDom) fromUser toUser (sipCapitalize fromUser)
        (sipCapitalize toUser) branch tag callID cseq).

Definition crlf : list Z := [13; 10].

Definition sip_via (d : sipDialog) : list Z := str "Via: SIP/2.0/UDP " ++ uaHost d ++ str ";branch=z9hG4bK" ++ branch d ++ crlf.
Definition sip_to (d : sipDialog) : list Z := str "To: " ++ toDisp d ++ str " <sip:" ++ toUser d ++ str "@" ++ calleeHost d ++ str ">" ++ crlf.
Definition sip_from (d : sipDialog) : list Z :=
  str "From: " ++ fromDisp d ++ str " <sip:" ++ fromUser d ++ str "@" ++ callerDom d ++ str ">;tag=" ++ tag d ++ crlf.
Definition sip_ids (d : sipDialog) : list Z :=
  str "Call-ID: " ++ callID d ++ str "@" ++ uaHost d ++ crlf ++ str "CSeq: " ++ cseq d ++ str " INVITE" ++ crlf.

Definition sip_invite (d : sipDialog) : list Z :=
  str "INVITE sip:" ++ toUser d ++ str "@" ++ calleeHost d ++ str " SIP/2.0" ++ crlf ++ sip_via d ++ str "Max-Forwards: 70" ++ crlf ++
  sip_to d ++ sip_from d ++ sip_ids d ++ str "Contact: <sip:" ++ fromUser d ++ str "@" ++ uaHost d ++ str ">" ++ crlf ++
  str "Content-Type: application/sdp" ++ crlf ++ str "Content-Length: 0" ++ crlf ++ crlf.

Definition sip_trying (d : sipDialog) : list Z :=
  str "SIP/2.0 100 Trying" ++ crlf ++ sip_via d ++ sip_to d ++ sip_from d ++ sip_ids d ++ str "Content-Length: 0" ++ crlf ++ crlf.

Definition masqueSIPInviteCPS (d : sipDialog) : list Z := cps_String (addBytes [] (sip_invite d)).
Definition masqueSIPTryingCPS (d : sipDialog) : list Z := cps_String (addBytes [] (sip_trying d)).

(** *** STUN *)

Definition stunMagicCookie : Z := 0x2112A442.
Definition stunTypeBindingRequest : Z := 0x0001.
Definition stunAttrUsername : Z := 0x0006.
Definition stunAttrMsgIntegrity : Z := 0x0008.
Definition stunAttrPriority : Z := 0x0024.
Definition stunAttrSoftware : Z := 0x8022.
Definition stunAttrIceControlling : Z := 0x802a.
Definition stunAttrFingerprint : Z := 0x8028.
Definition stunFingerprintXOR : Z := 0x5354554e.
Definition stunSoftwareProduct : list Z := str "libwebrtc".

Definition be32 (v : Z) : list Z := [u8 (Z.shiftr v 24); u8 (Z.shiftr v 16); u8 (Z.shiftr v 8); u8 v].

Definition pad4 (dst : list Z) : list Z := dst ++ repeat 0 ((4 - length dst mod 4) mod 4)%nat.

Definition appendSTUNAttr (dst : list Z) (typ : Z) (val : list Z) : list Z :=
  pad4 (dst ++ be16 typ ++ be16 (u16 (Z.of_nat (length val))) ++ val).

(** [seed[i]] panics when there are fewer than eight bytes. *)
Definition stunICEUsername (seed : list Z) : option (list Z) :=
  match seed with
  | s0 :: s1 :: s2 :: s3 :: s4 :: s5 :: s6 :: s7 :: _ =>
      Some (map (fun s => hex_digit (s mod 16)) [s0; s1; s2; s3] ++ str ":" ++ map (fun s => hex_digit (s mod 16)) [s4; s5; s6; s7])
  | _ => None
  end.

(** [crc32.ChecksumIEEE], bit by bit. *)
Definition crc_bit (c : Z) : Z := if Z.testbit c 0 then Z.lxor (Z.shiftr c 1) 0xedb88320 else Z.shiftr c 1.
Definition crc_byte (c b : Z) : Z := Nat.iter 8 crc_bit (Z.lxor c b).
Definition ChecksumIEEE (data : list Z) : Z := Z.lxor (foldl crc_byte 0xffffffff data) 0xffffffff.

(** The header with the length of what follows it. *)
Definition stun_header (len : Z) (txn : list Z) : list Z := be16 stunTypeBindingRequest ++ be16 (u16 len) ++ be32 stunMagicCookie ++ txn.

Context (hmac_sha1 : list Z -> list Z -> list Z).

Definition buildSTUNBindingRequest : G (list Z) :=
  let! txn := read 12 in
  let! ufrag := read 8 in
  let! tie := read 8 in
  let! prio := read 4 in
  let! integrityKey := read 16 in
  match stunICEUsername ufrag with
  | None => panic
  | Some username =>
      let attrs := appendSTUNAttr [] stunAttrUsername username in
      let attrs := appendSTUNAttr attrs stunAttrIceControlling tie in
      let attrs := appendSTUNAttr attrs stunAttrPriority prio in
      let attrs := appendSTUNAttr attrs stunAttrSoftware stunSoftwareProduct in
      let miAttrTotal := 24 in
      let len := Z.of_nat (length attrs) in
      let preMI := stun_header (len + miAttrTotal) txn ++ attrs in
      let mi := hmac_sha1 integrityKey preMI in
      let withMI := appendSTUNAttr preMI stunAttrMsgIntegrity mi in
      let fpAttrTotal := 8 in
      match copy_at withMI 2 (be16 (u16 (len + miAttrTotal + fpAttrTotal))) with
      | None => panic
      | Some withMI =>
          let crc := Z.lxor (ChecksumIEEE withMI) stunFingerprintXOR in
          ok (appendSTUNAttr withMI stunAttrFingerprint (be32 crc))
      end
  end.

Definition masqueSTUNRequestCPS : G (list Z) :=
  let! pkt := buildSTUNBindingRequest in
  ok (cps_String (addBytes [] pkt)).

(** ** The choice of a protocol *)

Definition is_letter (c : Z) : bool := ((97 <=? c) && (c <=? 122)) || ((65 <=? c) && (c <=? 90)) || is_digit c || (c =? 45) || (c =? 95).

Definition valid_label (label : list Z) : bool :=
  match label with
  | [] => false
  | c :: _ =>
      (length label <=? 63)%nat && negb (c =? 45) && negb (bool_decide (list.last label = Some 45)) && forallb is_letter label
  end.

Definition validateMasqueDomain (domain : list Z) : bool :=
  negb (bool_decide (domain = [])) &&
  let name := TrimSuffix domain (str ".") in
  negb (bool_decide (name = [])) && (length name <=? 253)%nat && negb (HasPrefix name (str ".")) &&
  forallb valid_label (Split name dot).

(** The browser, which may be empty, or an error. *)
Definition normalizeMasqueBrowser (ib proto : list Z) : option (list Z) :=
  let browser := ToLower (TrimSpace ib) in
  if bool_decide (browser = []) then Some []
  else if bool_decide (browser ∈ [str "chrome"; str "firefox"; str "curl"]) then
    if bool_decide (proto = str "quic") then Some browser else None
  else None.

End Draws.

End Masque.
