(* ===== verification/QuicInitial.v ===== *)
(** * The QUIC Initial packet of the decoys

    Models transport/wireguard/quic_initial_awg.go, quic_crypto_awg.go and
    quic_clienthello_awg.go: a TLS ClientHello is cut into CRYPTO frames that are
    sent out of order between PING and PADDING frames, and sealed into a QUIC v1
    Initial packet of a fixed size. *)

From S2P Require Import Prelude Bits Bytes GoStrings Masque.

Module QuicInitial.

Import Masque.

Local Open Scope Z_scope.
Local Open Scope masque_scope.

(** ** Varints *)

Definition appendQUICVarint (dst : list Z) (v : Z) : list Z :=
  if v <? 2 ^ 6 then dst ++ [u8 v]
  else if v <? 2 ^ 14 then dst ++ [Z.lor (u8 (Z.shiftr v 8)) 0x40; u8 v]
  else if v <? 2 ^ 30 then dst ++ [Z.lor (u8 (Z.shiftr v 24)) 0x80; u8 (Z.shiftr v 16); u8 (Z.shiftr v 8); u8 v]
  else dst ++ [Z.lor (u8 (Z.shiftr v 56)) 0xc0; u8 (Z.shiftr v 48); u8 (Z.shiftr v 40); u8 (Z.shiftr v 32);
               u8 (Z.shiftr v 24); u8 (Z.shiftr v 16); u8 (Z.shiftr v 8); u8 v].

Definition varintLen (v : Z) : nat :=
  if v <? 2 ^ 6 then 1%nat
  else if v <? 2 ^ 14 then 2%nat
  else if v <? 2 ^ 30 then 4%nat
  else 8%nat.

Definition quicInitialTotalLen : Z := 1250.
Definition quicPacketNumberLen : Z := 1.
Definition quicAEADTagLen : Z := 16.
Definition quicDCIDLen : Z := 8.
Definition quicVersion1 : Z := 1.

(** ** Frames *)

Inductive planEntry :=
| frameCrypto (cryptoIdx : nat)
| framePing
| framePadding (padLen : Z)
| framePaddingFlex.

#[export] Instance planEntry_eq_dec : EqDecision planEntry.
Proof. solve_decision. Defined.

Record quicGenParams := mkParams {
  fragments : Z;
  pings : Z;
  totalLenMin : Z;
  totalLenMax : Z
}.

Definition defaultQUICGenParams : quicGenParams := mkParams 6 2 quicInitialTotalLen quicInitialTotalLen.

Record cryptoFragment := mkFragment {
  offset : Z;
  data : list Z
}.

(** [sortInts]: the element after the sorted front, which is kept in reverse, is
    swapped down to its place. *)
Fixpoint sink (x : Z) (front : list Z) : list Z :=
  match front with
  | [] => [x]
  | y :: front' => if y >? x then y :: sink x front' else x :: y :: front'
  end.

Definition sortInts (a : list Z) : list Z := rev (foldl (fun front x => sink x front) [] a).

Section Draws.

Context (rand_Int : nat -> Z -> option Z) (rand_Read : nat -> nat -> option (list Z)).

Definition randInt (n : Z) : G Z :=
  if n <=? 1 then ok 0
  else fun i => match rand_Int i n with Some v => Ok v (S i) | None => Err end.

(** The loop that draws distinct cuts; [fuel] bounds the number of draws. *)
Fixpoint draw_cuts (fuel : nat) (want : nat) (interior : Z) (cutSet : list Z) : G (list Z) :=
  if (want <=? length cutSet)%nat then ok cutSet
  else
    match fuel with
    | O => fun _ => Drawing
    | S fuel' =>
        let! p := randInt interior in
        draw_cuts fuel' want interior (if bool_decide (p + 1 ∈ cutSet) then cutSet else cutSet ++ [p + 1])
    end.

(** [ch[cuts[i]:cuts[i+1]]] for the successive cuts. *)
Fixpoint fragments_at (ch : list Z) (cuts : list Z) : option (list cryptoFragment) :=
  match cuts with
  | a :: (b :: _) as rest =>
      piece ← slice ch a b;
      frags ← fragments_at ch rest;
      Some (mkFragment a piece :: frags)
  | _ => Some []
  end.

Context (fuel : nat).

Definition planFragmentsN (ch : list Z) (n : Z) : G (list cryptoFragment) :=
  if n <? 2 then err
  else if Z.of_nat (length ch) <? n then err
  else
    let! cutSet := draw_cuts fuel (Z.to_nat (n - 1)) (Z.of_nat (length ch) - 1) [] in
    let cuts := sortInts ([0] ++ cutSet ++ [Z.of_nat (length ch)]) in
    match fragments_at ch cuts with
    | Some frags => ok frags
    | None => panic
    end.

Definition swap (l : list nat) (i j : nat) : option (list nat) :=
  a ← l !! i; b ← l !! j; Some (<[j := a]> (<[i := b]> l)).

(** The shuffle, from index [i] down to 1. *)
Fixpoint shuffle (i : nat) (order : list nat) : G (list nat) :=
  match i with
  | O => ok order
  | S i' =>
      let! j := randInt (Z.of_nat i + 1) in
      if j <? 0 then panic
      else match swap order i (Z.to_nat j) with
           | Some order => shuffle i' order
           | None => panic
           end
  end.

(** The padding runs from number [i] on, of which number [flexPick] is flexible. *)
Fixpoint padding_runs (count : nat) (i flexPick : Z) : G (list planEntry) :=
  match count with
  | O => ok []
  | S count' =>
      let! e := (if i =? flexPick then ok framePaddingFlex
                 else let! sz := randInt 48 in ok (framePadding (8 + sz))) in
      let! rest := padding_runs count' (i + 1) flexPick in
      ok (e :: rest)
  end.

Fixpoint assign_gaps (fillers : list planEntry) (n : Z) (gaps : list (list planEntry)) : G (list (list planEntry)) :=
  match fillers with
  | [] => ok gaps
  | f :: fillers' =>
      let! slot := randInt n in
      if slot <? 0 then panic
      else match gaps !! Z.to_nat slot with
           | Some gap => assign_gaps fillers' n (<[Z.to_nat slot := gap ++ [f]]> gaps)
           | None => panic
           end
  end.

Fixpoint interleave (order : list nat) (gaps : list (list planEntry)) : list planEntry :=
  match order, gaps with
  | idx :: order', gap :: gaps' => frameCrypto idx :: gap ++ interleave order' gaps'
  | _, _ => []
  end.

Definition randomizedWirePlan (frags : list cryptoFragment) (pings : Z) : G (list planEntry) :=
  let n := length frags in
  if (n <? 2)%nat then err
  else
    let pings := if pings <? 1 then 1 else pings in
    let! order := shuffle (n - 1) (seq 0 n) in
    let order := match order with 0%nat :: b :: rest => b :: 0%nat :: rest | _ => order end in
    let padRuns := pings + 2 in
    let! flexPick := randInt padRuns in
    let! runs := padding_runs (Z.to_nat padRuns) 0 flexPick in
    let fillers := repeat framePing (Z.to_nat pings) ++ runs in
    let! gaps := assign_gaps fillers (Z.of_nat n) (repeat [] n) in
    ok (interleave order gaps).

(** ** Payload *)

Definition appendCryptoFrame (dst : list Z) (f : cryptoFragment) : list Z :=
  appendQUICVarint (appendQUICVarint (dst ++ [0x06]) (offset f)) (Z.of_nat (length (data f))) ++ data f.

(** The length of the frames without the flexible padding, and whether there is
    one. *)
Fixpoint planFixedLen (frags : list cryptoFragment) (plan : list planEntry) (total : Z) (flex : bool) : option (Z * bool) :=
  match plan with
  | [] => Some (total, flex)
  | frameCrypto idx :: plan' =>
      f ← frags !! idx;
      planFixedLen frags plan'
        (total + (1 + Z.of_nat (varintLen (offset f)) + Z.of_nat (varintLen (Z.of_nat (length (data f)))) + Z.of_nat (length (data f)))) flex
  | framePing :: plan' => planFixedLen frags plan' (total + 1) flex
  | framePaddingFlex :: plan' => planFixedLen frags plan' total true
  | framePadding n :: plan' => planFixedLen frags plan' (total + n) flex
  end.

Fixpoint append_frames (frags : list cryptoFragment) (plan : list planEntry) (flexLen : Z) (out : list Z) : option (list Z) :=
  match plan with
  | [] => Some out
  | frameCrypto idx :: plan' => f ← frags !! idx; append_frames frags plan' flexLen (appendCryptoFrame out f)
  | framePing :: plan' => append_frames frags plan' flexLen (out ++ [0x01])
  | framePadding n :: plan' => append_frames frags plan' flexLen (out ++ repeat 0 (Z.to_nat n))
  | framePaddingFlex :: plan' => append_frames frags plan' flexLen (out ++ repeat 0 (Z.to_nat flexLen))
  end.

Definition buildInitialPayload (frags : list cryptoFragment) (plan : list planEntry) (targetLen : Z) : option (list Z) :=
  '(fixed, hasFlex) ← planFixedLen frags plan 0 false;
  if negb hasFlex then None
  else
    let flexLen := targetLen - fixed in
    if flexLen <? 0 then None
    else
      out ← append_frames frags plan flexLen [];
      if negb (Z.of_nat (length out) =? targetLen) then None else Some out.

(** ** ClientHello *)

Definition quicCHTargetLen : Z := 294.
Definition quicCHMinLen : Z := 291.

Definition appendVec16 (dst body : list Z) : list Z := dst ++ be16 (u16 (Z.of_nat (length body))) ++ body.

Definition appendExtension (dst : list Z) (extType : Z) (data : list Z) : list Z :=
  dst ++ be16 extType ++ be16 (u16 (Z.of_nat (length data))) ++ data.

Definition append_param (p : list Z) (id : Z) (value : list Z) : list Z :=
  appendQUICVarint (appendQUICVarint p id) (Z.of_nat (length value)) ++ value.

Definition buildQUICTransportParams : list Z :=
  foldl (fun p x => append_param p (fst x) (appendQUICVarint [] (snd x))) []
    [(0x01, 30000); (0x04, 0x00c00000); (0x05, 0x00100000); (0x06, 0x00100000); (0x07, 0x00100000); (0x08, 100); (0x09, 100);
     (0x0e, 8); (0x03, 1472)].

Definition sigAlgs : list Z := [4; 3; 8; 4; 4; 1; 8; 5; 5; 1; 8; 6; 6; 1; 2; 1].

(** The extensions before the padding. *)
Definition hello_extensions (sni x25519Pub : list Z) : list Z :=
  let exts := appendExtension [] 0x000a (appendVec16 [] [0; 0x1d]) in
  let exts := appendExtension exts 0x000d (appendVec16 [] sigAlgs) in
  let exts := appendExtension exts 0x0000 (appendVec16 [] (appendVec16 [0] sni)) in
  let exts := appendExtension exts 0x0033 (appendVec16 [] (appendVec16 (be16 0x001d) x25519Pub)) in
  let exts := appendExtension exts 0x0039 buildQUICTransportParams in
  let exts := appendExtension exts 0x0a0a [0; 0; 0] in
  let exts := appendExtension exts 0x002d [1; 1] in
  let exts := appendExtension exts 0x0010 (appendVec16 [] (2 :: str "h3")) in
  let exts := appendExtension exts 0x001b [2; 0; 2] in
  appendExtension exts 0x002b [2; 3; 4].

Definition buildGenericClientHello (sni tlsRandom x25519Pub : list Z) : option (list Z) :=
  if bool_decide (sni = []) then None
  else if negb (Z.of_nat (length x25519Pub) =? 32) then None
  else
    let exts := hello_extensions sni x25519Pub in
    let body := appendVec16 ([3; 3] ++ tlsRandom ++ [0]) [0x13; 0x01] ++ [1; 0] in
    let current := 4 + Z.of_nat (length body) + 2 + Z.of_nat (length exts) in
    let pad := quicCHTargetLen - current - 4 in
    let pad := if pad <? 0 then 0 else pad in
    let exts := appendExtension exts 0x0015 (repeat 0 (Z.to_nat pad)) in
    let body := appendVec16 body exts in
    let len := Z.of_nat (length body) in
    let out := [1; u8 (Z.shiftr len 16); u8 (Z.shiftr len 8); u8 len] ++ body in
    if Z.of_nat (length out) <? quicCHMinLen then None else Some out.

(** ** Packet protection *)

Definition quicSaltV1 : list Z :=
  [0x38; 0x76; 0x2c; 0xf7; 0xf5; 0x59; 0x34; 0xb3; 0x4d; 0x17; 0x9a; 0xe6; 0xa4; 0xc8; 0x0c; 0xad; 0xcc; 0xbb; 0x7f; 0x0a].

(** The literals of the source. *)
Definition hkdfLabelClientIn : list Z := [0x00; 0x20; 0x0f] ++ str "tls13 client in" ++ [0].
Definition hkdfLabelQuicKey : list Z := [0x00; 0x10; 0x0e] ++ str "tls13 quic key" ++ [0].
Definition hkdfLabelQuicIV : list Z := [0x00; 0x0c; 0x0d] ++ str "tls13 quic iv" ++ [0].
Definition hkdfLabelQuicHP : list Z := [0x00; 0x10; 0x0d] ++ str "tls13 quic hp" ++ [0].

Definition hkdf_info (context : list Z) (label : string) (length' : Z) : list Z :=
  let generic :=
    be16 (u16 length') ++ [u8 (6 + Z.of_nat (length (str label)))] ++ str "tls13 " ++ str label ++ [u8 (Z.of_nat (length context))] ++ context in
  match context with
  | [] =>
      if String.eqb label "client in" && (length' =? 32) then hkdfLabelClientIn
      else if String.eqb label "quic key" && (length' =? 16) then hkdfLabelQuicKey
      else if String.eqb label "quic iv" && (length' =? 12) then hkdfLabelQuicIV
      else if String.eqb label "quic hp" && (length' =? 16) then hkdfLabelQuicHP
      else generic
  | _ => generic
  end.

(** [hkdf.Extract], [hkdf.Expand] of SHA-256, AES-128-GCM sealing with key, nonce,
    plaintext and additional data, one block of AES, the X25519 public key of 32
    random bytes, and the ClientHello of the uTLS library for a browser. *)
Context (hkdf_Extract : list Z -> list Z -> list Z) (hkdf_Expand : list Z -> list Z -> nat -> list Z)
  (gcm_Seal : list Z -> list Z -> list Z -> list Z -> list Z) (aes_Encrypt : list Z -> list Z -> list Z)
  (x25519_public : list Z -> list Z) (buildBrowserClientHello : list Z -> list Z -> option (list Z)).

Definition quicHKDFExpandLabel (secret context : list Z) (label : string) (length' : nat) : list Z :=
  hkdf_Expand secret (hkdf_info context label (Z.of_nat length')) length'.

Definition deriveInitialKeys (dcid : list Z) : list Z * list Z * list Z :=
  let initialSecret := hkdf_Extract dcid quicSaltV1 in
  let clientSecret := quicHKDFExpandLabel initialSecret [] "client in" 32 in
  (quicHKDFExpandLabel clientSecret [] "quic key" 16, quicHKDFExpandLabel clientSecret [] "quic iv" 12,
   quicHKDFExpandLabel clientSecret [] "quic hp" 16).

(** [quicXorNonceAEAD.Seal]: the eight bytes of the nonce are added to the last
    eight of the mask. *)
Definition xor_nonce (nonceMask nonce : list Z) : list Z := take 4 nonceMask ++ zip_with Z.lxor (drop 4 nonceMask) nonce.

Definition be64 (v : Z) : list Z := be32 (Z.shiftr v 32) ++ be32 v.

(** [packet[i] ^= b] *)
Definition xor_at (packet : list Z) (i : nat) (b : Z) : option (list Z) := x ← packet !! i; Some (<[i := Z.lxor x b]> packet).

(** A wrong nonce length panics, as does an index outside the packet; a packet too
    short to sample is an error. *)
Definition encryptInitial (header payload key iv hp : list Z) (pnOffset : nat) (pn : Z) : G (list Z) :=
  if negb (length iv =? 12)%nat then panic
  else
    let packet := header ++ gcm_Seal key (xor_nonce iv (be64 pn)) payload header in
    let sampleOffset := (pnOffset + 4)%nat in
    if (length packet <? sampleOffset + 16)%nat then err
    else
      let mask := aes_Encrypt hp (take 16 (drop sampleOffset packet)) in
      match (m0 ← mask !! 0%nat; m1 ← mask !! 1%nat; p ← xor_at packet 0 (Z.land m0 0x0f); xor_at p pnOffset m1) with
      | Some packet => ok packet
      | None => panic
      end.

Definition pickTotalLen (p : quicGenParams) : G Z :=
  let lo := if totalLenMin p <? 1200 then 1200 else totalLenMin p in
  let hi := if totalLenMax p <? lo then lo else totalLenMax p in
  if hi =? lo then ok lo
  else let! d := randInt (hi - lo + 1) in ok (lo + d).

Definition buildClientHello (sni tlsRandom x25519Pub browser : list Z) : option (list Z) :=
  if bool_decide (browser = str "chrome") || bool_decide (browser = str "firefox") then buildBrowserClientHello sni browser
  else buildGenericClientHello sni tlsRandom x25519Pub.

Definition initial_header (dcid : list Z) (lengthField : Z) : list Z :=
  appendQUICVarint ([Z.lor 0xC0 (u8 (quicPacketNumberLen - 1))] ++ be32 quicVersion1 ++ [u8 quicDCIDLen] ++ dcid ++ [0; 0]) lengthField.

Definition buildInitialPacket (sni browser : list Z) (p : quicGenParams) : G (list Z) :=
  let! dcid := read rand_Read (Z.to_nat quicDCIDLen) in
  let! tlsRandom := read rand_Read 32 in
  let! secret := read rand_Read 32 in
  let! clientHello := try (buildClientHello sni tlsRandom (x25519_public secret) browser) in
  let! frags := planFragmentsN clientHello (fragments p) in
  let! plan := randomizedWirePlan frags (pings p) in
  let! totalLen := pickTotalLen p in
  let headerLen := 8 + quicDCIDLen + 2 + quicPacketNumberLen in
  let payloadLen := totalLen - headerLen - quicAEADTagLen in
  let lengthField := quicPacketNumberLen + payloadLen + quicAEADTagLen in
  if (lengthField <? 2 ^ 6) || (lengthField >=? 2 ^ 14) then err
  else
    let! payload := try (buildInitialPayload frags plan payloadLen) in
    let header := initial_header dcid lengthField in
    let pnOffset := length header in
    let header := header ++ repeat 0 (Z.to_nat quicPacketNumberLen) in
    let '(key, iv, hp) := deriveInitialKeys dcid in
    let! packet := encryptInitial header payload key iv hp pnOffset 0 in
    if negb (Z.of_nat (length packet) =? totalLen) then err else ok packet.

Definition masqueQUICInitialCPS (domain browser : list Z) : G (list Z) :=
  let! packet := buildInitialPacket domain browser defaultQUICGenParams in
  ok (cps_String (addBytes [] packet)).

End Draws.

End QuicInitial.
