(* ===== verification/AwgOptions.v ===== *)
(** * The AmneziaWG options of an endpoint

    Models option/wireguard_awg.go, transport/wireguard/device_awg.go and the choice
    of a masquerade in masque_awg.go: the options of the JSON configuration are
    checked and written as lines of the configuration protocol of Uapi.v. *)

From S2P Require Import Prelude Bits Bytes GoStrings Masque QuicInitial.

Module AwgOptions.

Import Masque QuicInitial.

Local Open Scope Z_scope.
Local Open Scope masque_scope.

(** ** Magic headers *)

Definition has_break (s : list Z) : bool := existsb (fun b => (b =? 13) || (b =? 10)) s.

(** [normalizeMagicHeader]; [None] is an error. *)
Definition normalizeMagicHeader (spec : list Z) : option (list Z) :=
  if has_break spec then None
  else
    let spec := TrimSpace spec in
    if bool_decide (spec = []) then Some []
    else
      let '(part0, part1, hasDash) := Cut spec 45 in
      if hasDash && bool_decide (45 ∈ part1) then None
      else
        start ← ParseUint (TrimSpace part0) 32;
        end_ ← (if hasDash : bool then ParseUint (TrimSpace part1) 32 else Some start);
        if end_ <? start then None
        else if end_ =? 0 then Some []
        else if start =? end_ then Some (FormatUint start)
        else Some (FormatUint start ++ [45] ++ FormatUint end_).

Definition Spec (h : list Z) : option (list Z) := normalizeMagicHeader h.

(** ** Options *)

Record AmneziaWGOptions := mkOptions {
  Jc : Z; Jmin : Z; Jmax : Z;
  S1 : Z; S2 : Z; S3 : Z; S4 : Z;
  H1 : list Z; H2 : list Z; H3 : list Z; H4 : list Z;
  I1 : list Z; I2 : list Z; I3 : list Z; I4 : list Z; I5 : list Z;
  Id : list Z; Ip : list Z; Ib : list Z;
  RandomTrailers : option bool;
  DisableCookie : option bool;
  HeaderProtectionKey : list Z;
  ContentPaddingAddition : list Z;
  RekeyAfterTime : list Z
}.

#[export] Instance options_eq_dec : EqDecision AmneziaWGOptions.
Proof. solve_decision. Defined.

Definition noOptions : AmneziaWGOptions :=
  mkOptions 0 0 0 0 0 0 0 [] [] [] [] [] [] [] [] [] [] [] [] None None [] [] [].

Definition IsSet (o : AmneziaWGOptions) : bool := negb (bool_decide (o = noOptions)).

(** ** Checks *)

Definition isHex (s : list Z) : bool :=
  forallb (fun c => ((48 <=? c) && (c <=? 57)) || ((97 <=? c) && (c <=? 102)) || ((65 <=? c) && (c <=? 70))) s.

Definition awgMaxJunkCount : Z := 128.
Definition awgMaxJunkSize : Z := 65507.

(** Whether the value is accepted. *)
Definition validateRekeyAfterTime (value : list Z) : bool :=
  if bool_decide (value = []) then true
  else
    let '(low, high, isRange) := Cut value 45 in
    let high := if isRange : bool then high else low in
    match ParseUint low 32, ParseUint high 32 with
    | Some lo, Some hi => negb (hi <? lo) && negb ((lo =? 0) && (hi =? 2 ^ 32 - 1))
    | _, _ => false
    end.

Definition validateJunk (o : AmneziaWGOptions) : bool :=
  negb (Jc o >? awgMaxJunkCount) && negb (Jmax o >? awgMaxJunkSize) && negb (Jmin o >? Jmax o).

Section Options.

Context (rand_Int : nat -> Z -> option Z) (rand_Read : nat -> nat -> option (list Z)) (hmac_sha1 : list Z -> list Z -> list Z).
Context (masqueQUICInitialCPS : list Z -> list Z -> G (list Z)).

(** ** Masquerade *)

Definition masqueI1 (o : AmneziaWGOptions) : G (list Z) :=
  if bool_decide (Id o = []) && bool_decide (Ip o = []) && bool_decide (Ib o = []) then ok []
  else if negb (bool_decide (I1 o = [])) then err
  else
    let proto := ToLower (TrimSpace (Ip o)) in
    if bool_decide (proto = []) then err
    else
      let domain := TrimSpace (Id o) in
      if negb (bool_decide (domain = [])) && negb (validateMasqueDomain domain) then err
      else
        let! browser := try (normalizeMasqueBrowser (Ib o) proto) in
        if bool_decide (proto = str "quic") then
          if bool_decide (domain = []) then err else masqueQUICInitialCPS domain browser
        else if bool_decide (proto = str "stun") then masqueSTUNRequestCPS rand_Read hmac_sha1
        else if bool_decide (proto = str "dns") then
          let! domain := (if bool_decide (domain = []) then pgDomainHost rand_Int else ok domain) in
          try (masqueDNSQueryCPS domain)
        else if bool_decide (proto = str "sip") then
          let! d := newSIPDialog rand_Int domain in
          ok (masqueSIPInviteCPS d)
        else err.

Definition masqueI1I2 (o : AmneziaWGOptions) : G (list Z * list Z) :=
  let! i1 := masqueI1 o in
  if bool_decide (i1 = []) then ok ([], [])
  else
    let proto := ToLower (TrimSpace (Ip o)) in
    let domain := TrimSpace (Id o) in
    if bool_decide (proto = str "sip") then
      let! d := newSIPDialog rand_Int domain in
      ok (masqueSIPInviteCPS d, masqueSIPTryingCPS d)
    else ok (i1, []).

(** ** Lines *)

Definition line (key : string) (value : list Z) : list Z := [10] ++ str key ++ [61] ++ value.

Definition writeUint (key : string) (value : Z) : list Z := if value =? 0 then [] else line key (FormatUint value).

(** The text, and whether the value has a line break, which is an error in the
    end. *)
Definition writeStr (key : string) (value : list Z) : list Z * bool :=
  if has_break value then ([], true)
  else if bool_decide (value = []) then ([], false)
  else (line key value, false).

Definition writeBool (key : string) (value : option bool) : list Z :=
  match value with None => [] | Some b => line key (if b then str "true" else str "false") end.

Definition raw_values (o : AmneziaWGOptions) : list (list Z) :=
  [H1 o; H2 o; H3 o; H4 o; I1 o; I2 o; I3 o; I4 o; I5 o; Id o; Ip o; Ib o; HeaderProtectionKey o; ContentPaddingAddition o; RekeyAfterTime o].

(** The texts of the string lines in a row. *)
Fixpoint writeStrs (l : list (string * list Z)) : list Z * bool :=
  match l with
  | [] => ([], false)
  | (key, value) :: l' =>
      let '(text, bad) := writeStr key value in
      let '(rest, bad') := writeStrs l' in
      (text ++ rest, bad || bad')
  end.

(** The first and second decoy. *)
Definition chosen_decoys (o : AmneziaWGOptions) : G (list Z * list Z) :=
  let! m := masqueI1I2 o in
  if bool_decide (fst m = []) then ok (I1 o, I2 o)
  else if bool_decide (snd m = []) then ok (fst m, I2 o)
  else if negb (bool_decide (I2 o = [])) then err
  else ok m.

Definition protection_ok (o : AmneziaWGOptions) : bool :=
  (length (HeaderProtectionKey o) =? 64)%nat && isHex (HeaderProtectionKey o) &&
  negb ((S1 o <? 12) || (S2 o <? 12) || (S3 o <? 12) || (S4 o <? 12)).

Definition awgIpcLines (o : AmneziaWGOptions) : G (list Z) :=
  if negb (IsSet o) then ok []
  else if existsb has_break (raw_values o) then err
  else if negb (validateJunk o) then err
  else if negb (validateRekeyAfterTime (RekeyAfterTime o)) then err
  else
    let! i := chosen_decoys o in
    let numbers :=
      writeUint "jc" (Jc o) ++ writeUint "jmin" (Jmin o) ++ writeUint "jmax" (Jmax o) ++
      writeUint "s1" (S1 o) ++ writeUint "s2" (S2 o) ++ writeUint "s3" (S3 o) ++ writeUint "s4" (S4 o) in
    let! h1 := try (Spec (H1 o)) in
    let! h2 := try (Spec (H2 o)) in
    let! h3 := try (Spec (H3 o)) in
    let! h4 := try (Spec (H4 o)) in
    let '(headers, bad1) := writeStrs [("h1", h1); ("h2", h2); ("h3", h3); ("h4", h4)] in
    let '(decoys, bad2) := writeStrs [("i1", fst i); ("i2", snd i); ("i3", I3 o); ("i4", I4 o); ("i5", I5 o)] in
    let protected := negb (bool_decide (HeaderProtectionKey o = [])) in
    if protected && negb (protection_ok o) then err
    else
      let '(rest, bad3) :=
        writeStrs ((if protected then [("header_protection_key", HeaderProtectionKey o)] else []) ++
                   [("content_padding_addition", ContentPaddingAddition o); ("rekey_after_time", RekeyAfterTime o)]) in
      let flags := writeBool "random_trailers" (RandomTrailers o) ++ writeBool "disable_cookies" (DisableCookie o) in
      if bad1 || bad2 || bad3 then err else ok (numbers ++ headers ++ decoys ++ rest ++ flags).

End Options.

End AwgOptions.
