(* ===== verification/MasqueProps.v ===== *)
(** * The decoys are packets of the device

    Every masquerade ends, whatever is drawn, in an error or in a text that the
    device's parser reads as the packet that was built (Masque.v, ObfChain.v). *)

From Stdlib Require Import Ascii ZifyNat.
From S2P Require Import Prelude Bits Bytes GoStrings ObfChain Masque.

Module MasqueProps.

Import Masque.

Local Open Scope Z_scope.
Local Open Scope masque_scope.

(** ** Computations with draws *)

(** No panic, and every value has the property; with [total] the computation also
    ends, and not in an error. *)
Definition yields (total : bool) {A} (c : G A) (Q : A -> Prop) : Prop :=
  forall i, match c i with Ok a _ => Q a | Panic => False | Err | Drawing => total = false end.

Lemma yields_ok {t : bool} {A} (a : A) (Q : A -> Prop) : Q a -> yields t (ok a) Q.
Proof. by intros H i. Qed.

Lemma yields_err {A} (Q : A -> Prop) : yields false err Q.
Proof. by intros i. Qed.

Lemma yields_bind {t : bool} {A B} (c : G A) (k : A -> G B) (P : A -> Prop) (Q : B -> Prop) :
  yields t c P -> (forall a, P a -> yields t (k a) Q) -> yields t (bind c k) Q.
Proof. intros Hc Hk i. unfold bind. specialize (Hc i). destruct (c i) as [a j| | |]; [by apply Hk | done..]. Qed.

Lemma yields_weaken {t : bool} {A} (c : G A) (P Q : A -> Prop) : yields t c P -> (forall a, P a -> Q a) -> yields t c Q.
Proof. intros Hc H i. specialize (Hc i). destruct (c i); auto. Qed.

Lemma yields_try {t : bool} {A} (o : option A) (Q : A -> Prop) :
  (t = true -> is_Some o) -> (forall a, o = Some a -> Q a) -> yields t (try o) Q.
Proof. intros Ht H i. destruct o; cbn; [auto|]. destruct t; [by destruct Ht|done]. Qed.

Create HintDb yields.
#[export] Hint Resolve yields_ok yields_err : yields.

(** The first step yields [P]; the rest starts from it. *)
Ltac step H := eapply yields_bind; [apply H | cbv beta].

(** ** Words *)

Definition text (n : nat) (s : list Z) : Prop := Forall is_u8 s /\ (length s <= n)%nat.

Lemma text_app n m s t : text n s -> text m t -> text (n + m) (s ++ t).
Proof. intros [Hs Hn] [Ht Hm]. split; [by apply Forall_app|]. rewrite length_app. lia. Qed.

Lemma text_le n m s : text n s -> (n <= m)%nat -> text m s.
Proof. intros [Hs Hn] H. split; [done | lia]. Qed.

Lemma text_str s : text (length (str s)) (str s).
Proof.
  split; [|done]. unfold str. apply list.Forall_forall. intros x Hx. apply list_elem_of_fmap in Hx as (a & -> & _).
  pose proof (Ascii.N_ascii_bounded a). unfold is_u8, is_u. lia.
Qed.

Lemma text_nil n : text n [].
Proof. split; [constructor | cbn; lia]. Qed.

Section Draws.

Context (t : bool) (rand_Int : nat -> Z -> option Z) (rand_Read : nat -> nat -> option (list Z)).

(** Draws are in range, bytes are bytes; with [t] they never fail. *)
Context (Hint : forall i n, 1 < n -> exists v, rand_Int i n = Some v /\ 0 <= v < n)
        (Hread : forall i n b, rand_Read i n = Some b -> length b = n /\ Forall is_u8 b)
        (Htotal : t = true -> forall i n, is_Some (rand_Read i n)).

Lemma yields_pgIntn n : 0 < n -> yields t (pgIntn rand_Int n) (fun v => 0 <= v < n).
Proof.
  intros Hn i. unfold pgIntn. destruct (Z.leb_spec n 1); [cbn; lia|]. by destruct (Hint i n) as (v & -> & Hv).
Qed.

Lemma yields_read n : yields t (read rand_Read n) (fun b => length b = n /\ Forall is_u8 b).
Proof.
  intros i. unfold read. destruct (rand_Read i n) as [b|] eqn:H; [by eapply Hread|]. destruct t; [|done].
  destruct (Htotal eq_refl i n) as [? Hs]. congruence.
Qed.

Lemma yields_pgPick n ws : ws <> [] -> Forall (text n) ws -> yields t (pgPick rand_Int ws) (text n).
Proof.
  intros Hne Hws. step yields_pgIntn; [destruct ws; [done | cbn; lia]|]. intros v Hv.
  destruct (Z.ltb_spec v 0); [lia|]. destruct (lookup_lt_is_Some_2 ws (Z.to_nat v)) as [w Hw]; [lia|]. rewrite Hw.
  apply yields_ok. by eapply list.Forall_lookup_1.
Qed.

Lemma yields_pgChance pct : yields t (pgChance rand_Int pct) (fun _ => True).
Proof. step yields_pgIntn; [done|]. intros v _. by apply yields_ok. Qed.

Lemma words_text n (ws : list (list Z)) :
  forallb (fun w => forallb (fun b => (0 <=? b) && (b <? 256)) w && (length w <=? n)%nat) ws = true -> Forall (text n) ws.
Proof.
  rewrite forallb_forall. intros H. apply Forall_forall. intros w Hw%H. rewrite andb_true_iff, forallb_forall, Nat.leb_le in Hw.
  destruct Hw as [Hw Hl]. split; [|done]. apply Forall_forall. intros b Hb%Hw. rewrite andb_true_iff in Hb. unfold is_u8, is_u. lia.
Qed.

Lemma yields_word n ws : forallb (fun w => forallb (fun b => (0 <=? b) && (b <? 256)) w && (length w <=? n)%nat) ws = true -> ws <> [] ->
  yields t (pgPick rand_Int ws) (text n).
Proof. intros H Hne. by apply yields_pgPick, words_text. Qed.

Lemma yields_and {A} (c : G A) (P Q : A -> Prop) : yields t c P -> yields t c Q -> yields t c (fun a => P a /\ Q a).
Proof. intros HP HQ i. specialize (HP i). specialize (HQ i). destruct (c i); done. Qed.

Lemma yields_pg_blocks k b n : text n b -> yields t (pg_blocks rand_Int k b) (text (n + 4 * k)).
Proof.
  revert b n. induction k as [|k IH]; intros b n Hb; cbn [pg_blocks]; [apply yields_ok; eapply text_le; [done | lia]|].
  step yields_pgChance. intros c _. eapply (yields_bind _ _ (text 2)); [destruct c; by apply yields_word|]. intros w Hw.
  eapply (yields_bind _ _ (text 2)); [by apply yields_word|]. intros v Hv.
  eapply yields_weaken; [apply (IH _ (n + 4)%nat)|].
  - eapply text_le; [apply text_app; [exact Hb | by apply text_app] | lia].
  - intros a Ha. eapply text_le; [done | lia].
Qed.

Lemma yields_pgWord : yields t (pgWord rand_Int) (text 20).
Proof.
  unfold pgWord. eapply (yields_bind _ _ (text 2)); [by apply yields_word|]. intros c Hc.
  eapply (yields_bind _ _ (text 2)); [by apply yields_word|]. intros v Hv. step yields_pgIntn; [done|]. intros n Hn.
  eapply (yields_bind _ _ (text 16)).
  { eapply yields_weaken; [apply (yields_pg_blocks _ _ 4); by apply (text_app 2 2)|]. intros a Ha. eapply text_le; [done | lia]. }
  intros b Hb. step yields_pgChance. intros l _. destruct l; [|apply yields_ok; eapply text_le; [done | lia]].
  step yields_pgChance. intros k _. eapply (yields_bind _ _ (text 2)); [destruct k; by apply yields_word|]. intros w Hw.
  apply yields_ok. eapply text_le; [by apply text_app | lia].
Qed.

Lemma yields_pgUser : yields t (pgUser rand_Int) (text 41).
Proof.
  step yields_pgWord. intros u Hu. step yields_pgChance. intros b _. destruct b; [|apply yields_ok; eapply text_le; [done | lia]].
  step yields_pgWord. intros w Hw. apply yields_ok. eapply text_le; [apply text_app; [done | apply text_app; [apply text_str | done]] | done].
Qed.

Lemma yields_pgDomainHost : yields t (pgDomainHost rand_Int) (text 60).
Proof.
  step yields_pgIntn; [done|]. intros n _. assert (Ht : yields t (pgPick rand_Int pgTLD) (text 3)) by by apply yields_word.
  destruct (n <? 60).
  - step yields_pgWord. intros a Ha. step yields_pgWord. intros b Hb. step Ht. intros w H. apply yields_ok.
    eapply text_le; [repeat (apply text_app; [first [done | apply text_str]|]); done | cbn; lia].
  - step yields_pgWord. intros a Ha. step Ht. intros w H. apply yields_ok.
    eapply text_le; [repeat (apply text_app; [first [done | apply text_str]|]); done | cbn; lia].
Qed.

(** *** Labels of domains *)

(** A part of a domain name. *)
Definition label (s : list Z) : Prop := s <> [] /\ dot ∉ s.

Lemma label_app s u : label s -> label u -> label (s ++ u).
Proof. intros [Hs Hs'] [Hu Hu']. split; [by destruct s | rewrite elem_of_app; by intros [?|?]]. Qed.

Lemma yields_label ws : forallb (fun w => negb (bool_decide (w = [])) && negb (bool_decide (dot ∈ w))) ws = true -> ws <> [] ->
  yields t (pgPick rand_Int ws) label.
Proof.
  intros Hws Hne. step yields_pgIntn; [destruct ws; [done | cbn; lia]|]. intros v Hv. destruct (Z.ltb_spec v 0); [lia|].
  destruct (lookup_lt_is_Some_2 ws (Z.to_nat v)) as [w Hw]; [lia|]. rewrite Hw. apply yields_ok.
  rewrite forallb_forall in Hws. apply list_elem_of_lookup_2, list_elem_of_In, Hws in Hw.
  rewrite andb_true_iff, !negb_true_iff in Hw. destruct Hw as [H1%bool_decide_eq_false_1 H2%bool_decide_eq_false_1]. done.
Qed.

Lemma yields_blocks_label k b : label b -> yields t (pg_blocks rand_Int k b) label.
Proof.
  revert b. induction k as [|k IH]; intros b Hb; cbn [pg_blocks]; [by apply yields_ok|].
  step yields_pgChance. intros c _. eapply (yields_bind _ _ label); [destruct c; by apply yields_label|]. intros w Hw.
  eapply (yields_bind _ _ label); [by apply yields_label|]. intros v Hv. apply IH. by repeat apply label_app.
Qed.

Lemma yields_word_label : yields t (pgWord rand_Int) label.
Proof.
  unfold pgWord. eapply (yields_bind _ _ label); [by apply yields_label|]. intros c Hc.
  eapply (yields_bind _ _ label); [by apply yields_label|]. intros v Hv. step yields_pgIntn; [done|]. intros n _.
  step yields_blocks_label; [by apply label_app|]. intros b Hb. step yields_pgChance. intros l _. destruct l; [|by apply yields_ok].
  step yields_pgChance. intros k _. eapply (yields_bind _ _ label); [destruct k; by apply yields_label|]. intros w Hw. by apply yields_ok, label_app.
Qed.

Lemma yields_pgDomainHost_labels : yields t (pgDomainHost rand_Int) (fun s => exists ls, Split s dot = ls /\ Forall label ls).
Proof.
  assert (Ht : yields t (pgPick rand_Int pgTLD) label) by by apply yields_label.
  step yields_pgIntn; [done|]. intros n _. destruct (n <? 60).
  - step yields_word_label. intros a Ha. step yields_word_label. intros b Hb. step Ht. intros w Hw. apply yields_ok. eexists. split; [done|].
    change (str ".") with [dot]. cbn [app]. rewrite !Split_app, Split_none by apply Ha || apply Hb || apply Hw. by rewrite !list.Forall_cons.
  - step yields_word_label. intros a Ha. step Ht. intros w Hw. apply yields_ok. eexists. split; [done|].
    change (str ".") with [dot]. cbn [app]. rewrite !Split_app, Split_none by apply Ha || apply Hw. by rewrite !list.Forall_cons.
Qed.

Lemma yields_pg_digits n : yields t (pg_digits rand_Int n) (text n).
Proof.
  induction n as [|n IH]; cbn [pg_digits]; [apply yields_ok, text_nil|]. step yields_pgIntn; [done|]. intros d _. step IH. intros r [Hr Hl].
  apply yields_ok. split; [constructor; [apply u8_is_u8 | done] | cbn; lia].
Qed.

Lemma yields_pgDigits n : yields t (pgDigits rand_Int n) (text n).
Proof.
  destruct n as [|n]; cbn [pgDigits]; [apply yields_ok, text_nil|]. step yields_pgIntn; [done|]. intros d _. step yields_pg_digits.
  intros r [Hr Hl]. apply yields_ok. split; [constructor; [apply u8_is_u8 | done] | cbn; lia].
Qed.

Lemma yields_pgHex n : yields t (pgHex rand_Int n) (text n).
Proof.
  induction n as [|n IH]; cbn [pgHex]; [apply yields_ok, text_nil|]. step yields_pgIntn; [done|]. intros d Hd.
  eapply (yields_bind _ _ is_u8).
  { unfold hexDigit. destruct (Z.leb_spec 0 d), (Z.ltb_spec d 16); try lia. apply yields_ok.
    destruct (hex_digit_range d Hd); unfold is_u8, is_u; lia. }
  intros x Hx. step IH. intros r [Hr Hl]. apply yields_ok. split; [by constructor | cbn; lia].
Qed.

(** ** Texts the parser reads *)

(** The text of a decoy: the parser gives back its parts. *)
Definition decoy (s : list Z) : Prop :=
  exists os, s = ObfChain.print_chain os /\ ObfChain.newObfChain s = Some (ObfChain.mkChain s os) /\ Z.of_nat (length s) < 60000.

Lemma print_parses os : Forall ObfChain.obf_ok os -> ObfChain.total os <= ObfChain.awgMaxPacketSize ->
  ObfChain.newObfChain (ObfChain.print_chain os) = Some (ObfChain.mkChain (ObfChain.print_chain os) os).
Proof. intros Hok Ht. unfold ObfChain.newObfChain. rewrite (ObfChain.chain_loop_print os []); [done | done | done | lia]. Qed.

Lemma decoy_print os :
  Forall ObfChain.obf_ok os -> ObfChain.total os <= ObfChain.awgMaxPacketSize -> Z.of_nat (length (ObfChain.print_chain os)) < 60000 ->
  decoy (ObfChain.print_chain os).
Proof. intros Hok Ht Hl. exists os. split; [done|]. split; [by apply print_parses | done]. Qed.

Lemma addBytes_print os b : b <> [] -> addBytes (map ObfChain.print_obf os) b = map ObfChain.print_obf (os ++ [ObfChain.bytesObf b]).
Proof. intros Hb. unfold addBytes. destruct b; [done|]. by rewrite map_app. Qed.

Lemma addRand_print os n : 0 < n -> addRand (map ObfChain.print_obf os) n = map ObfChain.print_obf (os ++ [ObfChain.randObf n]).
Proof.
  intros Hn. unfold addRand, FormatInt. destruct (Z.leb_spec n 0), (Z.ltb_spec n 0); try lia. by rewrite map_app.
Qed.

Lemma cps_String_print os : cps_String (map ObfChain.print_obf os) = ObfChain.print_chain os.
Proof.
  unfold cps_String, ObfChain.print_chain. induction os as [|o os IH]; [done|]. cbn [map flat_map]. rewrite <- IH.
  destruct (map ObfChain.print_obf os); [by rewrite app_nil_r | done].
Qed.

Lemma bytes_parse b : Forall is_u8 b -> b <> [] -> Z.of_nat (length b) < 20000 ->
  let s := cps_String (addBytes [] b) in
  s = ObfChain.print_chain [ObfChain.bytesObf b] /\ ObfChain.newObfChain s = Some (ObfChain.mkChain s [ObfChain.bytesObf b]).
Proof.
  intros Hu Hne Hl. cbv zeta. pose proof (addBytes_print [] b Hne) as Hadd. cbn [app] in Hadd. change (map ObfChain.print_obf []) with (@nil (list Z)) in Hadd.
  rewrite Hadd, cps_String_print.
  assert (ObfChain.awgMaxPacketSize = 65507) by done. split; [done|]. apply print_parses.
  - apply Forall_singleton. split_and!; [done | done | lia].
  - unfold ObfChain.total. cbn. lia.
Qed.

Lemma decoy_bytes b : Forall is_u8 b -> b <> [] -> Z.of_nat (length b) < 20000 -> decoy (cps_String (addBytes [] b)).
Proof.
  intros Hu Hne Hl. destruct (bytes_parse b Hu Hne Hl) as [Hs Hp]. exists [ObfChain.bytesObf b]. split_and!; [done | done|].
  rewrite Hs. unfold ObfChain.print_chain, ObfChain.print_arg. cbn. rewrite app_nil_r, length_app, hex_Encode_length. cbn. lia.
Qed.

Lemma yields_newSIPDialog domain : let caller := TrimSuffix domain (str ".") in text 253 caller ->
  yields t (newSIPDialog rand_Int domain)
    (fun d => (text 2000 (sip_invite d) /\ text 2000 (sip_trying d)) /\ (caller <> [] -> callerDom d = caller)).
Proof.
  cbv zeta. intros Hd. unfold newSIPDialog. cbv zeta. set (caller := TrimSuffix domain _) in *.
  eapply (yields_bind _ _ (fun dom => text 253 dom /\ (caller <> [] -> dom = caller))).
  { case_bool_decide; [|by apply yields_ok]. eapply yields_weaken; [apply yields_pgDomainHost|]. intros a Ha. split; [eapply text_le; [done | lia] | done]. }
  intros dom [Hdom Hcall]. step yields_pgUser. intros fu Hfu. step yields_pgUser. intros tu Htu. step yields_pgDomainHost. intros ch Hch.
  step yields_pgDigits. intros dg Hdg. step yields_pgHex. intros br Hbr. step yields_pgDigits. intros tg Htg. step yields_pgHex. intros ci Hci.
  step yields_pgDigits. intros cs Hcs. apply yields_ok.
  assert (Hcap : forall s, text 41 s -> text 41 (sipCapitalize s)).
  { intros s [Hu Hl]. unfold sipCapitalize. destruct s as [|c s]; [done|]. inversion Hu; subst.
    destruct ((97 <=? c) && (c <=? 122)) eqn:Hc; [|done]. rewrite andb_true_iff in Hc. split; [|done]. constructor; [|done].
    unfold is_u8, is_u in *. lia. }
  assert (Hcr : text 2 crlf) by (split; [repeat constructor; unfold is_u8, is_u; lia | done]).
  assert (Hua : text 260 (str "pc" ++ dg ++ str "." ++ dom)).
  { eapply text_le; [repeat (apply text_app; [first [done | apply text_str]|]); done | cbn; lia]. }
  unfold sip_invite, sip_trying, sip_via, sip_to, sip_from, sip_ids. cbn [toUser fromUser calleeHost uaHost branch toDisp fromDisp callerDom tag callID cseq].
  split; [|exact Hcall]. split; (eapply text_le; [repeat first [apply text_str | exact Hua | exact Hcr | exact Hdom | done | by apply Hcap | apply text_app] | cbn; lia]).
Qed.

(** ** STUN *)

(** The attributes of a STUN message (RFC 5389): type, length, value, padding to
    four bytes. *)
Fixpoint stun_attributes (fuel : nat) (s : list Z) : option (list (Z * list Z)) :=
  match fuel with
  | O => None
  | S fuel' =>
      match s with
      | [] => Some []
      | t1 :: t0 :: l1 :: l0 :: s' =>
          let len := Z.to_nat (256 * l1 + l0) in
          let padded := ((len + 3) / 4 * 4)%nat in
          if (length s' <? padded)%nat then None
          else rest ← stun_attributes fuel' (drop padded s'); Some ((256 * t1 + t0, take len s') :: rest)
      | _ => None
      end
  end.

(** A binding request: header, length, magic cookie, transaction and attributes. *)
Definition stun_message (s : list Z) : option (list Z * list (Z * list Z)) :=
  match s with
  | 0 :: 1 :: l1 :: l0 :: 33 :: 18 :: 164 :: 66 :: s' =>
      if (256 * l1 + l0 =? Z.of_nat (length s) - 20) && (Z.of_nat (length s) mod 4 =? 0) then
        attrs ← stun_attributes (length s) (drop 12 s');
        Some (take 12 s', attrs)
      else None
  | _ => None
  end.

(** The length field of a message while the attribute at its end is computed. *)
Definition with_length (s : list Z) (len : Z) : list Z := take 2 s ++ be16 (u16 len) ++ drop 4 s.

Definition stun_valid (hmac_sha1 : list Z -> list Z -> list Z) (key s : list Z) : Prop :=
  exists txn username tie prio mi crc,
    stun_message s = Some (txn, [(stunAttrUsername, username); (stunAttrIceControlling, tie); (stunAttrPriority, prio);
                                 (stunAttrSoftware, str "libwebrtc"); (stunAttrMsgIntegrity, mi); (stunAttrFingerprint, be32 crc)]) /\
    length txn = 12%nat /\ length username = 9%nat /\ length tie = 8%nat /\ length prio = 4%nat /\ length mi = 20%nat /\
    let n := (length s - 8)%nat in
    let m := (n - 24)%nat in
    crc = Z.lxor (ChecksumIEEE (take n s)) stunFingerprintXOR /\
    mi = hmac_sha1 key (with_length (take m s) (Z.of_nat m + 4)).

Definition attribute (typ : Z) (val : list Z) : list Z :=
  be16 typ ++ be16 (u16 (Z.of_nat (length val))) ++ val ++ repeat 0 ((4 - length val mod 4) mod 4)%nat.

Lemma attribute_length typ val : length (attribute typ val) = (4 + (length val + 3) / 4 * 4)%nat.
Proof.
  unfold attribute. rewrite !length_app, repeat_length. cbn [length be16].
  generalize (length val). intros n. zify. Z.to_euclidean_division_equations. lia.
Qed.

Lemma append_attribute dst typ val : (length dst mod 4 = 0)%nat -> appendSTUNAttr dst typ val = dst ++ attribute typ val.
Proof.
  intros Hd. unfold appendSTUNAttr, pad4, attribute. rewrite <- !app_assoc. do 4 f_equal. rewrite !length_app. cbn [length be16].
  f_equal. revert Hd. generalize (length dst), (length val). intros d n. zify. Z.to_euclidean_division_equations. lia.
Qed.

Lemma attribute_padded typ val : (length (attribute typ val) mod 4 = 0)%nat.
Proof. rewrite attribute_length. generalize (length val). intros n. zify. Z.to_euclidean_division_equations. lia. Qed.

Lemma parse_attribute fuel typ val rest :
  0 <= typ < 65536 -> Z.of_nat (length val) < 65536 ->
  stun_attributes (S fuel) (attribute typ val ++ rest) = (r ← stun_attributes fuel rest; Some ((typ, val) :: r)).
Proof.
  intros Ht Hv. unfold attribute, be16. cbn [app stun_attributes]. rewrite !be16_value by (rewrite ?u16_small; unfold is_u; lia).
  rewrite u16_small by (unfold is_u; lia). rewrite Nat2Z.id. set (n := length val).
  set (pad := repeat 0 ((4 - n mod 4) mod 4)%nat).
  assert (Hp : ((n + 3) / 4 * 4)%nat = length (val ++ pad)).
  { subst pad n. rewrite length_app, repeat_length. generalize (length val). intros n. zify. Z.to_euclidean_division_equations. lia. }
  rewrite <- app_assoc, app_assoc, Hp, drop_app_length, <- app_assoc.
  destruct (Nat.ltb_spec (length (val ++ pad ++ rest)) (length (val ++ pad))); [rewrite !length_app in *; lia|].
  subst n. by rewrite take_app_length.
Qed.

Lemma be32_length v : length (be32 v) = 4%nat.
Proof. done. Qed.

(** The parts of the request. *)
Lemma stun_request_parts hmac_sha1 txn username tie prio key :
  length txn = 12%nat -> length username = 9%nat -> length tie = 8%nat -> length prio = 4%nat ->
  (forall k m, length (hmac_sha1 k m) = 20%nat) ->
  let attrs := attribute stunAttrUsername username ++ attribute stunAttrIceControlling tie ++ attribute stunAttrPriority prio ++
               attribute stunAttrSoftware (str "libwebrtc") in
  let mi := hmac_sha1 key (stun_header 76 txn ++ attrs) in
  let withMI := stun_header 84 txn ++ attrs ++ attribute stunAttrMsgIntegrity mi in
  let crc := Z.lxor (ChecksumIEEE withMI) stunFingerprintXOR in
  stun_valid hmac_sha1 key (withMI ++ attribute stunAttrFingerprint (be32 crc)).
Proof.
  intros Lt Lu Li Lp Hm attrs mi withMI crc. pose proof (Hm key (stun_header 76 txn ++ attrs)) as Lm. fold mi in Lm.
  assert (La : length attrs = 52%nat) by (unfold attrs; rewrite !length_app, !attribute_length, Lu, Li, Lp; reflexivity).
  assert (Lw : length withMI = 96%nat).
  { unfold withMI, stun_header. rewrite !length_app, La, attribute_length, Lm, Lt. reflexivity. }
  assert (L : length (withMI ++ attribute stunAttrFingerprint (be32 crc)) = 104%nat) by (rewrite length_app, Lw, attribute_length; reflexivity).
  exists txn, username, tie, prio, mi, crc. split_and!; try done.
  - assert (E : withMI ++ attribute stunAttrFingerprint (be32 crc) =
      [0; 1; 0; 84; 33; 18; 164; 66] ++ txn ++ attrs ++ attribute stunAttrMsgIntegrity mi ++ attribute stunAttrFingerprint (be32 crc)).
    { unfold withMI, stun_header. by rewrite <- !app_assoc. }
    rewrite E in *. unfold stun_message. cbn [app]. cbn [app] in L. rewrite L. cbn [Z.eqb andb].
    change (_ && _) with true. cbn iota. rewrite drop_app_length', take_app_length' by (by rewrite Lt).
    unfold attrs. rewrite <- !app_assoc.
    do 3 (rewrite parse_attribute; [|done | rewrite ?Lu, ?Li, ?Lp; done]). rewrite parse_attribute by done.
    rewrite parse_attribute; [|done | by rewrite Lm]. rewrite <- (app_nil_r (attribute stunAttrFingerprint _)), parse_attribute by done. done.
  - rewrite L. cbv zeta. change (104 - 8)%nat with 96%nat. change (96 - 24)%nat with 72%nat. rewrite take_app_length' by done. split; [done|].
    replace (withMI ++ attribute stunAttrFingerprint (be32 crc)) with
      ((stun_header 84 txn ++ attrs) ++ attribute stunAttrMsgIntegrity mi ++ attribute stunAttrFingerprint (be32 crc))
      by (unfold withMI; by rewrite <- !app_assoc).
    rewrite take_app_length' by (rewrite length_app, La; unfold stun_header; rewrite !length_app, Lt; reflexivity). done.
Qed.

Lemma stunICEUsername_text seed : length seed = 8%nat -> Forall is_u8 seed ->
  exists u, stunICEUsername seed = Some u /\ length u = 9%nat /\ Forall is_u8 u.
Proof.
  intros Hl Hu. destruct seed as [|s0 [|s1 [|s2 [|s3 [|s4 [|s5 [|s6 [|s7 [|]]]]]]]]]; try done. eexists. split; [done|]. split; [done|].
  assert (Hd : forall s, is_u8 (hex_digit (s mod 16))).
  { intros s. pose proof (Z.mod_pos_bound s 16). destruct (hex_digit_range (s mod 16)); unfold is_u8, is_u; lia. }
  repeat (constructor; [first [apply Hd | done]|]). constructor.
Qed.

Lemma attribute_text typ val n : text n val -> text (4 + (n + 3) / 4 * 4) (attribute typ val).
Proof.
  intros [Hu Hl]. split.
  - unfold attribute, be16. rewrite !Forall_app. repeat split; [repeat constructor; apply u8_is_u8 | repeat constructor; apply u8_is_u8 | done|].
    apply Forall_forall. intros x Hx%repeat_spec. by subst x.
  - rewrite attribute_length. revert Hl. generalize (length val). intros k Hk. zify. Z.to_euclidean_division_equations. lia.
Qed.

Lemma header_text len txn : length txn = 12%nat -> Forall is_u8 txn -> text 20 (stun_header len txn).
Proof.
  intros Hl Hu. split; [|unfold stun_header; rewrite !length_app, Hl; cbn; lia].
  unfold stun_header. rewrite !Forall_app. split_and!; [..|done]; repeat (constructor; [apply u8_is_u8|]); constructor.
Qed.

Lemma set_length l l' txn r : copy_at (stun_header l txn ++ r) 2 (be16 (u16 l')) = Some (stun_header l' txn ++ r).
Proof. unfold copy_at, stun_header, be16. cbn. by rewrite decide_False by lia. Qed.

Lemma yields_stun hmac_sha1 :
  (forall k m, length (hmac_sha1 k m) = 20%nat /\ Forall is_u8 (hmac_sha1 k m)) ->
  yields t (buildSTUNBindingRequest rand_Read hmac_sha1) (fun s => text 200 s /\ s <> [] /\ exists key, stun_valid hmac_sha1 key s).
Proof.
  intros Hmac. unfold buildSTUNBindingRequest. step yields_read. intros txn [Lt Ut]. step yields_read. intros uf [Lu Uu].
  step yields_read. intros tie [Li Ui]. step yields_read. intros prio [Lp Up]. step yields_read. intros key [Lk Uk].
  destruct (stunICEUsername_text uf Lu Uu) as (u & -> & Lu' & Uu').
  rewrite (append_attribute [] _ u), app_nil_l by done.
  assert (L1 : length (attribute stunAttrUsername u) = 16%nat) by (rewrite attribute_length, Lu'; done).
  assert (L2 : length (attribute stunAttrIceControlling tie) = 12%nat) by (rewrite attribute_length, Li; done).
  assert (L3 : length (attribute stunAttrPriority prio) = 8%nat) by (rewrite attribute_length, Lp; done).
  rewrite (append_attribute (attribute stunAttrUsername u)) by (by rewrite L1).
  rewrite (append_attribute (attribute stunAttrUsername u ++ _)) by (by rewrite length_app, L1, L2).
  rewrite (append_attribute ((attribute stunAttrUsername u ++ _) ++ _)) by (by rewrite !length_app, L1, L2, L3).
  rewrite <- !app_assoc. cbv zeta. set (attrs := attribute stunAttrUsername u ++ _).
  assert (La : length attrs = 52%nat) by (unfold attrs; rewrite !length_app, L1, L2, L3; done).
  rewrite La. change (Z.of_nat 52 + 24) with 76. change (76 + 8) with 84.
  destruct (Hmac key (stun_header 76 txn ++ attrs)) as [Lm Um]. set (mi := hmac_sha1 key _) in *.
  rewrite (append_attribute (stun_header 76 txn ++ attrs)) by (rewrite length_app, La; unfold stun_header; rewrite !length_app, Lt; done).
  rewrite <- app_assoc, set_length. rewrite append_attribute by (rewrite !length_app, La, attribute_length, Lm; unfold stun_header; rewrite !length_app, Lt; done).
  apply yields_ok. split_and!.
  - generalize (Z.lxor (ChecksumIEEE (stun_header 84 txn ++ attrs ++ attribute stunAttrMsgIntegrity mi)) stunFingerprintXOR). intros crc.
    assert (Ha : forall typ val, Forall is_u8 val -> text (4 + (length val + 3) / 4 * 4) (attribute typ val)).
    { intros typ val Hv. by apply attribute_text. }
    eapply text_le; [apply text_app; [apply text_app; [by apply header_text | apply text_app; [|by apply Ha]] | apply Ha]|].
    + apply (text_app 16); [rewrite <- L1, attribute_length; by apply Ha|]. apply (text_app 12); [rewrite <- L2, attribute_length; by apply Ha|].
      apply (text_app 8); [rewrite <- L3, attribute_length; by apply Ha | apply Ha, (text_str "libwebrtc")].
    + repeat (constructor; [apply u8_is_u8|]). constructor.
    + rewrite Lm. apply Nat.leb_le. reflexivity.
  - intros E%(f_equal length). rewrite !length_app, La in E. cbn [length] in E. lia.
  - exists key. apply stun_request_parts; [exact Lt | exact Lu' | exact Li | exact Lp | intros k m; apply Hmac].
Qed.

(** ** DNS *)

(** A name in a DNS message (RFC 1035, without compression). *)
Fixpoint dns_name (fuel : nat) (s : list Z) : option (list (list Z) * list Z) :=
  match fuel, s with
  | S fuel', l :: s' =>
      if l =? 0 then Some ([], s')
      else if Z.of_nat (length s') <? l then None
      else '(labels, rest) ← dns_name fuel' (drop (Z.to_nat l) s'); Some (take (Z.to_nat l) s' :: labels, rest)
  | _, _ => None
  end.

Record dnsQuery := mkQuery {
  q_labels : list (list Z);
  q_type : Z;
  q_udpSize : Z;
  q_option : Z * list Z
}.

(** A recursive query with one question of class IN and an OPT record with one
    option, to the end of the datagram. *)
Definition dns_query (s : list Z) : option dnsQuery :=
  match s with
  | _ :: _ :: 1 :: 0 :: 0 :: 1 :: 0 :: 0 :: 0 :: 0 :: 0 :: 1 :: s' =>
      '(labels, rest) ← dns_name (length s') s';
      match rest with
      | t1 :: t0 :: 0 :: 1 :: 0 :: 0 :: 41 :: u1 :: u0 :: 0 :: 0 :: 0 :: 0 :: r1 :: r0 :: c1 :: c0 :: l1 :: l0 :: d =>
          if (256 * r1 + r0 =? Z.of_nat (length d) + 4) && (256 * l1 + l0 =? Z.of_nat (length d))
          then Some (mkQuery labels (256 * t1 + t0) (256 * u1 + u0) (256 * c1 + c0, d))
          else None
      | _ => None
      end
  | _ => None
  end.

Lemma encode_decode labels name rest fuel :
  encode_labels labels = Some name -> (length name <= fuel)%nat -> dns_name fuel (name ++ rest) = Some (labels, rest).
Proof.
  revert name fuel. induction labels as [|l labels IH]; intros name fuel; cbn [encode_labels].
  { intros [= <-] Hf. destruct fuel; [cbn in Hf; lia|]. done. }
  destruct (Nat.eqb_spec (length l) 0), (Nat.ltb_spec 63 (length l)); try done. cbn [orb].
  destruct (encode_labels labels) as [q|]; [|done]. red_bind. intros [= <-] Hf. cbn in Hf. rewrite length_app in Hf.
  destruct fuel as [|fuel]; [lia|]. cbn [app dns_name]. rewrite u8_small by (unfold is_u8, is_u; lia).
  destruct (Z.eqb_spec (Z.of_nat (length l)) 0); [lia|]. rewrite <- app_assoc.
  destruct (Z.ltb_spec (Z.of_nat (length (l ++ q ++ rest))) (Z.of_nat (length l))); [rewrite length_app in *; lia|].
  rewrite Nat2Z.id, drop_app_length, take_app_length. rewrite (IH q) by (done || lia). done.
Qed.

Lemma encode_labels_text labels name :
  Forall (Forall is_u8) labels -> encode_labels labels = Some name -> Forall is_u8 name /\ name <> [].
Proof.
  revert name. induction labels as [|l labels IH]; intros name Hu; cbn [encode_labels]; [intros [= <-]; by repeat constructor|].
  destruct (_ || _); [done|]. inversion Hu; subst. destruct (encode_labels labels) as [q|]; [|done]. red_bind. intros [= <-].
  split; [|done]. constructor; [apply u8_is_u8|]. apply Forall_app. split; [done|]. by apply IH.
Qed.

Lemma encode_labels_length labels name :
  encode_labels labels = Some name -> (length name <= 1 + length labels + sum_list_with length labels)%nat.
Proof.
  revert name. induction labels as [|l labels IH]; intros name; cbn [encode_labels]; [by intros [= <-]|].
  destruct (_ || _); [done|]. destruct (encode_labels labels) as [q|]; [|done]. red_bind. intros [= <-].
  specialize (IH q eq_refl). cbn [length sum_list_with]. rewrite length_app. lia.
Qed.

Lemma valid_labels labels : forallb valid_label labels = true -> exists name, encode_labels labels = Some name.
Proof.
  induction labels as [|l labels IH]; [by eexists|]. cbn [forallb encode_labels]. rewrite andb_true_iff. intros [Hl Hls].
  destruct (IH Hls) as [name ->]. destruct l as [|c l]; [done|]. unfold valid_label in Hl. rewrite !andb_true_iff, Nat.leb_le in Hl.
  destruct Hl as [[[Hlen _] _] _]. destruct (Nat.ltb_spec 63 (length (c :: l))); [lia|]. by eexists.
Qed.

(** The letters of a domain are spread over its labels. *)
Lemma Split_sum s c : (length (Split s c) + sum_list_with length (Split s c) = S (length s))%nat.
Proof.
  induction s as [|b s IH]; [done|]. cbn [Split]. destruct (b =? c); [cbn; lia|].
  destruct (Split s c); cbn in *; lia.
Qed.

Lemma Split_u8 s c : Forall is_u8 s -> Forall (Forall is_u8) (Split s c).
Proof.
  induction 1 as [|b s Hb Hs IH]; [by repeat constructor|]. cbn [Split]. destruct (b =? c); [by constructor|].
  destruct (Split s c) as [|p ps] eqn:E; [by apply Split_not_nil in E|]. inversion IH; subst. constructor; [by constructor | done].
Qed.

Lemma TrimSuffix_text n s suffix : text n s -> text n (TrimSuffix s suffix).
Proof.
  intros [Hu Hl]. unfold TrimSuffix. case_bool_decide; [|done]. split; [by apply Forall_take | rewrite length_take; lia].
Qed.

(** The parts of the query. *)
Definition dns_parts (name : list Z) : list ObfChain.obf :=
  [ObfChain.randObf 2; ObfChain.bytesObf [1; 0; 0; 1; 0; 0; 0; 0; 0; 1]; ObfChain.bytesObf (name ++ [0; 65; 0; 1]);
   ObfChain.bytesObf [0; 0; 41; 4; 208; 0; 0; 0; 0; 0; 44; 253; 233; 0; 40]; ObfChain.randObf 40].

Lemma dns_text domain name : encodeDNSName domain = Some name -> masqueDNSQueryCPS domain = Some (ObfChain.print_chain (dns_parts name)).
Proof.
  intros H. unfold masqueDNSQueryCPS. rewrite H. red_bind. f_equal. change [] with (map ObfChain.print_obf []) at 1.
  rewrite addRand_print, !addBytes_print, addRand_print, cps_String_print by (done || by destruct name). done.
Qed.

Lemma dns_parts_ok name : Forall is_u8 name -> (length name <= 255)%nat ->
  Forall ObfChain.obf_ok (dns_parts name) /\ ObfChain.total (dns_parts name) <= ObfChain.awgMaxPacketSize /\
  Z.of_nat (length (ObfChain.print_chain (dns_parts name))) < 60000.
Proof.
  intros Hu Hl. assert (ObfChain.awgMaxPacketSize = 65507) as Hm by done.
  assert (Hb : forall l, forallb (fun b => (0 <=? b) && (b <? 256)) l = true -> Forall is_u8 l).
  { intros l. rewrite forallb_forall. intros H. apply Forall_forall. intros x Hx%H. rewrite andb_true_iff in Hx. unfold is_u8, is_u. lia. }
  split_and!.
  - unfold dns_parts. rewrite !list.Forall_cons. unfold ObfChain.obf_ok. rewrite Forall_app, length_app. split_and!; try done; try lia; try by apply Hb.
    + by destruct name.
    + cbn. lia.
  - unfold ObfChain.total, dns_parts. cbn [foldl ObfChain.ObfuscatedLen1]. rewrite length_app. cbn [length]. lia.
  - unfold ObfChain.print_chain, dns_parts. cbn [flat_map]. unfold ObfChain.print_obf, ObfChain.print_arg.
    rewrite !length_app, !hex_Encode_length, !length_app. cbn [length]. change (length (FormatUint 2)) with 1%nat.
    change (length (FormatUint 40)) with 2%nat. change (length (str "r")) with 1%nat. change (length (str "b")) with 1%nat.
    change (length (str "0x")) with 2%nat. lia.
Qed.

(** The query the device sends. *)
Lemma dns_packet now draws name labels :
  ObfChain.rand_Read_ok draws -> encode_labels labels = Some name ->
  exists d, length d = 40%nat /\
    dns_query (ObfChain.parts now draws 0 (dns_parts name)) = Some (mkQuery labels dnsQTypeHTTPS dnsOptUDPSize (dnsOptCoverCode, d)).
Proof.
  intros Hd Hn. destruct (Hd 0%nat 2%nat) as [H2 _], (Hd 4%nat 40%nat) as [H40 _].
  unfold dns_parts. cbn [ObfChain.parts ObfChain.part]. change (Z.to_nat 2) with 2%nat. change (Z.to_nat 40) with 40%nat.
  destruct (draws 0%nat 2%nat) as [|x [|y [|]]]; try done. set (d := draws 4%nat 40%nat) in *.
  exists d. split; [done|]. rewrite app_nil_r, <- !app_assoc. cbn [app]. unfold dns_query.
  rewrite (encode_decode labels name) by (done || (rewrite length_app; lia)). red_bind. rewrite H40. done.
Qed.

End Draws.

End MasqueProps.
