(* ===== verification/QuicProps.v ===== *)
(** * The QUIC decoy carries its ClientHello

    The frames of the Initial packet of QuicInitial.v, read back by the rules of QUIC,
    put the ClientHello together again; the packet always has its fixed size and the
    part of the ClientHello with the server name never comes first. *)

From Stdlib Require Import ZifyNat.
From stdpp Require Import sorting.
From S2P Require Import Prelude Bits Bytes GoStrings ObfChain Masque QuicInitial MasqueProps.

Module QuicProps.

Import Masque QuicInitial MasqueProps.

Local Open Scope Z_scope.
Local Open Scope masque_scope.

(** ** Reading frames (RFC 9000) *)

Inductive frame := Crypto (off : Z) (content : list Z) | Ping | Padding.

(** Varints of one or two bytes. *)
Definition varint (s : list Z) : option (Z * list Z) :=
  match s with
  | b :: s' =>
      if b <? 64 then Some (b, s')
      else if b <? 128 then match s' with c :: s'' => Some (256 * (b - 64) + c, s'') | [] => None end
      else None
  | [] => None
  end.

Fixpoint read_frames (fuel : nat) (s : list Z) : option (list frame) :=
  match fuel, s with
  | _, [] => Some []
  | O, _ => None
  | S fuel', b :: s' =>
      if b =? 0 then fs ← read_frames fuel' s'; Some (Padding :: fs)
      else if b =? 1 then fs ← read_frames fuel' s'; Some (Ping :: fs)
      else if b =? 6 then
        '(off, s1) ← varint s';
        '(len, s2) ← varint s1;
        if Z.of_nat (length s2) <? len then None
        else fs ← read_frames fuel' (drop (Z.to_nat len) s2); Some (Crypto off (take (Z.to_nat len) s2) :: fs)
      else None
  end.

Definition crypto_of (fs : list frame) : list (Z * list Z) :=
  omap (fun f => match f with Crypto off d => Some (off, d) | _ => None end) fs.

(** Pieces that follow each other from an offset on. *)
Fixpoint assemble (off : Z) (pieces : list (Z * list Z)) : option (list Z) :=
  match pieces with
  | [] => Some []
  | (o, d) :: pieces' =>
      if o =? off then rest ← assemble (off + Z.of_nat (length d)) pieces'; Some (d ++ rest) else None
  end.

(** ** Varints *)

Lemma appendQUICVarint_app dst v : appendQUICVarint dst v = dst ++ appendQUICVarint [] v.
Proof. unfold appendQUICVarint. repeat case_match; done. Qed.

Lemma varint_read v rest : 0 <= v < 2 ^ 14 -> varint (appendQUICVarint [] v ++ rest) = Some (v, rest).
Proof.
  intros Hv. unfold appendQUICVarint. destruct (Z.ltb_spec v (2 ^ 6)).
  { cbn [app varint]. rewrite u8_small by (unfold is_u8, is_u; lia). by destruct (Z.ltb_spec v 64); [|lia]. }
  destruct (Z.ltb_spec v (2 ^ 14)); [|lia]. cbn [app varint].
  assert (E : Z.lor (u8 (Z.shiftr v 8)) 64 = v / 256 + 64).
  { rewrite Z.shiftr_div_pow2, u8_small by (unfold is_u8, is_u; Z.to_euclidean_division_equations; lia). change (2 ^ 8) with 256.
    assert (0 <= v / 256 < 64) by (Z.to_euclidean_division_equations; lia).
    assert (Z.land (v / 256) 64 = 0) as Hl.
    { apply Z.bits_inj'. intros n Hn. rewrite Z.land_spec, Z.bits_0, (Z.pow2_bits_eqb 6) by lia.
      destruct (Z.eqb_spec 6 n) as [<-|]; [|apply andb_false_r]. rewrite andb_true_r. apply Z.bits_above_log2; [lia|].
      destruct (Z.eq_dec (v / 256) 0) as [->|]; [done | apply Z.log2_lt_pow2; lia]. }
    by rewrite <- Z.lxor_lor, <- Z.add_nocarry_lxor. }
  rewrite E. destruct (Z.ltb_spec (v / 256 + 64) 64), (Z.ltb_spec (v / 256 + 64) 128); try (Z.to_euclidean_division_equations; lia).
  unfold u8. do 2 f_equal. change (2 ^ 8) with 256. Z.to_euclidean_division_equations. lia.
Qed.

Lemma varint_length v : 0 <= v < 2 ^ 14 -> length (appendQUICVarint [] v) = varintLen v.
Proof. intros Hv. unfold appendQUICVarint, varintLen. by repeat case_match. Qed.

(** ** Cuts *)

Lemma sink_perm x front : sink x front ≡ₚ x :: front.
Proof.
  induction front as [|y front IH]; [done|]. cbn [sink]. destruct (y >? x); [|done]. rewrite IH. apply Permutation_swap.
Qed.

Lemma sink_sorted x front : StronglySorted Z.ge front -> StronglySorted Z.ge (sink x front).
Proof.
  induction 1 as [|y front Hs IH Hy]; cbn [sink]; [by repeat constructor|]. rewrite Z.gtb_ltb. destruct (Z.ltb_spec x y).
  - constructor; [done|]. rewrite sink_perm. constructor; [lia | done].
  - constructor; [by constructor|]. constructor; [lia|]. eapply Forall_impl; [|exact Hy]. intros z. cbn. lia.
Qed.

Lemma sort_fold front a :
  StronglySorted Z.ge front ->
  StronglySorted Z.ge (foldl (fun front x => sink x front) front a) /\ foldl (fun front x => sink x front) front a ≡ₚ a ++ front.
Proof.
  revert front. induction a as [|x a IH]; intros front Hf; [done|]. cbn [foldl].
  destruct (IH (sink x front) (sink_sorted x front Hf)) as [Hs Hp]. split; [done|].
  rewrite Hp, sink_perm. by rewrite <- Permutation_middle.
Qed.

Lemma sorted_rev l : StronglySorted Z.ge l -> StronglySorted Z.le (rev l).
Proof.
  induction 1 as [|x l Hs IH Hx]; [constructor|]. cbn [rev]. apply StronglySorted_app_2; [|done|by repeat constructor].
  intros y z Hy Hz. apply list_elem_of_singleton in Hz as ->. apply list_elem_of_In, in_rev, list_elem_of_In in Hy. rewrite list.Forall_forall in Hx. specialize (Hx y Hy). lia.
Qed.

Lemma sortInts_sorted a : StronglySorted Z.le (sortInts a) /\ sortInts a ≡ₚ a.
Proof.
  unfold sortInts. destruct (sort_fold [] a) as [Hs Hp]; [constructor|]. split; [by apply sorted_rev|].
  rewrite <- Permutation_rev, Hp, app_nil_r. done.
Qed.

Definition pieces (frags : list cryptoFragment) : list (Z * list Z) := map (fun f => (offset f, data f)) frags.

(** Fragments of a text from offset [a] on: they follow each other, none is empty. *)
Record fragmented (ch : list Z) (a : Z) (frags : list cryptoFragment) : Prop := {
  fr_join : assemble a (pieces frags) = Some (drop (Z.to_nat a) ch);
  fr_size : Forall (fun f => data f <> [] /\ a <= offset f /\ offset f + Z.of_nat (length (data f)) <= Z.of_nat (length ch)) frags;
  fr_first : forall i f, frags !! S i = Some f -> a < offset f
}.

Lemma fragments_cons ch a b cuts :
  fragments_at ch (a :: b :: cuts) = (piece ← slice ch a b; frags ← fragments_at ch (b :: cuts); Some (mkFragment a piece :: frags)).
Proof. done. Qed.

Lemma fragments_spec ch a cuts :
  0 <= a -> StronglySorted Z.lt (a :: cuts) -> list.last (a :: cuts) = Some (Z.of_nat (length ch)) ->
  exists frags, fragments_at ch (a :: cuts) = Some frags /\ fragmented ch a frags /\ length frags = length cuts.
Proof.
  revert a. induction cuts as [|b cuts IH]; intros a Ha Hs Hl.
  { injection Hl as Hl. exists []. split; [done|]. split; [|done]. split; [|constructor|done]. cbn. rewrite drop_ge by lia. done. }
  apply StronglySorted_cons in Hs as [Hab Hs]. destruct (IH b) as (frags & Hf & [Hj Hz Hfirst] & Hlen); [inversion Hab; lia | done | done |].
  inversion Hab as [|? ? Hlt _]; subst. assert (Hb : b <= Z.of_nat (length ch)).
  { change (list.last (b :: cuts) = Some (Z.of_nat (length ch))) in Hl. apply last_Some_elem_of, elem_of_cons in Hl as [->|E]; [done|].
    apply StronglySorted_cons in Hs as [Hall _]. rewrite list.Forall_forall in Hall. specialize (Hall _ E). lia. }
  rewrite fragments_cons, Hf. unfold slice. destruct (Z.leb_spec 0 a), (Z.leb_spec a b), (Z.leb_spec b (Z.of_nat (length ch))); try lia.
  cbn [andb]. red_bind. eexists. split; [done|]. split; [|cbn; lia]. split.
  - cbn [pieces map assemble offset data]. rewrite Z.eqb_refl. fold (pieces frags).
    set (d := take _ _). assert (Hd : Z.of_nat (length d) = b - a) by (unfold d; rewrite length_take, length_drop; lia).
    rewrite Hd. replace (a + (b - a)) with b by lia. rewrite Hj. red_bind. f_equal. unfold d.
    rewrite <- (take_drop (Z.to_nat (b - a)) (drop (Z.to_nat a) ch)) at 2. rewrite drop_drop. do 2 f_equal. lia.
  - constructor; cbn [data offset].
    + set (d := take _ _). assert (Hd : Z.of_nat (length d) = b - a) by (unfold d; rewrite length_take, length_drop; lia).
      split; [|lia]. intros E. rewrite E in Hd. cbn in Hd. lia.
    + eapply Forall_impl; [|exact Hz]. cbn. intros f (? & ? & ?). split; [done | lia].
  - intros i f Hi. cbn in Hi. rewrite list.Forall_forall in Hz. destruct (Hz f) as (_ & ? & _); [by eapply list_elem_of_lookup_2|]. lia.
Qed.

Section Draws.

Context (t : bool) (rand_Int : nat -> Z -> option Z) (rand_Read : nat -> nat -> option (list Z)).
Context (Hint : forall i n, 1 < n -> exists v, rand_Int i n = Some v /\ 0 <= v < n)
        (Hread : forall i n b, rand_Read i n = Some b -> length b = n /\ Forall is_u8 b)
        (Htotal : t = true -> forall i n, is_Some (rand_Read i n)).
Context (fuel : nat).

(** The cuts drawn in a number of draws. *)
Definition drawn (n : Z) (i k : nat) : gset Z := list_to_set (map (fun j => default 0 (rand_Int j n) + 1) (seq i k)).

(** With [t], [fuel] draws are enough for [want] different cuts. *)
Definition varied (want : nat) : Prop := forall i n, Z.of_nat want < n -> (want <= size (drawn n i fuel))%nat.

Lemma yields_randInt n : 0 < n -> yields t (randInt rand_Int n) (fun v => 0 <= v < n).
Proof.
  intros Hn i. unfold randInt. destruct (Z.leb_spec n 1); [cbn; lia|]. by destruct (Hint i n) as (v & -> & Hv).
Qed.

Definition cuts_ok (interior : Z) (c : list Z) : Prop := NoDup c /\ Forall (fun x => 1 <= x <= interior) c.

Lemma yields_draw_cuts want interior f c :
  1 < interior -> cuts_ok interior c -> (length c <= want)%nat ->
  forall i, (t = true -> (want <= size (list_to_set c ∪ drawn interior i f : gset Z))%nat) ->
  match draw_cuts rand_Int f want interior c i with
  | Ok c _ => cuts_ok interior c /\ length c = want
  | Panic => False
  | Err | Drawing => t = false
  end.
Proof.
  intros Hi. revert c. induction f as [|f IH]; intros c Hc Hl i Hv; cbn [draw_cuts]; (destruct (Nat.leb_spec want (length c)); [split; [done | lia]|]).
  { destruct t; [|done]. specialize (Hv eq_refl). unfold drawn in Hv. cbn in Hv. rewrite (right_id_L ∅ (∪)) in Hv.
    rewrite size_list_to_set in Hv by apply Hc. lia. }
  unfold bind, randInt. destruct (Z.leb_spec interior 1); [lia|]. destruct (Hint i interior) as (p & Hp & Hr); [lia|]. rewrite Hp.
  apply IH.
  - case_bool_decide; [done|]. destruct Hc as [Hn Hf]. split.
    + apply list.NoDup_app. split; [done|]. split; [|apply NoDup_singleton]. intros x Hx ->%list_elem_of_singleton. done.
    + apply Forall_app. split; [done|]. repeat constructor; lia.
  - case_bool_decide; [lia|]. rewrite length_app. cbn. lia.
  - intros Ht. specialize (Hv Ht). etrans; [exact Hv|]. apply subseteq_size. unfold drawn. cbn [seq map]. rewrite Hp. cbn [default from_option id].
    case_bool_decide; rewrite ?list_to_set_app_L; set_solver.
Qed.

(** A sorted list without repetitions, with its least element in front. *)
Lemma sorted_strict l : StronglySorted Z.le l -> NoDup l -> StronglySorted Z.lt l.
Proof.
  induction 1 as [|x l Hs IH Hx]; intros Hn; [constructor|]. apply list.NoDup_cons in Hn as [Hx' Hn]. constructor; [by apply IH|].
  apply list.Forall_forall. intros y Hy. rewrite list.Forall_forall in Hx. specialize (Hx y Hy).
  assert (x <> y) by (intros ->; done). lia.
Qed.

Lemma sorted_head l x : StronglySorted Z.lt l -> x ∈ l -> (forall y, y ∈ l -> x <= y) -> exists l', l = x :: l'.
Proof.
  intros Hs Hx Hm. destruct l as [|z l]; [by apply not_elem_of_nil in Hx|]. exists l. f_equal.
  apply elem_of_cons in Hx as [->|Hx]; [done|]. apply StronglySorted_cons in Hs as [Hz _]. rewrite list.Forall_forall in Hz.
  specialize (Hz x Hx). specialize (Hm z (list_elem_of_here _ _)). lia.
Qed.

Lemma sorted_last l x : StronglySorted Z.lt l -> x ∈ l -> (forall y, y ∈ l -> y <= x) -> list.last l = Some x.
Proof.
  intros Hs Hx Hm. destruct (list.last l) as [z|] eqn:E; [|apply last_None in E as ->; by apply not_elem_of_nil in Hx].
  f_equal. apply last_Some in E as [l' ->]. apply elem_of_app in Hx as [Hx|Hx%list_elem_of_singleton]; [|done].
  assert (x < z). { apply (StronglySorted_app_1_elem_of Z.lt l' [z]); [done | done | by left]. }
  specialize (Hm z). rewrite elem_of_app in Hm. specialize (Hm (or_intror (list_elem_of_here _ _))). lia.
Qed.

Lemma yields_planFragments ch n :
  2 <= n < Z.of_nat (length ch) - 1 -> (t = true -> varied (Z.to_nat (n - 1))) ->
  yields t (planFragmentsN rand_Int fuel ch n) (fun frags => fragmented ch 0 frags /\ length frags = Z.to_nat n).
Proof.
  intros Hn Hv. unfold planFragmentsN. destruct (Z.ltb_spec n 2), (Z.ltb_spec (Z.of_nat (length ch)) n); try lia.
  eapply yields_bind.
  { intros i. apply yields_draw_cuts; [lia | by split; constructor | cbn; lia|]. intros Ht. cbn [list_to_set]. rewrite (left_id_L ∅ (∪)). apply Hv; [done | lia]. } cbv beta. intros c [[Hnd Hf] Hl]. cbv zeta.
  destruct (sortInts_sorted ([0] ++ c ++ [Z.of_nat (length ch)])) as [Hs Hp]. set (cuts := sortInts _) in *.
  rewrite list.Forall_forall in Hf.
  assert (Hin : forall y, y ∈ cuts <-> y = 0 \/ y ∈ c \/ y = Z.of_nat (length ch)).
  { intros y. rewrite Hp, !elem_of_app, !list_elem_of_singleton. tauto. }
  assert (Hnd' : NoDup cuts).
  { rewrite Hp. apply list.NoDup_app. split_and!; [apply NoDup_singleton | |].
    - intros x ->%list_elem_of_singleton [Hx|Hx%list_elem_of_singleton]%elem_of_app; [specialize (Hf _ Hx); lia | lia].
    - apply list.NoDup_app. split_and!; [done | | apply NoDup_singleton]. intros x Hx ->%list_elem_of_singleton. specialize (Hf _ Hx). lia. }
  apply sorted_strict in Hs; [|done].
  assert (Hr : forall y, y ∈ cuts -> 0 <= y <= Z.of_nat (length ch)).
  { intros y [->|[Hy| ->]]%Hin; [lia | specialize (Hf _ Hy); lia | lia]. }
  destruct (sorted_head cuts 0 Hs) as [cuts' Hc]; [apply Hin; by left | intros y Hy; by apply Hr|].
  assert (Hlast : list.last cuts = Some (Z.of_nat (length ch))).
  { apply sorted_last; [done | apply Hin; tauto | intros y Hy; by apply Hr]. }
  assert (Hlen : length cuts = S (Z.to_nat n)) by (rewrite Hp, !length_app; cbn; lia).
  rewrite Hc in *. destruct (fragments_spec ch 0 cuts' ltac:(lia) Hs Hlast) as (frags & -> & Hfr & Hl'). apply yields_ok.
  split; [done|]. cbn in Hlen. lia.
Qed.

(** ** The plan *)

Lemma yields_shuffle i order : (i < length order)%nat -> yields t (shuffle rand_Int i order) (fun l => l ≡ₚ order).
Proof.
  revert order. induction i as [|i IH]; intros order Hi; cbn [shuffle]; [by apply yields_ok|].
  step yields_randInt; [lia|]. intros j Hj. destruct (Z.ltb_spec j 0); [lia|]. unfold swap.
  destruct (lookup_lt_is_Some_2 order (S i)) as [a Ha]; [done|].
  destruct (lookup_lt_is_Some_2 order (Z.to_nat j)) as [b Hb]; [lia|]. rewrite Ha, Hb. red_bind.
  eapply yields_weaken; [apply IH; rewrite !length_insert; lia|]. cbv beta. intros l ->. by apply Permutation_insert_swap.
Qed.

(** Padding runs, of which at most one, number [flexPick], is flexible. *)
Definition runs_ok (flex : bool) (count : nat) (runs : list planEntry) : Prop :=
  exists pads, runs ≡ₚ (if flex then [framePaddingFlex] else []) ++ map framePadding pads /\
    (length pads + (if flex then 1 else 0) = count)%nat /\ Forall (fun n => 8 <= n <= 55) pads.

Lemma yields_padding_runs count i flexPick :
  yields t (padding_runs rand_Int count i flexPick) (runs_ok ((i <=? flexPick) && (flexPick <? i + Z.of_nat count)) count).
Proof.
  revert i. induction count as [|count IH]; intros i; cbn [padding_runs].
  { apply yields_ok. exists []. destruct (Z.leb_spec i flexPick), (Z.ltb_spec flexPick (i + Z.of_nat 0)); try lia; by repeat constructor. }
  destruct (Z.eqb_spec i flexPick) as [->|Hne].
  - eapply (yields_bind _ _ (fun e => e = framePaddingFlex)); [by apply yields_ok|]. intros e ->. step IH. intros r (pads & Hp & Hl & Hf).
    apply yields_ok. exists pads. rewrite Hp. destruct (Z.leb_spec (flexPick + 1) flexPick); [lia|].
    destruct (Z.leb_spec flexPick flexPick), (Z.ltb_spec flexPick (flexPick + Z.of_nat (S count))); try lia. cbn [andb] in *. split; [done|]. split; [lia | done].
  - eapply (yields_bind _ _ (fun e => exists n, e = framePadding n /\ 8 <= n <= 55)).
    { step yields_randInt; [lia|]. intros sz Hsz. apply yields_ok. eexists. split; [done | lia]. }
    intros e (n & -> & Hn). step IH. intros r (pads & Hp & Hl & Hf). apply yields_ok. exists (n :: pads). rewrite Hp.
    replace ((i <=? flexPick) && (flexPick <? i + Z.of_nat (S count))) with ((i + 1 <=? flexPick) && (flexPick <? i + 1 + Z.of_nat count)).
    2: { destruct (Z.leb_spec (i + 1) flexPick), (Z.leb_spec i flexPick), (Z.ltb_spec flexPick (i + 1 + Z.of_nat count)),
           (Z.ltb_spec flexPick (i + Z.of_nat (S count))); try done; lia. }
    split; [cbn; by rewrite Permutation_middle|]. split; [cbn; lia | by constructor].
Qed.

Lemma concat_insert (gaps : list (list planEntry)) i gap f :
  gaps !! i = Some gap -> concat (<[i := gap ++ [f]]> gaps) ≡ₚ f :: concat gaps.
Proof.
  revert i. induction gaps as [|g gaps IH]; intros [|i] Hi; cbn in *; [done | done | |].
  - injection Hi as ->. rewrite <- app_assoc. cbn. by rewrite <- Permutation_middle.
  - rewrite (IH i Hi). by rewrite <- Permutation_middle.
Qed.

Lemma yields_assign_gaps fillers gaps :
  gaps <> [] ->
  yields t (assign_gaps rand_Int fillers (Z.of_nat (length gaps)) gaps) (fun g => concat g ≡ₚ fillers ++ concat gaps /\ length g = length gaps).
Proof.
  intros Hne. revert gaps Hne. induction fillers as [|f fillers IH]; intros gaps Hne; cbn [assign_gaps]; [by apply yields_ok|].
  step yields_randInt; [destruct gaps; [done | cbn; lia]|]. intros slot Hs. destruct (Z.ltb_spec slot 0); [lia|].
  destruct (lookup_lt_is_Some_2 gaps (Z.to_nat slot)) as [gap Hg]; [lia|]. rewrite Hg.
  eapply yields_weaken.
  - rewrite <- (length_insert gaps (Z.to_nat slot) (gap ++ [f])). apply IH.
    intros E%(f_equal length). rewrite length_insert in E. by destruct gaps.
  - cbv beta. intros g [Hp Hl]. rewrite length_insert in Hl. split; [|done]. rewrite Hp, (concat_insert _ _ _ _ Hg).
    cbn. by rewrite Permutation_middle.
Qed.

Lemma interleave_perm order gaps :
  length gaps = length order -> interleave order gaps ≡ₚ map frameCrypto order ++ concat gaps.
Proof.
  revert gaps. induction order as [|x order IH]; intros [|g gaps] Hl; try done. cbn. rewrite IH by (cbn in Hl; lia).
  constructor. rewrite !app_assoc. by rewrite (Permutation_app_comm g).
Qed.

(** The entries of a plan for [n] fragments, in any order but with a CRYPTO frame
    other than the first fragment in front. *)
Definition plan_ok (n : nat) (pings : Z) (plan : list planEntry) : Prop :=
  exists runs, plan ≡ₚ map frameCrypto (seq 0 n) ++ repeat framePing (Z.to_nat pings) ++ runs /\
    runs_ok true (Z.to_nat (pings + 2)) runs /\ exists idx rest, plan = frameCrypto (S idx) :: rest.

Lemma yields_plan frags pings :
  (2 <= length frags)%nat -> 1 <= pings -> yields t (randomizedWirePlan rand_Int frags pings) (plan_ok (length frags) pings).
Proof.
  intros Hn Hp. unfold randomizedWirePlan. destruct (Nat.ltb_spec (length frags) 2); [lia|]. cbv zeta.
  destruct (Z.ltb_spec pings 1); [lia|]. step yields_shuffle; [rewrite length_seq; lia|]. intros order Ho.
  set (order' := match order with 0%nat :: b :: rest => b :: 0%nat :: rest | _ => order end).
  assert (Ho' : order' ≡ₚ seq 0 (length frags) /\ exists idx rest, order' = S idx :: rest).
  { assert (Hlen : length order = length frags) by (rewrite Ho, length_seq; done).
    assert (Hnd : NoDup order) by (rewrite Ho; apply NoDup_seq).
    destruct order as [|a [|b order]]; [cbn in Hlen; lia | cbn in Hlen; lia |]. destruct a as [|a]; subst order'.
    - split; [by rewrite <- Ho; apply Permutation_swap|]. destruct b as [|b]; [|by eexists _, _].
      apply list.NoDup_cons in Hnd as [Hx _]. exfalso. apply Hx. by left.
    - split; [done|]. by eexists _, _. }
  destruct Ho' as [Hperm (idx & rest & Hhead)]. clearbody order'.
  step yields_randInt; [lia|]. intros flexPick Hf. step yields_padding_runs. intros runs Hr.
  replace ((0 <=? flexPick) && (flexPick <? 0 + Z.of_nat (Z.to_nat (pings + 2)))) with true in Hr
    by (destruct (Z.leb_spec 0 flexPick), (Z.ltb_spec flexPick (0 + Z.of_nat (Z.to_nat (pings + 2)))); done || lia).
  eapply yields_bind; [rewrite <- (repeat_length ([] : list planEntry) (length frags)) at 1; apply yields_assign_gaps;
    intros E%(f_equal length); rewrite repeat_length in E; cbn in E; lia|].
  cbv beta. intros gaps [Hg Hl]. rewrite repeat_length in Hl. apply yields_ok. exists runs. split_and!; [|done|].
  - rewrite interleave_perm by (rewrite Hl, Hperm, length_seq; done). rewrite Hg, Hperm.
    replace (concat (repeat [] (length frags))) with (@nil planEntry); [by rewrite app_nil_r|].
    clear. induction (length frags); done.
  - rewrite Hhead. destruct gaps as [|g gaps]; [|by eexists _, _]. cbn in Hl. lia.
Qed.

(** ** The payload *)

Definition entry_len (frags : list cryptoFragment) (flexLen : Z) (e : planEntry) : Z :=
  match e with
  | frameCrypto idx =>
      match frags !! idx with
      | Some f => 1 + Z.of_nat (varintLen (offset f)) + Z.of_nat (varintLen (Z.of_nat (length (data f)))) + Z.of_nat (length (data f))
      | None => 0
      end
  | framePing => 1
  | framePadding n => n
  | framePaddingFlex => flexLen
  end.

Definition plan_len (frags : list cryptoFragment) (flexLen : Z) (plan : list planEntry) : Z :=
  foldr Z.add 0 (map (entry_len frags flexLen) plan).

#[local] Instance plan_len_perm frags flexLen : Proper ((≡ₚ) ==> eq) (plan_len frags flexLen).
Proof.
  intros l1 l2 Hl. unfold plan_len. induction Hl; cbn; lia.
Qed.

Lemma planFixedLen_spec frags plan n0 flex :
  (forall idx, frameCrypto idx ∈ plan -> is_Some (frags !! idx)) ->
  planFixedLen frags plan n0 flex = Some (n0 + plan_len frags 0 plan, flex || bool_decide (framePaddingFlex ∈ plan)).
Proof.
  revert n0 flex. induction plan as [|e plan IH]; intros n0 flex Hi.
  { cbn. rewrite (bool_decide_eq_false_2 (framePaddingFlex ∈ [])) by apply not_elem_of_nil. by rewrite orb_false_r, Z.add_0_r. }
  assert (Hi' : forall idx, frameCrypto idx ∈ plan -> is_Some (frags !! idx)) by (intros idx H; apply Hi; by right).
  assert (Hb : forall e', e' <> framePaddingFlex -> bool_decide (framePaddingFlex ∈ e' :: plan) = bool_decide (framePaddingFlex ∈ plan)).
  { intros e' He. apply bool_decide_ext. rewrite elem_of_cons. split; [intros [?|?]; [congruence | done] | by right]. }
  unfold plan_len. cbn [map foldr]. fold (plan_len frags 0 plan).
  destruct e as [idx| |n|]; cbn [planFixedLen entry_len].
  - destruct (Hi idx (list_elem_of_here _ _)) as [f Hf]. rewrite Hf. red_bind. rewrite IH, Hb by done. do 2 f_equal. lia.
  - rewrite IH, Hb by done. do 2 f_equal. lia.
  - rewrite IH, Hb by done. do 2 f_equal. lia.
  - rewrite IH by done. rewrite (bool_decide_eq_true_2 (_ ∈ _ :: _)) by by left. rewrite orb_true_r. cbn. done.
Qed.

Definition crypto_bytes (f : cryptoFragment) : list Z :=
  [6] ++ appendQUICVarint [] (offset f) ++ appendQUICVarint [] (Z.of_nat (length (data f))) ++ data f.

Definition entry_bytes (frags : list cryptoFragment) (flexLen : Z) (e : planEntry) : list Z :=
  match e with
  | frameCrypto idx => match frags !! idx with Some f => crypto_bytes f | None => [] end
  | framePing => [1]
  | framePadding n => repeat 0 (Z.to_nat n)
  | framePaddingFlex => repeat 0 (Z.to_nat flexLen)
  end.

Definition entry_frames (frags : list cryptoFragment) (flexLen : Z) (e : planEntry) : list frame :=
  match e with
  | frameCrypto idx => match frags !! idx with Some f => [Crypto (offset f) (data f)] | None => [] end
  | framePing => [Ping]
  | framePadding n => repeat Padding (Z.to_nat n)
  | framePaddingFlex => repeat Padding (Z.to_nat flexLen)
  end.

Lemma append_frames_spec frags plan flexLen out :
  (forall idx, frameCrypto idx ∈ plan -> is_Some (frags !! idx)) ->
  append_frames frags plan flexLen out = Some (out ++ flat_map (entry_bytes frags flexLen) plan).
Proof.
  revert out. induction plan as [|e plan IH]; intros out Hi; [by cbn; rewrite app_nil_r|].
  assert (Hi' : forall idx, frameCrypto idx ∈ plan -> is_Some (frags !! idx)) by (intros idx H; apply Hi; by right).
  cbn [flat_map]. destruct e as [idx| |n|]; cbn [append_frames entry_bytes]; [|by rewrite IH, <- app_assoc..].
  destruct (Hi idx (list_elem_of_here _ _)) as [f Hf]. rewrite Hf. red_bind. rewrite IH by done. f_equal. unfold appendCryptoFrame, crypto_bytes.
  rewrite (appendQUICVarint_app (appendQUICVarint _ _)), (appendQUICVarint_app (out ++ [6])). by rewrite <- !app_assoc.
Qed.

Lemma read_padding k n rest : (n + length rest <= k)%nat ->
  read_frames k (repeat 0 n ++ rest) = (fs ← read_frames (k - n) rest; Some (repeat Padding n ++ fs)).
Proof.
  revert k. induction n as [|n IH]; intros k Hk; cbn [repeat app].
  { rewrite Nat.sub_0_r. by destruct (read_frames k rest). }
  destruct k as [|k]; [lia|]. cbn [read_frames Z.eqb]. rewrite IH by lia. cbn [Nat.sub]. by destruct (read_frames (k - n) rest).
Qed.

(** A fragment small enough for varints of two bytes. *)
Definition small (f : cryptoFragment) : Prop := 0 <= offset f < 2 ^ 14 /\ Z.of_nat (length (data f)) < 2 ^ 14.

Lemma read_crypto k f rest fs : small f -> read_frames k rest = Some fs ->
  read_frames (S k) (crypto_bytes f ++ rest) = Some (Crypto (offset f) (data f) :: fs).
Proof.
  intros [Ho Hl] Hr. unfold crypto_bytes. cbn [app read_frames Z.eqb]. rewrite <- !app_assoc, varint_read by done. red_bind.
  rewrite varint_read by lia. red_bind.
  destruct (Z.ltb_spec (Z.of_nat (length (data f ++ rest))) (Z.of_nat (length (data f)))); [rewrite length_app in *; lia|].
  rewrite Nat2Z.id, drop_app_length, take_app_length, Hr. done.
Qed.

(** The frames of a payload are those of its plan. *)
Lemma read_plan frags plan flexLen k :
  Forall small frags -> (forall idx, frameCrypto idx ∈ plan -> is_Some (frags !! idx)) ->
  (length (flat_map (entry_bytes frags flexLen) plan) <= k)%nat ->
  read_frames k (flat_map (entry_bytes frags flexLen) plan) = Some (flat_map (entry_frames frags flexLen) plan).
Proof.
  intros Hs. revert k. induction plan as [|e plan IH]; intros k Hi Hk; [by destruct k|]. cbn [flat_map] in *. rewrite length_app in Hk.
  assert (Hi' : forall idx, frameCrypto idx ∈ plan -> is_Some (frags !! idx)) by (intros idx H; apply Hi; by right).
  destruct e as [idx| |n|]; cbn [entry_bytes entry_frames] in *.
  - destruct (Hi idx (list_elem_of_here _ _)) as [f Hf]. rewrite Hf in *.
    assert (0 < length (crypto_bytes f))%nat by (unfold crypto_bytes; cbn; lia). destruct k as [|k]; [lia|].
    apply read_crypto; [by eapply list.Forall_lookup_1 | apply IH; [done | lia]].
  - cbn in Hk. destruct k as [|k]; [lia|]. cbn [app read_frames Z.eqb]. rewrite IH by (done || lia). done.
  - rewrite repeat_length in Hk. rewrite read_padding, IH by (done || lia). done.
  - rewrite repeat_length in Hk. rewrite read_padding, IH by (done || lia). done.
Qed.

Lemma map_seq_lookup {A B} (h : option A -> B) (l : list A) : map (fun i => h (l !! i)) (seq 0 (length l)) = map (fun x => h (Some x)) l.
Proof.
  induction l as [|x l IH]; [done|]. cbn [length seq map]. f_equal. rewrite <- seq_shift, map_map. cbn. exact IH.
Qed.

Definition total_data (ps : list (Z * list Z)) : Z := foldr Z.add 0 (map (fun p => Z.of_nat (length (snd p))) ps).

Lemma assemble_length off ps s : assemble off ps = Some s -> Z.of_nat (length s) = total_data ps.
Proof.
  revert off s. induction ps as [|[o d] ps IH]; intros off s; cbn [assemble]; [by intros [= <-]|]. destruct (o =? off); [|done].
  destruct (assemble _ ps) as [r|] eqn:E; [|done]. red_bind. intros [= <-]. apply IH in E. rewrite length_app. unfold total_data in *. cbn. lia.
Qed.

Lemma varintLen_small v : 0 <= v < 2 ^ 14 -> (varintLen v <= 2)%nat.
Proof. intros Hv. unfold varintLen. destruct (v <? 2 ^ 6); [lia|]. destruct (Z.ltb_spec v (2 ^ 14)); lia. Qed.

Lemma entry_bytes_length frags flexLen e :
  Forall small frags -> 0 <= flexLen -> (forall n, e = framePadding n -> 0 <= n) ->
  Z.of_nat (length (entry_bytes frags flexLen e)) = entry_len frags flexLen e.
Proof.
  intros Hs Hf Hp. destruct e as [idx| |n|]; cbn [entry_bytes entry_len]; rewrite ?repeat_length; [|done | specialize (Hp n eq_refl); lia | lia].
  destruct (frags !! idx) as [f|] eqn:E; [|done]. destruct (list.Forall_lookup_1 _ _ _ _ Hs E) as [Ho Hl].
  unfold crypto_bytes. rewrite !length_app, !varint_length by lia. cbn [length]. lia.
Qed.

Lemma plan_bytes_length frags flexLen plan :
  Forall small frags -> 0 <= flexLen -> (forall n, framePadding n ∈ plan -> 0 <= n) ->
  Z.of_nat (length (flat_map (entry_bytes frags flexLen) plan)) = plan_len frags flexLen plan.
Proof.
  intros Hs Hf. induction plan as [|e plan IH]; intros Hp; [done|]. cbn [flat_map]. unfold plan_len. cbn [map foldr]. fold (plan_len frags flexLen plan).
  rewrite length_app, Nat2Z.inj_add, IH by (intros n Hn; apply Hp; by right). rewrite entry_bytes_length; [done | done | done|].
  intros n ->. apply Hp. by left.
Qed.

Lemma plan_len_app frags flexLen p1 p2 : plan_len frags flexLen (p1 ++ p2) = plan_len frags flexLen p1 + plan_len frags flexLen p2.
Proof. unfold plan_len. induction p1 as [|e p1 IH]; [done|]. cbn in *. lia. Qed.

Lemma plan_len_pings frags flexLen n : plan_len frags flexLen (repeat framePing n) = Z.of_nat n.
Proof. unfold plan_len. induction n as [|n IH]; [done|]. cbn in *. lia. Qed.

Lemma plan_len_pads frags flexLen pads :
  Forall (fun n => 8 <= n <= 55) pads -> 0 <= plan_len frags flexLen (map framePadding pads) <= 55 * Z.of_nat (length pads).
Proof. unfold plan_len. induction 1 as [|n pads Hn _ IH]; [done|]. cbn in *. lia. Qed.

Lemma plan_len_crypto frags flexLen :
  Forall small frags ->
  plan_len frags flexLen (map frameCrypto (seq 0 (length frags))) <= 5 * Z.of_nat (length frags) + total_data (pieces frags).
Proof.
  intros Hs. unfold plan_len. rewrite map_map. cbn [entry_len].
  rewrite (map_seq_lookup (fun o => match o with Some f => 1 + Z.of_nat (varintLen (offset f)) + Z.of_nat (varintLen (Z.of_nat (length (data f)))) + Z.of_nat (length (data f)) | None => 0 end)).
  unfold total_data, pieces. rewrite map_map. induction Hs as [|f frags [Ho Hl] _ IH]; [done|]. cbn [map foldr length snd data].
  cbn [snd] in IH. pose proof (varintLen_small (offset f) Ho). pose proof (varintLen_small (Z.of_nat (length (data f))) ltac:(lia)). lia.
Qed.

(** The CRYPTO frames of a plan. *)
Definition piece_of (frags : list cryptoFragment) (e : planEntry) : option (Z * list Z) :=
  match e with frameCrypto idx => (fun f => (offset f, data f)) <$> frags !! idx | _ => None end.

Lemma crypto_plan frags flexLen plan : crypto_of (flat_map (entry_frames frags flexLen) plan) = omap (piece_of frags) plan.
Proof.
  unfold crypto_of. induction plan as [|e plan IH]; [done|]. cbn [flat_map]. rewrite omap_app, IH.
  assert (Hp : forall n, omap (fun f => match f with Crypto off d => Some (off, d) | _ => None end) (repeat Padding n) = []) by (induction n; done).
  destruct e as [idx| |n|]; cbn [entry_frames]; [by cbn; destruct (frags !! idx) | done | by rewrite Hp..].
Qed.

Lemma pieces_of_plan frags plan pads m :
  plan ≡ₚ framePaddingFlex :: map frameCrypto (seq 0 (length frags)) ++ repeat framePing m ++ map framePadding pads ->
  omap (piece_of frags) plan ≡ₚ pieces frags.
Proof.
  intros ->. cbn. rewrite !omap_app.
  assert (E1 : omap (piece_of frags) (map frameCrypto (seq 0 (length frags))) = pieces frags).
  { transitivity (omap (fun o => o) (map (fun i => (fun f => (offset f, data f)) <$> frags !! i) (seq 0 (length frags)))).
    { induction (seq 0 (length frags)) as [|i l IH]; [done|]. cbn. by destruct (frags !! i); cbn; rewrite IH. }
    rewrite (map_seq_lookup (fmap (fun f => (offset f, data f)))). unfold pieces. clear.
    induction frags as [|f frags IH]; [done|]. cbn in *. by rewrite IH. }
  assert (E2 : omap (piece_of frags) (repeat framePing m) = []) by (induction m; done).
  assert (E3 : omap (piece_of frags) (map framePadding pads) = []) by (induction pads; done).
  by rewrite E1, E2, E3, !app_nil_r.
Qed.

(** What a receiver reads out of a payload. *)
Definition carries (payload ch : list Z) : Prop :=
  exists fs, read_frames (length payload) payload = Some fs /\
    (exists ps, crypto_of fs ≡ₚ ps /\ assemble 0 ps = Some ch /\ Forall (fun p => snd p <> []) ps) /\
    exists off d rest, crypto_of fs = (off, d) :: rest /\ off <> 0.

Lemma plan_len_fixed frags fl p : framePaddingFlex ∉ p -> plan_len frags fl p = plan_len frags 0 p.
Proof.
  unfold plan_len. induction p as [|e p IH]; [done|]. rewrite not_elem_of_cons. intros [He Hp]. cbn [map foldr]. rewrite IH by done.
  by destruct e.
Qed.

(** The flexible padding and the other entries. *)
Lemma plan_split n pings plan :
  1 <= pings -> plan_ok n pings plan ->
  exists pads, plan ≡ₚ framePaddingFlex :: map frameCrypto (seq 0 n) ++ repeat framePing (Z.to_nat pings) ++ map framePadding pads /\
    Z.of_nat (length pads) = pings + 1 /\ Forall (fun n => 8 <= n <= 55) pads.
Proof.
  intros Hp (runs & Hperm & (pads & Hruns & Hl & Hpads) & _). exists pads. split; [|split; [lia | done]].
  rewrite Hperm, Hruns, !app_assoc. cbn. rewrite <- Permutation_middle. by rewrite app_nil_r.
Qed.

Lemma other_entries n m pads : framePaddingFlex ∉ map frameCrypto (seq 0 n) ++ repeat framePing m ++ map framePadding pads.
Proof.
  rewrite !elem_of_app, !list_elem_of_fmap. intros [(j & Hi & _)|[Hi|(k & Hi & _)]]; [done | | done].
  by apply list_elem_of_In, repeat_spec in Hi.
Qed.

Lemma payload_spec ch frags pings plan target :
  fragmented ch 0 frags -> Z.of_nat (length ch) < 2 ^ 14 -> 1 <= pings -> plan_ok (length frags) pings plan ->
  5 * Z.of_nat (length frags) + Z.of_nat (length ch) + pings + 55 * (pings + 1) <= target ->
  exists payload, buildInitialPayload frags plan target = Some payload /\ Z.of_nat (length payload) = target /\ carries payload ch.
Proof.
  intros [Hj Hz Hfirst] Hlen Hpos Hok Ht. destruct (plan_split _ _ _ Hpos Hok) as (pads & Hperm & Hpl & Hpads).
  destruct Hok as (_ & _ & _ & idx & rest & Hhead).
  assert (Hsmall : Forall small frags). { eapply Forall_impl; [|exact Hz]. cbn. intros f (_ & ? & ?). unfold small. lia. }
  assert (Hin : forall e, e ∈ plan -> e = framePaddingFlex \/ e = framePing \/ (exists i, e = frameCrypto i /\ (i < length frags)%nat) \/
    exists n, e = framePadding n /\ 0 <= n).
  { intros e. rewrite Hperm, elem_of_cons, !elem_of_app, !list_elem_of_fmap. intros [->|[(i & -> & Hi%elem_of_seq)|[Hi|(n & -> & Hn)]]].
    - by left.
    - right; right; left. exists i. split; [done | lia].
    - apply list_elem_of_In, repeat_spec in Hi. by right; left.
    - right; right; right. exists n. rewrite list.Forall_forall in Hpads. specialize (Hpads n Hn). split; [done | lia]. }
  assert (Hidx : forall i, frameCrypto i ∈ plan -> is_Some (frags !! i)).
  { intros i [|[|[(j & [= <-] & Hi)|(n & Hn & _)]]]%Hin; try done. by apply lookup_lt_is_Some_2. }
  assert (Hpad : forall n, framePadding n ∈ plan -> 0 <= n).
  { intros n [|[|[(j & Hi & _)|(m & [= <-] & Hn)]]]%Hin; done. }
  set (others := map frameCrypto (seq 0 (length frags)) ++ repeat framePing (Z.to_nat pings) ++ map framePadding pads) in *.
  assert (Hplan : forall fl, plan_len frags fl plan = fl + plan_len frags 0 others).
  { intros fl. rewrite Hperm. unfold plan_len at 1. cbn [map foldr entry_len]. fold (plan_len frags fl others).
    by rewrite plan_len_fixed by apply other_entries. }
  assert (Hb : plan_len frags 0 others <= target).
  { unfold others. rewrite !plan_len_app, plan_len_pings. pose proof (plan_len_crypto frags 0 Hsmall). pose proof (plan_len_pads frags 0 pads Hpads).
    apply assemble_length in Hj. rewrite drop_0 in Hj. lia. }
  unfold buildInitialPayload. rewrite planFixedLen_spec by done. red_bind. rewrite (bool_decide_eq_true_2 (framePaddingFlex ∈ plan)) by (rewrite Hperm; by left).
  cbn [orb negb]. rewrite Hplan, !Z.add_0_l. destruct (Z.ltb_spec (target - plan_len frags 0 others) 0); [lia|].
  rewrite append_frames_spec by done. red_bind. cbn [app]. set (flexLen := target - plan_len frags 0 others) in *.
  pose proof (plan_bytes_length frags flexLen plan Hsmall ltac:(lia) Hpad) as Hpl'. rewrite Hplan in Hpl'.
  set (payload := flat_map (entry_bytes frags flexLen) plan) in *. rewrite Hpl'. replace (flexLen + plan_len frags 0 others) with target by lia.
  rewrite Z.eqb_refl. cbn [negb]. exists payload. split; [done|]. split; [lia|].
  exists (flat_map (entry_frames frags flexLen) plan). split; [by apply read_plan|]. rewrite crypto_plan. split.
  - exists (pieces frags). rewrite drop_0 in Hj. split_and!; [by eapply pieces_of_plan | done|].
    apply list.Forall_fmap. eapply Forall_impl; [|exact Hz]. by intros f (? & _).
  - rewrite Hhead. cbn. destruct (Hidx (S idx)) as [f Hf]; [rewrite Hhead; by left|]. rewrite Hf. cbn. do 3 eexists. split; [done|].
    specialize (Hfirst idx f Hf). lia.
Qed.

End Draws.

End QuicProps.
