(* ===== verification/QuicPacket.v ===== *)
(** * The QUIC decoy as a server reads it

    The Initial packet of QuicInitial.v, opened with the keys of its own connection id
    and read by the rules of QUIC and TLS, is a ClientHello for the domain of the
    configuration. *)

From Stdlib Require Import ZifyNat.
From S2P Require Import Prelude Bits Bytes GoStrings ObfChain TlsFragment Masque QuicInitial MasqueProps QuicProps.

Module QuicPacket.

Import Masque QuicInitial MasqueProps QuicProps.

Local Open Scope Z_scope.
Local Open Scope masque_scope.

(** ** The ClientHello *)

(** The extensions of the generic ClientHello. *)
Definition generic_extensions (sni pub : list Z) (pad : nat) : list (Z * list Z) :=
  [(0x000a, be16 2 ++ [0; 0x1d]); (0x000d, be16 16 ++ sigAlgs); (0x0000, TlsFragment.sni_body sni);
   (0x0033, be16 36 ++ be16 0x1d ++ be16 32 ++ pub); (0x0039, buildQUICTransportParams); (0x0a0a, [0; 0; 0]);
   (0x002d, [1; 1]); (0x0010, be16 3 ++ 2 :: str "h3"); (0x001b, [2; 0; 2]); (0x002b, [2; 3; 4]); (0x0015, repeat 0 pad)].

(** The padding that brings the message to its usual length. *)
Definition pad_of (sni : list Z) : nat := Z.to_nat (quicCHTargetLen - (217 + Z.of_nat (length sni))).

Definition generic_hello (sni tlsRandom pub : list Z) : TlsFragment.ClientHello :=
  TlsFragment.mkHello 0x0303 tlsRandom [] [0x13; 1] [0]
    (generic_extensions sni pub (pad_of sni)).

Lemma appendVec16_small dst body : Z.of_nat (length body) < 65536 -> appendVec16 dst body = dst ++ be16 (Z.of_nat (length body)) ++ body.
Proof. intros H. unfold appendVec16. by rewrite u16_small by (unfold is_u; lia). Qed.

Lemma appendExtension_small dst typ body : Z.of_nat (length body) < 65536 ->
  appendExtension dst typ body = dst ++ TlsFragment.extension_bytes (typ, body).
Proof. intros H. unfold appendExtension. by rewrite u16_small by (unfold is_u; lia). Qed.

Lemma hello_extensions_bytes sni pub pad : (length sni < 256)%nat -> length pub = 32%nat ->
  hello_extensions sni pub ++ TlsFragment.extension_bytes (0x0015, repeat 0 pad) =
  TlsFragment.extensions_bytes (generic_extensions sni pub pad).
Proof.
  intros Hs Hp. unfold hello_extensions.
  assert (appendVec16 [] (appendVec16 [0] sni) = TlsFragment.sni_body sni) as ->.
  { rewrite (appendVec16_small [0] sni), appendVec16_small by (rewrite ?length_app; cbn [length be16]; lia).
    unfold TlsFragment.sni_body, TlsFragment.len. cbn [app]. do 2 f_equal. cbn [length be16]. rewrite length_app. cbn [length be16]. lia. }
  assert (appendVec16 [] (appendVec16 (be16 0x1d) pub) = be16 36 ++ be16 0x1d ++ be16 32 ++ pub) as ->.
  { rewrite (appendVec16_small (be16 _) pub), appendVec16_small by (rewrite ?length_app; cbn [length be16]; lia).
    rewrite !length_app, Hp. done. }
  assert (Z.of_nat (length (TlsFragment.sni_body sni)) < 65536) by
    (unfold TlsFragment.sni_body; rewrite !length_app; cbn [length be16]; lia).
  assert (Z.of_nat (length (be16 36 ++ be16 0x1d ++ be16 32 ++ pub)) < 65536) by (rewrite !length_app, Hp; done).
  rewrite !appendExtension_small by done. unfold TlsFragment.extensions_bytes, generic_extensions. cbn [map concat].
  rewrite app_nil_r, <- !app_assoc. done.
Qed.


Lemma extensions_bytes_generic sni pub pad : length pub = 32%nat ->
  length (TlsFragment.extensions_bytes (generic_extensions sni pub pad)) = (170 + length sni + pad)%nat.
Proof.
  intros Hp. unfold TlsFragment.extensions_bytes, generic_extensions, TlsFragment.extension_bytes, TlsFragment.sni_body.
  cbn [map concat fst snd]. rewrite !length_app, Hp, repeat_length. change (length buildQUICTransportParams) with 45%nat.
  cbn [length be16 sigAlgs app]. change (length (str "h3")) with 2%nat. lia.
Qed.

(** A name, and 32 bytes. *)
Definition name_ok (sni : list Z) : Prop := sni <> [] /\ text 254 sni.
Definition key_ok (k : list Z) : Prop := length k = 32%nat /\ Forall is_u8 k.

Lemma pad_of_value sni : Z.of_nat (pad_of sni) = Z.max 0 (77 - Z.of_nat (length sni)).
Proof. unfold pad_of, quicCHTargetLen. lia. Qed.

Lemma generic_length sni tlsRandom pub : key_ok tlsRandom -> key_ok pub ->
  Z.of_nat (length (TlsFragment.hello_body (generic_hello sni tlsRandom pub))) = Z.max 290 (213 + Z.of_nat (length sni)).
Proof.
  intros [Hr _] [Hp _]. unfold TlsFragment.hello_body, generic_hello. cbn [TlsFragment.version TlsFragment.random TlsFragment.sessionID
    TlsFragment.suites TlsFragment.compression TlsFragment.extensions]. rewrite !length_app, Hr, extensions_bytes_generic by done.
  pose proof (pad_of_value sni). cbn [length be16]. lia.
Qed.

(** The three bytes of the length of a message. *)
Lemma message_bytes h n : n = Z.of_nat (length (TlsFragment.hello_body h)) -> n < 65536 ->
  [1; u8 (Z.shiftr n 16); u8 (Z.shiftr n 8); u8 n] ++ TlsFragment.hello_body h = TlsFragment.hello_bytes h.
Proof.
  intros -> Hn. unfold TlsFragment.hello_bytes, TlsFragment.len, be16. cbn [app]. do 2 f_equal; [|f_equal; f_equal].
  - rewrite Z.shiftr_div_pow2 by lia. unfold u8. by rewrite Z.div_small by lia.
  - change 255 with (2 ^ 8 - 1). rewrite land_mask by lia. unfold u8. by rewrite Z.mod_mod.
Qed.

Lemma generic_bytes sni tlsRandom pub : name_ok sni -> key_ok tlsRandom -> key_ok pub ->
  buildGenericClientHello sni tlsRandom pub = Some (TlsFragment.hello_bytes (generic_hello sni tlsRandom pub)) /\
  Z.of_nat (length (TlsFragment.hello_bytes (generic_hello sni tlsRandom pub))) = Z.max 294 (217 + Z.of_nat (length sni)).
Proof.
  intros (Hne & _ & Hs) Hr Hp. pose proof (generic_length sni tlsRandom pub Hr Hp) as Hl. destruct Hr as [Hr _], Hp as [Hp _].
  unfold buildGenericClientHello. rewrite bool_decide_eq_false_2 by done. rewrite Hp. cbn [negb Z.eqb Z.of_nat].
  set (body := appendVec16 ([3; 3] ++ tlsRandom ++ [0]) [19; 1] ++ [1; 0]).
  assert (length body = 41%nat) as Hb by (subst body; unfold appendVec16; rewrite !length_app, Hr; done).
  assert (length (hello_extensions sni pub) = 166 + length sni)%nat as He.
  { pose proof (extensions_bytes_generic sni pub 0 Hp) as Hg. rewrite <- hello_extensions_bytes, length_app in Hg by (done || lia).
    change (length (TlsFragment.extension_bytes (21, repeat 0 0))) with 4%nat in Hg. lia. }
  rewrite Hb, He. match goal with |- context [if ?x <? 0 then 0 else ?x] =>
    replace (Z.to_nat (if x <? 0 then 0 else x)) with (pad_of sni) by (unfold pad_of; destruct (Z.ltb_spec x 0); lia)
  end.
  pose proof (pad_of_value sni) as Hv. rewrite appendExtension_small by (rewrite repeat_length; lia).
  rewrite hello_extensions_bytes by (done || lia). pose proof (extensions_bytes_generic sni pub (pad_of sni) Hp) as Hx.
  rewrite appendVec16_small by lia.
  match goal with |- context [body ++ ?x] =>
    replace (body ++ x) with (TlsFragment.hello_body (generic_hello sni tlsRandom pub)) by
      (subst body; rewrite appendVec16_small, <- !app_assoc by done; done)
  end.
  rewrite message_bytes by (done || lia).
  assert (Z.of_nat (length (TlsFragment.hello_bytes (generic_hello sni tlsRandom pub))) = Z.max 294 (217 + Z.of_nat (length sni))) as ->.
  { unfold TlsFragment.hello_bytes. rewrite !length_app. cbn [length be16]. lia. }
  split; [|done]. destruct (Z.ltb_spec (Z.max 294 (217 + Z.of_nat (length sni))) quicCHMinLen); [unfold quicCHMinLen in *; lia | done].
Qed.

Lemma be16_u8 v : Forall is_u8 (be16 v).
Proof. repeat constructor; apply u8_is_u8. Qed.

Lemma extensions_u8 es : Forall (fun e => is_u16 (fst e) /\ Forall is_u8 (snd e)) es -> Forall is_u8 (TlsFragment.extensions_bytes es).
Proof.
  intros HF. unfold TlsFragment.extensions_bytes. induction HF as [|e es [_ He] _ IH]; [constructor|]. cbn [map concat].
  unfold TlsFragment.extension_bytes at 1. rewrite !Forall_app. split_and!; (done || apply be16_u8).
Qed.

Lemma generic_types sni pub pad : Forall is_u8 sni -> Forall is_u8 pub ->
  Forall (fun e => is_u16 (fst e) /\ Forall is_u8 (snd e)) (generic_extensions sni pub pad).
Proof.
  intros Hs Hp. assert (Forall is_u8 [0]) by (repeat constructor; unfold is_u; lia).
  unfold generic_extensions. rewrite !list.Forall_cons. cbn [fst snd]. unfold TlsFragment.sni_body.
  assert (Forall is_u8 (repeat 0 pad)).
  { apply list.Forall_forall. intros x Hx%list_elem_of_In%repeat_spec. subst x. unfold is_u. lia. }
  split_and!; first [ done | rewrite !Forall_app; split_and!; (done || apply be16_u8) | by_eval ].
Qed.

Lemma generic_ok sni tlsRandom pub : name_ok sni -> key_ok tlsRandom -> key_ok pub -> TlsFragment.hello_ok (generic_hello sni tlsRandom pub).
Proof.
  intros (Hne & Hsu & Hs) Hr Hp. pose proof (generic_length sni tlsRandom pub Hr Hp) as Hl. destruct Hr as [Hr Hru], Hp as [Hp Hpu].
  pose proof (generic_types sni pub (pad_of sni) Hsu Hpu) as Ht. split; try done.
  - unfold TlsFragment.hello_body, generic_hello. cbn [TlsFragment.version TlsFragment.random TlsFragment.sessionID
      TlsFragment.suites TlsFragment.compression TlsFragment.extensions]. rewrite !Forall_app.
    split_and!; first [ apply be16_u8 | exact Hru | by apply extensions_u8 | by_eval ].
  - unfold TlsFragment.len. lia.
Qed.

Lemma name_in_sni sni es base : Z.of_nat (length sni) < 65536 ->
  TlsFragment.name_in ((0, TlsFragment.sni_body sni) :: es) base = Some (TlsFragment.mkServerName (base + 9) (Z.of_nat (length sni)) sni 0).
Proof. intros Hl. cbn. by rewrite be16_value by (unfold TlsFragment.len; lia). Qed.

Lemma name_in_skip typ body es base : typ <> 0 ->
  TlsFragment.name_in ((typ, body) :: es) base = TlsFragment.name_in es (base + 4 + TlsFragment.len body).
Proof. intros Ht. cbn. by destruct (Z.eqb_spec typ 0). Qed.

Lemma generic_name sni tlsRandom pub : Z.of_nat (length sni) < 65536 ->
  TlsFragment.server_name (generic_hello sni tlsRandom pub) = Some (TlsFragment.mkServerName 86 (Z.of_nat (length sni)) sni 45).
Proof.
  intros Hl. unfold TlsFragment.server_name, generic_hello, generic_extensions, TlsFragment.extensions.
  rewrite !name_in_skip, name_in_sni by done. done.
Qed.

(** ** Bytes of a payload *)

Lemma varint_bytes v : Forall is_u8 (appendQUICVarint [] v).
Proof.
  unfold appendQUICVarint. assert (forall x c, is_u8 c -> is_u8 (Z.lor (u8 x) c)) as Hor.
  { intros x c Hc. apply is_u_lor; [lia | apply u8_is_u8 | done]. }
  repeat case_match; cbn [app]; repeat constructor; first [ apply u8_is_u8 | apply Hor; unfold is_u; lia ].
Qed.

Lemma zeros_bytes n : Forall is_u8 (repeat 0 n).
Proof. apply list.Forall_forall. intros x Hx%list_elem_of_In%repeat_spec. subst x. unfold is_u. lia. Qed.

Lemma append_frames_bytes frags plan flexLen out r : Forall (fun f => Forall is_u8 (data f)) frags ->
  append_frames frags plan flexLen out = Some r -> Forall is_u8 out -> Forall is_u8 r.
Proof.
  intros Hf. revert out. induction plan as [|e plan IH]; intros out; cbn [append_frames]; [by intros [= <-]|].
  destruct e as [idx| |n|].
  - destruct (frags !! idx) as [f|] eqn:Hi; cbn [mbind option_bind]; [|done]. intros H Ho. apply (IH _ H). unfold appendCryptoFrame.
    rewrite appendQUICVarint_app, (appendQUICVarint_app (out ++ _)), !Forall_app. split_and!; try apply varint_bytes; try done.
    + by_eval.
    + by apply (list.Forall_lookup_1 _ _ _ _ Hf Hi).
  - intros H Ho. apply (IH _ H), Forall_app. split; [done | by_eval].
  - intros H Ho. apply (IH _ H), Forall_app. split; [done | apply zeros_bytes].
  - intros H Ho. apply (IH _ H), Forall_app. split; [done | apply zeros_bytes].
Qed.

Lemma payload_bytes frags plan target payload : Forall (fun f => Forall is_u8 (data f)) frags ->
  buildInitialPayload frags plan target = Some payload -> Forall is_u8 payload.
Proof.
  intros Hf. unfold buildInitialPayload. destruct (planFixedLen _ _ _ _) as [[fixed hasFlex]|]; cbn [mbind option_bind]; [|done].
  destruct hasFlex; [|done]. cbn [negb]. destruct (_ <? 0); [done|].
  destruct (append_frames _ _ _ _) as [out|] eqn:H; cbn [mbind option_bind]; [|done]. destruct (negb _); [done|]. intros [= <-].
  by eapply append_frames_bytes.
Qed.

Lemma assemble_bytes frags off s : assemble off (pieces frags) = Some s -> Forall is_u8 s -> Forall (fun f => Forall is_u8 (data f)) frags.
Proof.
  revert off s. induction frags as [|f frags IH]; intros off s; cbn [pieces map assemble]; [constructor|].
  destruct (_ =? _); [|done]. destruct (assemble _ _) as [rest|] eqn:H; cbn [mbind option_bind]; [|done]. intros [= <-] [Hd Hr]%Forall_app.
  constructor; [done | by eapply IH].
Qed.

Lemma fragments_bytes ch a frags : fragmented ch a frags -> Forall is_u8 ch -> Forall (fun f => Forall is_u8 (data f)) frags.
Proof. intros [Hj _ _] Hc. eapply assemble_bytes; [exact Hj | by apply Forall_drop]. Qed.

Lemma generic_reads sni tlsRandom pub : name_ok sni -> key_ok tlsRandom -> key_ok pub ->
  exists n, let hello := TlsFragment.hello_bytes (generic_hello sni tlsRandom pub) in
    TlsFragment.indexTLSServerNameFromHandshake (length hello) hello = TlsFragment.Returns (Some n) /\ TlsFragment.ServerName n = sni.
Proof.
  intros Hn Hr Hp. destruct (generic_bytes sni tlsRandom pub Hn Hr Hp) as [_ Hl].
  eexists. cbv zeta. rewrite TlsFragment.hello_reads; [|by apply generic_ok|].
  2: { change (length (TlsFragment.extensions _)) with 11%nat. lia. }
  rewrite generic_name; [done|]. destruct Hn as (_ & _ & ?). lia.
Qed.

(** ** Packet protection *)

Section Protection.

Context (hkdf_Extract : list Z -> list Z -> list Z) (hkdf_Expand : list Z -> list Z -> nat -> list Z)
  (gcm_Seal : list Z -> list Z -> list Z -> list Z -> list Z) (gcm_Open : list Z -> list Z -> list Z -> list Z -> option (list Z))
  (aes_Encrypt : list Z -> list Z -> list Z).

(** HKDF gives the bytes asked for, a block of AES has 16 bytes, and opening undoes
    sealing, which adds a tag of 16 bytes. *)
Record primitives_ok : Prop := mkPrimitives {
  expand_length : forall secret info n, length (hkdf_Expand secret info n) = n;
  encrypt_block : forall key block, length (aes_Encrypt key block) = 16%nat /\ Forall is_u8 (aes_Encrypt key block);
  seal_length : forall key nonce p ad, length (gcm_Seal key nonce p ad) = (length p + 16)%nat;
  seal_bytes : forall key nonce p ad, Forall is_u8 p -> Forall is_u8 (gcm_Seal key nonce p ad);
  open_seal : forall key nonce p ad, gcm_Open key nonce (gcm_Seal key nonce p ad) ad = Some p
}.

(** A server opens an Initial packet (RFC 9000, 7.2 and 17.2.2, RFC 9001, 5.4):
    version 1, a connection id of 8 to 20 bytes, no source connection id, no token, a
    sample of 16 bytes, a packet number of one byte. *)
Definition open_initial (packet : list Z) : option (list Z) :=
  match packet with
  | b0 :: 0 :: 0 :: 0 :: 1 :: dl :: rest =>
      let dcid := take (Z.to_nat dl) rest in
      match drop (Z.to_nat dl) rest with
      | 0 :: 0 :: r1 =>
          '(len, r2) ← varint r1;
          let '(key, iv, hp) := deriveInitialKeys hkdf_Extract hkdf_Expand dcid in
          let mask := aes_Encrypt hp (take 16 (drop 4 r2)) in
          m0 ← mask !! 0%nat; m1 ← mask !! 1%nat; pn ← r2 !! 0%nat;
          let b0 := Z.lxor b0 (Z.land m0 0x0f) in
          let pn := Z.lxor pn m1 in
          if (b0 =? 0xC0) && (Z.of_nat (length r2) =? len) && (20 <=? len) && (8 <=? dl) && (dl <=? 20) then
            gcm_Open key (xor_nonce iv (be64 pn)) (drop 1 r2) (b0 :: take (length packet - length r2 - 1) (drop 1 packet) ++ [pn])
          else None
      | _ => None
      end
  | _ => None
  end.

(** A server that opens the packet and puts the CRYPTO frames together has a
    ClientHello in which the server name is [sni]; the frame that comes first is not
    the one with the beginning of the message. *)
Definition reads_as (sni packet : list Z) : Prop :=
  exists payload hello n,
    open_initial packet = Some payload /\ carries payload hello /\
    TlsFragment.indexTLSServerNameFromHandshake (length hello) hello = TlsFragment.Returns (Some n) /\
    TlsFragment.ServerName n = sni.

(** The packet has the generic ClientHello for [sni] inside. *)
Definition hello_inside (sni packet : list Z) : Prop :=
  exists payload tlsRandom pub, key_ok tlsRandom /\ key_ok pub /\
    open_initial packet = Some payload /\ Forall is_u8 payload /\ carries payload (TlsFragment.hello_bytes (generic_hello sni tlsRandom pub)).

Lemma hello_inside_reads sni packet : name_ok sni -> hello_inside sni packet -> reads_as sni packet.
Proof.
  intros Hn (payload & r & pub & Hr & Hp & Hopen & _ & Hcar). destruct (generic_reads sni r pub Hn Hr Hp) as (n & ? & ?).
  by exists payload, (TlsFragment.hello_bytes (generic_hello sni r pub)), n.
Qed.

Context (Hok : primitives_ok).

Lemma lxor_twice x y : Z.lxor (Z.lxor x y) y = x.
Proof. by rewrite Z.lxor_assoc, Z.lxor_nilpotent, Z.lxor_0_r. Qed.

Lemma lxor_u8 x y : is_u8 x -> is_u8 y -> is_u8 (Z.lxor x y).
Proof.
  intros Hx Hy. unfold is_u in *. apply is_u_bits; [lia | apply Z.lxor_nonneg; lia|]. intros i Hi.
  rewrite Z.lxor_spec, !(is_u_testbit_high 8) by (unfold is_u; lia). done.
Qed.

Definition after_first (dcid : list Z) (len : Z) : list Z := [0; 0; 0; 1; 8] ++ dcid ++ [0; 0] ++ appendQUICVarint [] len.

Lemma initial_header_parts dcid len : initial_header dcid len = 0xC0 :: after_first dcid len.
Proof. unfold initial_header, after_first. rewrite appendQUICVarint_app, <- !app_assoc. done. Qed.

Lemma after_first_length dcid len : length dcid = 8%nat -> 2 ^ 6 <= len < 2 ^ 14 -> length (after_first dcid len) = 17%nat.
Proof.
  intros Hd Hl. unfold after_first. rewrite !length_app, Hd, varint_length by lia. unfold varintLen.
  by rewrite (proj2 (Z.ltb_ge len (2 ^ 6))), (proj2 (Z.ltb_lt len (2 ^ 14))) by lia.
Qed.

(** The protected packet: the mask hides the first byte and the packet number. *)
Definition protected (dcid : list Z) (len m0 m1 : Z) (sealed : list Z) : list Z :=
  Z.lxor 0xC0 (Z.land m0 0x0f) :: after_first dcid len ++ m1 :: sealed.

Lemma open_protected dcid len m0 m1 sealed payload key iv hp :
  length dcid = 8%nat -> 2 ^ 6 <= len < 2 ^ 14 -> Z.of_nat (length sealed) + 1 = len ->
  deriveInitialKeys hkdf_Extract hkdf_Expand dcid = (key, iv, hp) ->
  aes_Encrypt hp (take 16 (drop 3 sealed)) !! 0%nat = Some m0 -> aes_Encrypt hp (take 16 (drop 3 sealed)) !! 1%nat = Some m1 ->
  sealed = gcm_Seal key (xor_nonce iv (be64 0)) payload (initial_header dcid len ++ [0]) ->
  open_initial (protected dcid len m0 m1 sealed) = Some payload.
Proof.
  intros Hd Hl Hs Hk H0 H1 Hseal. pose proof (after_first_length dcid len Hd Hl) as Ha. unfold open_initial, protected.
  unfold after_first at 1. rewrite <- !app_assoc. cbn [app]. change (Z.to_nat 8) with 8%nat. rewrite take_app_length', drop_app_length' by done.
  cbn [app]. rewrite varint_read by lia. cbn [mbind option_bind]. rewrite Hk.
  change (drop 4 (m1 :: sealed)) with (drop 3 sealed). change ((m1 :: sealed) !! 0%nat) with (Some m1). change (drop 1 (m1 :: sealed)) with sealed.
  rewrite H0. cbn [mbind option_bind]. rewrite H1. cbn [mbind option_bind]. rewrite lxor_twice, Z.lxor_nilpotent. cbn [length].
  destruct (Z.eqb_spec (Z.of_nat (S (length sealed))) len) as [_|]; [|lia].
  rewrite (proj2 (Z.leb_le 20 len)) by lia. cbn [Z.eqb Z.leb Z.compare Pos.compare Pos.compare_cont Pos.eqb andb].
  rewrite skipn_cons. rewrite drop_0. rewrite take_app_length' by (rewrite length_app; cbn [length]; lia).
  rewrite Hseal, initial_header_parts. cbn [app]. apply Hok.
Qed.

Lemma xor_at_seam pre x post i v : i = length pre -> xor_at (pre ++ x :: post) i v = Some (pre ++ Z.lxor x v :: post).
Proof.
  intros ->. unfold xor_at. rewrite list_lookup_middle by done. cbn [mbind option_bind]. by rewrite insert_app_r_alt, Nat.sub_diag by lia.
Qed.

Lemma protected_bytes dcid len m0 m1 sealed : Forall is_u8 dcid -> is_u8 m0 -> is_u8 m1 -> Forall is_u8 sealed -> 0 <= len ->
  Forall is_u8 (protected dcid len m0 m1 sealed).
Proof.
  intros Hd H0 H1 Hs Hl. unfold protected, after_first. apply Forall_cons_2.
  { apply lxor_u8; [unfold is_u; lia|]. change 15 with (2 ^ 4 - 1). rewrite land_mask by lia. unfold is_u. pose proof (Z.mod_pos_bound m0 (2 ^ 4)). lia. }
  rewrite !Forall_app. split_and!; [by_eval | done | by_eval | apply varint_bytes | by constructor].
Qed.

Lemma encrypt_spec dcid payload len i :
  length dcid = 8%nat -> Forall is_u8 dcid -> Forall is_u8 payload -> (3 <= length payload)%nat ->
  2 ^ 6 <= len < 2 ^ 14 -> Z.of_nat (length payload) + 17 = len ->
  let '(key, iv, hp) := deriveInitialKeys hkdf_Extract hkdf_Expand dcid in
  exists packet, encryptInitial gcm_Seal aes_Encrypt (initial_header dcid len ++ [0]) payload key iv hp (length (initial_header dcid len)) 0 i = Ok packet i /\
    length packet = (length payload + 35)%nat /\ Forall is_u8 packet /\ open_initial packet = Some payload /\ take 8 (drop 6 packet) = dcid.
Proof.
  intros Hd Hdu Hpu Hp3 Hlen Hpl. destruct (deriveInitialKeys _ _ dcid) as [[key iv] hp] eqn:Hk.
  destruct Hok as [Hexp Haes Hsl Hsb Hos] eqn:E. clear E.
  assert (length iv = 12%nat) as Hiv by (unfold deriveInitialKeys in Hk; injection Hk as _ <- _; apply Hexp).
  unfold encryptInitial. rewrite Hiv. cbn [negb Nat.eqb]. set (sealed := gcm_Seal _ _ _ _).
  pose proof (after_first_length dcid len Hd Hlen) as Ha.
  assert (length sealed = length payload + 16)%nat as Hs by apply Hsl.
  assert ((initial_header dcid len ++ [0]) ++ sealed = (0xC0 :: after_first dcid len) ++ 0 :: sealed) as -> by
    (rewrite initial_header_parts, <- app_assoc; done).
  assert (length (initial_header dcid len) = 18%nat) as -> by (rewrite initial_header_parts; cbn [length]; lia).
  rewrite length_app. destruct (Nat.ltb_spec (length (0xC0 :: after_first dcid len) + length (0 :: sealed)) (18 + 4 + 16)); [cbn [length] in *; lia|].
  assert (drop (18 + 4) ((0xC0 :: after_first dcid len) ++ 0 :: sealed) = drop 3 sealed) as ->.
  { rewrite drop_app_ge by (cbn [length]; lia). cbn [length]. rewrite Ha. done. }
  destruct (Haes hp (take 16 (drop 3 sealed))) as [Hm Hmu].
  destruct (lookup_lt_is_Some_2 (aes_Encrypt hp (take 16 (drop 3 sealed))) 0) as [m0 H0]; [lia|].
  destruct (lookup_lt_is_Some_2 (aes_Encrypt hp (take 16 (drop 3 sealed))) 1) as [m1 H1]; [lia|].
  rewrite H0. cbn [mbind option_bind]. rewrite H1. cbn [mbind option_bind].
  assert (xor_at ((0xC0 :: after_first dcid len) ++ 0 :: sealed) 0 (Z.land m0 15) ≫= (fun p => xor_at p 18 m1) =
    Some (protected dcid len m0 m1 sealed)) as ->.
  { rewrite (xor_at_seam [] 0xC0 (after_first dcid len ++ 0 :: sealed)) by done. cbn [mbind option_bind].
    rewrite (xor_at_seam (Z.lxor 0xC0 (Z.land m0 15) :: after_first dcid len) 0 sealed) by (cbn [length]; lia).
    unfold protected. by rewrite Z.lxor_0_l. }
  exists (protected dcid len m0 m1 sealed). split; [done|]. split; [|split; [|split]].
  - unfold protected. cbn [length]. rewrite length_app, Ha. cbn [length]. lia.
  - apply protected_bytes; try done; [by eapply list.Forall_lookup_1.. | by apply Hsb | lia].
  - eapply open_protected with (key := key) (iv := iv) (hp := hp); try done. lia.
  - unfold protected, after_first. cbn [app drop]. rewrite <- !app_assoc. by apply take_app_length'.
Qed.


(** ** The packet *)

Context (t : bool) (rand_Int : nat -> Z -> option Z) (rand_Read : nat -> nat -> option (list Z)).
Context (Hint : forall i n, 1 < n -> exists v, rand_Int i n = Some v /\ 0 <= v < n)
        (Hread : forall i n b, rand_Read i n = Some b -> length b = n /\ Forall is_u8 b)
        (Htotal : t = true -> forall i n, is_Some (rand_Read i n)).
Context (fuel : nat) (Hvaried : t = true -> varied rand_Int fuel 5).
Context (x25519_public : list Z -> list Z) (Hpublic : forall k, key_ok (x25519_public k)).
Context (buildBrowserClientHello : list Z -> list Z -> option (list Z)).

Lemma yields_hello sni browser : name_ok sni -> browser <> str "chrome" -> browser <> str "firefox" ->
  yields t (buildInitialPacket rand_Int rand_Read fuel hkdf_Extract hkdf_Expand gcm_Seal aes_Encrypt x25519_public buildBrowserClientHello
    sni browser defaultQUICGenParams)
    (fun packet => Z.of_nat (length packet) = quicInitialTotalLen /\ Forall is_u8 packet /\ hello_inside sni packet).
Proof.
  intros Hn Hc Hf. unfold buildInitialPacket.
  step (yields_read t rand_Read Hread Htotal). intros dcid [Hd Hdu]. step (yields_read t rand_Read Hread Htotal). intros tlsRandom [Hr Hru].
  step (yields_read t rand_Read Hread Htotal). intros secret _.
  unfold buildClientHello. rewrite !bool_decide_eq_false_2 by done. cbn [orb].
  destruct (generic_bytes sni tlsRandom (x25519_public secret)) as [-> Hl]; [done | by split | apply Hpublic|].
  assert (Forall is_u8 (TlsFragment.hello_bytes (generic_hello sni tlsRandom (x25519_public secret)))) as Hhu.
  { pose proof (TlsFragment.ok_bytes _ (generic_ok sni tlsRandom (x25519_public secret) Hn (conj Hr Hru) (Hpublic _))) as Hb.
    unfold TlsFragment.hello_bytes. rewrite !Forall_app. split_and!; [by_eval | apply be16_u8 | done]. }
  remember (TlsFragment.hello_bytes _) as hello eqn:Hhello in *. cbn [try]. destruct Hn as (Hne & Hsu & Hs).
  step (yields_ok (t := t) hello (fun x => x = hello)); [done|]. intros ? ->.
  step (yields_planFragments t rand_Int rand_Read Hint Hread Htotal fuel); [cbn [fragments defaultQUICGenParams]; lia | exact Hvaried|]. intros frags [Hfr Hfl].
  step (yields_plan t rand_Int Hint); [rewrite Hfl; cbn; lia | cbn; lia|]. intros plan Hplan.
  change (pickTotalLen rand_Int defaultQUICGenParams) with (@ok Z 1250).
  step (yields_ok (t := t) 1250 (fun x => x = 1250)); [done|]. intros ? ->. cbv zeta.
  change ((quicPacketNumberLen + _ + _ <? 2 ^ 6) || _) with false. cbv iota.
  destruct (payload_spec hello frags 2 plan 1215) as (payload & Hpay & Hplen & Hcar); [done | lia | lia | done | rewrite Hfl; change (Z.of_nat (Z.to_nat (fragments _))) with 6; lia|].
  change (1250 - (8 + quicDCIDLen + 2 + quicPacketNumberLen) - quicAEADTagLen) with 1215. cbn [pings defaultQUICGenParams] in *. rewrite Hpay. cbn [try].
  step (yields_ok (t := t) payload (fun x => x = payload)); [done|]. intros ? ->.
  change (quicPacketNumberLen + 1215 + quicAEADTagLen) with 1232. change (repeat 0 (Z.to_nat quicPacketNumberLen)) with [0].
  pose proof (fun i => encrypt_spec dcid payload 1232 i Hd Hdu (payload_bytes _ _ _ _ (fragments_bytes _ _ _ Hfr Hhu) Hpay)
    ltac:(lia) ltac:(lia) ltac:(lia)) as Henc.
  destruct (deriveInitialKeys _ _ dcid) as [[key iv] hp]. intros i. unfold bind. destruct (Henc i) as (packet & -> & Hpk & Hpu & Hopen & _).
  replace (Z.of_nat (length packet)) with 1250 by lia. cbn. unfold quicInitialTotalLen. split_and!; [lia | done|].
  exists payload, tlsRandom, (x25519_public secret). rewrite <- Hhello.
  refine (conj (conj Hr Hru) (conj (Hpublic _) (conj Hopen (conj _ Hcar)))). exact (payload_bytes _ _ _ _ (fragments_bytes _ _ _ Hfr Hhu) Hpay).
Qed.

End Protection.

End QuicPacket.
