(* ===== verification/Masquerade.v ===== *)
(** * A masquerade speaks its protocol

    The decoys that [masqueI1I2] (AwgOptions.v) chooses for the protocol and domain
    of the options, read by the device's parser of decoys (ObfChain.v): every packet
    the device sends for them is a message of that protocol. *)

From S2P Require Import Prelude Bits Bytes GoStrings GoNetip ObfChain TlsFragment Masque QuicInitial AwgOptions MasqueProps QuicProps QuicPacket.

Module Masquerade.

Import Masque QuicInitial AwgOptions MasqueProps QuicPacket.

Local Open Scope Z_scope.
Local Open Scope masque_scope.

(** ** What a decoy sends *)

(** The device reads the text, and every packet it makes of it has the property. *)
Definition sends (decoy : list Z) (P : list Z -> Prop) : Prop :=
  exists chain, ObfChain.newObfChain decoy = Some chain /\
    forall now draws, ObfChain.rand_Read_ok draws -> exists packet, ObfChain.decoy_packet now draws chain = Some packet /\ P packet.

Lemma sends_bytes b (P : list Z -> Prop) : Forall is_u8 b -> b <> [] -> Z.of_nat (length b) < 20000 -> P b -> sends (cps_String (addBytes [] b)) P.
Proof.
  intros Hu Hne Hl HP. destruct (bytes_parse b Hu Hne Hl) as [_ Hp]. eexists. split; [exact Hp|]. intros now draws Hd. exists b. split; [|done].
  rewrite ObfChain.decoy_parts; [cbn; by rewrite app_nil_r | done|]. apply Forall_singleton. split_and!; [done | done|]. change ObfChain.awgMaxPacketSize with 65507. lia.
Qed.

(** ** Which options are refused *)

Definition proto_of (o : AmneziaWGOptions) : list Z := ToLower (TrimSpace (Ip o)).
Definition domain_of (o : AmneziaWGOptions) : list Z := TrimSpace (Id o).

Definition protocols : list (list Z) := [str "quic"; str "stun"; str "dns"; str "sip"].

Definition unset (o : AmneziaWGOptions) : Prop := Id o = [] /\ Ip o = [] /\ Ib o = [].

(** The options of a masquerade are good. *)
Record accepted (o : AmneziaWGOptions) : Prop := {
  acc_i1 : I1 o = [];
  acc_proto : proto_of o ∈ protocols;
  acc_domain : domain_of o <> [] -> validateMasqueDomain (domain_of o) = true;
  acc_quic : proto_of o = str "quic" -> domain_of o <> [];
  acc_browser : is_Some (normalizeMasqueBrowser (Ib o) (proto_of o))
}.

Lemma unset_dec o : bool_decide (Id o = []) && bool_decide (Ip o = []) && bool_decide (Ib o = []) = bool_decide (unset o).
Proof. unfold unset. repeat case_bool_decide; naive_solver. Qed.

Lemma accepted_set o : accepted o -> ~ unset o.
Proof. intros [_ Hp _ _ _] (_ & Hi & _). unfold proto_of in Hp. rewrite Hi in Hp. revert Hp. by_eval. Qed.

Lemma domain_accepted o : accepted o -> domain_of o = [] \/ validateMasqueDomain (domain_of o) = true.
Proof. intros [_ _ Hd _ _]. destruct (decide (domain_of o = [])); [by left | right; by apply Hd]. Qed.

(** ** Domains *)

Lemma Split_snoc s c : Split (s ++ [c]) c = Split s c ++ [[]].
Proof.
  induction s as [|b s IH]; cbn [app Split]; [by rewrite Z.eqb_refl|]. destruct (b =? c); [by rewrite IH|].
  rewrite IH. by destruct (Split s c) eqn:E; [apply Split_not_nil in E|].
Qed.

Lemma TrimSuffix_labels s : Forall label (Split s dot) -> TrimSuffix s (str ".") = s.
Proof.
  intros Hl. unfold TrimSuffix. case_bool_decide as Hs; [|done]. change (str ".") with [dot] in *. change (length [dot]) with 1%nat in *.
  destruct (decide (s = [])) as [->|Hne]; [by apply Forall_inv in Hl as [? _]|].
  rewrite <- (take_drop (length s - 1) s) in Hl at 1. rewrite Hs in Hl. rewrite Split_snoc in Hl.
  apply Forall_app in Hl as [_ Hl]. inversion_clear Hl as [|? ? [? _] _]. done.
Qed.

Lemma encode_short labels : Forall (fun l => l <> [] /\ (length l <= 63)%nat) labels -> exists name, encode_labels labels = Some name.
Proof.
  induction 1 as [|l labels [Hne Hl] _ [name IH]]; [by eexists|]. cbn [encode_labels]. rewrite IH.
  destruct (Nat.eqb_spec (length l) 0); [by destruct l|]. destruct (Nat.ltb_spec 63 (length l)); [lia|]. by eexists.
Qed.

Lemma valid_domain d : validateMasqueDomain d = true ->
  let name := TrimSuffix d (str ".") in
  name_ok d /\ name <> [] /\ text 253 name /\ forallb valid_label (Split name dot) = true.
Proof.
  unfold validateMasqueDomain. cbv zeta. set (name := TrimSuffix d _). rewrite !andb_true_iff, !negb_true_iff, Nat.leb_le.
  intros [Hd%bool_decide_eq_false_1 [[[Hn%bool_decide_eq_false_1 Hl] _] Hv]].
  assert (Forall is_u8 name) as Hu.
  { destruct (Split_Join name dot) as [<- _]. apply GoNetip.Join_Forall; [|repeat constructor; unfold is_u, dot; lia].
    rewrite forallb_forall in Hv. apply Forall_forall. intros l Hx%Hv. destruct l as [|c l]; [done|]. cbn [valid_label] in Hx.
    rewrite !andb_true_iff, forallb_forall in Hx. destruct Hx as [_ Hx]. apply Forall_forall. intros b Hb%Hx. unfold is_letter, is_digit in Hb. unfold is_u. lia. }
  split_and!; try done. split; [done|]. subst name. unfold TrimSuffix in *. case_bool_decide as Hs; [|split; [done | lia]].
  rewrite length_take in Hl. change (length (str ".")) with 1%nat in *. split; [|lia].
  rewrite <- (take_drop (length d - 1) d). apply Forall_app. split; [done|]. rewrite Hs. repeat constructor; unfold is_u; lia.
Qed.

(** ** The protocols *)

Section Protocols.

Context (hkdf_Extract : list Z -> list Z -> list Z) (hkdf_Expand : list Z -> list Z -> nat -> list Z)
  (gcm_Seal : list Z -> list Z -> list Z -> list Z -> list Z) (gcm_Open : list Z -> list Z -> list Z -> list Z -> option (list Z))
  (aes_Encrypt : list Z -> list Z -> list Z) (hmac_sha1 : list Z -> list Z -> list Z).

Definition is_query (labels : list (list Z)) (packet : list Z) : Prop :=
  exists d, dns_query packet = Some (mkQuery labels dnsQTypeHTTPS dnsOptUDPSize (dnsOptCoverCode, d)).

(** The two decoys for the protocol and the domain; a second one only for SIP. *)
Inductive speaks (domain : list Z) : list Z -> list Z * list Z -> Prop :=
| speaks_quic i1 :
    sends i1 (fun packet => Z.of_nat (length packet) = quicInitialTotalLen /\ Forall is_u8 packet /\
      hello_inside hkdf_Extract hkdf_Expand gcm_Open aes_Encrypt domain packet /\ reads_as hkdf_Extract hkdf_Expand gcm_Open aes_Encrypt domain packet) ->
    speaks domain (str "quic") (i1, [])
| speaks_stun i1 : sends i1 (fun packet => Forall is_u8 packet /\ exists key, stun_valid hmac_sha1 key packet) -> speaks domain (str "stun") (i1, [])
| speaks_dns i1 labels :
    (domain <> [] -> labels = Split (TrimSuffix domain (str ".")) dot) -> sends i1 (is_query labels) -> speaks domain (str "dns") (i1, [])
| speaks_sip i1 i2 d :
    (TrimSuffix domain (str ".") <> [] -> callerDom d = TrimSuffix domain (str ".")) ->
    sends i1 (eq (sip_invite d)) -> sends i2 (eq (sip_trying d)) -> speaks domain (str "sip") (i1, i2).

Context (Hok : primitives_ok hkdf_Expand gcm_Seal gcm_Open aes_Encrypt)
        (Hmac : forall k m, length (hmac_sha1 k m) = 20%nat /\ Forall is_u8 (hmac_sha1 k m)).

(** Draws, which never fail when [t]. *)
Context (t : bool) (rand_Int : nat -> Z -> option Z) (rand_Read : nat -> nat -> option (list Z)).
Context (Hint : forall i n, 1 < n -> exists v, rand_Int i n = Some v /\ 0 <= v < n)
        (Hread : forall i n b, rand_Read i n = Some b -> length b = n /\ Forall is_u8 b)
        (Htotal : t = true -> forall i n, is_Some (rand_Read i n)).
Context (fuel : nat) (Hvaried : t = true -> QuicProps.varied rand_Int fuel 5).
Context (x25519_public : list Z -> list Z) (Hpublic : forall k, key_ok (x25519_public k)).
Context (buildBrowserClientHello : list Z -> list Z -> option (list Z)).

Abbreviation quic := (masqueQUICInitialCPS rand_Int rand_Read fuel hkdf_Extract hkdf_Expand gcm_Seal aes_Encrypt x25519_public buildBrowserClientHello).
Abbreviation masqueI1 := (masqueI1 rand_Int rand_Read hmac_sha1 quic).
Abbreviation masqueI1I2 := (masqueI1I2 rand_Int rand_Read hmac_sha1 quic).

Lemma yields_quic sni browser : name_ok sni -> browser <> str "chrome" -> browser <> str "firefox" ->
  yields t (quic sni browser) (fun i1 => i1 <> [] /\ speaks sni (str "quic") (i1, [])).
Proof.
  intros Hn Hc Hf. unfold masqueQUICInitialCPS. step (yields_hello hkdf_Extract hkdf_Expand gcm_Seal gcm_Open aes_Encrypt Hok); [done..|].
  intros packet (Hl & Hu & Hr). pose proof (hello_inside_reads hkdf_Extract hkdf_Expand gcm_Open aes_Encrypt sni packet Hn Hr) as Hreads. unfold quicInitialTotalLen in Hl. assert (packet <> []) by (intros ->; done). apply yields_ok.
  split; [by destruct packet|]. apply speaks_quic, sends_bytes; try done. lia.
Qed.

Lemma yields_stun_decoy domain : yields t (masqueSTUNRequestCPS rand_Read hmac_sha1) (fun i1 => i1 <> [] /\ speaks domain (str "stun") (i1, [])).
Proof.
  unfold masqueSTUNRequestCPS. step (yields_stun t rand_Read Hread Htotal hmac_sha1 Hmac). intros s ([Hu Hl] & Hne & Hs). apply yields_ok.
  split; [by destruct s|]. apply speaks_stun, sends_bytes; try done. lia.
Qed.

(** A domain whose labels can be encoded. *)
Lemma sends_query domain name : text 253 (TrimSuffix domain (str ".")) -> encodeDNSName domain = Some name ->
  sends (ObfChain.print_chain (dns_parts name)) (is_query (Split (TrimSuffix domain (str ".")) dot)).
Proof.
  intros [Hu Hl] Hn. unfold encodeDNSName in Hn. pose proof (Split_sum (TrimSuffix domain (str ".")) dot) as Hsum.
  set (labels := Split _ dot) in *. pose proof (encode_labels_length _ _ Hn). destruct (encode_labels_text labels name) as [Hnu _]; [by apply Split_u8 | done|].
  destruct (dns_parts_ok name Hnu) as (Hok' & Ht & _); [lia|]. eexists. split; [by apply print_parses|]. intros now draws Hd.
  rewrite ObfChain.decoy_parts by done. eexists. split; [done|]. destruct (dns_packet now draws name labels Hd Hn) as (d & _ & Hq). by exists d.
Qed.

Lemma yields_query domain : text 253 (TrimSuffix domain (str ".")) ->
  Forall (fun l => l <> [] /\ (length l <= 63)%nat) (Split (TrimSuffix domain (str ".")) dot) ->
  yields t (try (masqueDNSQueryCPS domain)) (fun i1 => i1 <> [] /\ sends i1 (is_query (Split (TrimSuffix domain (str ".")) dot))).
Proof.
  intros Hd Hl. destruct (encode_short _ Hl) as [name Hn]. fold (encodeDNSName domain) in Hn. rewrite (dns_text _ _ Hn).
  apply yields_ok. split; [done | by apply sends_query].
Qed.

Lemma yields_dns domain : domain = [] \/ validateMasqueDomain domain = true ->
  yields t (let! d := (if bool_decide (domain = []) then pgDomainHost rand_Int else ok domain) in try (masqueDNSQueryCPS d))
    (fun i1 => i1 <> [] /\ speaks domain (str "dns") (i1, [])).
Proof.
  intros Hd. case_bool_decide as Hne.
  - eapply yields_bind; [apply yields_and; [by apply yields_pgDomainHost | by apply yields_pgDomainHost_labels]|]. cbv beta.
    intros host [[Hu Hlen] (ls & Hs & Hls)]. assert (TrimSuffix host (str ".") = host) as Htrim by (apply TrimSuffix_labels; by rewrite Hs).
    eapply yields_weaken; [apply yields_query|].
    + rewrite Htrim. split; [done | lia].
    + rewrite Htrim, Hs. pose proof (Split_sum host dot) as Hsum. rewrite Hs in Hsum. apply list.Forall_forall. intros l Hl.
      rewrite list.Forall_forall in Hls. split; [by apply Hls|]. apply (sum_list_with_in _ length) in Hl. lia.
    + intros i1 [Hi Hq]. split; [done|]. eapply speaks_dns; [|exact Hq]. done.
  - destruct Hd as [|(_ & _ & Ht & Hv)%valid_domain]; [done|]. eapply (yields_bind _ _ (eq domain)); [by apply yields_ok|]. intros ? <-.
    eapply yields_weaken; [apply yields_query; [done|]|].
    + rewrite forallb_forall in Hv. apply Forall_forall. intros l Hx%Hv. destruct l as [|c l]; [done|]. cbn [valid_label] in Hx.
      rewrite !andb_true_iff, Nat.leb_le in Hx. split; [done|]. tauto.
    + intros i1 [Hi Hq]. split; [done|]. eapply speaks_dns; [|exact Hq]. done.
Qed.

Lemma yields_sip domain : domain = [] \/ validateMasqueDomain domain = true ->
  yields t (newSIPDialog rand_Int domain) (fun d => masqueSIPInviteCPS d <> [] /\ speaks domain (str "sip") (masqueSIPInviteCPS d, masqueSIPTryingCPS d)).
Proof.
  intros Hd. eapply yields_weaken; [apply yields_newSIPDialog; [done|]|].
  - destruct Hd as [->|(_ & _ & Ht & _)%valid_domain]; [apply text_nil | done].
  - intros d [[[Hu Hl] [Hu' Hl']] Hc]. split; [done|]. apply (speaks_sip _ _ _ d); [done|..]; apply sends_bytes; done || lia.
Qed.

(** ** The choice *)

Definition first_decoy (proto domain browser : list Z) : G (list Z) :=
  if bool_decide (proto = str "quic") then
    if bool_decide (domain = []) then err else quic domain browser
  else if bool_decide (proto = str "stun") then masqueSTUNRequestCPS rand_Read hmac_sha1
  else if bool_decide (proto = str "dns") then
    let! domain := (if bool_decide (domain = []) then pgDomainHost rand_Int else ok domain) in
    try (masqueDNSQueryCPS domain)
  else if bool_decide (proto = str "sip") then
    let! d := newSIPDialog rand_Int domain in
    ok (masqueSIPInviteCPS d)
  else err.

Lemma I1_accepted o browser i : accepted o -> normalizeMasqueBrowser (Ib o) (proto_of o) = Some browser ->
  masqueI1 o i = first_decoy (proto_of o) (domain_of o) browser i.
Proof.
  intros Ha Hb. pose proof (accepted_set o Ha) as Hu. destruct Ha as [Hi Hp Hd Hq _]. unfold AwgOptions.masqueI1.
  rewrite unset_dec, bool_decide_eq_false_2, Hi by done. cbn [negb bool_decide]. rewrite (bool_decide_eq_true_2 (@nil Z = [])) by done. cbn [negb].
  fold (proto_of o) (domain_of o). cbv zeta. rewrite (bool_decide_eq_false_2 (proto_of o = [])) by (intros E; rewrite E in Hp; revert Hp; by_eval).
  assert (negb (bool_decide (domain_of o = [])) && negb (validateMasqueDomain (domain_of o)) = false) as ->.
  { case_bool_decide as Hn; [done|]. by rewrite (Hd Hn). }
  rewrite Hb. done.
Qed.

(** Whatever is not refused is good. *)
Lemma I1_only_accepted o i : ~ unset o -> masqueI1 o i <> Err -> accepted o.
Proof.
  clear Hok Hmac Hint Hread Htotal Hvaried Hpublic gcm_Open t. intros Hu. unfold AwgOptions.masqueI1. rewrite unset_dec, bool_decide_eq_false_2 by done. fold (proto_of o) (domain_of o). cbv zeta.
  case_bool_decide as Hi; [cbn [negb]|done]. case_bool_decide as Hp; [done|].
  destruct (negb (bool_decide (domain_of o = [])) && negb (validateMasqueDomain (domain_of o))) eqn:Hd; [done|].
  destruct (normalizeMasqueBrowser (Ib o) (proto_of o)) as [browser|] eqn:Hb; [|done]. intros Hne.
  assert (proto_of o ∈ protocols /\ (proto_of o = str "quic" -> domain_of o <> [])) as [H1 H2].
  { revert Hne. cbn [try]. unfold bind, ok. unfold protocols. rewrite !elem_of_cons. repeat case_bool_decide; try done; naive_solver. }
  split; try done. intros Hdom. rewrite (bool_decide_eq_false_2 (domain_of o = [])) in Hd by done. cbn in Hd. by destruct (validateMasqueDomain _).
Qed.

Lemma yields_masquerade o :
  accepted o -> ToLower (TrimSpace (Ib o)) ∉ [str "chrome"; str "firefox"] -> yields t (masqueI1I2 o) (speaks (domain_of o) (proto_of o)).
Proof.
  intros Ha Hb. pose proof (domain_accepted o Ha) as Hdom. destruct (acc_browser o Ha) as [browser Hbr].
  assert (browser <> str "chrome" /\ browser <> str "firefox") as [Hc Hf].
  { unfold normalizeMasqueBrowser in Hbr. revert Hbr. cbv zeta. case_bool_decide as Hn; [by intros [= <-]|].
    case_bool_decide; [|done]. case_bool_decide; [|done]. intros [= <-]. rewrite !elem_of_cons in Hb. naive_solver. }
  assert (yields t (masqueI1 o) (fun i1 => i1 <> [] /\ (proto_of o = str "sip" \/ speaks (domain_of o) (proto_of o) (i1, [])))) as H1.
  { intros i. rewrite (I1_accepted o browser i Ha Hbr). revert i. change (yields t (first_decoy (proto_of o) (domain_of o) browser)
      (fun i1 => i1 <> [] /\ (proto_of o = str "sip" \/ speaks (domain_of o) (proto_of o) (i1, [])))).
    unfold first_decoy. case_bool_decide as Hq.
    { pose proof (acc_quic o Ha Hq) as Hne. rewrite bool_decide_eq_false_2 by done. destruct Hdom as [|[Hn _]%valid_domain]; [done|].
      eapply yields_weaken; [by apply yields_quic|]. rewrite Hq. cbv beta. tauto. }
    case_bool_decide as Hs; [eapply yields_weaken; [apply (yields_stun_decoy (domain_of o))|]; rewrite Hs; cbv beta; tauto|].
    case_bool_decide as Hdn; [eapply yields_weaken; [by apply (yields_dns (domain_of o))|]; rewrite Hdn; cbv beta; tauto|].
    case_bool_decide as Hsip; [|destruct Ha as [_ Hp _ _ _]; unfold protocols in Hp; rewrite !elem_of_cons, elem_of_nil in Hp; naive_solver].
    step yields_sip; [done|]. intros d [Hne _]. apply yields_ok. by split; [|left]. }
  unfold AwgOptions.masqueI1I2. step H1. intros i1 [Hne Hsp]. rewrite bool_decide_eq_false_2 by done. cbv zeta. fold (proto_of o) (domain_of o).
  case_bool_decide as Hsip.
  - rewrite Hsip. step yields_sip; [done|]. intros d [_ Hd]. by apply yields_ok.
  - apply yields_ok. by destruct Hsp.
Qed.

End Protocols.

(** ** Every choice *)

(** Draws that are in range, of bytes, and never fail. *)
Record draws_ok (rand_Int : nat -> Z -> option Z) (rand_Read : nat -> nat -> option (list Z)) : Prop := {
  draws_int : forall i n, 1 < n -> exists v, rand_Int i n = Some v /\ 0 <= v < n;
  draws_bytes : forall i n, exists b, rand_Read i n = Some b /\ length b = n /\ Forall is_u8 b
}.

Section Total.

Context (hkdf_Extract : list Z -> list Z -> list Z) (hkdf_Expand : list Z -> list Z -> nat -> list Z)
  (gcm_Seal : list Z -> list Z -> list Z -> list Z -> list Z) (gcm_Open : list Z -> list Z -> list Z -> list Z -> option (list Z))
  (aes_Encrypt : list Z -> list Z -> list Z) (hmac_sha1 : list Z -> list Z -> list Z) (x25519_public : list Z -> list Z)
  (buildBrowserClientHello : list Z -> list Z -> option (list Z)).
Context (rand_Int : nat -> Z -> option Z) (rand_Read : nat -> nat -> option (list Z)) (fuel : nat).

Definition masquerade : AmneziaWGOptions -> G (list Z * list Z) :=
  masqueI1I2 rand_Int rand_Read hmac_sha1
    (masqueQUICInitialCPS rand_Int rand_Read fuel hkdf_Extract hkdf_Expand gcm_Seal aes_Encrypt x25519_public buildBrowserClientHello).

(** C28. The masquerade of an endpoint: without a protocol, a domain and a browser
    there are no decoys; otherwise they are refused unless the protocol is one of
    QUIC, STUN, DNS and SIP, the domain a host name, which QUIC needs, the browser
    fits and no first decoy is given.  All other options give decoys, without a panic
    or an endless loop, that the device understands and whose every packet is of the
    protocol: a QUIC Initial packet of 1250 bytes that a server opens and in which it
    finds the domain as the server name; a STUN binding request with correct
    lengths, integrity and fingerprint; a DNS query for the HTTPS record of the
    domain; a SIP INVITE from the domain and the 100 Trying of the same dialog.  The server that
    opens the QUIC packet is written after the RFCs but for the derivation of the keys,
    which is that of the program; the SIP messages are compared with their text as
    written down in this development.
    Assumed of the primitives: lengths, and that opening undoes sealing; of the draws:
    they do not fail, and [fuel] of them give five different cuts.  The ClientHello of
    a browser's fingerprint, which a library builds, is left out. *)
Theorem masquerade_speaks_its_protocol o i :
  primitives_ok hkdf_Expand gcm_Seal gcm_Open aes_Encrypt -> (forall k m, length (hmac_sha1 k m) = 20%nat /\ Forall is_u8 (hmac_sha1 k m)) ->
  (forall k, key_ok (x25519_public k)) -> draws_ok rand_Int rand_Read -> QuicProps.varied rand_Int fuel 5 ->
  ToLower (TrimSpace (Ib o)) ∉ [str "chrome"; str "firefox"] ->
  match masquerade o i with
  | Ok decoys _ =>
      (unset o /\ decoys = ([], [])) \/
      (accepted o /\ speaks hkdf_Extract hkdf_Expand gcm_Open aes_Encrypt hmac_sha1 (domain_of o) (proto_of o) decoys)
  | Err => ~ unset o /\ ~ accepted o
  | Panic | Drawing => False
  end.
Proof.
  intros Hok Hmac Hpub [Hint Hbytes] Hv Hb. destruct (decide (unset o)) as [Hu|Hu].
  { unfold masquerade, AwgOptions.masqueI1I2, AwgOptions.masqueI1, bind. rewrite unset_dec, bool_decide_eq_true_2 by done. left. done. }
  assert (accepted o -> yields true (masquerade o) (speaks hkdf_Extract hkdf_Expand gcm_Open aes_Encrypt hmac_sha1 (domain_of o) (proto_of o))) as Hy.
  { intros Ha. apply yields_masquerade; try done.
    - intros j n b Hr. destruct (Hbytes j n) as (b' & E & H). congruence.
    - intros _ j n. destruct (Hbytes j n) as (b & E & _). by exists b. }
  assert (masquerade o i <> Err -> accepted o) as Ha.
  { intros Hne. eapply (I1_only_accepted hkdf_Extract hkdf_Expand gcm_Seal) with (i := i); [exact Hu|]. intros E. apply Hne. unfold masquerade, AwgOptions.masqueI1I2, bind. by rewrite E. }
  destruct (masquerade o i) as [decoys j| | |] eqn:E.
  - right. specialize (Ha ltac:(done)). specialize (Hy Ha i). rewrite E in Hy. done.
  - split; [done|]. intros Hacc. specialize (Hy Hacc i). by rewrite E in Hy.
  - specialize (Hy (Ha ltac:(done)) i). by rewrite E in Hy.
  - specialize (Hy (Ha ltac:(done)) i). by rewrite E in Hy.
Qed.

End Total.

(** ** Example *)

Section Example.

Definition toy_Int (i : nat) (n : Z) : option Z := Some (Z.of_nat i mod n).
Definition toy_Read (i n : nat) : option (list Z) := Some (repeat (Z.of_nat i mod 256) n).
Definition toy_Extract (secret salt : list Z) : list Z := secret.
Definition toy_Expand (secret info : list Z) (n : nat) : list Z := repeat 7 n.
Definition toy_Seal (key nonce p ad : list Z) : list Z := p ++ repeat 5 16.
Definition toy_Open (key nonce c ad : list Z) : option (list Z) := Some (take (length c - 16) c).
Definition toy_Encrypt (key block : list Z) : list Z := repeat 3 16.
Definition toy_hmac (k m : list Z) : list Z := repeat 2 20.
Definition toy_public (k : list Z) : list Z := repeat 9 32.

Lemma repeat_u8 x n : is_u8 x -> Forall is_u8 (repeat x n).
Proof. intros Hx. apply Forall_forall. intros y Hy%repeat_spec. by subst. Qed.

Lemma toy_primitives : primitives_ok toy_Expand toy_Seal toy_Open toy_Encrypt.
Proof.
  split; unfold toy_Expand, toy_Seal, toy_Open, toy_Encrypt.
  - intros secret info n. apply repeat_length.
  - intros key block. split; [done|]. by apply repeat_u8.
  - intros key nonce p ad. by rewrite length_app, repeat_length.
  - intros key nonce p ad Hp. apply Forall_app. split; [done|]. by apply repeat_u8.
  - intros key nonce p ad. rewrite length_app, repeat_length, Nat.add_sub. by rewrite take_app_length.
Qed.

Lemma toy_draws : draws_ok toy_Int toy_Read.
Proof.
  split; unfold toy_Int, toy_Read.
  - intros i n Hn. eexists. split; [done|]. apply Z.mod_pos_bound. lia.
  - intros i n. eexists. split; [done|]. split; [apply repeat_length|]. apply repeat_u8. apply Z.mod_pos_bound. lia.
Qed.

Lemma toy_varied : QuicProps.varied toy_Int 5 5.
Proof.
  intros i n Hn. unfold QuicProps.drawn, toy_Int. rewrite size_list_to_set; [by rewrite length_map, length_seq|].
  assert (forall a b, 0 < b - a < n -> a mod n + 1 <> b mod n + 1) as Hne.
  { intros a b Hab E%Z.add_cancel_r. assert ((b - a) mod n = 0) as H by (rewrite Zminus_mod, E, Z.sub_diag; apply Z.mod_0_l; lia).
    rewrite Z.mod_small in H by lia. lia. }
  cbn [seq map default]. rewrite !list.NoDup_cons, !not_elem_of_cons. change (Z.of_nat 5) with 5 in Hn.
  split_and!; first [apply Hne; lia | apply not_elem_of_nil | constructor].
Qed.

Definition quic_options : AmneziaWGOptions :=
  mkOptions 0 0 0 0 0 0 0 [] [] [] [] [] [] [] [] [] (str " example.com ") (str "QUIC") (str "curl") None None [] [] [].

Lemma masquerade_speaks_its_protocol_witness :
  exists decoys j,
    masquerade toy_Extract toy_Expand toy_Seal toy_Encrypt toy_hmac toy_public (fun _ _ => None) toy_Int toy_Read 5 quic_options 0%nat = Ok decoys j /\
    speaks toy_Extract toy_Expand toy_Open toy_Encrypt toy_hmac (str "example.com") (str "quic") decoys.
Proof.
  pose proof (masquerade_speaks_its_protocol toy_Extract toy_Expand toy_Seal toy_Open toy_Encrypt toy_hmac toy_public (fun _ _ => None) toy_Int toy_Read 5
    quic_options 0%nat toy_primitives ltac:(intros k m; split; [done | by apply repeat_u8]) ltac:(intros k; split; [done | by apply repeat_u8])
    toy_draws toy_varied ltac:(by_eval)) as H.
  destruct (masquerade _ _ _ _ _ _ _ _ _ _ quic_options 0%nat) as [decoys j| | |] eqn:E; [|vm_compute in E; discriminate E..].
  exists decoys, j. split; [done|]. destruct H as [[(H & _) _]|[_ H]]; [done | exact H].
Defined.

End Example.

End Masquerade.
