(* ===== verification/WgEndpoint.v ===== *)
(** * WireGuard endpoints

    Models transport/wireguard/endpoint.go: [NewEndpoint] turns the options of an
    endpoint into the text of a set operation, [Start] hands it to a new device. *)

From S2P Require Import Prelude Bits Bytes GoStrings AllowedIPs GoNetip Masque AwgOptions.
From S2P Require Import Noise Runtime Engine Uapi.

Module WgEndpoint.

Import Masque AwgOptions.

Local Open Scope Z_scope.
Local Open Scope masque_scope.

(** ** Options *)

(** [netip.AddrPort]: an address, which may be invalid, and a port. *)
Record AddrPort := mkAddrPort { ap_addr : AllowedIPs.addr; ap_port : Z }.

Definition valid_ip (a : AllowedIPs.addr) : bool := match a with AllowedIPs.AddrInvalid => false | _ => true end.
Definition AddrPort_IsValid (ap : AddrPort) : bool := valid_ip (ap_addr ap).

Definition AddrPort_String (ap : AddrPort) : list Z :=
  match ap_addr ap with
  | AllowedIPs.AddrInvalid => str "invalid AddrPort"
  | AllowedIPs.Addr4 _ => GoNetip.addr_String (ap_addr ap) ++ [58] ++ FormatUint (ap_port ap)
  | AllowedIPs.Addr6 _ => [91] ++ GoNetip.addr_String (ap_addr ap) ++ [93; 58] ++ FormatUint (ap_port ap)
  end.

Definition noAddrPort : AddrPort := mkAddrPort AllowedIPs.AddrInvalid 0.

(** [M.Socksaddr] of the sing library: an address or a name, and a port. *)
Record Socksaddr := mkSocksaddr { sa_addr : AllowedIPs.addr; sa_fqdn : list Z; sa_port : Z }.

Definition noSocksaddr : Socksaddr := mkSocksaddr AllowedIPs.AddrInvalid [] 0.

Record PeerOptions := mkPeerOptions {
  po_endpoint : Socksaddr;
  po_publicKey : list Z;
  po_preSharedKey : list Z;
  po_allowedIPs : list AllowedIPs.prefix;
  po_keepalive : Z;
  po_reserved : list Z
}.

Record EndpointOptions := mkEndpointOptions {
  eo_mtu : Z;
  eo_privateKey : list Z;
  eo_listenPort : Z;
  eo_peers : list PeerOptions;
  eo_amneziaWG : AmneziaWGOptions
}.

Record peerConfig := mkPeerConfig {
  pc_destination : Socksaddr;
  pc_endpoint : AddrPort;
  pc_publicKeyHex : list Z;
  pc_preSharedKeyHex : list Z;
  pc_allowedIPs : list AllowedIPs.prefix;
  pc_keepalive : Z;
  pc_reserved : list Z
}.

Record Endpoint := mkEndpoint {
  en_peers : list peerConfig;
  en_ipcConf : list Z;
  en_mtu : Z;
  en_listenPort : Z
}.

(** ** [NewEndpoint] *)

Section NewEndpoint.

(** [Socksaddr.IsDomain]: whether it is a name. *)
Context (IsDomain : Socksaddr -> bool).

(** One turn of the loop over the peers; [None] is an error. *)
Definition new_peer (rawPeer : PeerOptions) : option peerConfig :=
  let given := po_endpoint rawPeer in
  let endpoint := if valid_ip (sa_addr given) then mkAddrPort (sa_addr given) (sa_port given) else noAddrPort in
  let destination := if valid_ip (sa_addr given) then noSocksaddr else if IsDomain given then given else noSocksaddr in
  publicKeyBytes ← base64_DecodeString (po_publicKey rawPeer);
  preSharedKeyHex ←
    (if bool_decide (po_preSharedKey rawPeer = []) then Some []
     else b ← base64_DecodeString (po_preSharedKey rawPeer); Some (hex_EncodeToString b));
  if bool_decide (po_allowedIPs rawPeer = []) then None
  else
    reserved ←
      (if bool_decide (po_reserved rawPeer = []) then Some [0; 0; 0]
       else if negb (length (po_reserved rawPeer) =? 3)%nat then None
       else Some (po_reserved rawPeer));
    Some (mkPeerConfig destination endpoint (hex_EncodeToString publicKeyBytes) preSharedKeyHex (po_allowedIPs rawPeer)
            (po_keepalive rawPeer) reserved).

Context (awgIpcLines : AmneziaWGOptions -> G (list Z)).

(** Whether the set of allowed addresses (go4.org/netipx) and the TUN device can be
    made for the options and the MTU. *)
Context (device_ok : EndpointOptions -> Z -> bool).

Definition NewEndpoint (options : EndpointOptions) : G Endpoint :=
  if bool_decide (eo_privateKey options = []) then err
  else
    let! privateKeyBytes := try (base64_DecodeString (eo_privateKey options)) in
    let ipcConf := str "private_key=" ++ hex_EncodeToString privateKeyBytes in
    let ipcConf :=
      if eo_listenPort options =? 0 then ipcConf else ipcConf ++ [10] ++ str "listen_port=" ++ FormatUint (eo_listenPort options) in
    let! awgLines := awgIpcLines (eo_amneziaWG options) in
    let ipcConf := ipcConf ++ awgLines in
    let! peers := try (mapM new_peer (eo_peers options)) in
    let awgJunk := S4 (eo_amneziaWG options) in
    let mtu := if eo_mtu options =? 0 then (if awgJunk >? 0 then 1280 else 1408) else eo_mtu options in
    if negb (device_ok options mtu) then err else ok (mkEndpoint peers ipcConf mtu (eo_listenPort options)).

End NewEndpoint.

(** ** [Start] *)

Definition GenerateIpcLines (c : peerConfig) : list Z :=
  line "public_key" (pc_publicKeyHex c) ++
  (if AddrPort_IsValid (pc_endpoint c) then line "endpoint" (AddrPort_String (pc_endpoint c)) else []) ++
  (if bool_decide (pc_preSharedKeyHex c = []) then [] else line "preshared_key" (pc_preSharedKeyHex c)) ++
  flat_map (fun allowedIP => line "allowed_ip" (GoNetip.prefix_String allowedIP)) (pc_allowedIPs c) ++
  (if pc_keepalive c >? 0 then line "persistent_keepalive_interval" (FormatUint (pc_keepalive c)) else []).

Definition start_text (e : Endpoint) : list Z := en_ipcConf e ++ flat_map GenerateIpcLines (en_peers e).

(** The bind: that of the device with sockets of its own, which may serve a single
    peer, or one on top of a dialer, which may have one fixed address. *)
Inductive bindChoice :=
| StdNetBind (singlePeer : bool)
| ClientBind (isConnect : bool) (connectAddr : AddrPort) (reserved : list Z).

Definition choose_bind (isUDPListener : bool) (e : Endpoint) : bindChoice :=
  if isUDPListener then
    StdNetBind ((en_listenPort e =? 0) && match en_peers e with [peer] => AddrPort_IsValid (pc_endpoint peer) | _ => false end)
  else
    match en_peers e with
    | [peer] =>
        if AddrPort_IsValid (pc_endpoint peer) then ClientBind true (pc_endpoint peer) (pc_reserved peer)
        else ClientBind false noAddrPort (pc_reserved peer)
    | _ => ClientBind false noAddrPort [0; 0; 0]
    end.

(** The calls of [SetReservedForEndpoint]. *)
Definition reserved_calls (isUDPListener : bool) (e : Endpoint) : list (AddrPort * list Z) :=
  if isUDPListener || (1 <? length (en_peers e))%nat then
    omap (fun peer =>
      if AddrPort_IsValid (pc_endpoint peer) && negb (bool_decide (pc_reserved peer = [0; 0; 0])) then Some (pc_endpoint peer, pc_reserved peer)
      else None) (en_peers e)
  else [].

Section Start.

Context (IsDomain : Socksaddr -> bool).

(** [domainPeers]: the peers with a name by their key; [None] is an error. *)
Fixpoint domain_peers (peers : list peerConfig) (m : gmap (list Z) peerConfig) : option (gmap (list Z) peerConfig) :=
  match peers with
  | [] => Some m
  | peer :: peers' =>
      if negb (IsDomain (pc_destination peer)) then domain_peers peers' m
      else
        publicKey ← Uapi.NoisePublicKey_FromHex (pc_publicKeyHex peer);
        domain_peers peers' (<[publicKey := peer]> m)
  end.

(** The endpoints of the addresses of a name, with the calls of
    [SetReservedForEndpoint] on the way; [None] is an error. *)
Fixpoint parse_resolved (ParseEndpoint : list Z -> option Runtime.Endpoint) (peer : peerConfig) (addresses : list AllowedIPs.addr)
    : option (list Runtime.Endpoint) * list (AddrPort * list Z) :=
  match addresses with
  | [] => (Some [], [])
  | address :: addresses' =>
      let destination := mkAddrPort address (sa_port (pc_destination peer)) in
      let calls := if bool_decide (pc_reserved peer = [0; 0; 0]) then [] else [(destination, pc_reserved peer)] in
      match ParseEndpoint (AddrPort_String destination) with
      | None => (None, calls)
      | Some endpoint =>
          let '(rest, calls') := parse_resolved ParseEndpoint peer addresses' in
          (rest ← rest; Some (endpoint :: rest), calls ++ calls')
      end
  end.

(** The resolver [Start] installs; other peers have no endpoints, which is no error. *)
Definition resolve_endpoints (ParseEndpoint : list Z -> option Runtime.Endpoint) (ResolvePeer : list Z -> option (list AllowedIPs.addr))
    (domainPeers : gmap (list Z) peerConfig) (publicKey : list Z) : option (list Runtime.Endpoint) * list (AddrPort * list Z) :=
  match domainPeers !! publicKey with
  | None => (Some [], [])
  | Some peer =>
      match ResolvePeer (sa_fqdn (pc_destination peer)) with
      | None => (None, [])
      | Some addresses => parse_resolved ParseEndpoint peer addresses
      end
  end.

(** What [Start] sets up: the bind with the reserved bytes of addresses, the peers of
    the resolver, and the device. *)
Record running := mkRunning {
  ru_bind : bindChoice;
  ru_reserved : list (AddrPort * list Z);
  ru_domainPeers : gmap (list Z) peerConfig;
  ru_device : Engine.Engine
}.

Inductive started := NotYet | Rejected | Running (r : running).

(** [Start]: endpoints with a name start late, when names can be resolved.
    [isUDPListener]: the dialer opens sockets of the system. *)
Definition Start (C : Engine.Primitives) (W : Engine.Oracles) (priorityMsgFn : option (list Z -> list Z)) (now : Z)
    (isUDPListener tun_ok postStart : bool) (e : Endpoint) : option started :=
  let hasDomainPeer := existsb (fun peer => IsDomain (pc_destination peer)) (en_peers e) in
  if negb (Bool.eqb postStart hasDomainPeer) then Some NotYet
  else if negb tun_ok then Some Rejected
  else
    match domain_peers (en_peers e) ∅ with
    | None => Some Rejected
    | Some domainPeers =>
        '(r, d) ← Uapi.IpcSet C W priorityMsgFn (start_text e) (Engine.NewDevice (en_mtu e) now);
        match r with
        | Some _ => Some Rejected
        | None => Some (Running (mkRunning (choose_bind isUDPListener e) (reserved_calls isUDPListener e) domainPeers d))
        end
    end.

End Start.

(** ** After [Start] *)

(** [allowedIPs] is that of the device, from [Start] on. *)
Definition Lookup (allowedIPs : option Engine.routes) (address : AllowedIPs.addr) : option (option Noise.pid) :=
  match allowedIPs with
  | None => Some None
  | Some table => AllowedIPs.lookup_addr table address
  end.

(** [device] is [None] before [Start] and after [Close]. *)
Definition BindUpdate (W : Engine.Oracles) (device : option Engine.Engine) : option (bool * option Engine.Engine) :=
  match device with
  | None => Some (false, None)
  | Some d => '(err, d) ← Engine.BindUpdate W d; Some (err, Some d)
  end.

Inductive pauseEvent := EventNetworkPause | EventNetworkWake | EventOther.

Definition onPauseUpdated (C : Engine.Primitives) (W : Engine.Oracles) (priorityMsgFn : option (list Z -> list Z)) (event : pauseEvent) (d : Engine.Engine) : option Engine.Engine :=
  match event with
  | EventNetworkPause => '(_, d) ← Engine.Down C W priorityMsgFn d; Some d
  | EventNetworkWake => '(_, d) ← Engine.Up C W priorityMsgFn d; Some d
  | EventOther => Some d
  end.

(** [Close]: whether closing the TUN device, which is closed with the device when
    there is one, fails. *)
Definition Close (C : Engine.Primitives) (W : Engine.Oracles) (priorityMsgFn : option (list Z -> list Z)) (tun_err : bool) (device : option Engine.Engine)
    : option (bool * option Engine.Engine) :=
  match device with
  | Some d =>
      '(_, d) ← Engine.Down C W priorityMsgFn d;
      '(_, _) ← Engine.Close C W priorityMsgFn d;
      Some (false, None)
  | None => Some (tun_err, None)
  end.

End WgEndpoint.
