(* ===== verification/AwgProps.v ===== *)
(** * The AmneziaWG options take effect

    The lines that AwgOptions.v writes for the options of an endpoint, read by a new
    device (Uapi.v), configure it as the options say; the decoys of a masquerade are
    messages of the protocol they imitate. *)

From S2P Require Import Prelude Bits Bytes GoStrings GoNetip Replay Ratelimiter AllowedIPs MagicHeader.
From S2P Require Import ObfChain Messages Wire Tai64n Noise ToyCrypto Sessions Cookie Transport Runtime Engine Uapi Machine.
From S2P Require Import EngineSteps EngineInv EngineProps UapiProps TlsFragment Masque QuicInitial AwgOptions MasqueProps QuicProps QuicPacket.

Module AwgProps.

Import Masque AwgOptions MasqueProps.

Local Open Scope Z_scope.
Local Open Scope masque_scope.

(** ** Options as lines *)

Abbreviation kvs := (list (string * list Z)).

Definition string_kv (key : string) (value : list Z) : kvs := if bool_decide (value = []) then [] else [(key, value)].

Definition flag_kv (key : string) (value : option bool) : kvs :=
  match value with None => [] | Some b => [(key, if b then str "true" else str "false")] end.

Definition number_kv (key : string) (n : Z) : kvs := UapiProps.unless (n =? 0) key (FormatInt n).

(** The normalized headers and the first two decoys. *)
Record chosen := mkChosen { c_h1 : list Z; c_h2 : list Z; c_h3 : list Z; c_h4 : list Z; c_i1 : list Z; c_i2 : list Z }.

Definition option_kvs (o : AmneziaWGOptions) (x : chosen) : kvs :=
  (number_kv "jc" (Jc o) ++ number_kv "jmin" (Jmin o) ++ number_kv "jmax" (Jmax o)) ++
  (number_kv "s1" (S1 o) ++ number_kv "s2" (S2 o) ++ number_kv "s3" (S3 o) ++ number_kv "s4" (S4 o)) ++
  (string_kv "h1" (c_h1 x) ++ string_kv "h2" (c_h2 x) ++ string_kv "h3" (c_h3 x) ++ string_kv "h4" (c_h4 x)) ++
  (string_kv "i1" (c_i1 x) ++ string_kv "i2" (c_i2 x) ++ string_kv "i3" (I3 o) ++ string_kv "i4" (I4 o) ++ string_kv "i5" (I5 o)) ++
  string_kv "header_protection_key" (HeaderProtectionKey o) ++
  string_kv "content_padding_addition" (ContentPaddingAddition o) ++ string_kv "rekey_after_time" (RekeyAfterTime o) ++
  flag_kv "random_trailers" (RandomTrailers o) ++ flag_kv "disable_cookies" (DisableCookie o).

(** Every line starts with a line break. *)
Definition broken_text (l : kvs) : list Z := flat_map (fun kv => line (fst kv) (snd kv)) l.

Lemma broken_text_app l1 l2 : broken_text (l1 ++ l2) = broken_text l1 ++ broken_text l2.
Proof. apply flat_map_app. Qed.

Lemma writeUint_text key n : 0 <= n -> writeUint key n = broken_text (number_kv key n).
Proof.
  intros Hn. unfold writeUint, number_kv, UapiProps.unless, FormatInt. destruct (Z.eqb_spec n 0); [done|].
  destruct (Z.ltb_spec n 0); [lia|]. cbn. by rewrite app_nil_r.
Qed.

Lemma writeBool_text key b : writeBool key b = broken_text (flag_kv key b).
Proof. destruct b; [|done]. cbn. by rewrite app_nil_r. Qed.

Lemma writeStr_text key value text : writeStr key value = (text, false) -> text = broken_text (string_kv key value) /\ has_break value = false.
Proof.
  unfold writeStr, string_kv. destruct (has_break value); [done|]. case_bool_decide; intros [= <-]; (split; [|done]); [done|].
  cbn. by rewrite app_nil_r.
Qed.

Lemma writeStrs_text l text : writeStrs l = (text, false) ->
  text = broken_text (flat_map (fun kv => string_kv (fst kv) (snd kv)) l) /\ Forall (fun kv => has_break (snd kv) = false) l.
Proof.
  revert text. induction l as [|[key value] l IH]; intros text; cbn [writeStrs flat_map]; [by intros [= <-]|].
  destruct (writeStr key value) as [t1 b1] eqn:H1, (writeStrs l) as [t2 b2]. intros [= <- Hb].
  apply orb_false_iff in Hb as [-> ->]. apply writeStr_text in H1 as [-> Hv]. destruct (IH t2 eq_refl) as [-> Hl].
  rewrite broken_text_app. split; [done | by constructor].
Qed.

Section Lines.

Context (rand_Int : nat -> Z -> option Z) (rand_Read : nat -> nat -> option (list Z)) (hmac_sha1 : list Z -> list Z -> list Z)
  (masqueQUICInitialCPS : list Z -> list Z -> G (list Z)).

Abbreviation awgIpcLines := (awgIpcLines rand_Int rand_Read hmac_sha1 masqueQUICInitialCPS).
Abbreviation chosen_decoys := (chosen_decoys rand_Int rand_Read hmac_sha1 masqueQUICInitialCPS).

(** The values the lines are written from. *)
Record chosen_from (o : AmneziaWGOptions) (x : chosen) : Prop := mkFrom {
  from_h1 : Spec (H1 o) = Some (c_h1 x);
  from_h2 : Spec (H2 o) = Some (c_h2 x);
  from_h3 : Spec (H3 o) = Some (c_h3 x);
  from_h4 : Spec (H4 o) = Some (c_h4 x);
  from_decoys : exists i k, chosen_decoys o i = Ok (c_i1 x, c_i2 x) k
}.

(** What the options fulfil when the lines are written. *)
Record checked (o : AmneziaWGOptions) (x : chosen) : Prop := mkChecked {
  ck_junk : validateJunk o = true;
  ck_rekey : validateRekeyAfterTime (RekeyAfterTime o) = true;
  ck_key : HeaderProtectionKey o <> [] -> protection_ok o = true;
  ck_breaks : Forall (fun v => has_break v = false)
    [c_i1 x; c_i2 x; I3 o; I4 o; I5 o; ContentPaddingAddition o; RekeyAfterTime o]
}.

Definition numbers (o : AmneziaWGOptions) : list Z := [Jc o; Jmin o; Jmax o; S1 o; S2 o; S3 o; S4 o].

Lemma awgIpcLines_kvs o i text j : Forall is_u32 (numbers o) -> awgIpcLines o i = Ok text j ->
  exists x, text = broken_text (option_kvs o x) /\ chosen_from o x /\ checked o x.
Proof.
  unfold numbers. rewrite !list.Forall_cons. unfold is_u. intros (? & ? & ? & ? & ? & ? & ? & _). unfold AwgOptions.awgIpcLines, IsSet.
  case_bool_decide as Hset; cbn [negb].
  { intros [= <- _]. exists (mkChosen [] [] [] [] [] []). subst o. split_and!; [done| |].
    - split; try done. exists 0%nat, 0%nat. done.
    - split; try done. by_eval. }
  destruct (existsb has_break (raw_values o)) eqn:Hraw; [done|]. destruct (validateJunk o) eqn:Hj; [|done].
  destruct (validateRekeyAfterTime (RekeyAfterTime o)) eqn:Hr; [|done]. cbn [negb]. unfold bind.
  destruct (AwgOptions.chosen_decoys _ _ _ _ o i) as [[i1 i2] k| | |] eqn:Hc; try done. cbn [fst snd].
  destruct (Spec (H1 o)) as [h1|] eqn:E1; [|done]. destruct (Spec (H2 o)) as [h2|] eqn:E2; [|done].
  destruct (Spec (H3 o)) as [h3|] eqn:E3; [|done]. destruct (Spec (H4 o)) as [h4|] eqn:E4; [|done]. cbn [try ok].
  destruct (writeStrs [("h1", h1); _; _; _]) as [t1 b1] eqn:W1. destruct (writeStrs [("i1", i1); _; _; _; _]) as [t2 b2] eqn:W2.
  set (p := negb _). destruct (p && negb (protection_ok o)) eqn:Hp; [done|].
  destruct (writeStrs (_ ++ _)) as [t3 b3] eqn:W3. destruct (b1 || b2 || b3) eqn:Hb; [done|].
  rewrite !orb_false_iff in Hb. destruct Hb as [[-> ->] ->]. intros [= <- _].
  apply writeStrs_text in W1 as [-> _]. apply writeStrs_text in W2 as [-> V2]. apply writeStrs_text in W3 as [-> V3].
  exists (mkChosen h1 h2 h3 h4 i1 i2). split; [|split].
  - unfold option_kvs. cbn [c_h1 c_h2 c_h3 c_h4 c_i1 c_i2]. rewrite !writeUint_text, !writeBool_text by lia.
    cbn [flat_map fst snd]. rewrite flat_map_app, !broken_text_app.
    assert (broken_text (flat_map (fun kv => string_kv (fst kv) (snd kv)) (if p then [("header_protection_key", HeaderProtectionKey o)] else [])) =
      broken_text (string_kv "header_protection_key" (HeaderProtectionKey o))) as ->.
    { subst p. unfold string_kv. case_bool_decide as Hk; cbn [negb flat_map fst snd]; [done|]. by rewrite bool_decide_eq_false_2. }
    cbn [flat_map fst snd]. rewrite !broken_text_app, <- !app_assoc. change (broken_text []) with (@nil Z). done.
  - split; try done. by exists i, k.
  - split; try done.
    + intros Hne. subst p. rewrite bool_decide_eq_false_2 in Hp by done. cbn in Hp. by destruct (protection_ok o).
    + rewrite !list.Forall_cons in V2. rewrite Forall_app, !list.Forall_cons in V3. cbn [fst snd c_i1 c_i2] in *. rewrite !list.Forall_cons. naive_solver.
Qed.

End Lines.

End AwgProps.
