(* ===== verification/EndpointProps.v ===== *)
(** * An endpoint configures its device

    The text that [NewEndpoint] and [Start] (WgEndpoint.v) write for the options of
    an endpoint, read by a new device (Uapi.v), installs what the options say or is
    rejected. *)

From S2P Require Import Prelude Bits Bytes GoStrings GoNetip Replay Ratelimiter AllowedIPs MagicHeader.
From S2P Require Import ObfChain Messages Wire Tai64n Noise ToyCrypto Sessions Cookie Transport Runtime Engine Uapi Machine.
From S2P Require Import EngineSteps EngineInv EngineProps UapiProps Masque QuicInitial AwgOptions WgEndpoint AwgProps.

Module EndpointProps.

Import Noise Runtime Engine Uapi UapiProps AwgOptions AwgProps.

Local Open Scope Z_scope.
Local Open Scope engine_scope.

Abbreviation kvs := (list (string * list Z)).

(** ** Reading the lines *)

Lemma not_break v b : has_break v = false -> b = 10 \/ b = 13 -> b ∉ v.
Proof.
  unfold has_break. intros Hv Hb Hin. assert (existsb (fun b => (b =? 13) || (b =? 10)) v = true) as E; [|congruence].
  apply existsb_exists. exists b. split; [by apply list_elem_of_In | lia].
Qed.

Lemma has_break_app s t : has_break (s ++ t) = has_break s || has_break t.
Proof. apply existsb_app. Qed.

Lemma graphic_no_break v : forallb graphic v = true -> has_break v = false.
Proof.
  unfold has_break. rewrite forallb_forall, <- not_true_iff_false, existsb_exists. intros Hv (b & Hb%Hv & H).
  unfold graphic in Hb. lia.
Qed.

(** A line without breaks that is not too long. *)
Definition plain (kv : string * list Z) : Prop := has_break (line_of kv) = false /\ (length (line_of kv) < MaxScanTokenSize)%nat.

Lemma plain_shown kv : plain kv -> shown kv.
Proof.
  intros [Hb Hl]. split; [split; [|done]|].
  - apply not_break; [done | by left].
  - intros (l & E)%last_Some. apply (not_break _ 13 Hb); [by right|]. rewrite E. set_solver.
Qed.

Lemma Scan_broken kv l : Forall plain (kv :: l) -> Scan (line_of kv ++ broken_text l) = (map line_of (kv :: l), false).
Proof.
  unfold Scan. revert kv. induction l as [|kv' l IH]; intros kv; rewrite list.Forall_cons; intros [[[Hn Hl] Hc]%plain_shown Hls].
  - cbn [broken_text flat_map map]. rewrite app_nil_r. unfold newline. rewrite Split_none by done. cbn [scan_lines].
    rewrite bool_decide_eq_false_2 by (unfold line_of; intros E%(f_equal length); rewrite length_app in E; cbn in E; lia).
    destruct (Nat.leb_spec MaxScanTokenSize (length (line_of kv))); [lia|]. by rewrite dropCR_id.
  - cbn [broken_text flat_map]. assert (line (fst kv') (snd kv') ++ flat_map (fun kv => line (fst kv) (snd kv)) l = newline :: line_of kv' ++ broken_text l) as ->.
    { unfold line, line_of. by rewrite <- !app_assoc. }
    rewrite Split_app by done. specialize (IH kv' Hls). destruct (Split (line_of kv' ++ broken_text l) newline) as [|s ss] eqn:Es.
    { by apply Split_not_nil in Es. }
    change (scan_lines (line_of kv :: s :: ss)) with
      (if (MaxScanTokenSize <=? length (line_of kv))%nat then ([], true)
       else let '(ls, long) := scan_lines (s :: ss) in (dropCR (line_of kv) :: ls, long)).
    destruct (Nat.leb_spec MaxScanTokenSize (length (line_of kv))); [lia|]. by rewrite IH, dropCR_id.
Qed.

(** *** Lines without breaks *)

Definition unbroken (kv : string * list Z) : Prop := forallb graphic (str (fst kv)) = true /\ has_break (snd kv) = false.

Lemma unbroken_plain l (text : list Z) : Forall unbroken l -> (length (broken_text l) <= S (length text))%nat -> (length text < MaxScanTokenSize)%nat -> Forall plain l.
Proof.
  intros Hu. revert text. induction Hu as [|[key value] l [Hk Hv] Hu IH]; intros text Hl Ht; [constructor|]. cbn [broken_text flat_map fst snd] in *.
  rewrite length_app in Hl. constructor; [split|].
  - unfold line_of. cbn [fst snd]. rewrite has_break_app, (graphic_no_break _ Hk). cbn. exact Hv.
  - unfold line, line_of in *. rewrite !length_app in Hl. rewrite length_app. cbn [fst snd length] in *. lia.
  - apply (IH text); [unfold broken_text; lia | done].
Qed.

Lemma unbroken_number key n : forallb graphic (str key) = true -> 0 <= n -> Forall unbroken (number_kv key n).
Proof.
  intros Hk Hn. unfold number_kv. destruct (n =? 0); [constructor|]. apply Forall_singleton. split; [done|].
  unfold FormatInt. destruct (Z.ltb_spec n 0); [lia|]. cbn. by apply graphic_no_break, digits_graphic, FormatUint_digit.
Qed.

Lemma unbroken_string key v : forallb graphic (str key) = true -> has_break v = false -> Forall unbroken (string_kv key v).
Proof. intros Hk Hv. unfold string_kv. case_bool_decide; [constructor|]. by apply Forall_singleton. Qed.

Lemma unbroken_flag key b : forallb graphic (str key) = true -> Forall unbroken (flag_kv key b).
Proof. intros Hk. destruct b as [[]|]; [by apply Forall_singleton.. | constructor]. Qed.

Lemma Spec_no_break h v : Spec h = Some v -> has_break v = false.
Proof.
  unfold Spec, normalizeMagicHeader. destruct (has_break h); [done|]. case_bool_decide; [by intros [= <-]|].
  destruct (Cut _ 45) as [[a b] dash]. case_match; [done|]. destruct (ParseUint (TrimSpace a) 32) as [s|] eqn:Hs; [|done]. cbn [mbind option_bind].
  destruct (if dash then _ else _) as [t|] eqn:Ht; [|done]. cbn [mbind option_bind].
  assert (0 <= s) as H1 by (apply ParseUint_range in Hs; unfold is_u in Hs; lia).
  assert (0 <= t) as H2. { destruct dash; [apply ParseUint_range in Ht; unfold is_u in Ht; lia | by injection Ht as <-]. }
  assert (forall n, 0 <= n -> has_break (FormatUint n) = false) as Hn by (intros n Hn; by apply graphic_no_break, digits_graphic, FormatUint_digit).
  repeat case_match; try (by intros [= <-]); intros [= <-]; first [by apply Hn | rewrite has_break_app, Hn by done; by apply (Hn t)].
Qed.

Lemma isHex_no_break v : isHex v = true -> has_break v = false.
Proof.
  unfold isHex. rewrite forallb_forall. intros H. apply graphic_no_break, forallb_forall. intros b Hb%H. unfold graphic. lia.
Qed.

(** ** What the options say *)

(** A value that may be left out. *)
Definition field {A} (value : list Z) (parse : list Z -> option A) : option (option A) :=
  if bool_decide (value = []) then Some None else a ← parse value; Some (Some a).

(** The configuration of the device, [None] when a value cannot be read or the
    framing of packets is not valid. *)
Definition intended (o : AmneziaWGOptions) (x : chosen) (mtu : Z) : option Config :=
  h1 ← field (c_h1 x) MagicHeader.newMagicHeader;
  h2 ← field (c_h2 x) MagicHeader.newMagicHeader;
  h3 ← field (c_h3 x) MagicHeader.newMagicHeader;
  h4 ← field (c_h4 x) MagicHeader.newMagicHeader;
  i1 ← field (c_i1 x) ObfChain.newObfChain;
  i2 ← field (c_i2 x) ObfChain.newObfChain;
  i3 ← field (I3 o) ObfChain.newObfChain;
  i4 ← field (I4 o) ObfChain.newObfChain;
  i5 ← field (I5 o) ObfChain.newObfChain;
  key ← field (HeaderProtectionKey o) HeaderCipherKey_FromHex;
  addition ← field (ContentPaddingAddition o) MagicHeader.FromString;
  rekey ← field (RekeyAfterTime o) MagicHeader.FromString;
  let default_header h t := Some (default (MagicHeader.mkHeader t t) h) in
  let w := Wire.mkWire (default_header h1 1) (default_header h2 2) (default_header h3 3) (default_header h4 4)
             (S1 o) (S2 o) (S3 o) (S4 o) key (default false (RandomTrailers o)) in
  if valid_prefixes (of_wire w key) && valid_headers (headers_of (of_wire w key)) then
    Some (mkConfig w (mkJunk (Jc o) (Jmin o) (Jmax o)) [i1; i2; i3; i4; i5] (default 0 addition) (default 0 rekey)
            (default false (DisableCookie o)) mtu)
  else None.

Section Device.

Context (C : Primitives) (W : Oracles) (priorityMsgFn : option (bytes -> bytes)).

Abbreviation set_lines := (set_lines C W priorityMsgFn).
Abbreviation handleDeviceLine := (handleDeviceLine C W priorityMsgFn).

(** ** Device lines one by one *)

Abbreviation step := (ipcSetDevice * Config -> option (ipcSetDevice * Config)).

Definition seq (f1 f2 : step) : step := fun s => s' ← f1 s; f2 s'.

Local Infix ">>>" := seq (at level 60, right associativity).

(** Reading the lines is the step, which may fail. *)
Definition applies (l : kvs) (f : step) : Prop :=
  forall d e rest failed peer,
    match f (d, config e) with
    | Some (d', c') => set_lines (map line_of l ++ rest) failed d peer true e = set_lines rest failed d' peer true (set_config e c')
    | None => exists err e', set_lines (map line_of l ++ rest) failed d peer true e = Some (Some err, e')
    end.

Lemma set_config_id e : set_config e (config e) = e.
Proof. by destruct e. Qed.

Lemma applies_nil : applies [] Some.
Proof. intros d e rest failed peer. cbn. by rewrite set_config_id. Qed.

Lemma applies_app l1 l2 f1 f2 : applies l1 f1 -> applies l2 f2 -> applies (l1 ++ l2) (f1 >>> f2).
Proof.
  intros A1 A2 d e rest failed peer. unfold seq. rewrite map_app, <- app_assoc. specialize (A1 d e (map line_of l2 ++ rest) failed peer).
  destruct (f1 (d, config e)) as [[d1 c1]|]; cbn [mbind option_bind]; [|done]. rewrite A1.
  specialize (A2 d1 (set_config e c1) rest failed peer). done.
Qed.

Lemma line_cut key value : device_key key = true -> Cut (line_of (key, value)) equals = (str key, value, true).
Proof.
  unfold device_key. rewrite !andb_true_iff, !negb_true_iff. intros [[_ He%bool_decide_eq_false_1] _]. unfold line_of. by rewrite Cut_app.
Qed.

Lemma line_not_nil kv : line_of kv <> [].
Proof. unfold line_of. intros E%(f_equal length). rewrite length_app in E. cbn in E. lia. Qed.

Lemma applies_line key value f :
  device_key key = true ->
  (forall d e, handleDeviceLine d (str key) value e =
     match f (d, config e) with Some (d', c') => Some (inr d', set_config e c') | None => Some (inl IpcErrorInvalid, e) end) ->
  applies [(key, value)] f.
Proof.
  intros Hk Hf d e rest failed peer. assert (bool_decide (str key = str "public_key") = false) as Hp.
  { unfold device_key in Hk. rewrite !andb_true_iff, !negb_true_iff in Hk. tauto. }
  cbn [map app Uapi.set_lines]. rewrite bool_decide_eq_false_2 by apply line_not_nil. rewrite line_cut by done. cbn [negb]. rewrite Hp.
  unfold bind. rewrite Hf. destruct (f (d, config e)) as [[d' c']|]; red_bind; [done|]. by eexists _, _.
Qed.

(** *** Kinds of lines *)

Definition string_step {A} (value : list Z) (parse : list Z -> option A) (f : A -> ipcSetDevice * Config -> ipcSetDevice * Config) : step :=
  fun s => a ← field value parse; Some (match a with None => s | Some a => f a s end).

Definition number_step (n : Z) (f : Z -> ipcSetDevice * Config -> ipcSetDevice * Config) : step := fun s => Some (if n =? 0 then s else f n s).

Definition flag_step (b : option bool) (f : bool -> ipcSetDevice * Config -> ipcSetDevice * Config) : step :=
  fun s => Some (match b with None => s | Some b => f b s end).

Lemma applies_string {A} key value (parse : list Z -> option A) f :
  device_key key = true ->
  (forall d e, handleDeviceLine d (str key) value e =
     match parse value with
     | Some a => let s := f a (d, config e) in Some (inr (fst s), set_config e (snd s))
     | None => Some (inl IpcErrorInvalid, e)
     end) ->
  applies (string_kv key value) (string_step value parse f).
Proof.
  intros Hk Hf. unfold string_kv. case_bool_decide as Hv.
  - intros d e rest failed peer. unfold string_step, field. rewrite bool_decide_eq_true_2 by done. cbn. by rewrite set_config_id.
  - apply applies_line; [done|]. intros d e. rewrite Hf. unfold string_step, field. rewrite bool_decide_eq_false_2 by done.
    destruct (parse value); cbn; [|done]. by destruct (f a (d, config e)).
Qed.

Lemma applies_number key n f :
  device_key key = true ->
  (forall d e, n <> 0 -> handleDeviceLine d (str key) (FormatInt n) e =
     let s := f n (d, config e) in Some (inr (fst s), set_config e (snd s))) ->
  applies (number_kv key n) (number_step n f).
Proof.
  intros Hk Hf. unfold number_kv, number_step. destruct (Z.eqb_spec n 0) as [|Hn]; [apply applies_nil|].
  apply applies_line; [done|]. intros d e. rewrite Hf by done. cbn. by destruct (f n (d, config e)).
Qed.

Lemma applies_flag key b f :
  device_key key = true ->
  (forall d e b, handleDeviceLine d (str key) (if b : bool then str "true" else str "false") e =
     let s := f b (d, config e) in Some (inr (fst s), set_config e (snd s))) ->
  applies (flag_kv key b) (flag_step b f).
Proof.
  intros Hk Hf. unfold flag_kv, flag_step. destruct b as [b|]; [|apply applies_nil].
  apply applies_line; [done|]. intros d e. rewrite Hf. cbn. by destruct (f b (d, config e)).
Qed.

(** *** The lines of the options *)

Abbreviation state := (ipcSetDevice * Config)%type.

Definition junk_set (f : Junk -> Z -> Junk) (n : Z) (s : state) : state := (fst s, c_junk (snd s) (f (junk (snd s)) n)).
Definition device_set {A} (f : ipcSetDevice -> A -> ipcSetDevice) (a : A) (s : state) : state := (f (fst s) a, snd s).
Definition config_set {A} (f : Config -> A -> Config) (a : A) (s : state) : state := (fst s, f (snd s) a).
Definition chain_set (i : nat) : ObfChain.obfChain -> state -> state :=
  config_set (fun c chain => c_ipackets c (<[i := Some chain]> (ipackets c))).

Definition junk_steps (o : AmneziaWGOptions) : step :=
  number_step (Jc o) (junk_set (fun j n => mkJunk n (j_min j) (j_max j))) >>>
  number_step (Jmin o) (junk_set (fun j n => mkJunk (j_count j) n (j_max j))) >>>
  number_step (Jmax o) (junk_set (fun j n => mkJunk (j_count j) (j_min j) n)).

Definition padding_steps (o : AmneziaWGOptions) : step :=
  number_step (S1 o) (device_set (fun d n => set_paddings d n (sd_p_response d) (sd_p_cookie d) (sd_p_transport d))) >>>
  number_step (S2 o) (device_set (fun d n => set_paddings d (sd_p_init d) n (sd_p_cookie d) (sd_p_transport d))) >>>
  number_step (S3 o) (device_set (fun d n => set_paddings d (sd_p_init d) (sd_p_response d) n (sd_p_transport d))) >>>
  number_step (S4 o) (device_set (fun d n => set_paddings d (sd_p_init d) (sd_p_response d) (sd_p_cookie d) n)).

Definition header_step (value : list Z) (f : ipcSetDevice -> option MagicHeader.magicHeader -> ipcSetDevice) : step :=
  string_step value MagicHeader.newMagicHeader (device_set (fun d h => f d (Some h))).

Definition header_steps (x : chosen) : step :=
  header_step (c_h1 x) (fun d h => set_headers d h (sd_h_response d) (sd_h_cookie d) (sd_h_transport d)) >>>
  header_step (c_h2 x) (fun d h => set_headers d (sd_h_init d) h (sd_h_cookie d) (sd_h_transport d)) >>>
  header_step (c_h3 x) (fun d h => set_headers d (sd_h_init d) (sd_h_response d) h (sd_h_transport d)) >>>
  header_step (c_h4 x) (fun d h => set_headers d (sd_h_init d) (sd_h_response d) (sd_h_cookie d) h).

Definition decoy_steps (o : AmneziaWGOptions) (x : chosen) : step :=
  string_step (c_i1 x) ObfChain.newObfChain (chain_set 0) >>>
  string_step (c_i2 x) ObfChain.newObfChain (chain_set 1) >>>
  string_step (I3 o) ObfChain.newObfChain (chain_set 2) >>>
  string_step (I4 o) ObfChain.newObfChain (chain_set 3) >>>
  string_step (I5 o) ObfChain.newObfChain (chain_set 4).

Definition option_steps (o : AmneziaWGOptions) (x : chosen) : step :=
  junk_steps o >>> padding_steps o >>> header_steps x >>> decoy_steps o x >>>
  string_step (HeaderProtectionKey o) HeaderCipherKey_FromHex (device_set (fun d k => set_key d (Some k))) >>>
  string_step (ContentPaddingAddition o) MagicHeader.FromString (config_set c_addition) >>>
  string_step (RekeyAfterTime o) MagicHeader.FromString (config_set c_rekey) >>>
  flag_step (RandomTrailers o) (config_set (fun c b => c_wire c (w_trailers (wire c) b))) >>>
  flag_step (DisableCookie o) (config_set c_cookies).

Lemma applies_junk key n f :
  device_key key = true -> (forall d v e, handleDeviceLine d (str key) v e = junk_line v d f e) -> is_u32 n ->
  applies (number_kv key n) (number_step n (junk_set f)).
Proof.
  intros Hk Hl Hn. apply applies_number; [done|]. intros d e H0. unfold is_u in Hn. rewrite Hl. unfold junk_line, parsed, FormatInt.
  destruct (Z.ltb_spec n 0); [lia|]. rewrite Atoi_Format by lia. by destruct (Z.leb_spec n 0); [lia|].
Qed.

Lemma applies_padding key n f :
  device_key key = true -> (forall d v e, handleDeviceLine d (str key) v e = padding_line v (f d) e) -> is_u32 n ->
  applies (number_kv key n) (number_step n (device_set f)).
Proof.
  intros Hk Hl Hn. apply applies_number; [done|]. intros d e H0. unfold is_u in Hn. rewrite Hl. unfold padding_line, parsed, FormatInt.
  destruct (Z.ltb_spec n 0); [lia|]. rewrite Atoi_Format by lia. destruct (Z.ltb_spec n 0); [lia|]. cbn. by rewrite set_config_id.
Qed.

Lemma applies_header key v f :
  device_key key = true -> (forall d v e, handleDeviceLine d (str key) v e = header_line v (f d) e) ->
  applies (string_kv key v) (header_step v f).
Proof.
  intros Hk Hl. apply applies_string; [done|]. intros d e. rewrite Hl. unfold header_line, parsed.
  destruct (MagicHeader.newMagicHeader v); [|done]. cbn. by rewrite set_config_id.
Qed.

Lemma applies_chain key v i :
  device_key key = true -> (forall d v e, handleDeviceLine d (str key) v e = chain_line v d i e) ->
  applies (string_kv key v) (string_step v ObfChain.newObfChain (chain_set i)).
Proof.
  intros Hk Hl. apply applies_string; [done|]. intros d e. rewrite Hl. unfold chain_line, parsed. by destruct (ObfChain.newObfChain v).
Qed.

Lemma applies_options o x : Forall is_u32 (numbers o) -> applies (option_kvs o x) (option_steps o x).
Proof.
  unfold numbers. rewrite !list.Forall_cons. intros (? & ? & ? & ? & ? & ? & ? & _). unfold option_kvs, option_steps.
  repeat apply applies_app.
  all: first [by apply applies_junk | by apply applies_padding | by apply applies_header | by apply applies_chain | idtac].
  - apply applies_string; [done|]. intros d e.
    change (handleDeviceLine d (str "header_protection_key") ?v e) with (parsed (HeaderCipherKey_FromHex v) (fun k => done (set_key d (Some k))) e).
    unfold parsed. destruct (HeaderCipherKey_FromHex _); [|done]. cbn. by rewrite set_config_id.
  - apply applies_string; [done|]. intros d e.
    change (handleDeviceLine d (str "content_padding_addition") ?v e) with
      (parsed (MagicHeader.FromString v) (fun r => let* _ := with_config (fun c => c_addition c r) in done d) e).
    unfold parsed. by destruct (MagicHeader.FromString _).
  - apply applies_string; [done|]. intros d e.
    change (handleDeviceLine d (str "rekey_after_time") ?v e) with
      (parsed (MagicHeader.FromString v) (fun r => let* _ := with_config (fun c => c_rekey c r) in done d) e).
    unfold parsed. by destruct (MagicHeader.FromString _).
  - apply applies_flag; [done|]. by intros d e [].
  - apply applies_flag; [done|]. by intros d e [].
Qed.

(** *** The state after the lines *)

Ltac next_field h :=
  match goal with
  | |- context [mbind _ (field ?v ?p)] => destruct (field v p) as [h|]; [cbn [mbind option_bind] | done]
  end.

Lemma junk_result o d c : junk c = mkJunk 0 0 0 -> junk_steps o (d, c) = Some (d, c_junk c (mkJunk (Jc o) (Jmin o) (Jmax o))).
Proof.
  destruct c. cbn. intros ->. unfold junk_steps, seq, number_step. cbn [mbind option_bind].
  by destruct (Z.eqb_spec (Jc o) 0) as [->|], (Z.eqb_spec (Jmin o) 0) as [->|], (Z.eqb_spec (Jmax o) 0) as [->|].
Qed.

Lemma padding_result o c : padding_steps o (blank, c) = Some (set_paddings blank (S1 o) (S2 o) (S3 o) (S4 o), c).
Proof.
  unfold padding_steps, seq, number_step. cbn [mbind option_bind].
  by destruct (Z.eqb_spec (S1 o) 0) as [->|], (Z.eqb_spec (S2 o) 0) as [->|], (Z.eqb_spec (S3 o) 0) as [->|], (Z.eqb_spec (S4 o) 0) as [->|].
Qed.

Lemma header_result x d c : set_headers d None None None None = d ->
  header_steps x (d, c) =
    (h1 ← field (c_h1 x) MagicHeader.newMagicHeader; h2 ← field (c_h2 x) MagicHeader.newMagicHeader;
     h3 ← field (c_h3 x) MagicHeader.newMagicHeader; h4 ← field (c_h4 x) MagicHeader.newMagicHeader;
     Some (set_headers d h1 h2 h3 h4, c)).
Proof.
  intros <-. unfold header_steps, header_step, seq, string_step.
  next_field h1. next_field h2. next_field h3. next_field h4. by destruct h1, h2, h3, h4.
Qed.

Lemma decoy_result o x d c : ipackets c = repeat None 5 ->
  decoy_steps o x (d, c) =
    (i1 ← field (c_i1 x) ObfChain.newObfChain; i2 ← field (c_i2 x) ObfChain.newObfChain; i3 ← field (I3 o) ObfChain.newObfChain;
     i4 ← field (I4 o) ObfChain.newObfChain; i5 ← field (I5 o) ObfChain.newObfChain;
     Some (d, c_ipackets c [i1; i2; i3; i4; i5])).
Proof.
  destruct c. cbn [ipackets]. intros ->. unfold decoy_steps, seq, string_step.
  next_field i1. next_field i2. next_field i3. next_field i4. next_field i5. by destruct i1, i2, i3, i4, i5.
Qed.

(** The lines are read, and what they set can be installed, exactly when the options
    have a meaning. *)
Lemma options_result o x m :
  match option_steps o x (blank, fresh_config m) with
  | None => intended o x m = None
  | Some (d, c) =>
      intended o x m =
        (let d' := fill_headers d (wire c) in
         if valid_prefixes d && valid_headers (headers_of d') then Some (c_wire c (install d' (wire c))) else None) /\
      wire c = w_trailers (wire (fresh_config m)) (default false (RandomTrailers o)) /\ mtu c = m
  end.
Proof.
  unfold option_steps, seq. rewrite junk_result by done. cbn [mbind option_bind]. rewrite padding_result. cbn [mbind option_bind].
  rewrite header_result by done. unfold intended. next_field h1. next_field h2. next_field h3. next_field h4.
  rewrite decoy_result by done. next_field i1. next_field i2. next_field i3. next_field i4. next_field i5.
  unfold string_step, flag_step. next_field k. next_field a. next_field r.
  destruct (RandomTrailers o), (DisableCookie o), k, a, r, h1, h2, h3, h4; done.
Qed.

(** ** Identity and port *)

(** A device that was never up, without peers and routes. *)
Record bare (m : Z) (sk pk : bytes) (n : Net) (e : Engine) : Prop := {
  bare_config : config e = fresh_config m;
  bare_private : privateKey (dev e) = sk;
  bare_public : publicKey (dev e) = pk;
  bare_keys : keyMap (dev e) = ∅;
  bare_state : dstate e = deviceStateDown;
  bare_routes : allowedips e = AllowedIPs.empty_table;
  bare_net : net e = n
}.

(** The key that is installed. *)
Definition installed (sk : bytes) : bytes := if isZero sk then sk else clamp sk.

Lemma isZero_zeros sk : isZero sk = true -> sk = zeros (length sk).
Proof.
  unfold isZero, zeros. rewrite forallb_forall. intros H.
  apply Forall_eq_repeat, Forall_forall. intros x Hx%H. lia.
Qed.

Lemma clamp_not_zero sk : length sk = 32%nat -> isZero (clamp sk) = false.
Proof.
  intros Hl. apply not_true_iff_false. unfold isZero. rewrite forallb_forall. intros H.
  set (b := Z.lor (Z.land ((<[0%nat := Z.land (sk !!! 0%nat) 248]> sk) !!! 31%nat) 127) 64).
  assert (b = 0) as Hb.
  { apply Z.eqb_eq, H, list_elem_of_In, (list_elem_of_lookup_2 _ 31). unfold clamp. apply list_lookup_insert_eq. rewrite length_insert. lia. }
  apply (f_equal (fun z => Z.testbit z 6)) in Hb. subst b. rewrite Z.lor_spec, orb_comm in Hb. done.
Qed.

Definition identity_of (sk : bytes) : bytes := if isZero sk then zeros 32 else ScalarBaseMult C (clamp sk).

(** A device line that sets [e'] and not the framing. *)
Lemma device_line key value rest failed peer d e e' :
  device_key key = true -> handleDeviceLine d (str key) value e = Some (inr d, e') ->
  set_lines (line_of (key, value) :: rest) failed d peer true e = set_lines rest failed d peer true e'.
Proof.
  intros Hk Hl. assert (bool_decide (str key = str "public_key") = false) as Hp.
  { unfold device_key in Hk. rewrite !andb_true_iff, !negb_true_iff in Hk. tauto. }
  cbn [Uapi.set_lines]. rewrite bool_decide_eq_false_2 by apply line_not_nil. rewrite line_cut by done. cbn [negb]. rewrite Hp.
  unfold bind. by rewrite Hl.
Qed.

Lemma identity_line m sk n d e :
  length sk = 32%nat -> Forall is_u8 sk -> bare m (zeros 32) (zeros 32) n e ->
  exists e', handleDeviceLine d (str "private_key") (hex_EncodeToString sk) e = Some (inr d, e') /\ bare m (installed sk) (identity_of sk) n e'.
Proof.
  intros Hl Hu He. pose proof (clamp_not_zero sk Hl) as Hc. change (handleDeviceLine d (str "private_key") ?v e) with
    (parsed (NoisePrivateKey_FromMaybeZeroHex v) (fun sk => let* _ := SetPrivateKey C W priorityMsgFn sk in done d) e).
  unfold NoisePrivateKey_FromMaybeZeroHex. rewrite loadExactHex_Encode by done. cbn [mbind option_bind parsed]. fold (installed sk).
  pose proof He as [E1 E2 E2' E3 E4 E5 E6]. unfold SetPrivateKey, bind, gets, ret. red_bind. unfold installed, identity_of.
  destruct (isZero sk) eqn:Hsk.
  { pose proof (isZero_zeros sk Hsk) as Ez. rewrite Hl in Ez. rewrite bool_decide_eq_true_2 by congruence. red_bind. exists e. split; [done|]. by rewrite Ez. }
  rewrite bool_decide_eq_false_2 by (rewrite E2; intros E; by rewrite E in Hc).
  unfold self_peers. rewrite E3, map_to_list_empty. cbn. rewrite E3, map_to_list_empty. cbn. by eexists.
Qed.

Lemma port_line m sk pk n d e :
  (forall i, o_bind W i = false) -> is_u 16 n -> bare m sk pk (mkNet 0 0 false) e ->
  exists e', handleDeviceLine d (str "listen_port") (FormatUint n) e = Some (inr d, e') /\ bare m sk pk (mkNet n 0 false) e'.
Proof.
  intros HW Hn He.
  change (handleDeviceLine d (str "listen_port") ?v e) with
    (parsed (ParseUint v 16) (fun n => let* _ := set_port n in let* err := BindUpdate W in if err : bool then throw IpcErrorPortInUse else done d) e).
  rewrite ParseUint_Format by done. destruct He as [E1 E2 E2' E3 E4 E5 E6]. unfold parsed, set_port, BindUpdate, bind, call, gets, modify, ret. red_bind.
  rewrite HW. unfold isUp. cbn. rewrite E4, E6. cbn. by eexists.
Qed.

End Device.

End EndpointProps.
