(* ===== verification/EndpointPeers.v ===== *)
(** * The peers of an endpoint

    The lines that [GenerateIpcLines] (WgEndpoint.v) writes for a peer create it on
    the device with its keys, address, keepalive interval and routes; with the lines
    of EndpointProps.v they make up what [Start] sets. *)

From S2P Require Import Prelude Bits Bytes GoStrings GoNetip Replay Ratelimiter AllowedIPs MagicHeader.
From S2P Require Import ObfChain Messages Wire Tai64n Noise ToyCrypto Sessions Cookie Transport Runtime Engine Uapi Machine.
From S2P Require Import EngineSteps EngineInv EngineProps UapiProps Masque QuicInitial AwgOptions WgEndpoint AwgProps EndpointProps.

Module EndpointPeers.

Import Noise Runtime Engine Uapi UapiProps AwgOptions WgEndpoint AwgProps EndpointProps.

Local Open Scope Z_scope.
Local Open Scope engine_scope.

Abbreviation kvs := (list (string * list Z)).

(** ** The lines *)

(** The lines after the public key. *)
Definition peer_kvs (c : peerConfig) : kvs :=
  (if AddrPort_IsValid (pc_endpoint c) then [("endpoint", AddrPort_String (pc_endpoint c))] else []) ++
  string_kv "preshared_key" (pc_preSharedKeyHex c) ++
  map (fun allowedIP => ("allowed_ip", GoNetip.prefix_String allowedIP)) (pc_allowedIPs c) ++
  (if pc_keepalive c >? 0 then [("persistent_keepalive_interval", FormatUint (pc_keepalive c))] else []).

Lemma peer_text c : GenerateIpcLines c = broken_text (("public_key", pc_publicKeyHex c) :: peer_kvs c).
Proof.
  unfold GenerateIpcLines, peer_kvs, string_kv. cbn [broken_text flat_map fst snd]. fold broken_text. f_equal. rewrite !broken_text_app. f_equal; [|f_equal; [|f_equal]].
  - destruct (AddrPort_IsValid _); [|done]. cbn. by rewrite app_nil_r.
  - case_bool_decide; [done|]. cbn. by rewrite app_nil_r.
  - induction (pc_allowedIPs c) as [|a l IH]; [done|]. cbn [map broken_text flat_map fst snd]. by rewrite IH.
  - destruct (pc_keepalive c >? 0); [|done]. cbn. by rewrite app_nil_r.
Qed.

(** *** No line is broken *)

Lemma b64_u8 s : forall b, b64_quanta s = Some b -> Forall is_u8 b.
Proof.
  assert (forall n, is_u8 (u8 n)) as Hu by apply u8_is_u8. revert s. fix IH 1. intros [|a [|b [|c [|d s]]]] r; cbn [b64_quanta]; try done.
  { intros [= <-]. constructor. }
  destruct (b64_val a) as [x|]; [|done]. cbn [mbind option_bind]. destruct (b64_val b) as [y|]; [|done]. cbn [mbind option_bind]. cbv zeta.
  destruct (c =? 61); [case_match; [intros [= <-]; repeat (apply list.Forall_cons; split; [apply Hu|]); constructor | done]|].
  destruct (b64_val c) as [z|]; [|done]. cbn [mbind option_bind].
  destruct (d =? 61); [case_match; [intros [= <-]; repeat (apply list.Forall_cons; split; [apply Hu|]); constructor | done]|].
  destruct (b64_val d) as [w|]; [|done]. cbn [mbind option_bind]. destruct (b64_quanta s) as [q|] eqn:Hq; [|done]. cbn [mbind option_bind].
  intros [= <-]. repeat (apply list.Forall_cons; split; [apply Hu|]). by apply (IH s).
Qed.

Lemma base64_u8 s b : base64_DecodeString s = Some b -> Forall is_u8 b.
Proof. apply b64_u8. Qed.

(** A hexadecimal number. *)
Definition hexed (v : list Z) : Prop := exists b, Forall is_u8 b /\ v = hex_EncodeToString b.

Lemma hexed_graphic v : hexed v -> forallb graphic v = true.
Proof. intros (b & Hb & ->). by apply hex_Encode_graphic. Qed.

Lemma new_peer_hexed IsDomain raw c : new_peer IsDomain raw = Some c -> hexed (pc_publicKeyHex c) /\ hexed (pc_preSharedKeyHex c).
Proof.
  unfold new_peer. cbv zeta. destruct (base64_DecodeString (po_publicKey raw)) as [pk|] eqn:Hpk; [|done]. cbn [mbind option_bind]. apply base64_u8 in Hpk.
  destruct (if bool_decide (po_preSharedKey raw = []) then _ else _) as [psk|] eqn:Hpsk; [|done]. cbn [mbind option_bind].
  destruct (bool_decide (po_allowedIPs raw = [])); [done|].
  destruct (if bool_decide (po_reserved raw = []) then _ else _); [|done]. cbn [mbind option_bind]. intros [= <-]. cbn.
  split; [by exists pk|]. revert Hpsk. case_bool_decide; [intros [= <-]; by exists []|].
  destruct (base64_DecodeString _) as [b|] eqn:Hb; [|done]. cbn. intros [= <-]. exists b. split; [by eapply base64_u8 | done].
Qed.

Lemma addr_chars_graphic s : Forall GoNetip.addr_char s -> forallb graphic s = true.
Proof. rewrite Forall_forall, forallb_forall. unfold GoNetip.addr_char, graphic. intros H b Hb%H. lia. Qed.

Section Peers.

Context (C : Primitives) (W : Oracles) (priorityMsgFn : option (bytes -> bytes)).

Abbreviation set_lines := (set_lines C W priorityMsgFn).
Abbreviation handlePeerLine := (handlePeerLine C W priorityMsgFn).

(** What the lines of a peer stand for: its key, preshared key and address. *)
Definition peer_meaning (c : peerConfig) : option (bytes * bytes * option Runtime.Endpoint) :=
  pk ← NoisePublicKey_FromHex (pc_publicKeyHex c);
  ep ← (if AddrPort_IsValid (pc_endpoint c) then ep ← o_ParseEndpoint W (AddrPort_String (pc_endpoint c)); Some (Some ep) else Some None);
  psk ← (if bool_decide (pc_preSharedKeyHex c = []) then Some (zeros 32) else NoisePresharedKey_FromHex (pc_preSharedKeyHex c));
  Some (pk, psk, ep).

(** ** One peer *)

(** The device with one more peer. *)
Definition with_peer (e : Engine) (pk : bytes) (p : pid) (pr : Peer) (r : Runtime) (tb : routes) : Engine :=
  mkEngine (config e)
    (mkDevice (privateKey (dev e)) (publicKey (dev e)) (<[pk := p]> (keyMap (dev e))) (<[p := pr]> (peers (dev e)))
       (indexTable (dev e)) (keypairs (dev e)))
    (dstate e) tb (checker e) (limiter e) (underLoadUntil e) (<[p := r]> (runtimes e))
    (handshakeQueue e) (clock e) (calls e) (output e) (net e).

Definition target_of (p : pid) (pka : bool) : ipcSetPeer := mkSetPeer (Target p) false true pka.

Lemma peer_line key value rest failed d peer peer' e e' :
  device_key key = true -> handlePeerLine peer (str key) value e = Some (inr peer', e') ->
  set_lines (line_of (key, value) :: rest) failed d peer false e = set_lines rest failed d peer' false e'.
Proof.
  intros Hk Hl. assert (bool_decide (str key = str "public_key") = false) as Hp.
  { unfold device_key in Hk. rewrite !andb_true_iff, !negb_true_iff in Hk. tauto. }
  cbn [Uapi.set_lines]. rewrite bool_decide_eq_false_2 by apply line_not_nil. rewrite line_cut by done. cbn [negb]. rewrite Hp.
  unfold bind. by rewrite Hl.
Qed.

Section One.

Context (e : Engine) (pk : bytes) (p : pid).

Abbreviation peered := (with_peer e pk p).

Lemma endpoint_line v ep pka pr r tb : o_ParseEndpoint W v = Some ep ->
  handlePeerLine (target_of p pka) (str "endpoint") v (peered pr r tb) =
    Some (inr (target_of p pka), peered pr (update_endpoint (fun s => set_ep_val s (Some ep)) r) tb).
Proof.
  intros Hv. change (handlePeerLine (target_of p pka) (str "endpoint") v) with
    (parsed (o_ParseEndpoint W v) (fun ep => let* _ := on_rt p (update_endpoint (fun s => set_ep_val s (Some ep))) in done (target_of p pka))).
  rewrite Hv. unfold parsed, bind, on_rt. cbn [runtimes with_peer]. rewrite lookup_insert_eq. cbn [mbind option_bind]. red_bind.
  unfold with_peer, set_runtimes. cbn. by rewrite insert_insert_eq.
Qed.

Definition keyed (pr : Peer) (psk : bytes) : Peer := set_handshake pr (set_presharedKey (handshake pr) psk).

Lemma preshared_line v psk pka pr r tb : NoisePresharedKey_FromHex v = Some psk ->
  handlePeerLine (target_of p pka) (str "preshared_key") v (peered pr r tb) = Some (inr (target_of p pka), peered (keyed pr psk) r tb).
Proof.
  intros Hv. change (handlePeerLine (target_of p pka) (str "preshared_key") v) with
    (parsed (NoisePresharedKey_FromHex v) (fun psk => let* _ := change_dev (fun d => SetPresharedKey d p psk) in done (target_of p pka))).
  rewrite Hv. unfold parsed, bind, change_dev, on_dev, SetPresharedKey. cbn [dev peers with_peer]. rewrite lookup_insert_eq. cbn [mbind option_bind].
  red_bind. unfold with_peer, set_dev, update_handshake, update_peer. cbn. by rewrite insert_insert_eq.
Qed.

Lemma allowed_line pfx pka pr r tb tb' :
  GoNetip.valid_addr (AllowedIPs.pfxAddr pfx) -> 0 <= AllowedIPs.pfxBits pfx <= GoNetip.maxBits (AllowedIPs.pfxAddr pfx) ->
  AllowedIPs.Insert tb pfx p = Some tb' ->
  handlePeerLine (target_of p pka) (str "allowed_ip") (GoNetip.prefix_String pfx) (peered pr r tb) = Some (inr (target_of p pka), peered pr r tb').
Proof.
  intros Ha Hb Hi. pose proof (GoNetip.ParsePrefix_String pfx Ha Hb) as Hp.
  pose proof (GoNetip.prefix_String_chars pfx Ha (proj1 Hb)) as Hc.
  change (handlePeerLine (target_of p pka) (str "allowed_ip") ?v) with
    (let '(add, value) := match v with 45 :: value' => (false, value') | _ => (true, v) end in
     parsed (GoNetip.ParsePrefix value) (fun pfx =>
       let* _ := on_routes (fun tb => if add : bool then AllowedIPs.Insert tb pfx p else AllowedIPs.Remove tb pfx p) in done (target_of p pka))).
  assert ((match GoNetip.prefix_String pfx with 45 :: value' => (false, value') | _ => (true, GoNetip.prefix_String pfx) end) =
    (true, GoNetip.prefix_String pfx)) as ->.
  { destruct (GoNetip.prefix_String pfx) as [|b s]; [done|]. inversion_clear Hc as [|? ? Hb' _]. unfold GoNetip.addr_char in Hb'.
    repeat case_match; (done || lia). }
  rewrite Hp. unfold parsed, on_routes, bind, gets, lift, modify. red_bind. cbn [allowedips with_peer]. by rewrite Hi.
Qed.

Lemma keepalive_line n pka pr r tb : is_u 16 n ->
  handlePeerLine (target_of p pka) (str "persistent_keepalive_interval") (FormatUint n) (peered pr r tb) =
    Some (inr (target_of p ((persistentKeepaliveInterval r =? 0) && negb (n =? 0))), peered pr (set_persistentKeepaliveInterval r n) tb).
Proof.
  intros Hn. change (handlePeerLine (target_of p pka) (str "persistent_keepalive_interval") ?v) with (parsed (ParseUint v 16) (set_interval (target_of p pka))).
  rewrite ParseUint_Format by done. unfold parsed, set_interval, bind, get_rt, on_rt. cbn [sp_peer target_of runtimes with_peer].
  rewrite lookup_insert_eq. cbn [mbind option_bind]. red_bind. cbn [runtimes with_peer]. rewrite lookup_insert_eq. cbn [mbind option_bind]. red_bind.
  unfold with_peer, set_runtimes. cbn. by rewrite insert_insert_eq.
Qed.

End One.

(** *** All lines of a peer *)

(** A value of [netip.Prefix] that is valid. *)
Definition pfx_ok (pfx : AllowedIPs.prefix) : Prop :=
  GoNetip.valid_addr (AllowedIPs.pfxAddr pfx) /\ 0 <= AllowedIPs.pfxBits pfx <= GoNetip.maxBits (AllowedIPs.pfxAddr pfx).

(** A value of [netip.AddrPort]. *)
Definition ap_ok (ap : AddrPort) : Prop := (AddrPort_IsValid ap = true -> GoNetip.valid_addr (ap_addr ap)) /\ is_u 16 (ap_port ap).

Definition conf_ok (c : peerConfig) : Prop := Forall pfx_ok (pc_allowedIPs c) /\ is_u 16 (pc_keepalive c) /\ ap_ok (pc_endpoint c).

Lemma pfx_prefix_ok pfx : pfx_ok pfx -> AllowedIPs.prefix_ok pfx.
Proof. unfold pfx_ok, AllowedIPs.prefix_ok. destruct (AllowedIPs.pfxAddr pfx); cbn; [by intros [[] _]|intros [? ?]; split; [done | lia]..]. Qed.

Abbreviation pmap := (gmap (bool * list bool) pid).

Definition routed (m : pmap) (pfxs : list AllowedIPs.prefix) (p : pid) : pmap := foldl (fun m pfx => AllowedIPs.spec_insert m pfx p) m pfxs.

Section Lines.

Context (e : Engine) (pk : bytes) (p : pid) (failed : bool) (d : ipcSetDevice).

Lemma allowed_lines pfxs rest pka pr r tb m : Forall pfx_ok pfxs -> AllowedIPs.refines tb m ->
  exists tb', AllowedIPs.refines tb' (routed m pfxs p) /\
    set_lines (map line_of (map (fun a => ("allowed_ip", GoNetip.prefix_String a)) pfxs) ++ rest) failed d (target_of p pka) false (with_peer e pk p pr r tb) =
    set_lines rest failed d (target_of p pka) false (with_peer e pk p pr r tb').
Proof.
  intros Hp. revert tb m. induction Hp as [|pfx pfxs Hx Hp IH]; intros tb m Hm; [by exists tb|]. cbn [map app].
  destruct (AllowedIPs.insertLocked_refines tb m pfx p Hm (pfx_prefix_ok _ Hx)) as (tb1 & Hi & Hm1).
  destruct (IH tb1 _ Hm1) as (tb' & Hm' & Hs). exists tb'. split; [done|]. rewrite <- Hs. destruct Hx as [Ha Hb].
  apply peer_line; [done|]. by apply allowed_line.
Qed.

(** What is known of the peer afterwards. *)
Record fits (c : peerConfig) (psk : bytes) (ep : option Runtime.Endpoint) (pr : Peer) (r : Runtime) : Prop := {
  fit_static : remoteStatic (handshake pr) = pk;
  fit_preshared : presharedKey (handshake pr) = psk;
  fit_endpoint : ep_val (endpoint r) = ep;
  fit_keepalive : persistentKeepaliveInterval r = pc_keepalive c;
  fit_roaming : disableRoaming (endpoint r) = false
}.

Abbreviation lines l rest pka e := (set_lines (map line_of l ++ rest) failed d (target_of p pka) false e).

Lemma endpoint_part c rest pka pr r tb ep :
  (if AddrPort_IsValid (pc_endpoint c) then ep ← o_ParseEndpoint W (AddrPort_String (pc_endpoint c)); Some (Some ep) else Some None) = Some ep ->
  endpoint r = mkEndpointState None [] false false ->
  exists r', endpoint r' = mkEndpointState ep [] false false /\ persistentKeepaliveInterval r' = persistentKeepaliveInterval r /\
    lines (if AddrPort_IsValid (pc_endpoint c) then [("endpoint", AddrPort_String (pc_endpoint c))] else []) rest pka (with_peer e pk p pr r tb) =
    set_lines rest failed d (target_of p pka) false (with_peer e pk p pr r' tb).
Proof.
  intros Hep He. destruct (AddrPort_IsValid _); [|injection Hep as <-; by exists r]. destruct (o_ParseEndpoint W _) as [x|] eqn:Hx; [|done]. injection Hep as <-.
  exists (update_endpoint (fun s => set_ep_val s (Some x)) r). split; [by cbn; rewrite He|]. split; [done|].
  apply peer_line; [done|]. by apply endpoint_line.
Qed.

Lemma preshared_part v rest pka pr r tb psk :
  (if bool_decide (v = []) then Some (zeros 32) else NoisePresharedKey_FromHex v) = Some psk -> presharedKey (handshake pr) = zeros 32 ->
  exists pr', remoteStatic (handshake pr') = remoteStatic (handshake pr) /\ presharedKey (handshake pr') = psk /\
    lines (string_kv "preshared_key" v) rest pka (with_peer e pk p pr r tb) =
    set_lines rest failed d (target_of p pka) false (with_peer e pk p pr' r tb).
Proof.
  intros Hpsk Hz. unfold string_kv. case_bool_decide; [injection Hpsk as <-; by exists pr|]. exists (keyed pr psk). split_and!; [done..|].
  apply peer_line; [done|]. by apply preshared_line.
Qed.

Lemma peer_lines c rest pka pr r tb m psk ep :
  peer_meaning c = Some (pk, psk, ep) -> conf_ok c -> AllowedIPs.refines tb m ->
  remoteStatic (handshake pr) = pk -> presharedKey (handshake pr) = zeros 32 -> endpoint r = mkEndpointState None [] false false ->
  persistentKeepaliveInterval r = 0 ->
  exists pka' pr' r' tb', fits c psk ep pr' r' /\ AllowedIPs.refines tb' (routed m (pc_allowedIPs c) p) /\
    lines (peer_kvs c) rest pka (with_peer e pk p pr r tb) = set_lines rest failed d (target_of p pka') false (with_peer e pk p pr' r' tb').
Proof.
  intros Hc (Ha & Hk & _) Hm Hs Hz He Hr. unfold peer_meaning in Hc. destruct (NoisePublicKey_FromHex _) as [pk'|]; [|done]. cbn [mbind option_bind] in Hc.
  destruct (if AddrPort_IsValid (pc_endpoint c) then _ else _) as [ep'|] eqn:Hep in Hc; [|done]. cbn [mbind option_bind] in Hc.
  destruct (if bool_decide (pc_preSharedKeyHex c = []) then _ else _) as [psk'|] eqn:Hpsk in Hc; [|done]. injection Hc as -> -> ->.
  unfold peer_kvs. rewrite !map_app, <- !app_assoc.
  edestruct (endpoint_part c) as (r1 & He1 & Hk1 & ->); [exact Hep | exact He|].
  edestruct (preshared_part (pc_preSharedKeyHex c)) as (pr1 & Hs1 & Hp1 & ->); [exact Hpsk | exact Hz|].
  edestruct (allowed_lines (pc_allowedIPs c)) as (tb' & Hm' & ->); [exact Ha | exact Hm|].
  destruct (Z.gtb_spec (pc_keepalive c) 0) as [H0|H0].
  - eexists _, pr1, (set_persistentKeepaliveInterval r1 (pc_keepalive c)), tb'. split; [|split; [done|]].
    + split; cbn; rewrite ?He1; cbn; congruence.
    + apply peer_line; [done|]. by apply keepalive_line.
  - exists pka, pr1, r1, tb'. split; [|split; done]. unfold is_u in Hk. split; rewrite ?He1; cbn; first [congruence | lia].
Qed.

End Lines.

(** ** All peers *)

Definition peer_key (c : peerConfig) : option bytes := NoisePublicKey_FromHex (pc_publicKeyHex c).

Lemma meaning_key c pk psk ep : peer_meaning c = Some (pk, psk, ep) -> peer_key c = Some pk.
Proof.
  unfold peer_meaning, peer_key. destruct (NoisePublicKey_FromHex _) as [x|]; [|done]. cbn [mbind option_bind].
  destruct (if AddrPort_IsValid _ then _ else _); [|done]. cbn [mbind option_bind].
  destruct (if bool_decide _ then _ else _); [|done]. by intros [= -> _ _].
Qed.

(** The device knows the peer as the options say. *)
Definition has_peer (e : Engine) (c : peerConfig) (p : pid) : Prop :=
  exists pk psk ep pr r, peer_meaning c = Some (pk, psk, ep) /\ keyMap (dev e) !! pk = Some p /\ peers (dev e) !! p = Some pr /\
    runtimes e !! p = Some r /\ fits pk c psk ep pr r.

(** The routes of the peers, in the order of the options. *)
Definition routes_of (cs : list peerConfig) (ids : list pid) : pmap :=
  foldl (fun m x => routed m (pc_allowedIPs (fst x)) (snd x)) ∅ (zip cs ids).

(** A device that is down with these peers. *)
Record stage (c : Config) (sk own : bytes) (n : Net) (cs : list peerConfig) (ids : list pid) (e : Engine) : Prop := {
  st_config : config e = c;
  st_private : privateKey (dev e) = sk;
  st_public : publicKey (dev e) = own;
  st_state : dstate e = deviceStateDown;
  st_net : net e = n;
  st_peers : Forall2 (has_peer e) cs ids;
  st_size : size (keyMap (dev e)) = length cs;
  st_keys : forall pk, is_Some (keyMap (dev e) !! pk) -> Some pk ∈ map peer_key cs;
  st_routes : AllowedIPs.refines (allowedips e) (routes_of cs ids)
}.

Lemma has_peer_other e c p pk q pr r tb : has_peer e c p -> peer_key c <> Some pk -> peers (dev e) !! q = None ->
  has_peer (with_peer e pk q pr r tb) c p.
Proof.
  intros (pk' & psk & ep & pr' & r' & Hm & Hk & Hp & Hr & Hf) Hne Hq. pose proof (meaning_key _ _ _ _ Hm) as Hkey.
  exists pk', psk, ep, pr', r'. cbn. assert (p <> q) by congruence. assert (pk' <> pk) by congruence.
  rewrite !lookup_insert_ne by done. done.
Qed.

Lemma routes_snoc cs ids c p : length cs = length ids -> routes_of (cs ++ [c]) (ids ++ [p]) = routed (routes_of cs ids) (pc_allowedIPs c) p.
Proof. intros Hl. unfold routes_of. rewrite zip_with_app by done. by rewrite foldl_app. Qed.

Lemma stage_step c0 sk own n cs ids e c pk psk ep q pr r tb :
  stage c0 sk own n cs ids e -> peer_meaning c = Some (pk, psk, ep) -> Some pk ∉ map peer_key cs -> peers (dev e) !! q = None ->
  fits pk c psk ep pr r -> AllowedIPs.refines tb (routed (routes_of cs ids) (pc_allowedIPs c) q) ->
  stage c0 sk own n (cs ++ [c]) (ids ++ [q]) (with_peer e pk q pr r tb).
Proof.
  intros [E1 E2 E3 E4 E5 Hp Hs Hk Hr] Hm Hnew Hq Hf Htb. pose proof (meaning_key _ _ _ _ Hm) as Hkey.
  split; try done; cbn.
  - apply Forall2_app.
    + apply Forall2_same_length_lookup_2; [by eapply Forall2_length|]. intros i c' p Hc' Hp'.
      pose proof (Forall2_lookup_lr _ _ _ _ _ _ Hp Hc' Hp') as Hx. apply has_peer_other; [done | | done].
      intros E. apply Hnew. rewrite <- E. by eapply list_elem_of_fmap_2, list_elem_of_lookup_2.
    + constructor; [|constructor]. exists pk, psk, ep, pr, r. cbn. by rewrite !lookup_insert_eq.
  - rewrite map_size_insert_None, Hs, length_app; [cbn; lia|]. destruct (keyMap (dev e) !! pk) eqn:E; [|done]. destruct Hnew. apply Hk. by eexists.
  - intros k Hkk. rewrite map_app, elem_of_app. destruct (decide (k = pk)) as [->|Hne].
    + right. cbn. rewrite Hkey. set_solver.
    + left. rewrite lookup_insert_ne in Hkk by done. by apply Hk.
  - by rewrite routes_snoc by (by eapply Forall2_length).
Qed.

(** *** Creating a peer *)

Lemma public_line c pk peer c0 sk own n cs ids e :
  stage c0 sk own n cs ids e -> peer_key c = Some pk -> pk <> own -> Some pk ∉ map peer_key cs -> Z.of_nat (length cs) < MaxPeers ->
  exists p pr r, peers (dev e) !! p = None /\ remoteStatic (handshake pr) = pk /\ presharedKey (handshake pr) = zeros 32 /\
    endpoint r = mkEndpointState None [] false false /\ persistentKeepaliveInterval r = 0 /\
    handlePublicKeyLine C peer (pc_publicKeyHex c) e = Some (inr (target_of p (pkaOn peer)), with_peer e pk p pr r (allowedips e)).
Proof.
  intros [E1 E2 E3 E4 E5 Hp Hs Hk Hr] Hkey Hown Hnew Hmax.
  assert (keyMap (dev e) !! pk = None) as Hnone by (destruct (keyMap (dev e) !! pk) eqn:E; [destruct Hnew; apply Hk; by eexists | done]).
  unfold peer_key in Hkey. unfold handlePublicKeyLine. rewrite Hkey. unfold parsed, bind, gets, ret. red_bind.
  rewrite bool_decide_eq_false_2 by congruence. unfold LookupPeer. rewrite Hnone.
  unfold NewPeer, Engine.NewPeer, bind, gets, on_dev, modify, isClosed. red_bind. rewrite E4. cbn [bool_decide].
  rewrite (bool_decide_eq_false_2 (deviceStateDown = deviceStateClosed)) by done. red_bind.
  unfold Noise.NewPeer. destruct (Z.leb_spec MaxPeers (Z.of_nat (size (keyMap (dev e))))); [rewrite Hs in *; lia|]. rewrite Hnone.
  destruct (sharedSecret _ _ _) as [ss ?]. red_bind. set (p := fresh (dom (peers (dev e)))). exists p. do 2 eexists.
  assert (peers (dev e) !! p = None) by (apply not_elem_of_dom, is_fresh). split; [done|]. cbn [mbind option_bind].
  split; [|split; [|split; [|split; [|reflexivity]]]]; done.
Qed.

(** *** Peer after peer *)

(** Nothing is left to do for the peer when its lines end. *)
Definition settled (peer : ipcSetPeer) (e : Engine) : Prop := handlePostConfig C W peer e = Some (tt, e).

Lemma settled_none e : settled (mkSetPeer NoTarget false false false) e.
Proof. done. Qed.

Lemma settled_peer e pk p pka pr r tb :
  dstate e = deviceStateDown -> brokenRoaming (net e) = false -> disableRoaming (endpoint r) = false -> settled (target_of p pka) (with_peer e pk p pr r tb).
Proof.
  intros Hd Hb Hr. unfold settled, handlePostConfig. cbn [sp_peer target_of dummy created when]. unfold bind, gets, on_rt, isUp. red_bind.
  cbn [runtimes with_peer net dstate]. rewrite lookup_insert_eq. cbn [mbind option_bind]. red_bind. rewrite Hb. cbn [andb].
  assert (update_endpoint (fun s => set_disableRoaming s false) r = r) as ->.
  { destruct r as [? ? ? ep ? ? ? ? ? ? ?]. unfold update_endpoint. cbn. destruct ep. cbn in Hr. by subst. }
  unfold with_peer, set_runtimes. cbn. rewrite insert_insert_eq, Hd, bool_decide_eq_false_2 by done. done.
Qed.

(** What the loop relies on. *)
Record peers_ok (own : bytes) (cs : list peerConfig) : Prop := {
  po_read : Forall (fun c => is_Some (peer_meaning c)) cs;
  po_conf : Forall conf_ok cs;
  po_unique : NoDup (map peer_key cs);
  po_own : Some own ∉ map peer_key cs;
  po_few : Z.of_nat (length cs) <= MaxPeers
}.

Definition all_kvs (c : peerConfig) : kvs := ("public_key", pc_publicKeyHex c) :: peer_kvs c.

Lemma public_key_cut v : Cut (line_of ("public_key", v)) equals = (str "public_key", v, true).
Proof. unfold line_of. rewrite Cut_app; [done | by_eval]. Qed.

Lemma public_key_line v rest failed d peer e :
  set_lines (line_of ("public_key", v) :: rest) failed d peer false e =
    (let* _ := handlePostConfig C W peer in
     let* r := handlePublicKeyLine C peer v in
     match r with inl err => ret (Some err) | inr peer => set_lines rest failed d peer false end) e.
Proof.
  cbn [Uapi.set_lines]. rewrite bool_decide_eq_false_2 by apply line_not_nil.
  rewrite public_key_cut. cbn [negb]. by rewrite bool_decide_eq_true_2.
Qed.

Lemma all_peers_lines c0 sk own n failed d cs : brokenRoaming n = false -> forall cs0 ids0 peer e rest,
  stage c0 sk own n cs0 ids0 e -> settled peer e -> peers_ok own (cs0 ++ cs) ->
  exists ids peer' e', stage c0 sk own n (cs0 ++ cs) (ids0 ++ ids) e' /\ settled peer' e' /\
    set_lines (map line_of (flat_map all_kvs cs) ++ rest) failed d peer false e = set_lines rest failed d peer' false e'.
Proof.
  intros Hb. induction cs as [|c cs IH]; intros cs0 ids0 peer e rest He Hset Hok.
  { exists [], peer, e. by rewrite !app_nil_r. }
  pose proof Hok as [Hread Hconf Huniq Hown Hfew]. apply Forall_app in Hread as [_ Hread]. apply Forall_app in Hconf as [_ Hconf].
  inversion_clear Hread as [|? ? [[[pk psk] ep] Hm] _]. inversion_clear Hconf as [|? ? Hc _].
  pose proof (meaning_key _ _ _ _ Hm) as Hkey. rewrite map_app in Huniq, Hown. cbn [map] in Huniq, Hown. rewrite Hkey in Huniq, Hown.
  assert (Some pk ∉ map peer_key cs0) as Hnew. { apply list.NoDup_app in Huniq as (_ & Hd & _). intros Hx. apply (Hd _ Hx). set_solver. }
  rewrite length_app in Hfew. cbn [length] in Hfew.
  destruct (public_line c pk peer _ _ _ _ _ _ _ He Hkey) as (p & pr & r & Hp & Hs & Hz & Hep & Hka & Hl); [set_solver | done | lia|].
  cbn [flat_map]. rewrite map_app, <- app_assoc. unfold all_kvs at 1. cbn [map app]. rewrite public_key_line.
  unfold bind at 1. rewrite Hset. red_bind. unfold bind. rewrite Hl. red_bind.
  edestruct (peer_lines e pk p failed d c) as (pka' & pr' & r' & tb' & Hf & Hr & ->); [exact Hm | exact Hc | apply (st_routes _ _ _ _ _ _ _ He) | done..|].
  pose proof (stage_step _ _ _ _ _ _ _ _ _ _ _ _ _ _ _ He Hm Hnew Hp Hf Hr) as He'.
  destruct (IH (cs0 ++ [c]) (ids0 ++ [p]) (target_of p pka') _ rest He') as (ids & peer' & e' & Hst & Hset' & Hlines).
  - apply settled_peer; [apply He | by rewrite (st_net _ _ _ _ _ _ _ He) | apply Hf].
  - by rewrite <- app_assoc.
  - exists (p :: ids), peer', e'. rewrite <- !app_assoc in Hst. done.
Qed.

(** ** The whole text *)

Lemma merge_result d e : let d' := fill_headers d (wire (config e)) in
  mergeWithDevice d e =
    if valid_prefixes d && valid_headers (headers_of d')
    then Some (inr d', set_config e (c_wire (config e) (install d' (wire (config e))))) else Some (inl IpcErrorInvalid, e).
Proof.
  cbv zeta. unfold mergeWithDevice, bind, gets. red_bind. destruct (valid_prefixes d); cbn [negb andb]; [|done].
  by destruct (valid_headers _).
Qed.

Lemma fill_again d w : valid_headers (headers_of d) = true -> fill_headers d w = d.
Proof.
  destruct d as [? ? ? ? ? [h1|] [h2|] [h3|] [h4|]]; unfold headers_of; cbn; rewrite ?andb_false_r; done.
Qed.

Lemma merge_again d e : valid_prefixes d = true -> valid_headers (headers_of d) = true ->
  install d (wire (config e)) = wire (config e) -> mergeWithDevice d e = Some (inr d, e).
Proof.
  intros Hp Hh Hi. rewrite merge_result, fill_again, Hp, Hh, Hi by done. cbn [andb]. destruct e as [c]. by destruct c.
Qed.

Lemma set_lines_end d peer e dc : valid_prefixes d = true -> valid_headers (headers_of d) = true ->
  install d (wire (config e)) = wire (config e) -> settled peer e -> set_lines [] false d peer dc e = Some (None, e).
Proof.
  intros Hp Hh Hi Hs. cbn [Uapi.set_lines]. unfold finish, bind. rewrite merge_again by done. red_bind. by rewrite Hs.
Qed.

(** The first peer's lines, or the end, install the framing. *)
Lemma merged_first cs d peer e d' e' :
  mergeWithDevice d e = Some (inr d', e') -> valid_prefixes d' = true -> valid_headers (headers_of d') = true ->
  install d' (wire (config e')) = wire (config e') -> 
  set_lines (map line_of (flat_map all_kvs cs) ++ []) false d peer true e = set_lines (map line_of (flat_map all_kvs cs) ++ []) false d' peer false e'.
Proof.
  intros Hm Hp Hh Hi. destruct cs as [|c cs].
  - cbn [flat_map map app Uapi.set_lines]. unfold finish, bind. rewrite Hm, merge_again by done. done.
  - cbn [flat_map]. rewrite map_app, <- app_assoc. unfold all_kvs at 1 3. cbn [map app]. rewrite public_key_line. cbn [Uapi.set_lines].
    rewrite bool_decide_eq_false_2 by apply line_not_nil.
    rewrite public_key_cut. cbn [negb]. rewrite bool_decide_eq_true_2 by done. unfold bind at 1. rewrite Hm. red_bind. done.
Qed.

Lemma merged_error cs d peer e err e' :
  mergeWithDevice d e = Some (inl err, e') -> set_lines (map line_of (flat_map all_kvs cs) ++ []) false d peer true e = Some (Some err, e').
Proof.
  intros Hm. destruct cs as [|c cs].
  - cbn [flat_map map app Uapi.set_lines]. unfold finish, bind. by rewrite Hm.
  - cbn [flat_map]. rewrite map_app, <- app_assoc. unfold all_kvs at 1. cbn [map app Uapi.set_lines].
    rewrite bool_decide_eq_false_2 by apply line_not_nil.
    rewrite public_key_cut. cbn [negb]. rewrite bool_decide_eq_true_2 by done. unfold bind at 1. rewrite Hm. red_bind. done.
Qed.

Definition port_kvs (n : Z) : kvs := if n =? 0 then [] else [("listen_port", FormatUint n)].

Lemma bare_new m now : bare m (zeros 32) (zeros 32) (mkNet 0 0 false) (NewDevice m now).
Proof. done. Qed.

Lemma identity_and_port m now sk n rest :
  (forall i, o_bind W i = false) -> length sk = 32%nat -> Forall is_u8 sk -> is_u 16 n ->
  exists e, bare m (installed sk) (identity_of C sk) (mkNet n 0 false) e /\
    set_lines (map line_of (("private_key", hex_EncodeToString sk) :: port_kvs n) ++ rest) false blank (mkSetPeer NoTarget false false false) true (NewDevice m now) =
    set_lines rest false blank (mkSetPeer NoTarget false false false) true e.
Proof.
  intros HW Hl Hu Hn. destruct (identity_line C W priorityMsgFn m sk (mkNet 0 0 false) blank _ Hl Hu (bare_new m now)) as (e1 & H1 & N1).
  cbn [map app]. rewrite (device_line C W priorityMsgFn "private_key" _ _ _ _ _ _ e1) by done.
  unfold port_kvs. destruct (Z.eqb_spec n 0) as [->|]; [by exists e1|].
  destruct (port_line C W priorityMsgFn m _ _ n blank e1 HW Hn N1) as (e2 & H2 & N2). exists e2. split; [done|]. cbn [map app].
  by rewrite (device_line C W priorityMsgFn "listen_port" _ _ _ _ _ _ e2).
Qed.

Lemma bare_stage m sk own n e c : bare m sk own n e -> stage c sk own n [] [] (set_config e c).
Proof.
  intros [E1 E2 E3 E4 E5 E6 E7]. split; try done; cbn.
  - by rewrite E4.
  - intros pk [p Hp]. rewrite E4 in Hp. done.
  - rewrite E6. apply AllowedIPs.empty_refines.
Qed.

Lemma set_whole o x m now sk n cs :
  Forall is_u32 (numbers o) -> (forall i, o_bind W i = false) -> length sk = 32%nat -> Forall is_u8 sk -> is_u 16 n ->
  peers_ok (identity_of C sk) cs ->
  let result := set_lines (map line_of ((("private_key", hex_EncodeToString sk) :: port_kvs n) ++ option_kvs o x ++ flat_map all_kvs cs)) false
    blank (mkSetPeer NoTarget false false false) true (NewDevice m now) in
  match intended o x m with
  | Some c => exists ids e, stage c (installed sk) (identity_of C sk) (mkNet n 0 false) cs ids e /\ result = Some (None, e)
  | None => exists err e, result = Some (Some err, e)
  end.
Proof.
  intros Hnum HW Hl Hu Hn Hcs result. subst result. rewrite map_app.
  destruct (identity_and_port m now sk n (map line_of (option_kvs o x ++ flat_map all_kvs cs)) HW Hl Hu Hn) as (e & He & ->).
  rewrite map_app. rewrite <- (app_nil_r (map line_of (flat_map all_kvs cs))).
  pose proof (applies_options C W priorityMsgFn o x Hnum blank e (map line_of (flat_map all_kvs cs) ++ []) false (mkSetPeer NoTarget false false false)) as Ha.
  rewrite (bare_config _ _ _ _ _ He) in Ha. pose proof (options_result o x m) as Hr.
  destruct (option_steps o x (blank, fresh_config m)) as [[d c]|]; [|by rewrite Hr]. destruct Hr as (-> & Hw & Hm). cbv zeta. rewrite Ha. clear Ha.
  pose proof (merge_result d (set_config e c)) as Hmerge. cbv zeta in Hmerge. cbn [config set_config] in Hmerge.
  destruct (valid_prefixes d) eqn:Hp; cbn [andb] in *; [|by eexists _, _; apply merged_error].
  set (d' := fill_headers d (wire c)) in *. destruct (valid_headers (headers_of d')) eqn:Hh; [|by eexists _, _; apply merged_error].
  set (c' := c_wire c (install d' (wire c))) in *.
  assert (valid_prefixes d' = true) as Hp' by (by destruct d).
  assert (install d' (wire c') = wire c') as Hi by done.
  erewrite merged_first; [|exact Hmerge | done..].
  destruct (all_peers_lines c' (installed sk) (identity_of C sk) (mkNet n 0 false) false d' cs eq_refl [] [] (mkSetPeer NoTarget false false false)
    (set_config e c') []) as (ids & peer' & e' & Hst & Hset & Hlines); [by apply (bare_stage m) | done | done|].
  exists ids, e'. split; [done|]. change (set_config (set_config e c) c') with (set_config e c'). rewrite Hlines.
  apply set_lines_end; try done. by rewrite (st_config _ _ _ _ _ _ _ Hst).
Qed.

(** ** Start *)

Section Start.

Context (rand_Int : nat -> Z -> option Z) (rand_Read : nat -> nat -> option (list Z)) (hmac_sha1 : list Z -> list Z -> list Z)
  (masqueQUICInitialCPS : list Z -> list Z -> Masque.G (list Z)) (IsDomain : Socksaddr -> bool) (device_ok : EndpointOptions -> Z -> bool).

Abbreviation awgIpcLines := (awgIpcLines rand_Int rand_Read hmac_sha1 masqueQUICInitialCPS).
Abbreviation chosen_from := (chosen_from rand_Int rand_Read hmac_sha1 masqueQUICInitialCPS).
Abbreviation new_peer := (new_peer IsDomain).
Abbreviation NewEndpoint := (NewEndpoint IsDomain awgIpcLines device_ok).
Abbreviation named peers := (existsb (fun peer => IsDomain (pc_destination peer)) peers).

Lemma unbroken_options o x : Forall is_u32 (numbers o) -> chosen_from o x -> checked o x -> Forall unbroken (option_kvs o x).
Proof.
  unfold numbers. rewrite !list.Forall_cons. unfold is_u. intros (? & ? & ? & ? & ? & ? & ? & _) [S1 S2 S3 S4 _] [_ _ Hk Hb].
  rewrite !list.Forall_cons in Hb. destruct Hb as (? & ? & ? & ? & ? & ? & ? & _). unfold option_kvs. rewrite !Forall_app.
  split_and!; first [apply unbroken_number; [done | lia] | apply unbroken_flag; done | apply unbroken_string; [done|]].
  all: first [done | by eapply Spec_no_break | idtac].
  destruct (decide (HeaderProtectionKey o = [])) as [->|Hne]; [done|]. specialize (Hk Hne). unfold protection_ok in Hk.
  rewrite !andb_true_iff in Hk. apply isHex_no_break. tauto.
Qed.

Lemma unbroken_peer raw c : new_peer raw = Some c -> conf_ok c -> Forall unbroken (all_kvs c).
Proof.
  intros [Hpk Hpsk]%new_peer_hexed (Hp & Hk & Ha & Hport). unfold is_u in Hk, Hport. unfold all_kvs, peer_kvs.
  apply list.Forall_cons. split; [split; [done | by apply graphic_no_break, hexed_graphic]|]. rewrite !Forall_app. split_and!.
  - destruct (AddrPort_IsValid _) eqn:Hv; [|constructor]. apply Forall_singleton. split; [done|]. specialize (Ha eq_refl).
    apply graphic_no_break. pose proof (addr_chars_graphic _ (GoNetip.addr_String_chars _ Ha)) as Hc.
    pose proof (digits_graphic _ (FormatUint_digit (ap_port (pc_endpoint c)) (proj1 Hport))) as Hd.
    unfold AddrPort_String. cbn [snd]. destruct (ap_addr (pc_endpoint c)); [done|..]; rewrite !forallb_app, Hc, Hd; done.
  - apply unbroken_string; [done | by apply graphic_no_break, hexed_graphic].
  - apply list.Forall_fmap. eapply list.Forall_impl; [exact Hp|]. intros pfx [Hv [Hb _]]. split; [done|].
    by apply graphic_no_break, addr_chars_graphic, GoNetip.prefix_String_chars.
  - destruct (pc_keepalive c >? 0); [|constructor]. apply Forall_singleton. split; [done|]. apply graphic_no_break, digits_graphic, FormatUint_digit. lia.
Qed.

(** What [NewEndpoint] gives. *)
Lemma NewEndpoint_spec options i ep j : Forall is_u32 (numbers (eo_amneziaWG options)) -> NewEndpoint options i = Masque.Ok ep j ->
  exists sk x, base64_DecodeString (eo_privateKey options) = Some sk /\ chosen_from (eo_amneziaWG options) x /\ checked (eo_amneziaWG options) x /\
    Forall2 (fun raw c => new_peer raw = Some c) (eo_peers options) (en_peers ep) /\
    en_ipcConf ep = line_of ("private_key", hex_EncodeToString sk) ++ broken_text (port_kvs (eo_listenPort options) ++ option_kvs (eo_amneziaWG options) x).
Proof.
  intros Hn. unfold WgEndpoint.NewEndpoint, Masque.bind. case_bool_decide; [done|].
  destruct (base64_DecodeString (eo_privateKey options)) as [sk|]; cbn [Masque.try]; [|done]. cbn [Masque.ok].
  destruct (AwgOptions.awgIpcLines _ _ _ _ (eo_amneziaWG options) i) as [text k| | |] eqn:Ht; try done.
  destruct (mapM new_peer (eo_peers options)) as [cs|] eqn:Hcs; cbn [Masque.try]; [|done]. cbn [Masque.ok].
  destruct (device_ok _ _); cbn [negb]; [|done]. intros [= <- _]. cbn [en_ipcConf en_peers].
  apply awgIpcLines_kvs in Ht as (x & -> & Hf & Hc); [|done]. exists sk, x. split_and!; try done.
  - by apply mapM_Some_1 in Hcs.
  - rewrite broken_text_app. unfold port_kvs, line_of, broken_text. destruct (eo_listenPort options =? 0); cbn; by rewrite ?app_nil_r, <- ?app_assoc.
Qed.

Lemma start_text_lines ep kv l : en_ipcConf ep = line_of kv ++ broken_text l ->
  start_text ep = line_of kv ++ broken_text (l ++ flat_map all_kvs (en_peers ep)).
Proof.
  intros H. unfold start_text. rewrite H, broken_text_app, <- app_assoc. do 2 f_equal.
  induction (en_peers ep) as [|c cs IH]; [done|]. cbn [flat_map]. by rewrite broken_text_app, <- IH, peer_text.
Qed.

Lemma plain_lines options x cs sk : Forall is_u32 (numbers (eo_amneziaWG options)) -> is_u 16 (eo_listenPort options) -> Forall is_u8 sk ->
  chosen_from (eo_amneziaWG options) x -> checked (eo_amneziaWG options) x ->
  Forall2 (fun raw c => new_peer raw = Some c) (eo_peers options) cs -> Forall conf_ok cs ->
  let kv := ("private_key", hex_EncodeToString sk) in
  let l := port_kvs (eo_listenPort options) ++ option_kvs (eo_amneziaWG options) x ++ flat_map all_kvs cs in
  (length (line_of kv ++ broken_text l) < MaxScanTokenSize)%nat -> Forall plain (kv :: l).
Proof.
  intros Hn Hport Hu Hf Hc Hp Hcs kv l Hl. apply (unbroken_plain _ (line_of kv ++ broken_text l)); [| |done].
  - apply list.Forall_cons. split; [split; [done | by apply graphic_no_break, hex_Encode_graphic]|]. subst l. rewrite !Forall_app. split_and!.
    + unfold port_kvs, is_u in *. destruct (_ =? 0); [constructor|]. apply Forall_singleton. split; [done|].
      apply graphic_no_break, digits_graphic, FormatUint_digit. lia.
    + by apply unbroken_options.
    + clear -Hp Hcs. induction Hp as [|raw c raws cs Hc Hp IH]; [constructor|]. inversion_clear Hcs. cbn [flat_map].
      apply Forall_app. split; [by eapply unbroken_peer | by apply IH].
  - change (broken_text (kv :: l)) with (line (fst kv) (snd kv) ++ broken_text l). unfold line, line_of. rewrite !length_app. cbn [length fst snd]. lia.
Qed.

(** What runs on a device. *)
Definition running_of (udp : bool) (ep : WgEndpoint.Endpoint) (e : Engine) : running :=
  mkRunning (choose_bind udp ep) (reserved_calls udp ep) (default ∅ (domain_peers IsDomain (en_peers ep) ∅)) e.

Lemma Start_lines udp ep m now r e :
  Forall (fun c => is_Some (peer_meaning c)) (en_peers ep) -> en_mtu ep = m -> IpcSet C W priorityMsgFn (start_text ep) (NewDevice m now) = Some (r, e) ->
  WgEndpoint.Start IsDomain C W priorityMsgFn now udp true (named (en_peers ep)) ep =
    Some (match r with None => Running (running_of udp ep e) | Some _ => Rejected end).
Proof.
  intros Hcs <- H. unfold WgEndpoint.Start. rewrite Bool.eqb_reflx. cbn [negb].
  assert (forall m, exists m', domain_peers IsDomain (en_peers ep) m = Some m') as Hm.
  { induction Hcs as [|c cs [[[pk psk] a] Hc] _ IH]; intros m; [by exists m|]. cbn [domain_peers]. destruct (IsDomain _); [|apply IH]. cbn [negb].
    apply meaning_key in Hc. unfold peer_key in Hc. rewrite Hc. apply IH. }
  unfold running_of. destruct (Hm ∅) as [m' ->].
  rewrite H. by destruct r.
Qed.

(** C8. From the options of an endpoint to a running device: when [NewEndpoint]
    accepts the options, the text that [Start] sets is accepted by a new device
    exactly when every value can be read and the framing is valid, and then the
    device has the paddings, headers, junk, decoys, ranges, flags and key the
    options say, with defaults for what is left out, the decoded private key and the
    port, and every peer with its public and preshared key, address and keepalive
    interval, and routes each address to the peer with the longest allowed prefix,
    the later peer of two with the same one.  Otherwise [Start] fails.  Assumed: keys
    of peers are different and not the device's own, their values can be read,
    the text is shorter than the reader's limit for a line, and the binding of the
    sockets does not fail. *)
Theorem start_configures_device options i ep j sk now udp :
  NewEndpoint options i = Masque.Ok ep j -> base64_DecodeString (eo_privateKey options) = Some sk -> length sk = 32%nat ->
  Forall is_u32 (numbers (eo_amneziaWG options)) -> is_u 16 (eo_listenPort options) -> peers_ok (identity_of C sk) (en_peers ep) ->
  (forall i, o_bind W i = false) -> (length (start_text ep) < MaxScanTokenSize)%nat ->
  let start := WgEndpoint.Start IsDomain C W priorityMsgFn now udp true (named (en_peers ep)) ep in
  exists x, chosen_from (eo_amneziaWG options) x /\
    match intended (eo_amneziaWG options) x (en_mtu ep) with
    | Some c =>
        exists e ids, start = Some (Running (running_of udp ep e)) /\ config e = c /\ privateKey (dev e) = installed sk /\ port (net e) = eo_listenPort options /\
          Forall2 (has_peer e) (en_peers ep) ids /\
          forall a, AllowedIPs.addr_ok a -> WgEndpoint.Lookup (Some (allowedips e)) a = Some (AllowedIPs.spec_lookup (routes_of (en_peers ep) ids) a)
    | None => start = Some Rejected
    end.
Proof.
  intros Hep Hsk Hl Hn Hport Hcs HW Htext start. destruct (NewEndpoint_spec options i ep j Hn Hep) as (sk' & x & Hsk' & Hf & Hc & Hpeers & Hconf).
  rewrite Hsk in Hsk'. injection Hsk' as <-. pose proof (base64_u8 _ _ Hsk) as Hu. exists x. split; [done|].
  pose proof (start_text_lines _ _ _ Hconf) as Hlines. rewrite <- app_assoc in Hlines.
  pose proof (Scan_broken _ _ (plain_lines _ _ _ _ Hn Hport Hu Hf Hc Hpeers (po_conf _ _ Hcs) ltac:(by rewrite <- Hlines))) as Hscan.
  rewrite <- Hlines in Hscan. pose proof (set_whole (eo_amneziaWG options) x (en_mtu ep) now sk _ _ Hn HW Hl Hu Hport Hcs) as Hset. cbv zeta in Hset.
  assert (forall r e, set_lines (map line_of ((("private_key", hex_EncodeToString sk) :: port_kvs (eo_listenPort options)) ++
      option_kvs (eo_amneziaWG options) x ++ flat_map all_kvs (en_peers ep))) false blank (mkSetPeer NoTarget false false false) true (NewDevice (en_mtu ep) now) = Some (r, e) ->
    start = Some (match r with None => Running (running_of udp ep e) | Some _ => Rejected end)) as Hstart.
  { intros r e H. apply (Start_lines udp ep (en_mtu ep)); [apply Hcs | done|]. unfold IpcSet, IpcSetOperation, bind, gets. red_bind. by rewrite Hscan. }
  destruct (intended _ x (en_mtu ep)) as [c|]; [|by destruct Hset as (err & e & H); rewrite (Hstart _ _ H)].
  destruct Hset as (ids & e & [E1 E2 _ _ E5 Hp _ _ Hr] & H). exists e, ids. rewrite (Hstart _ _ H), E5. split_and!; try done.
  intros a Ha. by apply AllowedIPs.lookup_addr_lpm; [apply Hr|].
Qed.

End Start.

End Peers.

(** ** Example *)

Section Example.

Import ToyCrypto EngineProps.

Definition example_amnezia : AmneziaWGOptions :=
  mkOptions 4 40 70 15 18 0 0 (str "100-200") [] [] [] (str "<b 0xf1><r 10>") [] [] [] [] [] [] [] (Some true) None [] [] (str "100-140").

Definition example_peer : PeerOptions :=
  mkPeerOptions (mkSocksaddr (AllowedIPs.Addr4 [192; 0; 2; 1]) [] 51820) (str "AgICAgICAgICAgICAgICAgICAgICAgICAgICAgICAgI=") []
    [AllowedIPs.mkPrefix (AllowedIPs.Addr4 [10; 0; 0; 0]) 8] 25 [].

Definition example_options : EndpointOptions :=
  mkEndpointOptions 0 (str "AQEBAQEBAQEBAQEBAQEBAQEBAQEBAQEBAQEBAQEBAQE=") 51820 [example_peer] example_amnezia.

Definition no_draws {A} (_ : nat) (_ : A) : option A := None.

Definition example_outcome :=
  NewEndpoint (fun _ => false) (awgIpcLines no_draws (fun _ _ => None) (fun _ _ => []) (fun _ _ => Masque.err)) (fun _ _ => true) example_options 0%nat.

Definition example_endpoint : WgEndpoint.Endpoint := Eval vm_compute in match example_outcome with Masque.Ok ep _ => ep | _ => mkEndpoint [] [] 0 0 end.

Definition example_W : Oracles :=
  mkOracles (o_batchSize toyW) (o_fastrandn toyW) (o_rand_Int toyW) (o_rand_Read toyW) (o_index toyW) (o_send toyW) (o_resolve toyW) (o_bind toyW)
    (o_open toyW) (fun s => Some (Runtime.mkEndpoint s [] [] false)).

Lemma start_configures_device_witness :
  exists e p, Start (fun _ => false) toyC example_W None 0 false true false example_endpoint =
      Some (Running (mkRunning (ClientBind true (mkAddrPort (AllowedIPs.Addr4 [192; 0; 2; 1]) 51820) [0; 0; 0]) [] ∅ e)) /\ junk (config e) = mkJunk 4 40 70 /\
    Forall2 (has_peer example_W e) (en_peers example_endpoint) [p] /\ Lookup (Some (allowedips e)) (AllowedIPs.Addr4 [10; 1; 2; 3]) = Some (Some p).
Proof.
  edestruct (start_configures_device toyC example_W None no_draws (fun _ _ => None) (fun _ _ => []) (fun _ _ => Masque.err) (fun _ => false) (fun _ _ => true)
    example_options 0%nat example_endpoint 0%nat (repeat 1 32) 0 false) as (x & [F1 F2 F3 F4 (k & n & F5)] & H).
  - vm_compute. reflexivity.
  - vm_compute. reflexivity.
  - reflexivity.
  - repeat (apply list.Forall_cons; split; [unfold is_u; cbn; lia|]). constructor.
  - unfold is_u. cbn. lia.
  - split.
    + apply Forall_singleton. by_eval.
    + apply Forall_singleton. split; [|split; [unfold is_u; cbn; lia|]].
      * apply Forall_singleton. split; [split; [done | by_eval] | cbn; lia].
      * split; [intros _; split; [done | by_eval] | unfold is_u; cbn; lia].
    + apply NoDup_singleton.
    + by_eval.
    + vm_compute. discriminate.
  - intros i. reflexivity.
  - pose proof many. assert (length (start_text example_endpoint) <= 500)%nat by (vm_compute; lia). lia.
  - destruct x as [h1 h2 h3 h4 i1 i2]. cbn [c_h1 c_h2 c_h3 c_h4 c_i1 c_i2] in *. vm_compute in F1, F2, F3, F4, F5.
    injection F1 as <-. injection F2 as <-. injection F3 as <-. injection F4 as <-. injection F5 as <- <- _.
    match type of H with match ?t with _ => _ end => let v := eval vm_compute in t in change t with v in H end.
    destruct H as (e & ids & Hs & Hc & _ & _ & Hp & Hr). destruct ids as [|p [|]]; [by inversion Hp | | by apply Forall2_length in Hp].
    exists e, p. split; [exact Hs|]. split; [by rewrite Hc|]. split; [exact Hp|]. rewrite Hr; [vm_compute; reflexivity|]. split; [done | by_eval].
Defined.

End Example.

End EndpointPeers.
