(* ===== verification/Rules.v ===== *)
(** * Routing and DNS rules

    Models route/rule: the rule items, the matching of default and logical rules with
    rule sets (rule_abstract.go, rule_item_rule_set.go, match_state.go) and the two
    passes of DNS rules with an address limit (rule_dns.go).  Matching changes fields
    of the connection's metadata (adapter/inbound.go), which are passed along. *)

From S2P Require Import Prelude Bits Bytes GoStrings AllowedIPs GoNetip.

Module Rules.

Import AllowedIPs.

Local Open Scope Z_scope.

Abbreviation text := (list Z).

(** ** Metadata *)

(** [M.Socksaddr]: an address or a name, and a port. *)
Record Socksaddr := mkSocksaddr { Addr : addr; Fqdn : text; Port : Z }.

(** Records of a DNS message, as far as addresses are concerned. *)
Inductive dnsRecord :=
| RecordA (ip : text)
| RecordAAAA (ip : text)
| RecordHTTPS (hints : list (bool * text))
| RecordOther.

(** [dns.Msg] of the miekg/dns library. *)
Record dnsMsg := mkMsg { Rcode : Z; Answer : list dnsRecord; Ns : list dnsRecord; Extra : list dnsRecord }.

Record ConnectionOwner := mkOwner { UserId : Z; UserName : text; ProcessPath : text; AndroidPackageNames : list text }.

(** The fields of [InboundContext] that describe the connection. *)
Record Facts := mkFacts {
  Inbound : text;
  IPVersion : Z;
  Network : text;
  Source : Socksaddr;
  Destination : Socksaddr;
  User : text;
  Outbound : text;
  Protocol : text;
  Domain : text;
  Client : text;
  DestinationAddresses : list addr;
  DNSResponse : option dnsMsg;
  NamedDNSResponses : text -> option dnsMsg;
  DestinationAddressMatchFromResponse : bool;
  ProcessInfo : option ConnectionOwner;
  SourceHostname : text;
  QueryType : Z;
  PreMatch : bool
}.

(** [InboundContext] with the fields that matching changes. *)
Record InboundContext := mkContext {
  facts : Facts;
  IPCIDRMatchSource : bool;
  IPCIDRAcceptEmpty : bool;
  DeferredIPCIDRMatchGroups : Z;
  IgnoreDestinationIPCIDRMatch : bool
}.

Definition set_deferred (m : InboundContext) (groups : Z) : InboundContext :=
  mkContext (facts m) (IPCIDRMatchSource m) (IPCIDRAcceptEmpty m) groups (IgnoreDestinationIPCIDRMatch m).
Definition set_flags (m : InboundContext) (source empty : bool) : InboundContext :=
  mkContext (facts m) source empty (DeferredIPCIDRMatchGroups m) (IgnoreDestinationIPCIDRMatch m).
Definition set_facts (m : InboundContext) (f : Facts) : InboundContext :=
  mkContext f (IPCIDRMatchSource m) (IPCIDRAcceptEmpty m) (DeferredIPCIDRMatchGroups m) (IgnoreDestinationIPCIDRMatch m).
Definition set_ignore (m : InboundContext) (ignore : bool) : InboundContext :=
  mkContext (facts m) (IPCIDRMatchSource m) (IPCIDRAcceptEmpty m) (DeferredIPCIDRMatchGroups m) ignore.

(** The four flags of single groups, which nothing reads, are left out. *)
Definition ResetRuleMatchCache (m : InboundContext) : InboundContext := set_deferred m 0.
Definition ResetRuleCache (m : InboundContext) : InboundContext := ResetRuleMatchCache (set_flags m false false).

(** ** Items *)

(** Functions of libraries: what an address of the sing library is, its test for
    public addresses and its addresses of slices; and the lower case of text that is
    not ASCII, which needs the tables of Unicode. *)
Record Library := mkLibrary {
  IsIP : Socksaddr -> bool;
  IsIPv6 : Socksaddr -> bool;
  IsPublicAddr : addr -> bool;
  AddrFromIP : text -> addr;
  ToLowerUnicode : text -> text
}.

(** [netip.Addr.Unmap] *)
Definition Unmap (a : addr) : addr :=
  match a with Addr6 ip => if GoNetip.Is4In6 ip then Addr4 (drop 12 ip) else a | _ => a end.

(** An outbound with preferred routes; of the metadata, the answers read only
    [PreMatch] (protocol/bridge). *)
Record Preferring := mkPreferring {
  PreferredDomain : bool -> text -> bool;
  PreferredAddress : bool -> addr -> bool
}.

(** Matchers of domains, sets of addresses and regular expressions are their
    predicates.  An item that asks the network manager or the Clash mode, or reads
    metadata left out here, is what it answers for the connection. *)
Inductive RuleItem :=
| DomainItem (matcher : text -> bool)
| DomainKeywordItem (keywords : list text)
| DomainRegexItem (matchers : list (text -> bool))
| AdGuardDomainItem (matcher : text -> bool)
| IPCIDRItem (ipSet : addr -> bool) (isSource : bool)
| IPIsPrivateItem (isSource : bool)
| IPAcceptAnyItem
| PortItem (isSource : bool) (ports : list Z)
| PortRangeItem (isSource : bool) (portRangeList : list (Z * Z))
| NetworkItem (networks : list text)
| IPVersionItem (isIPv6 : bool)
| InboundItem (inbounds : list text)
| ProtocolItem (protocols : list text)
| ClientItem (clients : list text)
| UserItem (users : list text)
| UserIdItem (userIds : list Z)
| AuthUserItem (users : list text)
| OutboundItem (outbounds : list text)
| ProcessPathItem (processes : list text)
| PackageNameItem (packageNames : list text)
| QueryTypeItem (typeList : list Z)
| SourceHostnameItem (hostnames : list text)
| DNSResponseRCodeItem (rcode : Z)
| PreferredByItem (outbounds : list Preferring)
| EnvironmentItem (answer : bool).

(** [strings.Contains] *)
Fixpoint Contains (s substr : text) : bool :=
  HasPrefix s substr || match s with [] => false | _ :: s' => Contains s' substr end.

Definition in_list {A} `{EqDecision A} (x : A) (l : list A) : bool := bool_decide (x ∈ l).

Section Match.

Context (lib : Library) (IsAndroid : bool).

(** The addresses of one record; [valid] drops what is not an address. *)
Definition valid (a : addr) : bool := match a with AddrInvalid => false | _ => true end.

Definition record_addresses (r : dnsRecord) : list addr :=
  match r with
  | RecordA ip | RecordAAAA ip => List.filter valid [AddrFromIP lib ip]
  | RecordHTTPS hints =>
      List.filter valid (map (fun h => if fst h : bool then Unmap (AddrFromIP lib (snd h)) else AddrFromIP lib (snd h)) hints)
  | RecordOther => []
  end.

Definition DNSResponseAddresses (response : option dnsMsg) : list addr :=
  match response with
  | None => []
  | Some msg => if negb (Rcode msg =? 0) then [] else flat_map record_addresses (Answer msg)
  end.

Definition domain_host (f : Facts) : text := if bool_decide (Domain f = []) then Fqdn (Destination f) else Domain f.

(** [strings.ToLower] *)
Definition lower (host : text) : text := if forallb (fun c => c <? 128) host then ToLower host else ToLowerUnicode lib host.

(** Items on names look at the host in lower case. *)
Definition on_host (f : Facts) (p : text -> bool) : bool :=
  let host := domain_host f in negb (bool_decide (host = [])) && p (lower host).

Definition DomainItem_Match (matcher : text -> bool) (f : Facts) : bool := on_host f matcher.
Definition AdGuardDomainItem_Match (matcher : text -> bool) (f : Facts) : bool := on_host f matcher.
Definition DomainKeywordItem_Match (keywords : list text) (f : Facts) : bool := on_host f (fun host => existsb (Contains host) keywords).
Definition DomainRegexItem_Match (matchers : list (text -> bool)) (f : Facts) : bool :=
  on_host f (fun host => existsb (fun matcher => matcher host) matchers).

Definition IPCIDRItem_Match (ipSet : addr -> bool) (isSource : bool) (f : Facts) (matchSource acceptEmpty : bool) : bool :=
  if isSource || matchSource then ipSet (Addr (Source f))
  else if DestinationAddressMatchFromResponse f then
    let addresses := DNSResponseAddresses (DNSResponse f) in
    if bool_decide (addresses = []) then acceptEmpty else existsb ipSet addresses
  else if IsIP lib (Destination f) then ipSet (Addr (Destination f))
  else if negb (bool_decide (DestinationAddresses f = [])) then existsb ipSet (DestinationAddresses f)
  else acceptEmpty.

Definition IPIsPrivateItem_Match (isSource : bool) (f : Facts) : bool :=
  if isSource then negb (IsPublicAddr lib (Addr (Source f)))
  else if DestinationAddressMatchFromResponse f then existsb (fun a => negb (IsPublicAddr lib a)) (DNSResponseAddresses (DNSResponse f))
  else if valid (Addr (Destination f)) then negb (IsPublicAddr lib (Addr (Destination f)))
  else existsb (fun a => negb (IsPublicAddr lib a)) (DestinationAddresses f).

Definition IPAcceptAnyItem_Match (f : Facts) : bool :=
  if DestinationAddressMatchFromResponse f then negb (bool_decide (DNSResponseAddresses (DNSResponse f) = []))
  else negb (bool_decide (DestinationAddresses f = [])).

Definition PortItem_Match (isSource : bool) (ports : list Z) (f : Facts) : bool :=
  in_list (Port (if isSource then Source f else Destination f)) ports.

Definition PortRangeItem_Match (isSource : bool) (portRangeList : list (Z * Z)) (f : Facts) : bool :=
  let port := Port (if isSource then Source f else Destination f) in
  existsb (fun r => (fst r <=? port) && (port <=? snd r)) portRangeList.

Definition IPVersionItem_Match (isIPv6 : bool) (f : Facts) : bool :=
  (negb (IPVersion f =? 0) && Bool.eqb (IPVersion f =? 6) isIPv6) ||
  (IsIP lib (Destination f) && Bool.eqb (IsIPv6 lib (Destination f)) isIPv6).

(** Items on the process that owns the connection. *)
Definition on_process (f : Facts) (p : ConnectionOwner -> bool) : bool := match ProcessInfo f with None => false | Some owner => p owner end.

Definition UserItem_Match (users : list text) (f : Facts) : bool :=
  on_process f (fun p => negb (bool_decide (UserName p = [])) && in_list (UserName p) users).
Definition UserIdItem_Match (userIds : list Z) (f : Facts) : bool :=
  on_process f (fun p => negb (UserId p =? -1) && in_list (UserId p) userIds).
Definition ProcessPathItem_Match (processes : list text) (f : Facts) : bool :=
  on_process f (fun p => (negb (bool_decide (ProcessPath p = [])) && in_list (ProcessPath p) processes) ||
    (IsAndroid && existsb (fun name => in_list name processes) (AndroidPackageNames p))).
Definition PackageNameItem_Match (packageNames : list text) (f : Facts) : bool :=
  on_process f (fun p => existsb (fun name => in_list name packageNames) (AndroidPackageNames p)).

Definition OutboundItem_Match (outbounds : list text) (f : Facts) : bool :=
  if in_list (str "any") outbounds then negb (bool_decide (Outbound f = [])) else in_list (Outbound f) outbounds.

Definition QueryTypeItem_Match (typeList : list Z) (f : Facts) : bool := negb (QueryType f =? 0) && in_list (QueryType f) typeList.
Definition SourceHostnameItem_Match (hostnames : list text) (f : Facts) : bool :=
  negb (bool_decide (SourceHostname f = [])) && in_list (SourceHostname f) hostnames.
Definition DNSResponseRCodeItem_Match (rcode : Z) (f : Facts) : bool :=
  match DNSResponse f with None => false | Some msg => Rcode msg =? rcode end.

Definition PreferredByItem_Match (outbounds : list Preferring) (f : Facts) : bool :=
  let domainHost := if bool_decide (Domain f = []) then Fqdn (Destination f) else Domain f in
  (negb (bool_decide (domainHost = [])) && existsb (fun o => PreferredDomain o (PreMatch f) domainHost) outbounds) ||
  (IsIP lib (Destination f) && existsb (fun o => PreferredAddress o (PreMatch f) (Addr (Destination f))) outbounds) ||
  existsb (fun address => existsb (fun o => PreferredAddress o (PreMatch f) address) outbounds) (DestinationAddresses f).

(** [Match] of the interface [RuleItem]; items on address sets read two flags of the
    metadata. *)
Definition item_match (item : RuleItem) (f : Facts) (matchSource acceptEmpty : bool) : bool :=
  match item with
  | DomainItem matcher => DomainItem_Match matcher f
  | AdGuardDomainItem matcher => AdGuardDomainItem_Match matcher f
  | DomainKeywordItem keywords => DomainKeywordItem_Match keywords f
  | DomainRegexItem matchers => DomainRegexItem_Match matchers f
  | IPCIDRItem ipSet isSource => IPCIDRItem_Match ipSet isSource f matchSource acceptEmpty
  | IPIsPrivateItem isSource => IPIsPrivateItem_Match isSource f
  | IPAcceptAnyItem => IPAcceptAnyItem_Match f
  | PortItem isSource ports => PortItem_Match isSource ports f
  | PortRangeItem isSource ranges => PortRangeItem_Match isSource ranges f
  | NetworkItem networks => in_list (Network f) networks
  | IPVersionItem isIPv6 => IPVersionItem_Match isIPv6 f
  | InboundItem inbounds => in_list (Inbound f) inbounds
  | ProtocolItem protocols => in_list (Protocol f) protocols
  | ClientItem clients => in_list (Client f) clients
  | UserItem users => UserItem_Match users f
  | UserIdItem userIds => UserIdItem_Match userIds f
  | AuthUserItem users => in_list (User f) users
  | OutboundItem outbounds => OutboundItem_Match outbounds f
  | ProcessPathItem processes => ProcessPathItem_Match processes f
  | PackageNameItem packageNames => PackageNameItem_Match packageNames f
  | QueryTypeItem typeList => QueryTypeItem_Match typeList f
  | SourceHostnameItem hostnames => SourceHostnameItem_Match hostnames f
  | DNSResponseRCodeItem rcode => DNSResponseRCodeItem_Match rcode f
  | PreferredByItem outbounds => PreferredByItem_Match outbounds f
  | EnvironmentItem answer => answer
  end.

Definition Item_Match (item : RuleItem) (m : InboundContext) : bool := item_match item (facts m) (IPCIDRMatchSource m) (IPCIDRAcceptEmpty m).

Definition matchAnyItem (items : list RuleItem) (m : InboundContext) : bool := existsb (fun it => Item_Match it m) items.

End Match.

(** ** Groups *)

Definition ruleMatchSourceAddress : Z := 1.
Definition ruleMatchSourcePort : Z := 2.
Definition ruleMatchDestinationAddress : Z := 4.
Definition ruleMatchDestinationPort : Z := 8.

Record ruleGroupMatch := mkGroups { required : Z; satisfied : Z }.

(** Go's [x &^ y] is [Z.ldiff]. *)
Definition groups_done (g : ruleGroupMatch) : bool := Z.ldiff (required g) (satisfied g) =? 0.

Definition mergeWith (g other : ruleGroupMatch) : ruleGroupMatch :=
  mkGroups (Z.lor (required g) (required other)) (Z.lor (satisfied g) (satisfied other)).

Definition has (s target : Z) : bool := negb (Z.land s target =? 0).

Definition need (g : ruleGroupMatch) (group : Z) (holds : bool) : ruleGroupMatch :=
  mkGroups (Z.lor (required g) group) (if holds then Z.lor (satisfied g) group else satisfied g).

(** ** Rules *)

(** The items of [abstractDefaultRule]; [allItems] are all of them with the rule set
    item. *)
Record Items := mkItems {
  items : list RuleItem;
  sourceAddressItems : list RuleItem;
  sourcePortItems : list RuleItem;
  destinationAddressItems : list RuleItem;
  destinationIPCIDRItems : list RuleItem;
  destinationPortItems : list RuleItem
}.

(** Route, DNS and headless rules: a default rule with its rule set item (the rules of
    each set and the two flags) and, for a DNS rule that matches a response, the tag
    of the response; or a logical rule. *)
Inductive rule :=
| Default (its : Items) (ruleSetItem : option (list (list rule) * bool * bool)) (invert : bool) (matchResponse : option text)
| Logical (isAnd : bool) (rules : list rule) (invert : bool).

Definition no_items (its : Items) : bool :=
  bool_decide (items its = []) && bool_decide (sourceAddressItems its = []) && bool_decide (sourcePortItems its = []) &&
  bool_decide (destinationAddressItems its = []) && bool_decide (destinationIPCIDRItems its = []) &&
  bool_decide (destinationPortItems its = []).

(** [mergeableRuleIn] *)
Definition mergeableRuleIn (rules : list rule) : option Items :=
  match rules with
  | [Default its None false None] => Some its
  | _ => None
  end.

(** [snapshotRuleMatch] and [restore] *)
Definition restore (snapshot m : InboundContext) : InboundContext :=
  set_deferred (set_flags m (IPCIDRMatchSource snapshot) (IPCIDRAcceptEmpty snapshot)) (DeferredIPCIDRMatchGroups snapshot).

Definition add_deferred (m : InboundContext) (groups : Z) : InboundContext := set_deferred m (Z.lor (DeferredIPCIDRMatchGroups m) groups).
Definition drop_deferred (m : InboundContext) (groups : Z) : InboundContext := set_deferred m (Z.ldiff (DeferredIPCIDRMatchGroups m) groups).

Definition deferred_none (m : InboundContext) : bool := DeferredIPCIDRMatchGroups m =? 0.

(** The end of a loop over alternatives. *)
Definition conclude (snapshot m : InboundContext) (matched : bool) (deferredGroups : Z) : bool * InboundContext :=
  let m := restore snapshot m in
  (matched, if matched then add_deferred m deferredGroups else m).

Section Rule.

Context (lib : Library) (IsAndroid : bool).

Abbreviation Item_Match := (Item_Match lib IsAndroid).
Abbreviation matchAnyItem := (matchAnyItem lib IsAndroid).

Definition destinationIPCIDRMatchesSource (its : Items) (m : InboundContext) : bool :=
  IPCIDRMatchSource m && negb (bool_decide (destinationIPCIDRItems its = [])).

Definition destinationIPCIDRMatchesDestination (its : Items) (m : InboundContext) : bool :=
  negb (IgnoreDestinationIPCIDRMatch m) && negb (IPCIDRMatchSource m) && negb (bool_decide (destinationIPCIDRItems its = [])).

Definition evaluateGroups (its : Items) (m : InboundContext) : ruleGroupMatch * InboundContext :=
  let group (l : list RuleItem) bit g := if bool_decide (l = []) then g else need g bit (matchAnyItem l m) in
  let cidr bit g := need g bit (negb (has (satisfied g) bit) && matchAnyItem (destinationIPCIDRItems its) m) in
  let g := group (sourceAddressItems its) ruleMatchSourceAddress (mkGroups 0 0) in
  let g := if destinationIPCIDRMatchesSource its m then cidr ruleMatchSourceAddress g else g in
  let g := group (sourcePortItems its) ruleMatchSourcePort g in
  let g := group (destinationAddressItems its) ruleMatchDestinationAddress g in
  let g := if destinationIPCIDRMatchesDestination its m then cidr ruleMatchDestinationAddress g else g in
  let g := group (destinationPortItems its) ruleMatchDestinationPort g in
  let m :=
    if IgnoreDestinationIPCIDRMatch m && negb (IPCIDRMatchSource m) && negb (bool_decide (destinationIPCIDRItems its = [])) &&
       bool_decide (destinationAddressItems its = [])
    then add_deferred m ruleMatchDestinationAddress else m in
  (g, m).

(** The groups with true, or false when an item outside the groups does not match. *)
Definition evaluateForMerge (its : Items) (m : InboundContext) : ruleGroupMatch * bool * InboundContext :=
  let '(g, m) := evaluateGroups its m in
  if forallb (fun it => Item_Match it m) (items its) then (g, true, m) else (mkGroups 0 0, false, m).

Definition prepareNestedMatch (matchSource acceptEmpty : bool) (m : InboundContext) : InboundContext :=
  set_flags (ResetRuleMatchCache m) matchSource acceptEmpty.

Section Loops.

(** [Match] of a rule and of a rule set. *)
Context {R : Type} (Match : R -> InboundContext -> bool * InboundContext).

(** The loop of [matchAnyHeadlessRule]. *)
Fixpoint any_loop (snapshot : InboundContext) (rules : list R) (m : InboundContext) (matched : bool) (deferredGroups : Z)
    : bool * InboundContext :=
  match rules with
  | [] => conclude snapshot m matched deferredGroups
  | r :: rules' =>
      let '(b, m) := Match r (ResetRuleMatchCache m) in
      if b then
        if deferred_none m then (true, restore snapshot m)
        else any_loop snapshot rules' m true (Z.lor deferredGroups (DeferredIPCIDRMatchGroups m))
      else any_loop snapshot rules' m matched deferredGroups
  end.

Definition matchAnyHeadlessRule (rules : list R) (m : InboundContext) : bool * InboundContext := any_loop m rules m false 0.

(** The loops of a logical rule: matched, deferred groups. *)
Fixpoint and_loop (rules : list R) (m : InboundContext) (deferredGroups : Z) : bool * Z * InboundContext :=
  match rules with
  | [] => (true, deferredGroups, m)
  | r :: rules' =>
      let '(b, m) := Match r (ResetRuleCache m) in
      if b : bool then and_loop rules' m (Z.lor deferredGroups (DeferredIPCIDRMatchGroups m)) else (false, 0, m)
  end.

Fixpoint or_loop (rules : list R) (m : InboundContext) (matched : bool) (deferredGroups : Z) : bool * Z * InboundContext :=
  match rules with
  | [] => (matched, deferredGroups, m)
  | r :: rules' =>
      let '(b, m) := Match r (ResetRuleCache m) in
      if b : bool then
        if deferred_none m then (true, 0, m) else or_loop rules' m true (Z.lor deferredGroups (DeferredIPCIDRMatchGroups m))
      else or_loop rules' m matched deferredGroups
  end.

Definition matchLogical (isAnd : bool) (rules : list R) (invert : bool) (m : InboundContext) : bool * InboundContext :=
  let '(matched, deferredGroups, m') := if isAnd then and_loop rules m 0 else or_loop rules m false 0 in
  let '(_, m') := conclude m m' matched deferredGroups in
  (if invert then if matched then negb (deferredGroups =? 0) else true else matched, m').

End Loops.

(** The loop of [matchWithOuterGroups]; [match_set] is [Match] of a rule set. *)
Fixpoint set_loop {R} (mergeable : list R -> option Items) (match_set : list R -> InboundContext -> bool * InboundContext)
    (matchSource acceptEmpty : bool) (outer : ruleGroupMatch) (snapshot : InboundContext) (sets : list (list R)) (m : InboundContext)
    (matched : bool) (deferredGroups : Z) : bool * InboundContext :=
  match sets with
  | [] => conclude snapshot m matched deferredGroups
  | set :: sets' =>
      let continue := set_loop mergeable match_set matchSource acceptEmpty outer snapshot sets' in
      let m := prepareNestedMatch matchSource acceptEmpty m in
      match mergeable set with
      | Some branch =>
          let '(g, ok, m) := evaluateForMerge branch m in
          let merged := mergeWith outer g in
          if ok && groups_done merged then
            let branchDeferred := Z.ldiff (DeferredIPCIDRMatchGroups m) (satisfied merged) in
            if branchDeferred =? 0 then (true, drop_deferred (restore snapshot m) (satisfied merged))
            else continue m true (Z.lor deferredGroups branchDeferred)
          else continue m matched deferredGroups
      | None =>
          if groups_done outer then
            let '(b, m) := match_set set m in
            if b then
              if deferred_none m then (true, restore snapshot m)
              else continue m true (Z.lor deferredGroups (DeferredIPCIDRMatchGroups m))
            else continue m matched deferredGroups
          else continue m matched deferredGroups
      end
  end.

(** [abstractDefaultRule.Match] after [matchInner]. *)
Definition invert_match (invert : bool) (x : bool * InboundContext) : bool * InboundContext :=
  let '(matched, m) := x in
  if invert then if matched then (negb (deferred_none m), m) else (true, set_deferred m 0)
  else (matched, m).

Definition find_response (f : Facts) (tag : text) : option dnsMsg :=
  if bool_decide (tag = []) then DNSResponse f else NamedDNSResponses f tag.

Definition with_response (f : Facts) (response : option dnsMsg) : Facts :=
  mkFacts (Inbound f) (IPVersion f) (Network f) (Source f) (Destination f) (User f) (Outbound f) (Protocol f) (Domain f) (Client f)
    (DestinationAddresses f) response (NamedDNSResponses f) true (ProcessInfo f) (SourceHostname f) (QueryType f) (PreMatch f).

Definition with_PreMatch (f : Facts) (b : bool) : Facts :=
  mkFacts (Inbound f) (IPVersion f) (Network f) (Source f) (Destination f) (User f) (Outbound f) (Protocol f) (Domain f) (Client f)
    (DestinationAddresses f) (DNSResponse f) (NamedDNSResponses f) (DestinationAddressMatchFromResponse f) (ProcessInfo f) (SourceHostname f)
    (QueryType f) b.

(** [matchInner]; [match_sets]: the rule set item with the groups of the rule. *)
Definition matchInner (its : Items) (match_sets : option (ruleGroupMatch -> InboundContext -> bool * InboundContext)) (m : InboundContext)
    : bool * InboundContext :=
  let '(groups, m) := evaluateGroups its m in
  if negb (forallb (fun it => Item_Match it m) (items its)) then (false, m)
  else
    let '(matched, m) := match match_sets with Some f => f groups m | None => (groups_done groups, m) end in
    (matched, if matched then drop_deferred m (satisfied groups) else m).

(** [abstractDefaultRule.Match] *)
Definition matchDefault (its : Items) (match_sets : option (ruleGroupMatch -> InboundContext -> bool * InboundContext)) (invert : bool)
    (m : InboundContext) : bool * InboundContext :=
  if no_items its && match match_sets with None => true | Some _ => false end then (true, m)
  else invert_match invert (matchInner its match_sets m).

(** [Match] of a rule.  A rule that matches a response works on a copy of the
    metadata. *)
Fixpoint Match (r : rule) (m : InboundContext) : bool * InboundContext :=
  match r with
  | Logical isAnd rules invert => matchLogical Match isAnd rules invert m
  | Default its ruleSetItem invert matchResponse =>
      let match_sets :=
        match ruleSetItem with
        | None => None
        | Some (sets, matchSource, acceptEmpty) =>
            Some (fun groups m => set_loop mergeableRuleIn (matchAnyHeadlessRule Match) matchSource acceptEmpty groups m sets m false 0)
        end in
      match matchResponse with
      | None => matchDefault its match_sets invert m
      | Some tag =>
          match find_response (facts m) tag with
          | None => (invert, m)
          | Some response => (fst (matchDefault its match_sets invert (set_facts m (with_response (facts m) (Some response)))), m)
          end
      end
  end.

(** ** DNS rules *)

Definition matches_response (r : rule) : bool := match r with Default _ _ _ (Some _) => true | _ => false end.

(** [ContainsIPCIDRRule] of the metadata of a rule set, computed from its rules. *)
Fixpoint isIPCIDRHeadlessRule (r : rule) : bool :=
  match r with
  | Default its _ _ _ => negb (bool_decide (destinationIPCIDRItems its = []))
  | Logical _ rules _ => existsb isIPCIDRHeadlessRule rules
  end.

Definition ContainsDestinationIPCIDRRule (item : list (list rule) * bool * bool) : bool :=
  let '(sets, ipCidrMatchSource, _) := item in negb ipCidrMatchSource && existsb (existsb isIPCIDRHeadlessRule) sets.

Fixpoint WithAddressLimit (r : rule) : bool :=
  match r with
  | Default its ruleSetItem _ _ =>
      negb (bool_decide (destinationIPCIDRItems its = [])) || match ruleSetItem with None => false | Some item => ContainsDestinationIPCIDRRule item end
  | Logical _ rules _ => existsb WithAddressLimit rules
  end.

(** Matching before the response is known. *)
Definition LegacyPreMatch (r : rule) (m : InboundContext) : bool * InboundContext :=
  if matches_response r then (false, m)
  else let '(b, m) := Match r (set_ignore m true) in (b, set_ignore m false).

(** Matching of a response, on a copy of the metadata; a rule that matches a
    response is matched as any other here. *)
Definition abstract_rule (r : rule) : rule :=
  match r with Default its s invert _ => Default its s invert None | Logical a rs i => Logical a rs i end.

Definition MatchAddressLimit (r : rule) (m : InboundContext) (response : option dnsMsg) : bool :=
  let m := ResetRuleCache m in
  fst (Match (abstract_rule r) (set_facts m (with_response (facts m) response))).

End Rule.

End Rules.
