(* ===== verification/RulesProps.v ===== *)
(** * What a rule matches

    The matching logic of the documentation as a function of the connection alone
    ([documented]), the same with the options of a rule set item lost below a logical
    rule ([sem]), and the proof that [Match], with its groups as bits, its merged rule
    sets and its shared metadata, computes the latter, and the former where the two
    agree. *)

From S2P Require Import Prelude Bits Bytes GoStrings AllowedIPs GoNetip Rules.

Module RulesProps.

Import AllowedIPs Rules.

Local Open Scope Z_scope.

(** ** Induction *)

(** A property of the rules of a rule set item. *)
Definition in_sets (P : rule -> Prop) (s : option (list (list rule) * bool * bool)) : Prop :=
  match s with Some (sets, _, _) => Forall (Forall P) sets | None => True end.

Section Induction.

Context (P : rule -> Prop).
Context (HD : forall its s invert resp, in_sets P s -> P (Default its s invert resp)).
Context (HL : forall isAnd rules invert, Forall P rules -> P (Logical isAnd rules invert)).

Fixpoint rule_nested_ind (r : rule) : P r :=
  let all := fix all (l : list rule) : Forall P l :=
    match l with [] => Forall_nil_2 P | r :: l' => Forall_cons_2 P r l' (rule_nested_ind r) (all l') end in
  let alls := fix alls (l : list (list rule)) : Forall (Forall P) l :=
    match l with [] => Forall_nil_2 _ | s :: l' => Forall_cons_2 _ s l' (all s) (alls l') end in
  match r with
  | Default its s invert resp =>
      HD its s invert resp
        (match s return in_sets P s with Some (sets, _, _) => alls sets | None => I end)
  | Logical isAnd rules invert => HL isAnd rules invert (all rules)
  end.

End Induction.

(** Predicates that agree on the members of a list. *)
Lemma existsb_same {A} (p q : A -> bool) l : (forall x, In x l -> p x = q x) -> existsb p l = existsb q l.
Proof. induction l as [|x l IH]; [done|]. cbn. intros H. rewrite (H x), IH; auto. Qed.

Lemma forallb_same {A} (p q : A -> bool) l : (forall x, In x l -> p x = q x) -> forallb p l = forallb q l.
Proof. induction l as [|x l IH]; [done|]. cbn. intros H. rewrite (H x), IH; auto. Qed.

(** ** Groups as bits *)

Definition bits (a b c d : bool) : Z := Z.b2z a + 2 * Z.b2z b + 4 * Z.b2z c + 8 * Z.b2z d.

Definition imp (p s : bool) : bool := negb p || s.

Ltac bools := intros; repeat match goal with b : bool |- _ => destruct b end; vm_compute; reflexivity.

Lemma need1 a b c d a' b' c' d' h : need (mkGroups (bits a b c d) (bits a' b' c' d')) ruleMatchSourceAddress h = mkGroups (bits true b c d) (bits (a' || h) b' c' d').
Proof. bools. Qed.
Lemma need2 a b c d a' b' c' d' h : need (mkGroups (bits a b c d) (bits a' b' c' d')) ruleMatchSourcePort h = mkGroups (bits a true c d) (bits a' (b' || h) c' d').
Proof. bools. Qed.
Lemma need4 a b c d a' b' c' d' h : need (mkGroups (bits a b c d) (bits a' b' c' d')) ruleMatchDestinationAddress h = mkGroups (bits a b true d) (bits a' b' (c' || h) d').
Proof. bools. Qed.
Lemma need8 a b c d a' b' c' d' h : need (mkGroups (bits a b c d) (bits a' b' c' d')) ruleMatchDestinationPort h = mkGroups (bits a b c true) (bits a' b' c' (d' || h)).
Proof. bools. Qed.
Lemma has1 a b c d : has (bits a b c d) ruleMatchSourceAddress = a.
Proof. bools. Qed.
Lemma has4 a b c d : has (bits a b c d) ruleMatchDestinationAddress = c.
Proof. bools. Qed.

Lemma done_bits a b c d a' b' c' d' :
  groups_done (mkGroups (bits a b c d) (bits a' b' c' d')) = imp a a' && imp b b' && imp c c' && imp d d'.
Proof. bools. Qed.

Lemma lor_bits a b c d a' b' c' d' : Z.lor (bits a b c d) (bits a' b' c' d') = bits (a || a') (b || b') (c || c') (d || d').
Proof. bools. Qed.

(** One group of [evaluateGroups], and the addresses that join a group. *)
Section Steps.

Context {a b c d a' b' c' d' p s : bool} (Hsp : s = true -> p = true).

Let g := mkGroups (bits a b c d) (bits a' b' c' d').

Ltac group_step :=
  unfold g; destruct p; [|destruct s; [discriminate (Hsp eq_refl)|]]; cbn;
  rewrite ?need1, ?need2, ?need4, ?need8, ?has1, ?has4, ?orb_true_r, ?orb_false_r; auto with bool.

Lemma step1 : (if negb p then g else need g ruleMatchSourceAddress s) = mkGroups (bits (a || p) b c d) (bits (a' || s) b' c' d').
Proof using Hsp. group_step. Qed.
Lemma step1' (w : bool) :
  (if w && p then need g ruleMatchSourceAddress (negb (has (satisfied g) ruleMatchSourceAddress) && s) else g) =
  mkGroups (bits (a || (w && p)) b c d) (bits (a' || (w && s)) b' c' d').
Proof using Hsp. destruct w; cbn [andb]; group_step; by destruct a', s. Qed.
Lemma step2 : (if negb p then g else need g ruleMatchSourcePort s) = mkGroups (bits a (b || p) c d) (bits a' (b' || s) c' d').
Proof using Hsp. group_step. Qed.
Lemma step4 : (if negb p then g else need g ruleMatchDestinationAddress s) = mkGroups (bits a b (c || p) d) (bits a' b' (c' || s) d').
Proof using Hsp. group_step. Qed.
Lemma step4' (w : bool) :
  (if w && p then need g ruleMatchDestinationAddress (negb (has (satisfied g) ruleMatchDestinationAddress) && s) else g) =
  mkGroups (bits a b (c || (w && p)) d) (bits a' b' (c' || (w && s)) d').
Proof using Hsp. destruct w; cbn [andb]; group_step; by destruct c', s. Qed.
Lemma step8 : (if negb p then g else need g ruleMatchDestinationPort s) = mkGroups (bits a b c (d || p)) (bits a' b' c' (d' || s)).
Proof using Hsp. group_step. Qed.

End Steps.

(** ** The documented matching logic *)

Section Sem.

Context (lib : Library) (IsAndroid : bool).

Definition any_of (f : Facts) (ms ae : bool) (l : list RuleItem) : bool := existsb (fun it => item_match lib IsAndroid it f ms ae) l.
Definition all_of (f : Facts) (ms ae : bool) (l : list RuleItem) : bool := forallb (fun it => item_match lib IsAndroid it f ms ae) l.

(** The four groups: source address, source port, destination address and
    destination port; addresses of a rule set count as sources where it says so. *)
Definition group_items (its : Items) (ms : bool) : list (list RuleItem) :=
  [sourceAddressItems its ++ (if ms then destinationIPCIDRItems its else []);
   sourcePortItems its;
   destinationAddressItems its ++ (if ms then [] else destinationIPCIDRItems its);
   destinationPortItems its].

(** Every group that is not empty has an item that matches. *)
Definition groups_hold (f : Facts) (its : Items) (ms ae : bool) : bool :=
  forallb (fun l => bool_decide (l = []) || any_of f ms ae l) (group_items its ms).

(** The same for the fields of two rules taken together. *)
Definition merged_hold (f : Facts) (its : Items) (ms ae : bool) (its' : Items) (ms' ae' : bool) : bool :=
  forallb (fun '(l, l') => (bool_decide (l = []) && bool_decide (l' = [])) || any_of f ms ae l || any_of f ms' ae' l')
    (combine (group_items its ms) (group_items its' ms')).

Fixpoint sem (r : rule) (f : Facts) (ms ae : bool) : bool :=
  match r with
  | Logical isAnd rules invert =>
      xorb invert (if isAnd then forallb (fun r => sem r f false false) rules else existsb (fun r => sem r f false false) rules)
  | Default its s invert resp =>
      let default f :=
        if no_items its && match s with None => true | Some _ => false end then true
        else xorb invert (all_of f ms ae (items its) &&
          match s with
          | None => groups_hold f its ms ae
          | Some (sets, ms', ae') =>
              existsb (fun set =>
                match mergeableRuleIn set with
                | Some branch => all_of f ms' ae' (items branch) && merged_hold f its ms ae branch ms' ae'
                | None => groups_hold f its ms ae && existsb (fun r => sem r f ms' ae') set
                end) sets
          end) in
      match resp with
      | None => default f
      | Some tag => match find_response f tag with None => invert | Some response => default (with_response f (Some response)) end
      end
  end.

(** The documented logic: the two options of a rule-set item hold for all rules of
    its rule sets.  It differs from [sem] in one place only: [sem], like the code,
    drops them at a logical rule. *)
Fixpoint documented (r : rule) (f : Facts) (ms ae : bool) : bool :=
  match r with
  | Logical isAnd rules invert =>
      xorb invert (if isAnd then forallb (fun r => documented r f ms ae) rules else existsb (fun r => documented r f ms ae) rules)
  | Default its s invert resp =>
      let default f :=
        if no_items its && match s with None => true | Some _ => false end then true
        else xorb invert (all_of f ms ae (items its) &&
          match s with
          | None => groups_hold f its ms ae
          | Some (sets, ms', ae') =>
              existsb (fun set =>
                match mergeableRuleIn set with
                | Some branch => all_of f ms' ae' (items branch) && merged_hold f its ms ae branch ms' ae'
                | None => groups_hold f its ms ae && existsb (fun r => documented r f ms' ae') set
                end) sets
          end) in
      match resp with
      | None => default f
      | Some tag => match find_response f tag with None => invert | Some response => default (with_response f (Some response)) end
      end
  end.

(** ** Evaluation of the groups *)

Definition present (l : list RuleItem) : bool := negb (bool_decide (l = [])).

Lemma absent (l : list RuleItem) : bool_decide (l = []) = negb (present l).
Proof. unfold present. by rewrite negb_involutive. Qed.

Lemma any_absent f ms ae l : any_of f ms ae l = true -> present l = true.
Proof. destruct l; [done|]. intros _. unfold present. by rewrite bool_decide_eq_false_2. Qed.

(** The bits of a rule, where [cidr] says whether addresses of the destination are
    taken into account. *)
Definition required_bits (its : Items) (ms cidr : bool) : Z :=
  bits (present (sourceAddressItems its) || (ms && present (destinationIPCIDRItems its))) (present (sourcePortItems its))
    (present (destinationAddressItems its) || (cidr && present (destinationIPCIDRItems its))) (present (destinationPortItems its)).

Definition satisfied_bits (f : Facts) (its : Items) (ms ae cidr : bool) : Z :=
  bits (any_of f ms ae (sourceAddressItems its) || (ms && any_of f ms ae (destinationIPCIDRItems its)))
    (any_of f ms ae (sourcePortItems its))
    (any_of f ms ae (destinationAddressItems its) || (cidr && any_of f ms ae (destinationIPCIDRItems its)))
    (any_of f ms ae (destinationPortItems its)).

Definition defers_own (its : Items) (ms : bool) : bool :=
  negb ms && present (destinationIPCIDRItems its) && negb (present (destinationAddressItems its)).

Lemma evaluateGroups_bits its m :
  let ms := IPCIDRMatchSource m in
  let cidr := negb (IgnoreDestinationIPCIDRMatch m) && negb ms in
  evaluateGroups lib IsAndroid its m =
  (mkGroups (required_bits its ms cidr) (satisfied_bits (facts m) its ms (IPCIDRAcceptEmpty m) cidr),
   if IgnoreDestinationIPCIDRMatch m && defers_own its ms then add_deferred m ruleMatchDestinationAddress else m).
Proof.
  destruct m as [f ms ae d ig], its as [it src sp dst ci dp]. cbn.
  unfold evaluateGroups, destinationIPCIDRMatchesSource, destinationIPCIDRMatchesDestination, required_bits, satisfied_bits, defers_own, matchAnyItem, Item_Match.
  cbn. fold (any_of f ms ae src) (any_of f ms ae sp) (any_of f ms ae dst) (any_of f ms ae ci) (any_of f ms ae dp).
  fold (present ci). rewrite !absent. change (mkGroups 0 0) with (mkGroups (bits false false false false) (bits false false false false)).
  pose proof (any_absent f ms ae) as H.
  rewrite (step1 (H src)), (step1' (H ci) ms), (step2 (H sp)), (step4 (H dst)), (step4' (H ci) (negb ig && negb ms)), (step8 (H dp)).
  cbn [orb]. by rewrite !andb_assoc.
Qed.

(** ** Before and after the response *)

(** Metadata of a connection before ([f]) and after ([f']) a response is known agree
    on a rule: its fields give the same answers, but for addresses of the destination
    when they are ignored; those do not share the group of addresses with names. *)
Record agree (ig : bool) (f f' : Facts) (its : Items) (ms ae : bool) : Prop := mkAgree {
  agree_items : all_of f ms ae (items its) = all_of f' ms ae (items its);
  agree_source : any_of f ms ae (sourceAddressItems its) = any_of f' ms ae (sourceAddressItems its);
  agree_source_port : any_of f ms ae (sourcePortItems its) = any_of f' ms ae (sourcePortItems its);
  agree_destination : any_of f ms ae (destinationAddressItems its) = any_of f' ms ae (destinationAddressItems its);
  agree_port : any_of f ms ae (destinationPortItems its) = any_of f' ms ae (destinationPortItems its);
  agree_cidr : ms = true \/ ig = false -> any_of f ms ae (destinationIPCIDRItems its) = any_of f' ms ae (destinationIPCIDRItems its);
  agree_apart : ig = true -> ms = false -> present (destinationAddressItems its) = true -> present (destinationIPCIDRItems its) = false
}.

(** The groups a rule finds. *)
Definition found (ig : bool) (f : Facts) (its : Items) (ms ae : bool) : ruleGroupMatch :=
  mkGroups (required_bits its ms (negb ig && negb ms)) (satisfied_bits f its ms ae (negb ig && negb ms)).

Lemma group_items_present l l' : bool_decide (l ++ l' = []) = negb (present l || present l').
Proof. unfold present. destruct l; cbn; [by destruct l' | done]. Qed.

Lemma any_of_app f ms ae l l' : any_of f ms ae (l ++ l') = any_of f ms ae l || any_of f ms ae l'.
Proof. apply existsb_app. Qed.

(** The documented logic in terms of the groups found. *)
Lemma groups_hold_found f its ms ae : groups_hold f its ms ae = groups_done (found false f its ms ae).
Proof.
  unfold found, required_bits, satisfied_bits, groups_hold, group_items, imp. rewrite done_bits. cbn [forallb].
  rewrite !group_items_present, !any_of_app, !absent, andb_true_r, !andb_assoc. by destruct ms.
Qed.

Lemma merged_hold_found f its ms ae its' ms' ae' :
  merged_hold f its ms ae its' ms' ae' = groups_done (mergeWith (found false f its ms ae) (found false f its' ms' ae')).
Proof.
  unfold mergeWith, found, required_bits, satisfied_bits, merged_hold, group_items. cbn [required satisfied]. rewrite !lor_bits, done_bits.
  cbn [forallb combine]. rewrite !group_items_present, !any_of_app, !absent, andb_true_r, !andb_assoc, <- !negb_orb, <- !orb_assoc.
  by destruct ms, ms'.
Qed.

(** Each atom is decided where it occurs; hypotheses that apply are used first. *)
Ltac decide_atom :=
  match goal with
  | H : context [present ?l] |- _ => destruct (present l)
  | H : context [any_of ?f ?ms ?ae ?l] |- _ => destruct (any_of f ms ae l)
  | |- context [present ?l] => destruct (present l)
  | |- context [any_of ?f ?ms ?ae ?l] => destruct (any_of f ms ae l)
  end.

Ltac by_groups :=
  repeat (cbn in *; repeat match goal with H : ?x = ?x -> _ |- _ => specialize (H eq_refl) end; try discriminate; try reflexivity; decide_atom).

Lemma agree_own ig f f' its ms ae :
  agree ig f f' its ms ae ->
  (groups_hold f' its ms ae = true -> groups_done (found ig f its ms ae) = true) /\
  (groups_done (found ig f its ms ae) = true -> ig && defers_own its ms = false -> groups_hold f' its ms ae = true).
Proof.
  intros [_ H1 H2 H3 H4 H5 H6]. rewrite groups_hold_found. unfold found, required_bits, satisfied_bits, defers_own.
  rewrite !done_bits, <- H1, <- H2, <- H3, <- H4, !andb_true_iff. clear H1 H2 H3 H4.
  revert H5 H6. pose proof (any_absent f' ms ae (destinationIPCIDRItems its)) as A. revert A.
  destruct ms, ig; cbn [negb andb]; intros A H5 H6; rewrite <- ?H5 by auto; split; intros; destruct_and?; split_and!; auto; revert H6;
    repeat match goal with H : _ = _ |- _ => match type of H with context [destinationAddressItems] => revert H end end; revert A; clear; unfold imp; intros; by_groups.
Qed.

Lemma agree_merged ig f f' its ms ae br ms' ae' :
  agree ig f f' its ms ae -> agree ig f f' br ms' ae' ->
  (ig = true -> present (destinationAddressItems its) = true -> ms' = false -> present (destinationIPCIDRItems br) = false) ->
  (ig = true -> defers_own its ms = true -> present (destinationAddressItems br) = false) ->
  let g := mergeWith (found ig f its ms ae) (found ig f br ms' ae') in
  (merged_hold f' its ms ae br ms' ae' = true -> groups_done g = true) /\
  (groups_done g = true -> ig && defers_own its ms = false -> ig && defers_own br ms' = false -> merged_hold f' its ms ae br ms' ae' = true).
Proof.
  intros [_ H1 H2 H3 H4 H5 H6] [_ H1' H2' H3' H4' H5' H6'] S S'. rewrite merged_hold_found. unfold mergeWith, found, required_bits, satisfied_bits, defers_own in *.
  cbn [required satisfied]. rewrite !lor_bits, !done_bits, <- H1, <- H2, <- H3, <- H4, <- H1', <- H2', <- H3', <- H4', !andb_true_iff.
  clear H1 H2 H3 H4 H1' H2' H3' H4'.
  revert H5 H6 H5' H6' S S'. pose proof (any_absent f' ms ae (destinationIPCIDRItems its)) as A. pose proof (any_absent f' ms' ae' (destinationIPCIDRItems br)) as A'. revert A A'.
  destruct ms, ms', ig; cbn [negb andb]; intros A A' H5 H6 H5' H6' S S'; rewrite <- ?H5, <- ?H5' by auto; split; intros; destruct_and?; split_and!; auto; revert H6 H6' S S';
    repeat match goal with H : _ = _ |- _ => match type of H with context [destinationAddressItems] => revert H end end; revert A A'; clear; unfold imp; intros; by_groups.
Qed.


(** ** Loops over alternatives *)

(** The only group that is ever deferred is the destination address. *)
Definition dz (d : bool) : Z := if d then ruleMatchDestinationAddress else 0.

(** What matching says of the final answer [full]: it holds of everything that
    matches in the end, and of nothing else unless the answer is deferred; only rules
    that may defer do so, and only when addresses are ignored. *)
Record sound (ig full defer : bool) (base : InboundContext) (x : bool * InboundContext) : Prop := mkSound {
  sound_eq : exists d, x = (fst x, set_deferred base (dz d)) /\
    (full = true -> fst x = true) /\ (fst x = true -> d = false -> full = true) /\
    (d = true -> ig = true /\ (fst x = true -> defer = true))
}.

(** Conclusions about answers of loops: every answer is decided. *)
Ltac answers :=
  repeat (cbn [orb andb negb] in *; match goal with
  | |- context [orb ?a ?b] => destruct a
  | |- context [andb ?a ?b] => destruct a
  | H : context [orb ?a ?b] |- _ => lazymatch a with context [fun _ => _] => fail | _ => destruct a end
  | H : context [andb ?a ?b] |- _ => lazymatch a with context [fun _ => _] => fail | _ => destruct a end
  end); intuition (congruence || auto).

Lemma dz_lor d d' : Z.lor (dz d) (dz d') = dz (d || d').
Proof. by destruct d, d'. Qed.
Lemma dz_none d : (dz d =? 0) = negb d.
Proof. by destruct d. Qed.
Lemma deferred_none_dz m d : deferred_none (set_deferred m (dz d)) = negb d.
Proof. apply dz_none. Qed.

Lemma add_restore base m z : ResetRuleMatchCache m = base -> add_deferred (restore base m) z = set_deferred base z.
Proof. by intros <-. Qed.
Lemma restore_idle base m z : ResetRuleMatchCache m = base -> restore base (set_deferred base z) = set_deferred base 0.
Proof. by intros <-. Qed.
Lemma deferred_set m z : DeferredIPCIDRMatchGroups (set_deferred m z) = z.
Proof. done. Qed.
Lemma conclude_dz snap m x : conclude snap m x (dz x) = (x, add_deferred (restore snap m) (dz x)).
Proof. unfold conclude. destruct x; [done|]. unfold add_deferred. cbn. rewrite Z.lor_0_r. done. Qed.

Section Loops.

Context (ig : bool) (full defer : rule -> bool).

Abbreviation Match := (Match lib IsAndroid).
Abbreviation sound_at base := (fun r => sound ig (full r) (defer r) base (Match r base)).

Lemma any_loop_sound base rules m x :
  Forall (sound_at base) rules -> ResetRuleMatchCache m = base ->
  exists b d, any_loop Match base rules m x (dz x) = (b, set_deferred base (dz d)) /\
    (x || existsb full rules = true -> b = true) /\ (b = true -> d = false -> existsb full rules = true) /\
    (d = true -> b = true /\ (x = true \/ (ig = true /\ existsb defer rules = true))).
Proof.
  intros HF. revert m x. induction HF as [|r rules [(d & E & H1 & H2 & H3)] HF IH]; intros m x Hm.
  - exists x, x. cbn. rewrite conclude_dz, orb_false_r, (add_restore base m) by done. split; [done|]; try clear IH; answers.
  - assert (Hm' : ResetRuleMatchCache (set_deferred base (dz d)) = base) by (by rewrite <- Hm).
    cbn [any_loop existsb]. rewrite Hm. destruct (Match r base) as [b m']; cbn [fst] in *. injection E as ->.
    destruct b; [destruct d|].
    + rewrite deferred_none_dz, deferred_set, dz_lor; cbn [negb]. rewrite orb_true_r.
      destruct (IH (set_deferred base (dz true)) true Hm') as (b & d & E & K1 & K2 & K3).
      exists b, d. split; [done|]; try clear IH; answers.
    + rewrite deferred_none_dz. exists true, false. cbn [negb]. rewrite (restore_idle base m) by done. split; [done|]; try clear IH; answers.
    + destruct (IH (set_deferred base (dz d)) x Hm') as (b' & d' & E & K1 & K2 & K3). exists b', d'. split; [done|]; try clear IH; answers.
Qed.

Lemma matchAnyHeadlessRule_sound base rules :
  Forall (sound_at base) rules -> ResetRuleMatchCache base = base ->
  sound ig (existsb full rules) (existsb defer rules) base (matchAnyHeadlessRule Match rules base).
Proof.
  intros HF H0. destruct (any_loop_sound base rules base false HF H0) as (b & d & E & H1 & H2 & H3).
  constructor. exists d. unfold matchAnyHeadlessRule. change 0 with (dz false). rewrite E. cbn [fst]. split; [done|]. answers.
Qed.

Lemma and_loop_sound base rules m x :
  Forall (sound_at base) rules -> ResetRuleCache m = base ->
  exists b d m', and_loop Match rules m (dz x) = (b, dz d, m') /\ ResetRuleCache m' = ResetRuleCache m /\
    (forallb full rules = true -> b = true) /\ (b = true -> d = false -> x = false /\ forallb full rules = true) /\
    (d = true -> x = true \/ (ig = true /\ existsb defer rules = true)).
Proof.
  intros HF. revert m x. induction HF as [|r rules [(d & E & H1 & H2 & H3)] HF IH]; intros m x Hm.
  - exists true, x, m. cbn. repeat (split; [done|]). answers.
  - cbn [and_loop forallb existsb]. rewrite Hm. destruct (Match r base) as [b m']; cbn [fst] in *. injection E as ->.
    assert (Hm' : ResetRuleCache (set_deferred base (dz d)) = base) by (by rewrite <- Hm).
    destruct b.
    + rewrite deferred_set, dz_lor.
      destruct (IH (set_deferred base (dz d)) (x || d) Hm') as (b & d' & m' & E & K0 & K1 & K2 & K3).
      exists b, d', m'. split; [done|]. split; [congruence|]. clear IH. answers.
    + exists false, false, (set_deferred base (dz d)). split; [done|]. split; [congruence|]. clear IH. answers.
Qed.

Lemma or_loop_sound base rules m x :
  Forall (sound_at base) rules -> ResetRuleCache m = base ->
  exists b d m', or_loop Match rules m x (dz x) = (b, dz d, m') /\ ResetRuleCache m' = ResetRuleCache m /\
    (x || existsb full rules = true -> b = true) /\ (b = true -> d = false -> existsb full rules = true) /\
    (d = true -> b = true /\ (x = true \/ (ig = true /\ existsb defer rules = true))).
Proof.
  intros HF. revert m x. induction HF as [|r rules [(d & E & H1 & H2 & H3)] HF IH]; intros m x Hm.
  - exists x, x, m. cbn. repeat (split; [done|]). answers.
  - cbn [or_loop existsb]. rewrite Hm. destruct (Match r base) as [b m']; cbn [fst] in *. injection E as ->.
    assert (Hm' : ResetRuleCache (set_deferred base (dz d)) = base) by (by rewrite <- Hm).
    destruct b; [destruct d|].
    + rewrite deferred_none_dz, deferred_set, dz_lor. cbn [negb]. rewrite orb_true_r.
      destruct (IH (set_deferred base (dz true)) true Hm') as (b & d' & m' & E & K0 & K1 & K2 & K3).
      exists b, d', m'. split; [done|]. split; [congruence|]. clear IH. answers.
    + rewrite deferred_none_dz. cbn [negb]. exists true, false, (set_deferred base (dz false)). split; [done|]. split; [congruence|]. clear IH. answers.
    + destruct (IH (set_deferred base (dz d)) x Hm') as (b & d' & m' & E & K0 & K1 & K2 & K3).
      exists b, d', m'. split; [done|]. split; [congruence|]. clear IH. answers.
Qed.

Lemma set_idle m : DeferredIPCIDRMatchGroups m = 0 -> set_deferred m (dz false) = m.
Proof. destruct m. cbn. by intros ->. Qed.

Lemma restore_cache base m : ResetRuleCache m = ResetRuleCache base -> restore base m = base.
Proof. destruct m, base. cbv. congruence. Qed.

Lemma matchLogical_sound (isAnd : bool) rules (invert : bool) base :
  Forall (sound_at (ResetRuleCache base)) rules -> DeferredIPCIDRMatchGroups base = 0 ->
  sound ig (xorb invert (if isAnd then forallb full rules else existsb full rules)) (existsb defer rules) base
    (matchLogical Match isAnd rules invert base).
Proof.
  intros HF H0.
  assert (exists (b d : bool) (m' : InboundContext), (if isAnd then and_loop Match rules base 0 else or_loop Match rules base false 0) = (b, dz d, m') /\
    ResetRuleCache m' = ResetRuleCache base /\
    ((if isAnd then forallb full rules else existsb full rules) = true -> b = true) /\
    (b = true -> d = false -> (if isAnd then forallb full rules else existsb full rules) = true) /\
    (d = true -> ig = true /\ existsb defer rules = true)) as (b & d & m' & E & Hm & H1 & H2 & H3).
  { change 0 with (dz false). destruct isAnd.
    - destruct (and_loop_sound _ rules base false HF eq_refl) as (b & d & m' & E & Hm & ?). exists b, d, m'. split; [done|]. split; [done|]. clear - H. answers.
    - destruct (or_loop_sound _ rules base false HF eq_refl) as (b & d & m' & E & Hm & ?). exists b, d, m'. split; [done|]. split; [done|]. clear - H. answers. }
  constructor. unfold matchLogical. rewrite E. unfold conclude. rewrite (restore_cache base m' Hm), dz_none.
  exists (b && d). unfold add_deferred. rewrite H0. clear E Hm HF. revert H1 H2.
  generalize (if isAnd then forallb full rules else existsb full rules) as F. intros F H1 H2.
  destruct b; cbn [fst andb]; rewrite ?(set_idle base H0); split; try (by destruct d).
  all: destruct invert, d, F; intuition (congruence || auto).
Qed.

End Loops.

(** ** Rule sets *)

Section Sets.

Context (ig : bool) (f f' : Facts) (its : Items) (ms ae ms' ae' : bool) (full defer : rule -> bool) (base : InboundContext).

Abbreviation Match := (Match lib IsAndroid).

(** The addresses of the rule itself are left to the response. *)
Definition own_defers : bool := ig && defers_own its ms.

(** Metadata with which the rules of a set are matched. *)
Definition nested : InboundContext := mkContext f ms' ae' 0 ig.

Definition full_set (set : list rule) : bool :=
  match mergeableRuleIn set with
  | Some branch => all_of f' ms' ae' (items branch) && merged_hold f' its ms ae branch ms' ae'
  | None => groups_hold f' its ms ae && existsb full set
  end.

(** What is known of the sets: a set of one plain rule agrees before and after the
    response and does not mix names with addresses left to the response; another one
    is sound, and leaves nothing to the response when the rule has names itself. *)
Definition set_known (set : list rule) : Prop :=
  match mergeableRuleIn set with
  | Some branch =>
      agree ig f f' branch ms' ae' /\
      (ig = true -> present (destinationAddressItems its) = true -> ms' = false -> present (destinationIPCIDRItems branch) = false) /\
      (ig = true -> defers_own its ms = true -> present (destinationAddressItems branch) = false) /\
      (defers_own branch ms' = true -> existsb defer set = true)
  | None => sound ig (existsb full set) (existsb defer set) nested (matchAnyHeadlessRule Match set nested)
  end.

Context (Hown : agree ig f f' its ms ae) (Hf : facts base = f) (Hig : IgnoreDestinationIPCIDRMatch base = ig).

Abbreviation loop := (set_loop lib IsAndroid mergeableRuleIn (matchAnyHeadlessRule Match) ms' ae' (found ig f its ms ae) (set_deferred base (dz own_defers))).

Lemma restore_nested m z : prepareNestedMatch ms' ae' m = nested -> restore (set_deferred base z) m = set_deferred base z.
Proof using Hf Hig. destruct m, base. cbv in *. intros; simplify_eq. done. Qed.

Lemma nested_deferred z : prepareNestedMatch ms' ae' (set_deferred nested z) = nested.
Proof using. done. Qed.

(** The group of destination addresses is not satisfied when it is deferred. *)
Lemma merged_bit branch :
  set_known [Default branch None false None] ->
  exists a b c d, satisfied (mergeWith (found ig f its ms ae) (found ig f branch ms' ae')) = bits a b c d /\
    (own_defers = true -> c = false) /\ (ig && defers_own branch ms' = true -> c = false).
Proof.
  intros (_ & S & S' & _). unfold mergeWith, found, satisfied_bits, own_defers, defers_own in *. cbn [satisfied]. rewrite lor_bits. do 4 eexists. split; [done|].
  pose proof (any_absent f ms ae (destinationAddressItems its)). pose proof (any_absent f ms' ae' (destinationAddressItems branch)).
  clear Hf Hig Hown. destruct ig; [|done]. cbn [negb andb orb]. destruct ms, ms'; split; intros; by_groups.
Qed.

Lemma evaluateForMerge_nested branch :
  evaluateForMerge lib IsAndroid branch nested =
  (if all_of f ms' ae' (items branch) then (found ig f branch ms' ae', true) else (mkGroups 0 0, false),
   set_deferred nested (dz (ig && defers_own branch ms'))).
Proof.
  unfold evaluateForMerge. rewrite evaluateGroups_bits. cbn.
  assert (E : (if ig && defers_own branch ms' then add_deferred nested ruleMatchDestinationAddress else nested) =
    set_deferred nested (dz (ig && defers_own branch ms'))) by (by destruct (ig && _)).
  rewrite E. change (forallb _ (items branch)) with (all_of f ms' ae' (items branch)). by destruct (all_of f ms' ae' (items branch)).
Qed.

Lemma mergeable_inv set branch : mergeableRuleIn set = Some branch -> set = [Default branch None false None].
Proof using. unfold mergeableRuleIn. repeat case_match; congruence. Qed.

Lemma ldiff_dz z a b c d : Z.ldiff (dz z) (bits a b c d) = dz (z && negb c).
Proof using. clear. destruct z, a, b, c, d; done. Qed.

Lemma drop_dz m z a b c d : drop_deferred (set_deferred m (dz z)) (bits a b c d) = set_deferred m (dz (z && negb c)).
Proof using. unfold drop_deferred. by rewrite deferred_set, ldiff_dz. Qed.

(** What one set contributes to the loop. *)
Lemma set_step set sets m x :
  set_known set -> prepareNestedMatch ms' ae' m = nested ->
  exists (b d : bool) (m' : InboundContext), prepareNestedMatch ms' ae' m' = nested /\
    loop (set :: sets) m x (dz x) =
      (if b then if d then loop sets m' true (dz true) else (true, set_deferred base (dz own_defers)) else loop sets m' x (dz x)) /\
    (full_set set = true -> b = true) /\ (b = true -> d = false -> own_defers = false -> full_set set = true) /\
    (d = true -> ig = true /\ (b = true -> existsb defer set = true)).
Proof.
  intros Hk Hm. cbn [set_loop]. rewrite Hm. unfold full_set. destruct (mergeableRuleIn set) as [br|] eqn:Em.
  - apply mergeable_inv in Em as ->. destruct (merged_bit br Hk) as (a & b & c & d & Eb & C1 & C2). destruct Hk as (Hbr & S & S' & Hd).
    destruct (agree_merged _ _ _ _ _ _ _ _ _ Hown Hbr S S') as [G1 G2]. rewrite evaluateForMerge_nested, <- (agree_items _ _ _ _ _ _ Hbr).
    exists (all_of f ms' ae' (items br) && groups_done (mergeWith (found ig f its ms ae) (found ig f br ms' ae'))), (ig && defers_own br ms'),
      (set_deferred nested (dz (ig && defers_own br ms'))). split; [done|]. split; [|split_and!].
    + destruct (all_of f ms' ae' (items br)); [cbn [andb]|done]. destruct (groups_done _); [|done].
      rewrite deferred_set, Eb, ldiff_dz, dz_none, dz_lor, restore_nested, drop_dz by done.
      destruct (ig && defers_own br ms') eqn:Db; cbn [andb negb].
      * rewrite (C2 eq_refl), orb_true_r. done.
      * destruct own_defers; [rewrite C1 by done|]; done.
    + rewrite !andb_true_iff. naive_solver.
    + rewrite !andb_true_iff. naive_solver.
    + rewrite !andb_true_iff. naive_solver.
  - unfold set_known in Hk. rewrite Em in Hk. destruct Hk as [(d & E & H1 & H2 & H3)], (agree_own _ _ _ _ _ _ Hown) as [G1 G2].
    destruct (matchAnyHeadlessRule Match set nested) as [b m'] eqn:Es. cbn [fst] in *. injection E as ->.
    destruct (groups_done (found ig f its ms ae)).
    + exists b, d, (set_deferred nested (dz d)). split; [done|]. split; [|split_and!; rewrite ?andb_true_iff; naive_solver].
      rewrite deferred_none_dz, deferred_set, dz_lor, restore_nested by done. destruct b, d; cbn [negb]; rewrite ?orb_true_r; done.
    + exists false, false, nested. split; [done|]. split; [done|]. rewrite !andb_true_iff. naive_solver.
Qed.

Lemma set_loop_sound sets m x :
  Forall set_known sets -> prepareNestedMatch ms' ae' m = nested ->
  exists b d, loop sets m x (dz x) = (b, set_deferred base (dz d)) /\
    (x || existsb full_set sets = true -> b = true) /\ (b = true -> d = false -> existsb full_set sets = true) /\
    (d = true -> own_defers = true \/ x = true \/ (ig = true /\ existsb (existsb defer) sets = true)).
Proof.
  intros HF. revert m x. induction HF as [|set sets Hset HF IH]; intros m x Hm.
  - exists x, (x || own_defers). cbn [set_loop existsb]. rewrite conclude_dz, (restore_nested m _ Hm). unfold add_deferred. rewrite deferred_set, dz_lor, orb_comm.
    split; [done|]. answers.
  - destruct (set_step set sets m x Hset Hm) as (b & d & m' & Hm' & -> & H1 & H2 & H3). cbn [existsb].
    destruct b; [destruct d|].
    + destruct (IH m' true Hm') as (b & d & E & K1 & K2 & K3). exists b, d. split; [done|]. clear IH. answers.
    + exists true, own_defers. split; [done|]. clear IH. answers.
    + destruct (IH m' x Hm') as (b & d' & E & K1 & K2 & K3). exists b, d'. split; [done|]. clear IH. answers.
Qed.

End Sets.

(** ** Default rules *)

Lemma invert_sound ig full defer base x invert :
  DeferredIPCIDRMatchGroups base = 0 -> sound ig full defer base x -> sound ig (xorb invert full) defer base (invert_match invert x).
Proof.
  intros H0 [(d & E & H1 & H2 & H3)]. destruct x as [b m]. cbn [fst] in *. injection E as ->. constructor.
  exists (if invert then b && d else d). unfold invert_match. destruct invert, b; rewrite ?deferred_none_dz; cbn [fst andb negb xorb]; split; try done;
    destruct d, full; cbn; intuition congruence.
Qed.

Section Inner.

Context (ig : bool) (f f' : Facts) (its : Items) (ms ae : bool).
Context (Hown : agree ig f f' its ms ae).

Let base := mkContext f ms ae 0 ig.

Lemma evaluateGroups_base : evaluateGroups lib IsAndroid its base = (found ig f its ms ae, set_deferred base (dz (own_defers ig its ms))).
Proof using. rewrite evaluateGroups_bits. unfold own_defers. cbn [facts IPCIDRMatchSource IPCIDRAcceptEmpty IgnoreDestinationIPCIDRMatch base]. by destruct (ig && _). Qed.

(** The bit of the group of destination addresses when [matchInner] clears it. *)
Lemma own_bit :
  exists a b c d, satisfied (found ig f its ms ae) = bits a b c d /\ (own_defers ig its ms = true -> c = false) /\
    (ig = true -> c = true -> present (destinationAddressItems its) = true).
Proof using.
  unfold found, satisfied_bits, own_defers, defers_own. cbn [satisfied]. do 4 eexists. split; [done|].
  pose proof (any_absent f ms ae (destinationAddressItems its)). clear Hown. destruct ig; [|done]. cbn [negb andb orb]. split; intros; destruct ms; by_groups.
Qed.

Lemma matchInner_sound match_sets full_sets defer_sets :
  match match_sets with
  | None => full_sets = groups_hold f' its ms ae
  | Some g =>
      exists b d, g (found ig f its ms ae) (set_deferred base (dz (own_defers ig its ms))) = (b, set_deferred base (dz d)) /\
        (full_sets = true -> b = true) /\ (b = true -> d = false -> full_sets = true) /\
        (d = true -> own_defers ig its ms = true \/ (ig = true /\ defer_sets = true)) /\
        (ig = true -> present (destinationAddressItems its) = true -> defer_sets = false)
  end ->
  sound ig (all_of f' ms ae (items its) && full_sets) ((negb ms && present (destinationIPCIDRItems its)) || defer_sets) base
    (matchInner lib IsAndroid its match_sets base).
Proof.
  intros Hs. unfold matchInner. rewrite evaluateGroups_base. change (forallb _ (items its)) with (all_of f ms ae (items its)).
  rewrite (agree_items _ _ _ _ _ _ Hown). destruct (all_of f' ms ae (items its)); cbn [negb andb].
  2: { constructor. exists (own_defers ig its ms). cbn [fst]. split; [done|]. unfold own_defers. rewrite andb_true_iff. naive_solver. }
  destruct own_bit as (a & b & c & d & Eb & C1 & C2), (agree_own _ _ _ _ _ _ Hown) as [G1 G2].
  destruct match_sets as [g|]; constructor.
  - destruct Hs as (b' & d' & -> & K1 & K2 & K3 & K4). rewrite Eb, drop_dz.
    exists d'. assert (Ed : d' && negb c = d').
    { destruct d', c; try done. destruct (K3 eq_refl) as [Ho|[Hi Ho]]; [discriminate (C1 Ho)|]. by rewrite K4 in Ho by auto. }
    rewrite Ed. cbn [fst]. split; [by destruct b'|]. split; [done|]. split; [done|]. intros Hd. destruct (K3 Hd) as [Ho|[Hi ->]].
    + unfold own_defers, defers_own in Ho. rewrite !andb_true_iff in Ho. destruct_and!. split; [done|]. intros _. by destruct ms, (present (destinationIPCIDRItems its)).
    + split; [done|]. by rewrite orb_true_r.
  - subst full_sets. rewrite Eb, drop_dz. exists (own_defers ig its ms).
    assert (Ed : own_defers ig its ms && negb c = own_defers ig its ms) by (destruct (own_defers ig its ms); [by rewrite C1|done]).
    rewrite Ed. cbn [fst]. split; [by destruct (groups_done _)|]. split; [done|]. split; [done|]. intros Ho.
    unfold own_defers, defers_own in Ho. rewrite !andb_true_iff in Ho. destruct_and!. split; [done|]. intros _. by destruct ms, (present (destinationIPCIDRItems its)).
Qed.

End Inner.

(** ** Rules that do not read the response too early *)

(** Items that read nothing of the response. *)
Definition early (ms : bool) (it : RuleItem) : bool :=
  match it with
  | IPCIDRItem _ isSource => isSource || ms
  | IPIsPrivateItem isSource => isSource
  | IPAcceptAnyItem | DNSResponseRCodeItem _ => false
  | _ => true
  end.

Definition early_items (its : Items) (ms : bool) : bool :=
  forallb (early ms) (items its) && forallb (early ms) (sourceAddressItems its) && forallb (early ms) (sourcePortItems its) &&
  forallb (early ms) (destinationAddressItems its) && forallb (early ms) (destinationPortItems its) &&
  (negb ms || forallb (early ms) (destinationIPCIDRItems its)) &&
  (ms || negb (present (destinationAddressItems its)) || negb (present (destinationIPCIDRItems its))).

(** Rules that may leave the answer to the response. *)
Fixpoint defers (ms : bool) (r : rule) : bool :=
  match r with
  | Logical _ rules _ => existsb (defers false) rules
  | Default its s _ _ =>
      (negb ms && present (destinationIPCIDRItems its)) ||
      match s with Some (sets, ms', _) => existsb (existsb (defers ms')) sets | None => false end
  end.

(** Rules with an address limit as they are used: only addresses of the destination
    read the response, and no rule mixes them with names, neither its own nor those
    of a rule set. *)
Fixpoint apart (ms : bool) (r : rule) : bool :=
  match r with
  | Logical _ rules _ => forallb (apart false) rules
  | Default its s _ resp =>
      match resp with Some _ => false | None => true end && early_items its ms &&
      match s with
      | None => true
      | Some (sets, ms', _) =>
          forallb (fun set =>
            forallb (apart ms') set &&
            (negb (present (destinationAddressItems its)) || negb (existsb (defers ms') set)) &&
            match mergeableRuleIn set with
            | Some branch => negb (defers_own its ms && present (destinationAddressItems branch))
            | None => true
            end) sets
      end
  end.

Lemma early_same ms it f resp ae : early ms it = true -> item_match lib IsAndroid it f ms ae = item_match lib IsAndroid it (with_response f resp) ms ae.
Proof. destruct it; cbn; try done; by destruct isSource, ms. Qed.

Lemma early_any ms l f resp ae : forallb (early ms) l = true -> any_of f ms ae l = any_of (with_response f resp) ms ae l.
Proof. induction l as [|it l IH]; [done|]. cbn. rewrite andb_true_iff. intros [H1 H2]. unfold any_of in *. cbn. rewrite (early_same ms it f resp ae H1), IH by done. done. Qed.

Lemma early_all ms l f resp ae : forallb (early ms) l = true -> all_of f ms ae l = all_of (with_response f resp) ms ae l.
Proof. induction l as [|it l IH]; [done|]. cbn. rewrite andb_true_iff. intros [H1 H2]. unfold all_of in *. cbn. rewrite (early_same ms it f resp ae H1), IH by done. done. Qed.

Lemma early_agree its f resp ms ae : early_items its ms = true -> agree true f (with_response f resp) its ms ae.
Proof.
  unfold early_items. rewrite !andb_true_iff. intros H. destruct_and!. constructor; auto using early_any, early_all.
  - intros [->|?]; [|done]. auto using early_any.
  - intros _ ->. intros Hp. rewrite Hp in *. cbn in *. by destruct (present (destinationIPCIDRItems its)).
Qed.

(** Matching with all that is known ([ig] false), or before a response. *)
Definition situation (ig : bool) (f f' : Facts) (ms : bool) (r : rule) : Prop :=
  (ig = false /\ f' = f) \/ (ig = true /\ (exists resp, f' = with_response f resp) /\ apart ms r = true).

Lemma same_agree its f ms ae : agree false f f its ms ae.
Proof. by constructor. Qed.

Lemma situation_agree ig f f' ms ae its s invert resp : situation ig f f' ms (Default its s invert resp) -> agree ig f f' its ms ae.
Proof.
  intros [[-> ->]|(-> & [x ->] & H)]; [apply same_agree|]. apply early_agree. cbn in H. rewrite !andb_true_iff in H. tauto.
Qed.

Lemma situation_logical ig f f' ms isAnd rules invert :
  situation ig f f' ms (Logical isAnd rules invert) -> Forall (situation ig f f' false) rules.
Proof.
  intros [[-> ->]|(-> & Hx & H)]; apply list.Forall_forall; intros r Hr; [by left|]. right. split_and!; [done..|].
  cbn in H. rewrite forallb_forall in H. apply H. by apply list_elem_of_In.
Qed.

Definition rule_sound (r : rule) : Prop :=
  forall ig f f' ms ae, situation ig f f' ms r ->
    sound ig (sem r f' ms ae) (defers ms r) (mkContext f ms ae 0 ig) (Match lib IsAndroid r (mkContext f ms ae 0 ig)).

(** The sets of a default rule. *)
Section Members.

Context (ig : bool) (f f' : Facts) (its : Items) (ms ms' ae' : bool) (sets : list (list rule)) (invert : bool) (resp : option text).
Context (Hsit : situation ig f f' ms (Default its (Some (sets, ms', ae')) invert resp)).

Lemma situation_set set : set ∈ sets ->
  Forall (situation ig f f' ms') set /\
  (ig = true -> present (destinationAddressItems its) = true -> existsb (defers ms') set = false) /\
  (forall branch, mergeableRuleIn set = Some branch -> ig = true -> defers_own its ms = true -> present (destinationAddressItems branch) = false).
Proof using Hsit.
  intros Hin. destruct Hsit as [[-> ->]|(-> & Hx & H)].
  { split; [|naive_solver]. apply list.Forall_forall. intros. by left. }
  cbn in H. rewrite !andb_true_iff, forallb_forall in H. destruct H as [_ H]. specialize (H set (proj1 (list_elem_of_In _ _) Hin)).
  rewrite !andb_true_iff, forallb_forall in H. destruct H as [[H1 H2] H3]. split_and!.
  - apply list.Forall_forall. intros r Hr. right. split_and!; [done..|]. apply H1. by apply list_elem_of_In.
  - intros _ Hp. rewrite Hp in H2. by apply negb_true_iff in H2.
  - intros branch Hb _ Hd. rewrite Hb, Hd in H3. by apply negb_true_iff in H3.
Qed.

Lemma situation_known : Forall (Forall rule_sound) sets -> Forall (set_known ig f f' its ms ms' ae' (fun r => sem r f' ms' ae') (defers ms')) sets.
Proof using Hsit.
  intros HF. apply list.Forall_forall. intros set Hin. destruct (situation_set set Hin) as (H1 & H2 & H3).
  unfold set_known. destruct (mergeableRuleIn set) as [br|] eqn:Em.
  - pose proof (mergeable_inv _ _ Em) as ->. pose proof (List.Forall_inv H1) as H1'. split_and!.
    + exact (situation_agree _ _ _ _ ae' _ _ _ _ H1').
    + intros Hi Hp ->. specialize (H2 Hi Hp). cbn in H2. rewrite !orb_false_r in H2. done.
    + by apply H3.
    + unfold defers_own. cbn. rewrite !andb_true_iff, !orb_false_r. intros [[Hm ->] _]. by rewrite Hm.
  - apply matchAnyHeadlessRule_sound; [|done]. rewrite list.Forall_forall in HF. specialize (HF set Hin).
    rewrite list.Forall_forall in HF, H1 |- *. intros r Hr. by apply HF, H1.
Qed.

Lemma situation_nodefer : ig = true -> present (destinationAddressItems its) = true -> existsb (existsb (defers ms')) sets = false.
Proof using Hsit.
  intros Hi Hp. apply not_true_iff_false. rewrite existsb_exists. intros (set & Hin & H).
  destruct (situation_set set) as (_ & H2 & _); [by apply list_elem_of_In|]. by rewrite H2 in H.
Qed.

End Members.

(** The part of a default rule that does not read a named response. *)
Lemma matchDefault_sound its s invert ig f f' ms ae :
  in_sets rule_sound s -> situation ig f f' ms (Default its s invert None) ->
  sound ig (sem (Default its s invert None) f' ms ae) (defers ms (Default its s invert None)) (mkContext f ms ae 0 ig)
    (Match lib IsAndroid (Default its s invert None) (mkContext f ms ae 0 ig)).
Proof.
  intros HS Hsit. pose proof (situation_agree _ _ _ _ ae _ _ _ _ Hsit) as Hown. cbn [sem Match].
  unfold matchDefault. destruct s as [[[sets ms'] ae']|].
  - rewrite andb_false_r. apply invert_sound; [done|].
    apply (matchInner_sound ig f f' its ms ae Hown (Some _) (existsb (full_set f' its ms ae ms' ae' (fun r => sem r f' ms' ae')) sets) (existsb (existsb (defers ms')) sets)).
    pose proof (situation_known _ _ _ _ _ _ _ _ _ _ Hsit HS) as HK.
    destruct (set_loop_sound ig f f' its ms ae ms' ae' (fun r => sem r f' ms' ae') (defers ms') (mkContext f ms ae 0 ig) Hown eq_refl eq_refl sets
      (set_deferred (mkContext f ms ae 0 ig) (dz (own_defers ig its ms))) false HK eq_refl) as (b & d & E & H1 & H2 & H3).
    exists b, d. split; [exact E|]. split; [done|]. split; [done|]. split; [naive_solver|]. apply (situation_nodefer _ _ _ _ _ _ _ _ _ _ Hsit).
  - rewrite andb_true_r. destruct (no_items its).
    + constructor. exists false. cbn. naive_solver.
    + apply invert_sound; [done|]. by apply (matchInner_sound ig f f' its ms ae Hown None _ false).
Qed.

Lemma Match_sound r : rule_sound r.
Proof.
  induction r as [its s invert resp HS|isAnd rules invert HR] using rule_nested_ind; intros ig f f' ms ae Hsit.
  - destruct resp as [tag|]; [|by apply matchDefault_sound].
    destruct Hsit as [[-> ->]|(_ & _ & Hl)]; [|by cbn in Hl].
    constructor. exists false. cbn [sem Match facts]. change (dz false) with 0. change (set_deferred (mkContext f ms ae 0 false) 0) with (mkContext f ms ae 0 false).
    destruct (find_response f tag) as [response|]; [|cbn; naive_solver].
    destruct (matchDefault_sound its s invert false (with_response f (Some response)) (with_response f (Some response)) ms ae HS) as [(d & E & H1 & H2 & H3)]; [by left|].
    destruct d; [by destruct (H3 eq_refl)|]. cbn [fst]. split; [done|]. split; [exact H1|]. split; [exact H2|done].
  - cbn [sem Match defers]. apply matchLogical_sound; [|done]. pose proof (situation_logical _ _ _ _ _ _ _ Hsit) as Hr.
    rewrite list.Forall_forall in HR, Hr |- *. intros r Hin. by apply HR, Hr.
Qed.

Lemma Match_sem r f ms ae : Match lib IsAndroid r (mkContext f ms ae 0 false) = (sem r f ms ae, mkContext f ms ae 0 false).
Proof.
  destruct (Match_sound r false f f ms ae) as [(d & E & H1 & H2 & H3)]; [by left|].
  destruct d; [by destruct (H3 eq_refl)|]. rewrite E. cbn. f_equal. apply eq_true_iff_eq. naive_solver.
Qed.

(** ** The documented logic *)

(** No logical rule is reached under an option of a rule-set item. *)
Fixpoint flags_kept (ms ae : bool) (r : rule) : bool :=
  match r with
  | Logical _ rules _ => negb (ms || ae) && forallb (flags_kept false false) rules
  | Default _ s _ _ =>
      match s with
      | None => true
      | Some (sets, ms', ae') => forallb (forallb (flags_kept ms' ae')) sets
      end
  end.

Lemma sem_documented r f ms ae : flags_kept ms ae r = true -> sem r f ms ae = documented r f ms ae.
Proof.
  revert f ms ae. induction r as [its s invert resp HS|isAnd rules invert HR] using rule_nested_ind; intros f ms ae; cbn [flags_kept].
  - intros Hk. assert (Hs : forall g, match s with
        | None => groups_hold g its ms ae
        | Some (sets, ms', ae') =>
            existsb (fun set => match mergeableRuleIn set with
              | Some branch => all_of g ms' ae' (items branch) && merged_hold g its ms ae branch ms' ae'
              | None => groups_hold g its ms ae && existsb (fun r => sem r g ms' ae') set end) sets
        end = match s with
        | None => groups_hold g its ms ae
        | Some (sets, ms', ae') =>
            existsb (fun set => match mergeableRuleIn set with
              | Some branch => all_of g ms' ae' (items branch) && merged_hold g its ms ae branch ms' ae'
              | None => groups_hold g its ms ae && existsb (fun r => documented r g ms' ae') set end) sets
        end).
    { intros g. destruct s as [[[sets ms'] ae']|]; [|done]. cbn in HS. apply existsb_same. intros set Hset.
      destruct (mergeableRuleIn set); [done|]. f_equal. apply existsb_same. intros r Hr.
      rewrite forallb_forall in Hk. specialize (Hk set Hset). rewrite forallb_forall in Hk.
      rewrite list.Forall_forall in HS. specialize (HS set (proj2 (list_elem_of_In _ _) Hset)).
      rewrite list.Forall_forall in HS. by apply HS; [apply list_elem_of_In | apply Hk]. }
    cbn [sem documented]. destruct resp as [tag|]; [destruct (find_response f tag); [|done]|]; by rewrite Hs.
  - rewrite andb_true_iff, negb_true_iff, orb_false_iff, forallb_forall. intros [[-> ->] Hk]. rewrite list.Forall_forall in HR.
    cbn [sem documented]. f_equal. destruct isAnd; [apply forallb_same | apply existsb_same]; intros r Hr;
      (apply HR; [by apply list_elem_of_In | by apply Hk]).
Qed.

(** ** The mark of the first pass over a flow *)

(** An item whose outbounds answer alike in both passes. *)
Definition blind_item (it : RuleItem) : Prop :=
  match it with
  | PreferredByItem outbounds =>
      Forall (fun o => (forall d, PreferredDomain o true d = PreferredDomain o false d) /\
                       (forall a, PreferredAddress o true a = PreferredAddress o false a)) outbounds
  | _ => True
  end.

Definition all_items (its : Items) : list RuleItem :=
  items its ++ sourceAddressItems its ++ sourcePortItems its ++ destinationAddressItems its ++ destinationIPCIDRItems its ++ destinationPortItems its.

Fixpoint items_of (r : rule) : list RuleItem :=
  match r with
  | Logical _ rules _ => concat (map items_of rules)
  | Default its s _ _ =>
      all_items its ++ match s with Some (sets, _, _) => concat (map (fun set => concat (map items_of set)) sets) | None => [] end
  end.

Definition blind (r : rule) : Prop := forall it, In it (items_of r) -> blind_item it.

Section Blind.

Context (f : Facts) (b : bool).

Let g := with_PreMatch f b.

Lemma blind_flips {A} (p : bool -> A -> bool) x : p true x = p false x -> p b x = p (PreMatch f) x.
Proof using. by destruct b, (PreMatch f). Qed.

Lemma item_blind it ms ae : blind_item it -> item_match lib IsAndroid it g ms ae = item_match lib IsAndroid it f ms ae.
Proof using.
  destruct it as [| | | | | | | | | | | | | | | | | | | | | | |outbounds|]; try done. cbn. rewrite list.Forall_forall. intros H. unfold PreferredByItem_Match. cbn.
  assert (HA : forall a, existsb (fun o => PreferredAddress o b a) outbounds = existsb (fun o => PreferredAddress o (PreMatch f) a) outbounds).
  { intros a. apply existsb_same. intros o Ho. apply (blind_flips (PreferredAddress o)). by apply H, list_elem_of_In. }
  rewrite HA. f_equal; [f_equal; f_equal|].
  - apply existsb_same. intros o Ho. apply (blind_flips (PreferredDomain o)). by apply H, list_elem_of_In.
  - apply existsb_same. intros a _. apply HA.
Qed.

Lemma any_blind ms ae l : (forall it, In it l -> blind_item it) -> any_of g ms ae l = any_of f ms ae l.
Proof using. intros H. apply existsb_same. intros it Hit. by apply item_blind, H. Qed.

Lemma all_blind ms ae l : (forall it, In it l -> blind_item it) -> all_of g ms ae l = all_of f ms ae l.
Proof using. intros H. apply forallb_same. intros it Hit. by apply item_blind, H. Qed.

Lemma group_blind its ms l : (forall it, In it (all_items its) -> blind_item it) -> In l (group_items its ms) -> forall it, In it l -> blind_item it.
Proof using.
  intros H Hl it Hit. apply H. unfold all_items, group_items in *. rewrite !in_app_iff. cbn in Hl.
  destruct Hl as [<- | [<- | [<- | [<- | []]]]]; rewrite ?in_app_iff in Hit; destruct ms; cbn in Hit; tauto.
Qed.

Lemma groups_blind its ms ae : (forall it, In it (all_items its) -> blind_item it) -> groups_hold g its ms ae = groups_hold f its ms ae.
Proof using. intros H. apply forallb_same. intros l Hl. f_equal. by apply any_blind, (group_blind its ms). Qed.

Lemma merged_blind its ms ae its' ms' ae' :
  (forall it, In it (all_items its) -> blind_item it) -> (forall it, In it (all_items its') -> blind_item it) ->
  merged_hold g its ms ae its' ms' ae' = merged_hold f its ms ae its' ms' ae'.
Proof using.
  intros H H'. apply forallb_same. intros [l l'] Hl. f_equal; [f_equal|]; apply any_blind.
  - by apply (group_blind its ms), (in_combine_l _ _ _ _ Hl).
  - by apply (group_blind its' ms'), (in_combine_r _ _ _ _ Hl).
Qed.

End Blind.

Lemma items_of_set set r : In r set -> forall it, In it (items_of r) -> In it (concat (map items_of set)).
Proof using. intros Hr it Hit. apply in_concat. exists (items_of r). split; [by apply in_map | done]. Qed.

(** Rules of such items match alike in both passes. *)
Lemma sem_blind r f b ms ae : blind r -> sem r (with_PreMatch f b) ms ae = sem r f ms ae.
Proof.
  revert f ms ae. induction r as [its s invert resp HS|isAnd rules invert HR] using rule_nested_ind; intros f ms ae Hb.
  - assert (Hits : forall it, In it (all_items its) -> blind_item it) by (intros it Hit; apply Hb; cbn; apply in_app_iff; by left).
    assert (Hd : forall h, sem (Default its s invert None) (with_PreMatch h b) ms ae = sem (Default its s invert None) h ms ae).
    { intros h. cbn [sem]. rewrite all_blind by (intros it Hit; apply Hits; unfold all_items; rewrite in_app_iff; by left).
      destruct (_ && _); [done|]. f_equal. f_equal. destruct s as [[[sets ms'] ae']|]; [|by apply groups_blind]. cbn in HS.
      apply existsb_same. intros set Hset.
      assert (Hin : forall r, In r set -> blind r).
      { intros r Hr it Hit. apply Hb. cbn. apply in_app_iff. right. apply in_concat. exists (concat (map items_of set)).
        split; [by apply (in_map (fun set => concat (map items_of set))) | by apply (items_of_set set r)]. }
      destruct (mergeableRuleIn set) as [branch|] eqn:Em.
      - assert (Hbr : forall it, In it (all_items branch) -> blind_item it).
        { destruct set as [|[its' [?|] [] [?|]|] [|]]; try done. injection Em as <-. intros it Hit.
          apply (Hin _ (or_introl eq_refl)). cbn. apply in_app_iff. by left. }
        rewrite all_blind by (intros it Hit; apply Hbr; unfold all_items; rewrite in_app_iff; by left). f_equal. by apply merged_blind.
      - rewrite groups_blind by done. f_equal. apply existsb_same. intros r Hr.
        rewrite list.Forall_forall in HS. specialize (HS set (proj2 (list_elem_of_In _ _) Hset)). rewrite list.Forall_forall in HS.
        apply HS; [by apply list_elem_of_In | by apply Hin]. }
    destruct resp as [tag|]; [|apply Hd]. cbn [sem] in Hd |- *. change (find_response (with_PreMatch f b) tag) with (find_response f tag).
    destruct (find_response f tag) as [response|]; [|done]. apply (Hd (with_response f (Some response))).
  - rewrite list.Forall_forall in HR. cbn [sem]. f_equal.
    assert (Hr : forall r, In r rules -> sem r (with_PreMatch f b) false false = sem r f false false).
    { intros r Hr. apply HR; [by apply list_elem_of_In|]. intros it Hit. apply Hb. by apply (items_of_set rules r). }
    destruct isAnd; [by apply forallb_same | by apply existsb_same].
Qed.

(** ** The address limit *)

(** Rules of rule sets have no rule sets of their own. *)
Fixpoint headless (r : rule) : bool :=
  match r with
  | Default _ s _ resp => match s, resp with None, None => true | _, _ => false end
  | Logical _ rules _ => forallb headless rules
  end.

(** Rule sets whose addresses are sources hold no rule that reads them otherwise. *)
Fixpoint limited (r : rule) : bool :=
  match r with
  | Default _ None _ _ => true
  | Default _ (Some (sets, ms', _)) _ _ => forallb (forallb (fun r => headless r && (negb ms' || negb (defers ms' r)))) sets
  | Logical _ rules _ => forallb limited rules
  end.

Lemma headless_limit r ms : headless r = true -> defers ms r = true -> isIPCIDRHeadlessRule r = true.
Proof using.
  revert ms. induction r as [its s invert resp HS|isAnd rules invert HR] using rule_nested_ind; intros ms; cbn.
  - destruct s; [done|]. rewrite orb_false_r, andb_true_iff. tauto.
  - rewrite forallb_forall, !existsb_exists. intros Hh (r & Hin & Hd). exists r. split; [done|].
    rewrite list.Forall_forall in HR. eapply HR; eauto. by apply list_elem_of_In.
Qed.

Lemma apart_abstract r : apart false r = true -> abstract_rule r = r.
Proof using. by destruct r as [??? []|]. Qed.

Lemma MatchAddressLimit_sem r m response :
  apart false r = true -> IgnoreDestinationIPCIDRMatch m = false ->
  MatchAddressLimit lib IsAndroid r m response = sem r (with_response (facts m) response) false false.
Proof.
  intros Ha Hi. unfold MatchAddressLimit. rewrite (apart_abstract r Ha). destruct m as [f ms ae d ig]. cbn in Hi. subst ig.
  change (set_facts _ _) with (mkContext (with_response f response) false false 0 false). by rewrite Match_sem.
Qed.

Lemma limited_defers r : limited r = true -> defers false r = true -> WithAddressLimit r = true.
Proof using.
  induction r as [its s invert resp HS|isAnd rules invert HR] using rule_nested_ind; cbn.
  - destruct s as [[[sets ms'] ae']|]; [|done]. rewrite forallb_forall, !orb_true_iff. intros Hl [Hd|Hd]; [by left|right].
    apply existsb_exists in Hd as (set & Hin & Hd). apply existsb_exists in Hd as (r & Hr & Hd).
    specialize (Hl _ Hin). rewrite forallb_forall in Hl. specialize (Hl _ Hr). rewrite andb_true_iff in Hl. destruct Hl as [Hh Hm].
    rewrite Hd in Hm. cbn in Hm. rewrite orb_false_r in Hm. cbn. rewrite Hm. apply existsb_exists. exists set. split; [done|].
    apply existsb_exists. exists r. split; [done|]. by eapply headless_limit.
  - rewrite forallb_forall, !existsb_exists. intros Hl (r & Hin & Hd). exists r. split; [done|].
    rewrite list.Forall_forall in HR. apply HR; auto. by apply list_elem_of_In.
Qed.

Lemma LegacyPreMatch_sound r m response :
  apart false r = true -> limited r = true -> IgnoreDestinationIPCIDRMatch m = false -> ResetRuleCache m = m ->
  let '(b, m') := LegacyPreMatch lib IsAndroid r m in
  ResetRuleCache m' = m /\
  (MatchAddressLimit lib IsAndroid r m response = true -> b = true) /\
  (WithAddressLimit r = false -> b = MatchAddressLimit lib IsAndroid r m response).
Proof.
  intros Ha Hl Hig Hm. destruct m as [f ms ae d ig]. cbv in Hm, Hig. simplify_eq.
  assert (Hr : matches_response r = false) by (destruct r as [??? []|]; done).
  rewrite MatchAddressLimit_sem by done. unfold LegacyPreMatch. rewrite Hr. change (set_ignore _ true) with (mkContext f false false 0 true).
  destruct (Match_sound r true f (with_response f response) false false) as [(d & E & H1 & H2 & H3)]; [right; eauto|].
  rewrite E. split; [done|]. split; [done|]. intros Hw. apply eq_true_iff_eq. split; [|done]. intros Hb. apply H2; [done|].
  destruct d; [|done]. destruct (H3 eq_refl) as [_ Hd]. by rewrite (limited_defers r Hl (Hd Hb)) in Hw.
Qed.

End Sem.

(** C14. matching a rule computes its logic and nothing else.  Outside the first
    pass over DNS rules, [Match] of any rule - with groups kept as bits, rule sets of
    one plain rule merged into the rule that names them, other rule sets and logical
    rules matched on their own, inverted or not, or against a named response - answers
    what the connection and the two flags alone determine, and leaves the metadata,
    which every nested match resets and writes, as it found it.  The answer is the
    documented one for every rule whose rule sets hold no logical rule under
    [rule_set_ip_cidr_match_source] or [rule_set_ip_cidr_accept_empty]; inside such a
    logical rule the code loses the two options, and [sem] with it. *)
Theorem match_is_documented lib IsAndroid r m :
  IgnoreDestinationIPCIDRMatch m = false -> DeferredIPCIDRMatchGroups m = 0 ->
  Match lib IsAndroid r m = (sem lib IsAndroid r (facts m) (IPCIDRMatchSource m) (IPCIDRAcceptEmpty m), m) /\
  (flags_kept (IPCIDRMatchSource m) (IPCIDRAcceptEmpty m) r = true ->
   Match lib IsAndroid r m = (documented lib IsAndroid r (facts m) (IPCIDRMatchSource m) (IPCIDRAcceptEmpty m), m)).
Proof.
  intros H1 H2. assert (HM : Match lib IsAndroid r m = (sem lib IsAndroid r (facts m) (IPCIDRMatchSource m) (IPCIDRAcceptEmpty m), m))
    by (destruct m; cbn in *; subst; apply Match_sem).
  split; [done|]. intros Hk. rewrite HM. f_equal. by apply sem_documented.
Qed.

(** A connection to port 443 of a name, and a rule for the name with a rule set of one
    plain rule for the port and another name. *)
Definition simple_library : Library :=
  mkLibrary (fun s => valid (Addr s)) (fun s => match Addr s with Addr6 _ => true | _ => false end) (fun _ => true) Addr4 (fun s => s).

Definition query (domain : text) : Facts :=
  mkFacts [] 0 (str "udp") (mkSocksaddr (Addr4 [10; 0; 0; 2]) [] 5353) (mkSocksaddr AddrInvalid domain 443) [] [] [] domain [] [] None (fun _ => None) false None [] 1 false.

Definition no_fields : Items := mkItems [] [] [] [] [] [].

Definition names (s : text) : RuleItem := DomainItem (fun host => bool_decide (host = s)).

Definition merged_rule : rule :=
  Default (mkItems [NetworkItem [str "udp"]] [] [] [names (str "a.example")] [] [])
    (Some ([[Default (mkItems [] [] [] [names (str "b.example")] [] [PortItem false [443]]) None false None]], false, false)) false None.

Lemma match_is_documented_witness :
  Match simple_library false merged_rule (mkContext (query (str "a.example")) false false 0 false) =
  (true, mkContext (query (str "a.example")) false false 0 false).
Proof.
  rewrite (proj2 (match_is_documented simple_library false merged_rule (mkContext (query (str "a.example")) false false 0 false) eq_refl eq_refl) eq_refl).
  vm_compute. reflexivity.
Defined.

(** C27. the first pass over DNS rules loses nothing.  A rule with an address limit
    whose own names and addresses, and those of its rule sets, are kept apart
    ([apart]) passes the pass without the response whenever it matches the response
    afterwards, inverted rules included; a rule without an address limit passes it
    exactly when it matches, whatever the response.  The pass leaves the metadata as
    it was but for the cached groups.  The rules are those [limited] accepts: rule
    sets hold no rules with rule sets or response matching of their own, and a rule
    set with [rule_set_ip_cidr_match_source] holds no logical rule with [ip_cidr]
    items, inside of which the code loses that option and reads the items as
    addresses of the response although the rule counts as one without a limit. *)
Theorem prematch_keeps_rules lib IsAndroid r m response :
  apart false r = true -> limited r = true -> IgnoreDestinationIPCIDRMatch m = false -> ResetRuleCache m = m ->
  let '(b, m') := LegacyPreMatch lib IsAndroid r m in
  ResetRuleCache m' = m /\
  (MatchAddressLimit lib IsAndroid r m response = true -> b = true) /\
  (WithAddressLimit r = false -> b = MatchAddressLimit lib IsAndroid r m response).
Proof.
  apply LegacyPreMatch_sound.
Qed.

(** Not an address of 10.0.0.0/8, for a name given by a rule set. *)
Definition in_ten (a : addr) : bool := match a with Addr4 (10 :: _) => true | _ => false end.

Definition answer (ip : list Z) : option dnsMsg := Some (mkMsg 0 [RecordA ip] [] []).

Definition inverted_rule : rule :=
  Default no_fields (Some ([[Default (mkItems [] [] [] [] [IPCIDRItem in_ten false] []) None false None]], false, false)) true None.

Lemma prematch_keeps_rules_witness :
  MatchAddressLimit simple_library false inverted_rule (mkContext (query (str "a.example")) false false 0 false) (answer [192; 0; 2; 1]) = true /\
  fst (LegacyPreMatch simple_library false inverted_rule (mkContext (query (str "a.example")) false false 0 false)) = true.
Proof.
  pose proof (prematch_keeps_rules simple_library false inverted_rule (mkContext (query (str "a.example")) false false 0 false) (answer [192; 0; 2; 1])
    eq_refl eq_refl eq_refl eq_refl) as H.
  destruct (LegacyPreMatch _ _ _ _) as [b m']. destruct H as (_ & H & _). split; [vm_compute; reflexivity|]. apply H. vm_compute. reflexivity.
Defined.

(** Names and addresses of one rule are not alternatives before the response.  A
    rule with names that do not match is passed over by the first pass whatever its
    addresses are, although the documented logic, which [MatchAddressLimit] follows,
    lets the response satisfy the group that names and addresses share. *)
Theorem mixed_rule_skipped lib IsAndroid its m response :
  present (destinationAddressItems its) = true -> any_of lib IsAndroid (facts m) false false (destinationAddressItems its) = false ->
  IgnoreDestinationIPCIDRMatch m = false -> ResetRuleCache m = m ->
  fst (LegacyPreMatch lib IsAndroid (Default its None false None) m) = false /\
  MatchAddressLimit lib IsAndroid (Default its None false None) m response =
    sem lib IsAndroid (Default its None false None) (with_response (facts m) response) false false.
Proof.
  intros Hp Ha Hig Hm. destruct m as [f ms ae d ig]. cbv in Hm, Hig. simplify_eq. cbn [facts] in *. split.
  - unfold LegacyPreMatch. cbn [matches_response Match]. change (set_ignore _ true) with (mkContext f false false 0 true).
    unfold matchDefault, matchInner. rewrite evaluateGroups_base.
    assert (Hn : no_items its = false).
    { unfold no_items. rewrite (absent (destinationAddressItems its)), Hp. cbn. by rewrite andb_false_r. }
    rewrite Hn. cbn [andb]. unfold found, required_bits, satisfied_bits. rewrite done_bits, Hp, Ha. cbn.
    rewrite andb_false_r. cbn. by destruct (forallb _ _).
  - unfold MatchAddressLimit. change (set_facts _ _) with (mkContext (with_response f response) false false 0 false). cbn [abstract_rule]. by rewrite Match_sem.
Qed.

(** A rule for one name or for 10.0.0.0/8, and another name with such an address. *)
Definition mixed_items : Items := mkItems [] [] [] [names (str "a.example")] [IPCIDRItem in_ten false] [].

Lemma mixed_rule_skipped_witness :
  let m := mkContext (query (str "b.example")) false false 0 false in
  sem simple_library false (Default mixed_items None false None) (with_response (facts m) (answer [10; 0; 0; 1])) false false = true /\
  fst (LegacyPreMatch simple_library false (Default mixed_items None false None) m) = false.
Proof.
  split; [vm_compute; reflexivity|].
  apply (mixed_rule_skipped simple_library false mixed_items (mkContext (query (str "b.example")) false false 0 false) (answer [10; 0; 0; 1])); vm_compute; reflexivity.
Defined.

End RulesProps.
