(* ===== verification/DnsRouter.v ===== *)
(** * DNS routing with address limits

    Models the legacy mode of dns/router.go: the choice of a DNS server by rules before
    the response is known ([matchDNS]), the check of the response
    ([addressLimitResponseCheck]) and the loop that tries the next rule when a response
    is rejected ([exchangeLegacy]).  The client that asks a server is an argument with
    a state of its own. *)

From S2P Require Import Prelude Bits Bytes GoStrings AllowedIPs GoNetip Rules RulesProps.

Module DnsRouter.

Import AllowedIPs Rules RulesProps.

Local Open Scope Z_scope.

(** ** Options and actions *)

(** Zero is [DomainStrategyAsIS]. *)
Record DNSQueryOptions := mkOptions {
  Strategy : Z;
  DisableCache : bool;
  DisableOptimisticCache : bool;
  RewriteTTL : option Z;
  Timeout : Z;
  ClientSubnet : option prefix;
  RemoveClientSubnet : bool
}.

Record RuleActionDNSRouteOptions := mkRouteOptions {
  ro_Strategy : Z;
  ro_Timeout : Z;
  ro_DisableCache : bool;
  ro_RewriteTTL : option Z;
  ro_ClientSubnet : option prefix;
  ro_RemoveClientSubnet : bool
}.

(** The method [reply] is refused for DNS rules, which leaves a refusal or a drop. *)
Inductive RuleAction :=
| ActionDNSRoute (Server : text) (options : RuleActionDNSRouteOptions)
| ActionDNSRouteOptions (options : RuleActionDNSRouteOptions)
| ActionReject (drop : bool)
| ActionPredefined (response : dnsMsg)
| ActionOther.

Record DNSRule := mkDNSRule { dr_rule : rule; dr_action : RuleAction }.

Record DNSTransport := mkTransport { Tag : text; isFakeIP : bool }.

(** The options an action sets. *)
Definition apply_options (isFakeIP : bool) (action : RuleActionDNSRouteOptions) (o : DNSQueryOptions) : DNSQueryOptions :=
  mkOptions
    (if ro_Strategy action =? 0 then Strategy o else ro_Strategy action)
    (isFakeIP || ro_DisableCache action || DisableCache o)
    (DisableOptimisticCache o)
    (match ro_RewriteTTL action with Some ttl => Some ttl | None => RewriteTTL o end)
    (if 0 <? ro_Timeout action then ro_Timeout action else Timeout o)
    (if ro_RemoveClientSubnet action then None
     else match ro_ClientSubnet action with Some subnet => Some subnet | None => ClientSubnet o end)
    (ro_RemoveClientSubnet action || (match ro_ClientSubnet action with Some _ => false | None => RemoveClientSubnet o end)).

(** What the client of dns/client.go gives: a response, a rejection by the check, or
    another error. *)
Inductive exchangeResult := Exchanged (response : dnsMsg) | ErrResponseRejected | ErrExchange.

(** What a query ends with; the server is none where no server was asked. *)
Inductive outcome :=
| Answered (response : dnsMsg) (transport : option DNSTransport)
| Refused
| ErrDrop
| Failed (transport : option DNSTransport).

Section Router.

Context (lib : Library) (IsAndroid : bool).
Context (Transport : text -> option DNSTransport) (DefaultTransport : DNSTransport) (defaultDomainStrategy : Z).

(** [matchDNS] from a rule on: the server, the rule with its index, the options and
    the metadata. *)
Definition from_response (m : InboundContext) (b : bool) : InboundContext :=
  let f := facts m in
  set_facts m (mkFacts (Inbound f) (IPVersion f) (Network f) (Source f) (Destination f) (User f) (Outbound f) (Protocol f) (Domain f) (Client f)
    (DestinationAddresses f) (DNSResponse f) (NamedDNSResponses f) b (ProcessInfo f) (SourceHostname f) (QueryType f) (PreMatch f)).

Fixpoint matchDNS_from (allowFakeIP isAddressQuery : bool) (rules : list DNSRule) (currentRuleIndex : nat) (options : DNSQueryOptions) (m : InboundContext)
    : option DNSTransport * option (DNSRule * nat) * DNSQueryOptions * InboundContext :=
  match rules with
  | [] => (Some DefaultTransport, None, options, m)
  | currentRule :: rules' =>
      let continue := matchDNS_from allowFakeIP isAddressQuery rules' (S currentRuleIndex) in
      if WithAddressLimit (dr_rule currentRule) && negb isAddressQuery then continue options m
      else
        let '(matched, m) := LegacyPreMatch lib IsAndroid (dr_rule currentRule) (from_response (ResetRuleCache m) false) in
        if matched : bool then
          match dr_action currentRule with
          | ActionDNSRoute server action =>
              match Transport server with
              | None => continue options m
              | Some transport =>
                  if isFakeIP transport && negb allowFakeIP then continue options m
                  else (Some transport, Some (currentRule, currentRuleIndex), apply_options (isFakeIP transport) action options, m)
              end
          | ActionDNSRouteOptions action => continue (apply_options false action options) m
          | ActionReject _ | ActionPredefined _ => (None, Some (currentRule, currentRuleIndex), options, m)
          | ActionOther => continue options m
          end
        else continue options m
  end.

(** The index of the rule to go on after, if any. *)
Definition matchDNS (rules : list DNSRule) (allowFakeIP : bool) (ruleIndex : option nat) (isAddressQuery : bool) (options : DNSQueryOptions) (m : InboundContext) :=
  let currentRuleIndex := match ruleIndex with None => 0%nat | Some i => S i end in
  matchDNS_from allowFakeIP isAddressQuery (skipn currentRuleIndex rules) currentRuleIndex options m.

Definition addressLimitResponseCheck (rule : option (DNSRule * nat)) (m : InboundContext) : option (dnsMsg -> bool) :=
  match rule with
  | Some (r, _) => if WithAddressLimit (dr_rule r) then Some (fun response => MatchAddressLimit lib IsAndroid (dr_rule r) m (Some response)) else None
  | None => None
  end.

Definition finalizeExchangeOptions (o : DNSQueryOptions) : DNSQueryOptions :=
  mkOptions (if Strategy o =? 0 then defaultDomainStrategy else Strategy o) (DisableCache o) (DisableOptimisticCache o) (RewriteTTL o) (Timeout o) (ClientSubnet o) (RemoveClientSubnet o).

Section Exchange.

Context {S : Type} (Exchange : S -> DNSTransport -> DNSQueryOptions -> option (dnsMsg -> bool) -> exchangeResult * S).

(** [exchangeLegacy]; [None] when the fuel ends. *)
Fixpoint exchangeLegacy (fuel : nat) (rules : list DNSRule) (isAddressQuery : bool) (options : DNSQueryOptions) (ruleIndex : option nat) (m : InboundContext) (s : S)
    : option (outcome * InboundContext * S) :=
  match fuel with
  | O => None
  | Datatypes.S fuel =>
      let '(transport, rule, dnsOptions, m) := matchDNS rules true ruleIndex isAddressQuery options m in
      match rule, transport with
      | Some (mkDNSRule _ (ActionReject false), _), _ => Some (Refused, m, s)
      | Some (mkDNSRule _ (ActionReject true), _), _ => Some (ErrDrop, m, s)
      | Some (mkDNSRule _ (ActionPredefined response), _), _ => Some (Answered response None, m, s)
      | _, None => None
      | _, Some t =>
          let responseCheck := addressLimitResponseCheck rule m in
          let '(result, s) := Exchange s t (finalizeExchangeOptions dnsOptions) responseCheck in
          match result, responseCheck with
          | ErrResponseRejected, Some _ => exchangeLegacy fuel rules isAddressQuery options (option_map snd rule) m s
          | Exchanged response, _ => Some (Answered response (Some t), m, s)
          | _, _ => Some (Failed (Some t), m, s)
          end
      end
  end.

(** ** What the rules decide *)

Context (f : Facts) (q : bool) (o0 : DNSQueryOptions).

Definition accepts (r : rule) (response : option dnsMsg) : bool := sem lib IsAndroid r (with_response f response) false false.

(** A rule that is used matches, unless that is left to the response. *)
Definition applies_now (r : rule) : Prop := WithAddressLimit r = false -> forall response, accepts r response = true.

(** The rule that decides next, with the rules after it and the options, going by the
    documented logic alone: rules that no response makes match are passed over, as are
    rules with an address limit when no addresses are asked for. *)
Inductive selects : list DNSRule -> DNSQueryOptions -> option (DNSRule * list DNSRule) -> DNSQueryOptions -> Prop :=
| selects_none o : selects [] o None o
| selects_skip r rs o x o' :
    (forall response, accepts (dr_rule r) response = false) \/ (WithAddressLimit (dr_rule r) = true /\ q = false) ->
    selects rs o x o' -> selects (r :: rs) o x o'
| selects_idle r rs o x o' :
    dr_action r = ActionOther \/ (exists server action, dr_action r = ActionDNSRoute server action /\ Transport server = None) ->
    selects rs o x o' -> selects (r :: rs) o x o'
| selects_options r rs o x o' action :
    dr_action r = ActionDNSRouteOptions action -> applies_now (dr_rule r) -> selects rs (apply_options false action o) x o' -> selects (r :: rs) o x o'
| selects_route r rs o server action t :
    dr_action r = ActionDNSRoute server action -> Transport server = Some t -> applies_now (dr_rule r) ->
    selects (r :: rs) o (Some (r, rs)) (apply_options (isFakeIP t) action o)
| selects_final r rs o :
    (exists drop, dr_action r = ActionReject drop) \/ (exists response, dr_action r = ActionPredefined response) -> applies_now (dr_rule r) ->
    selects (r :: rs) o (Some (r, rs)) o.

Definition result_of (t : DNSTransport) (x : exchangeResult) : outcome :=
  match x with Exchanged response => Answered response (Some t) | _ => Failed (Some t) end.

(** How a query ends: the selected rule refuses, drops or answers it, or its server
    does, asked with a check that is the rule itself where it has an address limit; a
    rejected response leaves the query to the rules after it. *)
Inductive resolves : list DNSRule -> S -> outcome -> S -> Prop :=
| resolves_default rules o s x s' :
    selects rules o0 None o -> Exchange s DefaultTransport (finalizeExchangeOptions o) None = (x, s') ->
    resolves rules s (result_of DefaultTransport x) s'
| resolves_reject rules r rs o s drop :
    selects rules o0 (Some (r, rs)) o -> dr_action r = ActionReject drop -> resolves rules s (if drop then ErrDrop else Refused) s
| resolves_predefined rules r rs o s response :
    selects rules o0 (Some (r, rs)) o -> dr_action r = ActionPredefined response -> resolves rules s (Answered response None) s
| resolves_open rules r rs o s server action t x s' :
    selects rules o0 (Some (r, rs)) o -> dr_action r = ActionDNSRoute server action -> Transport server = Some t ->
    WithAddressLimit (dr_rule r) = false -> Exchange s t (finalizeExchangeOptions o) None = (x, s') ->
    resolves rules s (result_of t x) s'
| resolves_limited rules r rs o s server action t check x s' :
    selects rules o0 (Some (r, rs)) o -> dr_action r = ActionDNSRoute server action -> Transport server = Some t ->
    WithAddressLimit (dr_rule r) = true -> (forall response, check response = accepts (dr_rule r) (Some response)) ->
    Exchange s t (finalizeExchangeOptions o) (Some check) = (x, s') -> x <> ErrResponseRejected ->
    resolves rules s (result_of t x) s'
| resolves_rejected rules r rs o s server action t check s' x s'' :
    selects rules o0 (Some (r, rs)) o -> dr_action r = ActionDNSRoute server action -> Transport server = Some t ->
    WithAddressLimit (dr_rule r) = true -> (forall response, check response = accepts (dr_rule r) (Some response)) ->
    Exchange s t (finalizeExchangeOptions o) (Some check) = (ErrResponseRejected, s') -> resolves rs s' x s'' ->
    resolves rules s x s''.

(** ** The loops follow it *)

(** Metadata of the query when a rule is matched. *)
Definition at_rule : InboundContext := from_response (mkContext f false false 0 false) false.

Definition of_query (m : InboundContext) : Prop := from_response (ResetRuleCache m) false = at_rule.

Definition well_formed (r : DNSRule) : Prop := apart false (dr_rule r) = true /\ limited (dr_rule r) = true.

Lemma prematch_query r m response :
  well_formed r -> of_query m ->
  let '(b, m') := LegacyPreMatch lib IsAndroid (dr_rule r) (from_response (ResetRuleCache m) false) in
  of_query m' /\ (accepts (dr_rule r) response = true -> b = true) /\ (WithAddressLimit (dr_rule r) = false -> b = accepts (dr_rule r) response).
Proof.
  intros [Ha Hl] ->. pose proof (LegacyPreMatch_sound lib IsAndroid (dr_rule r) at_rule response Ha Hl eq_refl eq_refl) as H.
  rewrite MatchAddressLimit_sem in H by done. destruct (LegacyPreMatch _ _ _ _) as [b m']. destruct H as (Hm & H1 & H2).
  split; [|done]. unfold of_query. by rewrite Hm.
Qed.

(** What [matchDNS] finds from a rule on. *)
Definition selected (rules : list DNSRule) (idx : nat) (o : DNSQueryOptions) (res : option DNSTransport * option (DNSRule * nat) * DNSQueryOptions * InboundContext) : Prop :=
  let '(t, x, o', m') := res in
  of_query m' /\
  match x with
  | None => t = Some DefaultTransport /\ selects rules o None o'
  | Some (r, i) =>
      (idx <= i)%nat /\ selects rules o (Some (r, skipn (Datatypes.S i - idx) rules)) o' /\
      match dr_action r with
      | ActionDNSRoute server _ => t = Transport server /\ t <> None
      | ActionReject _ | ActionPredefined _ => True
      | _ => False
      end
  end.

Lemma selected_later r rules idx o o' res :
  (forall x o'', selects rules o' x o'' -> selects (r :: rules) o x o'') ->
  selected rules (Datatypes.S idx) o' res -> selected (r :: rules) idx o res.
Proof.
  intros Hs. destruct res as [[[t x] o''] m'']. intros [IH1 IH2]. split; [done|]. destruct x as [[r' i]|]; [|naive_solver].
  destruct IH2 as (Hi & Hsel & Ht). split; [lia|]. split; [|done]. apply Hs.
  replace (Datatypes.S i - idx)%nat with (Datatypes.S (Datatypes.S i - Datatypes.S idx)) by lia. done.
Qed.

Lemma selected_here r rules idx o o' t m' :
  of_query m' -> selects (r :: rules) o (Some (r, rules)) o' ->
  match dr_action r with
  | ActionDNSRoute server _ => t = Transport server /\ t <> None
  | ActionReject _ | ActionPredefined _ => True
  | _ => False
  end -> selected (r :: rules) idx o (t, Some (r, idx), o', m').
Proof. intros Hm Hs Ht. split; [done|]. split; [lia|]. by replace (Datatypes.S idx - idx)%nat with 1%nat by lia. Qed.

Lemma matchDNS_from_selects rules idx o m :
  Forall well_formed rules -> of_query m -> selected rules idx o (matchDNS_from true q rules idx o m).
Proof.
  intros HF. revert idx o m. induction HF as [|r rules Hr HF IH]; intros idx o m Hm; [by split; [|split; [|constructor]]|].
  cbn [matchDNS_from]. destruct (WithAddressLimit (dr_rule r) && negb q) eqn:Eq.
  { eapply selected_later; [|by apply IH]. intros. apply selects_skip; [|done]. right. by destruct (WithAddressLimit (dr_rule r)), q. }
  pose proof (fun response => prematch_query r m response Hr Hm) as Hp.
  destruct (LegacyPreMatch _ _ _ _) as [b m'] eqn:El. destruct (Hp None) as [Hm' _]. destruct b.
  2: { eapply selected_later; [|by apply IH]. intros. apply selects_skip; [|done]. left. intros response. destruct (Hp response) as (_ & H1 & _).
       destruct (accepts _ _); [by specialize (H1 eq_refl)|done]. }
  assert (Hn : applies_now (dr_rule r)) by (intros Hw response; symmetry; by apply Hp).
  destruct (dr_action r) as [server action|action|drop|response|] eqn:Ea.
  - destruct (Transport server) as [t|] eqn:Et.
    + rewrite andb_false_r. apply selected_here; [done|by eapply selects_route|]. by rewrite Ea, Et.
    + eapply selected_later; [|by apply IH]. intros. apply selects_idle; [|done]. right. eauto.
  - eapply selected_later; [|by apply IH]. intros. by eapply selects_options.
  - apply selected_here; [done|eapply selects_final; eauto|]. by rewrite Ea.
  - apply selected_here; [done|eapply selects_final; eauto|]. by rewrite Ea.
  - eapply selected_later; [|by apply IH]. intros. apply selects_idle; [|done]. by left.
Qed.

Lemma of_query_check m r response :
  well_formed r -> of_query m -> MatchAddressLimit lib IsAndroid (dr_rule r) m response = accepts (dr_rule r) response.
Proof.
  intros [Ha _] Hm. assert (Hi : IgnoreDestinationIPCIDRMatch (from_response (ResetRuleCache m) false) = false) by (by rewrite Hm).
  rewrite MatchAddressLimit_sem by done. change (with_response (facts m) response) with (with_response (facts (from_response (ResetRuleCache m) false)) response).
  by rewrite Hm.
Qed.

Lemma selects_member rules o r rs o' : selects rules o (Some (r, rs)) o' -> r ∈ rules.
Proof.
  intros H. remember (Some (r, rs)) as x eqn:Ex. induction H; simplify_eq; rewrite list_elem_of_In; cbn; rewrite <- ?list_elem_of_In; auto.
Qed.

(** Enough fuel for the rules that are left gives a result. *)
Lemma exchangeLegacy_resolves fuel rules ruleIndex m s :
  Forall well_formed rules -> of_query m ->
  let left := skipn (match ruleIndex with None => 0%nat | Some i => Datatypes.S i end) rules in
  (length left < fuel)%nat ->
  exists x m' s', exchangeLegacy fuel rules q o0 ruleIndex m s = Some (x, m', s') /\ resolves left s x s' /\ of_query m'.
Proof.
  intros HF. revert ruleIndex m s. induction fuel as [|fuel IH]; intros ruleIndex m s Hm left Hlen; [lia|].
  cbn [exchangeLegacy]. unfold matchDNS. set (k := match ruleIndex with None => 0%nat | Some i => Datatypes.S i end) in *.
  assert (HFl : Forall well_formed left) by (by apply list.Forall_drop).
  pose proof (matchDNS_from_selects left k o0 m HFl Hm) as Hsel. fold left. destruct (matchDNS_from _ _ _ _ _ _) as [[[t x] o'] m'].
  destruct Hsel as [Hm' Hsel]. destruct x as [[r i]|]; cbn [addressLimitResponseCheck option_map snd].
  2: { destruct Hsel as [-> Hsel]. destruct (Exchange _ _ _ _) as [x s'] eqn:Ex. exists (result_of DefaultTransport x), m', s'.
       split; [by destruct x|]. split; [by eapply resolves_default|done]. }
  destruct Hsel as (Hi & Hsel & Ht). pose proof (selects_member _ _ _ _ _ Hsel) as Hin.
  assert (Hr : well_formed r) by (rewrite list.Forall_forall in HFl; by apply HFl).
  destruct (dr_action r) as [server action|action|drop|response|] eqn:Ea; try done.
  2: { exists (if drop then ErrDrop else Refused), m', s. destruct r; cbn in Ea; subst. split; [by destruct drop|]. split; [by eapply resolves_reject|done]. }
  2: { exists (Answered response None), m', s. destruct r; cbn in Ea; subst. split; [done|]. split; [by eapply resolves_predefined|done]. }
  destruct Ht as [Et Hne]. destruct t as [t|]; [|done]. symmetry in Et.
  assert (Hcheck : forall response, MatchAddressLimit lib IsAndroid (dr_rule r) m' (Some response) = accepts (dr_rule r) (Some response)) by (intros; by apply of_query_check).
  destruct r as [rr ra]. cbn [dr_action dr_rule] in *. subst ra. destruct (WithAddressLimit rr) eqn:Ew.
  - set (check := fun response => MatchAddressLimit lib IsAndroid rr m' (Some response)) in *. destruct (Exchange _ _ _ _) as [x s'] eqn:Ex.
    assert (Hans : x <> ErrResponseRejected -> resolves left s (result_of t x) s') by (intros; eapply (resolves_limited _ _ _ _ _ _ _ _ check); eauto).
    destruct x as [response| |]; [by exists (Answered response (Some t)), m', s'; auto| |by exists (Failed (Some t)), m', s'; auto].
    assert (El : skipn (Datatypes.S i) rules = skipn (Datatypes.S i - k) left) by (unfold left; rewrite drop_drop; f_equal; lia).
    destruct (IH (Some i) m' s' Hm') as (x & m'' & s'' & Eq & Hres & Hm'').
    { rewrite El, length_drop. destruct left; [by apply not_elem_of_nil in Hin|]. cbn in *. lia. }
    exists x, m'', s''. split; [done|]. split; [|done]. cbn in Hres. rewrite El in Hres. eapply (resolves_rejected _ _ _ _ _ _ _ _ check); eauto.
  - destruct (Exchange _ _ _ _) as [x s'] eqn:Ex. exists (result_of t x), m', s'. split; [by destruct x|]. split; [eapply resolves_open; eauto|done].
Qed.


End Exchange.

End Router.


(** Two rules for two servers, the first limited to 10.0.0.0/8, and a client that asks
    servers with fixed addresses. *)
Definition server (tag : text) : DNSTransport := mkTransport tag false.

Definition no_options : RuleActionDNSRouteOptions := mkRouteOptions 0 0 false None None false.

Definition two_rules : list DNSRule :=
  [mkDNSRule (Default (mkItems [] [] [] [] [IPCIDRItem in_ten false] []) None false None) (ActionDNSRoute (str "inner") no_options);
   mkDNSRule (Default (mkItems [] [] [] [names (str "a.example")] [] []) None false None) (ActionDNSRoute (str "outer") no_options)].

Definition asks (s : list text) (t : DNSTransport) (o : DNSQueryOptions) (check : option (dnsMsg -> bool)) : exchangeResult * list text :=
  let response := mkMsg 0 [RecordA (if bool_decide (Tag t = str "inner") then [192; 0; 2; 1] else [198; 51; 100; 1])] [] [] in
  (match check with Some c => if c response then Exchanged response else ErrResponseRejected | None => Exchanged response end, s ++ [Tag t]).


End DnsRouter.
