(* ===== verification/DnsClient.v ===== *)
(** * The DNS client and its cache

    Models dns/client.go and dns/extension_edns0_subnet.go with the cache in memory:
    the key of a query, the client subnet put into its message, answers from the
    cache, the question to the server, the check and the storing of the response, and
    the refresh of stale entries.  Queries are taken one after another.  What servers
    reply is an oracle; [asked] lists the calls. *)

From S2P Require Import Prelude Bits Bytes GoStrings AllowedIPs GoNetip Rules RulesProps DnsRouter.

Module DnsClient.

Import AllowedIPs DnsRouter.

Local Open Scope Z_scope.

Abbreviation text := (list Z).

(** ** Messages *)

Record Question := mkQuestion { Name : text; Qtype : Z; Qclass : Z }.

Inductive EDNS0 :=
| EDNS0_SUBNET (Family SourceNetmask : Z) (Address : text)
| EDNS0_PADDING (data : text)
| EDNS0_OTHER (code : Z) (data : text).

Inductive svcb := SVCBIPv4Hint (hint : list text) | SVCBIPv6Hint (hint : list text) | SVCBOther (key : Z) (data : text).

Inductive rdata :=
| A (ip : text)
| AAAA (ip : text)
| HTTPS (value : list svcb)
| SOA (Minttl : Z)
| OPT (option : list EDNS0)
| RDOther (rrtype : Z) (data : text).

(** A record with the class and the TTL of its header. *)
Record RR := mkRR { Class : Z; Ttl : Z; Data : rdata }.

Record Msg := mkMsg { Id : Z; Rcode : Z; Questions : list Question; Answer : list RR; Ns : list RR; Extra : list RR }.

Definition TypeA : Z := 1.
Definition TypeAAAA : Z := 28.
Definition TypeHTTPS : Z := 65.
Definition RcodeSuccess : Z := 0.
Definition RcodeFormatError : Z := 1.
Definition RcodeNameError : Z := 3.
Definition DomainStrategyIPv4Only : Z := 3.
Definition DomainStrategyIPv6Only : Z := 4.
Definition Second : Z := 1000000000.

Definition set_answer (m : Msg) (l : list RR) : Msg := mkMsg (Id m) (Rcode m) (Questions m) l (Ns m) (Extra m).
Definition set_extra (m : Msg) (l : list RR) : Msg := mkMsg (Id m) (Rcode m) (Questions m) (Answer m) (Ns m) l.
Definition set_id (m : Msg) (id : Z) : Msg := mkMsg id (Rcode m) (Questions m) (Answer m) (Ns m) (Extra m).

Definition is_opt (r : RR) : bool := match Data r with OPT _ => true | _ => false end.

(** The message as the rules see it. *)
Definition plain_record (r : RR) : Rules.dnsRecord :=
  match Data r with
  | A ip => Rules.RecordA ip
  | AAAA ip => Rules.RecordAAAA ip
  | HTTPS value =>
      Rules.RecordHTTPS (flat_map (fun v => match v with
        | SVCBIPv4Hint hint => map (pair true) hint
        | SVCBIPv6Hint hint => map (pair false) hint
        | SVCBOther _ _ => []
        end) value)
  | _ => Rules.RecordOther
  end.

Definition plain (m : Msg) : Rules.dnsMsg :=
  Rules.mkMsg (Rcode m) (map plain_record (Answer m)) (map plain_record (Ns m)) (map plain_record (Extra m)).

(** ** TTLs *)

Fixpoint extractNegativeTTL (ns : list RR) : option Z :=
  match ns with
  | [] => None
  | r :: ns' => match Data r with SOA minttl => Some (if Ttl r <? minttl then Ttl r else minttl) | _ => extractNegativeTTL ns' end
  end.

Definition min_ttl (timeToLive : Z) (record : RR) : Z :=
  if is_opt record then timeToLive
  else if (timeToLive =? 0) || ((Ttl record >? 0) && (Ttl record <? timeToLive)) then Ttl record else timeToLive.

Definition computeTimeToLive (response : Msg) : Z :=
  match (if bool_decide (Answer response = []) then extractNegativeTTL (Ns response) else None) with
  | Some soaTTL => soaTTL
  | None => fold_left min_ttl (Answer response ++ Ns response ++ Extra response) 0
  end.

Definition normalizeTTL (response : Msg) (timeToLive : Z) : Msg :=
  let set_ttl := map (fun r => if is_opt r then r else mkRR (Class r) timeToLive (Data r)) in
  mkMsg (Id response) (Rcode response) (Questions response) (set_ttl (Answer response)) (set_ttl (Ns response)) (set_ttl (Extra response)).

Definition filter_hints (strategy : Z) (r : RR) : RR :=
  match Data r with
  | HTTPS value =>
      mkRR (Class r) (Ttl r) (HTTPS (List.filter (fun v => match v with
        | SVCBIPv4Hint _ => strategy =? DomainStrategyIPv4Only
        | SVCBIPv6Hint _ => negb (strategy =? DomainStrategyIPv4Only)
        | SVCBOther _ _ => true
        end) value))
  | _ => r
  end.

Definition applyResponseOptions (question : Question) (response : Msg) (options : DNSQueryOptions) : Z * Msg :=
  let response :=
    if (Qtype question =? TypeHTTPS) && ((Strategy options =? DomainStrategyIPv4Only) || (Strategy options =? DomainStrategyIPv6Only))
    then set_answer response (map (filter_hints (Strategy options)) (Answer response)) else response in
  let timeToLive := match RewriteTTL options with Some ttl => ttl | None => computeTimeToLive response end in
  (timeToLive, normalizeTTL response timeToLive).

(** ** Client subnets *)

(** [netip.Prefix{}], and [netip.PrefixFrom] and [netip.AddrFromSlice]. *)
Definition noPrefix : prefix := mkPrefix AddrInvalid (-1).

Definition BitLen (a : addr) : Z := match a with AddrInvalid => 0 | Addr4 _ => 32 | Addr6 _ => 128 end.

Definition PrefixFrom (a : addr) (bits : Z) : prefix :=
  mkPrefix a (match a with AddrInvalid => -1 | _ => if (bits <? 0) || (bits >? BitLen a) then -1 else bits end).

Definition AddrFromSlice (s : text) : option addr :=
  match length s with 4%nat => Some (Addr4 s) | 16%nat => Some (Addr6 s) | _ => None end.

Definition AsSlice (a : addr) : text := match a with AddrInvalid => [] | Addr4 ip | Addr6 ip => ip end.

Definition is_subnet (o : EDNS0) : bool := match o with EDNS0_SUBNET _ _ _ => true | _ => false end.

(** The client subnet options of a message, in order. *)
Definition subnet_options (r : RR) : list (Z * text) :=
  match Data r with
  | OPT options => flat_map (fun o => match o with EDNS0_SUBNET _ mask address => [(mask, address)] | _ => [] end) options
  | _ => []
  end.

Definition clientSubnetFromMessage (message : Msg) : prefix :=
  match flat_map subnet_options (Extra message) with
  | [] => noPrefix
  | (mask, address) :: _ => match AddrFromSlice address with None => noPrefix | Some a => PrefixFrom (Rules.Unmap a) mask end
  end.

Definition removeClientSubnet (message : Msg) : Msg :=
  set_extra message (map (fun r => match Data r with
    | OPT options => mkRR (Class r) (Ttl r) (OPT (List.filter (fun o => negb (is_subnet o)) options))
    | _ => r
    end) (Extra message)).

Definition subnet_option (p : prefix) : EDNS0 :=
  EDNS0_SUBNET (match pfxAddr p with Addr4 _ => 1 | _ => 2 end) (u8 (pfxBits p)) (AsSlice (pfxAddr p)).

Fixpoint replace_option (o : EDNS0) (options : list EDNS0) : list EDNS0 :=
  match options with
  | [] => []
  | x :: options' => if is_subnet x then o :: options' else x :: replace_option o options'
  end.

(** The first client subnet option found is replaced; without one, the last record
    gets one if it is an OPT record, and otherwise the message gets a new record. *)
Fixpoint set_subnet (o : EDNS0) (extra : list RR) : list RR :=
  match extra with
  | [] => [mkRR 0 0 (OPT [o])]
  | r :: extra' =>
      match Data r with
      | OPT options =>
          if existsb is_subnet options then mkRR (Class r) (Ttl r) (OPT (replace_option o options)) :: extra'
          else if bool_decide (extra' = []) then [mkRR (Class r) (Ttl r) (OPT (options ++ [o]))]
          else r :: set_subnet o extra'
      | _ => r :: set_subnet o extra'
      end
  end.

Definition SetClientSubnet (message : Msg) (clientSubnet : prefix) : Msg := set_extra message (set_subnet (subnet_option clientSubnet) (Extra message)).

(** ** The client *)

Record Client := mkClient {
  disableCache : bool;
  disableExpire : bool;
  optimisticTimeout : Z;
  clientSubnet : option prefix
}.

Record dnsCacheKey := mkKey { key_Question : Question; transportTag : text; key_clientSubnet : prefix; environment : Z }.

#[export] Instance question_eq_dec : EqDecision Question.
Proof. solve_decision. Defined.

#[export] Instance key_eq_dec : EqDecision dnsCacheKey.
Proof. solve_decision. Defined.

(** A call of a server, with its time and its response. *)
Record call := mkCall { call_at : Z; call_transport : DNSTransport; call_message : Msg; call_response : Msg }.

(** A refresh that runs in the background. *)
Record refresh := mkRefresh {
  rf_transport : DNSTransport;
  rf_key : dnsCacheKey;
  rf_message : Msg;
  rf_options : DNSQueryOptions;
  rf_check : option (Msg -> bool)
}.

(** The entries of the cache with the time they expire, the rejected questions where
    they are kept, the refreshes under way, and the calls so far. *)
Record state := mkState {
  cache : dnsCacheKey -> option (Msg * Z);
  rdrc : option (text -> text -> Z -> bool);
  backgroundRefresh : list refresh;
  asked : list call
}.

Definition set_cache (st : state) (key : dnsCacheKey) (e : option (Msg * Z)) : state :=
  mkState (fun k => if decide (k = key) then e else cache st k) (rdrc st) (backgroundRefresh st) (asked st).
Definition SaveRDRC (st : state) (tag name : text) (qtype : Z) : state :=
  mkState (cache st)
    (match rdrc st with
     | Some rejected => Some (fun t n q => bool_decide (t = tag /\ n = name /\ q = qtype) || rejected t n q)
     | None => None
     end) (backgroundRefresh st) (asked st).
Definition set_refresh (st : state) (l : list refresh) : state := mkState (cache st) (rdrc st) l (asked st).

Definition empty_state (rdrc : option (text -> text -> Z -> bool)) : state := mkState (fun _ => None) rdrc [] [].

(** [FixedResponseStatus] *)
Definition FixedResponseStatus (message : Msg) (rcode : Z) : Msg := mkMsg (Id message) rcode (Questions message) [] [] [].

(** What a server gives: a message, an error that stands for a status, or another
    error. *)
Inductive reply := Replied (response : Msg) | ReplyRcode (rcode : Z) | ReplyError.

Inductive result := Response (m : Msg) | Rejected | RejectedCached | Failed.

(** [hash/fnv], 64 bits, FNV-1a. *)
Definition fnv64a (bytes : text) : Z := fold_left (fun h b => u64 (Z.lxor h b * 1099511628211)) bytes 14695981039346656037.

Section Exchange.

Context (c : Client).

(** The replies of servers, the environment of a server that has one and the network
    environment, by the number of calls so far; and [IsEdns0], [Version] and
    [SetEdns0] of the miekg/dns library. *)
Context (transport_Exchange : nat -> DNSTransport -> Msg -> reply).
Context (Environment : nat -> DNSTransport -> option (list text)) (NetworkEnvironment : nat -> Z).
Context (IsEdns0 : Msg -> option RR) (Version : RR -> Z) (SetEdns0 : Msg -> RR -> Msg).

Definition environmentHash (n : nat) (transport : DNSTransport) : Z :=
  match Environment n transport with
  | None => 0
  | Some [] => NetworkEnvironment n
  | Some entries => fnv64a (flat_map (fun entry => entry ++ [0]) entries ++ be_bytes 8 (NetworkEnvironment n))
  end.

Definition newCacheKey (n : nat) (transport : DNSTransport) (question : Question) (message : Msg) (options : DNSQueryOptions) : dnsCacheKey :=
  let subnet :=
    if RemoveClientSubnet options then noPrefix
    else match ClientSubnet options with
      | Some p => p
      | None => match clientSubnet c with Some p => p | None => clientSubnetFromMessage message end
      end in
  mkKey question (Tag transport) subnet (environmentHash n transport).

Definition finishCacheKey (n : nat) (transport : DNSTransport) (key : dnsCacheKey) : option dnsCacheKey :=
  let env := environmentHash n transport in
  if (env =? environment key) || (environment key =? 0)
  then Some (mkKey (key_Question key) (transportTag key) (key_clientSubnet key) env) else None.

Definition prepareExchangeMessage (message : Msg) (options : DNSQueryOptions) : Msg :=
  if RemoveClientSubnet options then removeClientSubnet message
  else match (match ClientSubnet options with Some p => Some p | None => clientSubnet c end) with
    | Some p => SetClientSubnet message p
    | None => message
    end.

Definition storeCache (now : Z) (key : dnsCacheKey) (message : Msg) (timeToLive : Z) (st : state) : state :=
  if (timeToLive =? 0) || disableCache c then st else set_cache st key (Some (message, now + Second * timeToLive)).

(** A response with whether it is stale. *)
Definition loadResponse (now : Z) (key : dnsCacheKey) (st : state) : option (Msg * bool) * state :=
  if disableCache c then (None, st)
  else match cache st key with
  | None => (None, st)
  | Some (response, expireAt) =>
      if disableExpire c then (Some (response, false), st)
      else if now >? expireAt then
        if (0 <? optimisticTimeout c) && (now <? expireAt + optimisticTimeout c) then (Some (normalizeTTL response 1, true), st)
        else (None, set_cache st key None)
      else (Some (normalizeTTL response (u32 (Z.max ((expireAt - now) / Second) 0)), false), st)
  end.

(** One question, no authority, and at most an OPT record with client subnets. *)
Definition isSimpleRequest (message : Msg) : bool :=
  (Z.of_nat (length (Questions message)) =? 1) && bool_decide (Ns message = []) &&
  match Extra message with
  | [] => true
  | [r] => match Data r with OPT options => (Class r >? 0) && (Ttl r =? 0) && forallb is_subnet options | _ => false end
  | _ => false
  end.

Definition stripDNSPadding (response : Msg) : Msg :=
  set_extra response (map (fun r => match Data r with
    | OPT options => mkRR (Class r) (Ttl r) (OPT (List.filter (fun o => match o with EDNS0_PADDING _ => false | _ => true end) options))
    | _ => r
    end) (Extra response)).

Definition exchangeToTransport (now : Z) (transport : DNSTransport) (message : Msg) (st : state) : option Msg * state :=
  let answered response := (Some response, mkState (cache st) (rdrc st) (backgroundRefresh st) (asked st ++ [mkCall now transport message response])) in
  match transport_Exchange (length (asked st)) transport message with
  | Replied response => answered (stripDNSPadding response)
  | ReplyRcode rcode => answered (FixedResponseStatus message rcode)
  | ReplyError => (None, st)
  end.

Definition unexpected (response : Msg) : bool := negb (Rcode response =? RcodeSuccess) && negb (Rcode response =? RcodeNameError).

(** The check of a response, which an unexpected status fails. *)
Definition rejects (check : option (Msg -> bool)) (response : Msg) : bool :=
  match check with None => false | Some ok => if unexpected response then true else negb (ok response) end.

Record operation := mkOperation {
  op_message : Msg;
  op_question : Question;
  op_options : DNSQueryOptions;
  op_check : option (Msg -> bool);
  op_disableCache : bool;
  op_cacheKey : dnsCacheKey
}.

(** [beginExchange]: a result at once, or an operation to go on with; [contextTag] is
    the server on whose behalf the query is made. *)
Definition beginExchange (contextTag : option text) (now : Z) (transport : DNSTransport) (message : Msg) (options : DNSQueryOptions)
    (check : option (Msg -> bool)) (st : state) : (result + operation) * state :=
  match Questions message with
  | [] => (inl (Response (FixedResponseStatus message RcodeFormatError)), st)
  | question :: _ =>
      if ((Qtype question =? TypeA) && (Strategy options =? DomainStrategyIPv6Only)) ||
         ((Qtype question =? TypeAAAA) && (Strategy options =? DomainStrategyIPv4Only))
      then (inl (Response (FixedResponseStatus message RcodeSuccess)), st)
      else
        let simple := isSimpleRequest message in
        let message := prepareExchangeMessage message options in
        let nocache := negb simple || disableCache c || DisableCache options in
        let key := newCacheKey (length (asked st)) transport question message options in
        let '(loaded, st) := if nocache then (None, st) else loadResponse now key st in
        match (match loaded with Some (_, true) => if DisableOptimisticCache options then None else loaded | _ => loaded end) with
        | Some (response, stale) =>
            let busy := existsb (fun r => bool_decide (rf_key r = key)) (backgroundRefresh st) in
            (inl (Response (set_id response (Id message))),
             if stale && negb busy then set_refresh st (backgroundRefresh st ++ [mkRefresh transport key message options check]) else st)
        | None =>
            if bool_decide (contextTag = Some (Tag transport)) then (inl Failed, st)
            else if negb nocache && (match check, rdrc st with Some _, Some rejected => rejected (Tag transport) (Name question) (Qtype question) | _, _ => false end)
            then (inl RejectedCached, st)
            else (inr (mkOperation message question options check nocache key), st)
        end
  end.

(** OPT records that the client did not ask for are taken out. *)
Definition fit_edns (request response : Msg) : Msg :=
  match IsEdns0 response with
  | None => response
  | Some opt =>
      let stripped := set_extra response (List.filter (fun r => negb (is_opt r)) (Extra response)) in
      match IsEdns0 request with
      | None => stripped
      | Some opt' => if Version opt' <? Version opt then SetEdns0 stripped opt else response
      end
  end.

Definition finishExchange (now : Z) (transport : DNSTransport) (op : operation) (response : Msg) (st : state) : result * state :=
  let question := op_question op in
  let nocache := op_disableCache op || unexpected response in
  if rejects (op_check op) response then
    (Rejected, if nocache then st else SaveRDRC st (Tag transport) (Name question) (Qtype question))
  else
    let '(timeToLive, response) := applyResponseOptions question response (op_options op) in
    let st := if nocache then st
      else match finishCacheKey (length (asked st)) transport (op_cacheKey op) with
        | Some key => storeCache now key response timeToLive st
        | None => st
        end in
    (Response (fit_edns (op_message op) (set_id response (Id (op_message op)))), st).

Definition Exchange (contextTag : option text) (now : Z) (transport : DNSTransport) (message : Msg) (options : DNSQueryOptions)
    (check : option (Msg -> bool)) (st : state) : result * state :=
  let '(begun, st) := beginExchange contextTag now transport message options check st in
  match begun with
  | inl r => (r, st)
  | inr op =>
      let '(response, st) := exchangeToTransport now transport (op_message op) st in
      match response with
      | None => (Failed, st)
      | Some response => finishExchange now transport op response st
      end
  end.

(** The work of one refresh. *)
Definition backgroundRefreshDNS (now : Z) (r : refresh) (st : state) : state :=
  let key := rf_key r in
  let '(response, st) := exchangeToTransport now (rf_transport r) (rf_message r) st in
  match response with
  | None => st
  | Some response =>
      if rejects (rf_check r) response then SaveRDRC st (Tag (rf_transport r)) (Name (key_Question key)) (Qtype (key_Question key))
      else if unexpected response then st
      else match finishCacheKey (length (asked st)) (rf_transport r) key with
        | None => st
        | Some storeKey =>
            let '(timeToLive, response) := applyResponseOptions (key_Question key) response (rf_options r) in
            storeCache now storeKey response timeToLive st
        end
  end.

(** ** Runs *)

(** Queries, refreshes, entries that the cache gives up and its clearing. *)
Inductive event :=
| EvExchange (contextTag : option text) (transport : DNSTransport) (message : Msg) (options : DNSQueryOptions) (check : option (Msg -> bool))
| EvRefresh
| EvEvict (key : dnsCacheKey)
| EvClear.

Definition step (now : Z) (e : event) (st : state) : state :=
  match e with
  | EvExchange contextTag transport message options check => snd (Exchange contextTag now transport message options check st)
  | EvRefresh => match backgroundRefresh st with [] => st | r :: rest => set_refresh (backgroundRefreshDNS now r st) rest end
  | EvEvict key => set_cache st key None
  | EvClear => mkState (fun _ => None) (rdrc st) (backgroundRefresh st) (asked st)
  end.

Fixpoint run (events : list (Z * event)) (st : state) : state :=
  match events with
  | [] => st
  | (now, e) :: events' => run events' (step now e st)
  end.

End Exchange.

End DnsClient.
