(* ===== verification/DnsCache.v ===== *)
(** * What the DNS client answers

    Every answer of the client of DnsClient.v is a fixed status, comes from the server
    of the query, or was given by that server for the same question and the same client
    subnet not longer ago than its TTL allows. *)

From S2P Require Import Prelude Bits Bytes GoStrings AllowedIPs GoNetip Rules RulesProps DnsRouter DnsClient.

Module DnsCache.

Import AllowedIPs DnsRouter DnsClient.

Local Open Scope Z_scope.

(** The status and the addresses of a message. *)
Definition record_ips (r : RR) : list text := match Data r with A ip | AAAA ip => [ip] | _ => [] end.
Definition summary (m : Msg) : Z * list text := (Rcode m, flat_map record_ips (Answer m)).

(** Every record but OPT records has the TTL. *)
Definition has_ttl (ttl : Z) (m : Msg) : Prop := Forall (fun r => is_opt r = true \/ Ttl r = ttl) (Answer m ++ Ns m ++ Extra m).

(** ** Responses *)

Lemma flat_map_same {X} (f : RR -> list X) (g : RR -> RR) l : (forall r, f (g r) = f r) -> flat_map f (map g l) = flat_map f l.
Proof. intros H. induction l as [|r l IH]; [done|]. cbn. by rewrite H, IH. Qed.

Lemma summary_normalize m ttl : summary (normalizeTTL m ttl) = summary m.
Proof. unfold summary. cbn. f_equal. apply flat_map_same. intros r. by destruct (is_opt r). Qed.

Lemma ttl_normalize m ttl : has_ttl ttl (normalizeTTL m ttl).
Proof.
  unfold has_ttl. cbn. rewrite !Forall_app, !list.Forall_fmap. split_and!; apply list.Forall_true; intros r; cbn; destruct (is_opt r) eqn:E; auto.
Qed.

Lemma normalize_again m ttl ttl' : normalizeTTL (normalizeTTL m ttl) ttl' = normalizeTTL m ttl'.
Proof.
  unfold normalizeTTL. cbn. f_equal; rewrite map_map; apply map_ext; intros r; destruct (is_opt r) eqn:E; rewrite ?E; try done; unfold is_opt in *; cbn; by rewrite E.
Qed.

Lemma filter_hints_kind strategy r : is_opt (filter_hints strategy r) = is_opt r /\ Ttl (filter_hints strategy r) = Ttl r /\ record_ips (filter_hints strategy r) = record_ips r.
Proof. unfold filter_hints, is_opt, record_ips. destruct (Data r) eqn:E; rewrite ?E; cbn; rewrite ?E; done. Qed.

Lemma fold_min_hints strategy l t : fold_left min_ttl (map (filter_hints strategy) l) t = fold_left min_ttl l t.
Proof.
  revert t. induction l as [|r l IH]; intros t; [done|]. cbn. rewrite IH. f_equal. unfold min_ttl.
  destruct (filter_hints_kind strategy r) as (-> & -> & _). done.
Qed.

Lemma compute_hints strategy m : computeTimeToLive (set_answer m (map (filter_hints strategy) (Answer m))) = computeTimeToLive m.
Proof.
  unfold computeTimeToLive. cbn. rewrite !fold_left_app, fold_min_hints. by destruct (Answer m).
Qed.

(** The TTL given to a response: its own, or the one of the options. *)
Lemma applyResponseOptions_spec q m options ttl m' :
  applyResponseOptions q m options = (ttl, m') ->
  summary m' = summary m /\ has_ttl ttl m' /\ (RewriteTTL options = Some ttl \/ ttl = computeTimeToLive m).
Proof.
  unfold applyResponseOptions. set (m1 := if _ && _ then _ else m). intros [= <- <-].
  assert (Hm1 : summary m1 = summary m /\ computeTimeToLive m1 = computeTimeToLive m).
  { subst m1. destruct (_ && _); [|done]. split; [|apply compute_hints]. unfold summary. cbn. f_equal. apply flat_map_same. intros r. apply filter_hints_kind. }
  destruct Hm1 as [H1 H2]. rewrite summary_normalize. split; [done|]. split; [apply ttl_normalize|]. destruct (RewriteTTL options); auto.
Qed.

Lemma fold_min_le l t : 0 < t -> 0 < fold_left min_ttl l t <= t.
Proof.
  revert t. induction l as [|r l IH]; intros t Ht; [cbn; lia|]. cbn.
  assert (H : 0 < min_ttl t r <= t).
  { unfold min_ttl. destruct (is_opt r), (Z.eqb_spec t 0), (Z.gtb_spec (Ttl r) 0), (Z.ltb_spec (Ttl r) t); cbn; lia. }
  specialize (IH (min_ttl t r)). lia.
Qed.

Lemma fold_min_member l t r :
  Forall (fun r => 0 <= Ttl r) l -> r ∈ l -> is_opt r = false -> 0 < Ttl r -> 0 <= t -> 0 < fold_left min_ttl l t <= Ttl r.
Proof.
  intros HF. revert t. induction HF as [|r' l Hr' HF IH]; intros t Hin Ho Ht H0; [by apply not_elem_of_nil in Hin|].
  cbn. apply elem_of_cons in Hin as [<-|Hin].
  - assert (H : 0 < min_ttl t r <= Ttl r).
    { unfold min_ttl. rewrite Ho. destruct (Z.eqb_spec t 0), (Z.gtb_spec (Ttl r) 0), (Z.ltb_spec (Ttl r) t); cbn; lia. }
    pose proof (fold_min_le l (min_ttl t r)). lia.
  - apply IH; [done..|]. unfold min_ttl. destruct (is_opt r'), (Z.eqb_spec t 0), (Z.gtb_spec (Ttl r') 0), (Z.ltb_spec (Ttl r') t); cbn; lia.
Qed.

(** The TTL computed for a response with answers is no more than that of any of its
    records that has one. *)
Lemma computed_ttl_le m r :
  Forall (fun r => 0 <= Ttl r) (Answer m ++ Ns m ++ Extra m) -> Answer m <> [] -> r ∈ Answer m ++ Ns m ++ Extra m -> is_opt r = false ->
  0 < Ttl r -> 0 < computeTimeToLive m <= Ttl r.
Proof. intros HF Ha Hin Ho Ht. unfold computeTimeToLive. rewrite bool_decide_eq_false_2 by done. by apply fold_min_member. Qed.

(** ** Client subnets *)

Definition norm (p : prefix) : prefix := PrefixFrom (Rules.Unmap (pfxAddr p)) (pfxBits p).

Definition subnet_ok (p : option prefix) : Prop := match p with Some p => prefix_ok p | None => True end.

Definition subnets_of (options : list EDNS0) : list (Z * text) :=
  flat_map (fun o => match o with EDNS0_SUBNET _ mask address => [(mask, address)] | _ => [] end) options.

Lemma subnets_removed options : subnets_of (List.filter (fun o => negb (is_subnet o)) options) = [].
Proof. induction options as [|o os IH]; [done|]. by destruct o. Qed.

Lemma subnets_none options : existsb is_subnet options = false -> subnets_of options = [].
Proof. induction options as [|o os IH]; [done|]. by destruct o. Qed.

Lemma subnets_replaced family mask address options :
  existsb is_subnet options = true -> exists rest, subnets_of (replace_option (EDNS0_SUBNET family mask address) options) = (mask, address) :: rest.
Proof. induction options as [|o os IH]; [done|]. destruct o; cbn; eauto. Qed.

Lemma remove_no_subnet message : clientSubnetFromMessage (removeClientSubnet message) = noPrefix.
Proof.
  unfold clientSubnetFromMessage, removeClientSubnet. cbn [Extra set_extra].
  assert (H : flat_map subnet_options (map (fun r => match Data r with
    | OPT options => mkRR (Class r) (Ttl r) (OPT (List.filter (fun o => negb (is_subnet o)) options)) | _ => r end) (Extra message)) = []); [|by rewrite H].
  induction (Extra message) as [|r l IH]; [done|]. cbn [map flat_map]. rewrite IH, app_nil_r. unfold subnet_options.
  destruct (Data r) eqn:E; rewrite ?E; try done. apply subnets_removed.
Qed.

Lemma set_subnet_first family mask address extra :
  exists rest, flat_map subnet_options (set_subnet (EDNS0_SUBNET family mask address) extra) = (mask, address) :: rest.
Proof.
  induction extra as [|r l [rest IH]]; [by eexists|]. cbn [set_subnet]. destruct (Data r) as [| | | |options|] eqn:E;
    try (exists rest; cbn [flat_map]; unfold subnet_options at 1; by rewrite E).
  destruct (existsb is_subnet options) eqn:Es.
  - destruct (subnets_replaced family mask address options Es) as [rest' H]. eexists. cbn [flat_map]. unfold subnet_options at 1. cbn [Data].
    fold (subnets_of (replace_option (EDNS0_SUBNET family mask address) options)). by rewrite H.
  - pose proof (subnets_none options Es) as Hn. case_bool_decide.
    + exists []. cbn [flat_map]. unfold subnet_options. cbn [Data]. rewrite flat_map_app. fold (subnets_of options). by rewrite Hn.
    + exists rest. cbn [flat_map]. unfold subnet_options at 1. rewrite E. fold (subnets_of options). by rewrite Hn.
Qed.

Lemma set_subnet_read message p : prefix_ok p -> clientSubnetFromMessage (SetClientSubnet message p) = norm p.
Proof.
  intros Hp. unfold clientSubnetFromMessage, SetClientSubnet. cbn [Extra set_extra]. unfold subnet_option.
  destruct (set_subnet_first (match pfxAddr p with Addr4 _ => 1 | _ => 2 end) (u8 (pfxBits p)) (AsSlice (pfxAddr p)) (Extra message)) as [rest ->].
  rewrite (prefix_u8 p Hp). destruct Hp as [Ha _]. unfold norm, AddrFromSlice, AsSlice.
  destruct (pfxAddr p); [done|destruct Ha as [-> _]; done..].
Qed.

Lemma norm_read message : norm (clientSubnetFromMessage message) = clientSubnetFromMessage message.
Proof.
  unfold clientSubnetFromMessage. destruct (flat_map _ _) as [|[mask address] rest]; [done|]. destruct (AddrFromSlice address) as [a|]; [|done].
  unfold norm. cbn [pfxAddr pfxBits PrefixFrom]. unfold PrefixFrom. cbn.
  assert (Hu : Rules.Unmap (Rules.Unmap a) = Rules.Unmap a) by (destruct a as [| |ip]; try done; cbn; destruct (GoNetip.Is4In6 ip) eqn:E; cbn; by rewrite ?E).
  rewrite Hu. destruct (Rules.Unmap a) as [|ip|ip]; [done|..]; cbn; destruct ((mask <? 0) || (mask >? _)) eqn:E; cbn; rewrite ?E; done.
Qed.

Lemma head_prepared c message options : Questions (prepareExchangeMessage c message options) = Questions message.
Proof. unfold prepareExchangeMessage. destruct (RemoveClientSubnet options); [done|]. by destruct (ClientSubnet options), (clientSubnet c). Qed.

Section Runs.

Context (c : Client).
Context (transport_Exchange : nat -> DNSTransport -> Msg -> reply).
Context (Environment : nat -> DNSTransport -> option (list text)) (NetworkEnvironment : nat -> Z).
Context (IsEdns0 : Msg -> option RR) (Version : RR -> Z) (SetEdns0 : Msg -> RR -> Msg).
Context (HEdns : forall m r, Rcode (SetEdns0 m r) = Rcode m /\ Answer (SetEdns0 m r) = Answer m).
Context (Hsubnet : subnet_ok (clientSubnet c)).

(** The TTLs that options may set. *)
Context (W : Z -> Prop).

Definition options_ok (o : DNSQueryOptions) : Prop := subnet_ok (ClientSubnet o) /\ forall ttl, RewriteTTL o = Some ttl -> W ttl.

(** A message to a server asks what a key stands for. *)
Definition asks_for (key : dnsCacheKey) (t : DNSTransport) (message : Msg) : Prop :=
  Tag t = transportTag key /\ head (Questions message) = Some (key_Question key) /\ clientSubnetFromMessage message = norm (key_clientSubnet key).

(** Where an entry of the cache comes from. *)
Definition entry_ok (calls : list call) (key : dnsCacheKey) (m : Msg) (expireAt : Z) : Prop :=
  exists x ttl, x ∈ calls /\ asks_for key (call_transport x) (call_message x) /\ summary m = summary (call_response x) /\
    has_ttl ttl m /\ expireAt = call_at x + Second * ttl /\ (W ttl \/ ttl = computeTimeToLive (call_response x)).

Record cache_inv (st : state) : Prop := mkInv {
  inv_entries : forall key m expireAt, cache st key = Some (m, expireAt) -> entry_ok (asked st) key m expireAt;
  inv_refresh : Forall (fun r => asks_for (rf_key r) (rf_transport r) (rf_message r) /\ options_ok (rf_options r)) (backgroundRefresh st)
}.

Lemma key_asks n t question message options :
  options_ok options -> head (Questions message) = Some question ->
  asks_for (newCacheKey c Environment NetworkEnvironment n t question (prepareExchangeMessage c message options) options) t (prepareExchangeMessage c message options).
Proof.
  intros [Ho _] Hq. split; [done|]. rewrite head_prepared. split; [done|]. unfold newCacheKey, prepareExchangeMessage. cbn [key_clientSubnet].
  destruct (RemoveClientSubnet options); [apply remove_no_subnet|].
  destruct (ClientSubnet options) as [p|]; [by apply set_subnet_read|].
  destruct (clientSubnet c) as [p|]; [by apply set_subnet_read|]. symmetry. apply norm_read.
Qed.

Lemma asks_finish n t key key' t' m : finishCacheKey Environment NetworkEnvironment n t key = Some key' -> asks_for key t' m -> asks_for key' t' m.
Proof. unfold finishCacheKey. destruct (_ || _); [|done]. intros [= <-]. done. Qed.

Lemma inv_more st x : cache_inv st -> cache_inv (mkState (cache st) (rdrc st) (backgroundRefresh st) (asked st ++ [x])).
Proof.
  intros [H1 H2]. constructor; [|done]. cbn. intros key m e Hk. destruct (H1 _ _ _ Hk) as (y & ttl & Hy & H). exists y, ttl. split; [|done].
  rewrite elem_of_app. by left.
Qed.

Lemma inv_rejected st tag name qtype : cache_inv st -> cache_inv (SaveRDRC st tag name qtype).
Proof. intros [H1 H2]. by constructor. Qed.

Lemma inv_evict st key : cache_inv st -> cache_inv (set_cache st key None).
Proof. intros [H1 H2]. constructor; [|done]. cbn. intros k m e. destruct (decide (k = key)); [done|apply H1]. Qed.

Lemma inv_begin_refresh st r (b : bool) :
  cache_inv st -> asks_for (rf_key r) (rf_transport r) (rf_message r) -> options_ok (rf_options r) ->
  let st' := if b then set_refresh st (backgroundRefresh st ++ [r]) else st in cache_inv st' /\ asked st' = asked st.
Proof.
  intros Hi Hk Ho. destruct b; [|done]. split; [|done]. destruct Hi as [H1 H2]. constructor; [done|]. cbn. apply Forall_app. split; [done|].
  by apply list.Forall_singleton.
Qed.

(** Storing a response just received. *)
Lemma inv_store now key q x options ttl m st :
  cache_inv st -> x ∈ asked st -> call_at x = now -> asks_for key (call_transport x) (call_message x) -> options_ok options ->
  applyResponseOptions q (call_response x) options = (ttl, m) -> cache_inv (storeCache c now key m ttl st).
Proof.
  intros [H1 H2] Hx Hat Hk [_ HW] Ha. unfold storeCache. destruct (_ || _); [by constructor|]. constructor; [|done]. cbn. intros k m' e.
  destruct (decide (k = key)) as [->|]; [|apply H1]. intros [= <- <-]. destruct (applyResponseOptions_spec _ _ _ _ _ Ha) as (Hs & Ht & Hr).
  exists x, ttl. split_and!; try done; [by rewrite Hat|]. destruct Hr; auto.
Qed.

(** A response whose TTL has not run out, or not longer than stale answers are
    allowed; its records show the time left. *)
Definition lifetime (now expireAt ttl : Z) (r : Msg) : Prop :=
  if disableExpire c then has_ttl ttl r
  else (now <= expireAt /\ has_ttl (u32 (Z.max ((expireAt - now) / Second) 0)) r) \/
       (expireAt < now < expireAt + optimisticTimeout c /\ has_ttl 1 r).

(** The strategy excludes the family of addresses that is asked for. *)
Definition excluded (message : Msg) (options : DNSQueryOptions) : Prop :=
  exists question, head (Questions message) = Some question /\
    ((Qtype question = TypeA /\ Strategy options = DomainStrategyIPv6Only) \/
     (Qtype question = TypeAAAA /\ Strategy options = DomainStrategyIPv4Only)).

(** Where an answer comes from: a status the client gives by itself; a call made
    before, to the same server for the same question and client subnet, whose TTL - its
    own or set by options - allows it; or a call for the query, whose response passes
    the check. *)
Inductive answer_source (now : Z) (t : DNSTransport) (message : Msg) (options : DNSQueryOptions) (check : option (Msg -> bool)) (st st' : state) (r : Msg) : Prop :=
| source_fixed rcode :
    asked st' = asked st -> r = FixedResponseStatus message rcode ->
    (Questions message = [] /\ rcode = RcodeFormatError) \/ (excluded message options /\ rcode = RcodeSuccess) ->
    answer_source now t message options check st st' r
| source_cache x ttl :
    asked st' = asked st -> x ∈ asked st -> Tag (call_transport x) = Tag t -> head (Questions (call_message x)) = head (Questions message) ->
    clientSubnetFromMessage (call_message x) = clientSubnetFromMessage (prepareExchangeMessage c message options) ->
    summary r = summary (call_response x) -> W ttl \/ ttl = computeTimeToLive (call_response x) ->
    lifetime now (call_at x + Second * ttl) ttl r ->
    answer_source now t message options check st st' r
| source_server x :
    asked st' = asked st ++ [x] -> call_at x = now -> call_transport x = t -> call_message x = prepareExchangeMessage c message options ->
    summary r = summary (call_response x) -> rejects check (call_response x) = false ->
    answer_source now t message options check st st' r.

Definition from_call (now : Z) (key : dnsCacheKey) (calls : list call) (r : Msg) : Prop :=
  exists x ttl, x ∈ calls /\ asks_for key (call_transport x) (call_message x) /\ summary r = summary (call_response x) /\
    (W ttl \/ ttl = computeTimeToLive (call_response x)) /\ lifetime now (call_at x + Second * ttl) ttl r.

(** What is loaded from the cache. *)
Lemma loadResponse_spec now key st loaded st' :
  cache_inv st -> loadResponse c now key st = (loaded, st') ->
  cache_inv st' /\ asked st' = asked st /\
  forall r stale, loaded = Some (r, stale) ->
    from_call now key (asked st) r.
Proof.
  intros Hi. unfold loadResponse. destruct (disableCache c); [by intros [= <- <-]|].
  destruct (cache st key) as [[m e]|] eqn:Ec; [|by intros [= <- <-]].
  destruct (inv_entries _ Hi _ _ _ Ec) as (x & ttl & Hx & Hk & Hs & Ht & He & Hw).
  assert (Hsrc : forall r, summary r = summary m -> lifetime now e ttl r ->
    from_call now key (asked st) r).
  { intros r Hr Hl. exists x, ttl. rewrite Hr, <- He. done. }
  unfold lifetime in Hsrc. destruct (disableExpire c) eqn:Ed.
  { intros [= <- <-]. split_and!; [done..|]. intros r stale [= <- <-]. by apply Hsrc. }
  destruct (Z.gtb_spec now e).
  - destruct ((0 <? _) && _) eqn:Eo.
    + intros [= <- <-]. split_and!; [done..|]. intros r stale [= <- <-]. apply Hsrc; [apply summary_normalize|]. right.
      rewrite andb_true_iff, !Z.ltb_lt in Eo. split; [lia|apply ttl_normalize].
    + intros [= <- <-]. split_and!; [by apply inv_evict|done..].
  - intros [= <- <-]. split_and!; [done..|]. intros r stale [= <- <-]. apply Hsrc; [apply summary_normalize|]. left. split; [lia|apply ttl_normalize].
Qed.

(** The operation of a query that goes to its server. *)
Definition operation_ok (message : Msg) (t : DNSTransport) (options : DNSQueryOptions) (check : option (Msg -> bool)) (op : operation) : Prop :=
  op_message op = prepareExchangeMessage c message options /\ op_options op = options /\ op_check op = check /\ asks_for (op_cacheKey op) t (op_message op).

Lemma beginExchange_spec ctx now t message options check st begun st' :
  cache_inv st -> options_ok options ->
  beginExchange c Environment NetworkEnvironment ctx now t message options check st = (begun, st') ->
  cache_inv st' /\ asked st' = asked st /\
  match begun with
  | inl (Response r) => answer_source now t message options check st st' r
  | inl _ => True
  | inr op => operation_ok message t options check op
  end.
Proof.
  intros Hi Ho. unfold beginExchange. destruct (Questions message) as [|question qs] eqn:Eq.
  { intros [= <- <-]. split_and!; [done..|]. by eapply source_fixed; [| |left]. }
  destruct (_ || _) eqn:Es.
  { intros [= <- <-]. split_and!; [done..|]. eapply source_fixed; [done..|]. right. split; [|done].
    exists question. split; [by rewrite Eq|]. rewrite orb_true_iff, !andb_true_iff, !Z.eqb_eq in Es. tauto. }
  set (nocache := _ || DisableCache options). set (sent := prepareExchangeMessage c message options).
  set (key := newCacheKey c Environment NetworkEnvironment (length (asked st)) t question sent options).
  assert (Hk : asks_for key t sent) by (apply key_asks; [done|by rewrite Eq]).
  destruct (if nocache then (None, st) else loadResponse c now key st) as [loaded st1] eqn:El.
  assert (Hl : cache_inv st1 /\ asked st1 = asked st /\ forall r stale, loaded = Some (r, stale) ->
    from_call now key (asked st) r).
  { destruct nocache; [injection El as <- <-; done|]. by eapply loadResponse_spec. }
  destruct Hl as (Hi1 & Ha1 & Hl).
  set (taken := match loaded with Some (_, true) => if DisableOptimisticCache options then None else loaded | _ => loaded end).
  destruct taken as [[r stale]|] eqn:Et.
  - assert (El' : loaded = Some (r, stale)) by (subst taken; destruct loaded as [[? []]|]; try destruct (DisableOptimisticCache options); done).
    destruct (Hl _ _ El') as (x & ttl & Hx & (K1 & K2 & K3) & Hs & Hw & Hlt). destruct Hk as (J1 & J2 & J3).
    intros [= <- <-]. set (st2 := if _ : bool then _ else st1).
    assert (H2 : cache_inv st2 /\ asked st2 = asked st).
    { destruct (inv_begin_refresh st1 (mkRefresh t key sent options check) (stale && negb (existsb (fun r => bool_decide (rf_key r = key)) (backgroundRefresh st1)))) as [I1 I2];
        [done..|]. split; [exact I1|]. by rewrite <- Ha1. }
    destruct H2 as [H2 H3]. split_and!; [done..|]. eapply (source_cache _ _ _ _ _ _ _ _ x ttl); try done.
    + rewrite K2, <- J2. unfold sent. by rewrite head_prepared.
    + by rewrite K3, <- J3.
  - destruct (bool_decide _); [by intros [= <- <-]|]. destruct (negb nocache && _); intros [= <- <-]; done.
Qed.


Lemma exchangeToTransport_spec now t message st response st' :
  cache_inv st -> exchangeToTransport transport_Exchange now t message st = (response, st') ->
  cache_inv st' /\
  match response with
  | Some m => exists x, asked st' = asked st ++ [x] /\ call_at x = now /\ call_transport x = t /\ call_message x = message /\ call_response x = m
  | None => asked st' = asked st
  end.
Proof.
  intros Hi. unfold exchangeToTransport. destruct (transport_Exchange _ _ _); intros [= <- <-]; [| |done].
  all: split; [by apply inv_more|]; by eexists.
Qed.

Lemma summary_fit request response : summary (fit_edns IsEdns0 Version SetEdns0 request response) = summary response.
Proof.
  unfold fit_edns. destruct (IsEdns0 response) as [opt|]; [|done]. destruct (IsEdns0 request) as [opt'|]; [|done].
  destruct (_ <? _); [|done]. unfold summary. by destruct (HEdns (set_extra response (List.filter (fun r => negb (is_opt r)) (Extra response))) opt) as [-> ->].
Qed.

Lemma finishExchange_spec now t op x st r st' :
  cache_inv st -> x ∈ asked st -> call_at x = now -> asks_for (op_cacheKey op) (call_transport x) (call_message x) -> options_ok (op_options op) ->
  finishExchange c Environment NetworkEnvironment IsEdns0 Version SetEdns0 now t op (call_response x) st = (r, st') ->
  cache_inv st' /\ asked st' = asked st /\
  match r with Response m => summary m = summary (call_response x) /\ rejects (op_check op) (call_response x) = false | _ => True end.
Proof.
  intros Hi Hx Hat Hk Ho. unfold finishExchange. destruct (rejects _ _) eqn:Er.
  { intros [= <- <-]. split_and!; [|by destruct (_ || _)|done]. destruct (_ || _); [done|by apply inv_rejected]. }
  destruct (applyResponseOptions _ _ _) as [ttl m] eqn:Ea. intros [= <- <-]. destruct (applyResponseOptions_spec _ _ _ _ _ Ea) as (Hs & _ & _).
  rewrite summary_fit. destruct (_ || _); [done|]. destruct (finishCacheKey _ _ _ _ _) as [key'|] eqn:Ef; [|done]. split_and!; [|by unfold storeCache; destruct (_ || _)|done|done].
  eapply inv_store; [done|done|done|by eapply asks_finish|done|done].
Qed.

Lemma Exchange_spec ctx now t message options check st r st' :
  cache_inv st -> options_ok options ->
  Exchange c transport_Exchange Environment NetworkEnvironment IsEdns0 Version SetEdns0 ctx now t message options check st = (r, st') ->
  cache_inv st' /\ match r with Response m => answer_source now t message options check st st' m | _ => True end.
Proof.
  intros Hi Ho. unfold Exchange. destruct (beginExchange _ _ _ _ _ _ _ _ _ _) as [begun st1] eqn:Eb.
  destruct (beginExchange_spec _ _ _ _ _ _ _ _ _ Hi Ho Eb) as (Hi1 & Ha1 & Hb).
  destruct begun as [r0|op]; [by intros [= <- <-]|]. destruct Hb as (O1 & O2 & O3 & O4).
  destruct (exchangeToTransport _ _ _ _ _) as [response st2] eqn:Ee.
  destruct (exchangeToTransport_spec _ _ _ _ _ _ Hi1 Ee) as (Hi2 & Hr). destruct response as [m|]; [|by intros [= <- <-]].
  destruct Hr as (x & Ha2 & X1 & X2 & X3 & X4). intros Ef. rewrite <- X4 in Ef.
  destruct (finishExchange_spec now t op x st2 r st' Hi2) as (Hi3 & Ha3 & Hs); try done.
  - rewrite Ha2. apply elem_of_app. right. by apply list_elem_of_singleton.
  - by rewrite X2, X3.
  - by rewrite O2.
  - split; [done|]. destruct r as [m'| | |]; [|done..]. destruct Hs as [Hs Hj]. rewrite O3 in Hj. eapply (source_server _ _ _ _ _ _ _ _ x); try done; [|by rewrite X3].
    by rewrite Ha3, Ha2, Ha1.
Qed.

Lemma refresh_inv now r st :
  cache_inv st -> asks_for (rf_key r) (rf_transport r) (rf_message r) -> options_ok (rf_options r) ->
  cache_inv (backgroundRefreshDNS c transport_Exchange Environment NetworkEnvironment now r st).
Proof.
  intros Hi Hk Ho. unfold backgroundRefreshDNS. destruct (exchangeToTransport _ _ _ _ _) as [response st2] eqn:Ee.
  destruct (exchangeToTransport_spec _ _ _ _ _ _ Hi Ee) as (Hi2 & Hr). destruct response as [m|]; [|done].
  destruct Hr as (x & Ha2 & X1 & X2 & X3 & X4). destruct (rejects _ _); [by apply inv_rejected|]. destruct (unexpected m); [done|].
  destruct (finishCacheKey _ _ _ _ _) as [key'|] eqn:Ef; [|done]. destruct (applyResponseOptions _ _ _) as [ttl m'] eqn:Ea. rewrite <- X4 in Ea.
  eapply inv_store; [done| |done|eapply asks_finish; [done|by rewrite X2, X3]|done|done].
  rewrite Ha2. apply elem_of_app. right. by apply list_elem_of_singleton.
Qed.

Definition event_ok (e : event) : Prop := match e with EvExchange _ _ _ options _ => options_ok options | _ => True end.

Abbreviation step := (step c transport_Exchange Environment NetworkEnvironment IsEdns0 Version SetEdns0).
Abbreviation run := (run c transport_Exchange Environment NetworkEnvironment IsEdns0 Version SetEdns0).

Lemma step_inv now e st : cache_inv st -> event_ok e -> cache_inv (step now e st).
Proof.
  intros Hi He. destruct e as [ctx t message options check| |key|]; cbn.
  - destruct (Exchange _ _ _ _ _ _ _ _ _ _ _ _ _ _) as [r st'] eqn:Ee. by eapply Exchange_spec.
  - destruct Hi as [H1 H2]. destruct (backgroundRefresh st) as [|r rest] eqn:Er; [by constructor; rewrite ?Er|]. apply list.Forall_cons in H2 as [[Hk Ho] H2].
    assert (Hi : cache_inv st) by (constructor; [done|rewrite Er; by constructor]).
    destruct (refresh_inv now r st Hi Hk Ho) as [H3 _]. constructor; done.
  - by apply inv_evict.
  - destruct Hi as [H1 H2]. by constructor.
Qed.

Lemma run_inv events st : cache_inv st -> Forall (fun e => event_ok (snd e)) events -> cache_inv (run events st).
Proof.
  intros Hi HF. revert st Hi. induction HF as [|[now e] events He HF IH]; intros st Hi; [done|]. cbn. apply IH. by apply step_inv.
Qed.

Lemma empty_inv r : cache_inv (empty_state r).
Proof. constructor; done. Qed.

End Runs.

(** C15. what the DNS client answers was said by the server that was asked.  In every
    run of queries, refreshes and evictions, an answer is a format error for a query
    without a question, or an empty success for an A query under the IPv6-only and an
    AAAA query under the IPv4-only strategy; or it has the status and the addresses of
    a response that this server gave: in a call made for this query whose response
    passes the check, or in an earlier call with the same question and the same client
    subnet.  In the last case the cached answer is either within the TTL of that
    response, or one set by options, and its records show the time that is left; or it
    is past it by less than the time stale answers are served, and its records show
    one second.  A client with [disable_expire] keeps answers for any time, with their
    first TTL. *)
Theorem dns_answers_from_server c transport_Exchange Environment NetworkEnvironment IsEdns0 Version SetEdns0 (W : Z -> Prop) events rdrc0
    ctx now t message options check m st' :
  (forall m r, Rcode (SetEdns0 m r) = Rcode m /\ Answer (SetEdns0 m r) = Answer m) -> subnet_ok (clientSubnet c) ->
  Forall (fun e => event_ok W (snd e)) events -> options_ok W options ->
  let st := run c transport_Exchange Environment NetworkEnvironment IsEdns0 Version SetEdns0 events (empty_state rdrc0) in
  Exchange c transport_Exchange Environment NetworkEnvironment IsEdns0 Version SetEdns0 ctx now t message options check st = (Response m, st') ->
  answer_source c W now t message options check st st' m.
Proof.
  intros HE Hs HF Ho st H. apply (Exchange_spec c transport_Exchange Environment NetworkEnvironment IsEdns0 Version SetEdns0 HE Hs W ctx now t message options check st (Response m) st'); [|done..].
  apply run_inv; [done..|apply empty_inv|done].
Qed.

(** A client without options, and servers with one address each. *)
Definition plain_client : Client := mkClient false false 0 None.
Definition plain_options : DNSQueryOptions := mkOptions 0 false false None 0 None false.
Definition fixed_servers (n : nat) (t : DNSTransport) (message : Msg) : reply :=
  Replied (mkMsg 0 0 (Questions message) [mkRR 1 300 (A (if bool_decide (Tag t = str "inner") then [192; 0; 2; 1] else [198; 51; 100; 1]))] [] []).
Definition a_query : Msg := mkMsg 7 0 [mkQuestion (str "a.example.") TypeA 1] [] [] [].
Definition no_environment (n : nat) (t : DNSTransport) : option (list text) := None.
Definition no_edns (m : Msg) : option RR := None.
Definition inner : DNSTransport := mkTransport (str "inner") false.

(** A second query a minute after the first. *)
Lemma dns_answers_from_server_witness :
  let st := run plain_client fixed_servers no_environment (fun _ => 0) no_edns Ttl (fun m _ => m) [(0, EvExchange None inner a_query plain_options None)] (empty_state None) in
  exists m st', Exchange plain_client fixed_servers no_environment (fun _ => 0) no_edns Ttl (fun m _ => m) None (60 * Second) inner a_query plain_options None st = (Response m, st') /\
    Answer m = [mkRR 1 240 (A [192; 0; 2; 1])] /\
    answer_source plain_client (fun _ => False) (60 * Second) inner a_query plain_options None st st' m.
Proof.
  eexists _, _. split; [reflexivity|]. split; [vm_compute; reflexivity|].
  eapply (dns_answers_from_server plain_client fixed_servers no_environment (fun _ => 0) no_edns Ttl (fun m _ => m) (fun _ => False)
    [(0, EvExchange None inner a_query plain_options None)] None None (60 * Second) inner a_query plain_options None); [done|done| |done|reflexivity].
  repeat constructor; done.
Defined.

(** C35. the check of a response does not see answers from the cache.  While a server's
    response is in the cache, a query for its key is answered with it whatever the
    check of the query says, so a rule with an address limit is not held to it. *)
Theorem cached_answer_unchecked c transport_Exchange Environment NetworkEnvironment IsEdns0 Version SetEdns0 ctx now t message options question m expireAt st :
  disableCache c = false -> disableExpire c = false -> DisableCache options = false -> Strategy options = 0 ->
  isSimpleRequest message = true -> head (Questions message) = Some question ->
  cache st (newCacheKey c Environment NetworkEnvironment (length (asked st)) t question (prepareExchangeMessage c message options) options) = Some (m, expireAt) ->
  now <= expireAt ->
  forall check, exists r,
    Exchange c transport_Exchange Environment NetworkEnvironment IsEdns0 Version SetEdns0 ctx now t message options check st = (Response r, st) /\ summary r = summary m.
Proof.
  intros Hc He Ho Hs Hr Hq Hk Hn check. unfold Exchange, beginExchange. destruct (Questions message) as [|q qs] eqn:Eq; [done|]. injection Hq as ->.
  rewrite Hr, Hc, Ho, Hs. cbn [negb orb]. change (0 =? DomainStrategyIPv6Only) with false. change (0 =? DomainStrategyIPv4Only) with false.
  rewrite !andb_false_r. cbn [orb]. unfold loadResponse. rewrite Hc, Hk, He. destruct (Z.gtb_spec now expireAt); [lia|]. cbn [andb].
  eexists. split; [done|]. exact (summary_normalize m (u32 (Z.max ((expireAt - now) / Second) 0))).
Qed.

(** The client as the router of DnsRouter.v uses it. *)
Definition client_exchange (now : Z) (message : Msg) (st : state) (t : DNSTransport) (o : DNSQueryOptions) (check : option (Rules.dnsMsg -> bool))
    : exchangeResult * state :=
  let '(r, st) := Exchange plain_client fixed_servers no_environment (fun _ => 0) no_edns Ttl (fun m _ => m) None now t message o
    (option_map (fun ok m => ok (plain m)) check) st in
  (match r with Response m => Exchanged (plain m) | Rejected | RejectedCached => ErrResponseRejected | Failed => ErrExchange end, st).

(** A rule for one client and one, limited to 10.0.0.0/8, for every client, both for
    the same server. *)
Definition shared_server : list DNSRule :=
  [mkDNSRule (Rules.Default (Rules.mkItems [] [] [Rules.PortItem true [1]] [] [] []) None false None) (ActionDNSRoute (str "inner") no_options);
   mkDNSRule (Rules.Default (Rules.mkItems [] [] [] [] [Rules.IPCIDRItem RulesProps.in_ten false] []) None false None) (ActionDNSRoute (str "inner") no_options)].

Definition from_port (port : Z) : Rules.InboundContext :=
  let f := RulesProps.query (str "a.example") in
  Rules.mkContext (Rules.mkFacts [] 0 (str "udp") (Rules.mkSocksaddr (Addr4 [10; 0; 0; 2]) [] port) (Rules.Destination f) [] [] [] (Rules.Domain f) [] [] None
    (fun _ => None) false None [] 1 false) false false 0 false.

Definition ask_router (now port : Z) (st : state) : option (outcome * state) :=
  match exchangeLegacy RulesProps.simple_library false (fun tag => Some (mkTransport tag false)) (mkTransport (str "default") false) 0
    (client_exchange now a_query) 3 shared_server true plain_options None (from_port port) st with
  | Some (x, _, st) => Some (x, st)
  | None => None
  end.

Definition addresses_of (x : option (outcome * state)) : list Rules.dnsRecord :=
  match x with Some (Answered response _, _) => Rules.Answer response | _ => [] end.

Definition after_first : state := match ask_router 0 1 (empty_state None) with Some (_, st) => st | None => empty_state None end.

(** The second client gets the address of the default server, since the other one is
    outside 10.0.0.0/8, but not after the first client has asked. *)
Lemma cached_answer_unchecked_witness :
  addresses_of (ask_router (60 * Second) 2 (empty_state None)) = [Rules.RecordA [198; 51; 100; 1]] /\
  addresses_of (ask_router (60 * Second) 2 after_first) = [Rules.RecordA [192; 0; 2; 1]] /\
  exists r, Exchange plain_client fixed_servers no_environment (fun _ => 0) no_edns Ttl (fun m _ => m) None (60 * Second) inner a_query plain_options
    (Some (fun _ => false)) after_first = (Response r, after_first) /\ summary r = (0, [[192; 0; 2; 1]]).
Proof.
  split; [vm_compute; reflexivity|]. split; [vm_compute; reflexivity|].
  eapply (cached_answer_unchecked plain_client fixed_servers no_environment (fun _ => 0) no_edns Ttl (fun m _ => m) None (60 * Second) inner a_query plain_options
    (mkQuestion (str "a.example.") TypeA 1) (mkMsg 0 0 (Questions a_query) [mkRR 1 300 (A [192; 0; 2; 1])] [] []) (300 * Second) after_first);
    [reflexivity..|vm_compute; reflexivity|vm_compute; discriminate].
Defined.

End DnsCache.
