(* ===== verification/Ja3.v ===== *)
(** * Fingerprints of TLS ClientHello messages

    Models common/ja3: the parser of a TLS record with a ClientHello (parser.go), the
    fields a fingerprint keeps and the text made of them (ja3.go). *)

From S2P Require Import Prelude Bits Bytes GoStrings TlsFragment.

Module Ja3.

Import TlsFragment.

Local Open Scope Z_scope.

(** ** error.go *)

Inductive errType := LengthErr | ContentTypeErr | VersionErr | HandshakeTypeErr | SNITypeErr.

Record ParseError := mkError {
  err_type : errType;
  check : Z
}.

(** ** ja3.go *)

Record ClientHello := mkClientHello {
  Version : Z;
  CipherSuites : list Z;
  Extensions : list Z;
  EllipticCurves : list Z;
  EllipticCurvePF : list Z;
  Versions : list Z;
  SignatureAlgorithms : list Z;
  ServerName : list Z
}.

(** [slices.Sort]; the sorted list of the values. *)
Fixpoint insert_sorted (x : Z) (l : list Z) : list Z :=
  match l with
  | [] => [x]
  | y :: l' => if x <=? y then x :: l else y :: insert_sorted x l'
  end.

Definition sortedExtensions (j : ClientHello) : list Z := foldr insert_sorted [] (Extensions j).

Definition Equals (j another : ClientHello) (ignoreExtensionsSequence : bool) : bool :=
  (Version j =? Version another) &&
  bool_decide (CipherSuites j = CipherSuites another) &&
  bool_decide (Extensions j = if ignoreExtensionsSequence then sortedExtensions another else Extensions another) &&
  bool_decide (EllipticCurves j = EllipticCurves another) &&
  bool_decide (EllipticCurvePF j = EllipticCurvePF another) &&
  bool_decide (SignatureAlgorithms j = SignatureAlgorithms another).

(** ** parser.go *)

Definition ecExtensionHeaderLen : Z := 2.
Definition ecpfExtensionHeaderLen : Z := 1.
Definition versionExtensionHeaderLen : Z := 1.
Definition signatureAlgorithmsExtensionHeaderLen : Z := 2.
Definition ecExtensionType : Z := 10.
Definition ecpfExtensionType : Z := 11.
Definition versionExtensionType : Z := 43.
Definition signatureAlgorithmsExtensionType : Z := 13.
Definition GreaseBitmask : Z := 0x0F0F.
Definition dashByte : Z := 45.
Definition commaByte : Z := 44.

Definition result : Type := outcome (ParseError + ClientHello).

Definition fails (e : errType) (check : Z) : result := mret (inl (mkError e check)).

(** The 16-bit values at [at_], [at_ + 2] and so on. *)
Fixpoint uint16s (s : list Z) (at_ count : nat) : outcome (list Z) :=
  match count with
  | O => mret []
  | S count' =>
      v ← checked (uint16_at s at_);
      vs ← uint16s s (at_ + 2) count';
      mret (v :: vs)
  end.

(** The rounds of [for i := 0; i < n; i += 2]. *)
Definition rounds (n : Z) : nat := Z.to_nat ((n + 1) / 2).

(** One extension; [j] holds the variables of the loop. *)
Definition note_extension (j : ClientHello) (exType : Z) (sex : list Z) : result :=
  if exType =? sniExtensionType then
    if len sex <? sniExtensionHeaderLen then fails LengthErr 13
    else
      sniType ← checked (sex !! 2%nat);
      sniLen ← checked (uint16_at sex 3);
      sex ← checked (slice_from sex sniExtensionHeaderLen);
      if negb (len sex =? sniLen) then fails LengthErr 14
      else if sniType =? sniNameDNSHostnameType then
        mret (inr (mkClientHello (Version j) (CipherSuites j) (Extensions j) (EllipticCurves j) (EllipticCurvePF j) (Versions j)
                     (SignatureAlgorithms j) sex))
      else fails SNITypeErr 0
  else if exType =? ecExtensionType then
    if len sex <? ecExtensionHeaderLen then fails LengthErr 15
    else
      ecsLen ← checked (uint16_at sex 0);
      sex ← checked (slice_from sex ecExtensionHeaderLen);
      if negb (len sex =? ecsLen) then fails LengthErr 16
      else
        curves ← uint16s sex 0 (Z.to_nat (ecsLen / 2));
        mret (inr (mkClientHello (Version j) (CipherSuites j) (Extensions j) curves (EllipticCurvePF j) (Versions j)
                     (SignatureAlgorithms j) (ServerName j)))
  else if exType =? ecpfExtensionType then
    if len sex <? ecpfExtensionHeaderLen then fails LengthErr 17
    else
      numPF ← checked (sex !! 0%nat);
      sex ← checked (slice_from sex ecpfExtensionHeaderLen);
      if negb (len sex =? numPF) then fails LengthErr 18
      else
        mret (inr (mkClientHello (Version j) (CipherSuites j) (Extensions j) (EllipticCurves j) sex (Versions j)
                     (SignatureAlgorithms j) (ServerName j)))
  else if exType =? versionExtensionType then
    if len sex <? versionExtensionHeaderLen then fails LengthErr 19
    else
      versionsLen ← checked (sex !! 0%nat);
      vs ← uint16s sex 1 (rounds versionsLen);
      mret (inr (mkClientHello (Version j) (CipherSuites j) (Extensions j) (EllipticCurves j) (EllipticCurvePF j) (Versions j ++ vs)
                   (SignatureAlgorithms j) (ServerName j)))
  else if exType =? signatureAlgorithmsExtensionType then
    if len sex <? signatureAlgorithmsExtensionHeaderLen then fails LengthErr 20
    else
      ssaLen ← checked (uint16_at sex 0);
      vs ← uint16s sex 2 (rounds ssaLen);
      mret (inr (mkClientHello (Version j) (CipherSuites j) (Extensions j) (EllipticCurves j) (EllipticCurvePF j) (Versions j)
                   (SignatureAlgorithms j ++ vs) (ServerName j)))
  else mret (inr j).

Definition add_type (j : ClientHello) (exType : Z) : ClientHello :=
  mkClientHello (Version j) (CipherSuites j) (Extensions j ++ [exType]) (EllipticCurves j) (EllipticCurvePF j) (Versions j)
    (SignatureAlgorithms j) (ServerName j).

(** The loop over the extensions, one step of [fuel] for each; [exs[4+exLen:]] is
    taken at a 16-bit index. *)
Fixpoint parse_loop (fuel : nat) (j : ClientHello) (exs : list Z) : result :=
  match fuel with
  | O => Running
  | S fuel' =>
      if len exs =? 0 then mret (inr j)
      else if len exs <? extensionHeaderLen then fails LengthErr 11
      else
        exType ← checked (uint16_at exs 0);
        exLen ← checked (uint16_at exs 2);
        if len exs <? extensionHeaderLen + exLen then fails LengthErr 12
        else
          sex ← checked (slice exs extensionHeaderLen (extensionHeaderLen + exLen));
          noted ← note_extension (add_type j exType) exType sex;
          match noted with
          | inl e => mret (inl e)
          | inr j => exs ← checked (slice_from exs (u16 (4 + exLen))); parse_loop fuel' j exs
          end
  end.

Definition parseExtensions (fuel : nat) (j : ClientHello) (exs : list Z) : result :=
  if len exs =? 0 then mret (inr j)
  else if len exs <? extensionsHeaderLen then fails LengthErr 9
  else
    exsLen ← checked (uint16_at exs 0);
    exs ← checked (slice_from exs extensionsHeaderLen);
    if len exs <? exsLen then fails LengthErr 10
    else parse_loop fuel j exs.

Definition supported_version (v : Z) : bool := negb (negb (Z.land v tlsVersionBitmask =? 0x0300) && negb (v =? tls13)).

Definition parseHandshake (fuel : nat) (hs : list Z) : result :=
  if len hs <? handshakeHeaderLen + randomDataLen + sessionIDHeaderLen then fails LengthErr 3
  else
    handshType ← checked (hs !! 0%nat);
    if negb (handshType =? handshakeType) then fails HandshakeTypeErr 0
    else
      handshakeLen ← checked (handshake_len hs);
      rest ← checked (slice_from hs 4);
      if negb (len rest =? handshakeLen) then fails LengthErr 4
      else
        tlsVersion ← checked (uint16_at hs 4);
        if negb (supported_version tlsVersion) then fails VersionErr 2
        else
          sessionIDLen ← checked (hs !! 38%nat);
          if len hs <? handshakeHeaderLen + randomDataLen + sessionIDHeaderLen + sessionIDLen then fails LengthErr 5
          else
            cs ← checked (slice_from hs (handshakeHeaderLen + randomDataLen + sessionIDHeaderLen + sessionIDLen));
            if len cs <? cipherSuiteHeaderLen then fails LengthErr 6
            else
              csLen ← checked (uint16_at cs 0);
              if len cs <? cipherSuiteHeaderLen + csLen + compressMethodHeaderLen then fails LengthErr 7
              else
                cipherSuites ← uint16s cs 2 (Z.to_nat (csLen / 2));
                compressMethodLen ← checked (cs !! Z.to_nat (cipherSuiteHeaderLen + csLen));
                let exsAt := cipherSuiteHeaderLen + csLen + compressMethodHeaderLen + compressMethodLen in
                if len cs <? exsAt then fails LengthErr 8
                else
                  exs ← checked (slice_from cs exsAt);
                  parseExtensions fuel (mkClientHello tlsVersion cipherSuites [] [] [] [] [] []) exs.

Definition parseSegment (fuel : nat) (segment : list Z) : result :=
  if len segment <? recordLayerHeaderLen then fails LengthErr 1
  else
    contType ← checked (segment !! 0%nat);
    if negb (contType =? contentType) then fails ContentTypeErr 0
    else
      tlsRecordVersion ← checked (uint16_at segment 1);
      if negb (supported_version tlsRecordVersion) then fails VersionErr 1
      else
        segmentLen ← checked (uint16_at segment 3);
        rest ← checked (slice_from segment recordLayerHeaderLen);
        if len rest <? segmentLen then fails LengthErr 2
        else
          hs ← checked (slice segment recordLayerHeaderLen (recordLayerHeaderLen + segmentLen));
          parseHandshake fuel hs.

(** A record of [n] bytes has fewer than [n] extensions. *)
Definition Compute (payload : list Z) : result := parseSegment (length payload) payload.

(** The fields joined into the text of a fingerprint; [byteString[len(byteString)-1]]
    is there, since the version comes first. *)
Definition append_value (byteString : list Z) (val : Z) : list Z :=
  if negb (Z.land val GreaseBitmask =? 0x0A0A) then byteString else byteString ++ FormatUint val ++ [dashByte].

Definition append_values (byteString vals : list Z) : list Z :=
  match vals with
  | [] => byteString ++ [commaByte]
  | _ => let byteString := foldl append_value byteString vals in take (length byteString - 1) byteString ++ [commaByte]
  end.

Definition marshalJA3 (j : ClientHello) : list Z :=
  let byteString := FormatUint (Version j) ++ [commaByte] in
  let byteString := append_values byteString (CipherSuites j) in
  let byteString := append_values byteString (Extensions j) in
  let byteString := append_values byteString (EllipticCurves j) in
  match EllipticCurvePF j with
  | [] => byteString
  | pfs =>
      let byteString := foldl (fun b val => b ++ FormatUint val ++ [dashByte]) byteString pfs in
      take (length byteString - 1) byteString
  end.

(** ** What the parser reads *)

(** The extensions a fingerprint looks into, and the others. *)
Inductive Extension :=
| NameOf (name : list Z)
| Groups (curves : list Z)
| PointFormats (formats : list Z)
| SupportedVersions (versions : list Z)
| Algorithms (schemes : list Z)
| Other (typ : Z) (body : list Z).

Definition be16s (vs : list Z) : list Z := concat (map be16 vs).

(** Type and body (RFC 8446, 4.2; RFC 6066, 3; RFC 8422, 5.1.2). *)
Definition wire (e : Extension) : Z * list Z :=
  match e with
  | NameOf name => (0, sni_body name)
  | Groups curves => (10, be16 (2 * len curves) ++ be16s curves)
  | PointFormats formats => (11, len formats :: formats)
  | SupportedVersions versions => (43, 2 * len versions :: be16s versions)
  | Algorithms schemes => (13, be16 (2 * len schemes) ++ be16s schemes)
  | Other typ body => (typ, body)
  end.

(** The values have their width and the lists fit their length prefixes. *)
Definition fits (e : Extension) : Prop :=
  match e with
  | NameOf name => Forall is_u8 name /\ len name < 65500
  | Groups vs | Algorithms vs => Forall is_u16 vs /\ len vs < 32700
  | PointFormats formats => Forall is_u8 formats /\ len formats < 256
  | SupportedVersions vs => Forall is_u16 vs /\ len vs < 128
  | Other typ body => is_u16 typ /\ (typ ∉ [0; 10; 11; 13; 43]) /\ Forall is_u8 body /\ len body < 65500
  end.

Definition note (j : ClientHello) (e : Extension) : ClientHello :=
  let '(mkClientHello v cs xs ecs pfs vs sas name) := j in
  let xs := xs ++ [fst (wire e)] in
  match e with
  | NameOf n => mkClientHello v cs xs ecs pfs vs sas n
  | Groups l => mkClientHello v cs xs l pfs vs sas name
  | PointFormats l => mkClientHello v cs xs ecs l vs sas name
  | SupportedVersions l => mkClientHello v cs xs ecs pfs (vs ++ l) sas name
  | Algorithms l => mkClientHello v cs xs ecs pfs vs (sas ++ l) name
  | Other _ _ => mkClientHello v cs xs ecs pfs vs sas name
  end.

Definition names (es : list Extension) : list (list Z) := omap (fun e => match e with NameOf n => Some n | _ => None end) es.
Definition groups (es : list Extension) : list (list Z) := omap (fun e => match e with Groups l => Some l | _ => None end) es.
Definition formats (es : list Extension) : list (list Z) := omap (fun e => match e with PointFormats l => Some l | _ => None end) es.
Definition versions_in (es : list Extension) : list (list Z) := omap (fun e => match e with SupportedVersions l => Some l | _ => None end) es.
Definition schemes (es : list Extension) : list (list Z) := omap (fun e => match e with Algorithms l => Some l | _ => None end) es.

(** The fingerprint of a message: of a repeated name, list of curves or list of point
    formats the last, of the versions and the schemes all. *)
Definition fingerprint (v : Z) (suites : list Z) (es : list Extension) : ClientHello :=
  mkClientHello v suites (map (fun e => fst (wire e)) es) (default [] (list.last (groups es))) (default [] (list.last (formats es)))
    (concat (versions_in es)) (concat (schemes es)) (default [] (list.last (names es))).

(** A message with the extensions given as types and bodies, in a record of version
    [rv]. *)
Definition message (v : Z) (random sessionID suites compression : list Z) (exts : list (Z * list Z)) : TlsFragment.ClientHello :=
  mkHello v random sessionID (be16s suites) compression exts.

Definition record_of (rv n : Z) (content : list Z) : list Z := [22] ++ be16 rv ++ be16 n ++ content.

(** A list of versions or of signature schemes that announces more than the extension
    holds. *)
Definition overruns (typ : Z) (body : list Z) : Prop :=
  match body with
  | n :: _ => typ = versionExtensionType /\ len body < 1 + n
  | [] => False
  end \/
  match body with
  | hi :: lo :: _ => typ = signatureAlgorithmsExtensionType /\ len body < 2 + (256 * hi + lo)
  | _ => False
  end.

Lemma be16s_length vs : length (be16s vs) = (2 * length vs)%nat.
Proof. unfold be16s. induction vs as [|v vs IH]; [done|]. cbn [map concat]. rewrite length_app, IH. cbn [length be16]. lia. Qed.

Lemma uint16s_read s pre vs post at_ : s = pre ++ be16s vs ++ post -> at_ = length pre -> Forall is_u16 vs ->
  uint16s s at_ (length vs) = Returns vs.
Proof.
  intros Hs Hat HF. revert pre at_ Hs Hat. induction HF as [|v vs Hv _ IH]; intros pre at_ Hs Hat; [done|]. cbn [length uint16s].
  cbn [be16s map concat] in Hs. rewrite (uint16_at_seam s pre v (be16s vs ++ post)) by (done || by rewrite Hs, <- app_assoc).
  cbn [checked mbind outcome_bind]. rewrite (IH (pre ++ be16 v)); [done | by rewrite Hs, <- !app_assoc | rewrite length_app; cbn [length be16]; lia].
Qed.

Lemma len_be16s vs : len (be16s vs) = 2 * len vs.
Proof. unfold len. rewrite be16s_length. lia. Qed.

Lemma rounds_double (vs : list Z) : rounds (2 * len vs) = length vs.
Proof. unfold rounds, len. rewrite (Z.add_comm _ 1), (Z.mul_comm 2), Z.div_add by lia. change (1 / 2) with 0. lia. Qed.

Lemma len_app a b : len (a ++ b) = len a + len b.
Proof. unfold len. rewrite length_app. lia. Qed.

Lemma len_cons x b : len (x :: b) = 1 + len b.
Proof. unfold len. cbn [length]. lia. Qed.

Lemma len_nil : len [] = 0.
Proof. done. Qed.

Lemma len_be16 v : len (be16 v) = 2.
Proof. done. Qed.

Lemma len_nonneg b : 0 <= len b.
Proof. unfold len. lia. Qed.

Create HintDb lens.
#[export] Hint Rewrite len_app len_cons len_nil len_be16 len_be16s : lens.

(** The length of a message whose parts are known. *)
Ltac by_len :=
  unfold sni_body in *; autorewrite with lens in *;
  repeat match goal with b : list Z |- _ => lazymatch goal with H : 0 <= len b |- _ => fail | _ => pose proof (len_nonneg b) end end;
  unfold is_u in *; lia.

(** A length that suffices, a read at a known place, the rest from a known place. *)
Ltac suffices_len := match goal with |- context [if ?x <? ?y then _ else _] => destruct (Z.ltb_spec x y) as [?Hlt|_]; [exfalso; by_len|] end.
Ltac read_at pre v post := rewrite (uint16_at_seam _ pre v post (length pre)) by first [ done | by rewrite <- ?app_assoc | by_len ]; cbn [checked mbind outcome_bind].
Ltac fold_len := repeat match goal with |- context [Z.of_nat (length ?b)] => change (Z.of_nat (length b)) with (len b) end.
Ltac rest_at pre post := rewrite (slice_from_seam _ pre post) by first [ done | by rewrite <- ?app_assoc | fold_len; by_len ]; cbn [checked mbind outcome_bind].

Lemma note_reads j e : fits e -> note_extension (add_type j (fst (wire e))) (fst (wire e)) (snd (wire e)) = mret (inr (note j e)).
Proof.
  destruct j as [v cs xs ecs pfs vs sas nm]. unfold note_extension, sniExtensionHeaderLen, ecExtensionHeaderLen, ecpfExtensionHeaderLen,
    versionExtensionHeaderLen, signatureAlgorithmsExtensionHeaderLen.
  destruct e as [name|l|l|l|l|typ body]; cbn [wire fst snd fits]; intros Hf; cbn [Z.eqb Pos.eqb sniExtensionType ecExtensionType ecpfExtensionType versionExtensionType signatureAlgorithmsExtensionType].
  - destruct Hf as [Hu Hl]. suffices_len. change (sni_body name !! 2%nat) with (Some 0). cbn [checked mbind outcome_bind].
    read_at (be16 (len name + 3) ++ [0]) (len name) name. rest_at (be16 (len name + 3) ++ [0] ++ be16 (len name)) name.
    by rewrite Z.eqb_refl.
  - destruct Hf as [Hu Hl]. suffices_len. read_at (@nil Z) (2 * len l) (be16s l). rest_at (be16 (2 * len l)) (be16s l).
    rewrite len_be16s, Z.eqb_refl. cbn [negb]. replace (Z.to_nat (2 * len l / 2)) with (length l) by (rewrite Z.mul_comm, Z.div_mul by lia; unfold len; lia).
    by rewrite (uint16s_read _ [] l []) by (done || by rewrite app_nil_r).
  - destruct Hf as [Hu Hl]. suffices_len. cbn [lookup list_lookup checked mbind outcome_bind]. rest_at [len l] l. by rewrite Z.eqb_refl.
  - destruct Hf as [Hu Hl]. suffices_len. cbn [lookup list_lookup checked mbind outcome_bind]. rewrite rounds_double.
    by rewrite (uint16s_read _ [2 * len l] l []) by (done || by rewrite app_nil_r).
  - destruct Hf as [Hu Hl]. suffices_len. read_at (@nil Z) (2 * len l) (be16s l). rewrite rounds_double.
    by rewrite (uint16s_read _ (be16 (2 * len l)) l []) by (done || by rewrite app_nil_r).
  - destruct Hf as (_ & Hn & _). rewrite !not_elem_of_cons in Hn. destruct Hn as (? & ? & ? & ? & ? & _).
    unfold sniExtensionType, ecExtensionType, ecpfExtensionType, versionExtensionType, signatureAlgorithmsExtensionType.
    by rewrite !(proj2 (Z.eqb_neq _ _)) by done.
Qed.

Lemma wire_fits e : fits e -> is_u16 (fst (wire e)) /\ len (snd (wire e)) < 65532.
Proof. destruct e; cbn; intros Hf; repeat split; try done; by_len. Qed.

Lemma extension_bytes_cons typ body es : extensions_bytes ((typ, body) :: es) = be16 typ ++ be16 (len body) ++ body ++ extensions_bytes es.
Proof. unfold extensions_bytes. cbn [map concat]. unfold extension_bytes at 1. by rewrite <- !app_assoc. Qed.

(** One round of the loop. *)
Lemma parse_loop_round fuel j typ body rest : is_u16 typ -> len body + len rest < 65532 ->
  parse_loop (S fuel) j (be16 typ ++ be16 (len body) ++ body ++ rest) =
  noted ← note_extension (add_type j typ) typ body;
  match noted with inl e => mret (inl e) | inr j => parse_loop fuel j rest end.
Proof.
  intros Ht Hb. cbn [parse_loop]. unfold extensionHeaderLen.
  destruct (Z.eqb_spec (len (be16 typ ++ be16 (len body) ++ body ++ rest)) 0); [by_len|]. suffices_len.
  read_at (@nil Z) typ (be16 (len body) ++ body ++ rest). read_at (be16 typ) (len body) (body ++ rest). suffices_len.
  rewrite (slice_seam _ (be16 typ ++ be16 (len body)) body rest) by (by rewrite <- ?app_assoc). cbn [checked mbind outcome_bind].
  rewrite u16_small by by_len. rest_at (be16 typ ++ be16 (len body) ++ body) rest. done.
Qed.

Lemma parse_loop_reads fuel j es more : Forall fits es -> len (extensions_bytes (map wire es ++ more)) < 65536 ->
  parse_loop (length es + fuel) j (extensions_bytes (map wire es ++ more)) = parse_loop fuel (foldl note j es) (extensions_bytes more).
Proof.
  intros HF. revert j. induction HF as [|e es He HF IH]; intros j Hl; [done|]. cbn [length map app Nat.add foldl] in *.
  pose proof (wire_fits e He) as [Ht Hb]. pose proof (note_reads j e He) as Hnote.
  destruct (wire e) as [typ body]. cbn [fst snd] in *. rewrite extension_bytes_cons in *.
  rewrite parse_loop_round, Hnote by (done || by_len). cbn [mret outcome_ret mbind outcome_bind]. apply IH. by_len.
Qed.

Lemma foldl_note v suites es : foldl note (mkClientHello v suites [] [] [] [] [] []) es = fingerprint v suites es.
Proof.
  induction es as [|e es IH] using rev_ind; [done|]. rewrite foldl_app, IH. cbn [foldl].
  unfold fingerprint, names, groups, formats, versions_in, schemes. rewrite map_app, !omap_app, !last_app, !concat_app.
  destruct e; cbn; rewrite ?app_nil_r; done.
Qed.

Lemma supported_ok v : 0x0300 <= v <= 0x0304 -> supported_version v = true.
Proof. intros Hv. unfold supported_version. by rewrite hello_version_ok. Qed.

Lemma parseExtensions_loop fuel j xs : len xs < 65536 -> parseExtensions fuel j (be16 (len xs) ++ xs) = parse_loop fuel j xs.
Proof.
  intros Hl. unfold parseExtensions, extensionsHeaderLen. destruct (Z.eqb_spec (len (be16 (len xs) ++ xs)) 0); [by_len|]. suffices_len.
  read_at (@nil Z) (len xs) xs. rest_at (be16 (len xs)) xs. by suffices_len.
Qed.

Section Message.

Context (v : Z) (random sessionID suites compression : list Z) (exts : list (Z * list Z)).

Let h := message v random sessionID suites compression exts.

Context (Hok : hello_ok h) (Hsuites : Forall is_u16 suites).

Lemma parseHandshake_message fuel :
  parseHandshake fuel (hello_bytes h) = parse_loop fuel (mkClientHello v suites [] [] [] [] [] []) (extensions_bytes exts).
Proof.
  pose proof (ok_len h Hok) as Hl. pose proof (before_suites_length h Hok) as Hs. pose proof (before_session_length h Hok) as Hb.
  pose proof (hello_at_session h) as Hses. pose proof (hello_at_suites h) as Hsu. pose proof (ok_version h Hok) as Hv.
  remember (extensions_bytes exts) as xs eqn:Hxs.
  assert (suites_on h = be16 (2 * len suites) ++ be16s suites ++ len compression :: compression ++ be16 (len xs) ++ xs) as Hon by
    (rewrite Hxs, <- len_be16s; done).
  assert (len (hello_bytes h) = 4 + len (hello_body h)) as Ht by (unfold hello_bytes; by_len).
  assert (len (hello_bytes h) = len (before_suites h) + len (suites_on h)) as Hx by (rewrite Hsu; apply len_app).
  change (TlsFragment.sessionID h) with sessionID in *. change (TlsFragment.version h) with v in *. clear Hxs.
  assert (len (suites_on h) = 5 + 2 * len suites + len compression + len xs) as Hlon by (rewrite Hon; by_len).
  unfold parseHandshake, handshakeHeaderLen, randomDataLen, sessionIDHeaderLen, cipherSuiteHeaderLen, compressMethodHeaderLen.
  suffices_len. change (hello_bytes h !! 0%nat) with (Some 1). cbn [checked mbind outcome_bind]. change (negb (1 =? handshakeType)) with false.
  rewrite hello_handshake_len by done. cbn [checked mbind outcome_bind].
  rest_at ([1; 0] ++ be16 (len (hello_body h))) (hello_body h). rewrite Z.eqb_refl. cbn [negb].
  rewrite (uint16_at_seam _ ([1; 0] ++ be16 (len (hello_body h))) v (drop 2 (hello_body h)) 4) by (done || (unfold is_u; lia)).
  cbn [checked mbind outcome_bind]. rewrite supported_ok by done. cbn [negb].
  rewrite (lookup_seam _ _ _ _ _ Hses) by done. cbn [checked mbind outcome_bind]. suffices_len.
  rewrite (slice_from_seam _ _ _ _ Hsu) by (fold_len; lia). cbn [checked mbind outcome_bind]. suffices_len. rewrite Hon in *.
  read_at (@nil Z) (2 * len suites) (be16s suites ++ len compression :: compression ++ be16 (len xs) ++ xs). suffices_len.
  replace (Z.to_nat (2 * len suites / 2)) with (length suites) by (rewrite Z.mul_comm, Z.div_mul by lia; unfold len; lia).
  rewrite (uint16s_read _ (be16 (2 * len suites)) suites (len compression :: compression ++ be16 (len xs) ++ xs)) by done. cbn [mbind outcome_bind].
  rewrite (lookup_seam _ (be16 (2 * len suites) ++ be16s suites) (compression ++ be16 (len xs) ++ xs) (len compression)) by
    first [ by rewrite <- app_assoc | rewrite length_app, be16s_length; cbn [length be16]; unfold len; lia ].
  cbn [checked mbind outcome_bind]. suffices_len.
  rest_at (be16 (2 * len suites) ++ be16s suites ++ len compression :: compression) (be16 (len xs) ++ xs).
  apply parseExtensions_loop. by_len.
Qed.

End Message.

(** The record around the message. *)
Lemma parseSegment_record fuel rv hs more : 0x0300 <= rv <= 0x0304 -> len hs < 65536 ->
  parseSegment fuel (record_of rv (len hs) (hs ++ more)) = parseHandshake fuel hs.
Proof.
  intros Hv Hl. unfold parseSegment, record_of, recordLayerHeaderLen. suffices_len. cbn [lookup list_lookup app checked mbind outcome_bind].
  change (negb (22 =? contentType)) with false. cbv iota.
  read_at [22] rv (be16 (len hs) ++ hs ++ more). rewrite supported_ok by done. cbn [negb].
  read_at ([22] ++ be16 rv) (len hs) (hs ++ more). rest_at ([22] ++ be16 rv ++ be16 (len hs)) (hs ++ more). suffices_len.
  by rewrite (slice_seam _ ([22] ++ be16 rv ++ be16 (len hs)) hs more) by (by rewrite <- ?app_assoc).
Qed.

(** A message that has not arrived in full is an error. *)
Lemma parseHandshake_partial fuel c h : hello_ok h -> c `prefix_of` hello_bytes h -> len c < len (hello_bytes h) ->
  exists e, parseHandshake fuel c = mret (inl e).
Proof.
  intros Hok [r Hr] Hn. assert (len (hello_bytes h) = 4 + len (hello_body h)) as Ht by (unfold hello_bytes; by_len).
  unfold parseHandshake, handshakeHeaderLen, randomDataLen, sessionIDHeaderLen.
  destruct (Z.ltb_spec (len c) (6 + 32 + 1)) as [_|H39]; [by eexists|].
  pose proof (hello_handshake_len h Hok) as Hh. rewrite Hr in Hh.
  destruct c as [|x0 [|x1 [|x2 [|x3 c]]]]; try (unfold len in H39; cbn [length] in H39; lia).
  assert (x0 = 1) as -> by (by injection Hr). cbn [lookup list_lookup checked mbind outcome_bind]. change (negb (1 =? handshakeType)) with false. cbv iota.
  change (handshake_len (1 :: x1 :: x2 :: x3 :: c)) with (handshake_len ((1 :: x1 :: x2 :: x3 :: c) ++ r)). rewrite Hh.
  cbn [checked mbind outcome_bind]. rest_at [1; x1; x2; x3] c.
  destruct (Z.eqb_spec (len c) (len (hello_body h))) as [He|_]; [by_len | by eexists].
Qed.

Lemma parseSegment_partial fuel rv n c h : hello_ok h -> 0x0300 <= rv <= 0x0304 -> c `prefix_of` hello_bytes h ->
  0 <= n < len (hello_bytes h) -> exists e, parseSegment fuel (record_of rv n c) = mret (inl e).
Proof.
  intros Hok Hrv Hc Hn. pose proof (ok_len h Hok) as Hl.
  assert (len (hello_bytes h) = 4 + len (hello_body h)) as Ht by (unfold hello_bytes; by_len).
  destruct (Z.lt_ge_cases (len c) n) as [Hlt|Hge].
  - unfold parseSegment, record_of, recordLayerHeaderLen. suffices_len. cbn [lookup list_lookup app checked mbind outcome_bind].
    change (negb (22 =? contentType)) with false. cbv iota. read_at [22] rv (be16 n ++ c). rewrite supported_ok by done. cbn [negb].
    read_at ([22] ++ be16 rv) n c. rest_at ([22] ++ be16 rv ++ be16 n) c. destruct (Z.ltb_spec (len c) n); [by eexists | lia].
  - assert (n = len (take (Z.to_nat n) c)) as Hn' by (unfold len in *; rewrite length_take; lia).
    pose proof (parseSegment_record fuel rv (take (Z.to_nat n) c) (drop (Z.to_nat n) c) Hrv ltac:(lia)) as Hs.
    rewrite take_drop, <- Hn' in Hs. rewrite Hs. apply parseHandshake_partial with h; [done | | lia].
    transitivity c; [apply prefix_take | done].
Qed.

(** The bytes of lists that run over the end. *)
Lemma uint16s_over s at_ count : (length s < at_ + 2 * count)%nat -> (0 < count)%nat -> uint16s s at_ count = Panics.
Proof.
  revert at_. induction count as [|count IH]; intros at_ Hs Hc; [lia|]. cbn [uint16s].
  destruct (uint16_at s at_) as [v|] eqn:Hv; [|done]. cbn [checked mbind outcome_bind].
  destruct count as [|count]; [|rewrite IH by lia; done].
  exfalso. unfold uint16_at in Hv. destruct (s !! at_); [|done]. cbn [mbind option_bind] in Hv. rewrite lookup_ge_None_2 in Hv by lia. done.
Qed.

Lemma note_overruns j typ body : Forall is_u8 body -> overruns typ body -> note_extension j typ body = Panics.
Proof.
  intros HF Hov. unfold note_extension, versionExtensionHeaderLen, signatureAlgorithmsExtensionHeaderLen.
  destruct Hov as [Hov|Hov].
  - destruct body as [|n body]; [done|]. destruct Hov as [-> Hl]. apply List.Forall_inv in HF. unfold is_u in HF. cbn [Z.eqb Pos.eqb sniExtensionType
      ecExtensionType ecpfExtensionType versionExtensionType signatureAlgorithmsExtensionType].
    suffices_len. cbn [lookup list_lookup checked mbind outcome_bind]. rewrite uint16s_over; [done | | ];
      unfold rounds; unfold len in Hl; Z.to_euclidean_division_equations; cbn [length] in *; lia.
  - destruct body as [|hi [|lo body]]; try done. destruct Hov as [-> Hl]. pose proof (List.Forall_inv HF) as Hhi.
    pose proof (List.Forall_inv (List.Forall_inv_tail HF)) as Hlo. cbn [Z.eqb Pos.eqb sniExtensionType
      ecExtensionType ecpfExtensionType versionExtensionType signatureAlgorithmsExtensionType].
    suffices_len. unfold uint16_at. cbn [lookup list_lookup mbind option_bind]. rewrite lor_shift8 by done.
    cbn [checked mbind outcome_bind]. unfold is_u in *. rewrite uint16s_over; [done | | ];
      unfold rounds; unfold len in Hl; Z.to_euclidean_division_equations; cbn [length] in *; lia.
Qed.

(** ** Termination *)

Definition ends {A} (c : outcome A) : Prop := c <> Running.

Lemma ends_checked {A B} (o : option A) (f : A -> outcome B) : (forall a, o = Some a -> ends (f a)) -> ends (checked o ≫= f).
Proof. intros Hf. destruct o as [a|]; [by apply Hf | done]. Qed.

Lemma ends_bind {A B} (c : outcome A) (f : A -> outcome B) : ends c -> (forall a, ends (f a)) -> ends (c ≫= f).
Proof. intros Hc Hf. by destruct c; [apply Hf | |]. Qed.

Lemma ends_ret {A} (a : A) : ends (mret a).
Proof. done. Qed.

Lemma ends_fails e n : ends (fails e n).
Proof. done. Qed.

Lemma ends_uint16s s at_ count : ends (uint16s s at_ count).
Proof.
  revert at_. induction count as [|count IH]; intros at_; [done|]. cbn [uint16s]. apply ends_checked. intros v _.
  apply ends_bind; [apply IH | done].
Qed.

(** Through the guards and the reads of a parser. *)
Ltac run_ends :=
  repeat first [ apply ends_fails | apply ends_ret | progress cbv zeta | apply ends_checked; intros ? ?
               | apply ends_bind; [apply ends_uint16s | intros ?] | match goal with |- ends (if ?b then _ else _) => destruct b eqn:? end ].

Lemma ends_note j typ sex : ends (note_extension j typ sex).
Proof. unfold note_extension. run_ends. Qed.

Lemma ends_loop fuel j exs : len exs < 65536 -> (length exs < fuel)%nat -> Forall is_u8 exs -> ends (parse_loop fuel j exs).
Proof.
  revert j exs. induction fuel as [|fuel IH]; intros j exs Hl Hf Hu; [lia|]. cbn [parse_loop].
  destruct (len exs =? 0); [done|]. destruct (_ <? _); [done|]. apply ends_checked. intros typ _. apply ends_checked. intros n Hn.
  destruct (Z.ltb_spec (len exs) (extensionHeaderLen + n)) as [|Hlen]; [done|]. apply ends_checked. intros sex _.
  apply ends_bind; [apply ends_note|]. intros [e|j']; [done|].
  assert (is_u16 n) as Hnu.
  { destruct (lookup_lt_is_Some_2 exs 3) as [? Hx3]; [destruct (decide (3 < length exs)%nat); [done|]; unfold uint16_at in Hn;
      rewrite (lookup_ge_None_2 exs 3) in Hn by lia; destruct (exs !! 2%nat); done|].
    destruct (uint16_at_some exs 2 Hu) as (n' & Hn' & ?); [apply lookup_lt_Some in Hx3; lia|]. congruence. }
  unfold extensionHeaderLen, is_u, len in *. rewrite u16_small by (unfold is_u; lia).
  apply ends_checked. intros rest Hr. rewrite slice_from_some in Hr by lia. injection Hr as <-.
  apply IH; [unfold len; rewrite length_drop; lia | rewrite length_drop; lia | by apply Forall_drop].
Qed.

Lemma ends_extensions fuel j exs : len exs < 65536 -> (length exs <= fuel)%nat -> Forall is_u8 exs -> ends (parseExtensions fuel j exs).
Proof.
  intros Hl Hf Hu. unfold parseExtensions. destruct (len exs =? 0); [done|].
  destruct (Z.ltb_spec (len exs) extensionsHeaderLen) as [|H2]; [done|]. apply ends_checked. intros n _. apply ends_checked. intros rest Hr.
  unfold extensionsHeaderLen, len in *. rewrite slice_from_some in Hr by lia. injection Hr as <-. destruct (_ <? _); [done|].
  apply ends_loop; [unfold len; rewrite length_drop; lia | rewrite length_drop; lia | by apply Forall_drop].
Qed.

Lemma slice_from_inv l lo r : slice_from l lo = Some r -> 0 <= lo <= len l /\ r = drop (Z.to_nat lo) l.
Proof. intros H. pose proof H as (? & ? & _)%slice_inv. unfold len. rewrite slice_from_some in H by lia. injection H as <-. split; [lia | done]. Qed.

Lemma ends_handshake fuel hs : len hs < 65536 -> (length hs <= fuel)%nat -> Forall is_u8 hs -> ends (parseHandshake fuel hs).
Proof.
  intros Hl Hf Hu. unfold parseHandshake.
  run_ends.
  match goal with H1 : slice_from hs (_ + _) = Some ?cs, H2 : slice_from ?cs _ = Some _ |- _ =>
    apply slice_from_inv in H1 as [? ->]; apply slice_from_inv in H2 as [? ->] end.
  apply ends_extensions; [unfold len in *; rewrite !length_drop; lia | rewrite !length_drop; lia | by repeat apply Forall_drop].
Qed.

Lemma ends_segment segment : Forall is_u8 segment -> ends (parseSegment (length segment) segment).
Proof.
  intros Hu. unfold parseSegment. destruct (Z.ltb_spec (len segment) recordLayerHeaderLen) as [|H5]; [done|].
  apply ends_checked. intros ty _. destruct (negb _); [done|]. apply ends_checked. intros rv _. destruct (negb _); [done|].
  unfold recordLayerHeaderLen, len in H5. destruct (uint16_at_some segment 3 Hu) as (n & -> & Hn); [lia|]. cbn [checked mbind outcome_bind].
  apply ends_checked. intros rest _. destruct (_ <? _); [done|]. apply ends_checked. intros hs Hhs.
  pose proof (slice_length _ _ _ _ Hhs) as Hlen. pose proof (slice_u8 _ _ _ _ Hu Hhs) as Hhu. apply slice_inv in Hhs as (_ & Hle & _).
  unfold is_u in Hn. apply ends_handshake; [unfold len; lia | unfold recordLayerHeaderLen in *; lia | done].
Qed.

(** ** The text of a fingerprint *)

Definition grease (v : Z) : bool := Z.land v GreaseBitmask =? 0x0A0A.

Lemma append_no_grease b vals : Forall (fun v => grease v = false) vals -> foldl append_value b vals = b.
Proof.
  intros HF. revert b. induction HF as [|v vals Hv _ IH]; intros b; [done|]. cbn [foldl]. unfold append_value at 2. unfold grease in Hv.
  by rewrite Hv.
Qed.

Lemma append_values_no_grease b vals : vals <> [] -> Forall (fun v => grease v = false) vals ->
  append_values (b ++ [commaByte]) vals = b ++ [commaByte].
Proof.
  intros Hne HF. unfold append_values. destruct vals as [|v vals]; [done|]. rewrite append_no_grease by done. cbv zeta.
  rewrite length_app. cbn [length]. replace (length b + 1 - 1)%nat with (length b) by lia. by rewrite take_app_length.
Qed.

Lemma dashed_formats b pfs : pfs <> [] ->
  let r := foldl (fun b val => b ++ FormatUint val ++ [dashByte]) b pfs in take (length r - 1) r = b ++ Join (map FormatUint pfs) [dashByte].
Proof.
  intros Hne. revert b. induction pfs as [|v pfs IH]; intros b; [done|]. cbn [foldl map Join]. destruct pfs as [|w pfs].
  - cbn. rewrite !length_app. cbn [length]. rewrite app_assoc. rewrite take_app_length' by (rewrite length_app; lia). done.
  - specialize (IH ltac:(done) (b ++ FormatUint v ++ [dashByte])). cbv zeta in IH. cbv zeta. rewrite IH. cbn [map]. by rewrite <- !app_assoc.
Qed.

Lemma marshal_no_grease j : CipherSuites j <> [] -> Extensions j <> [] -> EllipticCurves j <> [] ->
  Forall (fun v => grease v = false) (CipherSuites j ++ Extensions j ++ EllipticCurves j) ->
  marshalJA3 j = FormatUint (Version j) ++ [commaByte] ++ Join (map FormatUint (EllipticCurvePF j)) [dashByte].
Proof.
  intros H1 H2 H3 HF. rewrite !Forall_app in HF. destruct HF as (F1 & F2 & F3). unfold marshalJA3. rewrite !append_values_no_grease by done.
  destruct (EllipticCurvePF j) as [|v pfs] eqn:Hp; [by rewrite app_nil_r|]. rewrite app_assoc. by apply dashed_formats.
Qed.

(** ** Properties *)

(** The record of a message is read up to its extensions, with steps enough for
    them. *)
Lemma record_loop rv v random sessionID suites compression exts :
  hello_ok (message v random sessionID suites compression exts) -> Forall is_u16 suites -> 0x0300 <= rv <= 0x0304 ->
  let hs := hello_bytes (message v random sessionID suites compression exts) in
  len (extensions_bytes exts) < 65500 /\
  exists k, Compute (record_of rv (len hs) hs) =
    parse_loop (length exts + S k) (mkClientHello v suites [] [] [] [] [] []) (extensions_bytes exts).
Proof.
  intros Hok Hs Hrv hs. pose proof (ok_len _ Hok) as Hl.
  assert (len hs = 4 + len (hello_body (message v random sessionID suites compression exts))) as Ht by (unfold hs, hello_bytes; by_len).
  split. { unfold hello_body, message in Hl. cbn [TlsFragment.random TlsFragment.sessionID TlsFragment.suites
    TlsFragment.compression TlsFragment.extensions] in Hl. by_len. }
  unfold Compute. pose proof (parseSegment_record (length (record_of rv (len hs) hs)) rv hs [] Hrv ltac:(lia)) as Hp. rewrite app_nil_r in Hp. rewrite Hp.
  unfold hs. rewrite parseHandshake_message by done. fold hs.
  assert (length exts + 1 <= length (record_of rv (len hs) hs))%nat as Hlen.
  { pose proof (extensions_bytes_length exts) as He. unfold hs. rewrite hello_parts. unfold record_of.
    rewrite !length_app. cbn [TlsFragment.extensions message length be16]. lia. }
  exists (length (record_of rv (len hs) hs) - length exts - 1)%nat. f_equal. lia.
Qed.

Lemma reads_message rv v random sessionID suites compression es :
  hello_ok (message v random sessionID suites compression (map wire es)) -> Forall is_u16 suites -> Forall fits es -> 0x0300 <= rv <= 0x0304 ->
  let hs := hello_bytes (message v random sessionID suites compression (map wire es)) in
  Compute (record_of rv (len hs) hs) = Returns (inr (fingerprint v suites es)).
Proof.
  intros Hok Hs HF Hrv hs. destruct (record_loop rv v random sessionID suites compression (map wire es)) as (Hl & k & Hk); try done.
  fold hs in Hk. rewrite Hk, length_map, <- (app_nil_r (map wire es)). rewrite parse_loop_reads; [by rewrite foldl_note | done | rewrite app_nil_r; lia].
Qed.

Lemma overrun_panics rv v random sessionID suites compression es typ body more :
  let exts := map wire es ++ (typ, body) :: more in
  hello_ok (message v random sessionID suites compression exts) -> Forall is_u16 suites -> Forall fits es -> overruns typ body -> 0x0300 <= rv <= 0x0304 ->
  let hs := hello_bytes (message v random sessionID suites compression exts) in
  Compute (record_of rv (len hs) hs) = Panics.
Proof.
  intros exts Hok Hs HF Hov Hrv hs. destruct (record_loop rv v random sessionID suites compression exts) as (Hl & k & Hk); try done.
  fold hs in Hk. pose proof (ok_types _ Hok) as Ht. unfold message, exts in Ht. cbn [TlsFragment.extensions] in Ht.
  rewrite Forall_app, list.Forall_cons in Ht. destruct Ht as (_ & [Htyp Hbody] & _). cbn [fst snd] in *.
  rewrite Hk. unfold exts in *. rewrite length_app, length_map. cbn [length]. rewrite <- Nat.add_assoc, parse_loop_reads by (done || lia).
  rewrite extension_bytes_cons. replace (S (length more) + S k)%nat with (S (length more + S k)) by lia.
  unfold extensions_bytes in Hl. rewrite map_app, concat_app, len_app in Hl. fold (extensions_bytes ((typ, body) :: more)) in Hl.
  rewrite extension_bytes_cons in Hl. pose proof (len_nonneg (concat (map extension_bytes (map wire es)))).
  rewrite parse_loop_round by (done || by_len). by rewrite note_overruns.
Qed.

(** C31. The fingerprint parser reads back what a client wrote: for every ClientHello
    of TLS 1.0 to 1.3 whose fields fit their length prefixes, in a record of any of
    these versions, the parser succeeds and gives the version, the cipher suites, the
    types of the extensions in order, the last server name, the last lists of curves
    and of point formats, and all supported versions and signature algorithms. *)
Theorem ja3_reads_hello rv v random sessionID suites compression es :
  hello_ok (message v random sessionID suites compression (map wire es)) -> Forall is_u16 suites -> Forall fits es -> 0x0300 <= rv <= 0x0304 ->
  let hs := hello_bytes (message v random sessionID suites compression (map wire es)) in
  Compute (record_of rv (len hs) hs) = Returns (inr (mkClientHello v suites (map (fun e => fst (wire e)) es)
    (default [] (list.last (groups es))) (default [] (list.last (formats es))) (concat (versions_in es)) (concat (schemes es))
    (default [] (list.last (names es))))).
Proof. apply reads_message. Qed.

(** A message with one extension of each kind. *)
Definition example_es : list Extension :=
  [NameOf (str "example.org"); Groups [29; 23]; PointFormats [0]; SupportedVersions [0x0304; 0x0303]; Algorithms [0x0403; 0x0804]; Other 16 [0; 3; 2; 104; 50]].
Definition example_hello (exts : list (Z * list Z)) : TlsFragment.ClientHello := message 0x0303 (repeat 7 32) [1; 2] [0x1301; 0x1302] [0] exts.

Lemma ja3_reads_hello_witness :
  let hs := hello_bytes (example_hello (map wire example_es)) in
  Compute (record_of 0x0301 (len hs) hs) =
  Returns (inr (mkClientHello 0x0303 [0x1301; 0x1302] [0; 10; 11; 43; 13; 16] [29; 23] [0] [0x0304; 0x0303] [0x0403; 0x0804] (str "example.org"))).
Proof.
  apply (ja3_reads_hello 0x0301 0x0303 (repeat 7 32) [1; 2] [0x1301; 0x1302] [0] example_es);
    [split; [split; by_eval | reflexivity | reflexivity | reflexivity | by_eval | by_eval | reflexivity] | by_eval | | lia].
  unfold example_es. rewrite !list.Forall_cons. cbn [fits]. split_and!; first [ by_eval | reflexivity | exact (Forall_nil_2 _) ].
Defined.

(** A ClientHello can crash the fingerprint parser: if one of its extensions, after
    any that are well formed, is a list of supported versions or of signature
    algorithms whose length field exceeds the bytes that follow, the parser does not
    report an error but reads past the end of the extension and panics.  The other
    lists of the message are checked against their length. *)
Theorem ja3_list_overrun rv v random sessionID suites compression es typ body more :
  let exts := map wire es ++ (typ, body) :: more in
  hello_ok (message v random sessionID suites compression exts) -> Forall is_u16 suites -> Forall fits es -> overruns typ body -> 0x0300 <= rv <= 0x0304 ->
  let hs := hello_bytes (message v random sessionID suites compression exts) in
  Compute (record_of rv (len hs) hs) = Panics.
Proof. apply overrun_panics. Qed.

Lemma ja3_list_overrun_witness :
  let hs := hello_bytes (example_hello (map wire [NameOf (str "example.org")] ++ [(43, [4; 3; 4])])) in Compute (record_of 0x0301 (len hs) hs) = Panics.
Proof.
  apply (ja3_list_overrun 0x0301 0x0303 (repeat 7 32) [1; 2] [0x1301; 0x1302] [0] [NameOf (str "example.org")] 43 [4; 3; 4] []);
    [split; [split; by_eval | reflexivity | reflexivity | reflexivity | by_eval | by_eval | reflexivity] | by_eval | | left; split; reflexivity | lia].
  rewrite list.Forall_cons. split; [split; [by_eval | reflexivity] | exact (Forall_nil_2 _)].
Defined.

End Ja3.
