(* ===== verification/Sniff.v ===== *)
(** * Protocol sniffers

    Models common/sniff: the sniffers of a packet (quic.go with quic_blacklist.go and
    internal/qtls, stun.go, ntp.go, dtls.go, bittorrent.go, dns.go), those of a stream
    that do not call a TLS or HTTP library (ssh.go, rdp.go, bittorrent.go, dns.go), and
    the functions that try them in turn (sniff.go). *)

From S2P Require Import Prelude Bits Bytes GoStrings TlsFragment Masque QuicInitial Ja3.

Module Sniff.

Import TlsFragment.

Local Open Scope Z_scope.

(** ** Metadata and errors *)

Record qCryptoFragment := mkFragment {
  offset : Z;
  length_ : Z;
  payload : list Z
}.

(** [errors.Is] asks an error only whether it is [ErrNeedMoreData]. *)
Inductive serr := NeedMoreData | Failed.

#[export] Instance serr_eq_dec : EqDecision serr.
Proof. solve_decision. Defined.

(** Errors joined with [E.Errors]; no error is the empty list. *)
Definition serrs : Type := list serr.

Definition is_need_more (e : serrs) : bool := bool_decide (NeedMoreData ∈ e).

(** The part of the context of a connection that sniffing reads and writes. *)
Record metadata := mkMetadata {
  Protocol : list Z;
  Domain : list Z;
  Client : list Z;
  SniffContext : option (list qCryptoFragment)
}.

Definition set_Protocol (p : list Z) (m : metadata) : metadata := mkMetadata p (Domain m) (Client m) (SniffContext m).
Definition set_Domain (d : list Z) (m : metadata) : metadata := mkMetadata (Protocol m) d (Client m) (SniffContext m).
Definition set_Client (c : list Z) (m : metadata) : metadata := mkMetadata (Protocol m) (Domain m) c (SniffContext m).
Definition set_Context (c : option (list qCryptoFragment)) (m : metadata) : metadata := mkMetadata (Protocol m) (Domain m) (Client m) c.

(** What a sniffer returns: the metadata it leaves, and its error. *)
Definition sniffed : Type := outcome (metadata * option serr).

Definition PacketSniffer : Type := metadata -> list Z -> sniffed.

Definition invalid (m : metadata) : sniffed := mret (m, Some Failed).
Definition need_more (m : metadata) : sniffed := mret (m, Some NeedMoreData).
Definition found (protocol : string) (m : metadata) : sniffed := mret (set_Protocol (str protocol) m, None).

(** ** sniff.go *)

(** Ports on which the server speaks first. *)
Definition Skip (port : Z) : bool := bool_decide (port ∈ [25; 465; 587; 143; 993; 110; 995]).

Fixpoint PeekPacket (m : metadata) (packet : list Z) (sniffers : list PacketSniffer) (sniffError : serrs) : outcome (metadata * serrs) :=
  match sniffers with
  | [] => mret (m, sniffError)
  | sniffer :: sniffers' =>
      '(m, err) ← sniffer m packet;
      match err with
      | None => mret (m, [])
      | Some e => PeekPacket m packet sniffers' (sniffError ++ [e])
      end
  end.

(** ** stun.go, ntp.go, dtls.go *)

(** [binary.BigEndian.Uint32(packet[lo:lo+4])] *)
Definition uint32_at (packet : list Z) (lo : Z) : outcome Z := checked (slice packet lo (lo + 4) ≫= be_Uint32).

Definition STUNMessage (m : metadata) (packet : list Z) : sniffed :=
  if len packet <? 20 then invalid m
  else
    cookie ← uint32_at packet 4;
    if negb (cookie =? 0x2112A442) then invalid m
    else
      l ← checked (uint16_at packet 2);
      if len packet <? 20 + l then invalid m
      else found "stun" m.

(** The values of [rootDelay] and [rootDispersion] are exact in a float64:
    [x / 65536.0 > 16.0] says [x > 16 * 65536]. *)
Definition NTP (m : metadata) (packet : list Z) : sniffed :=
  if len packet <? 48 then invalid m
  else
    firstByte ← checked (packet !! 0%nat);
    let li := Z.land (Z.shiftr firstByte 6) 0x03 in
    let vn := Z.land (Z.shiftr firstByte 3) 0x07 in
    let mode := Z.land firstByte 0x07 in
    if li >? 3 then invalid m
    else if negb (vn =? 3) && negb (vn =? 4) then invalid m
    else if negb (mode =? 3) then invalid m
    else
      rootDelay ← uint32_at packet 4;
      rootDispersion ← uint32_at packet 8;
      if rootDelay >? 16 * 65536 then invalid m
      else if rootDispersion >? 16 * 65536 then invalid m
      else found "ntp" m.

Definition DTLSRecord (m : metadata) (packet : list Z) : sniffed :=
  if len packet <? 13 then invalid m
  else
    contentType ← checked (packet !! 0%nat);
    if negb (bool_decide (contentType ∈ [20; 21; 22; 23; 25])) then invalid m
    else
      versionMajor ← checked (packet !! 1%nat);
      if negb (versionMajor =? 0xfe) then invalid m
      else
        versionMinor ← checked (packet !! 2%nat);
        if negb (versionMinor =? 0xff) && negb (versionMinor =? 0xfd) then invalid m
        else found "dtls" m.

(** ** bittorrent.go *)

(** The loop over the extensions of a uTP packet; [false] for an error. Seeking past
    the end leaves nothing to read. *)
Fixpoint utp_extensions (fuel : nat) (extension : Z) (reader : list Z) : outcome bool :=
  if extension =? 0 then mret true
  else
    match fuel with
    | O => Running
    | S fuel' =>
        match reader with
        | extension :: reader =>
            if extension >? 0x04 then mret false
            else
              match reader with
              | l :: reader => utp_extensions fuel' extension (drop (Z.to_nat l) reader)
              | [] => mret false
              end
        | [] => mret false
        end
    end.

Definition UTP (m : metadata) (packet : list Z) : sniffed :=
  if len packet <? 20 then invalid m
  else
    first ← checked (packet !! 0%nat);
    let version := Z.land first 0x0F in
    let ty := Z.shiftr first 4 in
    if negb (version =? 1) || (ty >? 4) then invalid m
    else
      extension ← checked (packet !! 1%nat);
      reader ← checked (slice_from packet 20);
      ok ← utp_extensions (S (length reader)) extension reader;
      if ok : bool then found "bittorrent" m else invalid m.

Definition trackerConnectFlag : Z := 0.
Definition trackerProtocolID : Z := 0x41727101980.
Definition trackerConnectMinSize : Z := 16.

Definition UDPTracker (m : metadata) (packet : list Z) : sniffed :=
  if len packet <? trackerConnectMinSize then invalid m
  else
    id ← checked (slice packet 0 8 ≫= be_Uint64);
    if negb (id =? trackerProtocolID) then invalid m
    else
      action ← uint32_at packet 8;
      if negb (action =? trackerConnectFlag) then invalid m
      else found "bittorrent" m.

(** ** dns.go *)

(** What [DomainNameQuery] looks at in a DNS message. *)
Record Msg := mkMsg {
  Response : bool;
  Question : nat;
  Answer : nat;
  Ns : nat
}.

(** [Unpack] of the DNS library; it is [None] for an error. The error returned for a
    message that is not a query is the nil of [Unpack]. *)
Definition DomainNameQuery (Unpack : list Z -> option Msg) (m : metadata) (packet : list Z) : sniffed :=
  match Unpack packet with
  | None => invalid m
  | Some msg =>
      if Response msg || (Question msg =? 0)%nat || (0 <? Answer msg)%nat || (0 <? Ns msg)%nat then mret (m, None)
      else found "dns" m
  end.

(** ** Readers *)

Definition ReadByte (r : list Z) : option (Z * list Z) := match r with b :: r => Some (b, r) | [] => None end.

(** [io.ReadFull] and [io.CopyN] to nowhere. *)
Definition ReadN (n : Z) (r : list Z) : option (list Z * list Z) :=
  if len r <? n then None else Some (take (Z.to_nat n) r, drop (Z.to_nat n) r).

(** ** internal/qtls *)

Definition VersionDraft29 : Z := 0xff00001d.
Definition Version1 : Z := 0x1.
Definition Version2 : Z := 0x6b3343cf.

Definition SaltOld : list Z :=
  [0xaf; 0xbf; 0xec; 0x28; 0x99; 0x93; 0xd2; 0x4c; 0x9e; 0x97; 0x86; 0xf1; 0x9c; 0x61; 0x11; 0xe0; 0x43; 0x90; 0xa8; 0x99].
Definition SaltV1 : list Z :=
  [0x38; 0x76; 0x2c; 0xf7; 0xf5; 0x59; 0x34; 0xb3; 0x4d; 0x17; 0x9a; 0xe6; 0xa4; 0xc8; 0x0c; 0xad; 0xcc; 0xbb; 0x7f; 0x0a].
Definition SaltV2 : list Z :=
  [0x0d; 0xed; 0xe3; 0xde; 0xf7; 0x00; 0xa6; 0xdb; 0x81; 0x93; 0x81; 0xbe; 0x6e; 0x26; 0x9d; 0xcb; 0xf9; 0xbd; 0x2e; 0xd9].

Definition ReadUvarint (r : list Z) : option (Z * list Z) :=
  '(firstByte, r) ← ReadByte r;
  let len := Z.shiftl 1 (Z.shiftr (Z.land firstByte 0xc0) 6) in
  let b1 := Z.land firstByte (0xff - 0xc0) in
  if len =? 1 then Some (b1, r)
  else
    '(b2, r) ← ReadByte r;
    if len =? 2 then Some (b2 + Z.shiftl b1 8, r)
    else
      '(b3, r) ← ReadByte r; '(b4, r) ← ReadByte r;
      if len =? 4 then Some (b4 + Z.shiftl b3 8 + Z.shiftl b2 16 + Z.shiftl b1 24, r)
      else
        '(b5, r) ← ReadByte r; '(b6, r) ← ReadByte r; '(b7, r) ← ReadByte r; '(b8, r) ← ReadByte r;
        Some (b8 + Z.shiftl b7 8 + Z.shiftl b6 16 + Z.shiftl b5 24 + Z.shiftl b4 32 + Z.shiftl b3 40 + Z.shiftl b2 48 + Z.shiftl b1 56, r).

(** Any number of varints that are read and not used. *)
Fixpoint SkipUvarints (n : nat) (r : list Z) : option (list Z) :=
  match n with
  | O => Some r
  | S n' => '(_, r) ← ReadUvarint r; SkipUvarints n' r
  end.
Section Quic.

(** [hkdf.Extract] and [hkdf.Expand] of SHA-256, opening with AES-128-GCM given key,
    nonce, ciphertext and additional data, and one block of AES. *)
Context (hkdf_Extract : list Z -> list Z -> list Z) (hkdf_Expand : list Z -> list Z -> nat -> list Z)
  (gcm_Open : list Z -> list Z -> list Z -> list Z -> option (list Z)) (aes_Encrypt : list Z -> list Z -> list Z).

Definition HKDFExpandLabel (secret context label : list Z) (length' : nat) : list Z :=
  hkdf_Expand secret
    (be16 (u16 (Z.of_nat length')) ++ [u8 (6 + len label)] ++ str "tls13 " ++ label ++ [u8 (len context)] ++ context) length'.

(** [AEADAESGCMTLS13] and [Open] of its result: a wrong length of the nonce mask or of
    the key panics. *)
Definition aead_Open (key nonceMask nonce ciphertext additionalData : list Z) : outcome (option (list Z)) :=
  if negb (len nonceMask =? 12) then Panics
  else if negb (bool_decide (len key ∈ [16; 24; 32])) then Panics
  else mret (gcm_Open key (QuicInitial.xor_nonce nonceMask nonce) ciphertext additionalData).

(** ** quic.go *)

Record header := mkHeader {
  typeByte : Z;
  versionNumber : Z;
  destConnID : list Z;
  packetLen : Z;
  hdrLen : Z;
  pnBytes : list Z
}.

(** The header up to the sample of the header protection. *)
Definition read_header (packet : list Z) : option header :=
  '(typeByte, r) ← ReadByte packet;
  if Z.land typeByte 0x40 =? 0 then None
  else
    '(version, r) ← ReadN 4 r;
    let versionNumber := be_uint version in
    if negb (versionNumber =? VersionDraft29) && negb (versionNumber =? Version1) && negb (versionNumber =? Version2) then None
    else
      let packetType := Z.shiftr (Z.land typeByte 0x30) 4 in
      if ((packetType =? 0) && (versionNumber =? Version2)) || ((packetType =? 2) && negb (versionNumber =? Version2)) || (packetType >? 2) then None
      else
        '(destConnIDLen, r) ← ReadByte r;
        if (destConnIDLen =? 0) || (destConnIDLen >? 20) then None
        else
          '(destConnID, r) ← ReadN destConnIDLen r;
          '(srcConnIDLen, r) ← ReadByte r;
          '(_, r) ← ReadN srcConnIDLen r;
          '(tokenLen, r) ← ReadUvarint r;
          '(_, r) ← ReadN tokenLen r;
          '(packetLen, r) ← ReadUvarint r;
          let hdrLen := len packet - len r in
          if hdrLen + packetLen >? len packet then None
          else
            '(_, r) ← ReadN 4 r;
            '(pnBytes, _) ← ReadN 16 r;
            Some (mkHeader typeByte versionNumber destConnID packetLen hdrLen pnBytes).

(** [newPacket] without the header protection: the mask on the first byte and on four
    bytes after the header. *)
Definition unmask (packet : list Z) (hdrLen : Z) (mask : list Z) : option (list Z) :=
  m0 ← mask !! 0%nat; m1 ← mask !! 1%nat; m2 ← mask !! 2%nat; m3 ← mask !! 3%nat; m4 ← mask !! 4%nat;
  p ← QuicInitial.xor_at packet 0 (Z.land m0 0xf);
  let h := Z.to_nat hdrLen in
  p ← QuicInitial.xor_at p h m1; p ← QuicInitial.xor_at p (h + 1) m2; p ← QuicInitial.xor_at p (h + 2) m3; QuicInitial.xor_at p (h + 3) m4.

(** The rest of the packet after its packet number has been removed is opened in place:
    the result is the decrypted payload, and the bytes of [newPacket] that follow it, up
    to which a slice of the payload can reach. [None] is an error. *)
Definition open_packet (packet : list Z) (h : header) : outcome (option (list Z * list Z)) :=
  let salt := if versionNumber h =? Version1 then SaltV1 else if versionNumber h =? Version2 then SaltV2 else SaltOld in
  let v2 := versionNumber h =? Version2 in
  let initialSecret := hkdf_Extract (destConnID h) salt in
  let secret := HKDFExpandLabel initialSecret [] (str "client in") 32 in
  let hpKey := HKDFExpandLabel secret [] (if v2 then str "quicv2 hp" else str "quic hp") 16 in
  if negb (bool_decide (len hpKey ∈ [16; 24; 32])) then mret None
  else
    newPacket ← checked (unmask packet (hdrLen h) (aes_Encrypt hpKey (pnBytes h)));
    first ← checked (newPacket !! 0%nat);
    let packetNumberLength := Z.land first 0x3 + 1 in
    if hdrLen h + packetNumberLength >? packetLen h + hdrLen h then mret None
    else
      let extHdrLen := hdrLen h + packetNumberLength in
      let ext := Z.to_nat extHdrLen in
      number ← checked (slice newPacket (hdrLen h) extHdrLen);
      let packetNumber := be_uint number in
      restored ← checked (slice packet extHdrLen (hdrLen h + 4));
      let newPacket := take ext newPacket ++ restored ++ drop (Z.to_nat (hdrLen h + 4)) newPacket in
      data ← checked (slice newPacket extHdrLen (packetLen h + hdrLen h));
      let key := HKDFExpandLabel secret [] (if v2 then str "quicv2 key" else str "quic key") 16 in
      let iv := HKDFExpandLabel secret [] (if v2 then str "quicv2 iv" else str "quic iv") 12 in
      opened ← aead_Open key iv (QuicInitial.be64 packetNumber) data (take ext newPacket);
      match opened with
      | None => mret None
      | Some decrypted => mret (Some (decrypted, drop (length decrypted) (drop ext newPacket)))
      end.

(** The ranges of an ACK frame; each takes two bytes at least, so the bytes left bound
    the rounds. *)
Fixpoint ack_ranges (fuel : nat) (count : Z) (r : list Z) : outcome (option (list Z)) :=
  if count <=? 0 then mret (Some r)
  else
    match fuel with
    | O => Running
    | S fuel' =>
        match SkipUvarints 2 r with
        | None => mret None
        | Some r => ack_ranges fuel' (count - 1) r
        end
    end.

Definition frameTypePadding : Z := 0x00.
Definition frameTypePing : Z := 0x01.
Definition frameTypeAck : Z := 0x02.
Definition frameTypeAck2 : Z := 0x03.
Definition frameTypeCrypto : Z := 0x06.
Definition frameTypeConnectionClose : Z := 0x1c.

(** An ACK frame after its type. *)
Definition ack_frame (frameType : Z) (r : list Z) : outcome (option (list Z)) :=
  match SkipUvarints 2 r with
  | None => mret None
  | Some r =>
      match ReadUvarint r with
      | None => mret None
      | Some (ackRangeCount, r) =>
          match SkipUvarints 1 r with
          | None => mret None
          | Some r =>
              o ← ack_ranges (S (length r)) ackRangeCount r;
              match o with
              | None => mret None
              | Some r => if frameType =? frameTypeAck2 then mret (SkipUvarints 3 r) else mret (Some r)
              end
          end
      end
  end.

(** A CRYPTO frame after its type; [behind] are the bytes of the buffer behind the
    payload. *)
Definition crypto_frame (decrypted behind r : list Z) : outcome (option (qCryptoFragment * list Z)) :=
  match ReadUvarint r with
  | None => mret None
  | Some (off, r) =>
      match ReadUvarint r with
      | None => mret None
      | Some (l, r) =>
          let index := len decrypted - len r in
          piece ← checked (slice (decrypted ++ behind) index (index + l));
          mret (Some (mkFragment off l piece, drop (Z.to_nat l) r))
      end
  end.

Definition close_frame (r : list Z) : option (list Z) :=
  r ← SkipUvarints 2 r;
  '(l, r) ← ReadUvarint r;
  Some (drop (Z.to_nat l) r).

(** The loop over the frames: the types and the fragments, in order. *)
Fixpoint read_frames (fuel : nat) (decrypted behind r : list Z) (types : list Z) (fragments : list qCryptoFragment) :
    outcome (option (list Z * list qCryptoFragment)) :=
  match r with
  | [] => mret (Some (types, fragments))
  | frameType :: r =>
      match fuel with
      | O => Running
      | S fuel' =>
          let types := types ++ [frameType] in
          if (frameType =? frameTypePadding) || (frameType =? frameTypePing) then read_frames fuel' decrypted behind r types fragments
          else if (frameType =? frameTypeAck) || (frameType =? frameTypeAck2) then
            o ← ack_frame frameType r;
            match o with
            | None => mret None
            | Some r => read_frames fuel' decrypted behind r types fragments
            end
          else if frameType =? frameTypeCrypto then
            o ← crypto_frame decrypted behind r;
            match o with
            | None => mret None
            | Some (fragment, r) => read_frames fuel' decrypted behind r types (fragments ++ [fragment])
            end
          else if frameType =? frameTypeConnectionClose then
            match close_frame r with
            | None => mret None
            | Some r => read_frames fuel' decrypted behind r types fragments
            end
          else mret None
      end
  end.

(** The loop [find]: the fragment at the offset reached is written to the buffer. *)
Fixpoint find_fragments (fuel : nat) (fragments : list qCryptoFragment) (index : Z) (buffer : list Z) : outcome (list Z) :=
  match fuel with
  | O => Running
  | S fuel' =>
      match List.find (fun f => offset f =? index) fragments with
      | None => mret buffer
      | Some f => find_fragments fuel' fragments (u64 (offset f + length_ f)) (buffer ++ payload f)
      end
  end.

Definition isZero (slices : list Z) : bool := forallb (fun s => s =? 0) slices.
Definition count (slices : list Z) (value : Z) : nat := length (filter (fun s => s = value) slices).

(** quic_blacklist.go *)
Definition x25519Kyber768Draft00 : Z := 0x11EC.
Definition extensionRenegotiationInfo : Z := 0xFF01.

Definition isQUICGo (fingerprint : Ja3.ClientHello) : bool :=
  if bool_decide (x25519Kyber768Draft00 ∈ Ja3.EllipticCurves fingerprint) then true
  else bool_decide (extensionRenegotiationInfo ∈ Ja3.Extensions fingerprint).

Definition is_grease (v : Z) : bool := Z.land v Ja3.GreaseBitmask =? 0x0A0A.

(** [TLS_AES_256_GCM_SHA384], [X25519] and [ECDSAWithP256AndSHA256] of crypto/tls. *)
Definition safari (fingerprint : Ja3.ClientHello) : bool :=
  match Ja3.Versions fingerprint, Ja3.EllipticCurves fingerprint with
  | [v; _], [c; _; _; _; _] => is_grease v && is_grease c
  | _, _ => false
  end ||
  bool_decide (Ja3.CipherSuites fingerprint = [0x1302]) && bool_decide (Ja3.EllipticCurves fingerprint = [29]) &&
  bool_decide (Ja3.SignatureAlgorithms fingerprint = [0x0403]).

(** The client that sent frames of these types; an empty list of types panics at
    [frameTypeList[0]]. *)
Definition client_of (types : list Z) (fingerprint : Ja3.ClientHello) : outcome string :=
  if (length types =? 1)%nat then mret "firefox"%string
  else
    first ← checked (types !! 0%nat);
    if (first =? frameTypeCrypto) && isZero (drop 1 types) && safari fingerprint then mret "safari"%string
    else
      last ← checked (types !! (length types - 1)%nat);
      if (last =? frameTypeCrypto) && isZero (take (length types - 1) types) then mret "quic-go"%string
      else if (1 <? count types frameTypeCrypto)%nat || (0 <? count types frameTypePing)%nat then
        mret (if isQUICGo fingerprint then "quic-go" else "chromium")%string
      else mret "unknown"%string.

(** The payload of an Initial packet; [fuel] bounds the rounds of [find]. *)
Definition sniff_payload (fuel : nat) (m : metadata) (decrypted behind : list Z) : sniffed :=
  o ← read_frames (length decrypted) decrypted behind decrypted [] [];
  match o with
  | None => invalid m
  | Some (types, fragments) =>
      let fragments := fragments ++ default [] (SniffContext m) in
      let m := set_Context None m in
      let frameLen := foldl (fun n f => u64 (n + length_ f)) 0 fragments in
      content ← find_fragments fuel fragments 0 ([0x16] ++ be16 0x0303 ++ be16 (u16 frameLen));
      let m := set_Protocol (str "quic") m in
      computed ← Ja3.Compute content;
      match computed with
      | inl _ => need_more (set_Context (Some fragments) m)
      | inr fingerprint =>
          let m := set_Domain (Ja3.ServerName fingerprint) m in
          if bool_decide (Client m = []) then
            client ← client_of types fingerprint;
            mret (set_Client (str client) m, None)
          else mret (m, None)
      end
  end.

Definition QUICClientHello (fuel : nat) (m : metadata) (packet : list Z) : sniffed :=
  match read_header packet with
  | None => invalid m
  | Some h =>
      o ← open_packet packet h;
      match o with
      | None => invalid m
      | Some (decrypted, behind) => sniff_payload fuel m decrypted behind
      end
  end.

End Quic.

(** ** Streams *)

(** [io.MultiReader] over buffers: a call of [Read] gives bytes of the first buffer
    that has some, [io.ReadFull] goes on to the next ones. *)
Definition reader : Type := list (list Z).

Fixpoint Read (n : nat) (r : reader) : option (list Z * reader) :=
  match r with
  | [] => None
  | [] :: r => Read n r
  | c :: r => Some (take n c, drop n c :: r)
  end.

Fixpoint ReadFull (n : nat) (r : reader) : option (list Z * reader) :=
  match n, r with
  | O, _ => Some ([], r)
  | _, [] => None
  | _, c :: r' =>
      if (n <=? length c)%nat then Some (take n c, drop n c :: r')
      else '(b, r'') ← ReadFull (n - length c) r'; Some (c ++ b, r'')
  end.

Definition StreamSniffer : Type := metadata -> reader -> sniffed.

(** [binary.Read] of [n] bytes; too few bytes need more data. *)
Definition binary_Read (n : nat) (m : metadata) (r : reader) (k : Z -> reader -> sniffed) : sniffed :=
  match ReadFull n r with
  | None => need_more m
  | Some (b, r) => k (be_uint b) r
  end.

Definition BitTorrent (m : metadata) (r : reader) : sniffed :=
  binary_Read 1 m r (fun first r =>
  if negb (first =? 19) then invalid m
  else
    let header := str "BitTorrent protocol" in
    let '(protocol, eof) := match Read 19 r with Some (b, _) => (b, false) | None => ([], true) end in
    if negb (bool_decide (protocol = take (length protocol) header)) then invalid m
    else if eof : bool then need_more m
    else if (length protocol <? 19)%nat then need_more m
    else found "bittorrent" m).

(** [bufio.Reader.ReadLine] with the buffer of 4096 bytes: a line without its end, or
    the bytes there are. *)
Definition ReadLine (s : list Z) : option (list Z) :=
  let window := take 4096 s in
  match IndexByte window 10 with
  | Some i => let line := take i window in Some (TrimSuffix line [13])
  | None =>
      match s with
      | [] => None
      | _ => Some (if (4096 <=? length s)%nat then TrimSuffix window [13] else window)
      end
  end.

Definition SSH (m : metadata) (r : reader) : sniffed :=
  let sshPrefix := str "SSH-2.0-" in
  let s := concat r in
  let prefix := take 8 s in
  if negb (bool_decide (prefix = take (length prefix) sshPrefix)) then invalid m
  else if (length s <? 8)%nat then need_more m
  else
    match ReadLine s with
    | None => invalid m
    | Some firstLine =>
        client ← checked (slice_from firstLine 8);
        mret (set_Client client (set_Protocol (str "ssh") m), None)
    end.

Section Streams.

(** Of the sing library: [rw.SkipN] skips bytes of a reader or fails, [ReadFullFrom] of
    a buffer gives the bytes read and whether they are as many as asked for. *)
Context (SkipN : reader -> nat -> option reader) (ReadFullFrom : reader -> nat -> list Z * bool) (Unpack : list Z -> option Msg).

Definition RDP (m : metadata) (r : reader) : sniffed :=
  binary_Read 1 m r (fun tpktVersion r =>
  if negb (tpktVersion =? 0x03) then invalid m
  else binary_Read 1 m r (fun tpktReserved r =>
  if negb (tpktReserved =? 0x00) then invalid m
  else binary_Read 2 m r (fun tpktLength r =>
  if negb (tpktLength =? 19) then invalid m
  else binary_Read 1 m r (fun cotpLength r =>
  if negb (cotpLength =? 14) then invalid m
  else binary_Read 1 m r (fun cotpTpduType r =>
  if negb (cotpTpduType =? 0xE0) then invalid m
  else match SkipN r 5 with
  | None => need_more m
  | Some r => binary_Read 1 m r (fun rdpType r =>
  if negb (rdpType =? 0x01) then invalid m
  else binary_Read 1 m r (fun rdpFlags r => binary_Read 1 m r (fun rdpLength r =>
  if negb (rdpLength =? 8) then invalid m
  else found "rdp" m)))
  end))))).

(** A byte of a section count that is not zero, among the bytes read. *)
Definition counts_answers (packet : list Z) : bool := existsb (fun b => negb (b =? 0)) (take 4 (drop 6 packet)).

Definition StreamDomainNameQuery (m : metadata) (r : reader) : sniffed :=
  binary_Read 2 m r (fun length' r =>
  if length' <? 12 then invalid m
  else
    let '(packet, full) := ReadFullFrom r (Z.to_nat length') in
    if match packet !! 2%nat with Some b => negb (Z.land b 0x80 =? 0) | None => false end then invalid m
    else if match packet !! 4%nat, packet !! 5%nat with Some x, Some y => (x =? 0) && (y =? 0) | _, _ => false end then invalid m
    else if counts_answers packet then invalid m
    else if negb full then need_more m
    else DomainNameQuery Unpack m packet).

End Streams.

(** The sniffers on the bytes so far; no error when one of them succeeds. *)
Fixpoint try_streams (m : metadata) (r : reader) (sniffers : list StreamSniffer) (sniffError : serrs) : outcome (metadata * option serrs) :=
  match sniffers with
  | [] => mret (m, Some sniffError)
  | sniffer :: sniffers' =>
      '(m, err) ← sniffer m r;
      match err with
      | None => mret (m, None)
      | Some e => try_streams m r sniffers' (sniffError ++ [e])
      end
  end.

(** What a connection does at successive reads: its deadline cannot be set, the read
    fails (a reader may give bytes with the error, and these are in the buffer), or it
    gives bytes.  It fails when nothing more is to come or the buffer is full. *)
Inductive stream_event := NoDeadline | ReadFails (b : list Z) | Chunk (b : list Z).

(** [PeekStream] from read number [i] on; the result has the bytes read, the error and
    the events to come. *)
Fixpoint PeekStream (events : list stream_event) (i : nat) (m : metadata) (buffers : reader) (buffer : list Z) (sniffers : list StreamSniffer)
    (sniffError : serrs) : outcome (metadata * list Z * serrs * list stream_event) :=
  let read_failed b events := mret (m, buffer ++ b, if (0 <? i)%nat then sniffError else [Failed], events) in
  match events with
  | [] => read_failed [] []
  | NoDeadline :: events => mret (m, buffer, [Failed], events)
  | ReadFails b :: events => read_failed b events
  | Chunk b :: events =>
      let buffer := buffer ++ b in
      '(m, r) ← try_streams m (buffers ++ [buffer]) sniffers [];
      match r with
      | None => mret (m, buffer, [], events)
      | Some sniffError =>
          if negb (is_need_more sniffError) then mret (m, buffer, sniffError, events)
          else PeekStream events (S i) m buffers buffer sniffers sniffError
      end
  end.

End Sniff.
