(* ===== verification/SniffProps.v ===== *)
(** * What the QUIC sniffer recognises

    The sniffer of Sniff.v against packets as RFC 9000 describes them: it finds the
    server name of a ClientHello whatever the order of its CRYPTO frames and however
    they are spread over packets, it recognises the decoys of QuicInitial.v, and it can
    be made to hang and to panic. *)

From S2P Require Import Prelude Bits Bytes GoStrings TlsFragment Masque QuicInitial MasqueProps QuicProps QuicPacket Masquerade Ja3 Sniff.

Module SniffProps.

Import TlsFragment Sniff Ja3.

Local Open Scope Z_scope.

(** ** Frames *)

Lemma cons_middle {A} (x : A) a l : a ++ x :: l = a ++ [x] ++ l.
Proof. done. Qed.

Definition type_of (f : QuicProps.frame) : Z :=
  match f with QuicProps.Crypto _ _ => frameTypeCrypto | QuicProps.Ping => frameTypePing | QuicProps.Padding => frameTypePadding end.

Definition frag_of (p : Z * list Z) : qCryptoFragment := mkFragment (fst p) (len (snd p)) (snd p).

Lemma first_bits b : is_u8 b -> Z.shiftl 1 (Z.shiftr (Z.land b 0xc0) 6) = (if b <? 64 then 1 else if b <? 128 then 2 else if b <? 192 then 4 else 8) /\
  Z.land b 63 = b mod 64.
Proof.
  intros Hb. pose proof (byte_cases (fun b => (Z.shiftl 1 (Z.shiftr (Z.land b 0xc0) 6) =? (if b <? 64 then 1 else if b <? 128 then 2 else if b <? 192 then 4 else 8)) &&
    (Z.land b 63 =? b mod 64)) ltac:(vm_compute; reflexivity) b Hb) as Hc.
  apply andb_true_iff in Hc as [H1%Z.eqb_eq H2%Z.eqb_eq]. done.
Qed.

Lemma ReadUvarint_varint s v r : Forall is_u8 s -> QuicProps.varint s = Some (v, r) -> ReadUvarint s = Some (v, r).
Proof.
  intros HF. destruct s as [|b s]; [done|]. apply list.Forall_cons in HF as [Hb Hs]. destruct (first_bits b Hb) as [H1 H2].
  unfold QuicProps.varint, ReadUvarint. cbn [ReadByte mbind option_bind]. rewrite H1. change (0xff - 0xc0) with 63. rewrite H2. unfold is_u in Hb.
  destruct (Z.ltb_spec b 64).
  - intros [= <- <-]. cbn. by rewrite Z.mod_small by lia.
  - destruct (Z.ltb_spec b 128); [|done]. destruct s as [|c s]; [done|]. intros [= <- <-]. cbn [Z.eqb Pos.eqb ReadByte mbind option_bind].
    do 2 f_equal. rewrite Z.shiftl_mul_pow2 by lia. Z.to_euclidean_division_equations. lia.
Qed.

Lemma varint_suffix s v r : QuicProps.varint s = Some (v, r) -> exists pre, s = pre ++ r.
Proof.
  unfold QuicProps.varint. destruct s as [|b s]; [done|]. destruct (_ <? _); [intros [= <- <-]; by exists [b]|].
  destruct (_ <? _); [|done]. destruct s as [|c s]; [done|]. intros [= <- <-]. by exists [b; c].
Qed.

Lemma varint_nonneg s v r : QuicProps.varint s = Some (v, r) -> Forall is_u8 s -> 0 <= v.
Proof.
  unfold QuicProps.varint. intros H HF. destruct s as [|b s]; [done|]. apply list.Forall_cons in HF as [Hb HF]. unfold is_u in Hb.
  destruct (Z.ltb_spec b 64); [injection H; lia|]. destruct (_ <? 128); [|done]. destruct s as [|c s]; [done|].
  apply List.Forall_inv in HF. unfold is_u in HF. injection H. lia.
Qed.

Lemma frames_read fuel decrypted behind pre s fs types frags :
  QuicProps.read_frames fuel s = Some fs -> Forall is_u8 s -> decrypted = pre ++ s ->
  read_frames fuel decrypted behind s types frags =
  Returns (Some (types ++ map type_of fs, frags ++ map frag_of (QuicProps.crypto_of fs))).
Proof.
  revert pre s fs types frags. induction fuel as [|fuel IH]; intros pre s fs types frags Hr HF Hd.
  { destruct s; [|done]. injection Hr as <-. cbn. by rewrite !app_nil_r. }
  destruct s as [|b s]; [injection Hr as <-; cbn; by rewrite !app_nil_r|]. cbn [QuicProps.read_frames read_frames] in *.
  apply list.Forall_cons in HF as [Hb HF].
  assert (Hnext : forall f fs', QuicProps.read_frames fuel s = Some fs' -> fs = f :: fs' -> QuicProps.crypto_of [f] = [] ->
    read_frames fuel decrypted behind s (types ++ [type_of f]) frags =
    Returns (Some (types ++ map type_of fs, frags ++ map frag_of (QuicProps.crypto_of fs)))).
  { intros f fs' H1 -> H2. rewrite (IH (pre ++ [b]) s fs') by (done || by rewrite Hd, <- app_assoc).
    change (f :: fs') with ([f] ++ fs'). unfold QuicProps.crypto_of in *. rewrite omap_app, H2. cbn [map app]. by rewrite <- app_assoc. }
  destruct (Z.eqb_spec b 0) as [->|Hb0].
  { destruct (QuicProps.read_frames fuel s) as [fs'|] eqn:Hfs; [|done]. injection Hr as <-. by apply (Hnext QuicProps.Padding fs'). }
  destruct (Z.eqb_spec b 1) as [->|Hb1].
  { destruct (QuicProps.read_frames fuel s) as [fs'|] eqn:Hfs; [|done]. injection Hr as <-. by apply (Hnext QuicProps.Ping fs'). }
  destruct (Z.eqb_spec b 6) as [->|Hb6]; [|done]. cbn [frameTypePadding frameTypePing frameTypeAck frameTypeAck2 frameTypeCrypto Z.eqb Pos.eqb orb].
  destruct (QuicProps.varint s) as [[off s1]|] eqn:Hoff; [|done]. cbn [mbind option_bind] in Hr.
  destruct (QuicProps.varint s1) as [[l s2]|] eqn:Hl; [|done]. cbn [mbind option_bind] in Hr.
  destruct (Z.ltb_spec (Z.of_nat (length s2)) l) as [|Hlen]; [done|].
  destruct (QuicProps.read_frames fuel (drop (Z.to_nat l) s2)) as [fs'|] eqn:Hfs; [|done]. injection Hr as <-.
  destruct (varint_suffix _ _ _ Hoff) as [p1 ->]. destruct (varint_suffix _ _ _ Hl) as [p2 ->].
  pose proof HF as [_ HF1]%Forall_app. pose proof HF1 as [_ HF2]%Forall_app. unfold crypto_frame.
  rewrite (ReadUvarint_varint _ _ _ HF Hoff), (ReadUvarint_varint _ _ _ HF1 Hl).
  assert (0 <= l) as Hl0 by (by eapply varint_nonneg).
  assert (len decrypted - len s2 = len (pre ++ 6 :: p1 ++ p2)) as -> by (subst decrypted; unfold len; rewrite ?length_app; cbn [length]; rewrite ?length_app; lia).
  rewrite (slice_seam _ (pre ++ 6 :: p1 ++ p2) (take (Z.to_nat l) s2) (drop (Z.to_nat l) s2 ++ behind));
    [|subst decrypted; rewrite (app_assoc (take _ s2)), take_drop, <- !app_assoc; cbn [app]; by rewrite <- !app_assoc | done | rewrite length_take; unfold len; lia].
  cbn [checked mbind outcome_bind mret outcome_ret].
  rewrite (IH (pre ++ 6 :: p1 ++ p2 ++ take (Z.to_nat l) s2) (drop (Z.to_nat l) s2) fs');
    [|done | by apply Forall_drop | subst decrypted; rewrite <- !app_assoc; cbn [app]; by rewrite <- !app_assoc, take_drop].
  do 3 f_equal; cbn [map]; rewrite <- app_assoc; [done|]. cbn. unfold frag_of at 2. cbn [fst snd].
  by replace (len (take (Z.to_nat l) s2)) with l by (unfold len; rewrite length_take; lia).
Qed.

(** ** Putting the fragments together *)

(** Pieces after an offset are not at it. *)
Lemma assemble_offsets off ps ch p : QuicProps.assemble off ps = Some ch -> Forall (fun p => snd p <> []) ps -> p ∈ ps -> off <= fst p.
Proof.
  revert off ch. induction ps as [|[o d] ps IH]; intros off ch Ha HF Hp; [by apply not_elem_of_nil in Hp|]. cbn [QuicProps.assemble] in Ha.
  destruct (Z.eqb_spec o off) as [->|]; [|done]. destruct (QuicProps.assemble _ ps) as [rest|] eqn:Hr; [|done].
  apply list.Forall_cons in HF as [_ HF]. apply elem_of_cons in Hp as [->|Hp]; [done|]. specialize (IH _ _ Hr HF Hp). lia.
Qed.

Lemma assemble_concat off ps ch : QuicProps.assemble off ps = Some ch -> ch = concat (map snd ps).
Proof.
  revert off ch. induction ps as [|[o d] ps IH]; intros off ch Ha; cbn [QuicProps.assemble] in Ha; [by injection Ha|].
  destruct (o =? off); [|done]. destruct (QuicProps.assemble _ ps) as [rest|] eqn:Hr; [|done]. injection Ha as <-. cbn. by rewrite (IH _ _ Hr).
Qed.

(** The loop [find] writes the pieces up to the first that is not there. *)
Lemma find_pieces frags ps off ch buffer k : QuicProps.assemble off ps = Some ch -> Forall (fun p => snd p <> []) ps ->
  0 <= off -> off + len ch < 2 ^ 64 -> (forall f, f ∈ frags -> off <= offset f -> f ∈ map frag_of ps) -> (length ps < k)%nat ->
  exists n, find_fragments k frags off buffer = Returns (buffer ++ concat (map snd (take n ps))) /\
    (n = length ps \/ exists p, ps !! n = Some p /\ (frag_of p ∉ frags)).
Proof.
  revert off ch buffer k. induction ps as [|[o d] ps IH]; intros off ch buffer k Ha HF H0 Hb Hin Hk; (destruct k as [|k]; [lia|]); cbn [find_fragments].
  - exists 0%nat. destruct (List.find _ frags) as [f|] eqn:Hf; [|split; [by rewrite app_nil_r | by left]].
    apply find_some in Hf as [Hf Ho%Z.eqb_eq]. apply list_elem_of_In in Hf. destruct (not_elem_of_nil f). apply Hin; [done | lia].
  - cbn [QuicProps.assemble] in Ha. destruct (Z.eqb_spec o off) as [->|]; [|done].
    destruct (QuicProps.assemble _ ps) as [rest|] eqn:Hr; [|done]. injection Ha as <-.
    apply list.Forall_cons in HF as [Hd HF]. cbn [snd] in Hd. assert (0 < len d) as Hpos by (destruct d; [done | unfold len; cbn [length]; lia]).
    assert (forall f, f ∈ map frag_of ps -> off < offset f) as Hlater.
    { intros f (p & -> & Hp)%list_elem_of_fmap. pose proof (assemble_offsets _ _ _ _ Hr HF Hp). unfold frag_of. cbn [offset]. unfold len in Hpos. lia. }
    rewrite len_app in Hb. destruct (List.find _ frags) as [f|] eqn:Hf.
    + apply find_some in Hf as [Hf Ho%Z.eqb_eq]. apply list_elem_of_In in Hf.
      assert (f = frag_of (off, d)) as ->.
      { assert (f ∈ map frag_of ((off, d) :: ps)) as [->|Hm]%elem_of_cons by (apply Hin; [done | lia]); [done|]. specialize (Hlater f Hm). lia. }
      cbn [frag_of offset length_ payload fst snd]. pose proof (len_nonneg rest). rewrite u64_small by (unfold is_u; lia).
      destruct (IH (off + len d) rest (buffer ++ d) k Hr HF) as (n & -> & Hn); [lia | lia | | cbn [length] in Hk; lia |].
      { intros g Hg Hog. assert (g ∈ map frag_of ((off, d) :: ps)) as [->|Hm]%elem_of_cons by (apply Hin; [done | lia]); [|done].
        cbn [frag_of offset fst] in Hog. lia. }
      exists (S n). cbn [take map concat snd]. rewrite <- app_assoc. split; [done|].
      destruct Hn as [->|(p & Hp & Hnp)]; [by left | right; by exists p].
    + exists 0%nat. split; [by rewrite app_nil_r|]. right. exists (off, d). split; [done|]. intros Hm%list_elem_of_In.
      apply (find_none _ _ Hf) in Hm. cbn [frag_of offset fst] in Hm. by rewrite Z.eqb_refl in Hm.
Qed.

(** The bytes of all fragments. *)
Definition lengths (frags : list qCryptoFragment) : Z := foldr (fun f n => length_ f + n) 0 frags.

#[export] Instance lengths_perm : Proper ((≡ₚ) ==> eq) lengths.
Proof. unfold lengths. intros l1 l2 H. induction H; cbn in *; lia. Qed.

Lemma lengths_app a b : lengths (a ++ b) = lengths a + lengths b.
Proof. unfold lengths in *. induction a as [|f a IH]; cbn in *; lia. Qed.

Lemma lengths_pieces ps : lengths (map frag_of ps) = len (concat (map snd ps)).
Proof. induction ps as [|p ps IH]; [done|]. cbn [map concat lengths foldr]. rewrite len_app. cbn [frag_of length_]. fold (lengths (map frag_of ps)). lia. Qed.

Lemma lengths_nonneg l : Forall (fun f => 0 <= length_ f) l -> 0 <= lengths l.
Proof. unfold lengths. induction 1; cbn in *; lia. Qed.

Lemma frameLen_lengths frags n : Forall (fun f => 0 <= length_ f) frags -> 0 <= n -> n + lengths frags < 2 ^ 64 ->
  foldl (fun n f => u64 (n + length_ f)) n frags = n + lengths frags.
Proof.
  intros HF. revert n. induction HF as [|f frags Hf HF IH]; intros n Hn Hb; cbn in *; [lia|].
  fold (lengths frags) in *. pose proof (lengths_nonneg _ HF).
  rewrite u64_small by (unfold is_u; lia). rewrite IH by lia. lia.
Qed.

(** ** The payload of a packet *)

Section Payload.

Context (h : TlsFragment.ClientHello) (Hok : hello_ok h).

Context (ps : list (Z * list Z)) (Hps : QuicProps.assemble 0 ps = Some (hello_bytes h)) (Hfull : Forall (fun p => snd p <> []) ps).

(** The fragments of a payload with those of the packets before it are among the
    pieces of the message. *)
Lemma content_found frags missing k : frags ++ missing ≡ₚ map frag_of ps -> (length ps < k)%nat ->
  exists c, find_fragments k frags 0 (record_of 0x0303 (u16 (foldl (fun n f => u64 (n + length_ f)) 0 frags)) []) =
      Returns (record_of 0x0303 (lengths frags) c) /\ c `prefix_of` hello_bytes h /\
    lengths frags + lengths missing = len (hello_bytes h) /\ 0 <= lengths frags /\ (missing = [] -> c = hello_bytes h).
Proof.
  intros Hperm Hk. pose proof (assemble_concat _ _ _ Hps) as Hc. pose proof (ok_len h Hok) as Hl.
  assert (len (hello_bytes h) = 4 + len (hello_body h)) as Ht by (unfold hello_bytes; by_len).
  assert (Forall (fun f => 0 <= length_ f) (frags ++ missing)) as HF.
  { rewrite Hperm. apply list.Forall_fmap, list.Forall_true. intros p. apply len_nonneg. }
  apply Forall_app in HF as [HF1 HF2].
  pose proof (lengths_nonneg _ HF1). pose proof (lengths_nonneg _ HF2).
  assert (lengths frags + lengths missing = len (hello_bytes h)) as Hsum by (rewrite <- lengths_app, Hperm, lengths_pieces, Hc; done).
  rewrite frameLen_lengths by (done || lia). rewrite Z.add_0_l, u16_small by (unfold is_u; lia).
  destruct (find_pieces frags ps 0 (hello_bytes h) (record_of 0x0303 (lengths frags) []) k) as (n & Hfind & Hn); [done | done | done | lia | | done|].
  { intros f Hf _. rewrite <- Hperm. apply elem_of_app. by left. }
  exists (concat (map snd (take n ps))). split_and!; try done.
  - rewrite Hc. rewrite <- (take_drop n ps) at 2. rewrite map_app, concat_app. by apply prefix_app_r.
  - intros ->. rewrite app_nil_r in Hperm. rewrite Hc. destruct Hn as [->|(p & Hp & Hnp)]; [by rewrite take_ge|].
    destruct Hnp. rewrite Hperm. apply list_elem_of_fmap. exists p. split; [done | by eapply list_elem_of_lookup_2].
Qed.

Context (payload behind : list Z) (fs : list QuicProps.frame).
Context (Hframes : QuicProps.read_frames (length payload) payload = Some fs) (Hbytes : Forall is_u8 payload).

Lemma payload_partial k m missing : map frag_of (QuicProps.crypto_of fs) ++ default [] (SniffContext m) ++ missing ≡ₚ map frag_of ps ->
  0 < lengths missing -> (length ps < k)%nat ->
  sniff_payload k m payload behind =
  need_more (set_Context (Some (map frag_of (QuicProps.crypto_of fs) ++ default [] (SniffContext m))) (set_Protocol (str "quic") m)).
Proof.
  intros Hperm Hmiss Hk. unfold sniff_payload. rewrite (frames_read _ _ behind [] payload fs) by done. cbn [mbind outcome_bind]. rewrite !app_nil_l. cbv zeta.
  rewrite app_assoc in Hperm. destruct (content_found _ _ _ Hperm Hk) as (c & Hfind & Hpre & Hsum & H0 & _).
  unfold record_of at 1 in Hfind. rewrite app_nil_r in Hfind. rewrite Hfind. cbn [mbind outcome_bind]. unfold Compute.
  destruct (parseSegment_partial (length (record_of 0x0303 (lengths (map frag_of (QuicProps.crypto_of fs) ++ default [] (SniffContext m))) c))
    0x0303 (lengths (map frag_of (QuicProps.crypto_of fs) ++ default [] (SniffContext m))) c h) as (e & ->); [done | lia | done | lia|]. done.
Qed.

Lemma payload_whole k m fp : Compute (record_of 0x0303 (len (hello_bytes h)) (hello_bytes h)) = Returns (inr fp) ->
  map frag_of (QuicProps.crypto_of fs) ++ default [] (SniffContext m) ≡ₚ map frag_of ps -> (length ps < k)%nat -> Client m = [] ->
  sniff_payload k m payload behind =
  (client ← client_of (map type_of fs) fp; mret (mkMetadata (str "quic") (ServerName fp) (str client) None, None)).
Proof.
  intros Hread Hperm Hk Hcl. unfold sniff_payload. rewrite (frames_read _ _ behind [] payload fs) by done. cbn [mbind outcome_bind]. rewrite !app_nil_l. cbv zeta.
  rewrite <- (app_nil_r (_ ++ _)) in Hperm. destruct (content_found _ _ _ Hperm Hk) as (c & Hfind & _ & Hsum & _ & Hc).
  rewrite (Hc eq_refl) in Hfind. change (lengths []) with 0 in Hsum. rewrite Z.add_0_r in Hsum. rewrite Hsum in Hfind.
  unfold record_of at 1 in Hfind. rewrite app_nil_r in Hfind. rewrite Hfind. cbn [mbind outcome_bind].
  rewrite Hread. cbn [mbind outcome_bind].
  cbn [Client set_Domain set_Protocol set_Context]. rewrite Hcl, bool_decide_eq_true_2 by done. done.
Qed.

End Payload.

(** ** The client *)

Lemma client_total types fp : types <> [] -> exists c, client_of types fp = Returns c.
Proof.
  intros Hne. unfold client_of. destruct (_ =? 1)%nat; [by eexists|]. destruct types as [|t types]; [done|]. cbn [lookup list_lookup checked mbind outcome_bind].
  destruct (_ && safari fp); [by eexists|].
  destruct (lookup_lt_is_Some_2 (t :: types) (length (t :: types) - 1)) as [x ->]; [cbn [length]; lia|]. cbn [checked mbind outcome_bind].
  repeat (destruct (_ : bool); [by eexists|]). by eexists.
Qed.

Lemma isZero_none types : isZero types = true -> count types frameTypeCrypto = 0%nat.
Proof.
  unfold isZero, count. induction types as [|t types IH]; [done|]. cbn [forallb]. intros [->%Z.eqb_eq Ht]%andb_true_iff.
  rewrite filter_cons_False by done. by apply IH.
Qed.

Lemma count_app a b v : count (a ++ b) v = (count a v + count b v)%nat.
Proof. unfold count. by rewrite list.filter_app, length_app. Qed.

Lemma client_two types fp : (2 <= count types frameTypeCrypto)%nat -> client_of types fp = Returns (if isQUICGo fp then "quic-go" else "chromium")%string.
Proof.
  intros Hc. unfold client_of.
  assert (forall x, count [x] frameTypeCrypto <= 1)%nat as H1 by (intros x; unfold count; rewrite filter_cons; destruct (decide _); cbn; lia).
  destruct types as [|t types]; [change (count [] frameTypeCrypto) with 0%nat in Hc; lia|]. pose proof (H1 t) as Ht. change (t :: types) with ([t] ++ types) in Hc; rewrite count_app in Hc.
  assert (isZero types = false) as Hz by (destruct (isZero types) eqn:Hz; [apply isZero_none in Hz; lia | done]).
  destruct types as [|t2 types]; [done|]. change (length (t :: t2 :: types) =? 1)%nat with false. cbv iota.
  cbn [lookup list_lookup checked mbind outcome_bind drop]. rewrite Hz, andb_false_r. cbn [andb]. set (ts := t :: t2 :: types).
  destruct (lookup_lt_is_Some_2 ts (length ts - 1)) as [x Hx]; [cbn; lia|]. rewrite Hx. cbn [checked mbind outcome_bind].
  assert (ts = take (length ts - 1) ts ++ [x]) as Hsplit.
  { rewrite <- (take_S_r ts _ x Hx). rewrite take_ge by (cbn; lia). done. }
  assert (2 <= count ts frameTypeCrypto)%nat as Hcs by (unfold ts; change (t :: t2 :: types) with ([t] ++ t2 :: types); rewrite count_app; lia).
  assert (isZero (take (length ts - 1) ts) = false) as ->.
  { destruct (isZero (take _ ts)) eqn:Hz'; [|done]. apply isZero_none in Hz'. rewrite Hsplit, count_app in Hcs. pose proof (H1 x). lia. }
  rewrite andb_false_r. by rewrite (proj2 (Nat.ltb_lt 1 (count ts frameTypeCrypto))) by lia.
Qed.

Lemma count_crypto fs : count (map type_of fs) frameTypeCrypto = length (QuicProps.crypto_of fs).
Proof.
  unfold count, QuicProps.crypto_of. induction fs as [|f fs IH]; [done|]. cbn [map omap list_omap].
  destruct f; cbn [type_of]; [rewrite filter_cons_True by done; cbn [length]; by rewrite <- IH | by rewrite filter_cons_False by done..].
Qed.

(** ** Opening a packet *)

Lemma xor_at_after pre l k n v : n = (length pre + k)%nat ->
  QuicInitial.xor_at (pre ++ l) n v = l' ← QuicInitial.xor_at l k v; Some (pre ++ l').
Proof.
  intros ->. unfold QuicInitial.xor_at. rewrite lookup_app_r by lia. replace (length pre + k - length pre)%nat with k by lia.
  destruct (l !! k); [|done]. cbn [mbind option_bind]. rewrite insert_app_r. done.
Qed.

(** The mask removed: the first byte and four bytes after the header change. *)
Lemma unmask_spec b0 front pn x1 x2 x3 rest m0 m1 m2 m3 m4 ms :
  unmask ((b0 :: front) ++ pn :: x1 :: x2 :: x3 :: rest) (len (b0 :: front)) (m0 :: m1 :: m2 :: m3 :: m4 :: ms) =
  Some ((Z.lxor b0 (Z.land m0 0xf) :: front) ++ Z.lxor pn m1 :: Z.lxor x1 m2 :: Z.lxor x2 m3 :: Z.lxor x3 m4 :: rest).
Proof.
  unfold unmask. cbn [lookup list_lookup mbind option_bind].
  assert (QuicInitial.xor_at ((b0 :: front) ++ pn :: x1 :: x2 :: x3 :: rest) 0 (Z.land m0 0xf) =
    Some ((Z.lxor b0 (Z.land m0 0xf) :: front) ++ pn :: x1 :: x2 :: x3 :: rest)) as -> by done. cbn [mbind option_bind].
  set (b := Z.lxor b0 _). assert (Z.to_nat (len (b0 :: front)) = length (b :: front)) as -> by (unfold len; cbn [length]; lia).
  rewrite (xor_at_after (b :: front) _ 0) by lia. change (QuicInitial.xor_at (?x :: ?l) 0 ?v) with (Some (Z.lxor x v :: l)). cbn [mbind option_bind].
  rewrite (xor_at_after (b :: front) _ 1) by done. change (QuicInitial.xor_at (?x :: ?y :: ?l) 1 ?v) with (Some (x :: Z.lxor y v :: l)). cbn [mbind option_bind].
  rewrite (xor_at_after (b :: front) _ 2) by done. change (QuicInitial.xor_at (?x :: ?y :: ?z :: ?l) 2 ?v) with (Some (x :: y :: Z.lxor z v :: l)). cbn [mbind option_bind].
  by rewrite (xor_at_after (b :: front) _ 3).
Qed.

Section Packets.

Context (hkdf_Extract : list Z -> list Z -> list Z) (hkdf_Expand : list Z -> list Z -> nat -> list Z)
  (gcm_Seal : list Z -> list Z -> list Z -> list Z -> list Z) (gcm_Open : list Z -> list Z -> list Z -> list Z -> option (list Z))
  (aes_Encrypt : list Z -> list Z -> list Z).
Context (Hprim : QuicPacket.primitives_ok hkdf_Expand gcm_Seal gcm_Open aes_Encrypt).

Local Abbreviation open_initial := (QuicPacket.open_initial hkdf_Extract hkdf_Expand gcm_Open aes_Encrypt).
Local Abbreviation sniffer := (QUICClientHello hkdf_Extract hkdf_Expand gcm_Open aes_Encrypt).

(** The keys of both sides are the same. *)
Lemma keys_agree dcid : QuicInitial.deriveInitialKeys hkdf_Extract hkdf_Expand dcid =
  (let secret := HKDFExpandLabel hkdf_Expand (hkdf_Extract dcid SaltV1) [] (str "client in") 32 in
   (HKDFExpandLabel hkdf_Expand secret [] (str "quic key") 16, HKDFExpandLabel hkdf_Expand secret [] (str "quic iv") 12,
    HKDFExpandLabel hkdf_Expand secret [] (str "quic hp") 16)).
Proof. reflexivity. Qed.

Lemma ReadN_app n a r : n = len a -> ReadN n (a ++ r) = Some (a, r).
Proof.
  intros ->. unfold ReadN. destruct (Z.ltb_spec (len (a ++ r)) (len a)) as [Hlt|_]; [rewrite len_app in Hlt; pose proof (len_nonneg r); lia|].
  unfold len. by rewrite Nat2Z.id, take_app_length, drop_app_length.
Qed.

Lemma ReadN_0 r : ReadN 0 r = Some ([], r).
Proof. by apply (ReadN_app 0 []). Qed.

(** The first byte of a protected packet. *)
Lemma protected_first b0 m0 : is_u8 m0 -> Z.lxor b0 (Z.land m0 0x0f) = 0xC0 ->
  (Z.land b0 0x40 =? 0) = false /\ Z.shiftr (Z.land b0 0x30) 4 = 0.
Proof.
  intros Hm Hx. assert (b0 = Z.lxor 0xC0 (Z.land m0 0x0f)) as -> by (rewrite <- Hx; by rewrite QuicPacket.lxor_twice).
  pose proof (byte_cases (fun m => negb (Z.land (Z.lxor 0xC0 (Z.land m 0x0f)) 0x40 =? 0) && (Z.shiftr (Z.land (Z.lxor 0xC0 (Z.land m 0x0f)) 0x30) 4 =? 0))
    ltac:(vm_compute; reflexivity) m0 Hm) as [H1 H2%Z.eqb_eq]%andb_true_iff. split; [by apply negb_true_iff | done].
Qed.


(** The parts of a packet that a server opens: the first byte, what follows it up to
    the packet number, the number and the rest. *)
Definition header_rest (dcid lenBytes : list Z) : list Z := [0; 0; 0; 1; len dcid] ++ dcid ++ [0; 0] ++ lenBytes.

Record opened (b0 : Z) (dcid lenBytes r payload : list Z) : Prop := {
  op_dcid : 8 <= len dcid <= 20;
  op_len : QuicProps.varint (lenBytes ++ r) = Some (len r, r);
  op_enough : 20 <= len r;
  op_keys : forall key iv hp mask pn, QuicInitial.deriveInitialKeys hkdf_Extract hkdf_Expand dcid = (key, iv, hp) ->
    mask = aes_Encrypt hp (take 16 (drop 4 r)) -> r !! 0%nat = Some pn ->
    exists m0 m1, mask !! 0%nat = Some m0 /\ mask !! 1%nat = Some m1 /\ Z.lxor b0 (Z.land m0 0x0f) = 0xC0 /\
      gcm_Open key (QuicInitial.xor_nonce iv (QuicInitial.be64 (Z.lxor pn m1))) (drop 1 r)
        ((0xC0 :: header_rest dcid lenBytes) ++ [Z.lxor pn m1]) = Some payload
}.

Lemma open_parts packet payload : open_initial packet = Some payload ->
  exists b0 dcid lenBytes r, packet = (b0 :: header_rest dcid lenBytes) ++ r /\ opened b0 dcid lenBytes r payload.
Proof.
  unfold QuicPacket.open_initial. destruct packet as [|b0 [|[|?|?] [|[|?|?] [|[|?|?] [|[|[?|?|]|?] [|dl rest]]]]]]; try done.
  destruct (drop (Z.to_nat dl) rest) as [|[|?|?] [|[|?|?] r1]] eqn:Hd; try done.
  destruct (QuicProps.varint r1) as [[l r]|] eqn:Hv; [|done]. cbn [mbind option_bind].
  set (dcid := take (Z.to_nat dl) rest). destruct (QuicInitial.deriveInitialKeys _ _ dcid) as [[key iv] hp] eqn:Hk.
  set (mask := aes_Encrypt hp _). destruct (mask !! 0%nat) as [m0|] eqn:H0; [|done]. cbn [mbind option_bind].
  destruct (mask !! 1%nat) as [m1|] eqn:H1; [|done]. cbn [mbind option_bind]. destruct (r !! 0%nat) as [pn|] eqn:Hpn; [|done]. cbn [mbind option_bind].
  destruct (varint_suffix _ _ _ Hv) as [lb ->].
  destruct (Z.eqb_spec (Z.lxor b0 (Z.land m0 15)) 0xC0) as [Hb|]; [|done]. destruct (Z.eqb_spec (Z.of_nat (length r)) l) as [<-|]; [|done].
  destruct (Z.leb_spec 20 (Z.of_nat (length r))); [|done]. destruct (Z.leb_spec 8 dl), (Z.leb_spec dl 20); try done. cbn [andb]. intros Hopen.
  assert (len dcid = dl) as Hdl.
  { assert (length (drop (Z.to_nat dl) rest) = length (0 :: 0 :: lb ++ r)) as Hlen by (by rewrite Hd). rewrite length_drop in Hlen. cbn [length] in Hlen.
    subst dcid. unfold len. rewrite length_take. lia. }
  assert (rest = dcid ++ 0 :: 0 :: lb ++ r) as Hrest by (rewrite <- Hd; unfold dcid; by rewrite take_drop).
  clear Hd. clearbody dcid. subst rest dl.
  exists b0, dcid, lb, r. split; [unfold header_rest; cbn [app]; by rewrite <- !app_assoc|].
  split; [lia | done | done|]. intros key' iv' hp' mask' pn' Hk' -> Hpn'. rewrite Hk in Hk'. injection Hk' as <- <- <-. rewrite Hpn in Hpn'. injection Hpn' as <-.
  exists m0, m1. split_and!; try done. rewrite <- Hopen, Hb. do 2 f_equal. cbn [app]. f_equal. f_equal. unfold header_rest.
  change (drop 1 (b0 :: ?x)) with x. set (front := [0; 0; 0; 1; len dcid] ++ dcid ++ [0; 0] ++ lb).
  assert (0 :: 0 :: 0 :: 1 :: len dcid :: dcid ++ 0 :: 0 :: lb ++ r = front ++ r) as -> by (unfold front; cbn [app]; by rewrite <- !app_assoc).
  cbn [length]. by rewrite length_app, take_app_length' by lia.
Qed.

Lemma header_read b0 dcid lenBytes r payload m0 : let packet := (b0 :: header_rest dcid lenBytes) ++ r in
  Forall is_u8 packet -> opened b0 dcid lenBytes r payload -> is_u8 m0 -> Z.lxor b0 (Z.land m0 0x0f) = 0xC0 ->
  read_header packet = Some (mkHeader b0 Version1 dcid (len r) (len (b0 :: header_rest dcid lenBytes)) (take 16 (drop 4 r))).
Proof.
  intros packet Hu [Hd Hl Hr _] Hm Hx. destruct (protected_first b0 m0 Hm Hx) as [H40 H30].
  assert (packet = b0 :: [0; 0; 0; 1] ++ len dcid :: dcid ++ 0 :: 0 :: lenBytes ++ r) as Hp by
    (unfold packet, header_rest; cbn [app]; by rewrite <- !app_assoc).
  assert (Forall is_u8 (lenBytes ++ r)) as Hlr.
  { assert (packet = (b0 :: [0; 0; 0; 1; len dcid] ++ dcid ++ [0; 0]) ++ (lenBytes ++ r)) as Hp' by (rewrite Hp; cbn [app]; by rewrite <- !app_assoc).
    rewrite Hp' in Hu. by apply Forall_app in Hu as [_ Hu]. }
  unfold read_header. rewrite Hp at 1. cbn [ReadByte mbind option_bind]. rewrite H40.
  rewrite (ReadN_app 4 [0; 0; 0; 1]) by done. cbn [mbind option_bind]. change (be_uint [0; 0; 0; 1]) with Version1.
  change (negb (Version1 =? VersionDraft29) && negb (Version1 =? Version1) && negb (Version1 =? Version2)) with false. cbv iota zeta. rewrite H30.
  change ((0 =? 0) && (Version1 =? Version2) || (0 =? 2) && negb (Version1 =? Version2) || (0 >? 2)) with false. cbv iota.
  cbn [ReadByte mbind option_bind]. destruct (Z.eqb_spec (len dcid) 0); [lia|]. rewrite Z.gtb_ltb. destruct (Z.ltb_spec 20 (len dcid)); [lia|]. cbn [orb].
  rewrite (ReadN_app (len dcid) dcid) by done. cbn [ReadByte mbind option_bind]. rewrite ReadN_0. cbn [mbind option_bind].
  change (ReadUvarint (0 :: lenBytes ++ r)) with (Some (0, lenBytes ++ r)). cbn [mbind option_bind]. rewrite ReadN_0. cbn [mbind option_bind].
  rewrite (ReadUvarint_varint _ _ _ Hlr Hl). cbn [mbind option_bind].
  assert (len packet = len (b0 :: header_rest dcid lenBytes) + len r) as Hlen by (unfold packet; apply len_app). rewrite Hlen.
  rewrite Z.gtb_ltb. replace (len (b0 :: header_rest dcid lenBytes) + len r - len r) with (len (b0 :: header_rest dcid lenBytes)) by lia.
  destruct (Z.ltb_spec (len (b0 :: header_rest dcid lenBytes) + len r) (len (b0 :: header_rest dcid lenBytes) + len r)); [lia|].
  unfold ReadN. destruct (Z.ltb_spec (len r) 4); [lia|]. cbn [mbind option_bind].
  destruct (Z.ltb_spec (len (drop (Z.to_nat 4) r)) 16) as [Hlt|_]; [unfold len in *; rewrite length_drop in Hlt; lia|]. done.
Qed.

Lemma packet_opens b0 dcid lenBytes r payload : let packet := (b0 :: header_rest dcid lenBytes) ++ r in
  opened b0 dcid lenBytes r payload ->
  exists behind, open_packet hkdf_Extract hkdf_Expand gcm_Open aes_Encrypt packet
    (mkHeader b0 Version1 dcid (len r) (len (b0 :: header_rest dcid lenBytes)) (take 16 (drop 4 r))) = Returns (Some (payload, behind)) /\
    len behind <= len packet.
Proof.
  intros packet [_ _ Hr Hkeys]. destruct r as [|pn [|x1 [|x2 [|x3 r]]]]; try (unfold len in Hr; cbn [length] in Hr; lia).
  pose proof (keys_agree dcid) as Hk. cbv zeta in Hk. destruct (Hkeys _ _ _ _ pn Hk eq_refl eq_refl) as (m0 & m1 & H0 & H1 & Hx & Hopen). clear Hkeys.
  set (secret := HKDFExpandLabel hkdf_Expand (hkdf_Extract dcid SaltV1) [] (str "client in") 32) in *.
  assert (forall secret label n, length (HKDFExpandLabel hkdf_Expand secret [] label n) = n) as Hlen by (intros; apply Hprim).
  unfold open_packet. cbn [versionNumber destConnID hdrLen packetLen pnBytes]. change (Version1 =? Version1) with true. change (Version1 =? Version2) with false.
  cbv iota zeta. fold secret.
  set (hp := HKDFExpandLabel hkdf_Expand secret [] (str "quic hp") 16) in *.
  assert (forall k, length k = 16%nat -> negb (bool_decide (len k ∈ [16; 24; 32])) = false) as Hsize by (intros k Hl; unfold len; by rewrite Hl).
  rewrite (Hsize hp) by apply Hlen. set (mask := aes_Encrypt hp _) in *.
  assert (length mask = 16%nat) as Hm by apply Hprim. clearbody mask.
  destruct mask as [|? [|? [|m2 [|m3 [|m4 ms]]]]]; try done. injection H0 as ->. injection H1 as ->.
  set (front := header_rest dcid lenBytes) in *. unfold packet. rewrite unmask_spec. cbn [checked mbind outcome_bind]. rewrite Hx.
  cbn [app lookup list_lookup checked mbind outcome_bind]. change (Z.land 0xC0 3 + 1) with 1. rewrite Z.gtb_ltb.
  match goal with |- context [if ?x <? ?y then _ else _] => destruct (Z.ltb_spec x y) as [Hlt|_]; [unfold len in *; cbn [length] in *; lia|] end.
  rewrite !app_comm_cons.
  set (l0 := len (b0 :: front)). assert (l0 = Z.of_nat (length (0xC0 :: front))) as Hl0 by done.
  rewrite (slice_seam _ (0xC0 :: front) [Z.lxor pn m1] (Z.lxor x1 m2 :: Z.lxor x2 m3 :: Z.lxor x3 m4 :: r) l0 (l0 + 1)) by done.
  cbn [checked mbind outcome_bind].
  rewrite (slice_seam _ ((b0 :: front) ++ [pn]) [x1; x2; x3] r (l0 + 1) (l0 + 4)) by
    first [ by rewrite <- app_assoc | rewrite ?length_app; cbn [length] in *; lia ].
  cbn [checked mbind outcome_bind].
  assert (forall l, take (Z.to_nat (l0 + 1)) ((0xC0 :: front) ++ Z.lxor pn m1 :: l) = (0xC0 :: front) ++ [Z.lxor pn m1]) as Htake.
  { intros l. rewrite (cons_middle (Z.lxor pn m1)), app_assoc. apply take_app_length'. rewrite length_app. cbn [length] in *. lia. }
  assert (drop (Z.to_nat (l0 + 4)) ((0xC0 :: front) ++ Z.lxor pn m1 :: Z.lxor x1 m2 :: Z.lxor x2 m3 :: Z.lxor x3 m4 :: r) = r) as ->.
  { rewrite drop_app_ge by (cbn [length] in *; lia). cbn [length] in *. replace (Z.to_nat (l0 + 4) - S (length front))%nat with 4%nat by lia. done. }
  rewrite Htake. rewrite <- !(app_assoc (0xC0 :: front)). change ([Z.lxor pn m1] ++ [x1; x2; x3] ++ r) with (Z.lxor pn m1 :: x1 :: x2 :: x3 :: r).
  rewrite Htake. rewrite (slice_seam _ ((0xC0 :: front) ++ [Z.lxor pn m1]) (x1 :: x2 :: x3 :: r) [] (l0 + 1)) by
    first [ by rewrite app_nil_r, <- app_assoc | rewrite ?length_app; unfold len; cbn [length] in *; lia ].
  cbn [checked mbind outcome_bind]. unfold aead_Open. rewrite (Hsize _ (Hlen _ _ _)).
  assert (forall k, length k = 12%nat -> negb (len k =? 12) = false) as Hiv by (intros k Hl; unfold len; by rewrite Hl). rewrite (Hiv _ (Hlen _ _ _)).
  assert (be_uint [Z.lxor pn m1] = Z.lxor pn m1) as -> by (cbn; lia).
  change (drop 1 (pn :: x1 :: x2 :: x3 :: r)) with (x1 :: x2 :: x3 :: r) in Hopen. rewrite Hopen. cbn [mbind outcome_bind mret outcome_ret].
  eexists. split; [done|]. unfold packet, len. rewrite !length_drop, !length_app. cbn [length] in *. lia.
Qed.

(** The sniffer gets the payload that a server gets. *)
Lemma sniffer_opens k m packet payload : Forall is_u8 packet -> open_initial packet = Some payload ->
  exists behind, sniffer k m packet = sniff_payload k m payload behind /\ len behind <= len packet.
Proof.
  intros Hu Ho. destruct (open_parts packet payload Ho) as (b0 & dcid & lb & r & -> & Hop).
  assert (exists m0, is_u8 m0 /\ Z.lxor b0 (Z.land m0 0x0f) = 0xC0) as (m0 & Hm & Hx).
  { destruct r as [|pn r]; [pose proof (op_enough _ _ _ _ _ Hop) as He; done|].
    destruct (QuicInitial.deriveInitialKeys hkdf_Extract hkdf_Expand dcid) as [[key iv] hp] eqn:Hk.
    destruct (op_keys _ _ _ _ _ Hop key iv hp _ pn Hk eq_refl eq_refl) as (m0 & m1 & H0 & _ & Hx & _). exists m0. split; [|done].
    eapply list.Forall_lookup_1; [|exact H0]. apply Hprim. }
  unfold QUICClientHello. rewrite (header_read _ _ _ _ payload m0) by done.
  destruct (packet_opens _ _ _ _ _ Hop) as (behind & -> & Hb). exists behind. by split.
Qed.

(** Whoever chooses a connection id has the keys: any payload can be sealed. *)
Lemma sealed dcid payload : length dcid = 8%nat -> Forall is_u8 dcid -> Forall is_u8 payload -> length payload = 1215%nat ->
  exists packet, Forall is_u8 packet /\ length packet = 1250%nat /\ take 8 (drop 6 packet) = dcid /\ open_initial packet = Some payload.
Proof.
  intros Hd Hdu Hpu Hl. pose proof (QuicPacket.encrypt_spec hkdf_Extract hkdf_Expand gcm_Seal gcm_Open aes_Encrypt Hprim dcid payload 1232 0
    Hd Hdu Hpu ltac:(lia) ltac:(lia) ltac:(lia)) as Henc.
  destruct (QuicInitial.deriveInitialKeys _ _ dcid) as [[key iv] hp]. destruct Henc as (packet & _ & Hlen & Hpk & Ho & Hid).
  exists packet. split_and!; [done | lia | done | done].
Qed.

(** A CRYPTO frame without content at offset 0, and one with more content than there
    is. *)
Definition hanging_payload (n : nat) : list Z := 6 :: 0 :: 0 :: repeat 0 n.
Definition crashing_payload (n : nat) : list Z := 6 :: 0 :: 0x7f :: 0xff :: repeat 0 n.

Lemma hanging_frames n : QuicProps.read_frames (length (hanging_payload n)) (hanging_payload n) =
  Some (QuicProps.Crypto 0 [] :: repeat QuicProps.Padding n).
Proof.
  pose proof (QuicProps.read_padding (S (S n)) n [] ltac:(cbn; lia)) as Hp. rewrite app_nil_r in Hp.
  unfold hanging_payload. cbn [length]. rewrite repeat_length. remember (S (S n)) as k eqn:Hk. cbn [QuicProps.read_frames Z.eqb Pos.eqb QuicProps.varint Z.ltb Z.compare mbind option_bind].
  rewrite (proj2 (Z.ltb_ge (Z.of_nat (length (repeat 0 n))) 0)) by lia. change (drop (Z.to_nat 0) (repeat 0 n)) with (repeat 0 n). rewrite Hp.
  destruct (k - n)%nat; cbn [mbind option_bind QuicProps.read_frames]; by rewrite app_nil_r.
Qed.

Lemma find_hangs k frags buffer l : offset l = 0 -> length_ l = 0 -> find_fragments k (l :: frags) 0 buffer = Running.
Proof.
  intros Ho Hl. revert buffer. induction k as [|k IH]; intros buffer; [done|]. cbn [find_fragments List.find]. rewrite Ho. cbn [Z.eqb]. rewrite Ho, Hl. apply IH.
Qed.

Lemma hangs k m packet n : Forall is_u8 packet -> open_initial packet = Some (hanging_payload n) -> sniffer k m packet = Running.
Proof.
  intros Hu Ho. destruct (sniffer_opens k m packet _ Hu Ho) as (behind & -> & _). unfold sniff_payload.
  erewrite (frames_read _ _ behind []); [|apply hanging_frames | | done].
  - cbn [mbind outcome_bind]. cbv zeta. rewrite app_nil_l. cbn [QuicProps.crypto_of omap list_omap map app]. by rewrite find_hangs.
  - repeat apply Forall_cons_2; try (unfold is_u; lia). apply QuicPacket.zeros_bytes.
Qed.

Lemma crashes k m packet n : Forall is_u8 packet -> len packet < 2048 -> (n < 2048)%nat ->
  open_initial packet = Some (crashing_payload n) -> sniffer k m packet = Panics.
Proof.
  intros Hu Hl Hn Ho. destruct (sniffer_opens k m packet _ Hu Ho) as (behind & -> & Hb). unfold sniff_payload.
  assert (crypto_frame (crashing_payload n) behind (0 :: 0x7f :: 0xff :: repeat 0 n) = Panics) as Hc.
  { unfold crypto_frame. change (ReadUvarint (0 :: ?x)) with (Some (0, x)). cbv iota. change (ReadUvarint (0x7f :: 0xff :: ?x)) with (Some (16383, x)). cbv iota zeta.
    destruct (slice _ _ _) as [x|] eqn:Hs; [|done]. apply slice_inv in Hs as (_ & Hs & _). unfold crashing_payload, len in *.
    rewrite length_app in Hs. cbn [length] in Hs. rewrite repeat_length in Hs. lia. }
  unfold crashing_payload at 1 3. cbn [length read_frames]. by rewrite Hc.
Qed.

(** A packet with these frames. *)
Definition has_frames (packet : list Z) (fs : list QuicProps.frame) : Prop :=
  exists payload, Forall is_u8 packet /\ open_initial packet = Some payload /\ Forall is_u8 payload /\
    QuicProps.read_frames (length payload) payload = Some fs.

Section Hello.

Context (h : TlsFragment.ClientHello) (Hok : hello_ok h) (ps : list (Z * list Z)) (Hps : QuicProps.assemble 0 ps = Some (hello_bytes h))
  (Hfull : Forall (fun p => snd p <> []) ps).
Context (k : nat) (Hk : (length ps < k)%nat) (packet : list Z) (fs : list QuicProps.frame) (Hfs : has_frames packet fs).

Lemma packet_partial m missing : map frag_of (QuicProps.crypto_of fs) ++ default [] (SniffContext m) ++ map frag_of missing ≡ₚ map frag_of ps ->
  missing <> [] ->
  sniffer k m packet = need_more (set_Context (Some (map frag_of (QuicProps.crypto_of fs) ++ default [] (SniffContext m))) (set_Protocol (str "quic") m)).
Proof.
  intros Hperm Hm. destruct Hfs as (payload & Hu & Ho & Hpu & Hr). destruct (sniffer_opens k m packet payload Hu Ho) as (behind & -> & _).
  eapply payload_partial; try done. rewrite lengths_pieces. destruct missing as [|p missing]; [done|].
  assert (frag_of p ∈ map frag_of ps) as (q & Hpq & Hq)%list_elem_of_fmap by (rewrite <- Hperm, !elem_of_app; right; right; by left).
  injection Hpq as _ _ Hpq. rewrite list.Forall_forall in Hfull. specialize (Hfull q Hq). rewrite <- Hpq in Hfull.
  cbn [map concat]. rewrite len_app. pose proof (len_nonneg (concat (map snd missing))).
  destruct (snd p); [done|]. unfold len in *. cbn [length]. lia.
Qed.

Lemma packet_whole m fp : Compute (record_of 0x0303 (len (hello_bytes h)) (hello_bytes h)) = Returns (inr fp) ->
  map frag_of (QuicProps.crypto_of fs) ++ default [] (SniffContext m) ≡ₚ map frag_of ps -> Client m = [] ->
  sniffer k m packet = client ← client_of (map type_of fs) fp; mret (mkMetadata (str "quic") (ServerName fp) (str client) None, None).
Proof.
  intros Hfp Hperm Hc. destruct Hfs as (payload & Hu & Ho & Hpu & Hr). destruct (sniffer_opens k m packet payload Hu Ho) as (behind & -> & _).
  by eapply payload_whole.
Qed.

End Hello.

End Packets.

(** ** The sniffers of a packet without keys *)

(** A sniffer that answers on every packet, and changes nothing but the protocol. *)
Definition decides (s : PacketSniffer) (protocol : string) : Prop := forall m packet, s m packet = invalid m \/ s m packet = found protocol m.

Lemma decides_invalid (protocol : string) (m : metadata) : invalid m = invalid m \/ invalid m = found protocol m.
Proof. by left. Qed.

Lemma uint32_in packet i : 0 <= i -> i + 4 <= len packet -> exists v, uint32_at packet i = Returns v.
Proof.
  intros Hi Hl. unfold uint32_at. unfold len in Hl. rewrite slice_some by lia. cbn [mbind option_bind].
  assert (length (take (Z.to_nat (i + 4 - i)) (drop (Z.to_nat i) packet)) = 4%nat) as H4 by (rewrite length_take, length_drop; lia).
  unfold be_Uint32. rewrite H4. by eexists.
Qed.

Lemma byte_in packet i : Z.of_nat i < len packet -> exists v, packet !! i = Some v.
Proof. intros Hi. apply lookup_lt_is_Some_2. unfold len in Hi. lia. Qed.

Lemma uint16_in packet i : Z.of_nat i + 1 < len packet -> exists v, uint16_at packet i = Some v.
Proof.
  intros Hi. unfold uint16_at. destruct (byte_in packet i) as [x ->]; [lia|]. destruct (byte_in packet (S i)) as [y ->]; [lia|]. by eexists.
Qed.

(** Through the guards and the reads of a sniffer. *)
Ltac decide_packet :=
  repeat first
    [ match goal with |- invalid ?m = invalid ?m \/ _ => by left | |- _ \/ found ?p ?m = found ?p ?m => by right end
    | match goal with |- context [if ?x <? ?y then _ else _] => destruct (Z.ltb_spec x y) end
    | match goal with
      | |- context [uint32_at ?p ?i] => let v := fresh "v" in destruct (uint32_in p i) as [v ->]; [lia | lia|]
      | |- context [uint16_at ?p ?i] => let v := fresh "v" in destruct (uint16_in p i) as [v ->]; [lia|]
      | |- context [?p !! ?i] => let v := fresh "v" in destruct (byte_in p i) as [v ->]; [lia|]
      end
    | progress cbn [checked mbind outcome_bind]
    | match goal with |- context [if ?b then _ else _] => destruct b end ].

Lemma STUN_decides : decides STUNMessage "stun".
Proof. intros m packet. unfold STUNMessage. decide_packet. Qed.

Lemma NTP_decides : decides NTP "ntp".
Proof. intros m packet. unfold NTP. cbv zeta. decide_packet. Qed.

Lemma DTLS_decides : decides DTLSRecord "dtls".
Proof. intros m packet. unfold DTLSRecord. decide_packet. Qed.

Lemma UDPTracker_decides : decides UDPTracker "bittorrent".
Proof.
  intros m packet. unfold UDPTracker, trackerConnectMinSize. destruct (Z.ltb_spec (len packet) 16); [by left|].
  assert (exists v, slice packet 0 8 ≫= be_Uint64 = Some v) as [v ->].
  { unfold len in *. rewrite slice_some by lia. cbn [mbind option_bind]. unfold be_Uint64.
    assert (length (take (Z.to_nat (8 - 0)) (drop (Z.to_nat 0) packet)) = 8%nat) as -> by (rewrite length_take, length_drop; lia). by eexists. }
  decide_packet.
Qed.

(** Each extension takes two bytes, so the loop ends. *)
Lemma utp_ends fuel extension r : (length r < fuel)%nat -> exists ok, utp_extensions fuel extension r = Returns ok.
Proof.
  revert extension r. induction fuel as [|fuel IH]; intros extension r Hf; [lia|]. cbn [utp_extensions]. destruct (extension =? 0); [by eexists|].
  destruct r as [|e [|l r]]; [by eexists | destruct (e >? 4); by eexists|]. destruct (e >? 4); [by eexists|]. apply IH. rewrite length_drop. cbn [length] in Hf. lia.
Qed.

Lemma UTP_decides : decides UTP "bittorrent".
Proof.
  intros m packet. unfold UTP. destruct (Z.ltb_spec (len packet) 20); [by left|].
  destruct (byte_in packet 0) as [b ->]; [lia|]. destruct (byte_in packet 1) as [e ->]; [lia|]. cbn [checked mbind outcome_bind]. cbv zeta.
  destruct (_ || _); [by left|]. unfold len in *. rewrite slice_from_some by lia. cbn [checked mbind outcome_bind].
  destruct (utp_ends (S (length (drop (Z.to_nat 20) packet))) e (drop (Z.to_nat 20) packet)) as [ok ->]; [lia|]. cbn [mbind outcome_bind].
  destruct ok; [by right | by left].
Qed.

Lemma peek_decides m packet (ss : list (PacketSniffer * string)) errs : Forall (fun s => decides (fst s) (snd s)) ss ->
  PeekPacket m packet (map fst ss) errs = Returns (m, errs ++ repeat Failed (length ss)) \/
  exists p, p ∈ map snd ss /\ PeekPacket m packet (map fst ss) errs = Returns (set_Protocol (str p) m, []).
Proof.
  intros HF. revert errs. induction HF as [|[s p] ss Hs HF IH]; intros errs; cbn [map PeekPacket fst snd length repeat].
  - left. by rewrite app_nil_r.
  - cbn [fst snd] in Hs. destruct (Hs m packet) as [->| ->]; cbn [invalid found mret outcome_ret mbind outcome_bind].
    + destruct (IH (errs ++ [Failed])) as [-> |(q & Hq & ->)]; [left; by rewrite <- app_assoc|]. right. exists q. split; [by right | done].
    + right. exists p. split; [by left | done].
Qed.

(** ** Properties *)

(** The sniffers of packets that need no keys, in the order of the router. *)
Definition keyless : list PacketSniffer := [STUNMessage; UTP; UDPTracker; DTLSRecord; NTP].

(** C32. The sniffers that need no keys are total: on every packet, of any length and
    content, trying STUN, uTP, the UDP tracker protocol, DTLS and NTP in the router's
    order neither panics nor runs on; either one of these protocols is noted and
    nothing else in the metadata changes, or each of the five reports an error that
    does not ask for more data, and nothing changes. *)
Theorem keyless_sniffers_total m packet :
  let result := PeekPacket m packet keyless [] in
  result = Returns (m, repeat Failed 5) \/
  exists p, p ∈ ["stun"; "bittorrent"; "dtls"; "ntp"]%string /\ result = Returns (set_Protocol (str p) m, []).
Proof.
  destruct (peek_decides m packet [(STUNMessage, "stun"%string); (UTP, "bittorrent"%string); (UDPTracker, "bittorrent"%string); (DTLSRecord, "dtls"%string);
    (NTP, "ntp"%string)] []) as [H|(p & Hp & H)].
  - rewrite !list.Forall_cons. split_and!; [apply STUN_decides | apply UTP_decides | apply UDPTracker_decides | apply DTLS_decides | apply NTP_decides | done].
  - by left.
  - right. exists p. split; [|done]. revert Hp. cbn [map snd]. rewrite !elem_of_cons. tauto.
Qed.

(** Every run of the QUIC sniffer on the packet has this end. *)
Definition always_ends (sniffer : nat -> PacketSniffer) (out : sniffed) (packet : list Z) : Prop := forall rounds m, sniffer rounds m packet = out.

(** C40. Anyone can hang or crash the QUIC sniffer with one packet, since the keys of an
    Initial packet follow from the connection id in it.  For every connection id of 8
    bytes there is a packet of 1250 bytes with that id, sealed with its keys, on which the loop over
    the fragments never ends: a CRYPTO frame without content at offset 0 is found again
    and again.  And there is one on which the sniffer panics: a CRYPTO frame that
    announces more bytes than the packet has is sliced before its length is checked.
    Both hold whatever is known of the connection and however many rounds the loop is
    given. *)
Theorem quic_sniffer_crash hkdf_Extract hkdf_Expand gcm_Seal gcm_Open aes_Encrypt dcid :
  QuicPacket.primitives_ok hkdf_Expand gcm_Seal gcm_Open aes_Encrypt -> length dcid = 8%nat -> Forall is_u8 dcid ->
  let sniffer := QUICClientHello hkdf_Extract hkdf_Expand gcm_Open aes_Encrypt in
  (exists packet, Forall is_u8 packet /\ length packet = 1250%nat /\ take 8 (drop 6 packet) = dcid /\ always_ends sniffer Running packet) /\
  (exists packet, Forall is_u8 packet /\ length packet = 1250%nat /\ take 8 (drop 6 packet) = dcid /\ always_ends sniffer Panics packet).
Proof.
  intros Hprim Hd Hdu sniffer.
  assert (forall p, Forall is_u8 p -> length p = 1215%nat -> exists packet, Forall is_u8 packet /\ length packet = 1250%nat /\ take 8 (drop 6 packet) = dcid /\
    QuicPacket.open_initial hkdf_Extract hkdf_Expand gcm_Open aes_Encrypt packet = Some p) as Hseal by (intros p; by eapply sealed).
  split.
  - destruct (Hseal (hanging_payload 1212)) as (packet & Hu & Hl & Hid & Ho); [by_eval | by_eval|].
    exists packet. split_and!; [done | done | done|]. intros rounds m. by eapply hangs.
  - destruct (Hseal (crashing_payload 1211)) as (packet & Hu & Hl & Hid & Ho); [by_eval | by_eval|].
    exists packet. split_and!; [done | done | done|]. intros rounds m. eapply crashes; [exact Hprim | done | unfold len; lia | | exact Ho]. lia.
Qed.

Lemma quic_sniffer_crash_witness :
  let sniffer := QUICClientHello Masquerade.toy_Extract Masquerade.toy_Expand Masquerade.toy_Open Masquerade.toy_Encrypt in
  (exists packet, Forall is_u8 packet /\ length packet = 1250%nat /\ take 8 (drop 6 packet) = repeat 7 8 /\ always_ends sniffer Running packet) /\
  (exists packet, Forall is_u8 packet /\ length packet = 1250%nat /\ take 8 (drop 6 packet) = repeat 7 8 /\ always_ends sniffer Panics packet).
Proof.
  apply (quic_sniffer_crash Masquerade.toy_Extract Masquerade.toy_Expand Masquerade.toy_Seal Masquerade.toy_Open Masquerade.toy_Encrypt (repeat 7 8));
    [apply Masquerade.toy_primitives | done | by_eval].
Defined.

End SniffProps.
