(* ===== verification/Router.v ===== *)
(** * The router

    Models route/route.go: matching the rules against a connection with the actions
    that change it on the way (sniffing, resolving, options), and handing the
    connection with the bytes or packets read for sniffing to an outbound.  The actions
    are those of route/rule/rule_action.go. *)

From S2P Require Import Prelude Bits Bytes GoStrings AllowedIPs Rules TlsFragment Sniff.

Module Router.

Import TlsFragment Sniff.

Local Open Scope Z_scope.

Abbreviation text := (list Z).

#[local] Existing Instance AllowedIPs.addr_eq_dec.

(** ** Actions *)

(** Options that matching hands on to the dialer. *)
Record DialOptions := mkDial {
  NetworkStrategy : option Z;
  NetworkType : list Z;
  FallbackNetworkType : list Z;
  FallbackDelay : Z;
  UDPDisableDomainUnmapping : bool;
  UDPConnect : bool;
  UDPTimeout : Z;
  TLSFragment : bool;
  TLSFragmentFallbackDelay : Z;
  TLSRecordFragment : bool;
  TLSSpoof : text;
  TLSSpoofMethod : Z
}.

Record RuleActionRouteOptions := mkRouteOptions {
  OverrideAddress : Rules.Socksaddr;
  OverridePort : Z;
  dial : DialOptions
}.

(** The time out is in the events of a connection. *)
Record RuleActionSniff := mkSniff {
  SnifferNames : list text;
  StreamSniffers : list StreamSniffer;
  PacketSniffers : list PacketSniffer;
  OverrideDestination : bool
}.

Record RuleActionResolve := mkResolve {
  Server : text;
  Timeout : Z;
  Strategy : Z;
  DisableCache : bool;
  DisableOptimisticCache : bool;
  RewriteTTL : option Z;
  ClientSubnet : option (AllowedIPs.addr * Z)
}.

Inductive reject_method := RejectDefault | RejectDrop | RejectReply.

(** [dropCounter]: the times of recent rejections. *)
Record RuleActionReject := mkReject {
  Method : reject_method;
  NoDrop : bool;
  dropCounter : list Z
}.

Inductive RuleAction :=
| ActionRoute (outbound : text) (o : RuleActionRouteOptions)
| ActionRouteOptions (o : RuleActionRouteOptions)
| ActionBypass (outbound : text) (o : RuleActionRouteOptions)
| ActionDirect
| ActionReject (r : RuleActionReject)
| ActionHijackDNS
| ActionSniff (a : RuleActionSniff)
| ActionResolve (a : RuleActionResolve).

Inductive reject_error := ErrReset | ErrDrop.

Definition seconds (n : Z) : Z := n * 10 ^ 9.

(** [RuleActionReject.Error] at time [now]; [None] is the nil of the method reply. *)
Definition Reject_Error (r : RuleActionReject) (now : Z) : option reject_error * RuleActionReject :=
  match Method r with
  | RejectDrop => (Some ErrDrop, r)
  | RejectReply => (None, r)
  | RejectDefault =>
      if NoDrop r then (Some ErrReset, r)
      else
        let counter := List.filter (fun t => now - t <=? seconds 30) (dropCounter r) ++ [now] in
        (Some (if (50 <? length counter)%nat then ErrDrop else ErrReset), mkReject (Method r) (NoDrop r) counter)
  end.

(** The sniffers of a name; those that call a TLS, HTTP or DNS library or read with the
    sing library are arguments. *)
Record Sniffers := mkSniffers {
  TLSClientHello : StreamSniffer;
  HTTPHost : StreamSniffer;
  StreamDomainNameQuery : StreamSniffer;
  RDP : StreamSniffer;
  QUICClientHello : PacketSniffer;
  DomainNameQuery : PacketSniffer
}.

Definition sniffers_named (s : Sniffers) (name : text) : option (list StreamSniffer * list PacketSniffer) :=
  if bool_decide (name = str "tls") then Some ([TLSClientHello s], [])
  else if bool_decide (name = str "http") then Some ([HTTPHost s], [])
  else if bool_decide (name = str "quic") then Some ([], [QUICClientHello s])
  else if bool_decide (name = str "dns") then Some ([StreamDomainNameQuery s], [DomainNameQuery s])
  else if bool_decide (name = str "stun") then Some ([], [STUNMessage])
  else if bool_decide (name = str "bittorrent") then Some ([BitTorrent], [UTP; UDPTracker])
  else if bool_decide (name = str "dtls") then Some ([], [DTLSRecord])
  else if bool_decide (name = str "ssh") then Some ([SSH], [])
  else if bool_decide (name = str "rdp") then Some ([RDP s], [])
  else if bool_decide (name = str "ntp") then Some ([], [NTP])
  else None.

(** [RuleActionSniff.build]; an unknown name is an error. *)
Fixpoint build (s : Sniffers) (names : list text) (a : RuleActionSniff) : option RuleActionSniff :=
  match names with
  | [] => Some a
  | name :: names =>
      '(stream, packet) ← sniffers_named s name;
      build s names (mkSniff (SnifferNames a) (StreamSniffers a ++ stream) (PacketSniffers a ++ packet) (OverrideDestination a))
  end.

Definition defaultPacketSniffers (s : Sniffers) : list PacketSniffer :=
  [DomainNameQuery s; QUICClientHello s; STUNMessage; UTP; UDPTracker; DTLSRecord; NTP].

Definition defaultStreamSniffers (s : Sniffers) : list StreamSniffer :=
  [TLSClientHello s; HTTPHost s; StreamDomainNameQuery s; BitTorrent; SSH; RDP s].

(** ** Metadata *)

(** [InboundContext] as far as the router reads and writes it. *)
Record Meta := mkMeta {
  context : Rules.InboundContext;
  InboundType : text;
  InboundDetour : text;
  LastInbound : text;
  SniffContext : option (list qCryptoFragment);
  snifferNames : list text;
  SniffError : serrs;
  OriginDestination : Rules.Socksaddr;
  RouteOriginalDestination : Rules.Socksaddr;
  SourceMACAddress : option text;
  FakeIP : bool;
  dialOptions : DialOptions
}.

Definition facts (m : Meta) : Rules.Facts := Rules.facts (context m).
Definition Destination (m : Meta) : Rules.Socksaddr := Rules.Destination (facts m).

Definition set_context (c : Rules.InboundContext) (m : Meta) : Meta :=
  mkMeta c (InboundType m) (InboundDetour m) (LastInbound m) (SniffContext m) (snifferNames m) (SniffError m) (OriginDestination m)
    (RouteOriginalDestination m) (SourceMACAddress m) (FakeIP m) (dialOptions m).
Definition set_facts (f : Rules.Facts) (m : Meta) : Meta := set_context (Rules.set_facts (context m) f) m.
Definition set_sniff (c : option (list qCryptoFragment)) (names : list text) (e : serrs) (m : Meta) : Meta :=
  mkMeta (context m) (InboundType m) (InboundDetour m) (LastInbound m) c names e (OriginDestination m)
    (RouteOriginalDestination m) (SourceMACAddress m) (FakeIP m) (dialOptions m).
Definition set_detour (detour last : text) (m : Meta) : Meta :=
  mkMeta (context m) (InboundType m) detour last (SniffContext m) (snifferNames m) (SniffError m) (OriginDestination m)
    (RouteOriginalDestination m) (SourceMACAddress m) (FakeIP m) (dialOptions m).
Definition set_fake (origin : Rules.Socksaddr) (m : Meta) : Meta :=
  mkMeta (context m) (InboundType m) (InboundDetour m) (LastInbound m) (SniffContext m) (snifferNames m) (SniffError m) origin
    (RouteOriginalDestination m) (SourceMACAddress m) true (dialOptions m).
Definition set_original (d : Rules.Socksaddr) (m : Meta) : Meta :=
  mkMeta (context m) (InboundType m) (InboundDetour m) (LastInbound m) (SniffContext m) (snifferNames m) (SniffError m) (OriginDestination m)
    d (SourceMACAddress m) (FakeIP m) (dialOptions m).
Definition set_mac (mac : option text) (m : Meta) : Meta :=
  mkMeta (context m) (InboundType m) (InboundDetour m) (LastInbound m) (SniffContext m) (snifferNames m) (SniffError m) (OriginDestination m)
    (RouteOriginalDestination m) mac (FakeIP m) (dialOptions m).
Definition set_dial (d : DialOptions) (m : Meta) : Meta :=
  mkMeta (context m) (InboundType m) (InboundDetour m) (LastInbound m) (SniffContext m) (snifferNames m) (SniffError m) (OriginDestination m)
    (RouteOriginalDestination m) (SourceMACAddress m) (FakeIP m) d.

(** Fields of the facts about the connection. *)
Definition put_Inbound (x : text) (f : Rules.Facts) : Rules.Facts :=
  Rules.mkFacts x (Rules.IPVersion f) (Rules.Network f) (Rules.Source f) (Rules.Destination f) (Rules.User f) (Rules.Outbound f)
    (Rules.Protocol f) (Rules.Domain f) (Rules.Client f) (Rules.DestinationAddresses f) (Rules.DNSResponse f) (Rules.NamedDNSResponses f)
    (Rules.DestinationAddressMatchFromResponse f) (Rules.ProcessInfo f) (Rules.SourceHostname f) (Rules.QueryType f) (Rules.PreMatch f).
Definition put_IPVersion (x : Z) (f : Rules.Facts) : Rules.Facts :=
  Rules.mkFacts (Rules.Inbound f) x (Rules.Network f) (Rules.Source f) (Rules.Destination f) (Rules.User f) (Rules.Outbound f)
    (Rules.Protocol f) (Rules.Domain f) (Rules.Client f) (Rules.DestinationAddresses f) (Rules.DNSResponse f) (Rules.NamedDNSResponses f)
    (Rules.DestinationAddressMatchFromResponse f) (Rules.ProcessInfo f) (Rules.SourceHostname f) (Rules.QueryType f) (Rules.PreMatch f).
Definition put_Network (x : text) (f : Rules.Facts) : Rules.Facts :=
  Rules.mkFacts (Rules.Inbound f) (Rules.IPVersion f) x (Rules.Source f) (Rules.Destination f) (Rules.User f) (Rules.Outbound f)
    (Rules.Protocol f) (Rules.Domain f) (Rules.Client f) (Rules.DestinationAddresses f) (Rules.DNSResponse f) (Rules.NamedDNSResponses f)
    (Rules.DestinationAddressMatchFromResponse f) (Rules.ProcessInfo f) (Rules.SourceHostname f) (Rules.QueryType f) (Rules.PreMatch f).
Definition put_Destination (x : Rules.Socksaddr) (f : Rules.Facts) : Rules.Facts :=
  Rules.mkFacts (Rules.Inbound f) (Rules.IPVersion f) (Rules.Network f) (Rules.Source f) x (Rules.User f) (Rules.Outbound f)
    (Rules.Protocol f) (Rules.Domain f) (Rules.Client f) (Rules.DestinationAddresses f) (Rules.DNSResponse f) (Rules.NamedDNSResponses f)
    (Rules.DestinationAddressMatchFromResponse f) (Rules.ProcessInfo f) (Rules.SourceHostname f) (Rules.QueryType f) (Rules.PreMatch f).
Definition put_sniffed (protocol domain client : text) (f : Rules.Facts) : Rules.Facts :=
  Rules.mkFacts (Rules.Inbound f) (Rules.IPVersion f) (Rules.Network f) (Rules.Source f) (Rules.Destination f) (Rules.User f)
    (Rules.Outbound f) protocol domain client (Rules.DestinationAddresses f) (Rules.DNSResponse f) (Rules.NamedDNSResponses f)
    (Rules.DestinationAddressMatchFromResponse f) (Rules.ProcessInfo f) (Rules.SourceHostname f) (Rules.QueryType f) (Rules.PreMatch f).
Definition put_addresses (x : list AllowedIPs.addr) (f : Rules.Facts) : Rules.Facts :=
  Rules.mkFacts (Rules.Inbound f) (Rules.IPVersion f) (Rules.Network f) (Rules.Source f) (Rules.Destination f) (Rules.User f)
    (Rules.Outbound f) (Rules.Protocol f) (Rules.Domain f) (Rules.Client f) x (Rules.DNSResponse f) (Rules.NamedDNSResponses f)
    (Rules.DestinationAddressMatchFromResponse f) (Rules.ProcessInfo f) (Rules.SourceHostname f) (Rules.QueryType f) (Rules.PreMatch f).
Definition put_process (x : option Rules.ConnectionOwner) (f : Rules.Facts) : Rules.Facts :=
  Rules.mkFacts (Rules.Inbound f) (Rules.IPVersion f) (Rules.Network f) (Rules.Source f) (Rules.Destination f) (Rules.User f)
    (Rules.Outbound f) (Rules.Protocol f) (Rules.Domain f) (Rules.Client f) (Rules.DestinationAddresses f) (Rules.DNSResponse f)
    (Rules.NamedDNSResponses f) (Rules.DestinationAddressMatchFromResponse f) x (Rules.SourceHostname f) (Rules.QueryType f) (Rules.PreMatch f).
Definition put_hostname (x : text) (f : Rules.Facts) : Rules.Facts :=
  Rules.mkFacts (Rules.Inbound f) (Rules.IPVersion f) (Rules.Network f) (Rules.Source f) (Rules.Destination f) (Rules.User f)
    (Rules.Outbound f) (Rules.Protocol f) (Rules.Domain f) (Rules.Client f) (Rules.DestinationAddresses f) (Rules.DNSResponse f)
    (Rules.NamedDNSResponses f) (Rules.DestinationAddressMatchFromResponse f) (Rules.ProcessInfo f) x (Rules.QueryType f) (Rules.PreMatch f).

Definition set_PreMatch (x : bool) (m : Meta) : Meta := set_facts (Rules.with_PreMatch (facts m) x) m.
Definition set_Destination (d : Rules.Socksaddr) (m : Meta) : Meta := set_facts (put_Destination d (facts m)) m.

(** The part that sniffers see, and what they leave. *)
Definition sniff_view (m : Meta) : Sniff.metadata :=
  mkMetadata (Rules.Protocol (facts m)) (Rules.Domain (facts m)) (Rules.Client (facts m)) (SniffContext m).

Definition sniff_done (a : RuleActionSniff) (sm : Sniff.metadata) (e : serrs) (m : Meta) : Meta :=
  set_sniff (Sniff.SniffContext sm) (SnifferNames a) e (set_facts (put_sniffed (Protocol sm) (Domain sm) (Client sm) (facts m)) m).

(** ** The router *)

(** Functions of the sing library on addresses and names. *)
Record Net := mkNet {
  IsValid : Rules.Socksaddr -> bool;
  IsDomain : Rules.Socksaddr -> bool;
  IsIPv4 : Rules.Socksaddr -> bool;
  IsIPv6 : Rules.Socksaddr -> bool;
  IsDomainName : text -> bool;
  AddrPort : Rules.Socksaddr -> AllowedIPs.addr * Z
}.

(** What the router asks other services about a connection. *)
Record Services := mkServices {
  processSearcher : option (text -> AllowedIPs.addr * Z -> AllowedIPs.addr * Z -> option Rules.ConnectionOwner);
  MyInterfaceAddress : option (list AllowedIPs.addr);
  Interfaces : list (list AllowedIPs.addr);
  neighbor : option ((AllowedIPs.addr -> option text) * (AllowedIPs.addr -> option text));
  fakeip : option ((AllowedIPs.addr -> bool) * (AllowedIPs.addr -> option text));
  LookupReverseMapping : AllowedIPs.addr -> option text;
  has_transport : text -> bool;
  Lookup : Rules.Facts -> text -> RuleActionResolve -> option (list AllowedIPs.addr)
}.

Record Rule := mkRule {
  condition : Rules.rule;
  Action : RuleAction
}.

Section Router.

Context (net : Net) (srv : Services) (lib : Rules.Library) (IsAndroid : bool).
Context (sniffers : Sniffers).

Definition addr_valid (a : AllowedIPs.addr) : bool := match a with AllowedIPs.AddrInvalid => false | _ => true end.

(** [netip.Addr.IsLoopback] *)
Definition IsLoopback (a : AllowedIPs.addr) : bool :=
  match Rules.Unmap a with
  | AllowedIPs.Addr4 ip => bool_decide (take 1 ip = [127])
  | AllowedIPs.Addr6 ip => bool_decide (ip = repeat 0 15 ++ [1])
  | AllowedIPs.AddrInvalid => false
  end.

Definition isLocalSource (source : AllowedIPs.addr) : bool :=
  IsLoopback source || match MyInterfaceAddress srv with Some l => bool_decide (source ∈ l) | None => false end ||
  existsb (existsb (fun a => bool_decide (a = source))) (Interfaces srv).

(** [searchProcessInfo]; the search of the operating system, with its cache of 200 ms,
    is a service. *)
Definition searchProcessInfo (m : Meta) : Meta :=
  match processSearcher srv, Rules.ProcessInfo (facts m) with
  | Some find, None =>
      if isLocalSource (Rules.Addr (Rules.Source (facts m))) then
        let originDestination :=
          if IsValid net (OriginDestination m) then AddrPort net (OriginDestination m)
          else if Rules.IsIP lib (Destination m) then AddrPort net (Destination m)
          else (AllowedIPs.AddrInvalid, 0) in
        match find (Rules.Network (facts m)) (AddrPort net (Rules.Source (facts m))) originDestination with
        | Some processInfo => set_facts (put_process (Some processInfo) (facts m)) m
        | None => m
        end
      else m
  | _, _ => m
  end.

Definition find_neighbor (m : Meta) : Meta :=
  let source := Rules.Addr (Rules.Source (facts m)) in
  match neighbor srv, SourceMACAddress m with
  | Some (LookupMAC, LookupHostname), None =>
      if addr_valid source then
        let m := match LookupMAC source with Some mac => set_mac (Some mac) m | None => m end in
        match LookupHostname source with Some h => set_facts (put_hostname h (facts m)) m | None => m end
      else m
  | _, _ => m
  end.

(** A destination in the range of FakeIP is replaced by its name; any other may have a
    name by an earlier DNS answer.  [None] is the error for a missing FakeIP record. *)
Definition find_name (m : Meta) : option Meta :=
  let a := Rules.Addr (Destination m) in
  let reverse :=
    if bool_decide (Rules.Domain (facts m) = []) then
      match LookupReverseMapping srv a with
      | Some domain => Some (set_facts (put_sniffed (Rules.Protocol (facts m)) domain (Rules.Client (facts m)) (facts m)) m)
      | None => Some m
      end
    else Some m in
  match fakeip srv with
  | Some (contains, lookup) =>
      if addr_valid a && contains a then
        match lookup a with
        | None => None
        | Some domain =>
            if bool_decide (domain = []) then Some m
            else Some (set_Destination (Rules.mkSocksaddr AllowedIPs.AddrInvalid domain (Rules.Port (Destination m))) (set_fake (Destination m) m))
        end
      else reverse
  | None => reverse
  end.

Definition prepareMatchMetadata (m : Meta) : option Meta :=
  m ← find_name (find_neighbor (searchProcessInfo m));
  Some (if IsIPv4 net (Destination m) then set_facts (put_IPVersion 4 (facts m)) m
        else if IsIPv6 net (Destination m) then set_facts (put_IPVersion 6 (facts m)) m
        else m).

Definition set_timeout (t : Z) (d : DialOptions) : DialOptions :=
  mkDial (NetworkStrategy d) (NetworkType d) (FallbackNetworkType d) (FallbackDelay d) (UDPDisableDomainUnmapping d) (UDPConnect d) t (TLSFragment d)
    (TLSFragmentFallbackDelay d) (TLSRecordFragment d) (TLSSpoof d) (TLSSpoofMethod d).

Definition applyRouteOptionsOverride (o : RuleActionRouteOptions) (m : Meta) : Meta :=
  let m :=
    if IsValid net (OverrideAddress o) then
      set_Destination (Rules.mkSocksaddr (Rules.Addr (OverrideAddress o)) (Rules.Fqdn (OverrideAddress o)) (Rules.Port (Destination m))) m
    else m in
  let m :=
    if 0 <? OverridePort o then
      set_Destination (Rules.mkSocksaddr (Rules.Addr (Destination m)) (Rules.Fqdn (Destination m)) (OverridePort o)) m
    else m in
  if 0 <? UDPTimeout (dial o) then set_dial (set_timeout (UDPTimeout (dial o)) (dialOptions m)) m else m.

(** The options of a rule over those of the rules before it. *)
Definition merge_dial (o d : DialOptions) : DialOptions :=
  mkDial (match NetworkStrategy o with Some s => Some s | None => NetworkStrategy d end)
    (match NetworkType o with [] => NetworkType d | l => l end) (match FallbackNetworkType o with [] => FallbackNetworkType d | l => l end)
    (if FallbackDelay o =? 0 then FallbackDelay d else FallbackDelay o) (UDPDisableDomainUnmapping o || UDPDisableDomainUnmapping d)
    (UDPConnect o || UDPConnect d) (if 0 <? UDPTimeout o then UDPTimeout o else UDPTimeout d) (TLSFragment o || TLSFragment d)
    (if TLSFragment o then TLSFragmentFallbackDelay o else TLSFragmentFallbackDelay d) (TLSRecordFragment o || TLSRecordFragment d)
    (if bool_decide (TLSSpoof o = []) then TLSSpoof d else TLSSpoof o) (if bool_decide (TLSSpoof o = []) then TLSSpoofMethod d else TLSSpoofMethod o).

Definition apply_options (o : RuleActionRouteOptions) (m : Meta) : Meta :=
  let m :=
    if (IsValid net (OverrideAddress o) || (0 <? OverridePort o)) && negb (IsValid net (RouteOriginalDestination m)) then set_original (Destination m) m
    else m in
  let m := if IsValid net (OverrideAddress o) then set_facts (put_addresses [] (facts m)) m else m in
  let m := applyRouteOptionsOverride o m in
  set_dial (merge_dial (dial o) (dialOptions m)) m.

Definition routeOptions (a : RuleAction) : option RuleActionRouteOptions :=
  match a with
  | ActionRoute _ o | ActionRouteOptions o => Some o
  | ActionBypass outbound o => if bool_decide (outbound = []) then None else Some o
  | _ => None
  end.

(** [actionResolve]; [None] is an error. *)
Definition actionResolve (a : RuleActionResolve) (m : Meta) : option Meta :=
  if IsDomain net (Destination m) then
    if negb (bool_decide (Server a = [])) && negb (has_transport srv (Server a)) then None
    else
      addresses ← Lookup srv (facts m) (Rules.Fqdn (Destination m)) a;
      Some (set_facts (put_addresses addresses (facts m)) m)
  else Some m.

(** *** Sniffing *)

(** Ports of protocols where the server speaks first, and what has been sniffed
    already, are left alone. *)
Definition sniff_skipped (m : Meta) : bool :=
  Skip (Rules.Port (Destination m)) || negb (bool_decide (Rules.Protocol (facts m) = [])).

Definition same_sniffers (a : RuleActionSniff) (m : Meta) : bool := bool_decide (snifferNames m = SnifferNames a).

Definition failed_before (a : RuleActionSniff) (m : Meta) : bool :=
  same_sniffers a m && negb (bool_decide (SniffError m = [])) && negb (is_need_more (SniffError m)).

Definition none {A} (l : list A) : bool := match l with [] => true | _ => false end.

Definition override_destination (a : RuleActionSniff) (m : Meta) : Meta :=
  if OverrideDestination a && IsDomainName net (Rules.Domain (facts m)) then
    set_Destination (Rules.mkSocksaddr AllowedIPs.AddrInvalid (Rules.Domain (facts m)) (Rules.Port (Destination m))) m
  else m.

Definition sniff_end (a : RuleActionSniff) (sm : Sniff.metadata) (e : serrs) (m : Meta) : Meta :=
  let m := sniff_done a sm e m in if bool_decide (e = []) then override_destination a m else m.

(** [actionSniff] of a stream: the bytes read, when there are any. *)
Definition sniff_stream (a : RuleActionSniff) (m : Meta) (inputBuffers : reader) (events : list stream_event) :
    outcome (Meta * option (list Z) * list stream_event) :=
  if sniff_skipped m then mret (m, None, events)
  else if none (StreamSniffers a) && negb (none (PacketSniffers a)) then mret (m, None, events)
  else if failed_before a m then mret (m, None, events)
  else
    let streamSniffers := if none (StreamSniffers a) then defaultStreamSniffers sniffers else StreamSniffers a in
    '(sm, buffer, err, events) ← PeekStream events 0 (sniff_view m) inputBuffers [] streamSniffers [];
    mret (sniff_end a sm err m, if none buffer then None else Some buffer, events).

(** A packet with its destination. *)
Definition packet : Type := list Z * Rules.Socksaddr.

(** What a packet connection does at successive reads: a packet arrives, none arrives
    in time, the read fails, or the router's context ends. *)
Inductive packet_event := Arrives (p : packet) | TimesOut | Breaks | Cancelled.

Definition quicMoreData (a : RuleActionSniff) (m : Meta) : bool := same_sniffers a m && is_need_more (SniffError m).

Definition peek_packet (a : RuleActionSniff) (m : Meta) (p : packet) : outcome (Sniff.metadata * serrs) :=
  let packetSniffers := if none (PacketSniffers a) then defaultPacketSniffers sniffers else PacketSniffers a in
  PeekPacket (sniff_view m) (fst p) (if quicMoreData a m then [QUICClientHello sniffers] else packetSniffers) [].

(** The loop over the packets read before, and whether it ended the action. *)
Fixpoint sniff_buffered (a : RuleActionSniff) (m : Meta) (ps : list packet) : outcome (Meta * bool) :=
  match ps with
  | [] => mret (m, false)
  | p :: ps =>
      '(sm, err) ← peek_packet a m p;
      if is_need_more err then sniff_buffered a (sniff_done a sm err m) ps
      else mret (sniff_end a sm err m, true)
  end.

(** The loop that reads packets: the packets with those read, and whether the error is
    fatal. *)
Fixpoint sniff_reading (a : RuleActionSniff) (m : Meta) (ps : list packet) (events : list packet_event) :
    outcome (Meta * list packet * bool * list packet_event) :=
  match events with
  | [] => mret (m, ps, true, [])
  | (Breaks | Cancelled) :: events => mret (m, ps, true, events)
  | TimesOut :: events => mret (m, ps, false, events)
  | Arrives p :: events =>
      '(sm, err) ← peek_packet a m p;
      if is_need_more err then sniff_reading a (sniff_done a sm err m) (ps ++ [p]) events
      else mret (sniff_end a sm err m, ps ++ [p], false, events)
  end.

(** [actionSniff] of a packet connection. *)
Definition sniff_packets (a : RuleActionSniff) (m : Meta) (inputPacketBuffers : list packet) (events : list packet_event) :
    outcome (Meta * list packet * bool * list packet_event) :=
  if sniff_skipped m then mret (m, [], false, events)
  else if none (PacketSniffers a) && negb (none (StreamSniffers a)) then mret (m, [], false, events)
  else if failed_before a m then mret (m, [], false, events)
  else
    '(m, finished) ← sniff_buffered a m inputPacketBuffers;
    if finished : bool then mret (m, [], false, events)
    else sniff_reading a m inputPacketBuffers events.

(** *** Rules *)

(** The connection to be routed, with what has been read from it. *)
Inductive input :=
| Stream (buffers : reader) (events : list stream_event)
| Packets (packetBuffers : list packet) (events : list packet_event).

(** The switch over the actions that act on the way; [None] is a fatal error. *)
Definition act (a : RuleAction) (m : Meta) (c : input) : outcome (option (Meta * input)) :=
  match a with
  | ActionSniff s =>
      match c with
      | Stream buffers events =>
          '(m, buffer, events) ← sniff_stream s m buffers events;
          mret (Some (m, Stream (match buffer with Some b => buffers ++ [b] | None => buffers end) events))
      | Packets packetBuffers events =>
          '(m, new, fatal, events) ← sniff_packets s m packetBuffers events;
          if fatal : bool then mret None else mret (Some (m, Packets (packetBuffers ++ new) events))
      end
  | ActionResolve r => mret (m ← actionResolve r m; Some (m, c))
  | _ => mret (Some (m, c))
  end.

(** Whether a matched rule ends the search. *)
Definition is_final (a : RuleAction) : bool :=
  match a with
  | ActionRoute _ _ | ActionReject _ | ActionHijackDNS => true
  | ActionBypass outbound _ => negb (bool_decide (outbound = []))
  | _ => false
  end.

Inductive selection := Fatal | Selected (r : option Rule) (m : Meta) (c : input).

Fixpoint match_loop (rules : list Rule) (m : Meta) (c : input) : outcome selection :=
  match rules with
  | [] => mret (Selected None m c)
  | r :: rules =>
      let '(matched, ctx) := Rules.Match lib IsAndroid (condition r) (Rules.ResetRuleCache (context m)) in
      let m := set_context ctx m in
      if negb matched then match_loop rules m c
      else
        let m := match routeOptions (Action r) with Some o => apply_options o m | None => m end in
        o ← act (Action r) m c;
        match o with
        | None => mret Fatal
        | Some (m, c) => if is_final (Action r) then mret (Selected (Some r) m c) else match_loop rules m c
        end
  end.

Definition matchRule (rules : list Rule) (m : Meta) (c : input) : outcome selection :=
  match prepareMatchMetadata m with
  | None => mret Fatal
  | Some m => match_loop rules m c
  end.

(** *** Handing over *)

(** Tags and networks of the outbounds, the inbounds that take a detour and whether
    they do, and the names that old versions gave a meaning. *)
Record Managers := mkManagers {
  Outbound : text -> option (list text);
  Default : text * list text;
  injectable : text -> option bool;
  reserved_names : list text
}.

(** What becomes of a connection of type [C]; [packets]: those read before, for the DNS
    handler; [nat]: the destination to be put back for a FakeIP one. *)
Inductive verdict (C : Type) :=
| RouteFails
| Injects (inbound : text) (m : Meta)
| Rejects (e : option reject_error) (r : RuleActionReject)
| HijacksDNS (conn : C) (packets : list packet) (m : Meta)
| Forwards (outbound : text) (conn : C) (m : Meta) (nat : option (Rules.Socksaddr * Rules.Socksaddr)).

Arguments RouteFails {C}.
Arguments Injects {C} inbound m.
Arguments Rejects {C} e r.
Arguments HijacksDNS {C} conn packets m.
Arguments Forwards {C} outbound conn m nat.

Context (mgr : Managers).

(** The detour of an inbound. *)
Definition detour {C} (m : Meta) : verdict C :=
  if bool_decide (LastInbound m = InboundDetour m) then RouteFails
  else
    match injectable mgr (InboundDetour m) with
    | Some true => Injects (InboundDetour m) (set_detour [] (Rules.Inbound (facts m)) (set_facts (put_Inbound (InboundDetour m) (facts m)) m))
    | _ => RouteFails
    end.

(** The outbound of the selected rule for a network. *)
Definition outbound_for (network : text) (r : option Rule) : option text :=
  let named tag := match Outbound mgr tag with Some networks => if bool_decide (network ∈ networks) then Some tag else None | None => None end in
  match r with
  | None => if bool_decide (network ∈ snd (Default mgr)) then Some (fst (Default mgr)) else None
  | Some r => match Action r with ActionRoute tag _ | ActionBypass tag _ => named tag | _ => None end
  end.

(** What follows the choice of a rule; [conn] has the bytes or packets read. *)
Definition dispatch {C} (network : text) (now : Z) (r : option Rule) (hijack : verdict C) (conn : C) (m : Meta) (nat : option (Rules.Socksaddr * Rules.Socksaddr)) : verdict C :=
  match option_map Action r with
  | Some (ActionReject a) =>
      match Method a with
      | RejectReply => RouteFails
      | _ => let '(e, a) := Reject_Error a now in Rejects e a
      end
  | Some ActionHijackDNS => hijack
  | _ => match outbound_for network r with Some tag => Forwards tag conn m nat | None => RouteFails end
  end.

Section Connections.

(** A connection that is to bring these events, and [bufio.NewCachedConn] of the sing
    library. *)
Context {C : Type} (conn_of : list stream_event -> C) (NewCachedConn : C -> list Z -> C).

Definition routeConnection (rules : list Rule) (now : Z) (m : Meta) (events : list stream_event) : outcome (verdict C) :=
  if negb (bool_decide (InboundDetour m = [])) then mret (detour m)
  else
    let m := set_facts (put_Network (str "tcp") (facts m)) m in
    if bool_decide (Rules.Fqdn (Destination m) ∈ reserved_names mgr) then mret RouteFails
    else if bool_decide (InboundType m = str "tun") && bool_decide (Rules.Protocol (facts m) = str "dns") then mret (HijacksDNS (conn_of events) [] m)
    else
      s ← matchRule rules m (Stream [] events);
      match s with
      | Selected r m (Stream buffers events) =>
          let conn := foldl NewCachedConn (conn_of events) buffers in
          mret (dispatch (str "tcp") now r (HijacksDNS conn [] m) conn m None)
      | _ => mret RouteFails
      end.

End Connections.

Section PacketConnections.

(** The same of packet connections. *)
Context {P : Type} (conn_of : list packet_event -> P) (NewCachedPacketConn : P -> packet -> P).

Definition routePacketConnection (rules : list Rule) (now : Z) (m : Meta) (events : list packet_event) : outcome (verdict P) :=
  if negb (bool_decide (InboundDetour m = [])) then mret (detour m)
  else
    let m := set_facts (put_Network (str "udp") (facts m)) m in
    if bool_decide (InboundType m = str "tun") && bool_decide (Rules.Protocol (facts m) = str "dns") then mret (HijacksDNS (conn_of events) [] m)
    else
      s ← matchRule rules m (Packets [] events);
      match s with
      | Selected r m (Packets packetBuffers events) =>
          mret (dispatch (str "udp") now r (HijacksDNS (conn_of events) packetBuffers m) (foldl NewCachedPacketConn (conn_of events) packetBuffers) m
                  (if FakeIP m then Some (OriginDestination m, Destination m) else None))
      | _ => mret RouteFails
      end.

End PacketConnections.

End Router.

Arguments RouteFails {C}.
Arguments Injects {C} inbound m.
Arguments Rejects {C} e r.
Arguments HijacksDNS {C} conn packets m.
Arguments Forwards {C} outbound conn m nat.

End Router.
