(* ===== verification/SniffDecoys.v ===== *)
(** * The decoys of an endpoint under the sniffers of the router

    The masquerade packets of Masquerade.v go through the sniffers of Sniff.v, in the
    order in which the router tries them on a packet. *)

From S2P Require Import Prelude Bits Bytes GoStrings ObfChain AwgOptions TlsFragment Masque QuicInitial MasqueProps QuicProps QuicPacket Masquerade Ja3 Sniff SniffProps Rules Router.

Module SniffDecoys.

Import TlsFragment Sniff Ja3 SniffProps.

Local Open Scope Z_scope.

(** ** The generic ClientHello *)

Definition generic_es (sni pub : list Z) : list Extension :=
  [Groups [0x1d]; Algorithms [0x0403; 0x0804; 0x0401; 0x0805; 0x0501; 0x0806; 0x0601; 0x0201]; NameOf sni;
   Other 0x0033 (be16 36 ++ be16 0x1d ++ be16 32 ++ pub); Other 0x0039 QuicInitial.buildQUICTransportParams; Other 0x0a0a [0; 0; 0];
   Other 0x002d [1; 1]; Other 0x0010 (be16 3 ++ 2 :: str "h3"); Other 0x001b [2; 0; 2]; SupportedVersions [0x0304];
   Other 0x0015 (repeat 0 (QuicPacket.pad_of sni))].

Lemma generic_message sni random pub : QuicPacket.generic_hello sni random pub = message 0x0303 random [] [0x1301] [0] (map wire (generic_es sni pub)).
Proof. done. Qed.

Lemma generic_fits sni pub : QuicPacket.name_ok sni -> QuicPacket.key_ok pub -> Forall fits (generic_es sni pub).
Proof.
  intros (_ & Hs & Hl) [Hp Hpu]. pose proof (QuicPacket.pad_of_value sni). unfold generic_es. rewrite !list.Forall_cons. cbn [fits].
  assert (forall typ body, is_u16 typ -> bool_decide (typ ∈ [0; 10; 11; 13; 43]) = false -> Forall is_u8 body -> len body < 65500 ->
    is_u16 typ /\ (typ ∉ [0; 10; 11; 13; 43]) /\ Forall is_u8 body /\ len body < 65500) as Ho by (intros typ body ? ?%bool_decide_eq_false_1; done).
  split_and!; try apply Forall_nil_2; try (by_eval || done); try (apply Ho; [by_eval | by_eval | |]).
  - unfold len. lia.
  - rewrite !Forall_app. split_and!; (by_eval || done).
  - rewrite !len_app. unfold len. rewrite Hp. done.
  - apply QuicPacket.zeros_bytes.
  - unfold len. rewrite repeat_length. lia.
Qed.

Lemma pieces_bound (ps : list (Z * list Z)) : Forall (fun p => snd p <> []) ps -> (length ps <= length (concat (map snd ps)))%nat.
Proof. induction 1 as [|[o d] ps Hd _ IH]; [done|]. cbn [map concat length snd] in *. rewrite length_app. destruct d; [done|]. cbn [length]. lia. Qed.

Section Decoys.

Context (hkdf_Extract : list Z -> list Z -> list Z) (hkdf_Expand : list Z -> list Z -> nat -> list Z)
  (gcm_Seal : list Z -> list Z -> list Z -> list Z -> list Z) (gcm_Open : list Z -> list Z -> list Z -> list Z -> option (list Z))
  (aes_Encrypt : list Z -> list Z -> list Z).
Context (Hprim : QuicPacket.primitives_ok hkdf_Expand gcm_Seal gcm_Open aes_Encrypt).

Local Abbreviation sniffer := (QUICClientHello hkdf_Extract hkdf_Expand gcm_Open aes_Encrypt).

(** Nothing has been found out about the connection. *)
Definition fresh (m : metadata) : Prop := Client m = [] /\ SniffContext m = None.

Lemma quic_decoy sni packet m k : QuicPacket.name_ok sni -> Forall is_u8 packet ->
  QuicPacket.hello_inside hkdf_Extract hkdf_Expand gcm_Open aes_Encrypt sni packet -> (512 <= k)%nat -> fresh m ->
  sniffer k m packet = mret (mkMetadata (str "quic") sni (str "chromium") None, None).
Proof.
  intros Hn Hu (payload & random & pub & Hr & Hp & Ho & Hpu & fs & Hfs & (ps & Hperm & Hps & Hfull) & off & d & rest & Hfirst & Hoff) Hk [Hc Hctx].
  pose proof (QuicPacket.generic_ok sni random pub Hn Hr Hp) as Hok. destruct (QuicPacket.generic_bytes sni random pub Hn Hr Hp) as [_ Hlen].
  assert (length ps < k)%nat as Hkps.
  { pose proof (pieces_bound ps Hfull) as Hb. rewrite <- (assemble_concat _ _ _ Hps) in Hb. destruct Hn as (_ & _ & Hs). lia. }
  assert (2 <= length (QuicProps.crypto_of fs))%nat as Htwo.
  { rewrite Hfirst in *. destruct rest as [|q rest]; [|cbn [length]; lia]. apply Permutation_singleton_l in Hperm. subst ps.
    cbn in Hps. destruct (Z.eqb_spec off 0); done. }
  rewrite (packet_whole hkdf_Extract hkdf_Expand gcm_Seal gcm_Open aes_Encrypt Hprim (QuicPacket.generic_hello sni random pub) Hok ps Hps Hfull k Hkps packet fs
    ltac:(by exists payload) m (fingerprint 0x0303 [0x1301] (generic_es sni pub))); [|  | | done].
  - rewrite client_two by (rewrite count_crypto; done). done.
  - rewrite generic_message in *. apply (reads_message 0x0303 0x0303 random [] [0x1301] [0] (generic_es sni pub)); [done | by_eval | by apply generic_fits | lia].
  - rewrite Hctx. cbn [default]. rewrite app_nil_r. by apply fmap_Permutation.
Qed.

(** ** STUN *)

Lemma stun_parts packet r : MasqueProps.stun_message packet = Some r ->
  exists l1 l0 rest, packet = 0 :: 1 :: l1 :: l0 :: 33 :: 18 :: 164 :: 66 :: rest /\ 256 * l1 + l0 = len packet - 20.
Proof.
  intros H. unfold MasqueProps.stun_message in H. repeat case_match; simplify_eq. do 3 eexists. split; [done|].
  match goal with H : _ && _ = true |- _ => apply andb_true_iff in H as [H%Z.eqb_eq _] end. done.
Qed.

Lemma stun_decoy key hmac packet m : Forall is_u8 packet -> MasqueProps.stun_valid hmac key packet ->
  STUNMessage m packet = found "stun" m /\ packet !! 0%nat = Some 0.
Proof.
  intros Hu (txn & user & tie & prio & mi & crc & Hm & _). destruct (stun_parts _ _ Hm) as (l1 & l0 & rest & -> & Hl). split; [|done].
  rewrite !list.Forall_cons in Hu. destruct Hu as (_ & _ & H1 & H0 & _). unfold is_u in *. unfold STUNMessage. set (packet := _ :: _) in *.
  destruct (Z.ltb_spec (len packet) 20); [lia|].
  assert (uint32_at packet 4 = Returns 0x2112A442) as ->.
  { unfold uint32_at. rewrite (slice_seam packet [0; 1; l1; l0] [33; 18; 164; 66] rest) by done. done. }
  cbn [mbind outcome_bind]. change (negb (0x2112A442 =? 0x2112A442)) with false. cbv iota.
  assert (uint16_at packet 2 = Some (256 * l1 + l0)) as -> by (unfold uint16_at; cbn; by rewrite lor_shift8).
  cbn [checked mbind outcome_bind]. destruct (Z.ltb_spec (len packet) (20 + (256 * l1 + l0))); [lia | done].
Qed.

(** ** The router's sniffers *)

(** What the router knows after a packet of the protocol. *)
Definition recognised (proto domain : list Z) (m : metadata) : metadata :=
  if bool_decide (proto = str "quic") then mkMetadata (str "quic") domain (str "chromium") None else set_Protocol (str "stun") m.

(** The sniffers of the router, with the DNS library's reader of messages and [k]
    rounds for the fragments of QUIC; those of streams do not matter. *)
Definition router_sniffers (Unpack : list Z -> option Msg) (k : nat) (others : Router.Sniffers) : Router.Sniffers :=
  Router.mkSniffers (Router.TLSClientHello others) (Router.HTTPHost others) (Router.StreamDomainNameQuery others) (Router.RDP others)
    (sniffer k) (DomainNameQuery Unpack).

Definition sniffed_as (proto domain packet : list Z) : Prop :=
  forall m Unpack k others, fresh m -> Unpack packet = None -> (512 <= k)%nat ->
    PeekPacket m packet (Router.defaultPacketSniffers (router_sniffers Unpack k others)) [] = Returns (recognised proto domain m, []).

Lemma sends_weaken decoy (P Q : list Z -> Prop) : Masquerade.sends decoy P -> (forall p, P p -> Q p) -> Masquerade.sends decoy Q.
Proof. intros (chain & Hc & HP) HPQ. exists chain. split; [done|]. intros now draws Hd. destruct (HP now draws Hd) as (p & ? & ?). exists p. auto. Qed.

Lemma quic_sniffed domain packet : QuicPacket.name_ok domain -> Forall is_u8 packet ->
  QuicPacket.hello_inside hkdf_Extract hkdf_Expand gcm_Open aes_Encrypt domain packet -> sniffed_as (str "quic") domain packet.
Proof.
  intros Hn Hu Hi m Unpack k others Hf Hd Hk. unfold Router.defaultPacketSniffers. cbn [PeekPacket Router.DomainNameQuery Router.QUICClientHello router_sniffers]. unfold DomainNameQuery at 1. rewrite Hd.
  cbn [invalid mret outcome_ret mbind outcome_bind]. by rewrite (quic_decoy domain).
Qed.

Lemma stun_sniffed hmac key domain packet : Forall is_u8 packet -> MasqueProps.stun_valid hmac key packet -> sniffed_as (str "stun") domain packet.
Proof.
  intros Hu Hs m Unpack k others _ Hd _. destruct (stun_decoy key hmac packet m Hu Hs) as [Hst H0]. unfold Router.defaultPacketSniffers.
  cbn [PeekPacket Router.DomainNameQuery Router.QUICClientHello router_sniffers].
  unfold DomainNameQuery at 1. rewrite Hd. cbn [invalid mret outcome_ret mbind outcome_bind].
  assert (sniffer k m packet = invalid m) as -> by (destruct packet as [|b packet]; [done|]; injection H0 as ->; done).
  cbn [invalid mret outcome_ret mbind outcome_bind]. by rewrite Hst.
Qed.

Lemma speaks_sniffed hmac domain proto decoys : domain = [] \/ QuicPacket.name_ok domain -> (proto = str "quic" -> domain <> []) ->
  proto ∈ [str "quic"; str "stun"] -> Masquerade.speaks hkdf_Extract hkdf_Expand gcm_Open aes_Encrypt hmac domain proto decoys ->
  Masquerade.sends (fst decoys) (sniffed_as proto domain).
Proof.
  intros Hn Hq Hp Hs. destruct Hs as [i1 Hs|i1 Hs|i1 labels _ _|i1 i2 d _ _ _]; cbn [fst].
  - destruct Hn as [|Hn]; [by destruct Hq|]. eapply sends_weaken; [exact Hs|]. intros p (_ & Hu & Hi & _). by apply quic_sniffed.
  - eapply sends_weaken; [exact Hs|]. intros p (Hu & key & Hv). by eapply stun_sniffed.
  - exfalso. revert Hp. by_eval.
  - exfalso. revert Hp. by_eval.
Qed.

End Decoys.

(** ** Properties *)

(** C19. The decoys of an endpoint pass the program's own sniffers for what they
    pretend to be.  Whatever the draws, the packet that the device sends for the first
    decoy of a masquerade as QUIC or STUN is taken by the default sniffers of the
    router, tried in their order, as that protocol; for QUIC the server name found is
    the configured domain and the client a Chromium browser.  This is for the built-in
    ClientHello, the one of every browser option [ib] but chrome and firefox: for these
    two the message comes from a library.  Assumed of the DNS
    library: it does not take the packet for a DNS message; of the primitives and the
    draws: as for the masquerade.  512 rounds are more than the fragments of the
    ClientHello. *)
Theorem decoys_recognised hkdf_Extract hkdf_Expand gcm_Seal gcm_Open aes_Encrypt hmac_sha1 x25519_public buildBrowserClientHello
    rand_Int rand_Read fuel o i decoys j :
  QuicPacket.primitives_ok hkdf_Expand gcm_Seal gcm_Open aes_Encrypt ->
  (forall k m, length (hmac_sha1 k m) = 20%nat /\ Forall is_u8 (hmac_sha1 k m)) ->
  (forall k, QuicPacket.key_ok (x25519_public k)) -> Masquerade.draws_ok rand_Int rand_Read -> QuicProps.varied rand_Int fuel 5 ->
  ToLower (TrimSpace (AwgOptions.Ib o)) ∉ [str "chrome"; str "firefox"] ->
  Masquerade.masquerade hkdf_Extract hkdf_Expand gcm_Seal aes_Encrypt hmac_sha1 x25519_public buildBrowserClientHello rand_Int rand_Read fuel o i = Masque.Ok decoys j ->
  Masquerade.accepted o -> Masquerade.proto_of o ∈ [str "quic"; str "stun"] ->
  Masquerade.sends (fst decoys) (sniffed_as hkdf_Extract hkdf_Expand gcm_Open aes_Encrypt (Masquerade.proto_of o) (Masquerade.domain_of o)).
Proof.
  intros Hprim Hmac Hpub [Hint Hbytes] Hv Hb Hm Ha Hp.
  assert (MasqueProps.yields true (Masquerade.masquerade hkdf_Extract hkdf_Expand gcm_Seal aes_Encrypt hmac_sha1 x25519_public buildBrowserClientHello rand_Int rand_Read fuel o)
    (Masquerade.speaks hkdf_Extract hkdf_Expand gcm_Open aes_Encrypt hmac_sha1 (Masquerade.domain_of o) (Masquerade.proto_of o))) as Hy.
  { apply Masquerade.yields_masquerade; try done.
    - intros n k b Hr. destruct (Hbytes n k) as (b' & E & H). congruence.
    - intros _ n k. destruct (Hbytes n k) as (b & E & _). by exists b. }
  specialize (Hy i). rewrite Hm in Hy. eapply speaks_sniffed; [exact Hprim | | by apply Masquerade.acc_quic | done | exact Hy].
  destruct (Masquerade.domain_accepted o Ha) as [|[Hn _]%Masquerade.valid_domain]; [by left | by right].
Qed.

Lemma quic_options_accepted : Masquerade.accepted Masquerade.quic_options /\
  Masquerade.proto_of Masquerade.quic_options = str "quic" /\ Masquerade.domain_of Masquerade.quic_options = str "example.com".
Proof. split; [split; [done | by_eval | intros _; vm_compute; reflexivity | intros _; by_eval | by_eval] | split; vm_compute; reflexivity]. Qed.

Lemma decoys_recognised_witness :
  exists decoys j,
    Masquerade.masquerade Masquerade.toy_Extract Masquerade.toy_Expand Masquerade.toy_Seal Masquerade.toy_Encrypt Masquerade.toy_hmac Masquerade.toy_public
      (fun _ _ => None) Masquerade.toy_Int Masquerade.toy_Read 5 Masquerade.quic_options 0%nat = Masque.Ok decoys j /\
    Masquerade.sends (fst decoys) (sniffed_as Masquerade.toy_Extract Masquerade.toy_Expand Masquerade.toy_Open Masquerade.toy_Encrypt (str "quic") (str "example.com")).
Proof.
  pose proof (fun decoys j => decoys_recognised Masquerade.toy_Extract Masquerade.toy_Expand Masquerade.toy_Seal Masquerade.toy_Open Masquerade.toy_Encrypt Masquerade.toy_hmac
    Masquerade.toy_public (fun _ _ => None) Masquerade.toy_Int Masquerade.toy_Read 5 Masquerade.quic_options 0%nat decoys j
    Masquerade.toy_primitives ltac:(intros k m; split; [done | by apply Masquerade.repeat_u8]) ltac:(intros k; split; [done | by apply Masquerade.repeat_u8])
    Masquerade.toy_draws Masquerade.toy_varied ltac:(by_eval)) as H.
  destruct quic_options_accepted as (Ha & Hp & Hd). rewrite Hp, Hd in H.
  destruct (Masquerade.masquerade _ _ _ _ _ _ _ _ _ _ Masquerade.quic_options 0%nat) as [decoys j| | |] eqn:E; [|vm_compute in E; discriminate E..].
  exists decoys, j. split; [reflexivity|]. apply (H decoys j eq_refl Ha). by_eval.
Defined.

End SniffDecoys.
