(* ===== verification/RouterProps.v ===== *)
(** * What the router hands over

    Bytes and packets that were read for sniffing go to the outbound in front of those
    still to come.  With one sniff rule a stream arrives as the client sent it, and a
    ClientHello spread over several QUIC packets is recognised; with two sniff rules
    that both read, the order of a stream is reversed and packets are doubled. *)

From S2P Require Import Prelude Bits Bytes GoStrings AllowedIPs Rules TlsFragment QuicInitial QuicProps QuicPacket Masquerade Ja3 Sniff SniffProps Router.

Module RouterProps.

Import TlsFragment Sniff Router.

Local Open Scope Z_scope.

(** ** Streams *)

(** The bytes that events bring. *)
Definition bytes_of (events : list stream_event) : list Z := flat_map (fun e => match e with ReadFails b | Chunk b => b | NoDeadline => [] end) events.

Lemma peek_bytes events i m buffers buffer sniffers e r : PeekStream events i m buffers buffer sniffers e = Returns r ->
  let '(_, buffer', _, events') := r in buffer' ++ bytes_of events' = buffer ++ bytes_of events.
Proof.
  revert i m buffer e. induction events as [|ev events IH]; intros i m buffer e; cbn [PeekStream]; [intros [= <-]; cbn; by rewrite app_nil_r|].
  destruct ev as [|b|b]; [by intros [= <-] | intros [= <-]; cbn; by rewrite <- app_assoc|].
  destruct (try_streams _ _ _ _) as [[m' [err|]]| |]; cbn [mbind outcome_bind]; [| |done..].
  - destruct (negb _); [intros [= <-]; cbn; by rewrite <- app_assoc|]. intros Hr. specialize (IH _ _ _ _ Hr). destruct r as [[[? ?] ?] ?].
    rewrite IH. cbn. by rewrite <- app_assoc.
  - intros [= <-]. cbn. by rewrite <- app_assoc.
Qed.

Definition is_sniff (r : Rule) : bool := match Action r with ActionSniff _ => true | _ => false end.
Definition sniff_rules (rules : list Rule) : nat := length (List.filter is_sniff rules).

Section Props.

Context (net : Net) (srv : Services) (lib : Rules.Library) (IsAndroid : bool) (sniffers : Sniffers).

Local Abbreviation act := (act net srv sniffers).
Local Abbreviation match_loop := (match_loop net srv lib IsAndroid sniffers).
Local Abbreviation sniff_packets := (sniff_packets net sniffers).

Lemma sniff_stream_bytes a m buffers events m' o events' : sniff_stream net sniffers a m buffers events = Returns (m', o, events') ->
  default [] o ++ bytes_of events' = bytes_of events.
Proof.
  unfold sniff_stream. repeat (destruct (_ : bool); [by intros [= <- <- <-]|]).
  destruct (PeekStream _ _ _ _ _ _ _) as [[[[sm b] err] evs]| |] eqn:Hp; cbn [mbind outcome_bind]; [|done..].
  intros [= _ <- <-]. apply peek_bytes in Hp. destruct b; done.
Qed.

(** An action keeps a stream a stream, and adds a buffer only when it sniffs. *)
Lemma act_stream a m buffers events m' c : act a m (Stream buffers events) = Returns (Some (m', c)) ->
  exists new events', c = Stream (buffers ++ new) events' /\ concat new ++ bytes_of events' = bytes_of events /\
    (length new <= if match a with ActionSniff _ => true | _ => false end then 1 else 0)%nat.
Proof.
  assert (forall m1, Returns (Some (m1, Stream buffers events)) = Returns (Some (m', c)) ->
    exists new events', c = Stream (buffers ++ new) events' /\ concat new ++ bytes_of events' = bytes_of events /\ (length new <= 0)%nat) as Hsame.
  { intros m1 [= _ <-]. exists [], events. rewrite app_nil_r. done. }
  unfold Router.act. destruct a; try (by apply Hsame).
  - destruct (sniff_stream _ _ _ _ _ _) as [[[m1 o] evs]| |] eqn:Hs; cbn [mbind outcome_bind]; [|done..]. intros [= _ <-].
    apply sniff_stream_bytes in Hs. exists (match o with Some b => [b] | None => [] end), evs. destruct o as [b|]; cbn in *.
    + rewrite app_nil_r. split_and!; [done | done | lia].
    + rewrite app_nil_r. split_and!; [done | done | lia].
  - cbn. destruct (actionResolve _ _ _ _) as [m1|]; cbn [mbind option_bind]; [apply Hsame | done].
Qed.

Lemma match_loop_stream rules m buffers events r m' c : match_loop rules m (Stream buffers events) = Returns (Selected r m' c) ->
  exists new events', c = Stream (buffers ++ new) events' /\ concat new ++ bytes_of events' = bytes_of events /\ (length new <= sniff_rules rules)%nat.
Proof.
  revert m buffers events. induction rules as [|rule rules IH]; intros m buffers events; cbn [Router.match_loop].
  { intros [= _ _ <-]. exists [], events. by rewrite app_nil_r. }
  destruct (Rules.Match _ _ _ _) as [matched ctx]. destruct matched; cbn [negb].
  - destruct (Router.act _ _ _ _ _ _) as [[[m1 c1]|]| |] eqn:Ha; cbn [mbind outcome_bind]; [|done..].
    destruct (act_stream _ _ _ _ _ _ Ha) as (new & evs & -> & Hb & Hl). unfold sniff_rules. cbn [List.filter]. unfold is_sniff at 1.
    destruct (is_final _).
    + intros [= _ _ <-]. exists new, evs. split_and!; [done | done|]. destruct (Action rule); cbn [length] in *; lia.
    + intros Hm. destruct (IH _ _ _ Hm) as (new' & evs' & -> & Hb' & Hl'). exists (new ++ new'), evs'.
      split_and!; [by rewrite app_assoc | by rewrite concat_app, <- app_assoc, Hb', Hb|]. rewrite length_app. unfold sniff_rules in Hl'. destruct (Action rule); cbn [length] in *; lia.
  - intros Hm. destruct (IH _ _ _ Hm) as (new & evs & -> & Hb & Hl). exists new, evs. split_and!; [done | done|].
    unfold sniff_rules in *. cbn [List.filter]. destruct (is_sniff rule); cbn [length]; lia.
Qed.

(** *** What the outbound reads *)

(** A connection reads as its events bring it, and one with something cached reads that
    first. *)
Record reads {C E A B} (brings : E -> list A) (held : B -> list A) (content : C -> list A) (conn_of : E -> C) (cached : C -> B -> C) : Prop := {
  reads_conn : forall es, content (conn_of es) = brings es;
  reads_cached : forall c b, content (cached c b) = held b ++ content c
}.

Lemma reads_fold {C E A B} (brings : E -> list A) (held : B -> list A) (content : C -> list A) conn_of cached :
  reads brings held content conn_of cached -> forall buffers c, content (foldl cached c buffers) = flat_map held (rev buffers) ++ content c.
Proof.
  intros H buffers. induction buffers as [|b buffers IH]; intros c; [done|]. cbn [foldl rev].
  rewrite IH, (reads_cached _ _ _ _ _ H), flat_map_app. cbn. by rewrite app_nil_r, <- app_assoc.
Qed.

(** The connection in a verdict. *)
Definition conn_in {C} (v : verdict C) : option C := match v with Forwards _ c _ _ | HijacksDNS c _ _ => Some c | _ => None end.

Lemma dispatch_cases {C} mgr network now r hijack (conn : C) m nat (v := dispatch mgr network now r hijack conn m nat) :
  v = hijack \/ (exists tag, v = Forwards tag conn m nat) \/ conn_in v = None.
Proof.
  unfold v, dispatch. destruct (option_map Action r) as [[]|]; cbn; try (destruct (outbound_for _ _ _); [right; left; by eexists | by right; right]).
  - right. right. destruct (Method _); try (destruct (Reject_Error _ _)); done.
  - by left.
Qed.

Lemma flat_singles {A} (l : list A) : flat_map (fun x => [x]) l = l.
Proof. induction l; cbn; congruence. Qed.

Lemma detour_conn {C} mgr m : conn_in (detour (C := C) mgr m) = None.
Proof. unfold detour. destruct (bool_decide (LastInbound m = _)); [done|]. by destruct (injectable mgr _) as [[]|]. Qed.

(** The stream that is handed over: the bytes read by each sniff rule, the last first,
    and those to come. *)
Lemma stream_handed_over {C} mgr content (conn_of : list stream_event -> C) NewCachedConn rules now m events v conn :
  reads bytes_of id content conn_of NewCachedConn ->
  routeConnection net srv lib IsAndroid sniffers mgr conn_of NewCachedConn rules now m events = Returns v -> conn_in v = Some conn ->
  exists buffers rest, concat buffers ++ rest = bytes_of events /\ (length buffers <= sniff_rules rules)%nat /\ content conn = concat (rev buffers) ++ rest.
Proof.
  intros H. assert (content (conn_of events) = concat (rev []) ++ bytes_of events) as Hnone by apply (reads_conn _ _ _ _ _ H).
  unfold routeConnection. destruct (negb _).
  { intros [= <-]. by rewrite detour_conn. }
  destruct (bool_decide _); [by intros [= <-]|]. destruct (_ && _); [intros [= <-] [= <-]; exists [], (bytes_of events); split_and!; [done | cbn; lia | done]|].
  unfold matchRule. destruct (prepareMatchMetadata _ _ _ _) as [m1|]; [|by intros [= <-]].
  destruct (Router.match_loop _ _ _ _ _ _ _ _) as [[|r m2 c]| |] eqn:Hl; cbn [mbind outcome_bind]; [by intros [= <-]| |done..].
  destruct (match_loop_stream _ _ _ _ _ _ _ Hl) as (new & evs & -> & Hb & Hn). cbn [app]. intros [= <-] Hc.
  assert (conn = foldl NewCachedConn (conn_of evs) new) as ->.
  { destruct (dispatch_cases mgr (str "tcp") now r (HijacksDNS (foldl NewCachedConn (conn_of evs) new) [] m2) (foldl NewCachedConn (conn_of evs) new) m2 None)
      as [Hd|[[tag Hd]|Hd]]; rewrite Hd in Hc; cbn in Hc; congruence. }
  exists new, (bytes_of evs). split_and!; [done | done|]. rewrite (reads_fold _ _ _ _ _ H), (reads_conn _ _ _ _ _ H), flat_map_concat_map. by rewrite map_id.
Qed.

(** ** Packets *)

(** The packets that events bring. *)
Definition packets_of (events : list packet_event) : list packet := flat_map (fun e => match e with Arrives p => [p] | _ => [] end) events.

Lemma reading_packets a m ps events m' ps' fatal events' : sniff_reading net sniffers a m ps events = Returns (m', ps', fatal, events') ->
  exists new, ps' = ps ++ new /\ new ++ packets_of events' = packets_of events.
Proof.
  revert m ps. induction events as [|e events IH]; intros m ps; cbn [sniff_reading].
  { intros [= <- <- <- <-]. exists []. by rewrite app_nil_r. }
  destruct e as [p| | |]; try (intros [= <- <- <- <-]; exists []; by rewrite app_nil_r).
  destruct (peek_packet _ _ _ _) as [[sm err]| |]; cbn [mbind outcome_bind]; [|done..]. destruct (is_need_more err).
  - intros Hr. destruct (IH _ _ Hr) as (new & -> & Hn). exists (p :: new). cbn. by rewrite <- app_assoc, Hn.
  - intros [= <- <- <- <-]. by exists [p].
Qed.

(** A first sniff rule takes packets off the connection and keeps them. *)
Lemma sniff_first a m events m' new fatal events' : sniff_packets a m [] events = Returns (m', new, fatal, events') ->
  new ++ packets_of events' = packets_of events.
Proof.
  unfold Router.sniff_packets. repeat (destruct (_ : bool); [by intros [= <- <- <- <-]|]). cbn [sniff_buffered mbind outcome_bind].
  intros Hr. by destruct (reading_packets _ _ _ _ _ _ _ _ Hr) as (l & -> & Hl).
Qed.

Lemma act_other a m c m' c' : act a m c = Returns (Some (m', c')) -> match a with ActionSniff _ => True | _ => c' = c end.
Proof.
  unfold Router.act. destruct a; try (by intros [= _ <-]); [done|]. cbn. destruct (actionResolve _ _ _ _); cbn; [by intros [= _ <-] | done].
Qed.

Lemma match_loop_calm rules m c r m' c' : sniff_rules rules = 0%nat -> match_loop rules m c = Returns (Selected r m' c') -> c' = c.
Proof.
  revert m c. induction rules as [|rule rules IH]; intros m c Hs; cbn [Router.match_loop]; [by intros [= _ _ <-]|].
  unfold sniff_rules in Hs. cbn [List.filter] in Hs. destruct (is_sniff rule) eqn:Hr; [done|].
  destruct (Rules.Match _ _ _ _) as [matched ctx]. destruct matched; cbn [negb]; [|by apply IH].
  destruct (Router.act _ _ _ _ _ _) as [[[m1 c1]|]| |] eqn:Ha; cbn [mbind outcome_bind]; [|done..]. apply act_other in Ha.
  assert (c1 = c) as -> by (unfold is_sniff in Hr; destruct (Action rule); done).
  destruct (is_final _); [by intros [= _ _ <-] | by apply IH].
Qed.

Lemma match_loop_packets rules m events r m' c : (sniff_rules rules <= 1)%nat -> match_loop rules m (Packets [] events) = Returns (Selected r m' c) ->
  exists new events', c = Packets new events' /\ new ++ packets_of events' = packets_of events.
Proof.
  revert m. induction rules as [|rule rules IH]; intros m Hs; cbn [Router.match_loop]; [intros [= _ _ <-]; by exists [], events|].
  unfold sniff_rules in *. cbn [List.filter] in Hs. destruct (Rules.Match _ _ _ _) as [matched ctx].
  destruct matched; cbn [negb]; [|apply IH; destruct (is_sniff rule); cbn [length] in Hs; lia].
  destruct (Router.act _ _ _ _ _ _) as [[[m1 c1]|]| |] eqn:Ha; cbn [mbind outcome_bind]; [|done..].
  destruct (is_sniff rule) eqn:Hr; unfold is_sniff in Hr.
  - destruct (Action rule); try done. cbn [is_final]. intros Hm. apply match_loop_calm in Hm as ->; [|unfold sniff_rules; cbn [length] in Hs; lia].
    revert Ha. unfold Router.act. destruct (Router.sniff_packets _ _ _ _ _ _) as [[[[m2 new] fatal] evs]| |] eqn:Hp; cbn [mbind outcome_bind]; [|done..].
    destruct fatal; [done|]. intros [= _ <-]. apply sniff_first in Hp. by exists new, evs.
  - apply act_other in Ha. assert (c1 = Packets [] events) as -> by (destruct (Action rule); done).
    destruct (is_final _); [intros [= _ _ <-]; by exists [], events | by apply IH].
Qed.

End Props.

(** ** Two sniff rules *)

Definition catch_all : Rules.rule := Rules.Default (Rules.mkItems [] [] [] [] [] []) None false None.

(** The rule that sniffs every connection for the protocols of the names. *)
Definition sniff_rule (s : Sniffers) (names : list text) : option Rule :=
  a ← build s names (mkSniff names [] [] false); Some (mkRule catch_all (ActionSniff a)).

(** A connection that a first sniff rule does not leave alone. *)
Definition unsniffed (m : Meta) : Prop :=
  Skip (Rules.Port (Destination m)) = false /\ Rules.Protocol (facts m) = [] /\ snifferNames m = [] /\ Rules.Client (facts m) = [] /\ SniffContext m = None.

(** What the preparation of the metadata leaves alone. *)
Record kept (P : Meta -> Prop) : Prop := {
  kept_process : forall m x, P m -> P (set_facts (put_process x (facts m)) m);
  kept_mac : forall m x, P m -> P (set_mac x m);
  kept_hostname : forall m x, P m -> P (set_facts (put_hostname x (facts m)) m);
  kept_domain : forall m x, P m -> P (set_facts (put_sniffed (Rules.Protocol (facts m)) x (Rules.Client (facts m)) (facts m)) m);
  kept_fake : forall m x, P m -> P (set_Destination (Rules.mkSocksaddr AllowedIPs.AddrInvalid x (Rules.Port (Destination m))) (set_fake (Destination m) m));
  kept_version : forall m x, P m -> P (set_facts (put_IPVersion x (facts m)) m)
}.

Lemma kept_neighbor P srv m : kept P -> P m -> P (find_neighbor srv m).
Proof.
  intros HP Hm. unfold find_neighbor. destruct (neighbor srv) as [[mac host]|], (SourceMACAddress m); try done. destruct (addr_valid _); [|done].
  destruct (mac _) as [x|], (host _) as [y|]; [apply HP, (kept_mac P HP) | apply (kept_mac P HP) | apply HP | ]; done.
Qed.

Lemma kept_name P srv m m1 : kept P -> P m -> find_name srv m = Some m1 -> P m1.
Proof.
  intros HP Hm. unfold find_name. set (reverse := if bool_decide (Rules.Domain (facts m) = []) then _ else _).
  assert (reverse = Some m1 -> P m1) as Hrev.
  { unfold reverse. destruct (bool_decide _); [|by intros [= <-]]. destruct (LookupReverseMapping _ _); intros [= <-]; [by apply HP | done]. }
  clearbody reverse. destruct (fakeip srv) as [[contains lookup]|]; [|done]. destruct (_ && _); [|done].
  destruct (lookup _) as [domain|]; [|done]. destruct (bool_decide (domain = [])); intros [= <-]; [done | by apply HP].
Qed.

Lemma kept_prepare P net srv lib m m1 : kept P -> prepareMatchMetadata net srv lib m = Some m1 -> P m -> P m1.
Proof.
  intros HP. unfold prepareMatchMetadata. destruct (find_name _ _) as [m2|] eqn:Hf; cbn [mbind option_bind]; [|done]. intros [= <-] Hm.
  assert (P m2) as H2.
  { eapply kept_name; [done | | exact Hf]. apply kept_neighbor; [done|]. unfold searchProcessInfo. destruct (processSearcher srv) as [find|]; [|done].
    destruct (Rules.ProcessInfo _); [done|]. destruct (isLocalSource _ _); [|done]. destruct (find _ _ _); [by apply HP | done]. }
  destruct (IsIPv4 _ _); [by apply (kept_version P HP)|]. destruct (IsIPv6 _ _); [by apply (kept_version P HP) | done].
Qed.

Lemma prepare_unsniffed net srv lib m m1 : prepareMatchMetadata net srv lib m = Some m1 -> unsniffed m -> unsniffed m1.
Proof. apply kept_prepare. by split. Qed.

(** Neither BitTorrent nor SSH. *)
Definition foreign (c : list Z) : Prop := exists b c', c = b :: c' /\ 0 <= b < 256 /\ b <> 19 /\ b <> 83.

Lemma bittorrent_foreign m c r : foreign c -> BitTorrent m (c :: r) = invalid m.
Proof.
  intros (b & c' & -> & Hb & H1 & _). unfold BitTorrent, binary_Read. change (ReadFull 1 ((b :: c') :: r)) with (Some ([b], c' :: r)). cbv iota beta.
  assert (be_uint [b] =? 19 = false) as -> by (apply Z.eqb_neq; cbn; lia). done.
Qed.

Lemma ssh_foreign m c r : foreign c -> SSH m (c :: r) = invalid m.
Proof.
  intros (b & c' & -> & Hb & _ & H1). unfold SSH. cbn [concat app take]. rewrite bool_decide_eq_false_2; [done|]. cbn. intros [= Hx _]. lia.
Qed.

(** A sniff action that gives up at the first bytes, or at the first bytes after those
    read before. *)
Lemma sniff_gives_up net sniffers a m buffers c events sniffer :
  StreamSniffers a = [sniffer] -> Skip (Rules.Port (Destination m)) = false -> Rules.Protocol (facts m) = [] -> snifferNames m <> SnifferNames a ->
  c <> [] -> (forall m', sniffer m' (buffers ++ [c]) = invalid m') ->
  sniff_stream net sniffers a m buffers (Chunk c :: events) = Returns (sniff_done a (sniff_view m) [Failed] m, Some c, events).
Proof.
  intros Ha Hp Hr Hn Hc Hs. unfold sniff_stream, sniff_skipped, failed_before, same_sniffers. rewrite Hp, Hr, Ha. rewrite (bool_decide_eq_false_2 _ Hn).
  cbn [none negb orb andb PeekStream app try_streams]. rewrite Hs. cbn. by destruct c.
Qed.

Lemma match_sniff net srv lib IsAndroid sniffers a rules m c :
  match_loop net srv lib IsAndroid sniffers (mkRule catch_all (ActionSniff a) :: rules) m c =
  (o ← act net srv sniffers (ActionSniff a) (set_context (Rules.ResetRuleCache (context m)) m) c;
   match o with Some (m, c) => match_loop net srv lib IsAndroid sniffers rules m c | None => mret Fatal end).
Proof. done. Qed.

Lemma match_sniff_packets net srv lib IsAndroid sniffers a rules m ps events m' new events' :
  sniff_packets net sniffers a (set_context (Rules.ResetRuleCache (context m)) m) ps events = Returns (m', new, false, events') ->
  match_loop net srv lib IsAndroid sniffers (mkRule catch_all (ActionSniff a) :: rules) m (Packets ps events) =
  match_loop net srv lib IsAndroid sniffers rules m' (Packets (ps ++ new) events').
Proof. intros H. rewrite match_sniff. cbn [act]. by rewrite H. Qed.

(** ** An example *)

(** A client that connects to 192.0.2.1:8443, one outbound, and sniffers that know
    nothing but want more after a packet of less than three bytes. *)
Definition example_net : Net := mkNet (fun d => addr_valid (Rules.Addr d) || negb (bool_decide (Rules.Fqdn d = []))) (fun d => negb (bool_decide (Rules.Fqdn d = [])))
  (fun d => match Rules.Addr d with AllowedIPs.Addr4 _ => true | _ => false end) (fun _ => false) (fun _ => true)
  (fun d => (Rules.Addr d, Rules.Port d)).
Definition example_srv : Services := mkServices None None [] None None (fun _ => None) (fun _ => false) (fun _ _ _ => None).
Definition example_lib : Rules.Library := Rules.mkLibrary (fun _ => true) (fun _ => false) (fun _ => true) AllowedIPs.Addr4 id.
Definition example_mgr : Managers := mkManagers (fun _ => None) (str "direct", [str "tcp"; str "udp"]) (fun _ => None) [].
Definition example_sniffers : Sniffers :=
  mkSniffers (fun m _ => invalid m) (fun m _ => invalid m) (fun m _ => invalid m) (fun m _ => invalid m)
    (fun m p => if (length p <? 3)%nat then need_more m else invalid m) (fun m _ => invalid m).
Definition example_to : Rules.Socksaddr := Rules.mkSocksaddr (AllowedIPs.Addr4 [192; 0; 2; 1]) [] 8443.
Definition example_meta : Meta :=
  mkMeta (Rules.mkContext (Rules.mkFacts (str "tun-in") 0 [] (Rules.mkSocksaddr (AllowedIPs.Addr4 [10; 0; 0; 2]) [] 40000) example_to [] [] [] [] [] [] None
      (fun _ => None) false None [] 0 false) false false 0 false)
    (str "mixed") [] [] None [] [] example_to (Rules.mkSocksaddr AllowedIPs.AddrInvalid [] 0) None false
    (mkDial None [] [] 0 false false 0 false 0 false [] 0).
Definition sniffing (names : list text) : list Rule := match sniff_rule example_sniffers names with Some r => [r] | None => [] end.
Definition example_rules : list Rule := sniffing [str "ssh"; str "quic"].
Definition example_packet : packet := ([1; 2], example_to).
Definition example_prepared : Meta := default example_meta (prepareMatchMetadata example_net example_srv example_lib (set_facts (put_Network (str "tcp") (facts example_meta)) example_meta)).
Definition example_packet2 : packet := ([3; 4; 5], example_to).

(** C37. a stream that is neither BitTorrent nor SSH and meets a rule that sniffs for the
    one and then a rule that sniffs for the other.  Each rule reads from the connection;
    the bytes read last are put in front, so the outbound reads the second segment
    before the first. *)
Theorem second_sniff_reorders net srv lib IsAndroid sniffers mgr {C} content (conn_of : list stream_event -> C) NewCachedConn now m m1 c1 c2 rest rule1 rule2 :
  reads bytes_of id content conn_of NewCachedConn ->
  sniff_rule sniffers [str "bittorrent"] = Some rule1 -> sniff_rule sniffers [str "ssh"] = Some rule2 ->
  InboundDetour m = [] -> Rules.Fqdn (Destination m) ∉ reserved_names mgr -> unsniffed m -> str "tcp" ∈ snd (Default mgr) ->
  prepareMatchMetadata net srv lib (set_facts (put_Network (str "tcp") (facts m)) m) = Some m1 ->
  foreign c1 -> c2 <> [] ->
  exists conn m', routeConnection net srv lib IsAndroid sniffers mgr conn_of NewCachedConn [rule1; rule2] now m (Chunk c1 :: Chunk c2 :: rest) =
    Returns (Forwards (fst (Default mgr)) conn m' None) /\ content conn = c2 ++ c1 ++ bytes_of rest.
Proof.
  intros H [= <-] [= <-] Hd Hf Hu Ht Hm Hc1 Hc2. unfold routeConnection. rewrite bool_decide_eq_true_2 by done. cbn [negb].
  rewrite (bool_decide_eq_false_2 _ Hf). rewrite (bool_decide_eq_false_2 (Rules.Protocol _ = _)) by (destruct Hu as (_ & Hu & _); cbn; rewrite Hu; done).
  rewrite andb_false_r. unfold matchRule. rewrite Hm. apply prepare_unsniffed in Hm as (Hp & Hr & Hn & _); [|done].
  rewrite match_sniff. cbn [act].
  erewrite sniff_gives_up; [|done | done | done | by cbn; rewrite Hn | by destruct Hc1 as (? & ? & -> & _) | intros; by apply bittorrent_foreign].
  cbn [mbind outcome_bind mret outcome_ret app]. rewrite match_sniff. cbn [act].
  erewrite sniff_gives_up; [|done | done | done | done | done | intros; by apply ssh_foreign].
  cbn [mbind outcome_bind mret outcome_ret app match_loop dispatch option_map outbound_for]. rewrite bool_decide_eq_true_2 by done.
  eexists _, _. split; [done|]. rewrite (reads_fold _ _ _ _ _ H), (reads_conn _ _ _ _ _ H). cbn. by rewrite app_nil_r, <- app_assoc.
Qed.

Lemma second_sniff_reorders_witness : exists m',
  routeConnection example_net example_srv example_lib false example_sniffers example_mgr bytes_of (fun c b => b ++ c)
    (sniffing [str "bittorrent"] ++ sniffing [str "ssh"]) 0 example_meta [Chunk (str "GET / "); Chunk (str "HTTP/1.1")] =
  Returns (Forwards (str "direct") (str "HTTP/1.1GET / ") m' None).
Proof.
  edestruct (second_sniff_reorders example_net example_srv example_lib false example_sniffers example_mgr id bytes_of (fun c b => b ++ c) 0 example_meta
    example_prepared (str "GET / ") (str "HTTP/1.1") []) as (conn & m' & Hr & Hc);
    [by split | reflexivity | reflexivity | reflexivity | by_eval | done | by_eval | reflexivity | | done |].
  - exists 71, (str "ET / "). split_and!; [reflexivity | lia..].
  - exists m'. change (id conn) with conn in Hc. rewrite Hc in Hr. exact Hr.
Defined.

(** C18. a router with at most one sniff rule hands a TCP connection over as the client
    sent it: what the outbound (or the DNS handler) reads is the bytes taken for
    sniffing and then those to come, none lost, doubled or moved.  With more sniff rules
    the stream falls into pieces, at most one for each sniff rule, and a rest, and what
    is read is these pieces in the reverse order and then the rest (which bytes are in
    which piece is left open here). *)
Theorem sniffed_stream_intact net srv lib IsAndroid sniffers mgr {C} content (conn_of : list stream_event -> C) NewCachedConn rules now m events v conn :
  reads bytes_of id content conn_of NewCachedConn ->
  routeConnection net srv lib IsAndroid sniffers mgr conn_of NewCachedConn rules now m events = Returns v -> conn_in v = Some conn ->
  exists buffers rest, concat buffers ++ rest = bytes_of events /\ (length buffers <= sniff_rules rules)%nat /\
    content conn = concat (rev buffers) ++ rest /\ ((sniff_rules rules <= 1)%nat -> content conn = bytes_of events).
Proof.
  intros H Hr Hc. destruct (stream_handed_over _ _ _ _ _ _ _ _ _ _ _ _ _ _ _ H Hr Hc) as (buffers & rest & Hb & Hl & Hcont).
  exists buffers, rest. split_and!; [done | done | done|]. intros Hs. rewrite Hcont, <- Hb. destruct buffers as [|b [|]]; [done | done | cbn in *; lia].
Qed.

Lemma sniffed_stream_intact_witness : exists conn m',
  routeConnection example_net example_srv example_lib false example_sniffers example_mgr bytes_of (fun c b => b ++ c) example_rules 0 example_meta
    [Chunk (str "SSH-2"); Chunk (str ".0-go"); Chunk [13; 10]] = Returns (Forwards (str "direct") conn m' None) /\ conn = str "SSH-2.0-go" ++ [13; 10].
Proof.
  eexists _, _. split; [vm_compute; reflexivity|].
  edestruct (sniffed_stream_intact example_net example_srv example_lib false example_sniffers example_mgr id bytes_of (fun c b => b ++ c) example_rules 0 example_meta
    [Chunk (str "SSH-2"); Chunk (str ".0-go"); Chunk [13; 10]]) as (buffers & rest & _ & _ & _ & H);
    [by split | vm_compute; reflexivity | reflexivity | apply H; by_eval].
Defined.

(** C36. with at most one sniff rule no packet of a UDP connection is lost or doubled, but
    the packets read for sniffing are cached one around the other: an outbound reads
    them in the reverse of the order in which they came, and then the rest.  The packets
    read for sniffing ([new]) are those that the matching of the rules, which reads
    them, gives back with what it left unread.  The DNS handler gets them in their
    order. *)
Theorem sniffed_packets_reversed net srv lib IsAndroid sniffers mgr {P} content (conn_of : list packet_event -> P) NewCachedPacketConn rules now m events v :
  reads packets_of (fun p => [p]) content conn_of NewCachedPacketConn -> (sniff_rules rules <= 1)%nat ->
  routePacketConnection net srv lib IsAndroid sniffers mgr conn_of NewCachedPacketConn rules now m events = Returns v ->
  match v with
  | Forwards _ conn _ _ => exists r m' new unread,
      matchRule net srv lib IsAndroid sniffers rules (set_facts (put_Network (str "udp") (facts m)) m) (Packets [] events) =
        Returns (Selected r m' (Packets new unread)) /\
      new ++ packets_of unread = packets_of events /\ content conn = rev new ++ packets_of unread
  | HijacksDNS conn packets _ => packets ++ content conn = packets_of events
  | _ => True
  end.
Proof.
  intros H Hs. unfold routePacketConnection. destruct (negb _).
  { intros [= <-]. pose proof (detour_conn (C := P) mgr m) as Hd. by destruct (detour mgr m). }
  destruct (_ && _); [intros [= <-]; apply (reads_conn _ _ _ _ _ H)|].
  unfold matchRule. destruct (prepareMatchMetadata _ _ _ _) as [m1|]; [|by intros [= <-]].
  destruct (match_loop _ _ _ _ _ _ _ _) as [[|r m2 c]| |] eqn:Hl; cbn [mbind outcome_bind]; [by intros [= <-]| |done..].
  destruct (match_loop_packets _ _ _ _ _ _ _ _ _ _ _ Hs Hl) as (new & evs & -> & Hb). intros [= <-].
  set (cached := foldl NewCachedPacketConn (conn_of evs) new). set (nat := if FakeIP m2 then _ else None).
  destruct (dispatch_cases mgr (str "udp") now r (HijacksDNS (conn_of evs) new m2) cached m2 nat) as [Hd|[[tag Hd]|Hd]].
  - rewrite Hd. by rewrite (reads_conn _ _ _ _ _ H).
  - rewrite Hd. exists r, m2, new, evs. split; [done|]. split; [done|]. unfold cached. rewrite (reads_fold _ _ _ _ _ H), (reads_conn _ _ _ _ _ H).
    by rewrite flat_singles.
  - by destruct (dispatch _ _ _ _ _ _ _ _).
Qed.

Lemma sniffed_packets_reversed_witness : exists m' nat,
  let events := [Arrives example_packet; Arrives example_packet2] in let conn := [example_packet2; example_packet] in
  routePacketConnection example_net example_srv example_lib false example_sniffers example_mgr packets_of (fun c p => p :: c) example_rules 0 example_meta events =
    Returns (Forwards (str "direct") conn m' nat) /\
  exists r m2, matchRule example_net example_srv example_lib false example_sniffers example_rules
      (set_facts (put_Network (str "udp") (facts example_meta)) example_meta) (Packets [] events) =
    Returns (Selected r m2 (Packets [example_packet; example_packet2] [])) /\ conn = rev [example_packet; example_packet2].
Proof.
  pose proof (fun v => sniffed_packets_reversed example_net example_srv example_lib false example_sniffers example_mgr id packets_of (fun c p => p :: c) example_rules 0
    example_meta [Arrives example_packet; Arrives example_packet2] v ltac:(by split) ltac:(by_eval)) as H.
  destruct (routePacketConnection _ _ _ _ _ _ _ _ _ _ _ _) as [v| |] eqn:E; [|vm_compute in E; discriminate E..].
  specialize (H v eq_refl). vm_compute in E. injection E as <-. eexists _, _. split; [reflexivity|].
  destruct H as (r & m2 & new & unread & Hm & _ & Hc). exists r, m2.
  assert (new = [example_packet; example_packet2] /\ unread = []) as [-> ->] by (vm_compute in Hm; by injection Hm).
  by split.
Defined.

End RouterProps.
