(* ===== verification/RouterQuic.v ===== *)
(** * QUIC through the router

    A ClientHello that a client spreads over several QUIC packets, sniffed by the router
    as the packets arrive.  The packets are those of QuicPacket.v, the sniffer is that of
    Sniff.v and the rules run as in Router.v. *)

From S2P Require Import Prelude Bits Bytes GoStrings AllowedIPs Rules TlsFragment QuicInitial QuicProps QuicPacket Masquerade Ja3 Sniff SniffProps Router RouterProps.

Module RouterQuic.

Import TlsFragment Ja3 Sniff SniffProps Router RouterProps.

Local Open Scope Z_scope.

(** What sniffing leaves replaces what it left before. *)
Lemma sniff_done_twice a a' sm sm' e e' m : sniff_done a sm e (sniff_done a' sm' e' m) = sniff_done a sm e m.
Proof. done. Qed.

(** A packet that the only sniffer of a first rule does not know. *)
Lemma sniff_unknown net sniffers a m p events sniffer : PacketSniffers a = [sniffer] -> SnifferNames a <> [] -> unsniffed m ->
  (forall m', sniffer m' (fst p) = invalid m') ->
  sniff_packets net sniffers a m [] (Arrives p :: events) = Returns (sniff_done a (sniff_view m) [Failed] m, [p], false, events).
Proof.
  intros Ha Hnames (Hp & Hr & Hn & _) Hs. unfold sniff_packets, sniff_skipped, failed_before, same_sniffers. rewrite Hp, Hr, Ha, Hn.
  rewrite (bool_decide_eq_false_2 ([] = SnifferNames a)) by congruence. cbn [none negb orb andb sniff_buffered mbind outcome_bind mret outcome_ret sniff_reading].
  unfold peek_packet, quicMoreData, same_sniffers. rewrite Ha, Hn, (bool_decide_eq_false_2 ([] = SnifferNames a)) by congruence.
  cbn [none andb PeekPacket]. by rewrite Hs.
Qed.

Section Hello.

Context (hkdf_Extract : list Z -> list Z -> list Z) (hkdf_Expand : list Z -> list Z -> nat -> list Z)
  (gcm_Seal : list Z -> list Z -> list Z -> list Z -> list Z) (gcm_Open : list Z -> list Z -> list Z -> list Z -> option (list Z))
  (aes_Encrypt : list Z -> list Z -> list Z).
Context (Hprim : QuicPacket.primitives_ok hkdf_Expand gcm_Seal gcm_Open aes_Encrypt).

Local Abbreviation sniffer := (Sniff.QUICClientHello hkdf_Extract hkdf_Expand gcm_Open aes_Encrypt).
Local Abbreviation has_frames := (has_frames hkdf_Extract hkdf_Expand gcm_Open aes_Encrypt).

(** A packet of an Initial, with the frames in it. *)
Definition flight : Type := list (packet * list QuicProps.frame).
Definition pieces_of (f : flight) : list (Z * list Z) := flat_map (fun p => QuicProps.crypto_of (snd p)) f.

(** A flight that carries the message in pieces: in any order, over any of the
    packets, but the last packet has a piece. *)
Record carries (hs : list Z) (f : flight) : Prop := {
  carries_frames : Forall (fun p => has_frames (fst (fst p)) (snd p)) f;
  carries_last : exists f' p, f = f' ++ [p] /\ QuicProps.crypto_of (snd p) <> [];
  carries_pieces : exists ps, pieces_of f ≡ₚ ps /\ QuicProps.assemble 0 ps = Some hs /\ Forall (fun p => snd p <> []) ps
}.

(** The version of QUIC stands where STUN has its cookie. *)
Lemma initial_not_stun packet fs m : has_frames packet fs -> STUNMessage m packet = invalid m.
Proof.
  intros (payload & Hu & Ho & _). destruct (open_parts _ _ _ _ _ _ Ho) as (b0 & dcid & lb & r & -> & Hop).
  pose proof (op_dcid _ _ _ _ _ _ _ _ _ Hop) as Hd. destruct dcid as [|d1 [|d2 dcid]]; [by destruct Hd.. |].
  assert ((b0 :: header_rest (d1 :: d2 :: dcid) lb) ++ r = [b0; 0; 0; 0] ++ [1; len (d1 :: d2 :: dcid); d1; d2] ++ dcid ++ [0; 0] ++ lb ++ r) as Hp.
  { unfold header_rest. cbn [app]. by rewrite <- !app_assoc. }
  rewrite Hp in *. rewrite !list.Forall_app, !list.Forall_cons in Hu. destruct Hu as (_ & (_ & H1 & H2 & H3 & _) & _). unfold is_u in *.
  unfold STUNMessage. destruct (_ <? 20); [done|]. unfold uint32_at.
  rewrite (slice_seam _ [b0; 0; 0; 0] [1; len (d1 :: d2 :: dcid); d1; d2] (dcid ++ [0; 0] ++ lb ++ r)) by done.
  cbn [mbind option_bind]. set (l := len _) in *. unfold be_Uint32. rewrite decide_False by (cbn; lia). rewrite firstn_all2 by done.
  cbn [checked mbind outcome_bind].
  assert (be_uint [1; l; d1; d2] =? 0x2112A442 = false) as -> by (apply Z.eqb_neq; cbn; lia). done.
Qed.

Context (a : RuleActionSniff) (net : Net) (sniffers : Sniffers) (k : nat).
Context (Hquic : QUICClientHello sniffers = sniffer k) (Hsniff : PacketSniffers a = [sniffer k]).

Lemma peek_quic m p : peek_packet sniffers a m p = PeekPacket (sniff_view m) (fst p) [sniffer k] [].
Proof. unfold peek_packet. rewrite Hsniff, Hquic. by destruct (quicMoreData a m). Qed.

Context (h : TlsFragment.ClientHello) (Hok : hello_ok h) (fp : ClientHello).
Context (Hfp : Compute (record_of 0x0303 (len (hello_bytes h)) (hello_bytes h)) = Returns (inr fp)).
Context (ps : list (Z * list Z)) (Hps : QuicProps.assemble 0 ps = Some (hello_bytes h)) (Hfull : Forall (fun p => snd p <> []) ps) (Hk : (length ps < k)%nat).

(** One more packet, with the pieces of those before in the context: something is
    missing still. *)
Lemma peek_partial m p fs missing : has_frames (fst p) fs -> missing <> [] ->
  map frag_of (QuicProps.crypto_of fs) ++ default [] (SniffContext m) ++ map frag_of missing ≡ₚ map frag_of ps ->
  peek_packet sniffers a m p = Returns (mkMetadata (str "quic") (Rules.Domain (facts m)) (Rules.Client (facts m))
    (Some (map frag_of (QuicProps.crypto_of fs) ++ default [] (SniffContext m))), [NeedMoreData]).
Proof.
  intros Hf Hm Hperm. rewrite peek_quic. cbn [PeekPacket].
  by rewrite (packet_partial _ _ gcm_Seal _ _ Hprim h Hok ps Hps Hfull k Hk (fst p) fs Hf (sniff_view m) missing Hperm Hm).
Qed.

(** The last packet. *)
Lemma peek_whole m p fs : has_frames (fst p) fs -> QuicProps.crypto_of fs <> [] -> Rules.Client (facts m) = [] ->
  map frag_of (QuicProps.crypto_of fs) ++ default [] (SniffContext m) ≡ₚ map frag_of ps ->
  exists client, client_of (map type_of fs) fp = Returns client /\
    peek_packet sniffers a m p = Returns (mkMetadata (str "quic") (ServerName fp) (str client) None, []).
Proof.
  intros Hf Hne Hc Hperm. destruct (client_total (map type_of fs) fp) as [client Hcl]; [by destruct fs|]. exists client. split; [done|].
  rewrite peek_quic. cbn [PeekPacket].
  by rewrite (packet_whole _ _ gcm_Seal _ _ Hprim h Hok ps Hps Hfull k Hk (fst p) fs Hf (sniff_view m) fp Hfp Hperm Hc), Hcl.
Qed.

(** What is left to come has a piece. *)
Lemma pieces_left f p fs : QuicProps.crypto_of fs <> [] -> pieces_of (f ++ [(p, fs)]) <> [].
Proof. intros H. unfold pieces_of. rewrite flat_map_app. cbn. rewrite app_nil_r. intros [_ ?]%app_eq_nil. done. Qed.

(** The packets are read up to the last one, and the server name is found there. *)
Lemma reading_hello f p fs m kept events : Forall (fun q => has_frames (fst (fst q)) (snd q)) (f ++ [(p, fs)]) ->
  QuicProps.crypto_of fs <> [] -> Rules.Client (facts m) = [] ->
  map frag_of (pieces_of (f ++ [(p, fs)])) ++ default [] (SniffContext m) ≡ₚ map frag_of ps ->
  exists client, client_of (map type_of fs) fp = Returns client /\
    sniff_reading net sniffers a m kept (map (fun q => Arrives (fst q)) (f ++ [(p, fs)]) ++ events) =
      Returns (sniff_end net a (mkMetadata (str "quic") (ServerName fp) (str client) None) [] m, kept ++ map fst (f ++ [(p, fs)]), false, events).
Proof.
  revert m kept. induction f as [|[q qs] f IH]; intros m kept HF Hne Hc Hperm; cbn [app map sniff_reading] in *.
  - apply list.Forall_cons in HF as [Hp _]. unfold pieces_of in Hperm. cbn in Hperm. rewrite app_nil_r in Hperm.
    destruct (peek_whole m p fs Hp Hne Hc Hperm) as (client & Hcl & Hpk). exists client. split; [done|]. cbn [fst]. by rewrite Hpk.
  - apply list.Forall_cons in HF as [Hq HF]. unfold pieces_of in Hperm. cbn [flat_map snd] in Hperm. fold (pieces_of (f ++ [(p, fs)])) in Hperm.
    rewrite map_app in Hperm. cbn [fst].
    rewrite (peek_partial m q qs (pieces_of (f ++ [(p, fs)])) Hq); [| by apply pieces_left|].
    2: { rewrite <- Hperm, <- app_assoc. apply Permutation_app_head, Permutation_app_comm. }
    cbn [mbind outcome_bind]. change (is_need_more [NeedMoreData]) with true. cbv iota.
    set (m1 := sniff_done _ _ _ m).
    destruct (IH m1 (kept ++ [q])) as (client & Hcl & Hrd); [done | done | done | |].
    { rewrite <- Hperm. cbn. rewrite app_assoc. apply Permutation_app_tail, Permutation_app_comm. }
    exists client. split; [done|]. etransitivity; [exact Hrd|]. cbn [map]. by rewrite <- app_assoc.
Qed.

(** A sniff action that meets the flight with nothing read yet. *)
Lemma sniff_hello f p fs m events : Forall (fun q => has_frames (fst (fst q)) (snd q)) (f ++ [(p, fs)]) -> QuicProps.crypto_of fs <> [] ->
  pieces_of (f ++ [(p, fs)]) ≡ₚ ps -> unsniffed m -> SnifferNames a <> [] ->
  exists client, client_of (map type_of fs) fp = Returns client /\
    sniff_packets net sniffers a m [] (map (fun q => Arrives (fst q)) (f ++ [(p, fs)]) ++ events) =
      Returns (sniff_end net a (mkMetadata (str "quic") (ServerName fp) (str client) None) [] m, map fst (f ++ [(p, fs)]), false, events).
Proof.
  intros HF Hne Hperm (Hp & Hr & Hn & Hc & Hx) Ha.
  destruct (reading_hello f p fs m [] events HF Hne Hc) as (client & Hcl & Hrd); [rewrite Hx; cbn; rewrite app_nil_r; by apply fmap_Permutation|].
  exists client. split; [done|]. unfold sniff_packets, sniff_skipped, failed_before, same_sniffers. rewrite Hp, Hr, Hsniff, Hn.
  rewrite (bool_decide_eq_false_2 ([] = SnifferNames a)) by congruence. exact Hrd.
Qed.

(** The same with the first packet among those read before: it is kept twice. *)
Lemma sniff_hello_again f first firsts p fs m events : Forall (fun q => has_frames (fst (fst q)) (snd q)) ((first, firsts) :: f ++ [(p, fs)]) ->
  QuicProps.crypto_of fs <> [] -> pieces_of ((first, firsts) :: f ++ [(p, fs)]) ≡ₚ ps ->
  Skip (Rules.Port (Destination m)) = false -> Rules.Protocol (facts m) = [] -> snifferNames m <> SnifferNames a ->
  Rules.Client (facts m) = [] -> SniffContext m = None ->
  exists client, client_of (map type_of fs) fp = Returns client /\
    sniff_packets net sniffers a m [first] (map (fun q => Arrives (fst q)) (f ++ [(p, fs)]) ++ events) =
      Returns (sniff_end net a (mkMetadata (str "quic") (ServerName fp) (str client) None) [] m, first :: map fst (f ++ [(p, fs)]), false, events).
Proof.
  intros HF Hne Hperm Hp Hr Hn Hc Hx. apply list.Forall_cons in HF as [Hq HF]. apply (fmap_Permutation frag_of) in Hperm.
  unfold pieces_of in Hperm. cbn [flat_map snd] in Hperm. fold (pieces_of (f ++ [(p, fs)])) in Hperm. rewrite fmap_app in Hperm.
  unfold sniff_packets, sniff_skipped, failed_before, same_sniffers. rewrite Hp, Hr, Hsniff, (bool_decide_eq_false_2 _ Hn).
  cbn [none negb orb andb sniff_buffered].
  rewrite (peek_partial m first firsts (pieces_of (f ++ [(p, fs)])) Hq); [| by apply pieces_left | by rewrite Hx].
  cbn [mbind outcome_bind mret outcome_ret]. change (is_need_more [NeedMoreData]) with true. cbv iota. set (m1 := sniff_done _ _ _ m).
  destruct (reading_hello f p fs m1 [first] events HF Hne Hc) as (client & Hcl & Hrd).
  { rewrite <- Hperm. cbn. rewrite Hx. cbn. rewrite app_nil_r. apply Permutation_app_comm. }
  exists client. split; [done|]. exact Hrd.
Qed.

End Hello.

(** ** An example *)

(** A payload with one short CRYPTO frame, padded. *)
Definition short_payload (off : Z) (d : list Z) (n : nat) : list Z := 6 :: off :: len d :: d ++ repeat 0 n.

Lemma short_frames off d n : 0 <= off < 64 -> len d < 64 ->
  QuicProps.read_frames (length (short_payload off d n)) (short_payload off d n) = Some (QuicProps.Crypto off d :: repeat QuicProps.Padding n).
Proof.
  intros Ho Hd. pose proof (len_nonneg d). set (k := (S (S (length d + n)))%nat).
  pose proof (QuicProps.read_padding k n [] ltac:(cbn; lia)) as Hp. rewrite app_nil_r in Hp.
  assert (length (short_payload off d n) = S k) as -> by (unfold short_payload; cbn [length]; rewrite length_app, repeat_length; lia).
  unfold short_payload. cbn [QuicProps.read_frames Z.eqb Pos.eqb QuicProps.varint]. destruct (Z.ltb_spec off 64); [|lia]. cbn [mbind option_bind].
  cbn [QuicProps.varint]. destruct (Z.ltb_spec (len d) 64); [|lia]. cbn [mbind option_bind]. destruct (Z.ltb_spec (Z.of_nat (length (d ++ repeat 0 n))) (len d)) as [Hl|_].
  { rewrite length_app in Hl. unfold len in Hl. lia. }
  replace (Z.to_nat (len d)) with (length d) by (unfold len; lia).
  rewrite drop_app_length, take_app_length, Hp.
  destruct (k - n)%nat; cbn [mbind option_bind QuicProps.read_frames]; by rewrite app_nil_r.
Qed.

Lemma padding_nothing n : QuicProps.crypto_of (repeat QuicProps.Padding n) = [].
Proof. by induction n. Qed.

(** A message in two packets, the second half of it in the first. *)
Definition split_es : list Extension := [NameOf (str "example.org")].
Definition split_hello : TlsFragment.ClientHello := message 0x0303 (repeat 7 32) [] [0x1301] [0] (map wire split_es).

Lemma split_hello_ok : hello_ok split_hello.
Proof. split; [split; by_eval | reflexivity | reflexivity | reflexivity | by_eval | by_eval | reflexivity]. Qed.

Lemma split_fits : Forall fits split_es.
Proof. unfold split_es. rewrite list.Forall_singleton. cbn [fits]. split_and!; by_eval. Qed.

Lemma short_packet off d : 0 <= off < 64 -> Forall is_u8 d -> len d < 64 -> exists packet fs,
  has_frames Masquerade.toy_Extract Masquerade.toy_Expand Masquerade.toy_Open Masquerade.toy_Encrypt packet fs /\ QuicProps.crypto_of fs = [(off, d)].
Proof.
  intros Ho Hd Hl. set (n := (1212 - length d)%nat). unfold len in Hl.
  assert (Forall is_u8 (short_payload off d n)) as Hu.
  { unfold short_payload. rewrite !list.Forall_cons, list.Forall_app. unfold len. split_and!; [unfold is_u; lia.. | done | apply QuicPacket.zeros_bytes]. }
  destruct (sealed Masquerade.toy_Extract Masquerade.toy_Expand Masquerade.toy_Seal Masquerade.toy_Open Masquerade.toy_Encrypt Masquerade.toy_primitives
    (repeat 7 8) (short_payload off d n)) as (packet & Hp & _ & _ & Hopen); [done | by_eval | done | |].
  { unfold short_payload. cbn [length]. rewrite length_app, repeat_length. lia. }
  exists packet, (QuicProps.Crypto off d :: repeat QuicProps.Padding n). split; [|cbn; by rewrite <- (padding_nothing n)].
  exists (short_payload off d n). split_and!; [done | done | done | by apply short_frames].
Qed.

Lemma split_flight : exists p1 fs1 p2 fs2, let flight := [(p1, fs1); (p2, fs2)] in
  carries Masquerade.toy_Extract Masquerade.toy_Expand Masquerade.toy_Open Masquerade.toy_Encrypt (hello_bytes split_hello) flight /\ (length (pieces_of flight) < 3)%nat.
Proof.
  destruct (short_packet 40 (drop 40 (hello_bytes split_hello))) as (p1 & fs1 & H1 & E1); [lia | by_eval | by_eval|].
  destruct (short_packet 0 (take 40 (hello_bytes split_hello))) as (p2 & fs2 & H2 & E2); [lia | by_eval | by_eval|].
  exists (p1, example_to), fs1, (p2, example_to), fs2. cbv zeta.
  assert (pieces_of [(p1, example_to, fs1); (p2, example_to, fs2)] = [(40, drop 40 (hello_bytes split_hello)); (0, take 40 (hello_bytes split_hello))]) as Hps
    by (unfold pieces_of; cbn [flat_map snd]; by rewrite E1, E2). split; [split|exact (Nat.eq_le_incl _ _ (f_equal (S ∘ length) Hps))].
  - rewrite !list.Forall_cons. done.
  - exists [(p1, example_to, fs1)], (p2, example_to, fs2). split; [done|]. cbn [snd]. by rewrite E2.
  - exists [(0, take 40 (hello_bytes split_hello)); (40, drop 40 (hello_bytes split_hello))]. split_and!; [exact (Permutation_trans (Permutation_refl' Hps) (Permutation_swap _ _ _)) | by vm_compute|].
    rewrite !list.Forall_cons. split_and!; [by_eval.. | done].
Qed.

Definition quic_sniffers : Sniffers :=
  mkSniffers (TLSClientHello example_sniffers) (HTTPHost example_sniffers) (StreamDomainNameQuery example_sniffers) (RDP example_sniffers)
    (Sniff.QUICClientHello Masquerade.toy_Extract Masquerade.toy_Expand Masquerade.toy_Open Masquerade.toy_Encrypt 3) (DomainNameQuery example_sniffers).

(** ** Properties *)

(** What the router knows of a connection after the ClientHello. *)
Definition knows_hello (name client : list Z) (m m' : Meta) : Prop :=
  Rules.Protocol (facts m') = str "quic" /\ Rules.Domain (facts m') = name /\ Rules.Client (facts m') = client /\
  Destination m' = Destination m /\ SniffContext m' = None /\ SniffError m' = [].

(** C17. a rule that sniffs for QUIC recognises a ClientHello that a client spreads over
    several Initial packets.  Whatever the order of the pieces and the packets they are
    in, the rule reads up to the packet that completes the message and no further, keeps
    these packets in their order, and the rules after it match with the protocol and the
    server name of the message.  Needed: nothing has been sniffed of the connection
    before, the last packet of the flight has a piece, and
    there are more rounds for putting pieces together than pieces. *)
Theorem quic_hello_across_packets hkdf_Extract hkdf_Expand gcm_Seal gcm_Open aes_Encrypt net srv lib IsAndroid sniffers k rule rules
    v random sessionID suites compression es flight m events :
  QuicPacket.primitives_ok hkdf_Expand gcm_Seal gcm_Open aes_Encrypt ->
  QUICClientHello sniffers = Sniff.QUICClientHello hkdf_Extract hkdf_Expand gcm_Open aes_Encrypt k ->
  sniff_rule sniffers [str "quic"] = Some rule ->
  let hello := message v random sessionID suites compression (map wire es) in
  hello_ok hello -> Forall is_u16 suites -> Forall fits es ->
  carries hkdf_Extract hkdf_Expand gcm_Open aes_Encrypt (hello_bytes hello) flight -> (length (pieces_of flight) < k)%nat ->
  unsniffed m ->
  exists client m', knows_hello (ServerName (fingerprint v suites es)) client m m' /\
    match_loop net srv lib IsAndroid sniffers (rule :: rules) m (Packets [] (map (fun q => Arrives (fst q)) flight ++ events)) =
    match_loop net srv lib IsAndroid sniffers rules m' (Packets (map fst flight) events).
Proof.
  intros Hprim Hq [= <-] hello Hok Hs HF [Hfr (f & [p fs] & -> & Hne) (ps & Hperm & Hps & Hfull)] Hk Hu.
  pose proof (reads_message 0x0303 v random sessionID suites compression es Hok Hs HF ltac:(lia)) as Hfp. fold hello in Hfp.
  rewrite (Permutation_length Hperm) in Hk. set (a := mkSniff _ _ _ _). set (m0 := set_context (Rules.ResetRuleCache (context m)) m).
  destruct (sniff_hello _ _ _ _ _ Hprim a net sniffers k Hq ltac:(by subst a; cbn; rewrite Hq) hello Hok _ Hfp ps Hps Hfull Hk f p fs m0 events Hfr Hne Hperm Hu
    ltac:(done)) as (client & _ & Hr).
  eexists (str client), _. split; [|exact (match_sniff_packets net srv lib IsAndroid sniffers a rules m [] _ _ _ _ Hr)]. done.
Qed.

Lemma quic_hello_across_packets_witness : exists p1 p2 rule client m',
  sniff_rule quic_sniffers [str "quic"] = Some rule /\ knows_hello (str "example.org") client example_meta m' /\
  match_loop example_net example_srv example_lib false quic_sniffers [rule] example_meta (Packets [] [Arrives p1; Arrives p2; TimesOut]) =
    Returns (Selected None m' (Packets [p1; p2] [TimesOut])).
Proof.
  destruct split_flight as (p1 & fs1 & p2 & fs2 & Hf & Hn).
  edestruct (quic_hello_across_packets _ _ Masquerade.toy_Seal _ _ example_net example_srv example_lib false quic_sniffers 3 _ [] 0x0303 (repeat 7 32) [] [0x1301] [0]
    split_es [(p1, fs1); (p2, fs2)] example_meta [TimesOut] Masquerade.toy_primitives eq_refl eq_refl split_hello_ok ltac:(by_eval) split_fits Hf Hn
    ltac:(by_eval)) as (client & m' & Hk & Hr).
  exists p1, p2. eexists _, client, m'. split; [reflexivity|]. split; [exact Hk | exact Hr].
Defined.

(** C38. a flight of at least two packets that meets a rule that sniffs for STUN and then
    one that sniffs for QUIC.  The first rule takes the first packet off the connection;
    the second starts from it and returns it with those it reads itself, and the router
    appends what a rule returns to what it has: the buffer of the first packet is in the
    list twice when the connection is handed over. *)
Theorem second_sniff_duplicates hkdf_Extract hkdf_Expand gcm_Seal gcm_Open aes_Encrypt net srv lib IsAndroid sniffers k rule1 rule2
    v random sessionID suites compression es first firsts f p fs m m1 events :
  QuicPacket.primitives_ok hkdf_Expand gcm_Seal gcm_Open aes_Encrypt ->
  QUICClientHello sniffers = Sniff.QUICClientHello hkdf_Extract hkdf_Expand gcm_Open aes_Encrypt k ->
  sniff_rule sniffers [str "stun"] = Some rule1 -> sniff_rule sniffers [str "quic"] = Some rule2 ->
  let hello := message v random sessionID suites compression (map wire es) in let flight := (first, firsts) :: f ++ [(p, fs)] in
  hello_ok hello -> Forall is_u16 suites -> Forall fits es ->
  carries hkdf_Extract hkdf_Expand gcm_Open aes_Encrypt (hello_bytes hello) flight -> (length (pieces_of flight) < k)%nat ->
  unsniffed m -> prepareMatchMetadata net srv lib m = Some m1 ->
  exists client m', knows_hello (ServerName (fingerprint v suites es)) client m1 m' /\
    matchRule net srv lib IsAndroid sniffers [rule1; rule2] m (Packets [] (map (fun q => Arrives (fst q)) flight ++ events)) =
    Returns (Selected None m' (Packets (first :: map fst flight) events)).
Proof.
  intros Hprim Hq [= <-] [= <-] hello flight Hok Hs HF [Hfr (f' & p' & Hl & Hne) (ps & Hperm & Hps & Hfull)] Hk Hu Hm.
  assert (p' = (p, fs)) as ->.
  { unfold flight in Hl. rewrite app_comm_cons in Hl. by apply app_inj_tail in Hl as [_ <-]. }
  pose proof (reads_message 0x0303 v random sessionID suites compression es Hok Hs HF ltac:(lia)) as Hfp. fold hello in Hfp.
  rewrite (Permutation_length Hperm) in Hk. unfold matchRule. rewrite Hm. apply prepare_unsniffed in Hm as Hu1; [|done].
  pose proof Hu1 as (Hp & Hr & Hn & Hc & Hx). apply list.Forall_cons in Hfr as Hfirst. destruct Hfirst as [Hfirst _].
  erewrite (match_sniff_packets net srv lib IsAndroid sniffers _ _ m1 []); [|cbn [map app fst flight]; eapply sniff_unknown;
    [reflexivity | done | exact Hu1 | intros m'; by eapply initial_not_stun]].
  set (m3 := sniff_done _ _ _ _).
  destruct (sniff_hello_again _ _ _ _ _ Hprim (mkSniff [str "quic"] [] [QUICClientHello sniffers] false) net sniffers k Hq ltac:(by cbn; rewrite Hq) hello Hok _ Hfp
    ps Hps Hfull Hk f first firsts p fs (set_context (Rules.ResetRuleCache (context m3)) m3) events Hfr Hne Hperm Hp Hr ltac:(done) Hc Hx) as (client & _ & Hr2).
  cbn [app]. erewrite (match_sniff_packets net srv lib IsAndroid sniffers _ _ m3 [first]); [|exact Hr2].
  eexists (str client), _. split; [|reflexivity]. unfold knows_hello. split_and!; done.
Qed.

Lemma second_sniff_duplicates_witness : exists p1 p2 rule1 rule2 m',
  sniff_rule quic_sniffers [str "stun"] = Some rule1 /\ sniff_rule quic_sniffers [str "quic"] = Some rule2 /\
  matchRule example_net example_srv example_lib false quic_sniffers [rule1; rule2] example_meta (Packets [] [Arrives p1; Arrives p2]) =
    Returns (Selected None m' (Packets [p1; p1; p2] [])).
Proof.
  destruct split_flight as (p1 & fs1 & p2 & fs2 & Hf & Hn).
  edestruct (second_sniff_duplicates _ _ Masquerade.toy_Seal _ _ example_net example_srv example_lib false quic_sniffers 3 _ _ 0x0303 (repeat 7 32) [] [0x1301] [0]
    split_es p1 fs1 [] p2 fs2 example_meta _ [] Masquerade.toy_primitives eq_refl eq_refl eq_refl split_hello_ok ltac:(by_eval) split_fits Hf Hn
    ltac:(by_eval) eq_refl) as (client & m' & Hk & Hr).
  exists p1, p2. eexists _, _, m'. split; [reflexivity|]. split; [reflexivity | exact Hr].
Defined.

End RouterQuic.
