(* ===== verification/PreMatch.v ===== *)
(** * Judging a flow by its first packet

    Models [PreMatch] and [preMatchFlow] of route/route.go and [JudgeFlow] of
    adapter/router.go: before a TUN device opens a connection, the router goes through
    the rules with the first packet at hand, and an outbound that forwards packets may
    take the whole flow. *)

From S2P Require Import Prelude Bits Bytes GoStrings AllowedIPs Rules TlsFragment Sniff Router.

Module PreMatch.

Import TlsFragment Sniff Router.

Local Open Scope Z_scope.

#[local] Existing Instance AllowedIPs.addr_eq_dec.

#[export] Instance Socksaddr_eq_dec : EqDecision Rules.Socksaddr.
Proof. solve_decision. Defined.

Inductive PreMatchAction := PreMatchContinue | PreMatchFlow | PreMatchReject | PreMatchDrop | PreMatchBypass | PreMatchHijackDNS.

#[export] Instance PreMatchAction_eq_dec : EqDecision PreMatchAction.
Proof. solve_decision. Defined.

(** An outbound: a group has a selected member; one that takes flows says what it does
    with a network and a destination. *)
Record outbound := mkOutbound {
  Tag : text;
  Network : list text;
  Now : option text;
  judge : option (text -> AllowedIPs.addr -> PreMatchAction);
  is_port : bool
}.

Record Outbounds := mkOutbounds {
  find_outbound : text -> option outbound;
  default_outbound : outbound
}.

(** The trackers, which log, are left out; a zero address and port is [None]. *)
Record PreMatchResult := mkResult {
  action : PreMatchAction;
  via : option outbound;
  to : option (AllowedIPs.addr * Z);
  timeout : Z
}.

Definition plain (a : PreMatchAction) : PreMatchResult := mkResult a None None 0.

(** constant/timeout.go *)
Definition PortProtocols (port : Z) : text :=
  if port =? 53 then str "dns" else if port =? 123 then str "ntp" else if port =? 3478 then str "stun" else if port =? 443 then str "quic" else [].

Definition ProtocolTimeouts (protocol : text) : Z :=
  if bool_decide (protocol ∈ [str "dns"; str "ntp"; str "stun"]) then seconds 10
  else if bool_decide (protocol ∈ [str "quic"; str "dtls"]) then seconds 30
  else 0.

(** [netip.Addr.Is4] *)
Definition Is4 (a : AllowedIPs.addr) : bool := match a with AllowedIPs.Addr4 _ => true | _ => false end.

Section PreMatch.

Context (net : Net) (srv : Services) (lib : Rules.Library) (IsAndroid : bool) (sniffers : Sniffers) (outs : Outbounds).

(** The member of a group, through at most [n] groups. *)
Fixpoint member (n : nat) (o : outbound) : option outbound :=
  match n, Now o with
  | S n, Some now => match find_outbound outs now with Some o => member n o | None => None end
  | _, _ => Some o
  end.

Definition flow_timeout (m : Meta) : Z :=
  if bool_decide (Rules.Network (facts m) = str "udp") then
    if 0 <? UDPTimeout (dialOptions m) then UDPTimeout (dialOptions m)
    else
      let protocol := if bool_decide (Rules.Protocol (facts m) = []) then PortProtocols (Rules.Port (Destination m)) else Rules.Protocol (facts m) in
      if bool_decide (protocol = []) then 0 else ProtocolTimeouts protocol
  else 0.

(** What an outbound that takes flows does with this one. *)
Definition judge_flow (o : outbound) (PreMatchFlow_ : text -> AllowedIPs.addr -> PreMatchAction) (m : Meta) (packetDestination : Rules.Socksaddr) : PreMatchResult :=
  let network := Rules.Network (facts m) in
  let flowAction := PreMatchFlow_ network (Rules.Addr (Destination m)) in
  if negb (bool_decide (flowAction = PreMatchFlow)) then mkResult flowAction (Some o) None 0
  else
    let result to := mkResult PreMatchFlow (Some o) to (flow_timeout m) in
    if IsDomain net (Destination m) then
      if negb (FakeIP m) then plain PreMatchContinue
      else
        match List.find (fun a => eqb (Is4 a) (IsIPv4 net packetDestination)) (Rules.DestinationAddresses (facts m)) with
        | Some newDestination =>
            if addr_valid newDestination then
              let flowAction := PreMatchFlow_ network newDestination in
              if negb (bool_decide (flowAction = PreMatchFlow)) then mkResult flowAction (Some o) None 0
              else result (Some (newDestination, Rules.Port (Destination m)))
            else plain PreMatchReject
        | None => plain PreMatchReject
        end
    else if negb (bool_decide (Destination m = packetDestination)) then result (Some (AddrPort net (Destination m)))
    else result None.

Definition preMatchFlow (m : Meta) (packetDestination : Rules.Socksaddr) (outboundTag : text) : PreMatchResult :=
  match (if bool_decide (outboundTag = []) then Some (default_outbound outs) else find_outbound outs outboundTag) ≫= member 8 with
  | None => plain PreMatchContinue
  | Some o =>
      if negb (bool_decide (Rules.Network (facts m) ∈ Network o)) then plain PreMatchContinue
      else
        match judge o with
        | None => plain PreMatchContinue
        | Some PreMatchFlow_ => judge_flow o PreMatchFlow_ m packetDestination
        end
  end.

(** The sniff action on the first packet; [None] leaves the flow to the router. *)
Definition pre_sniff (a : RuleActionSniff) (m : Meta) (firstPacket : list Z) : outcome (option Meta) :=
  let network := Rules.Network (facts m) in
  if bool_decide (network = str "icmp") then mret (Some m)
  else if negb (bool_decide (network = str "udp")) || none firstPacket then mret None
  else if sniff_skipped m then mret (Some m)
  else if none (PacketSniffers a) && negb (none (StreamSniffers a)) then mret (Some m)
  else if same_sniffers a m && negb (bool_decide (SniffError m = [])) then mret (Some m)
  else
    let packetSniffers := if none (PacketSniffers a) then defaultPacketSniffers sniffers else PacketSniffers a in
    '(sm, sniffErr) ← PeekPacket (sniff_view m) firstPacket packetSniffers [];
    if is_need_more sniffErr then mret None else mret (Some (sniff_end net a sm sniffErr m)).

(** A bypass: past the program, or by an outbound that takes the flow as it is. *)
Definition pre_bypass (outboundTag : text) (m : Meta) (packetDestination : Rules.Socksaddr) : PreMatchResult :=
  let changed := IsDomain net (Destination m) || negb (bool_decide (Destination m = packetDestination)) in
  if bool_decide (outboundTag = []) then if changed then plain PreMatchContinue else plain PreMatchBypass
  else
    let result := preMatchFlow m packetDestination outboundTag in
    if changed then result
    else if negb (bool_decide (action result = PreMatchFlow)) then plain PreMatchBypass
    else mkResult PreMatchBypass (via result) (to result) (timeout result).

Definition pre_reject (e : option reject_error) (m : Meta) : PreMatchResult :=
  match e with
  | None => plain (if bool_decide (Rules.Network (facts m) = str "icmp") then PreMatchContinue else PreMatchReject)
  | Some ErrDrop => plain PreMatchDrop
  | Some ErrReset => plain PreMatchReject
  end.

(** The loop over the rules; with the result, the reject action whose counter has been
    updated. *)
Fixpoint pre_loop (rules : list Rule) (now : Z) (m : Meta) (firstPacket : list Z) (packetDestination : Rules.Socksaddr) :
    outcome (PreMatchResult * option RuleActionReject) :=
  match rules with
  | [] => mret (preMatchFlow m packetDestination [], None)
  | r :: rules =>
      let '(matched, ctx) := Rules.Match lib IsAndroid (condition r) (Rules.ResetRuleCache (context m)) in
      let m := set_context ctx m in
      if negb matched then pre_loop rules now m firstPacket packetDestination
      else
        match Action r with
        | ActionSniff a =>
            o ← pre_sniff a m firstPacket;
            match o with
            | None => mret (plain PreMatchContinue, None)
            | Some m => pre_loop rules now m firstPacket packetDestination
            end
        | ActionRouteOptions o => pre_loop rules now (applyRouteOptionsOverride net o m) firstPacket packetDestination
        | ActionRoute outboundTag o => mret (preMatchFlow (applyRouteOptionsOverride net o m) packetDestination outboundTag, None)
        | ActionBypass outboundTag o => mret (pre_bypass outboundTag (applyRouteOptionsOverride net o m) packetDestination, None)
        | ActionReject a => let '(e, a) := Reject_Error a now in mret (pre_reject e m, Some a)
        | ActionHijackDNS => mret (plain (if bool_decide (Rules.Network (facts m) = str "udp") then PreMatchHijackDNS else PreMatchContinue), None)
        | ActionResolve a =>
            match actionResolve net srv a m with
            | None => mret (plain PreMatchReject, None)
            | Some m => pre_loop rules now m firstPacket packetDestination
            end
        | ActionDirect => mret (plain PreMatchContinue, None)
        end
  end.

Definition PreMatch (rules : list Rule) (now : Z) (m : Meta) (firstPacket : list Z) : outcome (PreMatchResult * option RuleActionReject) :=
  match prepareMatchMetadata net srv lib (set_PreMatch true m) with
  | None => mret (plain PreMatchContinue, None)
  | Some m' => pre_loop rules now m' firstPacket (Destination m)
  end.

(** *** The verdict for the TUN device *)

Inductive FlowAction := ActionAccept | ActionFlow | ActionReject_ | ActionDrop | ActionBypass_ | ActionHijackDNS_.

Record FlowVerdict := mkVerdict {
  flow : FlowAction;
  port : option outbound;
  destination : option (AllowedIPs.addr * Z);
  udp_timeout : Z
}.

Definition bare (a : FlowAction) : FlowVerdict := mkVerdict a None None 0.

(** Numbers of protocols (IANA). *)
Definition TCPProtocolNumber : Z := 6.
Definition UDPProtocolNumber : Z := 17.
Definition ICMPv4ProtocolNumber : Z := 1.
Definition ICMPv6ProtocolNumber : Z := 58.

Definition network_name (network : Z) : option text :=
  if network =? TCPProtocolNumber then Some (str "tcp")
  else if network =? UDPProtocolNumber then Some (str "udp")
  else if (network =? ICMPv4ProtocolNumber) || (network =? ICMPv6ProtocolNumber) then Some (str "icmp")
  else None.

Definition verdict_of (networkName : text) (destination : AllowedIPs.addr * Z) (result : PreMatchResult) : FlowVerdict :=
  let port_of o := match o with Some o => if is_port o then Some o else None | None => None end in
  match action result with
  | PreMatchFlow =>
      match port_of (via result) with
      | None => bare ActionAccept
      | Some port =>
          mkVerdict ActionFlow (Some port)
            (match to result with
             | Some (a, p) => if addr_valid a then Some (a, if bool_decide (networkName = str "icmp") then snd destination else p) else None
             | None => None
             end) (timeout result)
      end
  | PreMatchReject => bare ActionReject_
  | PreMatchDrop => bare ActionDrop
  | PreMatchBypass =>
      match port_of (via result) with
      | None => bare ActionBypass_
      | Some port => mkVerdict ActionBypass_ (Some port) None (timeout result)
      end
  | PreMatchHijackDNS => bare ActionHijackDNS_
  | PreMatchContinue => bare ActionAccept
  end.

(** The metadata of a new flow. *)
Definition no_addr : Rules.Socksaddr := Rules.mkSocksaddr AllowedIPs.AddrInvalid [] 0.
Definition flow_meta (inbound inboundType networkName : text) (source destination : Rules.Socksaddr) : Meta :=
  mkMeta (Rules.mkContext (Rules.mkFacts inbound 0 networkName source destination [] [] [] [] [] [] None (fun _ => None) false None [] 0 false) false false 0 false)
    inboundType [] [] None [] [] no_addr no_addr None false (mkDial None [] [] 0 false false 0 false 0 false [] 0).

(** [SocksaddrFromNetIP] is of the sing library. *)
Definition JudgeFlow (SocksaddrFromNetIP : AllowedIPs.addr * Z -> Rules.Socksaddr) (rules : list Rule) (now : Z) (inbound inboundType : text) (network : Z)
    (source destination : AllowedIPs.addr * Z) (firstPacket : list Z) : outcome (FlowVerdict * option RuleActionReject) :=
  match network_name network with
  | None => mret (bare ActionAccept, None)
  | Some networkName =>
      let addr s := let a := SocksaddrFromNetIP s in if bool_decide (networkName = str "icmp") then Rules.mkSocksaddr (Rules.Addr a) (Rules.Fqdn a) 0 else a in
      '(result, rejecting) ← PreMatch rules now (flow_meta inbound inboundType networkName (addr source) (addr destination)) firstPacket;
      mret (verdict_of networkName destination result, rejecting)
  end.

End PreMatch.

End PreMatch.
