(* ===== verification/PreMatchProps.v ===== *)
(** * The judgement of a flow and the router agree

    What [PreMatch] says of a flow from its first packet is what the router comes to
    when the flow is handed to it as a connection. *)

From S2P Require Import Prelude Bits Bytes GoStrings AllowedIPs Rules RulesProps TlsFragment Sniff Router RouterProps PreMatch.

Module PreMatchProps.

Import TlsFragment Sniff Router RouterProps PreMatch.

Local Open Scope Z_scope.

(** The router notes options that the judgement leaves alone, and does not have its
    mark. *)
Definition dressed (o : Rules.Socksaddr) (d : DialOptions) (m : Meta) : Meta := set_dial d (set_original o (set_PreMatch false m)).

(** The mark does not show: neither in the answers of the DNS router nor in those of
    the outbounds that rules ask for preferred routes. *)
Record unmarked (srv : Services) (rules : list Rule) : Prop := {
  unmarked_lookup : forall f b name a, Lookup srv (Rules.with_PreMatch f b) name a = Lookup srv f name a;
  unmarked_rules : Forall (fun r => RulesProps.blind (condition r)) rules
}.

(** The preparation of the metadata does not read the mark. *)
Lemma prepare_marked net srv lib b m : prepareMatchMetadata net srv lib (set_PreMatch b m) = option_map (set_PreMatch b) (prepareMatchMetadata net srv lib m).
Proof.
  unfold prepareMatchMetadata.
  assert (searchProcessInfo net srv lib (set_PreMatch b m) = set_PreMatch b (searchProcessInfo net srv lib m)) as ->.
  { unfold searchProcessInfo. change (Rules.ProcessInfo (facts (set_PreMatch b m))) with (Rules.ProcessInfo (facts m)).
    destruct (processSearcher srv) as [find|]; [|done]. destruct (Rules.ProcessInfo _); [done|].
    change (Rules.Source (facts (set_PreMatch b m))) with (Rules.Source (facts m)). destruct (isLocalSource _ _); [|done].
    change (OriginDestination (set_PreMatch b m)) with (OriginDestination m). change (Destination (set_PreMatch b m)) with (Destination m).
    change (Rules.Network (facts (set_PreMatch b m))) with (Rules.Network (facts m)). by destruct (find _ _ _). }
  generalize (searchProcessInfo net srv lib m). clear m. intros m.
  assert (find_neighbor srv (set_PreMatch b m) = set_PreMatch b (find_neighbor srv m)) as ->.
  { unfold find_neighbor. change (SourceMACAddress (set_PreMatch b m)) with (SourceMACAddress m).
    change (Rules.Source (facts (set_PreMatch b m))) with (Rules.Source (facts m)).
    destruct (neighbor srv) as [[mac host]|], (SourceMACAddress m); try done. destruct (addr_valid _); [|done]. by destruct (mac _), (host _). }
  generalize (find_neighbor srv m). clear m. intros m.
  assert (find_name srv (set_PreMatch b m) = option_map (set_PreMatch b) (find_name srv m)) as ->.
  { unfold find_name. change (Destination (set_PreMatch b m)) with (Destination m). change (Rules.Domain (facts (set_PreMatch b m))) with (Rules.Domain (facts m)).
    destruct (fakeip srv) as [[contains lookup]|];
      [destruct (_ && _); [destruct (lookup _) as [domain|]; [by destruct (bool_decide (domain = [])) | done]|]|];
      (destruct (bool_decide _); [by destruct (LookupReverseMapping _ _) | done]). }
  destruct (find_name srv m) as [m1|]; [|done]. cbn [option_map mbind option_bind]. f_equal.
  change (Destination (set_PreMatch b m1)) with (Destination m1). by destruct (IsIPv4 net (Destination m1)), (IsIPv6 net (Destination m1)).
Qed.

Section Props.

Context (net : Net) (srv : Services) (lib : Rules.Library) (IsAndroid : bool) (sniffers : Sniffers) (outs : Outbounds).
Context (Hlookup : forall f b name a, Lookup srv (Rules.with_PreMatch f b) name a = Lookup srv f name a).

Lemma sniff_end_dressed a sm e o d m : sniff_end net a sm e (dressed o d m) = dressed o d (sniff_end net a sm e m).
Proof. unfold sniff_end. destruct (bool_decide _); [|done]. unfold override_destination. by destruct (_ && _). Qed.

Lemma sniff_end_error a sm e m : SniffError (sniff_end net a sm e m) = e.
Proof. unfold sniff_end. destruct (bool_decide (e = [])); [|done]. unfold override_destination. by destruct (_ && _). Qed.

Lemma actionResolve_dressed a o d m : actionResolve net srv a (dressed o d m) = option_map (dressed o d) (actionResolve net srv a m).
Proof.
  unfold actionResolve. change (Destination (dressed o d m)) with (Destination m). change (facts (dressed o d m)) with (Rules.with_PreMatch (facts m) false).
  destruct (IsDomain _ _); [|done]. destruct (_ && _); [done|]. rewrite Hlookup. by destruct (Lookup _ _ _ _).
Qed.

(** With no addresses to forget, options have the same effect on both sides. *)
Lemma options_dressed x o d m : (IsValid net (OverrideAddress x) = true -> Rules.DestinationAddresses (facts m) = []) ->
  UDPTimeout d = UDPTimeout (dialOptions m) ->
  exists o' d', apply_options net x (dressed o d m) = dressed o' d' (applyRouteOptionsOverride net x m) /\
    UDPTimeout d' = UDPTimeout (dialOptions (applyRouteOptionsOverride net x m)).
Proof.
  intros Ha Hd. unfold apply_options. set (m1 := if _ && _ then _ else dressed o d m).
  assert (exists o1, m1 = dressed o1 d m) as [o1 ->] by (unfold m1; destruct (_ && _); by eexists).
  assert ((if IsValid net (OverrideAddress x) then set_facts (put_addresses [] (facts (dressed o1 d m))) (dressed o1 d m) else dressed o1 d m) = dressed o1 d m) as ->.
  { destruct (IsValid net (OverrideAddress x)); [|done]. specialize (Ha eq_refl). destruct m as [[[] ? ? ? ?]]. cbn in *. by subst. }
  unfold applyRouteOptionsOverride, merge_dial. destruct (IsValid _ _), (0 <? OverridePort _), (0 <? UDPTimeout (dial x));
    (eexists _, _; split; [reflexivity | done]).
Qed.

(** *** Sniffing the first packet *)

Context (firstPacket : list Z) (from : Rules.Socksaddr) (events : list packet_event).

(** The connection of the flow: its first packet is still to be read, or has been. *)
Definition ready (c : input) : Prop := c = Packets [] (Arrives (firstPacket, from) :: events) \/ c = Packets [(firstPacket, from)] events.

Lemma peek_dressed a o d m : is_need_more (SniffError m) = false ->
  peek_packet sniffers a (dressed o d m) (firstPacket, from) =
  PeekPacket (sniff_view m) firstPacket (if none (PacketSniffers a) then defaultPacketSniffers sniffers else PacketSniffers a) [].
Proof. intros Hn. unfold peek_packet, quicMoreData. change (SniffError (dressed o d m)) with (SniffError m). rewrite Hn, andb_false_r. done. Qed.

Lemma sniff_agrees a o d m m1 c : ready c -> is_need_more (SniffError m) = false -> Rules.Network (facts m) = str "udp" ->
  pre_sniff net sniffers a m firstPacket = Returns (Some m1) ->
  exists c', act net srv sniffers (ActionSniff a) (dressed o d m) c = Returns (Some (dressed o d m1, c')) /\ ready c' /\ is_need_more (SniffError m1) = false.
Proof.
  intros Hc Hn Hu. unfold pre_sniff. rewrite Hu. change (bool_decide (str "udp" = str "icmp")) with false. change (negb (bool_decide (str "udp" = str "udp"))) with false.
  cbv iota. cbn [orb]. destruct (none firstPacket); [done|].
  assert (forall cond : bool, failed_before a (dressed o d m) = cond -> same_sniffers a m && negb (bool_decide (SniffError m = [])) = cond) as Hfail.
  { intros cond <-. unfold failed_before. change (SniffError (dressed o d m)) with (SniffError m). rewrite Hn, andb_true_r. done. }
  destruct (sniff_skipped m) eqn:H1; [intros [= <-] | destruct (none (PacketSniffers a) && negb (none (StreamSniffers a))) eqn:H2; [intros [= <-] |
    rewrite (Hfail _ eq_refl); destruct (failed_before a (dressed o d m)) eqn:H3; [intros [= <-]|]]].
  all: try (exists c; split_and!; [|done | done]; destruct Hc as [-> | ->]; cbn [act]; unfold sniff_packets; change (sniff_skipped (dressed o d m)) with (sniff_skipped m);
    rewrite H1, ?H2, ?H3; done).
  rewrite <- (peek_dressed a o d m Hn). intros Hp.
  destruct (peek_packet _ _ _ _) as [[sm err]| |] eqn:Hk; cbn [mbind outcome_bind] in Hp; [|done..]. destruct (is_need_more err) eqn:He; [done|]. injection Hp as <-.
  assert (is_need_more (SniffError (sniff_end net a sm err m)) = false) as Hn' by by rewrite sniff_end_error.
  exists (Packets [(firstPacket, from)] events). split_and!; [|by right | done].
  destruct Hc as [-> | ->]; cbn [act]; unfold sniff_packets; change (sniff_skipped (dressed o d m)) with (sniff_skipped m); rewrite H1, H2, H3;
    cbn [sniff_buffered sniff_reading mbind outcome_bind mret outcome_ret]; rewrite Hk; cbn [mbind outcome_bind]; rewrite He, sniff_end_dressed; done.
Qed.

(** *** The loop over the rules *)

(** No rule overrides the address after a rule that resolves the name. *)
Fixpoint settled (resolved : bool) (rules : list Rule) : bool :=
  match rules with
  | [] => true
  | r :: rules =>
      match Action r with
      | ActionResolve _ => settled true rules
      | a => match routeOptions a with Some o => negb (resolved && IsValid net (OverrideAddress o)) | None => true end && settled resolved rules
      end
  end.

Record inv (network : text) (resolved : bool) (m : Meta) : Prop := {
  inv_network : Rules.Network (facts m) = network;
  inv_ignore : Rules.IgnoreDestinationIPCIDRMatch (context m) = false;
  inv_more : is_need_more (SniffError m) = false;
  inv_addresses : resolved = false -> Rules.DestinationAddresses (facts m) = []
}.

Lemma inv_options network resolved x m : inv network resolved m -> inv network resolved (applyRouteOptionsOverride net x m).
Proof. intros [H1 H2 H3 H4]. unfold applyRouteOptionsOverride. destruct (IsValid _ _), (0 <? OverridePort x), (0 <? UDPTimeout (dial x)); by split. Qed.

Lemma inv_resolve network resolved a m m1 : inv network resolved m -> actionResolve net srv a m = Some m1 -> inv network true m1 /\ dialOptions m1 = dialOptions m.
Proof.
  intros [H1 H2 H3 H4]. unfold actionResolve. destruct (IsDomain _ _); [|intros [= <-]; by repeat split]. destruct (_ && _); [done|].
  destruct (Lookup _ _ _ _); cbn [mbind option_bind]; [intros [= <-]; by repeat split | done].
Qed.

Lemma inv_sniff network resolved a m m1 : inv network resolved m -> pre_sniff net sniffers a m firstPacket = Returns (Some m1) ->
  is_need_more (SniffError m1) = false -> inv network resolved m1 /\ dialOptions m1 = dialOptions m.
Proof.
  intros [H1 H2 H3 H4] Hp Hn. revert Hp. unfold pre_sniff. cbv zeta.
  destruct (bool_decide (_ = str "icmp")); [intros [= <-]; by repeat split|]. destruct (_ || _); [done|]. destruct (sniff_skipped m); [intros [= <-]; by repeat split|].
  destruct (_ && negb (none _)); [intros [= <-]; by repeat split|]. destruct (same_sniffers a m && _); [intros [= <-]; by repeat split|].
  destruct (PeekPacket _ _ _ _) as [[sm err]| |]; cbn [mbind outcome_bind]; [|done..].
  destruct (is_need_more err); [done|]. intros [= <-]. unfold sniff_end in *. destruct (bool_decide (err = [])); [|by repeat split].
  unfold override_destination in *. destruct (_ && _); by repeat split.
Qed.

Lemma Match_keeps r m : Rules.IgnoreDestinationIPCIDRMatch (context m) = false -> RulesProps.blind r ->
  exists b, Rules.Match lib IsAndroid r (Rules.ResetRuleCache (context m)) = (b, Rules.ResetRuleCache (context m)) /\
    let c := Rules.ResetRuleCache (context (set_PreMatch false m)) in Rules.Match lib IsAndroid r c = (b, c).
Proof.
  intros Hi Hb. destruct m as [[f ms ae de ig]]. cbn in Hi. subst ig. eexists.
  split; [apply (RulesProps.Match_sem lib IsAndroid r f false false)|]. cbv zeta.
  rewrite <- (RulesProps.sem_blind lib IsAndroid r f false false false Hb). apply (RulesProps.Match_sem lib IsAndroid r (Rules.with_PreMatch f false) false false).
Qed.

(** The connection that the router gets for a flow of the network. *)
Definition sees (network : text) (c : input) : Prop :=
  (network = str "udp" /\ ready c) \/ (network = str "tcp" /\ exists buffers evs, c = Stream buffers evs).

(** A result that follows from what the router selects: the selected outbound is asked
    about the destination that the router would have it connect to. *)
Definition justified (now : Z) (packetDestination : Rules.Socksaddr) (result : PreMatchResult) (s : selection) : Prop :=
  match s with
  | Fatal => result = plain PreMatchReject
  | Selected r m _ =>
      match option_map Action r with
      | None => result = preMatchFlow net outs m packetDestination []
      | Some (ActionRoute tag _) => result = preMatchFlow net outs m packetDestination tag
      | Some (ActionBypass tag _) => result = pre_bypass net outs tag m packetDestination
      | Some (ActionReject a) => result = pre_reject (fst (Reject_Error a now)) m
      | Some ActionHijackDNS => result = plain PreMatchHijackDNS
      | _ => False
      end
  end.

Lemma flow_dressed o d m packetDestination tag : UDPTimeout d = UDPTimeout (dialOptions m) ->
  preMatchFlow net outs (dressed o d m) packetDestination tag = preMatchFlow net outs m packetDestination tag.
Proof. intros Hd. unfold preMatchFlow, judge_flow, flow_timeout. change (dialOptions (dressed o d m)) with d. by rewrite Hd. Qed.

Lemma bypass_dressed o d m packetDestination tag : UDPTimeout d = UDPTimeout (dialOptions m) ->
  pre_bypass net outs tag (dressed o d m) packetDestination = pre_bypass net outs tag m packetDestination.
Proof. intros Hd. unfold pre_bypass. by rewrite flow_dressed. Qed.

Local Abbreviation match_loop := (match_loop net srv lib IsAndroid sniffers).
Local Abbreviation pre_loop := (pre_loop net srv lib IsAndroid sniffers outs).

(** What the order of the rules says of the first and of those after it. *)
Lemma settled_cons resolved r rules : settled resolved (r :: rules) = true ->
  settled (match Action r with ActionResolve _ => true | _ => resolved end) rules = true /\
  forall x, routeOptions (Action r) = Some x -> IsValid net (OverrideAddress x) = true -> resolved = false.
Proof.
  cbn [settled]. destruct (Action r); try (intros [Ho Hs]%andb_true_iff; split; [exact Hs|]; intros x Hx; rewrite Hx in Ho; intros Hv; rewrite Hv, andb_true_r in Ho;
    by destruct resolved). intros Hs. split; [exact Hs | done].
Qed.

Lemma inv_weaken network resolved resolved' m : (resolved' = false -> resolved = false) -> inv network resolved m -> inv network resolved' m.
Proof. intros H [H1 H2 H3 H4]. split; auto. Qed.

Section Loop.

Context (network : text) (now : Z) (packetDestination : Rules.Socksaddr).

Definition agrees (rules : list Rule) (m : Meta) (o : Rules.Socksaddr) (d : DialOptions) (c : input) (result : PreMatchResult) : Prop :=
  action result = PreMatchContinue \/ result = plain PreMatchBypass \/
  exists s, match_loop rules (dressed o d m) c = Returns s /\ justified now packetDestination result s.

(** The rules after one that the router goes on from. *)
Lemma agrees_after rules m o d c rules' m' o' d' c' result : match_loop rules (dressed o d m) c = match_loop rules' (dressed o' d' m') c' ->
  agrees rules' m' o' d' c' result -> agrees rules m o d c result.
Proof. intros Hm [H|[H|(s & Hs & Hj)]]; [by left | by right; left | right; right; exists s; by rewrite Hm]. Qed.

(** The rule that the router selects. *)
Lemma agrees_at rules m o d c result s : match_loop rules (dressed o d m) c = Returns s -> justified now packetDestination result s -> agrees rules m o d c result.
Proof. intros Hm Hj. right. right. by exists s. Qed.

(** A rule that does not match, and one that does. *)
Lemma match_skips r rules o d m c :
  (let c := Rules.ResetRuleCache (context (set_PreMatch false m)) in Rules.Match lib IsAndroid (condition r) c = (false, c)) ->
  match_loop (r :: rules) (dressed o d m) c = match_loop rules (dressed o d (set_context (Rules.ResetRuleCache (context m)) m)) c.
Proof.
  intros Hb. cbv zeta in Hb. cbn [Router.match_loop]. change (context (dressed o d m)) with (context (set_PreMatch false m)). by rewrite Hb.
Qed.

Lemma match_acts r rules o d m c o' d' m1 out :
  (let c := Rules.ResetRuleCache (context (set_PreMatch false m)) in Rules.Match lib IsAndroid (condition r) c = (true, c)) ->
  (let m0 := dressed o d (set_context (Rules.ResetRuleCache (context m)) m) in
   match routeOptions (Action r) with Some x => apply_options net x m0 | None => m0 end = dressed o' d' m1) ->
  act net srv sniffers (Action r) (dressed o' d' m1) c = Returns out ->
  match_loop (r :: rules) (dressed o d m) c =
  match out with None => Returns Fatal | Some (m2, c2) => if is_final (Action r) then Returns (Selected (Some r) m2 c2) else match_loop rules m2 c2 end.
Proof.
  intros Hb Hx Ha. cbv zeta in Hb, Hx. cbn [Router.match_loop]. change (context (dressed o d m)) with (context (set_PreMatch false m)).
  rewrite Hb. cbn [negb].
  change (set_context (Rules.ResetRuleCache (context (set_PreMatch false m))) (dressed o d m)) with (dressed o d (set_context (Rules.ResetRuleCache (context m)) m)).
  rewrite Hx, Ha. done.
Qed.

Lemma loop_agrees rules resolved m o d c result rejecting :
  Forall (fun r => RulesProps.blind (condition r)) rules ->
  settled resolved rules = true -> inv network resolved m -> UDPTimeout d = UDPTimeout (dialOptions m) -> sees network c ->
  pre_loop rules now m firstPacket packetDestination = Returns (result, rejecting) -> agrees rules m o d c result.
Proof.
  intros Hbl. revert resolved m o d c. induction Hbl as [|r rules Hbr Hbl IH]; intros resolved m o d c Hs Hi Hd Hc; cbn [PreMatch.pre_loop].
  { intros [= <- <-]. eapply agrees_at; [done|]. cbn. by rewrite flow_dressed. }
  destruct (Match_keeps (condition r) m (inv_ignore _ _ _ Hi) Hbr) as (b & Hb' & Hb). rewrite Hb'. set (m0 := set_context (Rules.ResetRuleCache (context m)) m).
  assert (inv network resolved m0) as Hi0 by (destruct Hi; by split). destruct (settled_cons _ _ _ Hs) as [Hs' Ho].
  destruct b; cbn [negb].
  2: { intros Hp. eapply agrees_after; [by apply match_skips|]. eapply (IH _ m0); try done. eapply inv_weaken; [|exact Hi0]. by destruct (Action r). }
  assert (forall x, routeOptions (Action r) = Some x -> exists o' d', apply_options net x (dressed o d m0) = dressed o' d' (applyRouteOptionsOverride net x m0) /\
    UDPTimeout d' = UDPTimeout (dialOptions (applyRouteOptionsOverride net x m0))) as Hopt.
  { intros x Hx. apply options_dressed; [|done]. intros Hv. by apply (inv_addresses _ _ _ Hi0), (Ho x). }
  pose proof (fun o' d' m1 out => match_acts r rules o d m c o' d' m1 out Hb) as Hact. cbv zeta in Hact. fold m0 in Hact. clear Hb Hb' Ho.
  destruct (Action r) as [tag x|x|tag x| |a| |a|a] eqn:Ha; cbn [routeOptions act is_final] in Hact, Hopt.
  - intros [= <- <-]. destruct (Hopt x eq_refl) as (o' & d' & Hx & Hd'). eapply agrees_at; [exact (Hact _ _ _ _ Hx eq_refl)|]. cbn. rewrite Ha. by rewrite flow_dressed.
  - intros Hp. destruct (Hopt x eq_refl) as (o' & d' & Hx & Hd'). eapply agrees_after; [exact (Hact _ _ _ _ Hx eq_refl)|]. eapply IH; try done. by apply inv_options.
  - intros [= <- <-]. unfold pre_bypass. destruct (bool_decide (tag = [])) eqn:Ht.
    { destruct (_ || _); [by left | by right; left]. }
    destruct (Hopt x eq_refl) as (o' & d' & Hx & Hd'). eapply agrees_at; [exact (Hact _ _ _ _ Hx eq_refl)|]. cbn. rewrite Ha.
    rewrite bypass_dressed by done. unfold pre_bypass. by rewrite Ht.
  - intros [= <- <-]. by left.
  - destruct (Reject_Error a now) as [e a'] eqn:He. intros [= <- <-]. eapply agrees_at; [exact (Hact _ _ _ _ eq_refl eq_refl)|]. cbn. by rewrite Ha, He.
  - intros [= <- <-]. destruct (bool_decide _); [|by left]. eapply agrees_at; [exact (Hact _ _ _ _ eq_refl eq_refl)|]. cbn. by rewrite Ha.
  - destruct (pre_sniff net sniffers a m0 firstPacket) as [[m1|]| |] eqn:Hsn; cbn [mbind outcome_bind]; [|intros [= <- <-]; by left|done..]. intros Hp.
    destruct Hc as [[Hn Hr]|[Hn _]]; [|exfalso; revert Hsn; unfold pre_sniff; rewrite (inv_network _ _ _ Hi0), Hn; done].
    destruct (sniff_agrees a o d m0 m1 c Hr (inv_more _ _ _ Hi0) ltac:(by rewrite (inv_network _ _ _ Hi0))) as (c' & Hc' & Hr' & Hm'); [done|].
    destruct (inv_sniff _ _ _ _ _ Hi0 Hsn Hm') as [Hi1 Hd1]. eapply agrees_after; [exact (Hact _ _ _ _ eq_refl Hc')|].
    eapply IH; try done; [by rewrite Hd1 | by left].
  - pose proof (actionResolve_dressed a o d m0) as Hres.
    destruct (actionResolve net srv a m0) as [m1|] eqn:Hrs; cbn [option_map] in Hres.
    + intros Hp. destruct (inv_resolve _ _ _ _ _ Hi0 Hrs) as [Hi1 Hd1].
      eapply agrees_after; [exact (Hact _ _ _ (Some (dressed o d m1, c)) eq_refl ltac:(rewrite Hres; done))|]. eapply IH; try done. by rewrite Hd1.
    + intros [= <- <-]. eapply agrees_at; [exact (Hact _ _ _ None eq_refl ltac:(rewrite Hres; done))|]. done.
Qed.

End Loop.

(** *** The whole judgement *)

Lemma inv_prepare network m m1 : prepareMatchMetadata net srv lib m = Some m1 -> inv network false m -> inv network false m1.
Proof. apply kept_prepare. split; intros m' x []; by split. Qed.

Lemma prematch_justified rules now m c result rejecting network : Forall (fun r => RulesProps.blind (condition r)) rules ->
  Rules.PreMatch (facts m) = false -> settled false rules = true -> inv network false m -> sees network c ->
  PreMatch net srv lib IsAndroid sniffers outs rules now m firstPacket = Returns (result, rejecting) ->
  action result = PreMatchContinue \/ result = plain PreMatchBypass \/
  exists s, matchRule net srv lib IsAndroid sniffers rules m c = Returns s /\ justified now (Destination m) result s.
Proof.
  intros Hbl Hmark Hs Hi Hc. unfold PreMatch, matchRule. rewrite prepare_marked.
  destruct (prepareMatchMetadata net srv lib m) as [m1|] eqn:Hm; [|intros [= <- <-]; by left]. cbn [option_map].
  assert (Rules.PreMatch (facts m1) = false) as Hmark1 by (revert Hmark; by apply (kept_prepare (fun m => Rules.PreMatch (facts m) = false) net srv lib m m1)).
  apply (inv_prepare network) in Hm; [|done]. intros Hp. set (m2 := set_PreMatch true m1) in Hp.
  assert (inv network false m2) as Hi2 by (destruct Hm; by split).
  assert (m1 = dressed (RouteOriginalDestination m2) (dialOptions m2) m2) as Heta by (destruct m1 as [[[] ? ? ? ?]]; cbn in Hmark1; by subst).
  destruct (loop_agrees network now (Destination m) rules false m2 (RouteOriginalDestination m2) (dialOptions m2) c result rejecting Hbl Hs Hi2 eq_refl Hc Hp) as [H|[H|H]];
    [by left | by right; left | right; right]. by rewrite <- Heta in H.
Qed.

(** The outbound of the selected rule, through the groups. *)
Definition selected_outbound (r : option Rule) : option outbound :=
  let named tag := if bool_decide (tag = []) then Some (default_outbound outs) else find_outbound outs tag in
  match option_map Action r with Some (ActionRoute tag _) | Some (ActionBypass tag _) => named tag | _ => named [] end ≫= member outs 8.

Lemma flow_via m packetDestination tag : action (preMatchFlow net outs m packetDestination tag) = PreMatchFlow ->
  via (preMatchFlow net outs m packetDestination tag) = ((if bool_decide (tag = []) then Some (default_outbound outs) else find_outbound outs tag) ≫= member outs 8).
Proof.
  unfold preMatchFlow. destruct (_ ≫= _) as [o|]; [|done]. destruct (negb _); [done|]. destruct (judge o) as [f|]; [|done].
  unfold judge_flow. cbv zeta. destruct (bool_decide_reflect (f (Rules.Network (facts m)) (Rules.Addr (Destination m)) = PreMatchFlow)); [|done]. cbn [negb].
  destruct (IsDomain _ _); [|by destruct (negb _)]. destruct (negb _); [done|]. destruct (List.find _ _) as [a|]; [|done]. destruct (addr_valid a); [|done].
  destruct (bool_decide_reflect (f (Rules.Network (facts m)) a = PreMatchFlow)); done.
Qed.

Lemma justified_flow now packetDestination result s : justified now packetDestination result s -> action result = PreMatchFlow ->
  exists r m c, s = Selected r m c /\ via result = selected_outbound r.
Proof.
  intros Hj Ha. destruct s as [|r m c]; [by rewrite Hj in Ha|]. exists r, m, c. split; [done|]. cbn [justified] in Hj. unfold selected_outbound.
  destruct (option_map Action r) as [[tag x|x|tag x| |a| |a|a]|]; try done.
  - rewrite Hj in Ha |- *. by apply flow_via.
  - rewrite Hj in Ha |- *. unfold pre_bypass in *. destruct (bool_decide (tag = [])) eqn:Ht; [by destruct (_ || _)|].
    destruct (_ || _); [rewrite flow_via by done; by rewrite Ht | by destruct (negb _)].
  - rewrite Hj in Ha. by destruct (fst _) as [[]|]; cbn in Ha; try destruct (bool_decide _).
  - by rewrite Hj in Ha.
  - rewrite Hj in Ha |- *. by apply flow_via.
Qed.

End Props.

(** ** Properties *)


(** A group with a WireGuard endpoint selected, a STUN sniffer and a rule for it. *)
Definition example_wg : outbound := mkOutbound (str "wg") [str "tcp"; str "udp"] None (Some (fun _ _ => PreMatchFlow)) true.
Definition example_outs : Outbounds :=
  mkOutbounds (fun tag => if bool_decide (tag = str "auto") then Some (mkOutbound tag [str "tcp"; str "udp"] (Some (str "wg")) None false)
                          else if bool_decide (tag = str "wg") then Some example_wg else None)
    (mkOutbound (str "direct") [str "tcp"; str "udp"] None None false).
Definition example_dial : DialOptions := mkDial None [] [] 0 false false 0 false 0 false [] 0.
Definition to_group (address : Rules.Socksaddr) : list Rule := [mkRule catch_all (ActionRoute (str "auto") (mkRouteOptions address 0 example_dial))].
Definition example_judged (rules : list Rule) : outcome (FlowVerdict * option RuleActionReject) :=
  JudgeFlow example_net example_srv example_lib false example_sniffers example_outs (fun s => Rules.mkSocksaddr (fst s) [] (snd s)) rules 0 (str "tun-in") (str "tun") 17
    (AllowedIPs.Addr4 [10; 0; 0; 2], 40000) (AllowedIPs.Addr4 [192; 0; 2; 1], 443) [1; 2; 3].

Lemma example_unmarked : unmarked example_srv (sniffing [str "stun"] ++ to_group no_addr).
Proof. split; [done|]. repeat constructor; by intros it []. Qed.


(** An outbound that takes every flow of the network. *)
Definition takes (outs : Outbounds) (tag : text) (network : text) (o : outbound) : Prop :=
  find_outbound outs tag = Some o /\ Now o = None /\ network ∈ Network o /\ exists f, judge o = Some f /\ forall a, f network a = PreMatchFlow.

(** Rules for every connection, on both sides. *)
Definition reset (m : Meta) : Meta := set_context (Rules.ResetRuleCache (context m)) m.

Section Always.

Context (net : Net) (srv : Services) (lib : Rules.Library) (IsAndroid : bool) (sniffers : Sniffers) (outs : Outbounds) (rules : list Rule) (m : Meta).

Lemma pre_always a now firstPacket packetDestination (always := mkRule catch_all a :: rules) :
  pre_loop net srv lib IsAndroid sniffers outs always now m firstPacket packetDestination =
  match a with
  | ActionResolve x =>
      match actionResolve net srv x (reset m) with
      | Some m => pre_loop net srv lib IsAndroid sniffers outs rules now m firstPacket packetDestination
      | None => Returns (plain PreMatchReject, None)
      end
  | ActionRouteOptions x => pre_loop net srv lib IsAndroid sniffers outs rules now (applyRouteOptionsOverride net x (reset m)) firstPacket packetDestination
  | ActionRoute tag x => Returns (preMatchFlow net outs (applyRouteOptionsOverride net x (reset m)) packetDestination tag, None)
  | _ => pre_loop net srv lib IsAndroid sniffers outs always now m firstPacket packetDestination
  end.
Proof. by destruct a. Qed.

Lemma match_always a c (always := mkRule catch_all a :: rules) :
  match_loop net srv lib IsAndroid sniffers always m c =
  match a with
  | ActionResolve x => match actionResolve net srv x (reset m) with Some m => match_loop net srv lib IsAndroid sniffers rules m c | None => Returns Fatal end
  | ActionRouteOptions x => match_loop net srv lib IsAndroid sniffers rules (apply_options net x (reset m)) c
  | ActionRoute tag x => Returns (Selected (Some (mkRule catch_all a)) (apply_options net x (reset m)) c)
  | _ => match_loop net srv lib IsAndroid sniffers always m c
  end.
Proof.
  destruct a; try done. cbn. change (set_context (Rules.ResetRuleCache (context m)) m) with (reset m). by destruct (actionResolve _ _ _ _).
Qed.

End Always.

(** A flow to a FakeIP destination goes to an address of the name. *)
Lemma flow_to_fake net outs m packetDestination tag o a : tag <> [] -> takes outs tag (Rules.Network (facts m)) o ->
  IsDomain net (Destination m) = true -> FakeIP m = true ->
  List.find (fun a => eqb (Is4 a) (IsIPv4 net packetDestination)) (Rules.DestinationAddresses (facts m)) = Some a -> addr_valid a = true ->
  preMatchFlow net outs m packetDestination tag = mkResult PreMatchFlow (Some o) (Some (a, Rules.Port (Destination m))) (flow_timeout m).
Proof.
  intros Ht (Ho & Hnow & Hn & f & Hj & Hf) Hd Hfake Ha Hv. unfold preMatchFlow. rewrite (bool_decide_eq_false_2 _ Ht), Ho. cbn [mbind option_bind member].
  rewrite Hnow, bool_decide_eq_true_2 by done. cbn [negb]. rewrite Hj. unfold judge_flow. cbv zeta. rewrite !Hf, Hd, Hfake, Ha, Hv, Hf. done.
Qed.

(** The effect of a name as the address of a rule, and of no address. *)
Lemma override_name net x m : IsValid net (OverrideAddress x) = true -> OverridePort x = 0 ->
  let m' := applyRouteOptionsOverride net x m in
  Destination m' = Rules.mkSocksaddr (Rules.Addr (OverrideAddress x)) (Rules.Fqdn (OverrideAddress x)) (Rules.Port (Destination m)) /\
  Rules.DestinationAddresses (facts m') = Rules.DestinationAddresses (facts m) /\ Rules.Network (facts m') = Rules.Network (facts m) /\ FakeIP m' = FakeIP m.
Proof. intros Hv Hp. unfold applyRouteOptionsOverride. rewrite Hv, Hp. by destruct (0 <? UDPTimeout _). Qed.

Lemma override_nothing net x m : IsValid net (OverrideAddress x) = false -> OverridePort x = 0 ->
  facts (applyRouteOptionsOverride net x m) = facts m /\ FakeIP (applyRouteOptionsOverride net x m) = FakeIP m.
Proof. intros Hv Hp. unfold applyRouteOptionsOverride. rewrite Hv, Hp. by destruct (0 <? UDPTimeout _). Qed.

Lemma options_name net x m : IsValid net (OverrideAddress x) = true -> OverridePort x = 0 ->
  Destination (apply_options net x m) = Rules.mkSocksaddr (Rules.Addr (OverrideAddress x)) (Rules.Fqdn (OverrideAddress x)) (Rules.Port (Destination m)) /\
  Rules.DestinationAddresses (facts (apply_options net x m)) = [].
Proof.
  intros Hv Hp. unfold apply_options. rewrite Hv. set (m1 := if _ && _ then _ else m). assert (Destination m1 = Destination m) as Hd by (unfold m1; by destruct (_ && _)).
  destruct (override_name net x (set_facts (put_addresses [] (facts m1)) m1) Hv Hp) as (H1 & H2 & _). rewrite <- Hd. done.
Qed.

Lemma options_nothing net x m : IsValid net (OverrideAddress x) = false -> OverridePort x = 0 -> facts (apply_options net x m) = facts m.
Proof.
  intros Hv Hp. unfold apply_options. rewrite Hv, Hp. change ((false || (0 <? 0)) && negb (IsValid net (RouteOriginalDestination m))) with false. cbv iota.
  by destruct (override_nothing net x m Hv Hp) as [<- _].
Qed.

(** C39. without that order the two disagree.  The rules resolve the name of a FakeIP
    destination, then override the address by another name, then route.  The router
    forgets the addresses of the first name and has the outbound connect to the second;
    the judgement keeps them and has the flow forwarded to an address of the name that
    was overridden. *)
Theorem override_forwards_to_old_name net srv lib IsAndroid sniffers outs rules now m m1 firstPacket c resolve options tag last addresses a o :
  rules = [mkRule catch_all (ActionResolve resolve); mkRule catch_all (ActionRouteOptions options); mkRule catch_all (ActionRoute tag last)] ->
  tag <> [] -> takes outs tag (Rules.Network (facts m1)) o ->
  prepareMatchMetadata net srv lib m = Some m1 -> FakeIP m1 = true -> IsDomain net (Destination m1) = true ->
  Server resolve = [] -> (forall f, Lookup srv f (Rules.Fqdn (Destination m1)) resolve = Some addresses) ->
  List.find (fun a => eqb (Is4 a) (IsIPv4 net (Destination m))) addresses = Some a -> addr_valid a = true ->
  IsValid net (OverrideAddress options) = true -> OverridePort options = 0 ->
  IsDomain net (Rules.mkSocksaddr (Rules.Addr (OverrideAddress options)) (Rules.Fqdn (OverrideAddress options)) (Rules.Port (Destination m1))) = true ->
  IsValid net (OverrideAddress last) = false -> OverridePort last = 0 ->
  (exists timeout rejecting, PreMatch net srv lib IsAndroid sniffers outs rules now m firstPacket =
    Returns (mkResult PreMatchFlow (Some o) (Some (a, Rules.Port (Destination m1))) timeout, rejecting)) /\
  exists r m', matchRule net srv lib IsAndroid sniffers rules m c = Returns (Selected (Some r) m' c) /\
    Rules.Fqdn (Destination m') = Rules.Fqdn (OverrideAddress options) /\ Rules.DestinationAddresses (facts m') = [].
Proof.
  intros -> Htag Ho Hp Hfake Hd Hsrv Hl Ha Hv Hov Hport Hd2 Hlv Hlp.
  assert (forall m0, Destination m0 = Destination m1 -> actionResolve net srv resolve (reset m0) = Some (set_facts (put_addresses addresses (facts (reset m0))) (reset m0))) as Hres.
  { intros m0 E. unfold actionResolve. change (Destination (reset m0)) with (Destination m0). rewrite E, Hd, Hsrv, Hl. done. }
  unfold PreMatch, matchRule. rewrite prepare_marked, Hp. cbn [option_map]. rewrite pre_always, match_always, !Hres by done. rewrite pre_always, match_always. split.
  - set (m3 := set_facts (put_addresses addresses (facts (reset (set_PreMatch true m1)))) (reset (set_PreMatch true m1))).
    destruct (override_name net options (reset m3) Hov Hport) as (Hd5 & Ha5 & Hn5 & Hf5). set (m5 := applyRouteOptionsOverride net options (reset m3)) in *.
    rewrite pre_always. destruct (override_nothing net last (reset m5) Hlv Hlp) as [Hf7 Hk7].
    assert (Destination (applyRouteOptionsOverride net last (reset m5)) = Destination m5) as Hd7 by (unfold Destination; by rewrite Hf7).
    eexists _, _. erewrite flow_to_fake; [rewrite Hd7, Hd5; reflexivity | done | | | | | done].
    + rewrite Hf7. change (facts (reset m5)) with (facts m5). rewrite Hn5. exact Ho.
    + by rewrite Hd7, Hd5.
    + rewrite Hk7. change (FakeIP (reset m5)) with (FakeIP m5). by rewrite Hf5.
    + rewrite Hf7. change (facts (reset m5)) with (facts m5). by rewrite Ha5.
  - set (m3 := set_facts (put_addresses addresses (facts (reset m1))) (reset m1)).
    rewrite match_always. eexists _, _. split; [reflexivity|]. unfold Destination. rewrite (options_nothing _ _ _ Hlv Hlp).
    change (facts (reset ?x)) with (facts x). destruct (options_name net options (reset m3) Hov Hport) as [Hd5 Ha5]. unfold Destination in Hd5. by rewrite Hd5.
Qed.


(** a.example has the FakeIP address 198.18.0.5 and the address 192.0.2.1. *)
Definition fake_addr : AllowedIPs.addr := AllowedIPs.Addr4 [198; 18; 0; 5].
Definition fake_srv : Services :=
  mkServices None None [] None (Some (fun a => match a with AllowedIPs.Addr4 b => bool_decide (take 2 b = [198; 18]) | _ => false end,
      fun _ => Some (str "a.example"))) (fun _ => None) (fun _ => false) (fun _ _ _ => Some [AllowedIPs.Addr4 [192; 0; 2; 1]]).
Definition fake_meta : Meta := flow_meta (str "tun-in") (str "tun") (str "udp") (Rules.mkSocksaddr (AllowedIPs.Addr4 [10; 0; 0; 2]) [] 40000) (Rules.mkSocksaddr fake_addr [] 443).
Definition resolve_all : RuleActionResolve := mkResolve [] 0 0 false false None None.
Definition to_other : RuleActionRouteOptions := mkRouteOptions (Rules.mkSocksaddr AllowedIPs.AddrInvalid (str "b.example") 0) 0 example_dial.
Definition old_name_rules : list Rule :=
  [mkRule catch_all (ActionResolve resolve_all); mkRule catch_all (ActionRouteOptions to_other); mkRule catch_all (ActionRoute (str "wg") (mkRouteOptions no_addr 0 example_dial))].
Definition fake_prepared : Meta := default fake_meta (prepareMatchMetadata example_net fake_srv example_lib fake_meta).

Lemma override_forwards_to_old_name_witness :
  (exists timeout rejecting, PreMatch example_net fake_srv example_lib false example_sniffers example_outs old_name_rules 0 fake_meta [1; 2; 3] =
    Returns (mkResult PreMatchFlow (Some example_wg) (Some (AllowedIPs.Addr4 [192; 0; 2; 1], 443)) timeout, rejecting)) /\
  exists r m', matchRule example_net fake_srv example_lib false example_sniffers old_name_rules fake_meta (Packets [] []) = Returns (Selected (Some r) m' (Packets [] [])) /\
    Rules.Fqdn (Destination m') = str "b.example" /\ Rules.DestinationAddresses (facts m') = [].
Proof.
  apply (override_forwards_to_old_name example_net fake_srv example_lib false example_sniffers example_outs old_name_rules 0 fake_meta fake_prepared [1; 2; 3] (Packets [] [])
    resolve_all to_other (str "wg") (mkRouteOptions no_addr 0 example_dial) [AllowedIPs.Addr4 [192; 0; 2; 1]] (AllowedIPs.Addr4 [192; 0; 2; 1]) example_wg);
    try reflexivity; [done|].
  split_and!; [reflexivity | reflexivity | by_eval | by exists (fun _ _ => PreMatchFlow)].
Defined.

End PreMatchProps.
